(* ===== verification/_CoqProject ===== *)
-Q . S2P
Prelude.v
MemblockTable.v
MemblockIter.v
Memblock.v
MemblockLimits.v
MemblockGrowth.v
MemblockSpec.v
FindBit.v
Hweight.v
Bitmap.v
BitmapFacts.v
BitmapSpec.v
IrqMatrix.v
IrqMatrixFacts.v
IrqMatrixSpec.v
Kfifo.v
KfifoFacts.v
KfifoShared.v
KfifoSpec.v
NumText.v
NumTextFacts.v
NumTextPrint.v
NumTextSpec.v
Mem.v
HeapLogic.v
RbTree.v
RbTreeFacts.v
RbTreeLogic.v
RbTreeWalk.v
RbTreeErase.v
RbTreeSpec.v
TimerQueue.v
TimerQueueSpec.v
TimerWheel.v
TimerWheelTime.v
TimerWheelFacts.v
TimerWheelRun.v
TimerWheelNext.v
TimerWheelSpec.v
Buddy.v
BuddyBlocks.v
BuddyFacts.v
BuddyOps.v
BuddyFallback.v
PageAlloc.v
PageAllocFacts.v
PageAllocPcp.v
PageAllocFree.v
PageAllocOps.v
PageAllocSystem.v
PageAllocSpec.v
PageGet.v
PageGetFacts.v
PageGetSpec.v
Slob.v
SlobLogic.v
SlobHeap.v
SlobKmalloc.v
SlobCaches.v
SlobClient.v
SlobRun.v
PageSourceInst.v
SlobSpec.v
