(* ===== verification/Prelude.v ===== *)
(** A verification of core data structures of a minimal Linux kernel.

    The program is a Linux kernel cut down to what boots on one CPU.  The development
    covers its memory allocators, its timers, its interrupt vector allocator and the
    library code under them.

    * Parts, and how they interact

    - Boot memory (mm/memblock.c).  [MemblockTable]: a sorted array of regions with its
      running total.  [MemblockIter]: the walk over two tables in lockstep and the searches
      for free ranges.  [Memblock]: the state with both tables and the entry points, with
      the growth of a table, which allocates from the allocator itself; clients are proved
      against the class [TableGrower].  [MemblockLimits]: trimming and limiting.
      [MemblockGrowth]: growth comes to an end.  [MemblockSpec]: the theorems.
    - Page allocator (mm/page_alloc.c), which takes over from the boot allocator.  [Buddy]:
      the free lists of a zone, merging, splitting, migrate types.  [PageAlloc]: page
      checks, per-CPU lists, [rmqueue], [__free_pages], watermarks.  [BuddyBlocks]: the
      mathematics of sets of blocks.  [BuddyFacts], [BuddyOps], [BuddyFallback],
      [PageAllocFacts], [PageAllocPcp], [PageAllocFree], [PageAllocOps]: the invariant and
      each routine.  [PageAllocSystem]: the allocator with its users as a transition
      system.  [PageAllocSpec]: the theorems.  [PageGet], [PageGetFacts], [PageGetSpec]:
      get_page_from_freelist and compound pages.
    - kmalloc and object caches (mm/slob.c), which take their pages from the page allocator.
      [Slob] is the code; [SlobLogic] has the free blocks of a page, [SlobHeap] the pages and
      the interface to the page allocator ([PageSource] with its laws [PageSourceLaws]),
      [SlobKmalloc] and [SlobCaches] the objects, [SlobClient] the specification as a store of
      objects, [SlobRun] what a run leaves in memory.  [PageSourceInst]: the page allocator of a
      zone satisfies the interface.  [SlobSpec]: the theorems.
    - Bits (lib/find_bit.c, lib/hweight.c, lib/bitmap.c).  [FindBit], [Hweight], [Bitmap]
      with [BitmapFacts] and [BitmapSpec].  Used by the interrupt matrix and the timers.
    - Interrupt vectors (kernel/irq/matrix.c).  [IrqMatrix], [IrqMatrixFacts],
      [IrqMatrixSpec].
    - Timers.  [TimerWheel] (kernel/time/timer.c) with [TimerWheelTime] (times and buckets),
      [TimerWheelFacts] (the invariant), [TimerWheelRun] (expiry as a transition system in
      which timer functions and others call back), [TimerWheelNext] (the next event) and
      [TimerWheelSpec].
    - Red-black trees and timer queues (lib/rbtree.c, lib/timerqueue.c).  [Mem] is a memory
      of words and a monad of programs on it, [HeapLogic] a separation logic for it.
      SLOB uses both.  [RbTree] is the pointer code; [RbTreeFacts], [RbTreeLogic], [RbTreeWalk] and
      [RbTreeErase] prove it; [RbTreeSpec] has the theorems.  [TimerQueue] and
      [TimerQueueSpec] are proved on the theorems about trees.
    - FIFOs (lib/kfifo.c).  [Kfifo], [KfifoFacts], [KfifoSpec]; [KfifoShared] has one reader and
      one writer as programs over single accesses to the shared fifo.
    - Numbers and text (lib/kstrtox.c, lib/vsprintf.c, lib/hexdump.c, lib/cmdline.c).
      [NumText], [NumTextFacts], [NumTextPrint], [NumTextSpec].

    Definitions have the names of the C functions they translate; a loop is a definition of
    its own, named after its function.

    * How C is translated

    An integer is a [Z] with the wrap-around of its type written out ([w64], [w32], [s32],
    [s64]).  A function returns [res]: a value, [BUG] for a BUG_ON or an access outside an
    object, or [OutOfFuel].  State is passed explicitly.  Where pointers matter (trees, timer
    queues and SLOB) memory is a finite map from addresses to words, of 16 bits for SLOB;
    elsewhere a linked list is the list of its elements.  SLOB and the page allocator each keep
    the fields of struct page that they use; those that share a word are reset before a page
    changes hands ([slob_free]).  Code that is not in the repository, and code the part only
    calls, is a parameter: [BootEnv] (kmalloc and the end of the kernel image), the copies
    from and to user space, the timer functions, the address of the RCU callback of SLOB
    ([KernelText]).

    The configuration is that of the file minimalconfig: x86-64, one CPU, one memory node,
    HZ=250, no CMA, no memory isolation, no memory hotplug, no DEBUG options.  Spinlocks and
    interrupt masking do nothing but exclude others on one CPU, so an operation under a lock
    is one step; the places where the code drops its lock are steps of their own
    ([TimerWheelRun]), as are the accesses of the lock-free FIFO ([KfifoShared]).

    * What the theorems show

    - Boot memory: a table stays sorted, disjoint, minimal and correctly totalled; adding and
      removing change exactly the addresses given; the walk over free ranges visits each free
      address once; searches are sound and complete in both directions; an allocation reserves an
      aligned free range or fails with nothing changed; freeing it restores the map; a table is
      doubled as often as needed unless resizing is off or no room is left.  Not in the list of main
      properties but proved in [MemblockSpec]: queries, flags and nodes, trimming and limiting.
    - Page allocator: the free lists of a zone are the maximal aligned blocks of its free pages;
      freeing and allocating change that set by exactly one block; no page is ever handed out
      twice, whatever the users do with pages they own; pages are conserved; every operation
      returns; where no page is bad, a watermark check that passes for several pages guarantees
      that the allocation succeeds; get_page_from_freelist sets up compound pages that can be
      freed again.
    - kmalloc and object caches: every sequence of calls behaves as a store of separate objects
      (kfree through the header or the order of a compound page, caches with constructors and
      delayed freeing by RCU, where [__call_rcu] of kernel/rcu/tiny.c writes the rcu_head); free
      blocks are kept in address order and joined; over the page allocator of a zone, all pages
      are back when all objects are freed.
    - Bits: searches, counts, areas and relocation against bit-by-bit specifications
      ([BitmapSpec] also has combination, comparison, shifts and free regions).
    - Interrupt vectors: the counters are exact in every run (for those of the whole matrix, a
      ledger over the calls), allocation succeeds exactly when a vector is free, managed
      reservations are all or nothing.
    - Timers: the bucket of a timer is right; the lists, the pending bits and the timers agree
      in every run of legal calls ([legal]: what the BUG_ONs ask for); a timer that is armed in
      reach of the wheel ([timely]) is not early and fires; what each call does; expiry ends
      whatever legal calls the timer functions make; the next event is found.
    - Trees: insertion, removal, replacement and the cached first node keep the red-black
      invariant and the order of the nodes, walks visit them in order, loops are logarithmic;
      a timer queue is a stable priority queue.
    - FIFOs: a queue of bytes and a queue of records; one reader and one writer need no lock,
      however their accesses to the indices and the bytes interleave;
      partial copies of user memory are accounted for.
    - Numbers: parsers accept exactly their grammar and report overflow, and read back what
      the printer writes ([NumTextSpec] also has the layout of the printer, memparse and
      hexadecimal dumps).

    A theorem with a hypothesis is followed by a lemma named [*_witness] that applies it to a
    concrete state.

    * Fuel

    A loop that is not structural takes fuel, and the theorems show that the result is not
    [OutOfFuel].  Loops over an array take its length; bit loops the number of bits; loops
    over a tree the number of words in memory ([mem_words]), more than its height; the merge
    of buddies [MAX_ORDER]; [rmqueue_retry] one more than the number of pages, as each turn
    takes a block out of the free pages; draining the per-CPU lists the number of pages on
    them; expiry of timers the number of ticks to catch up and the length of the lists
    taken off the wheel, which a call can only shorten; walks over the free blocks of a page
    its 2048 units; growths of
    the region tables nest at most [GROW_DEPTH] deep ([MemblockGrowth]).

    * What the code does not do

    Some theorems and examples show where the code departs from its comments or from what it
    means to do: [memblock_trim_memory_total_stale], [memblock_double_array_overlap],
    [irq_matrix_total_allocated_drifts],
    [kfifo_init_overruns_buffer], [kfifo_in_r_truncates_length], [get_options_count_exceeds],
    [get_options_writes_outside], [long_timeout_due_at_once], [long_timeout_due_late],
    [mod_timer_of_collected_timer_lost], [rmqueue_bad_block_not_subtracted],
    [watermark_oom_mismatch].

    * Not modelled

    - Remaining page allocator (mm/page_alloc.c): zonelists of several zones, the slow
      path with reclaim and the OOM killer, which call most of mm/ and the scheduler,
      and the set-up of zones and the memory map at boot.
    - Virtual memory (mm/memory.c, mm/mmap.c and others): page tables and address
      spaces: the code is about hardware page tables, TLB flushes and per-process
      structures of other parts.
    - Page cache, reclaim and writeback (mm/filemap.c, mm/vmscan.c and others): driven
      by I/O and by heuristics over the state of other parts.
    - Scheduler (kernel/sched/core.c, kernel/sched/fair.c): context switches are
      assembly, and the classes share run queues with most of kernel/.
    - Processes and signals (kernel/fork.c, kernel/exit.c and others): mostly copying
      and linking of task structures that the modelled parts do not use.
    - Locking and RCU (kernel/locking/mutex.c, kernel/locking/rwsem-xadd.c and others):
      on the single CPU of the configuration locks exclude interrupts only; the modelled
      parts take an operation under a lock as one step; of RCU only __call_rcu is
      modelled, with SLOB.
    - Work queues and kernel threads (kernel/workqueue.c, kernel/kthread.c and others):
      asynchronous execution on top of the scheduler.
    - Timekeeping, clock events and high-resolution timers (kernel/time/timekeeping.c,
      kernel/time/hrtimer.c and others): read and program hardware clocks; the timer
      queue that hrtimers keep their timers in is modelled.
    - Interrupt core (kernel/irq/manage.c, kernel/irq/chip.c and others): descriptors
      and flow handlers that call into interrupt chips; the vector matrix is modelled.
    - File systems (fs/namei.c, fs/dcache.c and others): the VFS relies on RCU walks and
      lock ordering between many threads.
    - Drivers (drivers/base/core.c, drivers/tty/tty_io.c and others): device I/O.
    - x86 architecture code (arch/x86/kernel/setup.c, arch/x86/mm/init.c and others):
      hardware registers, assembly and page tables.
    - Start-up (init/main.c, init/initramfs.c and others): a sequence of calls into all
      other parts.
    - Security hooks (security/commoncap.c, security/min_addr.c): checks on credentials
      and capabilities.
    - Remaining library code (lib/radix-tree.c, lib/idr.c and others): independent of
      the modelled parts.
    - Build tools (scripts/basic/fixdep.c, usr/gen_init_cpio.c): run at build time, not
      part of the kernel.

    * This file

    The shared vocabulary: fixed-width machine integers, the outcome monad [res], the rounding
    macros of include/linux/kernel.h, and the list lemmas, rewrite databases and tactics used by
    every component. *)

From Stdlib Require Export ZArith Lia.
From Stdlib Require Import ZifyBool.
From stdpp Require Export base list numbers option sets.

#[global] Open Scope Z_scope.

(** * Machine integers *)

Definition two64 : Z := 18446744073709551616.
Definition two32 : Z := 4294967296.

(** The value stored in an object of type u64 (unsigned long, phys_addr_t). *)
Definition w64 (z : Z) : Z := z mod two64.
(** The value stored in an object of type u32 (unsigned int). *)
Definition w32 (z : Z) : Z := z mod two32.
(** Conversion to a signed 32-bit int: two's complement. *)
Definition s32 (z : Z) : Z :=
  let u := w32 z in if u <? 2147483648 then u else u - two32.
(** Conversion to a signed 64-bit long long: two's complement. *)
Definition s64 (z : Z) : Z :=
  let u := w64 z in if u <? 9223372036854775808 then u else u - two64.

Definition ULLONG_MAX : Z := 18446744073709551615.

Lemma two64_pow : two64 = 2 ^ 64.
Proof. reflexivity. Qed.
Lemma two32_pow : two32 = 2 ^ 32.
Proof. reflexivity. Qed.

Lemma w64_small z : 0 <= z < two64 -> w64 z = z.
Proof. apply Z.mod_small. Qed.
Lemma w32_small z : 0 <= z < two32 -> w32 z = z.
Proof. apply Z.mod_small. Qed.
Lemma w64_range z : 0 <= w64 z < two64.
Proof. apply Z.mod_pos_bound. reflexivity. Qed.
Lemma w32_range z : 0 <= w32 z < two32.
Proof. apply Z.mod_pos_bound. reflexivity. Qed.
Lemma w64_idemp z : w64 (w64 z) = w64 z.
Proof. apply w64_small, w64_range. Qed.
Lemma w64_add_l a b : w64 (w64 a + b) = w64 (a + b).
Proof. apply Zplus_mod_idemp_l. Qed.
Lemma w64_sub_l a b : w64 (w64 a - b) = w64 (a - b).
Proof. apply Zminus_mod_idemp_l. Qed.
Lemma w32_idemp z : w32 (w32 z) = w32 z.
Proof. apply w32_small, w32_range. Qed.
Lemma w32_add_l a b : w32 (w32 a + b) = w32 (a + b).
Proof. apply Zplus_mod_idemp_l. Qed.
Lemma w32_sub_l a b : w32 (w32 a - b) = w32 (a - b).
Proof. apply Zminus_mod_idemp_l. Qed.
Lemma w32_sub_r a b : w32 (a - w32 b) = w32 (a - b).
Proof. apply Zminus_mod_idemp_r. Qed.
Lemma s32_small z : 0 <= z < 2147483648 -> s32 z = z.
Proof.
  intros H. unfold s32. rewrite w32_small by (unfold two32; lia).
  destruct (Z.ltb_spec z 2147483648); lia.
Qed.

(** Bit tests at 64-bit width: bits of a word stop at 64. *)
Lemma w64_testbit z i : 0 <= i -> Z.testbit (w64 z) i = (i <? 64) && Z.testbit z i.
Proof.
  intros Hi. unfold w64. rewrite two64_pow.
  destruct (Z.ltb_spec i 64).
  - rewrite Z.mod_pow2_bits_low by lia. done.
  - rewrite Z.mod_pow2_bits_high by lia. done.
Qed.

Create HintDb machine.
(** Drops every wrap-around whose argument [lia] can bound. *)
Ltac nowrap :=
  repeat match goal with
         | |- context [w64 ?e] => rewrite (w64_small e) by (unfold two64, ULLONG_MAX in *; lia)
         | |- context [w32 ?e] => rewrite (w32_small e) by (unfold two32 in *; lia)
         | |- context [s32 ?e] => rewrite (s32_small e) by (unfold two32 in *; lia)
         end.
Ltac nowrap_in H :=
  repeat match type of H with
         | context [w64 ?e] => rewrite (w64_small e) in H by (unfold two64, ULLONG_MAX in *; lia)
         | context [w32 ?e] => rewrite (w32_small e) in H by (unfold two32 in *; lia)
         | context [s32 ?e] => rewrite (s32_small e) in H by (unfold two32 in *; lia)
         end.

(** Case analysis on the integer comparison that decides a conditional. *)
Ltac case_cmp :=
  match goal with
  | |- context [?a <? ?b] => destruct (Z.ltb_spec a b)
  | |- context [?a <=? ?b] => destruct (Z.leb_spec a b)
  | |- context [?a =? ?b] => destruct (Z.eqb_spec a b)
  end.
Ltac case_cmps := repeat (case_cmp; cbn [negb andb orb] in *; try lia).
Ltac case_cmp_in H :=
  match type of H with
  | context [?a <? ?b] => destruct (Z.ltb_spec a b)
  | context [?a <=? ?b] => destruct (Z.leb_spec a b)
  | context [?a =? ?b] => destruct (Z.eqb_spec a b)
  end.

(** The quotient and remainder of [x] by the positive constant [n]. *)
Ltac divmod x n :=
  pose proof (Z.div_mod x n); pose proof (Z.mod_pos_bound x n ltac:(lia)).

(** * Error codes (include/uapi/asm-generic/errno-base.h) *)

Definition ENOMEM : Z := 12.
Definition EBUSY : Z := 16.
Definition EINVAL : Z := 22.
Definition ENOSPC : Z := 28.
Definition ERANGE : Z := 34.

(** * Outcomes *)

Inductive res (A : Type) : Type :=
| Ret (a : A)       (* the routine returns [a] *)
| BUG               (* a [BUG_ON] condition held, or the code panics *)
| OutOfFuel.        (* the fuel of a loop did not suffice *)
Arguments Ret {A} a.
Arguments BUG {A}.
Arguments OutOfFuel {A}.

Definition res_bind {A B} (m : res A) (k : A -> res B) : res B :=
  match m with
  | Ret a => k a
  | BUG => BUG
  | OutOfFuel => OutOfFuel
  end.

Definition res_map {A B} (f : A -> B) (m : res A) : res B :=
  res_bind m (fun a => Ret (f a)).

Declare Scope kernel_scope.
Delimit Scope kernel_scope with kernel.
Notation "'let*' x ':=' m 'in' k" := (res_bind m (fun x => k))
  (at level 10, x pattern, m at level 100, k at level 200) : kernel_scope.
#[global] Open Scope kernel_scope.

Lemma res_bind_Ret {A B} (m : res A) (k : A -> res B) b :
  res_bind m k = Ret b <-> exists a, m = Ret a /\ k a = Ret b.
Proof. destruct m; simpl; naive_solver. Qed.

Lemma Ret_inj {A} (a b : A) : Ret a = Ret b -> a = b.
Proof. congruence. Qed.
Lemma Ret_pair_inj {A B} (a c : A) (b d : B) : Ret (a, b) = Ret (c, d) -> a = c /\ b = d.
Proof. intros E. split; congruence. Qed.

(** Reads off the results of equations between outcomes, without reducing the
    values involved. *)
Ltac inv_res :=
  repeat match goal with
         | H : res_bind _ _ = Ret _ |- _ =>
             apply res_bind_Ret in H; destruct H as (? & ? & H); cbn beta iota in H
         | H : Ret (_, _) = Ret (_, _) |- _ => apply Ret_pair_inj in H; destruct H
         | H : Ret _ = Ret _ |- _ => apply Ret_inj in H
         | H : BUG = Ret _ |- _ => discriminate H
         | H : OutOfFuel = Ret _ |- _ => discriminate H
         | p : _ * _ |- _ => destruct p
         | H : (_, _) = (_, _) |- _ => apply pair_equal_spec in H; destruct H
         end; subst.

(** * Rounding (include/linux/kernel.h) *)

(** [__round_mask(x, y)] for a 64-bit x. *)
Definition __round_mask (y : Z) : Z := w64 (y - 1).
Definition round_up (x y : Z) : Z := w64 (Z.lor (w64 (x - 1)) (__round_mask y) + 1).
Definition round_down (x y : Z) : Z := Z.land x (w64 (Z.lnot (__round_mask y))).

(** [clamp(val, lo, hi)] is [min(max(val, lo), hi)]. *)
Definition clamp (val lo hi : Z) : Z := Z.min (Z.max val lo) hi.

Lemma round_mask_ones k : 0 <= k < 64 -> __round_mask (2 ^ k) = Z.ones k.
Proof.
  intros Hk. unfold __round_mask. rewrite Z.ones_equiv.
  assert (0 < 2 ^ k) by (apply Z.pow_pos_nonneg; lia).
  assert (2 ^ k <= 2 ^ 63) by (apply Z.pow_le_mono_r; lia).
  apply w64_small. change two64 with (2 * 2 ^ 63). lia.
Qed.

(** On powers of two [round_down] clears the low bits. *)
Lemma round_down_pow2 x k :
  0 <= x < two64 -> 0 <= k < 64 -> round_down x (2 ^ k) = x - x mod 2 ^ k.
Proof.
  intros Hx Hk. unfold round_down. rewrite round_mask_ones by done.
  rewrite <- Z.land_ones, Z.sub_land_same_l by lia.
  apply Z.bits_inj'. intros i Hi.
  rewrite !Z.land_spec, w64_testbit by lia.
  destruct (Z.ltb_spec i 64); [done|].
  rewrite <- (Z.mod_small x (2 ^ 64)) by (rewrite <- two64_pow; lia).
  by rewrite Z.mod_pow2_bits_high by lia.
Qed.

(** [round_up] gives the next multiple, as long as that is below 2^64. *)
Lemma round_up_pow2 x k :
  0 <= x -> 0 <= k < 64 -> x + 2 ^ k <= two64 ->
  round_up x (2 ^ k) = (x + 2 ^ k - 1) / 2 ^ k * 2 ^ k.
Proof.
  intros Hx Hk Hb. unfold round_up. rewrite round_mask_ones by done.
  assert (Hp : 0 < 2 ^ k) by (apply Z.pow_pos_nonneg; lia).
  pose proof (Z.sub_lor_l_same_r (w64 (x - 1)) (Z.ones k)) as E.
  rewrite <- Z.sub_land_same_l, Z.land_ones, Z.ones_equiv in E by lia.
  destruct (decide (x = 0)) as [->|Hx0].
  - rewrite Z.div_small by lia.
    assert (w64 (0 - 1) mod 2 ^ k = 2 ^ k - 1) as Hm.
    { change (w64 (0 - 1)) with (2 ^ 64 - 1).
      replace (2 ^ 64 - 1) with (2 ^ k - 1 + (2 ^ (64 - k) - 1) * 2 ^ k).
      - rewrite Z.mod_add by lia. apply Z.mod_small; lia.
      - rewrite Z.mul_sub_distr_r, <- Z.pow_add_r by lia.
        replace (64 - k + k) with 64 by lia. lia. }
    rewrite Hm in E. rewrite Z.ones_equiv.
    replace (Z.lor _ _) with (two64 - 1) by (change (w64 (0 - 1)) with (two64 - 1) in *; lia).
    reflexivity.
  - rewrite (w64_small (x - 1)) in * by lia.
    replace (x + 2 ^ k - 1) with (x - 1 + 1 * 2 ^ k) by lia.
    rewrite Z.div_add, Z.ones_equiv by lia.
    pose proof (Z.div_mod (x - 1) (2 ^ k)). pose proof (Z.mod_pos_bound (x - 1) (2 ^ k)).
    assert (Z.lor (x - 1) (Z.pred (2 ^ k)) + 1 = ((x - 1) / 2 ^ k + 1) * 2 ^ k) as -> by lia.
    destruct (decide (((x - 1) / 2 ^ k + 1) * 2 ^ k = two64)) as [Heq|].
    + exfalso. nia.
    + apply w64_small. nia.
Qed.

(** * Packing two 32-bit halves *)

(** A word below 2^n or-ed with a multiple of 2^n is their sum. *)
Lemma lor_disjoint_add x y n : 0 <= n -> 0 <= x < 2 ^ n -> Z.lor x (y * 2 ^ n) = x + y * 2 ^ n.
Proof.
  intros Hn Hx. rewrite <- (Z.add_lor_land x (y * 2 ^ n)).
  assert (Z.land x (y * 2 ^ n) = 0) as ->; [|lia].
  apply Z.bits_inj'. intros i Hi. rewrite Z.land_spec, Z.bits_0.
  destruct (Z.ltb_spec i n).
  - rewrite Z.mul_pow2_bits_low by lia. by rewrite andb_false_r.
  - rewrite <- (Z.mod_small x (2 ^ n)) by lia. by rewrite Z.mod_pow2_bits_high by lia.
Qed.

Lemma s64_small z : 0 <= z < 9223372036854775808 -> s64 z = z.
Proof.
  intros H. unfold s64. rewrite w64_small by (unfold two64; lia). destruct (Z.ltb_spec z 9223372036854775808); lia.
Qed.
Lemma s64_add_l x y : s64 (s64 x + y) = s64 (x + y).
Proof.
  assert (E : w64 (s64 x + y) = w64 (x + y)).
  { unfold w64 at 1, s64. set (u := w64 x). destruct (u <? _).
    - unfold u, w64. apply Zplus_mod_idemp_l.
    - replace (u - two64 + y) with (u + y + (-1) * two64) by lia. rewrite Z_mod_plus_full. unfold u, w64. apply Zplus_mod_idemp_l. }
  unfold s64 at 1 3. by rewrite E.
Qed.
Lemma s32_add_l x y : s32 (s32 x + y) = s32 (x + y).
Proof.
  assert (E : w32 (s32 x + y) = w32 (x + y)).
  { unfold w32 at 1, s32. set (u := w32 x). destruct (u <? _).
    - unfold u, w32. apply Zplus_mod_idemp_l.
    - replace (u - two32 + y) with (u + y + (-1) * two32) by lia. rewrite Z_mod_plus_full. unfold u, w32. apply Zplus_mod_idemp_l. }
  unfold s32 at 1 3. by rewrite E.
Qed.
Lemma s32_w32 x : -2147483648 <= x < 2147483648 -> s32 (w32 x) = x.
Proof.
  intros Hx. unfold s32. rewrite (w32_small (w32 x)) by apply w32_range.
  unfold w32, two32. destruct (Z.ltb_spec x 0).
  - rewrite <- (Z.mod_unique x 4294967296 (-1) (x + 4294967296)) by lia. by case_cmps.
  - rewrite Z.mod_small by lia. by case_cmps.
Qed.

(** * The element after a prefix *)

Lemma lookup_mid {A} (pre suf : list A) x : (pre ++ x :: suf) !! length pre = Some x.
Proof. by rewrite list_lookup_middle. Qed.
Lemma lookup_mid_next {A} (pre suf : list A) x y :
  (pre ++ x :: y :: suf) !! S (length pre) = Some y.
Proof.
  rewrite lookup_app_r by lia. by replace (S (length pre) - length pre)%nat with 1%nat by lia.
Qed.
Lemma drop_mid {A} (pre suf : list A) x : drop (S (length pre)) (pre ++ x :: suf) = suf.
Proof. rewrite drop_app_ge by lia. by replace (S (length pre) - length pre)%nat with 1%nat by lia. Qed.
Lemma insert_mid {A} (pre suf : list A) x y :
  <[length pre := y]> (pre ++ x :: suf) = pre ++ y :: suf.
Proof. by rewrite insert_app_r_alt, Nat.sub_diag by lia. Qed.

(** * Running a concrete instance *)

Lemma filter_keep {A} (P : A -> Prop) `{!forall x, Decision (P x)} (l : list A) :
  (forall x, x ∈ l -> P x) -> filter P l = l.
Proof.
  induction l as [|x l IH]; intros Hl; [done|]. rewrite filter_cons_True by (apply Hl; by left). f_equal.
  apply IH. intros y Hy. apply Hl. by right.
Qed.

(** Lists of lists, flattened. *)
Lemma mjoin_cons {A} (l : list A) ls : mjoin (l :: ls) = l ++ mjoin ls.
Proof. done. Qed.
Lemma mjoin_snoc {A} (ls : list (list A)) l : mjoin (ls ++ [l]) = mjoin ls ++ l.
Proof. rewrite join_app. f_equal. cbn. apply app_nil_r. Qed.
Lemma mjoin_filter {A} (P : A -> Prop) `{!forall x, Decision (P x)} (ls : list (list A)) :
  mjoin (filter P <$> ls) = filter P (mjoin ls).
Proof.
  induction ls as [|l ls IH]; [done|]. rewrite fmap_cons, !mjoin_cons, filter_app. by f_equal.
Qed.
Lemma mjoin_insert_app {A} (ls : list (list A)) i l l' k :
  ls !! i = Some l -> l' ≡ₚ k ++ l -> mjoin (<[i := l']> ls) ≡ₚ k ++ mjoin ls.
Proof.
  intros E Hp. rewrite <- (take_drop_middle ls i l E) at 2. rewrite insert_take_drop by (by eapply lookup_lt_Some).
  rewrite !join_app, !mjoin_cons, Hp, <- app_assoc. set (t := mjoin (take i ls)).
  by rewrite (app_assoc t k), (Permutation_app_comm t k), <- app_assoc.
Qed.
Lemma mjoin_insert {A} (ls : list (list A)) i l l' x :
  ls !! i = Some l -> l' ≡ₚ x :: l -> mjoin (<[i := l']> ls) ≡ₚ x :: mjoin ls.
Proof. intros E Hp. by apply (mjoin_insert_app ls i l l' [x]). Qed.

Ltac run := repeat split; vm_compute; first [reflexivity | discriminate | congruence].
