(* ===== verification/MemblockTable.v ===== *)
(** The region tables of the boot-time memory allocator, mm/memblock.c.

    A [memblock_type] is an array of [cnt] regions sorted by address inside a
    buffer of [max] slots.  The model keeps the [cnt] live slots as a list (the
    slots above [cnt] are never read by the code), and the capacity, the running
    total and the physical address of the buffer as fields.  The operations of
    this file are those that work on one table and never grow it: insertion,
    removal, merging, the two passes of [memblock_add_range], the splitting loop
    of [memblock_isolate_range], and the lookups.

    The abstract view of a table is a partial map from addresses to attributes,
    [attr_at]; the invariant is [wf_regions].  The lemmas of the file show what
    each operation does to the map. *)

From S2P Require Import Prelude.

(** * Data (include/linux/memblock.h) *)

Definition MEMBLOCK_NONE : Z := 0.
Definition MEMBLOCK_HOTPLUG : Z := 1.
Definition MEMBLOCK_MIRROR : Z := 2.
Definition MEMBLOCK_NOMAP : Z := 4.
Definition INIT_MEMBLOCK_REGIONS : Z := 128.
(** NODES_SHIFT is 0 in the repository's configuration. *)
Definition MAX_NUMNODES : Z := 1.
Definition NUMA_NO_NODE : Z := -1.

Record memblock_region := mkRegion {
  r_base : Z;
  r_size : Z;
  r_flags : Z;
  r_nid : Z;
}.

Record memblock_type := mkType {
  regions : list memblock_region;   (* the first [cnt] slots *)
  max : Z;
  total_size : Z;
  regions_pa : option Z;            (* None: the static initial array *)
}.

Definition cnt (t : memblock_type) : Z := Z.of_nat (length (regions t)).

(** The end address as the code computes it, in 64 bits. *)
Definition r_end (r : memblock_region) : Z := w64 (r_base r + r_size r).

Definition memblock_is_hotpluggable (m : memblock_region) : bool :=
  negb (Z.land (r_flags m) MEMBLOCK_HOTPLUG =? 0).
Definition memblock_is_mirror (m : memblock_region) : bool :=
  negb (Z.land (r_flags m) MEMBLOCK_MIRROR =? 0).
Definition memblock_is_nomap (m : memblock_region) : bool :=
  negb (Z.land (r_flags m) MEMBLOCK_NOMAP =? 0).
Definition memblock_set_region_flags (r : memblock_region) (flags : Z) : memblock_region :=
  mkRegion (r_base r) (r_size r) (Z.lor (r_flags r) flags) (r_nid r).
Definition memblock_clear_region_flags (r : memblock_region) (flags : Z) : memblock_region :=
  mkRegion (r_base r) (r_size r) (Z.land (r_flags r) (w64 (Z.lnot flags))) (r_nid r).
Definition memblock_set_region_node (r : memblock_region) (nid : Z) : memblock_region :=
  mkRegion (r_base r) (r_size r) (r_flags r) nid.

Definition with_regions (t : memblock_type) (rs : list memblock_region) : memblock_type :=
  mkType rs (max t) (total_size t) (regions_pa t).

(** The tables at boot: one empty dummy entry in the static array. *)
Definition memblock_type_init : memblock_type :=
  mkType [mkRegion 0 0 0 0] INIT_MEMBLOCK_REGIONS 0 None.

(** * Operations on one table *)

(** Adjusts the size so that base + size does not overflow. *)
Definition memblock_cap_size (base size : Z) : Z := Z.min size (ULLONG_MAX - base).

Definition memblock_addrs_overlap (base1 size1 base2 size2 : Z) : bool :=
  (base1 <? w64 (base2 + size2)) && (base2 <? w64 (base1 + size1)).

Fixpoint overlaps_loop (rs : list memblock_region) (base size : Z) : bool :=
  match rs with
  | [] => false
  | r :: rs' =>
      if memblock_addrs_overlap base size (r_base r) (r_size r) then true
      else overlaps_loop rs' base size
  end.
Definition memblock_overlaps_region (t : memblock_type) (base size : Z) : bool :=
  overlaps_loop (regions t) base size.

(** [r] is below [cnt] at every call. *)
Definition memblock_remove_region (t : memblock_type) (r : nat) : memblock_type :=
  match regions t !! r with
  | None => t
  | Some rgn =>
      let total := w64 (total_size t - r_size rgn) in
      match take r (regions t) ++ drop (S r) (regions t) with
      | [] => mkType [mkRegion 0 0 0 MAX_NUMNODES] (max t) total (regions_pa t)
      | rs => mkType rs (max t) total (regions_pa t)
      end
  end.

(** The while loop of [memblock_merge_regions] from index [i]. *)
Fixpoint merge_loop (fuel i : nat) (rs : list memblock_region) : res (list memblock_region) :=
  match fuel with
  | O => OutOfFuel
  | S fuel' =>
      if Z.of_nat i <? Z.of_nat (length rs) - 1 then
        match rs !! i, rs !! S i with
        | Some this, Some next =>
            if negb (r_end this =? r_base next) || negb (r_nid this =? r_nid next)
               || negb (r_flags this =? r_flags next)
            then
              if r_base next <? r_end this then BUG
              else merge_loop fuel' (S i) rs
            else
              let this' := mkRegion (r_base this) (w64 (r_size this + r_size next))
                             (r_flags this) (r_nid this) in
              merge_loop fuel' i (take i rs ++ this' :: drop (S (S i)) rs)
        | _, _ => Ret rs
        end
      else Ret rs
  end.
(** Every turn of the loop advances [i] or drops a region, so [cnt] turns do. *)
Definition memblock_merge_regions (t : memblock_type) : res memblock_type :=
  res_map (with_regions t) (merge_loop (S (length (regions t))) 0 (regions t)).

Definition memblock_insert_region (t : memblock_type) (idx : nat) (base size nid flags : Z)
    : res memblock_type :=
  if max t <=? cnt t then BUG
  else Ret (mkType (take idx (regions t) ++ mkRegion base size flags nid :: drop idx (regions t))
              (max t) (w64 (total_size t + size)) (regions_pa t)).

(** The loop over the regions in [memblock_add_range], from index [idx] on.
    Returns the table, the index where the loop stopped, the remaining base and
    the number of new regions. *)
Fixpoint add_range_loop (fuel : nat) (insert : bool) (t : memblock_type) (idx : nat)
    (base endp nid flags nr_new : Z) : res (memblock_type * nat * Z * Z) :=
  match fuel with
  | O => OutOfFuel
  | S fuel' =>
      match regions t !! idx with
      | None => Ret (t, idx, base, nr_new)
      | Some rgn =>
          let rbase := r_base rgn in
          let rend := r_end rgn in
          if endp <=? rbase then Ret (t, idx, base, nr_new)
          else if rend <=? base then
            add_range_loop fuel' insert t (S idx) base endp nid flags nr_new
          else if base <? rbase then
            if insert then
              let* t' := memblock_insert_region t idx base (w64 (rbase - base)) nid flags in
              add_range_loop fuel' insert t' (S (S idx)) (Z.min rend endp) endp nid flags
                (nr_new + 1)
            else
              add_range_loop fuel' insert t (S idx) (Z.min rend endp) endp nid flags (nr_new + 1)
          else
            add_range_loop fuel' insert t (S idx) (Z.min rend endp) endp nid flags nr_new
      end
  end.

(** "insert the remaining portion" *)
Definition add_range_rest (insert : bool) (endp nid flags : Z)
    (st : memblock_type * nat * Z * Z) : res (memblock_type * Z) :=
  let '(t, idx, base, nr_new) := st in
  if base <? endp then
    if insert then
      let* t' := memblock_insert_region t idx base (w64 (endp - base)) nid flags in
      Ret (t', nr_new + 1)
    else Ret (t, nr_new + 1)
  else Ret (t, nr_new).

(** One round of [memblock_add_range] ("executed twice, once with false insert"). *)
Definition add_range_pass (insert : bool) (t : memblock_type) (obase endp nid flags : Z)
    : res (memblock_type * Z) :=
  let* st := add_range_loop (S (length (regions t))) insert t 0 obase endp nid flags 0 in
  add_range_rest insert endp nid flags st.

(** The loop of [memblock_isolate_range]: splits the regions that cross [base]
    or [endp] and records the first and the last region inside. *)
Fixpoint isolate_loop (fuel : nat) (t : memblock_type) (idx : nat) (base endp : Z)
    (start_rgn end_rgn : nat) : res (memblock_type * nat * nat) :=
  match fuel with
  | O => OutOfFuel
  | S fuel' =>
      match regions t !! idx with
      | None => Ret (t, start_rgn, end_rgn)
      | Some rgn =>
          let rbase := r_base rgn in
          let rend := r_end rgn in
          if endp <=? rbase then Ret (t, start_rgn, end_rgn)
          else if rend <=? base then isolate_loop fuel' t (S idx) base endp start_rgn end_rgn
          else if rbase <? base then
            let rgn' := mkRegion base (w64 (r_size rgn - (base - rbase)))
                          (r_flags rgn) (r_nid rgn) in
            let t1 := mkType (<[idx := rgn']> (regions t)) (max t)
                        (w64 (total_size t - (base - rbase))) (regions_pa t) in
            let* t2 := memblock_insert_region t1 idx rbase (w64 (base - rbase))
                         (r_nid rgn) (r_flags rgn) in
            isolate_loop fuel' t2 (S idx) base endp start_rgn end_rgn
          else if endp <? rend then
            let rgn' := mkRegion endp (w64 (r_size rgn - (endp - rbase)))
                          (r_flags rgn) (r_nid rgn) in
            let t1 := mkType (<[idx := rgn']> (regions t)) (max t)
                        (w64 (total_size t - (endp - rbase))) (regions_pa t) in
            let* t2 := memblock_insert_region t1 idx rbase (w64 (endp - rbase))
                         (r_nid rgn) (r_flags rgn) in
            isolate_loop fuel' t2 idx base endp start_rgn end_rgn
          else
            isolate_loop fuel' t (S idx) base endp
              (if Nat.eqb end_rgn 0 then idx else start_rgn) (S idx)
      end
  end.

(** for (i = end_rgn - 1; i >= start_rgn; i--) memblock_remove_region(type, i); *)
Fixpoint remove_regions_down (n : nat) (start_rgn : nat) (t : memblock_type) : memblock_type :=
  match n with
  | O => t
  | S n' => remove_regions_down n' start_rgn (memblock_remove_region t (start_rgn + n'))
  end.

(** The binary search of [memblock_search]; [right - left] turns are enough. *)
Fixpoint search_loop (fuel : nat) (rs : list memblock_region) (addr left right : Z) : res Z :=
  match fuel with
  | O => OutOfFuel
  | S fuel' =>
      let mid := w32 (right + left) / 2 in
      match rs !! Z.to_nat mid with
      | None => BUG
      | Some r =>
          if addr <? r_base r then
            if left <? mid then search_loop fuel' rs addr left mid else Ret (-1)
          else if r_end r <=? addr then
            if w32 (mid + 1) <? right then search_loop fuel' rs addr (w32 (mid + 1)) right
            else Ret (-1)
          else Ret mid
      end
  end.
Definition memblock_search (t : memblock_type) (addr : Z) : res Z :=
  search_loop (S (length (regions t))) (regions t) addr 0 (w32 (cnt t)).

(** * The abstract view and the invariant *)

(** Attributes of the address [a]: node and flags of the region it lies in. *)
Fixpoint attr_at (rs : list memblock_region) (a : Z) : option (Z * Z) :=
  match rs with
  | [] => None
  | r :: rs' =>
      if (r_base r <=? a) && (a <? r_base r + r_size r) then Some (r_nid r, r_flags r)
      else attr_at rs' a
  end.

(** Non-empty regions in increasing order, none reaching past the last byte,
    the first one starting at or above [lo]. *)
Fixpoint sorted_from (lo : Z) (rs : list memblock_region) : Prop :=
  match rs with
  | [] => True
  | r :: rs' =>
      lo <= r_base r /\ 0 < r_size r /\ r_base r + r_size r <= ULLONG_MAX
      /\ sorted_from (r_base r + r_size r) rs'
  end.

Fixpoint end_of (lo : Z) (rs : list memblock_region) : Z :=
  match rs with
  | [] => lo
  | r :: rs' => end_of (r_base r + r_size r) rs'
  end.

Fixpoint sum_sizes (rs : list memblock_region) : Z :=
  match rs with
  | [] => 0
  | r :: rs' => r_size r + sum_sizes rs'
  end.

(** The single dummy entry of an empty table. *)
Definition is_dummy (rs : list memblock_region) : Prop := exists nid, rs = [mkRegion 0 0 0 nid].

Definition wf_regions (rs : list memblock_region) : Prop :=
  is_dummy rs \/ (rs <> [] /\ sorted_from 0 rs).

Definition wf_type (t : memblock_type) : Prop :=
  wf_regions (regions t) /\ total_size t = sum_sizes (regions t).

(** Two neighbours that [memblock_merge_regions] would join. *)
Definition mergeable (x y : memblock_region) : bool :=
  (r_base x + r_size x =? r_base y) && (r_nid x =? r_nid y) && (r_flags x =? r_flags y).

Fixpoint minimal (rs : list memblock_region) : Prop :=
  match rs with
  | x :: ((y :: _) as rs') => mergeable x y = false /\ minimal rs'
  | _ => True
  end.

(** * Generic facts on region lists *)

Lemma sorted_from_app lo xs ys :
  sorted_from lo (xs ++ ys) <-> sorted_from lo xs /\ sorted_from (end_of lo xs) ys.
Proof.
  revert lo. induction xs as [|x xs IH]; intros lo; simpl; [tauto|].
  rewrite IH. tauto.
Qed.

Lemma sorted_from_weaken lo lo' rs : lo' <= lo -> sorted_from lo rs -> sorted_from lo' rs.
Proof. destruct rs; simpl; [done|]. intuition lia. Qed.

Lemma end_of_app lo xs ys : end_of lo (xs ++ ys) = end_of (end_of lo xs) ys.
Proof. revert lo. induction xs; intros lo; simpl; auto. Qed.

Lemma end_of_ge lo xs : sorted_from lo xs -> lo <= end_of lo xs.
Proof.
  revert lo. induction xs as [|x xs IH]; intros lo; simpl; [lia|].
  intros (?&?&?&H). specialize (IH _ H). lia.
Qed.

Lemma end_of_le lo xs : lo <= ULLONG_MAX -> sorted_from lo xs -> end_of lo xs <= ULLONG_MAX.
Proof.
  revert lo. induction xs as [|x xs IH]; intros lo; simpl; [lia|].
  intros ? (?&?&?&H). apply IH; [lia|done].
Qed.

Lemma sum_sizes_app xs ys : sum_sizes (xs ++ ys) = sum_sizes xs + sum_sizes ys.
Proof. induction xs; simpl; lia. Qed.

Lemma sum_sizes_bound lo rs :
  lo <= ULLONG_MAX -> sorted_from lo rs -> 0 <= sum_sizes rs <= ULLONG_MAX - lo.
Proof.
  revert lo. induction rs as [|r rs IH]; intros lo; simpl; [lia|].
  intros ? (?&?&?&H). specialize (IH (r_base r + r_size r) ltac:(lia) H). lia.
Qed.

Lemma attr_at_app xs ys a :
  attr_at (xs ++ ys) a = match attr_at xs a with Some v => Some v | None => attr_at ys a end.
Proof. induction xs as [|x xs IH]; simpl; [done|]. destruct (_ && _); auto. Qed.

Lemma attr_at_below lo rs a : sorted_from lo rs -> a < lo -> attr_at rs a = None.
Proof.
  revert lo. induction rs as [|r rs IH]; intros lo; simpl; [done|].
  intros (?&?&?&H) ?. rewrite (IH _ H) by lia.
  destruct (Z.leb_spec (r_base r) a); simpl; [lia|done].
Qed.

Lemma attr_at_above lo rs a : sorted_from lo rs -> end_of lo rs <= a -> attr_at rs a = None.
Proof.
  revert lo. induction rs as [|r rs IH]; intros lo; simpl; [done|].
  intros (?&?&?&H) ?. rewrite (IH _ H) by lia.
  pose proof (end_of_ge _ _ H).
  destruct (Z.ltb_spec a (r_base r + r_size r)); [lia|].
  by rewrite andb_false_r.
Qed.

Lemma attr_at_dummy rs a : is_dummy rs -> attr_at rs a = None.
Proof. intros [nid ->]. simpl. case_cmps; done. Qed.

Lemma sorted_region lo rs i r :
  sorted_from lo rs -> rs !! i = Some r ->
  lo <= r_base r /\ 0 < r_size r /\ r_base r + r_size r <= ULLONG_MAX.
Proof.
  revert lo i. induction rs as [|x rs IH]; intros lo [|i]; simpl; try done.
  - intros (?&?&?&?) [= ->]. done.
  - intros (?&?&?&H) Hi. destruct (IH _ _ H Hi). lia.
Qed.

Lemma r_end_eq r :
  0 <= r_base r -> 0 <= r_size r -> r_base r + r_size r <= ULLONG_MAX ->
  r_end r = r_base r + r_size r.
Proof. intros. unfold r_end. nowrap. done. Qed.

Lemma sorted_lookup_lt lo rs i j x y :
  sorted_from lo rs -> rs !! i = Some x -> rs !! j = Some y -> (i < j)%nat ->
  r_base x + r_size x <= r_base y.
Proof.
  revert lo i j. induction rs as [|z rs IH]; intros lo i j; simpl; [done|].
  intros (?&?&?&H) Hi Hj Hlt. destruct j as [|j]; [lia|]. destruct i as [|i]; simpl in *.
  - simplify_eq. by apply (sorted_region _ _ _ _ H) in Hj as (?&?&?).
  - eapply IH; eauto; lia.
Qed.

(** An address has the attributes of the region it lies in. *)
Lemma attr_at_lookup lo rs i r a :
  sorted_from lo rs -> rs !! i = Some r -> r_base r <= a < r_base r + r_size r ->
  attr_at rs a = Some (r_nid r, r_flags r).
Proof.
  revert lo i. induction rs as [|x rs IH]; intros lo [|i]; simpl; try done.
  - intros (?&?&?&?) [= ->] ?. case_cmps. done.
  - intros (?&?&?&H) Hi Ha. destruct (sorted_region _ _ _ _ H Hi) as (?&?&?).
    destruct (Z.ltb_spec a (r_base x + r_size x)); [lia|].
    rewrite andb_false_r. eauto.
Qed.

Lemma attr_at_Some rs a v :
  attr_at rs a = Some v ->
  exists i r, rs !! i = Some r /\ r_base r <= a < r_base r + r_size r
              /\ v = (r_nid r, r_flags r).
Proof.
  induction rs as [|x rs IH]; simpl; [done|].
  destruct (Z.leb_spec (r_base x) a), (Z.ltb_spec a (r_base x + r_size x)); simpl; intros E.
  1: { exists 0%nat, x. simplify_eq. done. }
  all: destruct (IH E) as (i & r & ? & ?); exists (S i), r; done.
Qed.

Lemma attr_at_None rs i r a :
  attr_at rs a = None -> rs !! i = Some r -> ~ (r_base r <= a < r_base r + r_size r).
Proof.
  revert i. induction rs as [|x rs IH]; intros i; simpl; [done|].
  destruct (Z.leb_spec (r_base x) a), (Z.ltb_spec a (r_base x + r_size x)); simpl; try done;
    intros E; destruct i as [|i]; simpl; intros ?; simplify_eq; try lia; eauto.
Qed.

(** * Merging *)

Definition join (x y : memblock_region) : memblock_region :=
  mkRegion (r_base x) (r_size x + r_size y) (r_flags x) (r_nid x).

(** What the merge loop leaves of [this :: suf]. *)
Fixpoint merge_from (this : memblock_region) (suf : list memblock_region) : list memblock_region :=
  match suf with
  | [] => [this]
  | next :: suf' =>
      if mergeable this next then merge_from (join this next) suf'
      else this :: merge_from next suf'
  end.

Lemma mergeable_spec x y :
  mergeable x y = true <->
  r_base x + r_size x = r_base y /\ r_nid x = r_nid y /\ r_flags x = r_flags y.
Proof. unfold mergeable. rewrite !andb_true_iff, !Z.eqb_eq. tauto. Qed.

Lemma merge_loop_eq fuel lo pre this suf :
  0 <= lo -> sorted_from lo (pre ++ this :: suf) -> (length suf < fuel)%nat ->
  merge_loop fuel (length pre) (pre ++ this :: suf) = Ret (pre ++ merge_from this suf).
Proof.
  intros Hlo. revert fuel pre this. induction suf as [|next suf IH]; intros fuel pre this Hs Hf.
  { destruct fuel as [|fuel]; [simpl in *; lia|]. simpl.
    rewrite length_app; simpl. case_cmps. done. }
  destruct fuel as [|fuel]; [simpl in *; lia|]. cbn [merge_loop merge_from].
  rewrite length_app. cbn [length]. case_cmp; [|lia].
  rewrite lookup_mid, lookup_mid_next.
  pose proof (proj1 (sorted_from_app _ _ _) Hs) as [Hp (Hb&Hz&Hmx&Hb'&Hz'&Hmx'&Hr)].
  pose proof (end_of_ge _ _ Hp).
  rewrite r_end_eq by lia.
  destruct (mergeable this next) eqn:Hm.
  - apply mergeable_spec in Hm as (E1&E2&E3). rewrite E1, E2, E3, !Z.eqb_refl. cbn [negb orb].
    rewrite take_app_length. rewrite w64_small by (unfold two64, ULLONG_MAX in *; lia).
    replace (drop _ _) with suf.
    2: { rewrite drop_app_ge by lia. by replace (S (S (length pre)) - length pre)%nat with 2%nat by lia. }
    rewrite <- E2, <- E3. apply IH; [|simpl in *; lia].
    apply sorted_from_app. split; [done|]. simpl. repeat split; try lia.
    by replace (r_base this + (r_size this + r_size next)) with (r_base next + r_size next) by lia.
  - assert ((negb (r_base this + r_size this =? r_base next) || negb (r_nid this =? r_nid next)
      || negb (r_flags this =? r_flags next)) = true) as ->.
    { unfold mergeable in Hm. destruct (_ =? _), (r_nid this =? _), (r_flags this =? _); done. }
    case_cmp; [lia|].
    replace (S (length pre)) with (length (pre ++ [this])) by (rewrite length_app; simpl; lia).
    replace (pre ++ this :: next :: suf) with ((pre ++ [this]) ++ next :: suf)
      by (by rewrite <- app_assoc).
    rewrite IH; [by rewrite <- app_assoc|by rewrite <- app_assoc|simpl in *; lia].
Qed.

Lemma merge_from_sorted lo this suf :
  sorted_from lo (this :: suf) -> sorted_from lo (merge_from this suf).
Proof.
  revert lo this. induction suf as [|next suf IH]; intros lo this; [done|].
  cbn [merge_from]. destruct (mergeable this next) eqn:Hm; intros (?&?&?&?&?&?&?).
  - apply mergeable_spec in Hm as (?&?&?). apply IH. simpl. repeat split; try lia.
    by replace (r_base this + (r_size this + r_size next)) with (r_base next + r_size next) by lia.
  - cbn [sorted_from]. repeat split; try done. apply IH. simpl. tauto.
Qed.

Lemma merge_from_attr this suf a lo :
  sorted_from lo (this :: suf) -> attr_at (merge_from this suf) a = attr_at (this :: suf) a.
Proof.
  revert lo this. induction suf as [|next suf IH]; intros lo this; [done|].
  cbn [merge_from]. destruct (mergeable this next) eqn:Hm; intros (?&?&?&?&?&?&?).
  - apply mergeable_spec in Hm as (E1&E2&E3).
    rewrite (IH lo).
    + simpl. rewrite <- E2, <- E3, <- E1. repeat case_cmp; simpl; try lia; done.
    + simpl. repeat split; try lia.
      by replace (r_base this + (r_size this + r_size next)) with (r_base next + r_size next) by lia.
  - cbn [attr_at]. rewrite (IH (r_base this + r_size this)); [done|]. simpl. tauto.
Qed.

Lemma merge_from_sum this suf : sum_sizes (merge_from this suf) = sum_sizes (this :: suf).
Proof.
  revert this. induction suf as [|next suf IH]; intros this; [done|].
  cbn [merge_from]. destruct (mergeable this next); [rewrite IH|cbn [sum_sizes]; rewrite IH]; simpl; lia.
Qed.

Lemma merge_from_length this suf : (length (merge_from this suf) <= S (length suf))%nat.
Proof.
  revert this. induction suf as [|next suf IH]; intros this; simpl; [lia|].
  destruct (mergeable this next); simpl; [pose proof (IH (join this next))|pose proof (IH next)]; lia.
Qed.

Lemma merge_from_head this suf :
  exists h rest, merge_from this suf = h :: rest /\ r_base h = r_base this
                 /\ r_nid h = r_nid this /\ r_flags h = r_flags this.
Proof.
  revert this. induction suf as [|next suf IH]; intros this; simpl; [by exists this, []|].
  destruct (mergeable this next); [|by eexists this, _].
  destruct (IH (join this next)) as (h & rest & ? & ?). by exists h, rest.
Qed.

Lemma merge_from_minimal this suf : minimal (merge_from this suf).
Proof.
  revert this. induction suf as [|next suf IH]; intros this; simpl; [done|].
  destruct (mergeable this next) eqn:Hm; [apply IH|].
  destruct (merge_from_head next suf) as (h & rest & E & E1 & E2 & E3).
  specialize (IH next). rewrite E in *. split; [|done].
  unfold mergeable in *. by rewrite E1, E2, E3.
Qed.

(** [memblock_merge_regions] never hits its [BUG_ON] on a sorted table and
    terminates; the address map is unchanged and the result is minimal. *)
Lemma memblock_merge_regions_spec t :
  regions t <> [] -> sorted_from 0 (regions t) ->
  exists rs, memblock_merge_regions t = Ret (with_regions t rs)
    /\ rs <> [] /\ sorted_from 0 rs /\ (forall a, attr_at rs a = attr_at (regions t) a)
    /\ sum_sizes rs = sum_sizes (regions t) /\ (length rs <= length (regions t))%nat
    /\ minimal rs.
Proof.
  intros Hne Hs. unfold memblock_merge_regions. destruct (regions t) as [|this suf] eqn:E; [done|].
  rewrite (merge_loop_eq _ 0 [] this suf) by (simpl; auto; lia).
  exists (merge_from this suf).
  destruct (merge_from_head this suf) as (h & rest & Eh & _).
  split_and!; eauto using merge_from_sorted, merge_from_minimal, merge_from_sum.
  - by rewrite Eh.
  - intros a. by eapply merge_from_attr.
  - apply merge_from_length.
Qed.

(** * Adding a range *)

(** What the second pass leaves of the regions [rs] when the part of the new
    area still to be placed is [base, endp). *)
Fixpoint add_from (nid flags base endp : Z) (rs : list memblock_region) : list memblock_region :=
  match rs with
  | [] => if base <? endp then [mkRegion base (endp - base) flags nid] else []
  | r :: rs' =>
      let rend := r_base r + r_size r in
      if endp <=? r_base r then
        if base <? endp then mkRegion base (endp - base) flags nid :: r :: rs' else r :: rs'
      else if rend <=? base then r :: add_from nid flags base endp rs'
      else if base <? r_base r then
        mkRegion base (r_base r - base) flags nid :: r
          :: add_from nid flags (Z.min rend endp) endp rs'
      else r :: add_from nid flags (Z.min rend endp) endp rs'
  end.

Section AddFrom.
Context (nid flags : Z).

Lemma add_from_done base endp lo rs :
  sorted_from lo rs -> endp <= base -> endp <= lo -> add_from nid flags base endp rs = rs.
Proof.
  destruct rs as [|r rs]; simpl; intros Hs ? ?; [case_cmps; done|].
  destruct Hs as (?&?&?&?). case_cmps; done.
Qed.

Lemma add_from_sorted base endp lo rs :
  sorted_from lo rs -> endp <= ULLONG_MAX -> lo <= base \/ endp <= base /\ endp <= lo ->
  sorted_from lo (add_from nid flags base endp rs).
Proof.
  revert base lo. induction rs as [|r rs IH]; intros base lo; simpl.
  - intros. case_cmp; simpl; lia.
  - intros (?&?&?&Hs) ? ?. repeat case_cmp; cbn [sorted_from r_base r_size];
      repeat split; try lia; try done; (apply IH; [done|lia|lia]).
Qed.

(** The new area gets the new attributes where nothing was before; existing
    regions are not affected. *)
Lemma add_from_attr base endp lo rs a :
  sorted_from lo rs -> lo <= base \/ endp <= base /\ endp <= lo ->
  attr_at (add_from nid flags base endp rs) a =
  match attr_at rs a with
  | Some v => Some v
  | None => if (base <=? a) && (a <? endp) then Some (nid, flags) else None
  end.
Proof.
  revert base lo. induction rs as [|r rs IH]; intros base lo; simpl.
  - intros _ ?. destruct (Z.ltb_spec base endp); simpl.
    + by replace (base + (endp - base)) with endp by lia.
    + case_cmps; done.
  - intros (?&?&?&Hs) Hlo.
    destruct (Z.leb_spec endp (r_base r)) as [He|He].
    { assert (a < r_base r -> attr_at (r :: rs) a = None) as Hb.
      { intros. apply (attr_at_below (r_base r)); simpl; [repeat split; try lia; done|lia]. }
      simpl in Hb. case_cmp; cbn [attr_at r_base r_size r_nid r_flags].
      - replace (base + (endp - base)) with endp by lia.
        repeat case_cmp; simpl in *; try lia; rewrite ?Hb by lia; try done.
        all: destruct (attr_at rs a); done.
      - repeat case_cmp; simpl in *; try lia; destruct (attr_at rs a); done. }
    pose proof (fun Ha => attr_at_below _ _ a Hs Ha) as Hb.
    destruct (Z.leb_spec (r_base r + r_size r) base); [|destruct (Z.ltb_spec base (r_base r))];
      cbn [attr_at r_base r_size r_nid r_flags];
      rewrite (IH _ (r_base r + r_size r)) by (done || lia);
      repeat case_cmp; simpl; try lia; rewrite ?Hb by lia; done.
Qed.

Lemma add_from_length base endp rs :
  (length rs <= length (add_from nid flags base endp rs) <= 2 * length rs + 1)%nat.
Proof.
  revert base. induction rs as [|r rs IH]; intros base; simpl; [case_cmp; simpl; lia|].
  pose proof (IH base). pose proof (IH ((r_base r + r_size r) `min` endp)).
  repeat case_cmp; simpl; lia.
Qed.

(** Without new regions the list is unchanged. *)
Lemma add_from_same base endp rs :
  length (add_from nid flags base endp rs) = length rs -> add_from nid flags base endp rs = rs.
Proof.
  revert base. induction rs as [|r rs IH]; intros base; simpl; [by case_cmp|].
  pose proof (add_from_length base endp rs).
  pose proof (add_from_length ((r_base r + r_size r) `min` endp) endp rs).
  repeat case_cmp; simpl; intros; try lia; try done; f_equal; apply IH; lia.
Qed.

Lemma add_from_nonempty base endp rs : rs <> [] -> add_from nid flags base endp rs <> [].
Proof. destruct rs; simpl; [done|]. intros _. repeat case_cmp; done. Qed.

(** The counting pass leaves the table alone and counts the new regions. *)
Lemma add_pass_count fuel t pre suf lo base endp nr :
  regions t = pre ++ suf -> sorted_from lo suf -> 0 <= lo -> (length suf < fuel)%nat ->
  res_bind (add_range_loop fuel false t (length pre) base endp nid flags nr)
    (add_range_rest false endp nid flags)
  = Ret (t, nr + Z.of_nat (length (add_from nid flags base endp suf)) - Z.of_nat (length suf)).
Proof.
  revert fuel pre lo base nr. induction suf as [|r suf IH]; intros fuel pre lo base nr Ht Hs Hlo Hf;
    destruct fuel as [|fuel]; simpl in Hf; try lia; cbn [add_range_loop]; rewrite Ht.
  { rewrite lookup_ge_None_2 by (rewrite length_app; simpl; lia). simpl.
    repeat case_cmp; simpl; do 2 f_equal; lia. }
  rewrite lookup_mid. destruct Hs as (?&?&?&Hs). rewrite r_end_eq by lia.
  replace (S (length pre)) with (length (pre ++ [r])) by (rewrite length_app; simpl; lia).
  cbn [add_from length]. destruct (Z.leb_spec endp (r_base r)).
  { simpl. repeat case_cmp; simpl; do 2 f_equal; lia. }
  repeat case_cmp; (erewrite IH; [|by rewrite <- app_assoc|exact Hs|lia|lia]);
    cbn [length]; do 2 f_equal; lia.
Qed.

Lemma memblock_insert_region_mid t pre suf base size nid' flags' :
  regions t = pre ++ suf -> cnt t < max t ->
  memblock_insert_region t (length pre) base size nid' flags' =
  Ret (mkType (pre ++ mkRegion base size flags' nid' :: suf) (max t)
         (w64 (total_size t + size)) (regions_pa t)).
Proof.
  intros Ht Hc. unfold memblock_insert_region. case_cmp; [lia|].
  by rewrite Ht, take_app_length, drop_app_length.
Qed.

(** The inserting pass produces [add_from] if there is room for it, and hits
    the [BUG_ON] of [memblock_insert_region] otherwise. *)
Definition insert_result (t : memblock_type) (pre suf : list memblock_region) (base endp nr : Z)
    : res (memblock_type * Z) :=
  let new := add_from nid flags base endp suf in
  if cnt t + Z.of_nat (length new) - Z.of_nat (length suf) <=? max t then
    Ret (mkType (pre ++ new) (max t) (w64 (total_size t + sum_sizes new - sum_sizes suf)) (regions_pa t),
         nr + Z.of_nat (length new) - Z.of_nat (length suf))
  else BUG.

Lemma add_pass_insert_rest t pre suf base endp nr :
  regions t = pre ++ suf -> 0 <= base < endp -> endp <= ULLONG_MAX ->
  add_range_rest true endp nid flags (t, length pre, base, nr) =
  if cnt t + 1 <=? max t then
    Ret (mkType (pre ++ mkRegion base (endp - base) flags nid :: suf) (max t)
           (w64 (total_size t + (endp - base))) (regions_pa t), nr + 1)
  else BUG.
Proof.
  intros Ht ? ?. unfold add_range_rest. case_cmp; [|lia]. nowrap.
  case_cmp; [by rewrite (memblock_insert_region_mid t pre suf) by (done || lia)|].
  unfold memblock_insert_region. case_cmp; [done|lia].
Qed.

Lemma add_pass_stay t pre suf base endp nr :
  regions t = pre ++ suf -> endp <= base -> 0 <= total_size t < two64 -> cnt t <= max t ->
  add_range_rest true endp nid flags (t, length pre, base, nr) =
  Ret (mkType (pre ++ suf) (max t) (w64 (total_size t)) (regions_pa t), nr).
Proof.
  intros <- ? ? ?. unfold add_range_rest. case_cmp; [lia|]. rewrite w64_small by lia. by destruct t.
Qed.

Lemma add_pass_insert fuel t pre suf lo base endp nr :
  regions t = pre ++ suf -> sorted_from lo suf -> 0 <= lo -> (length suf < fuel)%nat ->
  0 <= base -> endp <= ULLONG_MAX -> 0 <= total_size t < two64 -> cnt t <= max t ->
  res_bind (add_range_loop fuel true t (length pre) base endp nid flags nr)
    (add_range_rest true endp nid flags)
  = insert_result t pre suf base endp nr.
Proof.
  revert fuel t pre lo base nr.
  induction suf as [|r suf IH]; intros fuel t pre lo base nr Ht Hs Hlo Hf Hb He Htot Hc;
    destruct fuel as [|fuel]; simpl in Hf; try lia; cbn [add_range_loop]; rewrite Ht;
    unfold insert_result; cbn [add_from].
  { rewrite lookup_ge_None_2 by (rewrite length_app; simpl; lia). cbn [res_bind].
    destruct (Z.ltb_spec base endp); simpl length; simpl sum_sizes.
    - rewrite (add_pass_insert_rest t pre []) by (done || lia).
      repeat case_cmp; try lia; [|done]. do 2 f_equal; [do 2 f_equal; lia|lia].
    - rewrite (add_pass_stay t pre []) by (done || lia).
      repeat case_cmp; try lia. do 2 f_equal; [do 2 f_equal; lia|lia]. }
  rewrite lookup_mid. destruct Hs as (?&?&?&Hs). rewrite r_end_eq by lia.
  destruct (Z.leb_spec endp (r_base r)).
  { cbn [res_bind]. destruct (Z.ltb_spec base endp); cbn [length sum_sizes r_size].
    - rewrite (add_pass_insert_rest t pre (r :: suf)) by (done || lia).
      repeat case_cmp; try lia; [|done]. do 2 f_equal; [do 2 f_equal; lia|lia].
    - rewrite (add_pass_stay t pre (r :: suf)) by (done || lia).
      repeat case_cmp; try lia. do 2 f_equal; [do 2 f_equal; lia|lia]. }
  destruct (Z.leb_spec (r_base r + r_size r) base); [|destruct (Z.ltb_spec base (r_base r))].
  2: { nowrap. pose proof (add_from_length (Z.min (r_base r + r_size r) endp) endp suf).
       destruct (decide (cnt t < max t)).
       2: { unfold memblock_insert_region. cbn [length]. repeat case_cmp; try lia; done. }
       rewrite (memblock_insert_region_mid t pre (r :: suf)) by done. cbn [res_bind].
       replace (S (S (length pre))) with
         (length (pre ++ [mkRegion base (r_base r - base) flags nid; r]))
         by (rewrite length_app; simpl; lia).
       assert (Hcnt : forall m a p, cnt (mkType (pre ++ mkRegion base (r_base r - base) flags nid
                                         :: r :: suf) m a p) = cnt t + 1).
       { intros. unfold cnt. rewrite Ht. cbn [regions]. rewrite !length_app. simpl. lia. }
       erewrite IH; cbn [regions max total_size regions_pa];
         [|by rewrite <- app_assoc|exact Hs|lia|lia|lia|lia|apply w64_range|rewrite Hcnt; lia].
       unfold insert_result. rewrite Hcnt. cbn [max total_size regions_pa length sum_sizes r_size].
       repeat case_cmp; try lia; [|done].
       rewrite <- app_assoc. do 2 f_equal; [f_equal|lia].
       rewrite <- Z.add_sub_assoc, w64_add_l. f_equal. lia. }
  all: replace (S (length pre)) with (length (pre ++ [r])) by (rewrite length_app; simpl; lia).
  all: rewrite (IH fuel t (pre ++ [r]) (r_base r + r_size r)); try lia; try done;
    try (by rewrite <- app_assoc).
  all: unfold insert_result; cbn [length sum_sizes]; repeat case_cmp; try lia; try done.
  all: rewrite <- app_assoc; cbn [app]; do 2 f_equal; [do 2 f_equal; lia|lia].
Qed.

End AddFrom.

(** The number of regions the new area needs. *)
Definition nr_needed (t : memblock_type) (base endp : Z) : Z :=
  Z.of_nat (length (add_from 0 0 base endp (regions t))) - cnt t.

Lemma add_from_length_indep nid flags nid' flags' base endp rs :
  length (add_from nid flags base endp rs) = length (add_from nid' flags' base endp rs).
Proof.
  revert base. induction rs as [|r rs IH]; intros base; simpl; [by case_cmp|].
  repeat case_cmp; simpl; auto.
Qed.

Lemma add_range_pass_count t base endp nid flags :
  sorted_from 0 (regions t) ->
  add_range_pass false t base endp nid flags = Ret (t, nr_needed t base endp).
Proof.
  intros Hs. unfold add_range_pass, nr_needed.
  rewrite (add_pass_count nid flags _ t [] (regions t) 0) by (done || lia).
  rewrite (add_from_length_indep nid flags 0 0). reflexivity.
Qed.

Lemma add_range_pass_insert t base endp nid flags :
  sorted_from 0 (regions t) -> 0 <= base -> endp <= ULLONG_MAX -> 0 <= total_size t < two64 ->
  cnt t <= max t ->
  add_range_pass true t base endp nid flags =
  let new := add_from nid flags base endp (regions t) in
  if cnt t + nr_needed t base endp <=? max t then
    Ret (mkType new (max t) (w64 (total_size t + sum_sizes new - sum_sizes (regions t)))
           (regions_pa t), nr_needed t base endp)
  else BUG.
Proof.
  intros Hs ? ? ? Hc. unfold add_range_pass, nr_needed in *.
  rewrite (add_pass_insert nid flags _ t [] (regions t) 0) by (done || lia).
  unfold insert_result. rewrite (add_from_length_indep nid flags 0 0). cbv zeta. unfold cnt.
  repeat case_cmp; try lia; done.
Qed.

(** * Splitting at boundaries *)

(** The parts of the regions that lie in [lo, hi). *)
Definition clip1 (lo hi : Z) (r : memblock_region) : list memblock_region :=
  let b := Z.max lo (r_base r) in
  let e := Z.min hi (r_base r + r_size r) in
  if b <? e then [mkRegion b (e - b) (r_flags r) (r_nid r)] else [].
Definition clip (lo hi : Z) (rs : list memblock_region) : list memblock_region :=
  rs ≫= clip1 lo hi.

Lemma clip_cons lo hi r rs : clip lo hi (r :: rs) = clip1 lo hi r ++ clip lo hi rs.
Proof. done. Qed.

Lemma clip1_id lo hi r :
  lo <= r_base r -> 0 < r_size r -> r_base r + r_size r <= hi -> clip1 lo hi r = [r].
Proof.
  intros. unfold clip1. rewrite Z.max_r, Z.min_r by lia. case_cmp; [|lia].
  destruct r; simpl. do 2 f_equal. lia.
Qed.

Lemma clip_id m lo hi rs :
  sorted_from m rs -> lo <= m -> end_of m rs <= hi -> clip lo hi rs = rs.
Proof.
  revert m. induction rs as [|r rs IH]; intros m; [done|]. simpl end_of.
  intros (?&?&?&Hs) ? He. pose proof (end_of_ge _ _ Hs).
  rewrite clip_cons, clip1_id by lia. by rewrite (IH _ Hs) by lia.
Qed.

Lemma clip_nil_hi m lo hi rs : sorted_from m rs -> hi <= m -> clip lo hi rs = [].
Proof.
  revert m. induction rs as [|r rs IH]; intros m; [done|].
  intros (?&?&?&Hs) ?. rewrite clip_cons, (IH _ Hs) by lia.
  unfold clip1. case_cmp; [lia|done].
Qed.

Lemma clip_sorted m lo hi rs : sorted_from m rs -> sorted_from (Z.max lo m) (clip lo hi rs).
Proof.
  revert m. induction rs as [|r rs IH]; intros m; [done|].
  intros (?&?&?&Hs). rewrite clip_cons. unfold clip1. specialize (IH _ Hs).
  case_cmp; cbn [app sorted_from r_base r_size].
  - repeat split; try lia. eapply sorted_from_weaken; [|done]. lia.
  - eapply sorted_from_weaken; [|done]. lia.
Qed.

Lemma clip_end m lo hi rs : m <= hi -> lo <= hi -> sorted_from m rs ->
  end_of (Z.max lo m) (clip lo hi rs) <= hi.
Proof.
  intros Hm Hl. assert (G : forall k m, k <= hi -> sorted_from m rs -> end_of k (clip lo hi rs) <= hi).
  { clear m Hm. induction rs as [|r rs IH]; intros k m Hk; [done|].
    intros (?&?&?&Hs). rewrite clip_cons. unfold clip1.
    case_cmp; cbn [app end_of r_base r_size]; eapply IH; try done; lia. }
  intros. eapply G; [lia|done].
Qed.

Lemma clip_attr m lo hi rs a :
  sorted_from m rs ->
  attr_at (clip lo hi rs) a = if (lo <=? a) && (a <? hi) then attr_at rs a else None.
Proof.
  revert m. induction rs as [|r rs IH]; intros m; [by simpl; destruct (_ && _)|].
  intros (?&?&?&Hs). rewrite clip_cons, attr_at_app, (IH _ Hs). unfold clip1.
  repeat case_cmp; simpl; repeat case_cmp; simpl; try lia; try done.
Qed.

Lemma clip_sum m lo mid hi rs :
  sorted_from m rs -> lo <= mid <= hi ->
  sum_sizes (clip lo mid rs) + sum_sizes (clip mid hi rs) = sum_sizes (clip lo hi rs).
Proof.
  intros Hs Hmid. revert m Hs. induction rs as [|r rs IH]; intros m; [done|].
  intros (?&?&?&Hs). rewrite !clip_cons, !sum_sizes_app, <- (IH _ Hs). unfold clip1.
  repeat case_cmp; simpl; lia.
Qed.

Definition with_table (t : memblock_type) (rs : list memblock_region) : memblock_type :=
  mkType rs (max t) (total_size t) (regions_pa t).

(** One split of the loop: the region at the head of [suf] becomes two. *)
Lemma isolate_split t pre suf r cut :
  regions t = pre ++ r :: suf -> 0 <= r_base r < cut -> cut < r_base r + r_size r ->
  r_base r + r_size r <= ULLONG_MAX -> 0 <= total_size t < two64 -> cnt t < max t ->
  memblock_insert_region
    (mkType (<[length pre := mkRegion cut (w64 (r_size r - (cut - r_base r))) (r_flags r) (r_nid r)]>
               (pre ++ r :: suf))
       (max t) (w64 (total_size t - (cut - r_base r))) (regions_pa t))
    (length pre) (r_base r) (w64 (cut - r_base r)) (r_nid r) (r_flags r)
  = Ret (with_table t
           (pre ++ mkRegion (r_base r) (cut - r_base r) (r_flags r) (r_nid r)
                :: mkRegion cut (r_base r + r_size r - cut) (r_flags r) (r_nid r) :: suf)).
Proof.
  intros Ht ? ? ? ? Hc.
  replace (<[length pre := _]> _) with
    (pre ++ mkRegion cut (r_base r + r_size r - cut) (r_flags r) (r_nid r) :: suf).
  2: { replace (length pre) with (length pre + 0)%nat at 1 by lia.
       rewrite insert_app_r. simpl. do 3 f_equal. nowrap. lia. }
  rewrite (memblock_insert_region_mid _ pre
             (mkRegion cut (r_base r + r_size r - cut) (r_flags r) (r_nid r) :: suf)); [|done|].
  - unfold with_table. cbn [max total_size regions_pa]. do 2 f_equal.
    + nowrap. done.
    + rewrite (w64_small (cut - r_base r)), w64_add_l by (unfold two64, ULLONG_MAX in *; lia).
      rewrite w64_small by lia. lia.
  - unfold cnt in *. cbn [regions max]. rewrite Ht in Hc. rewrite length_app in *. simpl in *. lia.
Qed.

Lemma clip1_below lo hi r : r_base r + r_size r <= lo -> clip1 lo hi r = [].
Proof. intros H. unfold clip1. case_cmp; [lia|done]. Qed.
(** Cutting the bottom off a region does not matter above the cut. *)
Lemma clip1_cut cut lo hi r :
  r_base r <= cut <= lo -> clip1 lo hi (mkRegion cut (r_base r + r_size r - cut) (r_flags r) (r_nid r)) = clip1 lo hi r.
Proof.
  intros H. unfold clip1. cbn [r_base r_size r_flags r_nid].
  replace (cut + (r_base r + r_size r - cut)) with (r_base r + r_size r) by lia. by rewrite !Z.max_l by lia.
Qed.

Definition recorded (pre_len : nat) (ms : list memblock_region) (s e : nat) : nat * nat :=
  match ms with
  | [] => (s, e)
  | _ => (if Nat.eqb e 0 then pre_len else s, pre_len + length ms)%nat
  end.

(** The loop once every remaining region starts at or above [base]. *)
Lemma isolate_loop_inside fuel t pre suf lo base endp s e :
  regions t = pre ++ suf -> sorted_from lo suf -> 0 <= base -> base <= lo -> endp <= ULLONG_MAX ->
  0 <= total_size t < two64 -> cnt t < max t -> (length suf + 2 < fuel)%nat ->
  isolate_loop fuel t (length pre) base endp s e =
  Ret (with_table t (pre ++ clip base endp suf ++ clip endp ULLONG_MAX suf),
       (recorded (length pre) (clip base endp suf) s e).1,
       (recorded (length pre) (clip base endp suf) s e).2).
Proof.
  revert fuel pre lo s e. induction suf as [|r suf IH];
    intros fuel pre lo s e Ht Hs Hb Hlo He Htot Hc Hf;
    (destruct fuel as [|fuel]; [lia|]); cbn [isolate_loop]; rewrite Ht.
  { rewrite lookup_ge_None_2 by (rewrite length_app; simpl; lia). simpl.
    unfold with_table. rewrite <- Ht. by destruct t. }
  rewrite lookup_mid. pose proof Hs as (Hb1&Hz&Hmx&Hs'). rewrite r_end_eq by lia.
  destruct (Z.leb_spec endp (r_base r)).
  { rewrite (clip_nil_hi (r_base r)) by (simpl; repeat split; done || lia).
    rewrite (clip_id (r_base r) endp ULLONG_MAX).
    2: simpl; repeat split; done || lia.
    2: lia.
    2: cbn [end_of]; by apply end_of_le.
    simpl. unfold with_table. rewrite <- Ht. by destruct t. }
  destruct (Z.leb_spec (r_base r + r_size r) base); [lia|].
  destruct (Z.ltb_spec (r_base r) base); [lia|].
  destruct (Z.ltb_spec endp (r_base r + r_size r)).
  - rewrite (isolate_split t pre suf) by (done || lia). cbn [res_bind].
    destruct fuel as [|fuel]; [lia|]. cbn [isolate_loop with_table regions].
    rewrite lookup_mid. rewrite r_end_eq by (simpl; lia). cbn [r_base r_size r_end].
    destruct (Z.leb_spec endp (r_base r)); [lia|].
    destruct (Z.leb_spec (r_base r + (endp - r_base r)) base); [lia|].
    destruct (Z.ltb_spec (r_base r) base); [lia|].
    destruct (Z.ltb_spec endp (r_base r + (endp - r_base r))); [lia|].
    destruct fuel as [|fuel]; [lia|]. cbn [isolate_loop with_table regions].
    rewrite lookup_mid_next. cbn [r_base]. destruct (Z.leb_spec endp endp); [|lia].
    rewrite !clip_cons. rewrite (clip_nil_hi _ _ _ _ Hs') by lia.
    rewrite (clip_id _ _ _ _ Hs'); [|lia|by apply end_of_le].
    unfold clip1. rewrite Z.max_r, Z.min_l, Z.max_l, Z.min_r by lia.
    case_cmp; [|lia]. case_cmp; [|lia]. cbn [app recorded fst snd length].
    unfold with_table. do 3 f_equal. lia.
  - replace (S (length pre)) with (length (pre ++ [r])) by (rewrite length_app; simpl; lia).
    erewrite (IH fuel (pre ++ [r]) _ _ (length (pre ++ [r])));
      try (by rewrite <- app_assoc); try exact Hs'; try lia; [|simpl in *; lia].
    rewrite !clip_cons, (clip1_id base endp) by lia.
    rewrite (clip1_below endp) by lia.
    rewrite <- app_assoc. cbn [app recorded fst snd length].
    destruct (clip base endp suf) as [|c cs]; cbn [recorded fst snd length];
      rewrite ?length_app; cbn [length].
    + by replace (S (length pre)) with (length pre + 1)%nat by lia.
    + replace (length pre + 1 =? 0)%nat with false by (symmetry; apply Nat.eqb_neq; lia).
      by replace (length pre + S (S (length cs)))%nat with (length pre + 1 + S (length cs))%nat by lia.
Qed.

(** The whole loop: the table is cut at [base] and at [endp], nothing else
    changes, and the recorded indices delimit the part inside. *)
Lemma isolate_loop_eq fuel t pre suf lo base endp :
  regions t = pre ++ suf -> sorted_from lo suf -> 0 <= lo -> 0 <= base < endp -> endp <= ULLONG_MAX ->
  0 <= total_size t < two64 -> cnt t + 2 <= max t -> (length suf + 4 < fuel)%nat ->
  let A := pre ++ clip 0 base suf in
  let M := clip base endp suf in
  isolate_loop fuel t (length pre) base endp 0 0 =
  Ret (with_table t (A ++ M ++ clip endp ULLONG_MAX suf),
       (recorded (length A) M 0 0).1, (recorded (length A) M 0 0).2).
Proof.
  cbv zeta. revert fuel pre lo. induction suf as [|r suf IH];
    intros fuel pre lo Ht Hs Hlo Hb He Htot Hc Hf;
    (destruct fuel as [|fuel]; [lia|]).
  { cbn [isolate_loop]. rewrite Ht, lookup_ge_None_2 by (rewrite length_app; simpl; lia). simpl.
    rewrite !app_nil_r in *. unfold with_table. rewrite <- Ht. by destruct t. }
  pose proof Hs as (Hb1&Hz&Hmx&Hs').
  destruct (Z.leb_spec base (r_base r)) as [Hin|Hin].
  { rewrite (isolate_loop_inside _ t pre (r :: suf) (r_base r))
      by (done || lia || (simpl; repeat split; done || lia)).
    rewrite (clip_nil_hi (r_base r) 0 base) by (simpl; repeat split; done || lia).
    by rewrite !app_nil_r. }
  cbn [isolate_loop]. rewrite Ht, lookup_mid, r_end_eq by lia.
  destruct (Z.leb_spec endp (r_base r)); [lia|].
  destruct (Z.leb_spec (r_base r + r_size r) base).
  - replace (S (length pre)) with (length (pre ++ [r])) by (rewrite length_app; simpl; lia).
    rewrite (IH fuel (pre ++ [r]) (r_base r + r_size r));
      try (by rewrite <- app_assoc); try done; try lia; [|simpl in *; lia].
    rewrite !clip_cons, (clip1_id 0 base) by lia.
    rewrite (clip1_below base), (clip1_below endp) by lia.
    by rewrite <- !app_assoc.
  - destruct (Z.ltb_spec (r_base r) base); [|lia].
    rewrite (isolate_split t pre suf) by (done || lia). cbn [res_bind].
    set (top := mkRegion base (r_base r + r_size r - base) (r_flags r) (r_nid r)).
    set (bot := mkRegion (r_base r) (base - r_base r) (r_flags r) (r_nid r)).
    replace (S (length pre)) with (length (pre ++ [bot])) by (rewrite length_app; simpl; lia).
    rewrite (isolate_loop_inside _ _ (pre ++ [bot]) (top :: suf) base).
    + rewrite !clip_cons, (clip_nil_hi _ 0 base _ Hs') by lia.
      assert (clip1 0 base r = [bot]) as ->.
      { unfold clip1. rewrite Z.max_r, Z.min_l by lia. by case_cmp; [|lia]. }
      unfold top. rewrite !clip1_cut by lia.
      by rewrite app_nil_r, <- !app_assoc.
    + by rewrite <- app_assoc.
    + simpl. repeat split; try lia.
      by replace (base + (r_base r + r_size r - base)) with (r_base r + r_size r) by lia.
    + lia.
    + lia.
    + done.
    + done.
    + unfold cnt in *. cbn [with_table regions max]. rewrite Ht in Hc.
      rewrite length_app in *. simpl in *. lia.
    + simpl in *. lia.
Qed.

(** * Removal *)

Definition or_dummy (rs : list memblock_region) : list memblock_region :=
  match rs with [] => [mkRegion 0 0 0 MAX_NUMNODES] | _ => rs end.

Lemma or_dummy_attr rs a : attr_at (or_dummy rs) a = attr_at rs a.
Proof. destruct rs; [|done]. simpl. case_cmps; done. Qed.
Lemma or_dummy_sum rs : sum_sizes (or_dummy rs) = sum_sizes rs.
Proof. by destruct rs. Qed.
Lemma or_dummy_wf rs : sorted_from 0 rs -> wf_regions (or_dummy rs).
Proof. destruct rs; [left; by eexists|right; done]. Qed.
Lemma or_dummy_length rs : (length (or_dummy rs) <= Nat.max 1 (length rs))%nat.
Proof. destruct rs; simpl; lia. Qed.

Lemma memblock_remove_region_mid t A m C :
  regions t = A ++ m :: C ->
  memblock_remove_region t (length A) =
  mkType (or_dummy (A ++ C)) (max t) (w64 (total_size t - r_size m)) (regions_pa t).
Proof.
  intros Ht. unfold memblock_remove_region. rewrite Ht, lookup_mid, take_app_length, drop_mid.
  by destruct (A ++ C).
Qed.

Lemma remove_regions_down_eq t A M C :
  regions t = A ++ M ++ C -> A ++ M ++ C <> [] -> 0 <= total_size t < two64 ->
  remove_regions_down (length M) (length A) t =
  mkType (or_dummy (A ++ C)) (max t) (w64 (total_size t - sum_sizes M)) (regions_pa t).
Proof.
  revert t C. induction M as [|m M IH] using rev_ind; intros t C Ht Hne Htot; simpl.
  - simpl in *. rewrite Z.sub_0_r, w64_small by done.
    unfold or_dummy. destruct (A ++ C) eqn:E; [done|]. rewrite <- Ht. by destruct t.
  - rewrite length_app, Nat.add_comm. cbn [length Nat.add remove_regions_down].
    replace (length A + length M)%nat with (length (A ++ M)) by (rewrite length_app; lia).
    rewrite (memblock_remove_region_mid t (A ++ M) m C) by (rewrite Ht, <- !app_assoc; done).
    rewrite sum_sizes_app. cbn [sum_sizes]. rewrite <- app_assoc.
    destruct (decide (A ++ M ++ C = [])) as [E|E].
    + assert (A = [] /\ M = [] /\ C = []) as (-> & -> & ->) by (destruct A, M, C; done).
      simpl. do 2 f_equal. lia.
    + rewrite (IH _ C); cbn [regions max total_size regions_pa]; [|by destruct (A ++ M ++ C)|done|apply w64_range].
      f_equal. rewrite w64_sub_l. f_equal. lia.
Qed.

(** * Lookup *)

(** The binary search finds the region of an address, or answers -1 when the
    address lies in no region.  Indices fit in an [unsigned int]. *)
Section Search.
Context (rs : list memblock_region) (addr : Z).
Hypothesis Hs : sorted_from 0 rs.
Hypothesis Hlen : Z.of_nat (length rs) < 2147483648.

Lemma search_loop_spec fuel left right :
  0 <= left < right -> right <= Z.of_nat (length rs) -> right - left <= Z.of_nat fuel ->
  (forall i r, rs !! i = Some r -> Z.of_nat i < left -> r_base r + r_size r <= addr) ->
  (forall i r, rs !! i = Some r -> right <= Z.of_nat i -> addr < r_base r) ->
  (exists i r, search_loop fuel rs addr left right = Ret (Z.of_nat i) /\ rs !! i = Some r
               /\ r_base r <= addr < r_base r + r_size r)
  \/ (search_loop fuel rs addr left right = Ret (-1) /\ attr_at rs addr = None).
Proof using Hs Hlen.
  revert left right. induction fuel as [|fuel IH]; intros left right Hlr Hr Hf Hlow Hhigh; [lia|].
  cbn [search_loop]. nowrap. set (mid := (right + left) / 2).
  assert (left <= mid < right) as Hmid.
  { unfold mid. split; [apply Z.div_le_lower_bound|apply Z.div_lt_upper_bound]; lia. }
  destruct (lookup_lt_is_Some_2 rs (Z.to_nat mid)) as [r Hrm]; [lia|]. rewrite Hrm.
  destruct (sorted_region _ _ _ _ Hs Hrm) as (?&?&?). rewrite r_end_eq by lia.
  assert (Hnone : (forall i r, rs !! i = Some r -> ~ (r_base r <= addr < r_base r + r_size r)) ->
                  attr_at rs addr = None).
  { intros Hno. destruct (attr_at rs addr) eqn:E; [|done].
    apply attr_at_Some in E as (i & x & ? & ? & _). by destruct (Hno i x). }
  destruct (Z.ltb_spec addr (r_base r)) as [Hlt|Hge].
  - assert (Hhigh' : forall i x, rs !! i = Some x -> mid <= Z.of_nat i -> addr < r_base x).
    { intros i x Hi Hm. destruct (decide (i = Z.to_nat mid)) as [->|]; [by simplify_eq|].
      pose proof (sorted_lookup_lt _ _ _ _ _ _ Hs Hrm Hi). lia. }
    destruct (Z.ltb_spec left mid).
    + apply IH; try done; lia.
    + right. split; [done|]. apply Hnone. intros i x Hi.
      destruct (decide (Z.of_nat i < left)) as [Hl|Hl]; [pose proof (Hlow _ _ Hi Hl)|pose proof (Hhigh' _ _ Hi)]; lia.
  - destruct (Z.leb_spec (r_base r + r_size r) addr) as [Hle|Hin].
    + assert (Hlow' : forall i x, rs !! i = Some x -> Z.of_nat i < mid + 1 -> r_base x + r_size x <= addr).
      { intros i x Hi Hm. destruct (decide (i = Z.to_nat mid)) as [->|]; [by simplify_eq|].
        pose proof (sorted_lookup_lt _ _ _ _ _ _ Hs Hi Hrm). lia. }
      nowrap. destruct (Z.ltb_spec (mid + 1) right).
      * apply IH; try done; lia.
      * right. split; [done|]. apply Hnone. intros i x Hi.
        destruct (decide (Z.of_nat i < mid + 1)) as [Hl|Hl]; [pose proof (Hlow' _ _ Hi Hl)|pose proof (Hhigh _ _ Hi)]; lia.
    + left. exists (Z.to_nat mid), r. split; [f_equal; lia|]. split; [done|lia].
Qed.
End Search.

Lemma memblock_search_spec t addr :
  wf_regions (regions t) -> cnt t < 2147483648 -> 0 <= addr ->
  (exists i r, memblock_search t addr = Ret (Z.of_nat i) /\ regions t !! i = Some r
               /\ r_base r <= addr < r_base r + r_size r
               /\ attr_at (regions t) addr = Some (r_nid r, r_flags r))
  \/ (memblock_search t addr = Ret (-1) /\ attr_at (regions t) addr = None).
Proof.
  intros Hwf Hc Ha. unfold memblock_search, cnt in *. nowrap.
  destruct Hwf as [[nid E]|[Hne Hs]].
  - right. rewrite E. cbn -[Z.leb Z.ltb]. unfold r_end. simpl. change (w64 (0 + 0)) with 0. case_cmps; done.
  - assert (0 < length (regions t))%nat by (destruct (regions t); simpl; [done|lia]).
    destruct (search_loop_spec (regions t) addr Hs Hc (S (length (regions t))) 0
                (Z.of_nat (length (regions t)))) as [(i & r & ? & ? & ?)|?]; try lia.
    + intros i r Hi ?. apply lookup_lt_Some in Hi. lia.
    + left. exists i, r. split_and!; try done; try lia. by eapply attr_at_lookup.
    + by right.
Qed.
