(* ===== verification/MemblockIter.v ===== *)
(** Walking two region tables in lockstep (mm/memblock.c): the iterators
    [__next_mem_range] and [__next_mem_range_rev] behind
    [for_each_free_mem_range] and its reverse, and the two area finders built on
    them.

    The loop variable of the iterators is one u64 that packs the index into
    [type_a] (low half) and the index of a gap between regions of [type_b] (high
    half); the model packs and unpacks it as the code does, through [int]. *)

From S2P Require Import Prelude MemblockTable.

(** CONFIG_MEMORY_HOTPLUG is not set: include/linux/memory_hotplug.h:287. *)
Definition movable_node_is_enabled : bool := false.

(** The tests at the top of the loop body that skip a region of [type_a]. *)
Definition skip_region (nid flags : Z) (m : memblock_region) : bool :=
  (negb (nid =? NUMA_NO_NODE) && negb (nid =? r_nid m))
  || (movable_node_is_enabled && memblock_is_hotpluggable m)
  || (negb (Z.land flags MEMBLOCK_MIRROR =? 0) && negb (memblock_is_mirror m))
  || ((Z.land flags MEMBLOCK_NOMAP =? 0) && memblock_is_nomap m).

(** [r_start] and [r_end] of the loop over [type_b]: the area before its
    reservation number [idx_b]. *)
Definition gap_start (b : memblock_type) (idx_b : Z) : Z :=
  if idx_b =? 0 then 0
  else match regions b !! Z.to_nat (idx_b - 1) with Some r => r_end r | None => 0 end.
Definition gap_end (b : memblock_type) (idx_b : Z) : Z :=
  if idx_b <? cnt b
  then match regions b !! Z.to_nat idx_b with Some r => r_base r | None => 0 end
  else ULLONG_MAX.

Definition pack_idx (idx_a idx_b : Z) : Z :=
  Z.lor (w32 idx_a) (w64 (Z.shiftl (w64 idx_b) 32)).
Definition unpack_a (idx : Z) : Z := s32 (Z.land idx 4294967295).
Definition unpack_b (idx : Z) : Z := s32 (Z.shiftr idx 32).

(** for (; idx_b < type_b->cnt + 1; idx_b++): stops at the first gap that
    intersects [m_start, m_end), reporting the intersection and whether it is
    the region of [type_a] that ends first. *)
Fixpoint scan_b (n : nat) (b : memblock_type) (idx_b m_start m_end : Z)
    : Z * option (Z * Z * bool) :=
  match n with
  | O => (idx_b, None)
  | S n' =>
      if w64 idx_b <? cnt b + 1 then
        let rs := gap_start b idx_b in
        let re := gap_end b idx_b in
        if m_end <=? rs then (idx_b, None)
        else if m_start <? re then
          (idx_b, Some (Z.max m_start rs, Z.min m_end re, m_end <=? re))
        else scan_b n' b (idx_b + 1) m_start m_end
      else (idx_b, None)
  end.

(** for (; idx_a < type_a->cnt; idx_a++): the new value of *idx and, unless the
    iteration is over, the range found with its node. *)
Fixpoint scan_a (n : nat) (nid flags : Z) (a : memblock_type) (ob : option memblock_type)
    (idx_a idx_b : Z) : Z * option (Z * Z * Z) :=
  match n with
  | O => (ULLONG_MAX, None)
  | S n' =>
      if w64 idx_a <? cnt a then
        match regions a !! Z.to_nat idx_a with
        | None => (ULLONG_MAX, None)
        | Some m =>
            if skip_region nid flags m then scan_a n' nid flags a ob (idx_a + 1) idx_b
            else
              match ob with
              | None => (pack_idx (idx_a + 1) idx_b, Some (r_base m, r_end m, r_nid m))
              | Some b =>
                  match scan_b (S (S (length (regions b)))) b idx_b (r_base m) (r_end m) with
                  | (idx_b', None) => scan_a n' nid flags a ob (idx_a + 1) idx_b'
                  | (idx_b', Some (s, e, adv)) =>
                      (if adv then pack_idx (idx_a + 1) idx_b' else pack_idx idx_a (idx_b' + 1),
                       Some (s, e, r_nid m))
                  end
              end
        end
      else (ULLONG_MAX, None)
  end.

Definition __next_mem_range (idx nid flags : Z) (a : memblock_type) (ob : option memblock_type)
    : Z * option (Z * Z * Z) :=
  let nid := if nid =? MAX_NUMNODES then NUMA_NO_NODE else nid in
  scan_a (S (length (regions a))) nid flags a ob (unpack_a idx) (unpack_b idx).

(** The reverse loops: for (; idx_b >= 0; idx_b--) and for (; idx_a >= 0; idx_a--). *)
Fixpoint scan_b_rev (n : nat) (b : memblock_type) (idx_b m_start m_end : Z)
    : Z * option (Z * Z * bool) :=
  match n with
  | O => (idx_b, None)
  | S n' =>
      if 0 <=? idx_b then
        let rs := gap_start b idx_b in
        let re := gap_end b idx_b in
        if re <=? m_start then (idx_b, None)
        else if rs <? m_end then
          (idx_b, Some (Z.max m_start rs, Z.min m_end re, rs <=? m_start))
        else scan_b_rev n' b (idx_b - 1) m_start m_end
      else (idx_b, None)
  end.

Fixpoint scan_a_rev (n : nat) (nid flags : Z) (a : memblock_type) (ob : option memblock_type)
    (idx_a idx_b : Z) : Z * option (Z * Z * Z) :=
  match n with
  | O => (ULLONG_MAX, None)
  | S n' =>
      if 0 <=? idx_a then
        match regions a !! Z.to_nat idx_a with
        | None => (ULLONG_MAX, None)
        | Some m =>
            if skip_region nid flags m then scan_a_rev n' nid flags a ob (idx_a - 1) idx_b
            else
              match ob with
              | None => (pack_idx (idx_a - 1) idx_b, Some (r_base m, r_end m, r_nid m))
              | Some b =>
                  match scan_b_rev (S (S (length (regions b)))) b idx_b (r_base m) (r_end m) with
                  | (idx_b', None) => scan_a_rev n' nid flags a ob (idx_a - 1) idx_b'
                  | (idx_b', Some (s, e, adv)) =>
                      (if adv then pack_idx (idx_a - 1) idx_b' else pack_idx idx_a (idx_b' - 1),
                       Some (s, e, r_nid m))
                  end
              end
        end
      else (ULLONG_MAX, None)
  end.

Definition __next_mem_range_rev (idx nid flags : Z) (a : memblock_type)
    (ob : option memblock_type) : Z * option (Z * Z * Z) :=
  let nid := if nid =? MAX_NUMNODES then NUMA_NO_NODE else nid in
  let idx_a := if idx =? ULLONG_MAX then s32 (w64 (cnt a - 1)) else unpack_a idx in
  let idx_b := if idx =? ULLONG_MAX
               then match ob with Some b => s32 (cnt b) | None => 0 end
               else unpack_b idx in
  scan_a_rev (S (length (regions a))) nid flags a ob idx_a idx_b.

(** The macros [for_each_mem_range] and [for_each_mem_range_rev] around a body
    that may return early: [next] advances the u64 loop variable until it is
    ULLONG_MAX. *)
Section ForEach.
Context {A : Type} (next : Z -> Z * option (Z * Z * Z)) (body : Z * Z * Z -> option A).
Fixpoint for_each_range (fuel : nat) (idx : Z) : res (option A) :=
  match fuel with
  | O => OutOfFuel
  | S fuel' =>
      match next idx with
      | (idx', Some range) =>
          if idx' =? ULLONG_MAX then Ret None
          else match body range with
               | Some x => Ret (Some x)
               | None => for_each_range fuel' idx'
               end
      | (_, None) => Ret None
      end
  end.
End ForEach.

(** Each step of the walk advances one of the two indices. *)
Definition walk_fuel (a b : memblock_type) : nat :=
  (length (regions a) + length (regions b) + 3)%nat.

Definition for_each_free_mem_range {A} (mem rsv : memblock_type) (nid flags : Z)
    (body : Z * Z * Z -> option A) : res (option A) :=
  for_each_range (fun idx => __next_mem_range idx nid flags mem (Some rsv)) body
    (walk_fuel mem rsv) 0.
Definition for_each_free_mem_range_reverse {A} (mem rsv : memblock_type) (nid flags : Z)
    (body : Z * Z * Z -> option A) : res (option A) :=
  for_each_range (fun idx => __next_mem_range_rev idx nid flags mem (Some rsv)) body
    (walk_fuel mem rsv) ULLONG_MAX.

Definition bottom_up_body (start endp size align : Z) (range : Z * Z * Z) : option Z :=
  let '(this_start, this_end, _) := range in
  let this_start := clamp this_start start endp in
  let this_end := clamp this_end start endp in
  let cand := round_up this_start align in
  if (cand <? this_end) && (size <=? w64 (this_end - cand)) then Some cand else None.
Definition __memblock_find_range_bottom_up (mem rsv : memblock_type)
    (start endp size align nid flags : Z) : res Z :=
  res_map (default 0)
    (for_each_free_mem_range mem rsv nid flags (bottom_up_body start endp size align)).

Definition top_down_body (start endp size align : Z) (range : Z * Z * Z) : option Z :=
  let '(this_start, this_end, _) := range in
  let this_start := clamp this_start start endp in
  let this_end := clamp this_end start endp in
  if this_end <? size then None
  else
    let cand := round_down (w64 (this_end - size)) align in
    if this_start <=? cand then Some cand else None.
Definition __memblock_find_range_top_down (mem rsv : memblock_type)
    (start endp size align nid flags : Z) : res Z :=
  res_map (default 0)
    (for_each_free_mem_range_reverse mem rsv nid flags (top_down_body start endp size align)).

(** * The packed loop variable *)

Lemma pack_idx_eq x y : pack_idx x y = w32 x + w32 y * 2 ^ 32.
Proof.
  unfold pack_idx. rewrite Z.shiftl_mul_pow2 by lia.
  assert (w64 (w64 y * 2 ^ 32) = w32 y * 2 ^ 32) as ->.
  { unfold w64, w32. change two64 with (two32 * 2 ^ 32). rewrite Z.mul_mod_distr_r by done.
    f_equal. rewrite Z.rem_mul_r by done.
    rewrite Z.mul_comm, Z.mod_add by done. apply Z.mod_mod. done. }
  apply lor_disjoint_add; [lia|apply w32_range].
Qed.

Lemma unpack_a_pack x y : -2147483648 <= x < 2147483648 -> unpack_a (pack_idx x y) = x.
Proof.
  intros. unfold unpack_a. rewrite pack_idx_eq.
  change 4294967295 with (Z.ones 32). rewrite Z.land_ones, Z.mod_add by lia.
  rewrite (Z.mod_small (w32 x)) by apply w32_range. by apply s32_w32.
Qed.
Lemma unpack_b_pack x y : -2147483648 <= y < 2147483648 -> unpack_b (pack_idx x y) = y.
Proof.
  intros. unfold unpack_b. rewrite pack_idx_eq, Z.shiftr_div_pow2, Z.div_add by lia.
  rewrite (Z.div_small (w32 x)) by apply w32_range. simpl. by apply s32_w32.
Qed.
Lemma pack_idx_not_end x y : 0 <= y < 2147483648 -> pack_idx x y <> ULLONG_MAX.
Proof.
  intros Hy. rewrite pack_idx_eq, (w32_small y) by (unfold two32; lia).
  pose proof (w32_range x). unfold two32, ULLONG_MAX in *. lia.
Qed.

(** * Gaps of a table *)

(** Like [sorted_from], with empty regions allowed: this covers the dummy entry. *)
Fixpoint ordered (lo : Z) (rs : list memblock_region) : Prop :=
  match rs with
  | [] => True
  | r :: rs' =>
      lo <= r_base r /\ 0 <= r_size r /\ r_base r + r_size r <= ULLONG_MAX
      /\ ordered (r_base r + r_size r) rs'
  end.

Lemma sorted_ordered lo rs : sorted_from lo rs -> ordered lo rs.
Proof. revert lo. induction rs; simpl; intros; [done|]. intuition (auto; lia). Qed.
Lemma wf_ordered rs : wf_regions rs -> ordered 0 rs.
Proof.
  intros [[nid ->]|[_ Hs]]; [simpl; unfold ULLONG_MAX; lia|by apply sorted_ordered].
Qed.

Lemma ordered_region lo rs i r :
  ordered lo rs -> rs !! i = Some r ->
  lo <= r_base r /\ 0 <= r_size r /\ r_base r + r_size r <= ULLONG_MAX.
Proof.
  revert lo i. induction rs as [|x rs IH]; intros lo [|i]; simpl; try done.
  - intros (?&?&?&?) [= ->]. done.
  - intros (?&?&?&H) Hi. destruct (IH _ _ H Hi). lia.
Qed.

Lemma ordered_lookup_lt lo rs i j x y :
  ordered lo rs -> rs !! i = Some x -> rs !! j = Some y -> (i < j)%nat ->
  r_base x + r_size x <= r_base y.
Proof.
  revert lo i j. induction rs as [|z rs IH]; intros lo i j; simpl; [done|].
  intros (?&?&?&H) Hi Hj Hlt. destruct j as [|j]; [lia|]. destruct i as [|i]; simpl in *.
  - simplify_eq. by apply (ordered_region _ _ _ _ H) in Hj as (?&?&?).
  - eapply IH; eauto; lia.
Qed.

Section Gaps.
Context (b : memblock_type) (Hb : ordered 0 (regions b)).

Lemma region_at y : 0 <= y < cnt b -> exists r, regions b !! Z.to_nat y = Some r.
Proof using. intros. apply lookup_lt_is_Some_2. unfold cnt in *. lia. Qed.

Lemma gap_start_S y r : 0 <= y -> regions b !! Z.to_nat y = Some r ->
  gap_start b (y + 1) = r_base r + r_size r.
Proof using Hb.
  intros ? Hr. unfold gap_start. case_cmp; [lia|]. rewrite Z.add_simpl_r, Hr.
  destruct (ordered_region _ _ _ _ Hb Hr) as (?&?&?). by apply r_end_eq.
Qed.
Lemma gap_end_lt y r : y < cnt b -> regions b !! Z.to_nat y = Some r -> gap_end b y = r_base r.
Proof using. intros ? Hr. unfold gap_end. case_cmp; [|lia]. by rewrite Hr. Qed.
Lemma gap_end_last y : cnt b <= y -> gap_end b y = ULLONG_MAX.
Proof using. intros. unfold gap_end. case_cmp; [lia|done]. Qed.

Lemma gap_next y : 0 <= y < cnt b -> gap_end b y <= gap_start b (y + 1).
Proof using Hb.
  intros Hy. destruct (region_at y Hy) as [r Hr].
  rewrite (gap_start_S y r), (gap_end_lt y r) by (done || lia).
  destruct (ordered_region _ _ _ _ Hb Hr) as (?&?&?). lia.
Qed.

Lemma gap_le y : 0 <= y <= cnt b -> 0 <= gap_start b y <= gap_end b y /\ gap_end b y <= ULLONG_MAX.
Proof using Hb.
  intros Hy. destruct (decide (y = 0)) as [->|Hy0].
  - change (gap_start b 0) with 0. destruct (decide (0 < cnt b)).
    + destruct (region_at 0 ltac:(lia)) as [r Hr]. rewrite (gap_end_lt 0 r) by done.
      destruct (ordered_region _ _ _ _ Hb Hr) as (?&?&?). lia.
    + rewrite gap_end_last by lia. unfold ULLONG_MAX. lia.
  - destruct (region_at (y - 1) ltac:(lia)) as [r Hr].
    destruct (ordered_region _ _ _ _ Hb Hr) as (?&?&?).
    replace y with (y - 1 + 1) at 1 2 by lia. rewrite (gap_start_S _ r) by (done || lia).
    destruct (decide (y < cnt b)).
    + destruct (region_at y ltac:(lia)) as [r' Hr']. rewrite (gap_end_lt y r') by (done || lia).
      destruct (ordered_region _ _ _ _ Hb Hr') as (?&?&?).
      pose proof (ordered_lookup_lt _ _ _ _ _ _ Hb Hr Hr' ltac:(lia)). lia.
    + rewrite gap_end_last by lia. lia.
Qed.

Lemma gap_mono y y' : 0 <= y < y' -> y' <= cnt b -> gap_end b y <= gap_start b y'.
Proof using Hb.
  intros Hy. replace y' with (y + 1 + Z.of_nat (Z.to_nat (y' - y - 1))) by lia.
  generalize (Z.to_nat (y' - y - 1)). intros n. induction n as [|n IH]; intros Hle.
  - replace (y + 1 + Z.of_nat 0) with (y + 1) by lia. apply gap_next. lia.
  - specialize (IH ltac:(lia)).
    pose proof (gap_le (y + 1 + Z.of_nat n) ltac:(lia)).
    pose proof (gap_next (y + 1 + Z.of_nat n) ltac:(lia)).
    replace (y + 1 + Z.of_nat (S n)) with (y + 1 + Z.of_nat n + 1) by lia. lia.
Qed.

(** The gaps are exactly the addresses outside the table. *)
Lemma gap_free y addr :
  0 <= y <= cnt b -> gap_start b y <= addr < gap_end b y -> attr_at (regions b) addr = None.
Proof using Hb.
  intros Hy Ha. destruct (attr_at (regions b) addr) eqn:E; [|done]. exfalso.
  apply attr_at_Some in E as (i & r & Hi & Hr & _).
  pose proof (lookup_lt_Some _ _ _ Hi).
  assert (Hi' : regions b !! Z.to_nat (Z.of_nat i) = Some r) by (by rewrite Nat2Z.id).
  destruct (decide (Z.of_nat i < y)).
  - destruct (decide (Z.of_nat i + 1 = y)) as [E|].
    + rewrite <- E, (gap_start_S _ r) in Ha by (done || lia). lia.
    + pose proof (gap_mono (Z.of_nat i + 1) y ltac:(lia) ltac:(lia)).
      pose proof (gap_le (Z.of_nat i + 1) ltac:(lia)) as Hg.
      rewrite (gap_start_S _ r) in Hg by (done || lia). lia.
  - destruct (decide (Z.of_nat i = y)) as [E|].
    + rewrite (gap_end_lt y r) in Ha; [lia|unfold cnt; lia|by rewrite <- E].
    + pose proof (gap_mono y (Z.of_nat i) ltac:(lia) ltac:(unfold cnt; lia)).
      pose proof (gap_le (Z.of_nat i) ltac:(unfold cnt; lia)) as Hg.
      rewrite (gap_end_lt _ r) in Hg by (done || (unfold cnt; lia)). lia.
Qed.

Lemma free_gap addr :
  0 <= addr < ULLONG_MAX -> attr_at (regions b) addr = None ->
  exists y, 0 <= y <= cnt b /\ gap_start b y <= addr < gap_end b y.
Proof using Hb.
  intros Ha Hnone.
  assert (H : forall n, Z.of_nat n <= cnt b -> gap_start b (Z.of_nat n) <= addr ->
    exists y, Z.of_nat n <= y <= cnt b /\ gap_start b y <= addr < gap_end b y).
  { intros n Hn. remember (Z.to_nat (cnt b) - n)%nat as k eqn:Ek.
    revert n Hn Ek. induction k as [|k IH]; intros n Hn Ek Hs.
    - exists (Z.of_nat n). rewrite gap_end_last by lia. lia.
    - destruct (region_at (Z.of_nat n) ltac:(lia)) as [r Hr].
      destruct (decide (addr < gap_end b (Z.of_nat n))); [by exists (Z.of_nat n)|].
      rewrite (gap_end_lt _ r) in * by (done || lia).
      pose proof (attr_at_None _ _ _ _ Hnone Hr) as Hno.
      destruct (IH (S n)) as (y & ? & ?); [lia|lia| |].
      + replace (Z.of_nat (S n)) with (Z.of_nat n + 1) by lia.
        rewrite (gap_start_S _ r) by (done || lia). lia.
      + exists y. split; [lia|done]. }
  destruct (H 0%nat) as (y & ? & ?); [unfold cnt; lia|by change (gap_start b _) with 0; lia|].
  exists y. split; [lia|done].
Qed.
End Gaps.

(** * The walk *)

(** The first result a body gives on a list of ranges: what a [for_each] loop
    with an early return computes. *)
Fixpoint first_some {A} (body : Z * Z * Z -> option A) (l : list (Z * Z * Z)) : option A :=
  match l with
  | [] => None
  | x :: l' => match body x with Some y => Some y | None => first_some body l' end
  end.

Section Walk.
Context (nid flags : Z) (a b : memblock_type).
Hypothesis Ha : ordered 0 (regions a).
Hypothesis Hb : ordered 0 (regions b).
Hypothesis Hla : cnt a < 2147483647.
Hypothesis Hlb : cnt b < 2147483647.

(** Region [x] of [a] is eligible and meets gap [y] of [b] in [s, e). *)
Definition meets (x y s e n : Z) : Prop :=
  exists m, 0 <= x < cnt a /\ regions a !! Z.to_nat x = Some m
    /\ skip_region nid flags m = false /\ 0 <= y <= cnt b
    /\ gap_start b y < r_base m + r_size m /\ r_base m < gap_end b y
    /\ s = Z.max (r_base m) (gap_start b y) /\ e = Z.min (r_base m + r_size m) (gap_end b y)
    /\ n = r_nid m.

Lemma scan_b_spec n ib m_start m_end jb out :
  0 <= ib <= cnt b + 1 -> cnt b + 1 - ib < Z.of_nat n ->
  scan_b n b ib m_start m_end = (jb, out) ->
  ib <= jb <= cnt b + 1
  /\ (forall y, ib <= y < jb -> gap_end b y <= m_start)
  /\ match out with
     | None => cnt b < jb \/ m_end <= gap_start b jb
     | Some (s, e, adv) =>
         jb <= cnt b /\ gap_start b jb < m_end /\ m_start < gap_end b jb
         /\ s = Z.max m_start (gap_start b jb) /\ e = Z.min m_end (gap_end b jb)
         /\ adv = (m_end <=? gap_end b jb)
     end.
Proof using Hlb.
  revert ib. induction n as [|n IH]; intros ib Hib Hn; [lia|]. cbn [scan_b].
  nowrap. destruct (Z.ltb_spec ib (cnt b + 1)).
  - destruct (Z.leb_spec m_end (gap_start b ib)).
    { intros [= <- <-]. split_and!; try lia. }
    destruct (Z.ltb_spec m_start (gap_end b ib)).
    { intros [= <- <-]. split_and!; try lia; done. }
    intros E. apply IH in E as (?&Hy&?); [|lia|lia]. split; [lia|]. split; [|done].
    intros y Hyy. destruct (decide (y = ib)) as [->|]; [done|]. apply Hy. lia.
  - intros [= <- <-]. split_and!; lia.
Qed.

Definition later (x y : Z) (ia ib : Z) : Prop := ia <= x /\ ib <= y.

Lemma region_a x m : regions a !! Z.to_nat x = Some m ->
  0 <= r_base m /\ 0 <= r_size m /\ r_base m + r_size m <= ULLONG_MAX.
Proof using Ha. apply ordered_region, Ha. Qed.
Lemma region_a_lt x x' m m' : 0 <= x < x' -> regions a !! Z.to_nat x = Some m ->
  regions a !! Z.to_nat x' = Some m' -> r_base m + r_size m <= r_base m'.
Proof using Ha. intros. eapply ordered_lookup_lt; [exact Ha|done|done|lia]. Qed.

(** What one step returns from the position (ia, ib): the least range not yet
    reported, with the position after it. *)
Definition fwd_step (ia ib : Z) (out : Z * option (Z * Z * Z)) : Prop :=
  (out = (ULLONG_MAX, None) /\ forall x y s e k, meets x y s e k -> ~ later x y ia ib)
  \/ exists x y s e k ja jb,
      out = (pack_idx ja jb, Some (s, e, k))
      /\ meets x y s e k /\ later x y ia ib
      /\ (ja = x + 1 /\ jb = y \/ ja = x /\ jb = y + 1)
      /\ (forall x' y' s' e' k', meets x' y' s' e' k' -> later x' y' ia ib ->
            x' = x /\ y' = y \/ later x' y' ja jb)
      /\ (forall x' y' s' e' k', meets x' y' s' e' k' -> later x' y' ja jb -> e <= s').

Lemma fwd_step_skip ia ib ia' ib' out :
  ia <= ia' -> ib <= ib' ->
  (forall x y s e k, meets x y s e k -> later x y ia ib -> later x y ia' ib') ->
  fwd_step ia' ib' out -> fwd_step ia ib out.
Proof using.
  intros ? ? Hmono [[-> Hno]|(x&y&s&e&k&ja&jb&->&HM&[? ?]&?&Hall&Hs)].
  - left. split; [done|]. intros x y s e k HM HL. eapply Hno; eauto.
  - right. exists x, y, s, e, k, ja, jb. split_and!; try done; try (unfold later; lia).
    intros x' y' s' e' k' HM' HL'. eapply Hall; eauto.
Qed.

Lemma scan_a_found ia ib m jb :
  0 <= ia < cnt a -> regions a !! Z.to_nat ia = Some m -> skip_region nid flags m = false ->
  0 <= ib <= jb -> jb <= cnt b ->
  gap_start b jb < r_base m + r_size m -> r_base m < gap_end b jb ->
  (forall x y s e k, meets x y s e k -> later x y ia ib -> jb <= y) ->
  fwd_step ia ib
    (if r_base m + r_size m <=? gap_end b jb then pack_idx (ia + 1) jb else pack_idx ia (jb + 1),
     Some (Z.max (r_base m) (gap_start b jb), Z.min (r_base m + r_size m) (gap_end b jb), r_nid m)).
Proof using Ha Hb.
  intros Hia Hm Hsk Hjb Hib Hg1 Hg2 Hlow. right.
  pose proof (region_a _ _ Hm) as (?&?&?).
  exists ia, jb, (Z.max (r_base m) (gap_start b jb)), (Z.min (r_base m + r_size m) (gap_end b jb)), (r_nid m).
  assert (HM : meets ia jb (Z.max (r_base m) (gap_start b jb))
                 (Z.min (r_base m + r_size m) (gap_end b jb)) (r_nid m)).
  { exists m. split_and!; done || lia. }
  destruct (Z.leb_spec (r_base m + r_size m) (gap_end b jb)) as [Hadv|Hadv];
    [exists (ia + 1), jb|exists ia, (jb + 1)]; (split; [done|]); (split; [done|]);
    (split; [unfold later; lia|]); (split; [lia|]); split.
  - intros x y s e k HM' HL'. pose proof (Hlow _ _ _ _ _ HM' HL'). destruct HL'.
    destruct (decide (x = ia)) as [->|]; [|right; split; lia]. left. split; [done|].
    destruct HM' as (m'&?&Hm'&_&?&?&?&_). rewrite Hm in Hm'. simplify_eq.
    destruct (decide (jb < y)); [|lia]. pose proof (gap_mono b Hb jb y ltac:(lia) ltac:(lia)). lia.
  - intros x y s e k (m'&?&Hm'&_&?&?&?&->&_) [? ?].
    pose proof (region_a_lt ia x _ _ ltac:(lia) Hm Hm'). lia.
  - intros x y s e k HM' HL'. pose proof (Hlow _ _ _ _ _ HM' HL'). destruct HL'.
    destruct (decide (y = jb)) as [->|]; [|right; split; lia]. left. split; [|done].
    destruct HM' as (m'&?&Hm'&_&?&?&?&_).
    destruct (decide (x = ia)) as [->|]; [done|].
    pose proof (region_a_lt ia x _ _ ltac:(lia) Hm Hm'). lia.
  - intros x y s e k (m'&?&Hm'&_&?&?&?&->&_) [? ?].
    pose proof (gap_mono b Hb jb y ltac:(lia) ltac:(lia)). lia.
Qed.

Lemma scan_a_spec n ia ib :
  0 <= ia <= cnt a -> 0 <= ib <= cnt b + 1 -> cnt a - ia < Z.of_nat n ->
  fwd_step ia ib (scan_a n nid flags a (Some b) ia ib).
Proof using Ha Hb Hla Hlb.
  revert ia ib. induction n as [|n IH]; intros ia ib Hia Hib Hn; [lia|]. cbn [scan_a].
  nowrap. destruct (Z.ltb_spec ia (cnt a)).
  2: { left. split; [done|]. intros x y s e k (m&?&_) [? ?]. lia. }
  destruct (region_at a ia ltac:(lia)) as [m Hm]. rewrite Hm.
  pose proof (region_a _ _ Hm) as (?&?&?). rewrite r_end_eq by done.
  destruct (skip_region nid flags m) eqn:Hsk.
  { apply (fwd_step_skip _ _ (ia + 1) ib); [lia|lia| |by apply IH; lia].
    intros x y s e k (m'&?&Hm'&Hsk'&_) [? ?]. split; [|done].
    destruct (decide (x = ia)) as [->|]; [|lia]. congruence. }
  destruct (scan_b _ b ib (r_base m) (r_base m + r_size m)) as [jb out] eqn:E.
  apply scan_b_spec in E as (Hj&Hbelow&Hout); [|lia|unfold cnt in *; lia].
  assert (Hlow : forall x y s e k, meets x y s e k -> later x y ia ib -> jb <= y).
  { intros x y s e k (m'&?&Hm'&_&?&_&?&_) [? ?].
    destruct (decide (y < jb)); [|lia]. pose proof (Hbelow y ltac:(lia)).
    destruct (decide (x = ia)) as [->|]; [rewrite Hm in Hm'; simplify_eq; lia|].
    pose proof (region_a_lt ia x _ _ ltac:(lia) Hm Hm'). lia. }
  destruct out as [[[s e] adv]|].
  - destruct Hout as (?&?&?&->&->&->). apply scan_a_found; done || lia.
  - apply (fwd_step_skip _ _ (ia + 1) jb); [lia|lia| |by apply IH; lia].
    intros x y s e k HM HL. pose proof (Hlow _ _ _ _ _ HM HL).
    destruct HM as (m'&?&Hm'&_&?&?&?&_). destruct HL. split; [|done].
    destruct (decide (x = ia)) as [->|]; [|lia]. rewrite Hm in Hm'. simplify_eq. exfalso.
    destruct Hout; [lia|]. destruct (decide (jb = y)) as [->|]; [lia|].
    pose proof (gap_le b Hb jb ltac:(lia)). pose proof (gap_mono b Hb jb y ltac:(lia) ltac:(lia)). lia.
Qed.

(** ** The reverse walk *)

Lemma scan_b_rev_spec n ib m_start m_end jb out :
  -1 <= ib <= cnt b -> ib < Z.of_nat n - 1 ->
  scan_b_rev n b ib m_start m_end = (jb, out) ->
  -1 <= jb <= ib
  /\ (forall y, jb < y <= ib -> m_end <= gap_start b y)
  /\ match out with
     | None => jb < 0 \/ gap_end b jb <= m_start
     | Some (s, e, adv) =>
         0 <= jb /\ gap_start b jb < m_end /\ m_start < gap_end b jb
         /\ s = Z.max m_start (gap_start b jb) /\ e = Z.min m_end (gap_end b jb)
         /\ adv = (gap_start b jb <=? m_start)
     end.
Proof using Hlb.
  revert ib. induction n as [|n IH]; intros ib Hib Hn; [lia|]. cbn [scan_b_rev].
  destruct (Z.leb_spec 0 ib).
  - destruct (Z.leb_spec (gap_end b ib) m_start).
    { intros [= <- <-]. split_and!; try lia. }
    destruct (Z.ltb_spec (gap_start b ib) m_end).
    { intros [= <- <-]. split_and!; try lia; done. }
    intros E. apply IH in E as (?&Hy&?); [|lia|lia]. split; [lia|]. split; [|done].
    intros y Hyy. destruct (decide (y = ib)) as [->|]; [done|]. apply Hy. lia.
  - intros [= <- <-]. split_and!; lia.
Qed.

Definition earlier (x y : Z) (ia ib : Z) : Prop := x <= ia /\ y <= ib.

(** What one reverse step returns from the position (ia, ib). *)
Definition rev_step (ia ib : Z) (out : Z * option (Z * Z * Z)) : Prop :=
  (out = (ULLONG_MAX, None) /\ forall x y s e k, meets x y s e k -> ~ earlier x y ia ib)
  \/ exists x y s e k ja jb,
      out = (pack_idx ja jb, Some (s, e, k))
      /\ meets x y s e k /\ earlier x y ia ib
      /\ (ja = x - 1 /\ jb = y \/ ja = x /\ jb = y - 1 /\ 0 <= jb)
      /\ (forall x' y' s' e' k', meets x' y' s' e' k' -> earlier x' y' ia ib ->
            x' = x /\ y' = y \/ earlier x' y' ja jb)
      /\ (forall x' y' s' e' k', meets x' y' s' e' k' -> earlier x' y' ja jb -> e' <= s).

Lemma rev_step_skip ia ib ia' ib' out :
  ia' <= ia -> ib' <= ib ->
  (forall x y s e k, meets x y s e k -> earlier x y ia ib -> earlier x y ia' ib') ->
  rev_step ia' ib' out -> rev_step ia ib out.
Proof using.
  intros ? ? Hmono [[-> Hno]|(x&y&s&e&k&ja&jb&->&HM&[? ?]&?&Hall&Hs)].
  - left. split; [done|]. intros x y s e k HM HL. eapply Hno; eauto.
  - right. exists x, y, s, e, k, ja, jb. split_and!; try done; try (unfold earlier; lia).
    intros x' y' s' e' k' HM' HL'. eapply Hall; eauto.
Qed.

Lemma scan_a_rev_found ia ib m jb :
  0 <= ia < cnt a -> regions a !! Z.to_nat ia = Some m -> skip_region nid flags m = false ->
  0 <= jb <= ib -> ib <= cnt b ->
  gap_start b jb < r_base m + r_size m -> r_base m < gap_end b jb ->
  (forall x y s e k, meets x y s e k -> earlier x y ia ib -> y <= jb) ->
  rev_step ia ib
    (if gap_start b jb <=? r_base m then pack_idx (ia - 1) jb else pack_idx ia (jb - 1),
     Some (Z.max (r_base m) (gap_start b jb), Z.min (r_base m + r_size m) (gap_end b jb), r_nid m)).
Proof using Ha Hb.
  intros Hia Hm Hsk Hjb Hib Hg1 Hg2 Hlow. right.
  pose proof (region_a _ _ Hm) as (?&?&?).
  exists ia, jb, (Z.max (r_base m) (gap_start b jb)), (Z.min (r_base m + r_size m) (gap_end b jb)), (r_nid m).
  assert (HM : meets ia jb (Z.max (r_base m) (gap_start b jb))
                 (Z.min (r_base m + r_size m) (gap_end b jb)) (r_nid m)).
  { exists m. split_and!; done || lia. }
  destruct (Z.leb_spec (gap_start b jb) (r_base m)) as [Hadv|Hadv];
    [exists (ia - 1), jb|exists ia, (jb - 1)]; (split; [done|]); (split; [done|]);
    (split; [unfold earlier; lia|]).
  - split; [lia|]. split.
    + intros x y s e k HM' HL'. pose proof (Hlow _ _ _ _ _ HM' HL'). destruct HL'.
      destruct (decide (x = ia)) as [->|]; [|right; split; lia]. left. split; [done|].
      destruct HM' as (m'&?&Hm'&_&?&?&?&_). rewrite Hm in Hm'. simplify_eq.
      destruct (decide (y < jb)); [|lia]. pose proof (gap_mono b Hb y jb ltac:(lia) ltac:(lia)). lia.
    + intros x y s e k (m'&?&Hm'&_&?&?&?&_&->&_) [? ?].
      pose proof (region_a_lt x ia _ _ ltac:(lia) Hm' Hm). lia.
  - assert (jb <> 0) by (intros ->; change (gap_start b 0) with 0 in *; lia).
    split; [lia|]. split.
    + intros x y s e k HM' HL'. pose proof (Hlow _ _ _ _ _ HM' HL'). destruct HL'.
      destruct (decide (y = jb)) as [->|]; [|right; split; lia]. left. split; [|done].
      destruct HM' as (m'&?&Hm'&_&?&?&?&_).
      destruct (decide (x = ia)) as [->|]; [done|].
      pose proof (region_a_lt x ia _ _ ltac:(lia) Hm' Hm). lia.
    + intros x y s e k (m'&?&Hm'&_&?&?&?&_&->&_) [? ?].
      pose proof (gap_mono b Hb y jb ltac:(lia) ltac:(lia)). lia.
Qed.

Lemma scan_a_rev_spec n ia ib :
  -1 <= ia < cnt a -> -1 <= ib <= cnt b -> ia < Z.of_nat n - 1 ->
  rev_step ia ib (scan_a_rev n nid flags a (Some b) ia ib).
Proof using Ha Hb Hla Hlb.
  revert ia ib. induction n as [|n IH]; intros ia ib Hia Hib Hn; [lia|]. cbn [scan_a_rev].
  destruct (Z.leb_spec 0 ia).
  2: { left. split; [done|]. intros x y s e k (m&?&_) [? ?]. lia. }
  destruct (region_at a ia ltac:(lia)) as [m Hm]. rewrite Hm.
  pose proof (region_a _ _ Hm) as (?&?&?). rewrite r_end_eq by done.
  destruct (skip_region nid flags m) eqn:Hsk.
  { apply (rev_step_skip _ _ (ia - 1) ib); [lia|lia| |by apply IH; lia].
    intros x y s e k (m'&?&Hm'&Hsk'&_) [? ?]. split; [|done].
    destruct (decide (x = ia)) as [->|]; [|lia]. congruence. }
  destruct (scan_b_rev _ b ib (r_base m) (r_base m + r_size m)) as [jb out] eqn:E.
  apply scan_b_rev_spec in E as (Hj&Habove&Hout); [|lia|unfold cnt in *; lia].
  assert (Hlow : forall x y s e k, meets x y s e k -> earlier x y ia ib -> y <= jb).
  { intros x y s e k (m'&?&Hm'&_&?&?&_) [? ?].
    destruct (decide (jb < y)); [|lia]. pose proof (Habove y ltac:(lia)).
    destruct (decide (x = ia)) as [->|]; [rewrite Hm in Hm'; simplify_eq; lia|].
    pose proof (region_a_lt x ia _ _ ltac:(lia) Hm' Hm). lia. }
  destruct out as [[[s e] adv]|].
  - destruct Hout as (?&?&?&->&->&->). apply scan_a_rev_found; done || lia.
  - apply (rev_step_skip _ _ (ia - 1) jb); [lia|lia| |by apply IH; lia].
    intros x y s e k HM HL. pose proof (Hlow _ _ _ _ _ HM HL).
    destruct HM as (m'&?&Hm'&_&?&?&?&_). destruct HL. split; [|done].
    destruct (decide (x = ia)) as [->|]; [|lia]. rewrite Hm in Hm'. simplify_eq. exfalso.
    destruct Hout; [lia|]. destruct (decide (jb = y)) as [->|]; [lia|].
    pose proof (gap_le b Hb jb ltac:(lia)). pose proof (gap_mono b Hb y jb ltac:(lia) ltac:(lia)). lia.
Qed.

(** Ranges in increasing, respectively decreasing, order of address. *)
Fixpoint increasing (l : list (Z * Z * Z)) : Prop :=
  match l with
  | [] => True
  | (_, e, _) :: l' => (forall s' e' k', (s', e', k') ∈ l' -> e <= s') /\ increasing l'
  end.
Fixpoint decreasing (l : list (Z * Z * Z)) : Prop :=
  match l with
  | [] => True
  | (s, _, _) :: l' => (forall s' e' k', (s', e', k') ∈ l' -> e' <= s) /\ decreasing l'
  end.

End Walk.

(** The node argument after the deprecated value MAX_NUMNODES is replaced. *)
Definition node_arg (nid : Z) : Z := if nid =? MAX_NUMNODES then NUMA_NO_NODE else nid.

Section ForEachFree.
Context (nid flags : Z) (a b : memblock_type).
Hypothesis Ha : ordered 0 (regions a).
Hypothesis Hb : ordered 0 (regions b).
Hypothesis Hla : cnt a < 2147483647.
Hypothesis Hlb : cnt b < 2147483647.

Lemma for_each_forward fuel ia ib :
  0 <= ia <= cnt a -> 0 <= ib <= cnt b + 1 ->
  (cnt a - ia) + (cnt b + 1 - ib) < Z.of_nat fuel ->
  exists l,
    (forall A (body : Z * Z * Z -> option A),
        for_each_range (fun idx => __next_mem_range idx nid flags a (Some b)) body fuel (pack_idx ia ib)
        = Ret (first_some body l))
    /\ (forall s e k, (s, e, k) ∈ l <->
          exists x y, later x y ia ib /\ meets (node_arg nid) flags a b x y s e k)
    /\ increasing l.
Proof using Ha Hb Hla Hlb.
  revert ia ib. induction fuel as [|fuel IH]; intros ia ib Hia Hib Hf; [lia|].
  assert (En : __next_mem_range (pack_idx ia ib) nid flags a (Some b)
               = scan_a (S (length (regions a))) (node_arg nid) flags a (Some b) ia ib).
  { unfold __next_mem_range. rewrite unpack_a_pack, unpack_b_pack by lia. done. }
  destruct (scan_a_spec (node_arg nid) flags a b Ha Hb Hla Hlb (S (length (regions a))) ia ib)
    as [[E Hno]|(x&y&s&e&k&ja&jb&E&HM&HL&Hj&Hall&Hlt)]; [lia|lia|unfold cnt in *; lia| |].
  - exists []. split_and!; [|intros s e k; split|done].
    + intros A body. cbn [for_each_range]. by rewrite En, E.
    + intros Hin. by apply elem_of_nil in Hin.
    + intros (x&y&HL&HM). exfalso. eapply Hno; eauto.
  - pose proof HM as (m&?&_&_&?&_). destruct HL as [? ?].
    destruct (IH ja jb) as (l&Hl&Hmem&Hinc); [lia|lia|lia|].
    exists ((s, e, k) :: l). split_and!.
    + intros A body. cbn [for_each_range first_some]. rewrite En, E.
      destruct (Z.eqb_spec (pack_idx ja jb) ULLONG_MAX) as [Hend|_];
        [by apply pack_idx_not_end in Hend; [|lia]|].
      destruct (body (s, e, k)); [done|]. apply Hl.
    + intros s' e' k'. rewrite elem_of_cons, Hmem. split.
      * intros [[= -> -> ->]|(x'&y'&[? ?]&?)]; [by exists x, y|].
        exists x', y'. split; [split; lia|done].
      * intros (x'&y'&HL'&HM'). destruct (Hall _ _ _ _ _ HM' HL') as [[-> ->]|?]; [left|right; by eauto].
        destruct HM as (m1&?&E1&?&?&?&?&->&->&->), HM' as (m2&?&E2&?&?&?&?&->&->&->).
        rewrite E1 in E2. by simplify_eq.
    + simpl. split; [|done]. intros s' e' k' (x'&y'&HL'&HM')%Hmem. eauto.
Qed.

Lemma for_each_backward fuel ia ib :
  -1 <= ia < cnt a -> 0 <= ib <= cnt b -> ia + 1 + ib < Z.of_nat fuel ->
  forall idx, (idx = pack_idx ia ib \/ idx = ULLONG_MAX /\ ia = cnt a - 1 /\ ib = cnt b) ->
  0 < cnt a ->
  exists l,
    (forall A (body : Z * Z * Z -> option A),
        for_each_range (fun idx => __next_mem_range_rev idx nid flags a (Some b)) body fuel idx
        = Ret (first_some body l))
    /\ (forall s e k, (s, e, k) ∈ l <->
          exists x y, earlier x y ia ib /\ meets (node_arg nid) flags a b x y s e k)
    /\ decreasing l.
Proof using Ha Hb Hla Hlb.
  revert ia ib. induction fuel as [|fuel IH]; intros ia ib Hia Hib Hf idx Hidx Hpos; [lia|].
  assert (En : __next_mem_range_rev idx nid flags a (Some b)
               = scan_a_rev (S (length (regions a))) (node_arg nid) flags a (Some b) ia ib).
  { unfold __next_mem_range_rev. destruct Hidx as [->|(->&->&->)].
    - destruct (Z.eqb_spec (pack_idx ia ib) ULLONG_MAX) as [Hend|_];
        [by apply pack_idx_not_end in Hend; [|lia]|].
      rewrite unpack_a_pack, unpack_b_pack by lia. done.
    - rewrite Z.eqb_refl. nowrap. done. }
  destruct (scan_a_rev_spec (node_arg nid) flags a b Ha Hb Hla Hlb (S (length (regions a))) ia ib)
    as [[E Hno]|(x&y&s&e&k&ja&jb&E&HM&HL&Hj&Hall&Hlt)]; [lia|lia|unfold cnt in *; lia| |].
  - exists []. split_and!; [|intros s e k; split|done].
    + intros A body. cbn [for_each_range]. by rewrite En, E.
    + intros Hin. by apply elem_of_nil in Hin.
    + intros (x&y&HL&HM). exfalso. eapply Hno; eauto.
  - pose proof HM as (m&?&_&_&?&_). destruct HL as [? ?].
    destruct (IH ja jb ltac:(lia) ltac:(lia) ltac:(lia) (pack_idx ja jb)) as (l&Hl&Hmem&Hinc); [by left|done|].
    exists ((s, e, k) :: l). split_and!.
    + intros A body. cbn [for_each_range first_some]. rewrite En, E.
      destruct (Z.eqb_spec (pack_idx ja jb) ULLONG_MAX) as [Hend|_];
        [by apply pack_idx_not_end in Hend; [|lia]|].
      destruct (body (s, e, k)); [done|]. apply Hl.
    + intros s' e' k'. rewrite elem_of_cons, Hmem. split.
      * intros [[= -> -> ->]|(x'&y'&[? ?]&?)]; [by exists x, y|].
        exists x', y'. split; [split; lia|done].
      * intros (x'&y'&HL'&HM'). destruct (Hall _ _ _ _ _ HM' HL') as [[-> ->]|?]; [left|right; by eauto].
        destruct HM as (m1&?&E1&?&?&?&?&->&->&->), HM' as (m2&?&E2&?&?&?&?&->&->&->).
        rewrite E1 in E2. by simplify_eq.
    + simpl. split; [|done]. intros s' e' k' (x'&y'&HL'&HM')%Hmem. eauto.
Qed.
End ForEachFree.

(** * Free memory *)

(** The address lies in a memory region the request may use. *)
Definition eligible_at (nid flags : Z) (mem : memblock_type) (addr : Z) : Prop :=
  exists r, r ∈ regions mem /\ skip_region nid flags r = false
            /\ r_base r <= addr < r_base r + r_size r.
Definition free_at (nid flags : Z) (mem rsv : memblock_type) (addr : Z) : Prop :=
  eligible_at nid flags mem addr /\ attr_at (regions rsv) addr = None.

(** [c, c + size) lies inside one eligible memory region and no byte of it is
    reserved. *)
Definition free_block (nid flags : Z) (mem rsv : memblock_type) (c size : Z) : Prop :=
  (exists r, r ∈ regions mem /\ skip_region nid flags r = false
             /\ r_base r <= c /\ c + size <= r_base r + r_size r)
  /\ forall addr, c <= addr < c + size -> attr_at (regions rsv) addr = None.

Definition covered (l : list (Z * Z * Z)) (addr : Z) : Prop :=
  exists s e k, (s, e, k) ∈ l /\ s <= addr < e.

Section Free.
Context (nid flags : Z) (mem rsv : memblock_type).
Hypothesis Hm : wf_regions (regions mem).
Hypothesis Hr : wf_regions (regions rsv).

Lemma meets_free x y s e k addr :
  meets nid flags mem rsv x y s e k -> s <= addr < e -> free_at nid flags mem rsv addr.
Proof using Hr.
  intros (m&?&Em&?&?&?&?&->&->&->) ?. split.
  - exists m. split_and!; [by eapply list_elem_of_lookup_2|done|lia|lia].
  - eapply gap_free; [by apply wf_ordered|done|lia].
Qed.

Lemma meets_bounds x y s e k :
  meets nid flags mem rsv x y s e k ->
  exists m, m ∈ regions mem /\ skip_region nid flags m = false
            /\ 0 <= r_base m <= s /\ s <= e /\ e <= r_base m + r_size m <= ULLONG_MAX.
Proof using Hm Hr.
  intros (m&?&Em&?&?&?&?&->&->&->). exists m.
  pose proof (gap_le rsv (wf_ordered _ Hr) y ltac:(lia)).
  destruct (ordered_region _ _ _ _ (wf_ordered _ Hm) Em) as (?&?&?).
  split_and!; [by eapply list_elem_of_lookup_2|done|lia..].
Qed.

(** A free block lies inside a single range of the walk. *)
Lemma free_block_meets c size :
  0 <= c -> 0 < size -> free_block nid flags mem rsv c size ->
  exists x y s e k, meets nid flags mem rsv x y s e k /\ s <= c /\ c + size <= e.
Proof using Hm Hr.
  intros Hc Hsz [(m&Hin&Hsk&Hlo&Hhi) Hfree].
  apply list_elem_of_lookup in Hin as [i Em].
  destruct (ordered_region _ _ _ _ (wf_ordered _ Hm) Em) as (?&?&?).
  destruct (free_gap rsv (wf_ordered _ Hr) c) as (y&Hy&Hg); [lia|apply Hfree; lia|].
  pose proof (lookup_lt_Some _ _ _ Em).
  assert (c + size <= gap_end rsv y) as Hge.
  { destruct (decide (y < cnt rsv)) as [Hlt|]; [|rewrite gap_end_last by lia; lia].
    destruct (region_at rsv y ltac:(lia)) as [r Er].
    rewrite (gap_end_lt _ _ r) in * by done.
    destruct (decide (c + size <= r_base r)); [done|exfalso].
    destruct Hr as [[dn Ed]|[_ Hs]].
    - rewrite Ed in Er. destruct (Z.to_nat y); simplify_eq/=; lia.
    - destruct (sorted_region _ _ _ _ Hs Er) as (?&?&?).
      pose proof (attr_at_lookup _ _ _ _ (r_base r) Hs Er ltac:(lia)).
      rewrite Hfree in * by lia. done. }
  exists (Z.of_nat i), y. do 3 eexists. split; [|split].
  - exists m. rewrite Nat2Z.id. unfold cnt in *. split_and!; try done; lia.
  - lia.
  - lia.
Qed.

Lemma free_at_meets addr :
  0 <= addr -> free_at nid flags mem rsv addr ->
  exists x y s e k, meets nid flags mem rsv x y s e k /\ s <= addr < e.
Proof using Hm Hr.
  intros Ha [(r&?&?&?) Hn].
  destruct (free_block_meets addr 1) as (x&y&s&e&k&?&?&?); [lia|lia| |].
  - split; [exists r; split_and!; try done; lia|]. intros a' ?. by replace a' with addr by lia.
  - exists x, y, s, e, k. split; [done|lia].
Qed.
End Free.

(** [for_each_free_mem_range] visits, in increasing order, ranges that cover
    exactly the free addresses, and terminates; every free block lies in one. *)
Definition free_ranges (nid flags : Z) (mem rsv : memblock_type) (l : list (Z * Z * Z)) : Prop :=
  (forall addr, 0 <= addr -> covered l addr <-> free_at (node_arg nid) flags mem rsv addr)
  /\ (forall s e k, (s, e, k) ∈ l -> 0 <= s <= e /\
        exists m, m ∈ regions mem /\ skip_region (node_arg nid) flags m = false
                  /\ r_base m <= s /\ e <= r_base m + r_size m <= ULLONG_MAX)
  /\ (forall c size, 0 <= c -> 0 < size -> free_block (node_arg nid) flags mem rsv c size ->
        exists s e k, (s, e, k) ∈ l /\ s <= c /\ c + size <= e).

Lemma free_ranges_intro nid flags mem rsv l :
  wf_regions (regions mem) -> wf_regions (regions rsv) ->
  (forall s e k, (s, e, k) ∈ l <-> exists x y, meets (node_arg nid) flags mem rsv x y s e k) ->
  free_ranges nid flags mem rsv l.
Proof.
  intros Hm Hr Hl. split_and!.
  - intros addr Ha. split.
    + intros (s&e&k&(x&y&HM)%Hl&?). by eapply meets_free.
    + intros (x&y&s&e&k&HM&?)%free_at_meets; try done. exists s, e, k. split; [|done]. apply Hl. eauto.
  - intros s e k (x&y&HM)%Hl. apply meets_bounds in HM as (m&?&?&?&?&?); [|done..].
    split; [lia|]. exists m. split_and!; try done; lia.
  - intros c size Hc Hsz (x&y&s&e&k&HM&?&?)%free_block_meets; try done.
    exists s, e, k. split; [|done]. apply Hl. eauto.
Qed.

Lemma wf_regions_nonempty rs : wf_regions rs -> (0 < length rs)%nat.
Proof. intros [[nid ->]|[H _]]; simpl; [lia|]. destruct rs; simpl; [done|lia]. Qed.

Lemma for_each_free_spec nid flags mem rsv :
  wf_regions (regions mem) -> wf_regions (regions rsv) ->
  cnt mem < 2147483647 -> cnt rsv < 2147483647 ->
  exists l,
    (forall A (body : Z * Z * Z -> option A),
        for_each_free_mem_range mem rsv nid flags body = Ret (first_some body l))
    /\ increasing l /\ free_ranges nid flags mem rsv l.
Proof.
  intros Hm Hr Hcm Hcr. pose proof (wf_regions_nonempty _ Hm).
  destruct (for_each_forward nid flags mem rsv (wf_ordered _ Hm) (wf_ordered _ Hr) Hcm Hcr
              (walk_fuel mem rsv) 0 0) as (l&Hl&Hmem&Hinc);
    [unfold cnt; lia|unfold cnt; lia|unfold walk_fuel, cnt; lia|].
  exists l. split_and!; [done|done|]. apply free_ranges_intro; [done..|].
  intros s e k. rewrite Hmem. split; [intros (x&y&_&?); by eauto|].
  intros (x&y&HM). exists x, y. split; [|done]. destruct HM as (m&?&_&_&?&_). split; lia.
Qed.

Lemma for_each_free_reverse_spec nid flags mem rsv :
  wf_regions (regions mem) -> wf_regions (regions rsv) ->
  cnt mem < 2147483647 -> cnt rsv < 2147483647 ->
  exists l,
    (forall A (body : Z * Z * Z -> option A),
        for_each_free_mem_range_reverse mem rsv nid flags body = Ret (first_some body l))
    /\ decreasing l /\ free_ranges nid flags mem rsv l.
Proof.
  intros Hm Hr Hcm Hcr. pose proof (wf_regions_nonempty _ Hm).
  destruct (for_each_backward nid flags mem rsv (wf_ordered _ Hm) (wf_ordered _ Hr) Hcm Hcr
              (walk_fuel mem rsv) (cnt mem - 1) (cnt rsv)) with (idx := ULLONG_MAX)
    as (l&Hl&Hmem&Hinc);
    [unfold cnt; lia|unfold cnt; lia|unfold walk_fuel, cnt; lia|by right|unfold cnt; lia|].
  exists l. split_and!; [done|done|]. apply free_ranges_intro; [done..|].
  intros s e k. rewrite Hmem. split; [intros (x&y&_&?); by eauto|].
  intros (x&y&HM). exists x, y. split; [|done]. destruct HM as (m&?&_&_&?&_). split; lia.
Qed.

(** * The area finders *)

Lemma first_some_split {A} (body : Z * Z * Z -> option A) l c :
  first_some body l = Some c ->
  exists l1 x l2, l = l1 ++ x :: l2 /\ body x = Some c /\ forall y, y ∈ l1 -> body y = None.
Proof.
  induction l as [|x l IH]; simpl; [done|]. destruct (body x) eqn:E.
  - intros [= ->]. exists [], x, l. split_and!; [done|done|]. intros y Hy. by apply elem_of_nil in Hy.
  - intros (l1&z&l2&->&?&Hno)%IH. exists (x :: l1), z, l2. split_and!; [done|done|].
    intros y [->|?]%elem_of_cons; auto.
Qed.
Lemma first_some_None {A} (body : Z * Z * Z -> option A) l x :
  first_some body l = None -> x ∈ l -> body x = None.
Proof.
  induction l as [|y l IH]; simpl; intros E Hin; [by apply elem_of_nil in Hin|].
  destruct (body y) eqn:Ey; [done|]. apply elem_of_cons in Hin as [->|]; auto.
Qed.

Lemma increasing_app l1 x l2 s e k s' e' k' :
  increasing (l1 ++ x :: l2) -> x = (s, e, k) -> (s', e', k') ∈ l2 -> e <= s'.
Proof.
  intros H -> Hin. induction l1 as [|[[? ?] ?] l1 IH]; simpl in H; destruct H; eauto.
Qed.
Lemma decreasing_app l1 x l2 s e k s' e' k' :
  decreasing (l1 ++ x :: l2) -> x = (s, e, k) -> (s', e', k') ∈ l2 -> e' <= s.
Proof.
  intros H -> Hin. induction l1 as [|[[? ?] ?] l1 IH]; simpl in H; destruct H; eauto.
Qed.

(** [c] is a multiple of [align] and [c, c + size) lies in both ranges. *)
Definition fits (s e start endp size align c : Z) : Prop :=
  c mod align = 0 /\ s <= c /\ start <= c /\ c + size <= e /\ c + size <= endp.

Section Bodies.
Context (start endp size k : Z).
Hypothesis Hk : 0 <= k < 64.
Hypothesis Hse : 0 <= start <= endp.
Hypothesis Hend : endp <= ULLONG_MAX.
Hypothesis Hsize : 0 < size <= ULLONG_MAX.

Lemma bottom_up_body_spec s e nd :
  0 <= s <= e -> e <= ULLONG_MAX -> s + 2 ^ k <= two64 -> start + 2 ^ k <= two64 ->
  match bottom_up_body start endp size (2 ^ k) (s, e, nd) with
  | Some c => fits s e start endp size (2 ^ k) c
              /\ forall c', fits s e start endp size (2 ^ k) c' -> c <= c'
  | None => forall c', ~ fits s e start endp size (2 ^ k) c'
  end.
Proof using Hk Hse Hend Hsize.
  intros Hs He Hw Hw'. unfold bottom_up_body, fits.
  assert (Hp : 0 < 2 ^ k) by (apply Z.pow_pos_nonneg; lia).
  set (ts := clamp s start endp). set (te := clamp e start endp).
  assert (Hts : 0 <= ts <= Z.max s start /\ ts <= endp) by (unfold ts, clamp; lia).
  rewrite round_up_pow2 by lia. set (q := (ts + 2 ^ k - 1) / 2 ^ k).
  assert (Hq : ts <= q * 2 ^ k < ts + 2 ^ k).
  { pose proof (Z.div_mod (ts + 2 ^ k - 1) (2 ^ k) ltac:(lia)).
    pose proof (Z.mod_pos_bound (ts + 2 ^ k - 1) (2 ^ k) Hp). unfold q. lia. }
  assert (Hle : forall c', c' mod 2 ^ k = 0 -> ts <= c' -> q * 2 ^ k <= c').
  { intros c' Hc' Hge. apply Z.mod_divide in Hc' as [z ->]; [|lia].
    apply Z.mul_le_mono_nonneg_r; [lia|]. assert (q - 1 < z); [|lia].
    apply (Z.mul_lt_mono_pos_r (2 ^ k)); lia. }
  destruct (Z.ltb_spec (q * 2 ^ k) te) as [Hlt|Hge]; cbn [andb].
  2: { intros c' (?&?&?&?&?). specialize (Hle c' ltac:(done)). unfold ts, te, clamp in *. lia. }
  assert (te <= endp) by (unfold te, clamp; lia). nowrap.
  destruct (Z.leb_spec size (te - q * 2 ^ k)) as [Hfit|Hno].
  - rewrite Z.mod_mul by lia. split; [split_and!; try done; unfold ts, te, clamp in *; lia|].
    intros c' (?&?&?&?&?). apply Hle; [done|]. unfold ts, clamp. lia.
  - intros c' (?&?&?&?&?). specialize (Hle c' ltac:(done)). unfold ts, te, clamp in *. lia.
Qed.

Lemma top_down_body_spec s e nd :
  0 <= s <= e -> e <= ULLONG_MAX ->
  match top_down_body start endp size (2 ^ k) (s, e, nd) with
  | Some c => fits s e start endp size (2 ^ k) c
              /\ forall c', fits s e start endp size (2 ^ k) c' -> c' <= c
  | None => forall c', ~ fits s e start endp size (2 ^ k) c'
  end.
Proof using Hk Hse Hend Hsize.
  intros Hs He. unfold top_down_body, fits.
  assert (Hp : 0 < 2 ^ k) by (apply Z.pow_pos_nonneg; lia).
  set (ts := clamp s start endp). set (te := clamp e start endp).
  destruct (Z.ltb_spec te size) as [Hlt|Hge].
  { intros c' (?&?&?&?&?). unfold te, clamp in *. lia. }
  assert (0 <= te <= endp) by (unfold te, clamp; lia).
  nowrap. rewrite round_down_pow2 by (unfold two64, ULLONG_MAX in *; lia).
  pose proof (Z.div_mod (te - size) (2 ^ k) ltac:(lia)) as Hdm.
  pose proof (Z.mod_pos_bound (te - size) (2 ^ k) Hp) as Hmb.
  set (c := te - size - (te - size) mod 2 ^ k) in *.
  assert (Hc : c = (te - size) / 2 ^ k * 2 ^ k) by lia.
  assert (Hle : forall c', c' mod 2 ^ k = 0 -> c' <= te - size -> c' <= c).
  { intros c' Hc' Hge'. apply Z.mod_divide in Hc' as [z ->]; [|lia].
    rewrite Hc. apply Z.mul_le_mono_nonneg_r; [lia|]. apply Z.div_le_lower_bound; lia. }
  destruct (Z.leb_spec ts c) as [Hok|Hno].
  - split.
    + split_and!; [by rewrite Hc, Z.mod_mul by lia|unfold ts, te, clamp in *; lia..].
    + intros c' (?&?&?&?&?). apply Hle; [done|]. unfold te, clamp in *. lia.
  - intros c' (?&?&?&?&?). specialize (Hle c' ltac:(done)). unfold ts, te, clamp in *. lia.
Qed.
End Bodies.

(** An address an allocation request can be given. *)
Definition usable (nid flags : Z) (mem rsv : memblock_type) (start endp size align c : Z) : Prop :=
  c mod align = 0 /\ start <= c /\ c + size <= endp
  /\ free_block (node_arg nid) flags mem rsv c size.

Section Find.
Context (nid flags : Z) (mem rsv : memblock_type) (start endp size k : Z).
Hypothesis Hm : wf_regions (regions mem).
Hypothesis Hr : wf_regions (regions rsv).
Hypothesis Hcm : cnt mem < 2147483647.
Hypothesis Hcr : cnt rsv < 2147483647.
Hypothesis Hk : 0 <= k < 64.
Hypothesis Hse : 0 < start <= endp.
Hypothesis Hend : endp <= ULLONG_MAX.
Hypothesis Hsize : 0 < size <= ULLONG_MAX.

Lemma fits_usable l s e nd c :
  free_ranges nid flags mem rsv l -> (s, e, nd) ∈ l ->
  fits s e start endp size (2 ^ k) c -> usable nid flags mem rsv start endp size (2 ^ k) c.
Proof using Hse Hsize Hk.
  intros (Hcov&Hsub&_) Hin (?&?&?&?&?). destruct (Hsub _ _ _ Hin) as (?&m&?&?&?&?).
  split_and!; try done. split.
  - exists m. split_and!; try done; lia.
  - intros addr ?. apply (Hcov addr); [lia|]. exists s, e, nd. split; [done|lia].
Qed.

Lemma usable_fits l c :
  free_ranges nid flags mem rsv l -> usable nid flags mem rsv start endp size (2 ^ k) c ->
  exists s e nd, (s, e, nd) ∈ l /\ fits s e start endp size (2 ^ k) c.
Proof using Hse Hsize Hk.
  intros (_&_&Hblk) (?&?&?&Hfree). destruct (Hblk c size) as (s&e&nd&?&?&?); [lia|lia|done|].
  exists s, e, nd. split; [done|]. split_and!; done.
Qed.

(** The top-down finder returns the highest usable address, or 0 when there
    is none. *)
Lemma find_top_down_spec :
  exists c, __memblock_find_range_top_down mem rsv start endp size (2 ^ k) nid flags = Ret c
    /\ ((c = 0 /\ forall c', ~ usable nid flags mem rsv start endp size (2 ^ k) c')
        \/ (0 < c /\ usable nid flags mem rsv start endp size (2 ^ k) c
            /\ forall c', usable nid flags mem rsv start endp size (2 ^ k) c' -> c' <= c)).
Proof using All.
  destruct (for_each_free_reverse_spec nid flags mem rsv) as (l&Hl&Hdec&Hfr); [done..|].
  unfold __memblock_find_range_top_down. rewrite Hl.
  assert (Hbody : forall s e nd, (s, e, nd) ∈ l -> 0 <= s <= e /\ e <= ULLONG_MAX).
  { intros s e nd Hin. destruct Hfr as (_&Hsub&_). destruct (Hsub _ _ _ Hin) as (?&m&?&?&?&?). lia. }
  destruct (first_some _ l) as [c|] eqn:E; simpl.
  - exists c. split; [done|right].
    apply first_some_split in E as (l1&[[s e] nd]&l2&->&Hx&Hno).
    destruct (Hbody s e nd) as [? ?]; [set_solver|].
    pose proof (top_down_body_spec start endp size k Hk ltac:(lia) Hend Hsize s e nd ltac:(done) ltac:(done)) as HB.
    rewrite Hx in HB. destruct HB as [Hf Hmax].
    split_and!; [destruct Hf; lia|by apply (fits_usable _ s e nd c Hfr); [set_solver|]|].
    intros c' (s'&e'&nd'&Hin&Hf')%(usable_fits _ _ Hfr).
    apply elem_of_app in Hin as [Hin|[Heq|Hin]%elem_of_cons].
    + destruct (Hbody s' e' nd') as [? ?]; [set_solver|].
      pose proof (top_down_body_spec start endp size k Hk ltac:(lia) Hend Hsize s' e' nd' ltac:(done) ltac:(done)) as HB.
      rewrite (Hno _ Hin) in HB. by destruct (HB c').
    + simplify_eq. by apply Hmax.
    + pose proof (decreasing_app _ _ _ _ _ _ _ _ _ Hdec eq_refl Hin).
      destruct Hf as (?&?&?&?&?), Hf' as (?&?&?&?&?). lia.
  - exists 0. split; [done|left]. split; [done|].
    intros c' (s&e&nd&Hin&Hf)%(usable_fits _ _ Hfr). destruct (Hbody _ _ _ Hin).
    pose proof (top_down_body_spec start endp size k Hk ltac:(lia) Hend Hsize s e nd ltac:(done) ltac:(done)) as HB.
    rewrite (first_some_None _ _ _ E Hin) in HB. by destruct (HB c').
Qed.

(** The bottom-up finder returns the lowest usable address, or 0.  The top of
    memory leaves room for rounding up without overflow. *)
Lemma find_bottom_up_spec :
  start + 2 ^ k <= two64 ->
  (forall r, r ∈ regions mem -> r_base r + r_size r + 2 ^ k <= two64) ->
  exists c, __memblock_find_range_bottom_up mem rsv start endp size (2 ^ k) nid flags = Ret c
    /\ ((c = 0 /\ forall c', ~ usable nid flags mem rsv start endp size (2 ^ k) c')
        \/ (0 < c /\ usable nid flags mem rsv start endp size (2 ^ k) c
            /\ forall c', usable nid flags mem rsv start endp size (2 ^ k) c' -> c <= c')).
Proof using All.
  intros Hw Hroom.
  destruct (for_each_free_spec nid flags mem rsv) as (l&Hl&Hinc&Hfr); [done..|].
  unfold __memblock_find_range_bottom_up. rewrite Hl.
  assert (Hbody : forall s e nd, (s, e, nd) ∈ l -> 0 <= s <= e /\ e <= ULLONG_MAX /\ s + 2 ^ k <= two64).
  { intros s e nd Hin. destruct Hfr as (_&Hsub&_). destruct (Hsub _ _ _ Hin) as (?&m&Hin'&?&?&?).
    pose proof (Hroom _ Hin'). lia. }
  destruct (first_some _ l) as [c|] eqn:E; simpl.
  - exists c. split; [done|right].
    apply first_some_split in E as (l1&[[s e] nd]&l2&->&Hx&Hno).
    destruct (Hbody s e nd) as (?&?&?); [set_solver|].
    pose proof (bottom_up_body_spec start endp size k Hk ltac:(lia) Hend Hsize s e nd ltac:(done) ltac:(done) ltac:(done) Hw) as HB.
    rewrite Hx in HB. destruct HB as [Hf Hmax].
    split_and!; [destruct Hf; lia|by apply (fits_usable _ s e nd c Hfr); [set_solver|]|].
    intros c' (s'&e'&nd'&Hin&Hf')%(usable_fits _ _ Hfr).
    apply elem_of_app in Hin as [Hin|[Heq|Hin]%elem_of_cons].
    + destruct (Hbody s' e' nd') as (?&?&?); [set_solver|].
      pose proof (bottom_up_body_spec start endp size k Hk ltac:(lia) Hend Hsize s' e' nd' ltac:(done) ltac:(done) ltac:(done) Hw) as HB.
      rewrite (Hno _ Hin) in HB. by destruct (HB c').
    + simplify_eq. by apply Hmax.
    + pose proof (increasing_app _ _ _ _ _ _ _ _ _ Hinc eq_refl Hin).
      destruct Hf as (?&?&?&?&?), Hf' as (?&?&?&?&?). lia.
  - exists 0. split; [done|left]. split; [done|].
    intros c' (s&e&nd&Hin&Hf)%(usable_fits _ _ Hfr). destruct (Hbody _ _ _ Hin) as (?&?&?).
    pose proof (bottom_up_body_spec start endp size k Hk ltac:(lia) Hend Hsize s e nd ltac:(done) ltac:(done) ltac:(done) Hw) as HB.
    rewrite (first_some_None _ _ _ E Hin) in HB. by destruct (HB c').
Qed.
End Find.
