(* ===== verification/Memblock.v ===== *)
(** The boot-time memory allocator of mm/memblock.c on its whole state: the two
    region tables, their growth, and the public entry points that add, remove,
    reserve, free, find and allocate memory.

    The tables are those of [MemblockTable]; [memblock_double_array] grows one of
    them by allocating from the allocator itself, so it is mutually recursive
    with [memblock_reserve] and [memblock_free].  The model ties the knot with
    fuel: [memblock_double_array n] may nest at most [n] growths.  The clients
    are written over an arbitrary growth function and proved against the
    interface [TableGrower], which the fuelled definition implements. *)

From S2P Require Import Prelude MemblockTable MemblockIter.

(** What the file takes from the rest of the kernel. *)
Class BootEnv := {
  kernel_end : Z;            (* __pa_symbol(_end) *)
  slab_is_available : bool;
  kmalloc_pa : Z -> Z;       (* physical address kmalloc(size) gives, 0 for NULL *)
}.

Definition PAGE_SIZE : Z := 4096.
Definition SMP_CACHE_BYTES : Z := 64.
Definition MEMBLOCK_ALLOC_ACCESSIBLE : Z := 0.
Definition MEMBLOCK_ALLOC_ANYWHERE : Z := ULLONG_MAX.
(** sizeof(struct memblock_region): three 64-bit words, an int, padding. *)
Definition sizeof_region : Z := 32.

Definition PAGE_ALIGN (x : Z) : Z := Z.land (w64 (x + (PAGE_SIZE - 1))) (w64 (Z.lnot (PAGE_SIZE - 1))).

(** The pointer [&memblock.memory] or [&memblock.reserved]. *)
Inductive type_id := memory_id | reserved_id.

Record memblock := mkMemblock {
  bottom_up : bool;
  current_limit : Z;
  memory : memblock_type;
  reserved : memblock_type;
  (* the file's static variables *)
  memblock_can_resize : bool;
  system_has_some_mirror : bool;
  memblock_memory_in_slab : bool;
  memblock_reserved_in_slab : bool;
}.

Definition memblock_init : memblock :=
  mkMemblock false MEMBLOCK_ALLOC_ANYWHERE memblock_type_init memblock_type_init
    false false false false.

Definition get_type (st : memblock) (ty : type_id) : memblock_type :=
  match ty with memory_id => memory st | reserved_id => reserved st end.
Definition set_type (st : memblock) (ty : type_id) (t : memblock_type) : memblock :=
  match ty with
  | memory_id =>
      mkMemblock (bottom_up st) (current_limit st) t (reserved st) (memblock_can_resize st)
        (system_has_some_mirror st) (memblock_memory_in_slab st) (memblock_reserved_in_slab st)
  | reserved_id =>
      mkMemblock (bottom_up st) (current_limit st) (memory st) t (memblock_can_resize st)
        (system_has_some_mirror st) (memblock_memory_in_slab st) (memblock_reserved_in_slab st)
  end.
Definition in_slab (st : memblock) (ty : type_id) : bool :=
  match ty with
  | memory_id => memblock_memory_in_slab st
  | reserved_id => memblock_reserved_in_slab st
  end.
Definition set_in_slab (st : memblock) (ty : type_id) (v : bool) : memblock :=
  match ty with
  | memory_id =>
      mkMemblock (bottom_up st) (current_limit st) (memory st) (reserved st) (memblock_can_resize st)
        (system_has_some_mirror st) v (memblock_reserved_in_slab st)
  | reserved_id =>
      mkMemblock (bottom_up st) (current_limit st) (memory st) (reserved st) (memblock_can_resize st)
        (system_has_some_mirror st) (memblock_memory_in_slab st) v
  end.

Definition choose_memblock_flags (st : memblock) : Z :=
  if system_has_some_mirror st then MEMBLOCK_MIRROR else MEMBLOCK_NONE.
Definition clear_mirror (flags : Z) : Z := Z.land flags (w64 (Z.lnot MEMBLOCK_MIRROR)).
Definition wants_mirror (flags : Z) : bool := negb (Z.land flags MEMBLOCK_MIRROR =? 0).

(** * Finding *)

Section Finding.
Context `{BootEnv}.

Definition memblock_find_in_range_node (st : memblock) (size align start endp nid flags : Z)
    : res Z :=
  let endp := if endp =? MEMBLOCK_ALLOC_ACCESSIBLE then current_limit st else endp in
  let start := Z.max start PAGE_SIZE in
  let endp := Z.max start endp in
  let top_down :=
    __memblock_find_range_top_down (memory st) (reserved st) start endp size align nid flags in
  if bottom_up st && (kernel_end <? endp) then
    let* ret := __memblock_find_range_bottom_up (memory st) (reserved st)
                  (Z.max start kernel_end) endp size align nid flags in
    if negb (ret =? 0) then Ret ret else top_down
  else top_down.

(** The [goto again] clears MEMBLOCK_MIRROR, so it is taken once at most. *)
Definition memblock_find_in_range (st : memblock) (start endp size align : Z) : res Z :=
  let flags := choose_memblock_flags st in
  let* ret := memblock_find_in_range_node st size align start endp NUMA_NO_NODE flags in
  if (ret =? 0) && wants_mirror flags then
    memblock_find_in_range_node st size align start endp NUMA_NO_NODE (clear_mirror flags)
  else Ret ret.
End Finding.

(** * Updating, over a growth function *)

Definition grower : Type := type_id -> Z -> Z -> memblock -> res (Z * memblock).

Section Updating.
Context (double_array : grower).

(** while (type->cnt + extra > type->max) if (memblock_double_array(...) < 0)
    return -ENOMEM;  Counts of 32-byte array slots do not wrap. *)
Fixpoint resize_loop (fuel : nat) (ty : type_id) (extra base size : Z) (st : memblock)
    : res (Z * memblock) :=
  match fuel with
  | O => OutOfFuel
  | S fuel' =>
      let t := get_type st ty in
      if max t <? cnt t + extra then
        let* (ret, st') := double_array ty base size st in
        if ret <? 0 then Ret (- ENOMEM, st')
        else resize_loop fuel' ty extra base size st'
      else Ret (0, st)
  end.
(** Each growth doubles [max], an unsigned long: 64 turns are enough. *)
Definition RESIZE_FUEL : nat := 64.

Definition memblock_add_range_with (ty : type_id) (base size nid flags : Z) (st : memblock)
    : res (Z * memblock) :=
  let size := memblock_cap_size base size in
  let endp := w64 (base + size) in
  let t := get_type st ty in
  if size =? 0 then Ret (0, st)
  else
    match regions t with
    | [] => BUG
    | r0 :: _ =>
        if r_size r0 =? 0 then
          let t' := mkType (<[0%nat := mkRegion base size flags nid]> (regions t))
                      (max t) size (regions_pa t) in
          Ret (0, set_type st ty t')
        else
          let* (_, nr_new) := add_range_pass false t base endp nid flags in
          if nr_new =? 0 then Ret (0, st)
          else
            let* (ret, st1) := resize_loop RESIZE_FUEL ty nr_new base size st in
            if ret <? 0 then Ret (ret, st1)
            else
              let* (t2, nr_new2) := add_range_pass true (get_type st1 ty) base endp nid flags in
              if nr_new2 =? 0 then Ret (0, set_type st1 ty t2)
              else
                let* t3 := memblock_merge_regions t2 in
                Ret (0, set_type st1 ty t3)
    end.

(** Returns the error code, the state, *start_rgn and *end_rgn. *)
Definition memblock_isolate_range_with (ty : type_id) (base size : Z) (st : memblock)
    : res (Z * memblock * nat * nat) :=
  let size := memblock_cap_size base size in
  let endp := w64 (base + size) in
  if size =? 0 then Ret (0, st, 0%nat, 0%nat)
  else
    let* (ret, st1) := resize_loop RESIZE_FUEL ty 2 base size st in
    if ret <? 0 then Ret (ret, st1, 0%nat, 0%nat)
    else
      let t := get_type st1 ty in
      (* two splits at most, and one region is looked at twice *)
      let* (t', start_rgn, end_rgn) :=
        isolate_loop (length (regions t) + 5) t 0 base endp 0 0 in
      Ret (0, set_type st1 ty t', start_rgn, end_rgn).

Definition memblock_remove_range_with (ty : type_id) (base size : Z) (st : memblock)
    : res (Z * memblock) :=
  let* (ret, st1, start_rgn, end_rgn) := memblock_isolate_range_with ty base size st in
  if negb (ret =? 0) then Ret (ret, st1)
  else
    Ret (0, set_type st1 ty
              (remove_regions_down (end_rgn - start_rgn) start_rgn (get_type st1 ty))).

Definition memblock_reserve_with (base size : Z) (st : memblock) : res (Z * memblock) :=
  memblock_add_range_with reserved_id base size MAX_NUMNODES 0 st.
Definition memblock_free_with (base size : Z) (st : memblock) : res (Z * memblock) :=
  memblock_remove_range_with reserved_id base size st.
End Updating.

(** * Growing a table *)

Section Growing.
Context `{BootEnv}.

(** Where the new array goes: [addr] of [memblock_double_array], 0 if nowhere. *)
Definition double_array_addr (ty : type_id) (new_area_start new_area_size new_size new_alloc_size : Z)
    (st : memblock) : res Z :=
  if slab_is_available then Ret (kmalloc_pa new_size)
  else
    let '(nas, nasz) :=
      match ty with
      | reserved_id => (new_area_start, new_area_size)
      | memory_id => (0, 0)
      end in
    let* addr := memblock_find_in_range st (w64 (nas + nasz)) (current_limit st)
                   new_alloc_size PAGE_SIZE in
    if (addr =? 0) && negb (nasz =? 0) then
      memblock_find_in_range st 0 (Z.min nas (current_limit st)) new_alloc_size PAGE_SIZE
    else Ret addr.

Definition double_array_body (double_array : grower) (ty : type_id)
    (new_area_start new_area_size : Z) (st : memblock) : res (Z * memblock) :=
  if negb (memblock_can_resize st) then Ret (-1, st)
  else
    let t := get_type st ty in
    let old_size := w64 (max t * sizeof_region) in
    let new_size := w64 (Z.shiftl old_size 1) in
    let old_alloc_size := PAGE_ALIGN old_size in
    let new_alloc_size := PAGE_ALIGN new_size in
    let* addr := double_array_addr ty new_area_start new_area_size new_size new_alloc_size st in
    if addr =? 0 then Ret (-1, st)
    else
      let st1 := set_type st ty
                   (mkType (regions t) (w64 (Z.shiftl (max t) 1)) (total_size t) (Some addr)) in
      (* free the old array, unless it is the static one *)
      let* st2 :=
        if in_slab st ty then Ret st1
        else match regions_pa t with
             | None => Ret st1
             | Some old => res_map snd (memblock_free_with double_array old old_alloc_size st1)
             end in
      let* st3 :=
        if slab_is_available then Ret st2
        else
          let* (ret, st') := memblock_reserve_with double_array addr new_alloc_size st2 in
          if negb (ret =? 0) then BUG else Ret st' in
      Ret (0, set_in_slab st3 ty slab_is_available).

Fixpoint memblock_double_array (depth : nat) : grower :=
  match depth with
  | O => fun _ _ _ _ => OutOfFuel
  | S d => double_array_body (memblock_double_array d)
  end.
(** Growing [memory] may need [reserved] to grow to record the new array;
    growing [reserved] makes the room it needs itself. *)
Definition GROW_DEPTH : nat := 3.

Definition memblock_add_range := memblock_add_range_with (memblock_double_array GROW_DEPTH).
Definition memblock_isolate_range := memblock_isolate_range_with (memblock_double_array GROW_DEPTH).
Definition memblock_remove_range := memblock_remove_range_with (memblock_double_array GROW_DEPTH).
End Growing.

(** * Entry points *)

(** for (i = start_rgn; i < end_rgn; i++) ... on each region of the range. *)
Definition map_range (f : memblock_region -> memblock_region) (s e : nat)
    (rs : list memblock_region) : list memblock_region :=
  take s rs ++ (f <$> take (e - s) (drop s rs)) ++ drop (Nat.max s e) rs.

(** for (i = hi - 1; i >= lo; i--) if (!nomap) memblock_remove_region(type, i) *)
Fixpoint remove_mapped_down (n lo : nat) (t : memblock_type) : memblock_type :=
  match n with
  | O => t
  | S n' =>
      let t' := match regions t !! (lo + n')%nat with
                | Some r => if memblock_is_nomap r then t else memblock_remove_region t (lo + n')
                | None => t
                end in
      remove_mapped_down n' lo t'
  end.

Definition PFN_UP (x : Z) : Z := Z.shiftr (w64 (x + PAGE_SIZE - 1)) 12.
Definition PFN_DOWN (x : Z) : Z := Z.shiftr x 12.
Definition PFN_PHYS (x : Z) : Z := w64 (Z.shiftl x 12).

Section Entry.
Context `{BootEnv}.

Definition memblock_add_node (base size nid : Z) (st : memblock) : res (Z * memblock) :=
  memblock_add_range memory_id base size nid 0 st.
Definition memblock_add (base size : Z) (st : memblock) : res (Z * memblock) :=
  memblock_add_range memory_id base size MAX_NUMNODES 0 st.
Definition memblock_remove (base size : Z) (st : memblock) : res (Z * memblock) :=
  memblock_remove_range memory_id base size st.
Definition memblock_free (base size : Z) (st : memblock) : res (Z * memblock) :=
  memblock_remove_range reserved_id base size st.
Definition memblock_reserve (base size : Z) (st : memblock) : res (Z * memblock) :=
  memblock_add_range reserved_id base size MAX_NUMNODES 0 st.

(** The common shape of [memblock_setclr_flag] and [memblock_set_node]: cut the
    range out, rewrite its regions, merge. *)
Definition update_range (ty : type_id) (base size : Z) (f : memblock_region -> memblock_region)
    (st : memblock) : res (Z * memblock) :=
  let* (ret, st1, start_rgn, end_rgn) := memblock_isolate_range ty base size st in
  if negb (ret =? 0) then Ret (ret, st1)
  else
    let t := get_type st1 ty in
    let* t' := memblock_merge_regions
                 (with_regions t (map_range f start_rgn end_rgn (regions t))) in
    Ret (0, set_type st1 ty t').

Definition memblock_setclr_flag (base size : Z) (set : bool) (flag : Z) (st : memblock)
    : res (Z * memblock) :=
  update_range memory_id base size
    (fun r => if set then memblock_set_region_flags r flag else memblock_clear_region_flags r flag)
    st.
Definition memblock_mark_hotplug (base size : Z) (st : memblock) :=
  memblock_setclr_flag base size true MEMBLOCK_HOTPLUG st.
Definition memblock_clear_hotplug (base size : Z) (st : memblock) :=
  memblock_setclr_flag base size false MEMBLOCK_HOTPLUG st.
Definition memblock_mark_mirror (base size : Z) (st : memblock) :=
  memblock_setclr_flag base size true MEMBLOCK_MIRROR
    (mkMemblock (bottom_up st) (current_limit st) (memory st) (reserved st)
       (memblock_can_resize st) true (memblock_memory_in_slab st) (memblock_reserved_in_slab st)).
Definition memblock_mark_nomap (base size : Z) (st : memblock) :=
  memblock_setclr_flag base size true MEMBLOCK_NOMAP st.
Definition memblock_clear_nomap (base size : Z) (st : memblock) :=
  memblock_setclr_flag base size false MEMBLOCK_NOMAP st.
Definition memblock_set_node (base size : Z) (ty : type_id) (nid : Z) (st : memblock)
    : res (Z * memblock) :=
  update_range ty base size (fun r => memblock_set_region_node r nid) st.

(** ** Allocation: 0 stands for failure *)

Definition memblock_alloc_range_nid (size align start endp nid flags : Z) (st : memblock)
    : res (Z * memblock) :=
  let align := if align =? 0 then SMP_CACHE_BYTES else align in
  let* found := memblock_find_in_range_node st size align start endp nid flags in
  if found =? 0 then Ret (0, st)
  else
    let* (ret, st') := memblock_reserve found size st in
    Ret (if ret =? 0 then found else 0, st').
Definition memblock_alloc_range (size align start endp flags : Z) (st : memblock) :=
  memblock_alloc_range_nid size align start endp NUMA_NO_NODE flags st.
Definition memblock_alloc_base_nid (size align max_addr nid flags : Z) (st : memblock) :=
  memblock_alloc_range_nid size align 0 max_addr nid flags st.
Definition memblock_alloc_nid (size align nid : Z) (st : memblock) : res (Z * memblock) :=
  let flags := choose_memblock_flags st in
  let* (ret, st') := memblock_alloc_base_nid size align MEMBLOCK_ALLOC_ACCESSIBLE nid flags st in
  if (ret =? 0) && wants_mirror flags then
    memblock_alloc_base_nid size align MEMBLOCK_ALLOC_ACCESSIBLE nid (clear_mirror flags) st'
  else Ret (ret, st').
Definition __memblock_alloc_base (size align max_addr : Z) (st : memblock) :=
  memblock_alloc_base_nid size align max_addr NUMA_NO_NODE MEMBLOCK_NONE st.
Definition memblock_alloc_base (size align max_addr : Z) (st : memblock) : res (Z * memblock) :=
  let* (alloc, st') := __memblock_alloc_base size align max_addr st in
  if alloc =? 0 then BUG else Ret (alloc, st').
Definition memblock_alloc (size align : Z) (st : memblock) :=
  memblock_alloc_base size align MEMBLOCK_ALLOC_ACCESSIBLE st.
Definition memblock_alloc_try_nid (size align nid : Z) (st : memblock) : res (Z * memblock) :=
  let* (ret, st') := memblock_alloc_nid size align nid st in
  if negb (ret =? 0) then Ret (ret, st')
  else memblock_alloc_base size align MEMBLOCK_ALLOC_ACCESSIBLE st'.

(** find, then reserve: the test "alloc && !memblock_reserve(alloc, size)". *)
Definition find_and_reserve (size align min_addr max_addr nid flags : Z) (st : memblock)
    : res (Z * memblock) :=
  let* alloc := memblock_find_in_range_node st size align min_addr max_addr nid flags in
  if alloc =? 0 then Ret (0, st)
  else
    let* (ret, st') := memblock_reserve alloc size st in
    Ret (if ret =? 0 then alloc else 0, st').

(** The code after the label [again] of [memblock_virt_alloc_internal]; each
    [goto again] drops the lower limit or the mirror request for good, so three
    turns are enough. *)
Fixpoint virt_alloc_again (fuel : nat) (size align min_addr max_addr nid flags : Z)
    (st : memblock) : res (Z * memblock) :=
  match fuel with
  | O => OutOfFuel
  | S fuel' =>
      let* (alloc, st1) := find_and_reserve size align min_addr max_addr nid flags st in
      if negb (alloc =? 0) then Ret (alloc, st1)
      else
        let* (alloc2, st2) :=
          if negb (nid =? NUMA_NO_NODE)
          then find_and_reserve size align min_addr max_addr NUMA_NO_NODE flags st1
          else Ret (0, st1) in
        if negb (alloc2 =? 0) then Ret (alloc2, st2)
        else if negb (min_addr =? 0) then
          virt_alloc_again fuel' size align 0 max_addr nid flags st2
        else if wants_mirror flags then
          virt_alloc_again fuel' size align min_addr max_addr nid (clear_mirror flags) st2
        else Ret (0, st2)
  end.

(** The physical address of the block; the code returns it mapped by
    [phys_to_virt]. *)
Definition memblock_virt_alloc_internal (size align min_addr max_addr nid : Z) (st : memblock)
    : res (Z * memblock) :=
  let nid := node_arg nid in
  if slab_is_available then Ret (kmalloc_pa size, st)
  else
    let align := if align =? 0 then SMP_CACHE_BYTES else align in
    let max_addr := if current_limit st <? max_addr then current_limit st else max_addr in
    virt_alloc_again 3 size align min_addr max_addr nid (choose_memblock_flags st) st.

(** ** Limits *)

Fixpoint find_max_addr_loop (rs : list memblock_region) (limit : Z) : Z :=
  match rs with
  | [] => ULLONG_MAX
  | r :: rs' =>
      if limit <=? r_size r then w64 (r_base r + limit)
      else find_max_addr_loop rs' (w64 (limit - r_size r))
  end.
Definition __find_max_addr (limit : Z) (st : memblock) : Z :=
  find_max_addr_loop (regions (memory st)) limit.

(** The return values of the removals are ignored. *)
Definition memblock_enforce_memory_limit (limit : Z) (st : memblock) : res memblock :=
  if limit =? 0 then Ret st
  else
    let max_addr := __find_max_addr limit st in
    if max_addr =? ULLONG_MAX then Ret st
    else
      let* (_, st1) := memblock_remove_range memory_id max_addr ULLONG_MAX st in
      let* (_, st2) := memblock_remove_range reserved_id max_addr ULLONG_MAX st1 in
      Ret st2.

Definition memblock_cap_memory_range (base size : Z) (st : memblock) : res memblock :=
  if size =? 0 then Ret st
  else
    let* (ret, st1, start_rgn, end_rgn) := memblock_isolate_range memory_id base size st in
    if negb (ret =? 0) then Ret st1
    else
      let t := memory st1 in
      let t1 := remove_mapped_down (length (regions t) - end_rgn) end_rgn t in
      let t2 := remove_mapped_down start_rgn 0 t1 in
      let* (_, st2) := memblock_remove_range reserved_id 0 base (set_type st1 memory_id t2) in
      let* (_, st3) := memblock_remove_range reserved_id (w64 (base + size)) ULLONG_MAX st2 in
      Ret st3.

Definition memblock_mem_limit_remove_map (limit : Z) (st : memblock) : res memblock :=
  if limit =? 0 then Ret st
  else
    let max_addr := __find_max_addr limit st in
    if max_addr =? ULLONG_MAX then Ret st
    else memblock_cap_memory_range 0 max_addr st.
End Entry.

(** ** Queries *)

Definition memblock_phys_mem_size (st : memblock) : Z := total_size (memory st).
Definition memblock_reserved_size (st : memblock) : Z := total_size (reserved st).

Fixpoint mem_size_loop (rs : list memblock_region) (limit_pfn pages : Z) : Z :=
  match rs with
  | [] => pages
  | r :: rs' =>
      let start_pfn := Z.min (PFN_UP (r_base r)) limit_pfn in
      let end_pfn := Z.min (PFN_DOWN (r_end r)) limit_pfn in
      mem_size_loop rs' limit_pfn (w64 (pages + w64 (end_pfn - start_pfn)))
  end.
Definition memblock_mem_size (limit_pfn : Z) (st : memblock) : Z :=
  PFN_PHYS (mem_size_loop (regions (memory st)) limit_pfn 0).

Definition memblock_is_reserved (addr : Z) (st : memblock) : res bool :=
  res_map (fun i => negb (i =? -1)) (memblock_search (reserved st) addr).
Definition memblock_is_memory (addr : Z) (st : memblock) : res bool :=
  res_map (fun i => negb (i =? -1)) (memblock_search (memory st) addr).
Definition memblock_is_map_memory (addr : Z) (st : memblock) : res bool :=
  let* i := memblock_search (memory st) addr in
  if i =? -1 then Ret false
  else match regions (memory st) !! Z.to_nat i with
       | Some r => Ret (negb (memblock_is_nomap r))
       | None => BUG
       end.
Definition memblock_is_region_memory (base size : Z) (st : memblock) : res bool :=
  let* idx := memblock_search (memory st) base in
  let endp := w64 (base + memblock_cap_size base size) in
  if idx =? -1 then Ret false
  else match regions (memory st) !! Z.to_nat idx with
       | Some r => Ret (endp <=? r_end r)
       | None => BUG
       end.
Definition memblock_is_region_reserved (base size : Z) (st : memblock) : bool :=
  memblock_overlaps_region (reserved st) base (memblock_cap_size base size).

Definition memblock_start_of_DRAM (st : memblock) : Z :=
  match regions (memory st) with r :: _ => r_base r | [] => 0 end.
Definition memblock_end_of_DRAM (st : memblock) : Z :=
  match last (regions (memory st)) with Some r => r_end r | None => 0 end.

(** ** Trimming to an alignment *)

(** for_each_memblock(memory, r): a removal steps the pointer back, so that the
    next turn looks at the same index. *)
Fixpoint trim_loop (fuel : nat) (align : Z) (idx : nat) (t : memblock_type) : res memblock_type :=
  match fuel with
  | O => OutOfFuel
  | S fuel' =>
      match regions t !! idx with
      | None => Ret t
      | Some r =>
          let orig_start := r_base r in
          let orig_end := r_end r in
          let start := round_up orig_start align in
          let endp := round_down orig_end align in
          if (start =? orig_start) && (endp =? orig_end) then trim_loop fuel' align (S idx) t
          else if start <? endp then
            trim_loop fuel' align (S idx)
              (with_regions t (<[idx := mkRegion start (w64 (endp - start)) (r_flags r) (r_nid r)]>
                                 (regions t)))
          else trim_loop fuel' align idx (memblock_remove_region t idx)
      end
  end.
Definition memblock_trim_memory (align : Z) (st : memblock) : res memblock :=
  let* t := trim_loop (2 * length (regions (memory st)) + 3) align 0 (memory st) in
  Ret (set_type st memory_id t).

Definition memblock_set_current_limit (limit : Z) (st : memblock) : memblock :=
  mkMemblock (bottom_up st) limit (memory st) (reserved st) (memblock_can_resize st)
    (system_has_some_mirror st) (memblock_memory_in_slab st) (memblock_reserved_in_slab st).
Definition memblock_allow_resize (st : memblock) : memblock :=
  mkMemblock (bottom_up st) (current_limit st) (memory st) (reserved st) true
    (system_has_some_mirror st) (memblock_memory_in_slab st) (memblock_reserved_in_slab st).

(** * Growth leaves the memory table alone *)

(** What a step that only maintains the reserved table and the buffers keeps. *)
Definition memory_frame (st st' : memblock) : Prop :=
  regions (memory st') = regions (memory st) /\ total_size (memory st') = total_size (memory st)
  /\ bottom_up st' = bottom_up st /\ current_limit st' = current_limit st
  /\ memblock_can_resize st' = memblock_can_resize st
  /\ system_has_some_mirror st' = system_has_some_mirror st.

#[export] Instance memory_frame_preorder : PreOrder memory_frame.
Proof.
  split; unfold memory_frame; [intros st; tauto|].
  intros st1 st2 st3 (->&->&->&->&->&->) (?&?&?&?&?&?). tauto.
Qed.

Lemma get_set_type st ty t : get_type (set_type st ty t) ty = t.
Proof. by destruct ty. Qed.
Lemma get_set_type_ne st ty ty' t : ty <> ty' -> get_type (set_type st ty t) ty' = get_type st ty'.
Proof. by destruct ty, ty'. Qed.
Lemma set_set_type st ty t t' : set_type (set_type st ty t) ty t' = set_type st ty t'.
Proof. by destruct ty. Qed.
Lemma set_get_type st ty : set_type st ty (get_type st ty) = st.
Proof. by destruct ty, st. Qed.
Lemma frame_set_reserved st t : memory_frame st (set_type st reserved_id t).
Proof. unfold memory_frame. by split_and!. Qed.
Lemma frame_set_buffer st ty m pa :
  memory_frame st (set_type st ty (mkType (regions (get_type st ty)) m (total_size (get_type st ty)) pa)).
Proof. unfold memory_frame. destruct ty; by split_and!. Qed.
Lemma frame_set_in_slab st ty v : memory_frame st (set_in_slab st ty v).
Proof. unfold memory_frame. destruct ty; by split_and!. Qed.

Create HintDb memblock.
#[export] Hint Resolve frame_set_reserved frame_set_buffer frame_set_in_slab : memblock.
#[export] Hint Rewrite get_set_type set_set_type set_get_type : memblock.

(** What the table operations rely on when they grow a table: the memory regions
    stay as they are, a failed growth changes nothing, and growth is refused
    until [memblock_allow_resize]. *)
Class TableGrower (double : grower) : Prop := {
  grow_frame ty base size st r st' :
    double ty base size st = Ret (r, st') ->
    memory_frame st st' /\ (r = 0 \/ (r = -1 /\ st' = st));
  grow_off ty base size st :
    memblock_can_resize st = false -> double ty base size st = Ret (-1, st);
}.

Definition framed (double : grower) : Prop :=
  forall ty base size st r st',
    double ty base size st = Ret (r, st') ->
    memory_frame st st' /\ (r = 0 \/ (r = -1 /\ st' = st)).

Lemma resize_loop_framed double fuel ty extra base size st r st' :
  framed double -> resize_loop double fuel ty extra base size st = Ret (r, st') ->
  memory_frame st st'
  /\ ((r = 0 /\ cnt (get_type st' ty) + extra <= max (get_type st' ty)) \/ r = - ENOMEM).
Proof.
  intros Hd. revert st. induction fuel as [|fuel IH]; intros st E; simpl in E; [done|].
  destruct (Z.ltb_spec (max (get_type st ty)) (cnt (get_type st ty) + extra)).
  2: { inv_res. split; [reflexivity|left; lia]. }
  apply res_bind_Ret in E as ([r1 st1]&E1&E). apply Hd in E1 as [Hf1 Hr1].
  destruct (Z.ltb_spec r1 0); [inv_res; auto|].
  apply IH in E as [Hf2 ?]. split; [by etrans|done].
Qed.

Lemma add_reserved_framed double base size nid flags st r st' :
  framed double -> memblock_add_range_with double reserved_id base size nid flags st = Ret (r, st') ->
  memory_frame st st'.
Proof.
  intros Hd. unfold memblock_add_range_with. case_cmp; [by intros [= <- <-]|].
  destruct (regions (get_type st reserved_id)) as [|r0 rs]; [done|].
  case_cmp; [intros E; inv_res; auto with memblock|].
  intros ([t nr]&_&E)%res_bind_Ret. case_cmp_in E; [by inv_res|].
  apply res_bind_Ret in E as ([ret st1]&E1&E). apply resize_loop_framed in E1 as [Hf _]; [|done].
  case_cmp_in E; [by inv_res|].
  apply res_bind_Ret in E as ([t2 nr2]&_&E).
  case_cmp_in E; [inv_res; etrans; eauto with memblock|].
  apply res_bind_Ret in E as (t3&_&E). inv_res. etrans; eauto with memblock.
Qed.

Lemma remove_reserved_framed double base size st r st' :
  framed double -> memblock_remove_range_with double reserved_id base size st = Ret (r, st') ->
  memory_frame st st'.
Proof.
  intros Hd. unfold memblock_remove_range_with, memblock_isolate_range_with.
  intros ([[[ret st1] s] e]&E1&E)%res_bind_Ret.
  assert (memory_frame st st1) as Hf.
  { case_cmp_in E1; [by inv_res|].
    apply res_bind_Ret in E1 as ([r1 st2]&E2&E1). apply resize_loop_framed in E2 as [Hf _]; [|done].
    case_cmp_in E1; [by inv_res|].
    apply res_bind_Ret in E1 as ([[t' s'] e']&_&E1). inv_res. etrans; eauto with memblock. }
  case_cmp_in E; cbn [negb] in E; inv_res; [etrans; eauto with memblock|done].
Qed.

Section Grower.
Context `{BootEnv}.

Lemma double_array_framed n : framed (memblock_double_array n).
Proof.
  induction n as [|n IH]; intros ty base size st r st' E; [done|].
  cbn [memblock_double_array] in E. unfold double_array_body in E.
  destruct (memblock_can_resize st); cbn [negb] in E; [|inv_res; split; [reflexivity|auto]].
  apply res_bind_Ret in E as (addr&_&E). case_cmp_in E; [inv_res; split; [reflexivity|auto]|].
  apply res_bind_Ret in E as (st2&E2&E). apply res_bind_Ret in E as (st3&E3&E).
  injection E as <- <-. split; [|by left].
  transitivity st2; [|transitivity st3; [|auto with memblock]].
  - destruct (in_slab st ty); [inv_res; auto with memblock|].
    destruct (regions_pa (get_type st ty)); [|inv_res; auto with memblock].
    unfold res_map in E2. apply res_bind_Ret in E2 as ([r2 st2']&E2&[= <-]).
    apply remove_reserved_framed in E2; [|done]. etrans; [|done]. auto with memblock.
  - destruct slab_is_available; [by inv_res|].
    apply res_bind_Ret in E3 as ([r3 st3']&E3&E4). apply add_reserved_framed in E3; [|done].
    by case_cmp_in E4; cbn [negb] in E4; inv_res.
Qed.

#[export] Instance double_array_grower n : TableGrower (memblock_double_array (S n)).
Proof.
  split; [apply double_array_framed|]. intros ty base size st Hoff.
  cbn. unfold double_array_body. by rewrite Hoff.
Qed.
End Grower.

(** * Adding a range *)

(** The end address of a request, cut off at the last byte of the address space. *)
Definition capped_end (base size : Z) : Z := base + memblock_cap_size base size.

(** The address map after adding [base, endp): existing attributes win. *)
Definition added (m : Z -> option (Z * Z)) (base endp nid flags a : Z) : option (Z * Z) :=
  match m a with
  | Some v => Some v
  | None => if (base <=? a) && (a <? endp) then Some (nid, flags) else None
  end.

Definition has_room (t : memblock_type) (base size : Z) : Prop :=
  cnt t + nr_needed t base (capped_end base size) <= max t.

Lemma nr_needed_nonneg t base endp : 0 <= nr_needed t base endp.
Proof. unfold nr_needed, cnt. pose proof (add_from_length 0 0 base endp (regions t)). lia. Qed.

Lemma capped_end_bounds base size :
  0 <= base < two64 -> 0 <= size ->
  w64 (base + memblock_cap_size base size) = capped_end base size
  /\ base <= capped_end base size <= ULLONG_MAX /\ 0 <= memblock_cap_size base size.
Proof.
  intros. unfold capped_end, memblock_cap_size, two64, ULLONG_MAX in *. split; [|lia].
  apply w64_small. unfold two64. lia.
Qed.

Lemma wf_total_range t : wf_type t -> 0 <= total_size t < two64.
Proof.
  intros [[[nid E]|[_ Hs]] ->].
  - rewrite E. simpl. unfold two64. lia.
  - pose proof (sum_sizes_bound 0 _ ltac:(unfold ULLONG_MAX; lia) Hs). unfold ULLONG_MAX, two64 in *. lia.
Qed.

Lemma wf_empty_or_sorted t r0 rs :
  wf_type t -> regions t = r0 :: rs ->
  (r_size r0 = 0 /\ rs = []) \/ (0 < r_size r0 /\ sorted_from 0 (regions t)).
Proof.
  intros [[[nid E]|[_ Hs]] _] Er; rewrite Er in *; [left; by simplify_eq|right].
  split; [destruct Hs; lia|done].
Qed.

Section AddTable.
Context (base endp nid flags : Z).
Hypothesis Hb : 0 <= base < endp.
Hypothesis He : endp <= ULLONG_MAX.

(** An empty table takes the new region in the place of its dummy entry. *)
Lemma add_empty t r0 :
  regions t = [r0] -> r_size r0 = 0 -> wf_type t ->
  let t' := mkType (<[0%nat := mkRegion base (endp - base) flags nid]> (regions t)) (max t)
              (endp - base) (regions_pa t) in
  wf_type t' /\ minimal (regions t')
  /\ forall a, attr_at (regions t') a = added (attr_at (regions t)) base endp nid flags a.
Proof using Hb He.
  intros E Ez [Hwf _]. rewrite E. cbn [regions wf_type]. split_and!.
  - split; [right|]; simpl; [split; [done|lia]|lia].
  - done.
  - intros a. assert (attr_at (regions t) a = None) as Ha.
    { rewrite E. destruct Hwf as [Hd|[_ Hs]]; [by rewrite <- E; apply attr_at_dummy|].
      rewrite E in Hs. destruct Hs. lia. }
    rewrite E in Ha. unfold added. rewrite Ha. simpl.
    by replace (base + (endp - base)) with endp by lia.
Qed.

(** The inserting pass and the merge that follows it. *)
Lemma add_sorted t t2 nr2 :
  regions t <> [] -> sorted_from 0 (regions t) -> wf_type t -> cnt t <= max t ->
  add_range_pass true t base endp nid flags = Ret (t2, nr2) ->
  exists t3, (if nr2 =? 0 then Ret t2 else memblock_merge_regions t2) = Ret t3
    /\ wf_type t3 /\ max t3 = max t
    /\ cnt t3 <= cnt t + nr_needed t base endp <= max t
    /\ (minimal (regions t) -> minimal (regions t3))
    /\ forall a, attr_at (regions t3) a = added (attr_at (regions t)) base endp nid flags a.
Proof using Hb He.
  intros Hne Hs Hwf Hc. rewrite add_range_pass_insert; try done; try lia; [|by apply wf_total_range].
  cbv zeta. case_cmp; [|done]. intros E. inv_res.
  set (new := add_from nid flags base endp (regions t)).
  assert (Hnew : new <> [] /\ sorted_from 0 new).
  { split; [by apply add_from_nonempty|]. apply add_from_sorted; try done; lia. }
  assert (Hattr : forall a, attr_at new a = added (attr_at (regions t)) base endp nid flags a).
  { intros a. unfold new. by erewrite add_from_attr by (done || lia). }
  assert (Htot : w64 (total_size t + sum_sizes new - sum_sizes (regions t)) = sum_sizes new).
  { destruct Hwf as [_ ->].
    pose proof (sum_sizes_bound 0 new ltac:(unfold ULLONG_MAX; lia) (proj2 Hnew)).
    rewrite w64_small; [lia|]. unfold two64, ULLONG_MAX in *. lia. }
  assert (Hlen : Z.of_nat (length new) = cnt t + nr_needed t base endp).
  { unfold nr_needed in *. pose proof (add_from_length_indep nid flags 0 0 base endp (regions t)).
    unfold new. lia. }
  destruct (Z.eqb_spec (nr_needed t base endp) 0) as [Hz|Hz].
  - eexists; split; [done|]. cbn [regions max total_size]. split_and!.
    + split; cbn; [by right|done].
    + done.
    + unfold cnt at 1. cbn [regions]. lia.
    + lia.
    + assert (new = regions t) as ->; [|done].
      apply add_from_same. unfold nr_needed, cnt in Hz.
      pose proof (add_from_length_indep nid flags 0 0 base endp (regions t)). unfold new. lia.
    + done.
  - destruct (memblock_merge_regions_spec
      (mkType new (max t) (w64 (total_size t + sum_sizes new - sum_sizes (regions t))) (regions_pa t)))
      as (rs&->&?&?&Ha&Hsum&Hl&?); [apply Hnew|apply Hnew|].
    eexists; split; [done|]. cbn [with_regions regions max total_size] in *. split_and!; try done.
    + split; cbn; [by right|by rewrite Hsum].
    + unfold cnt at 1. cbn [with_regions regions]. lia.
    + intros a. by rewrite Ha.
Qed.
End AddTable.

Section AddRange.
Context `{BootEnv}.

(** With room in the table the range is added in place. *)
Lemma add_range_with_room double st ty base size nid flags :
  wf_type (get_type st ty) -> cnt (get_type st ty) <= max (get_type st ty) ->
  0 <= base < two64 -> 0 <= size < two64 -> has_room (get_type st ty) base size ->
  exists t', memblock_add_range_with double ty base size nid flags st = Ret (0, set_type st ty t')
    /\ wf_type t' /\ max t' = max (get_type st ty)
    /\ cnt t' <= cnt (get_type st ty) + nr_needed (get_type st ty) base (capped_end base size)
    /\ (minimal (regions (get_type st ty)) -> minimal (regions t'))
    /\ forall a, attr_at (regions t') a
                = added (attr_at (regions (get_type st ty))) base (capped_end base size) nid flags a.
Proof.
  intros Hwf Hc Hb Hs Hroom. unfold memblock_add_range_with.
  destruct (capped_end_bounds base size) as (->&He&Hcap); [lia|lia|].
  unfold has_room, capped_end in *. set (sz := memblock_cap_size base size) in *.
  pose proof (nr_needed_nonneg (get_type st ty) base (base + sz)) as Hnn.
  destruct (Z.eqb_spec sz 0) as [Hz|Hz].
  { exists (get_type st ty). rewrite set_get_type. split_and!; try done; [lia|].
    intros a. unfold added. destruct (attr_at _ a); [done|]. case_cmps; done. }
  destruct (regions (get_type st ty)) as [|r0 rs] eqn:Er.
  { pose proof (wf_regions_nonempty _ (proj1 Hwf)). rewrite Er in *. simpl in *. lia. }
  destruct (wf_empty_or_sorted _ _ _ Hwf Er) as [[E0 ->]|[Hpos Hsort]].
  - rewrite E0. cbn [Z.eqb]. rewrite <- Er.
    destruct (add_empty base (base + sz) nid flags ltac:(lia) ltac:(lia) _ _ Er E0 Hwf) as (?&?&?).
    replace (base + sz - base) with sz in * by lia.
    eexists; split; [done|]. split_and!; try done. unfold cnt in *. cbn [regions].
    rewrite length_insert. lia.
  - case_cmp; [lia|]. rewrite add_range_pass_count by done. cbn [res_bind].
    destruct (add_range_pass true (get_type st ty) base (base + sz) nid flags) as [[t2 nr2]| |] eqn:Ep.
    2-3: rewrite add_range_pass_insert in Ep; try done; try lia; try (by apply wf_total_range);
         cbv zeta in Ep; case_cmp_in Ep; (done || lia).
    assert (nr2 = nr_needed (get_type st ty) base (base + sz)) as Enr.
    { rewrite add_range_pass_insert in Ep; try done; try lia; try (by apply wf_total_range).
      cbv zeta in Ep. case_cmp_in Ep; [by inv_res|done]. }
    destruct (add_sorted base (base + sz) nid flags ltac:(lia) ltac:(lia) (get_type st ty) t2 nr2)
      as (t3&E3&?&?&?&?&Hattr); try done; [by rewrite Er|].
    rewrite <- Er in *. subst nr2.
    case_cmp.
    + exists (get_type st ty). rewrite set_get_type. split_and!; try done; [lia|].
      intros a. rewrite <- Hattr. inv_res.
      rewrite add_range_pass_insert in Ep; try done; try lia; try (by apply wf_total_range).
      cbv zeta in Ep. case_cmp_in Ep; [inv_res; cbn [regions]|done].
      rewrite add_from_same; [done|].
      pose proof (add_from_length_indep nid flags 0 0 base (base + sz) (regions (get_type st ty))).
      unfold nr_needed, cnt in *. lia.
    + cbn [resize_loop RESIZE_FUEL]. case_cmp; [lia|]. cbn [res_bind]. rewrite Ep. cbn [res_bind].
      case_cmp; [lia|]. rewrite E3. cbn [res_bind]. case_cmp; [lia|]. eexists; split; [done|].
      split_and!; try done; lia.
Qed.
Lemma add_range_room st ty base size nid flags :
  wf_type (get_type st ty) -> cnt (get_type st ty) <= max (get_type st ty) ->
  0 <= base < two64 -> 0 <= size < two64 -> has_room (get_type st ty) base size ->
  exists t', memblock_add_range ty base size nid flags st = Ret (0, set_type st ty t')
    /\ wf_type t' /\ max t' = max (get_type st ty)
    /\ cnt t' <= cnt (get_type st ty) + nr_needed (get_type st ty) base (capped_end base size)
    /\ (minimal (regions (get_type st ty)) -> minimal (regions t'))
    /\ forall a, attr_at (regions t') a
                = added (attr_at (regions (get_type st ty))) base (capped_end base size) nid flags a.
Proof. apply add_range_with_room. Qed.

(** Without room, and before [memblock_allow_resize], nothing changes. *)
Lemma add_range_no_room st ty base size nid flags :
  wf_type (get_type st ty) -> cnt (get_type st ty) <= max (get_type st ty) ->
  0 <= base < two64 -> 0 <= size < two64 ->
  ~ has_room (get_type st ty) base size -> ~ is_dummy (regions (get_type st ty)) ->
  memblock_can_resize st = false ->
  memblock_add_range ty base size nid flags st = Ret (- ENOMEM, st).
Proof.
  intros Hwf Hc Hb Hs Hno Hnd Hoff. unfold memblock_add_range, memblock_add_range_with.
  destruct (capped_end_bounds base size) as (->&He&Hcap); [lia|lia|].
  unfold has_room, capped_end in *. set (sz := memblock_cap_size base size) in *.
  destruct Hwf as [[?|[Hne Hsort]] _]; [done|].
  destruct (Z.eqb_spec sz 0) as [Hz|Hz].
  { exfalso. apply Hno. unfold nr_needed. rewrite Hz, Z.add_0_r.
    assert (forall rs lo, sorted_from lo rs -> add_from 0 0 base base rs = rs) as Hid.
    { clear. induction rs as [|r rs IH]; intros lo; simpl; [by rewrite Z.ltb_irrefl|].
      intros (?&?&?&Hs). repeat case_cmp; try lia; try done.
      - f_equal. by eapply IH.
      - f_equal. rewrite Z.min_r by lia. by eapply IH. }
    rewrite (Hid _ _ Hsort). unfold cnt in *. lia. }
  destruct (regions (get_type st ty)) as [|r0 rs] eqn:Er; [done|].
  case_cmp; [destruct Hsort; lia|]. rewrite <- Er in *.
  rewrite add_range_pass_count by done. cbn [res_bind].
  case_cmp; [lia|]. unfold RESIZE_FUEL. cbn [resize_loop]. case_cmp; [|lia].
  unfold GROW_DEPTH. rewrite grow_off by done. done.
Qed.
End AddRange.

(** * Cutting a range out *)

(** [t'] is [t] cut at [base] and [endp]: below, inside and above the range; the
    indices [s], [e] delimit the inside. *)
Record isolated (t t' : memblock_type) (base endp : Z) (s e : nat)
    (A M C : list memblock_region) : Prop := {
  iso_regions : regions t' = A ++ M ++ C;
  iso_max : max t' = max t;
  iso_pa : regions_pa t' = regions_pa t;
  iso_total : total_size t' = total_size t;
  iso_index : (e - s)%nat = length M /\ (M = [] -> s = 0 /\ e = 0)%nat
              /\ (M <> [] -> s = length A /\ e = length A + length M)%nat;
  iso_shape : (is_dummy (regions t') /\ A = regions t' /\ M = [] /\ C = [])
              \/ (A ++ M ++ C <> [] /\ sorted_from 0 (A ++ M ++ C));
  iso_sum : sum_sizes (A ++ M ++ C) = sum_sizes (regions t);
  iso_below a : attr_at A a = if a <? base then attr_at (regions t) a else None;
  iso_inside a : attr_at M a = if (base <=? a) && (a <? endp) then attr_at (regions t) a else None;
  iso_above a : attr_at C a = if endp <=? a then attr_at (regions t) a else None;
  iso_ends : sorted_from 0 A /\ end_of 0 A <= base \/ is_dummy A;
  iso_length : (length (A ++ M ++ C) <= length (regions t) + 2)%nat;
}.

Lemma attr_at_negative lo rs a : sorted_from lo rs -> 0 <= lo -> a < 0 -> attr_at rs a = None.
Proof. intros Hs ? ?. apply (attr_at_below lo); [done|lia]. Qed.
Lemma attr_at_past lo rs a : sorted_from lo rs -> lo <= ULLONG_MAX -> ULLONG_MAX <= a -> attr_at rs a = None.
Proof. intros Hs ? ?. apply (attr_at_above lo); [done|]. pose proof (end_of_le _ _ ltac:(done) Hs). lia. Qed.

(** The three clipped parts are no more than two regions longer together. *)
Lemma clip_lengths lo base endp rs :
  sorted_from lo rs -> 0 <= lo -> 0 <= base < endp -> endp <= ULLONG_MAX ->
  (length (clip 0 base rs ++ clip base endp rs ++ clip endp ULLONG_MAX rs) <= length rs + 2)%nat.
Proof.
  intros Hs Hlo Hb He. rewrite !length_app.
  assert (G1 : forall lo rs, sorted_from lo rs -> 0 <= lo -> base <= lo ->
    (length (clip base endp rs) + length (clip endp ULLONG_MAX rs) <= length rs + 1)%nat).
  { clear lo rs Hs Hlo. intros lo rs. revert lo.
    induction rs as [|r rs IH]; intros lo Hs Hlo Hbl; [simpl; lia|].
    destruct Hs as (?&?&?&Hs). rewrite !clip_cons, !length_app. cbn [length].
    destruct (decide (r_base r + r_size r <= endp)).
    - specialize (IH _ Hs ltac:(lia) ltac:(lia)).
      unfold clip1. repeat case_cmp; simpl; lia.
    - rewrite (clip_nil_hi _ _ _ _ Hs) by lia.
      pose proof (clip_id _ endp ULLONG_MAX _ Hs ltac:(lia) ltac:(apply end_of_le; done)) as ->.
      unfold clip1. repeat case_cmp; simpl; lia. }
  revert lo Hs Hlo. induction rs as [|r rs IH]; intros lo Hs Hlo; [simpl; lia|].
  destruct (decide (base <= r_base r)).
  - rewrite (clip_nil_hi (r_base r) 0 base) by (try lia; destruct Hs as (?&?&?&?); by repeat split; try lia).
    pose proof (G1 (r_base r) (r :: rs)). simpl length in *.
    assert (sorted_from (r_base r) (r :: rs)) by (destruct Hs as (?&?&?&?); by repeat split; try lia).
    specialize (H ltac:(done) ltac:(destruct Hs; lia) ltac:(done)). simpl. lia.
  - destruct Hs as (?&?&?&Hs). rewrite !clip_cons, !length_app. cbn [length].
    destruct (decide (r_base r + r_size r <= base)).
    + specialize (IH _ Hs ltac:(lia)). unfold clip1. repeat case_cmp; simpl; lia.
    + rewrite (clip_nil_hi _ 0 base _ Hs) by lia. pose proof (G1 _ _ Hs ltac:(lia) ltac:(lia)).
      destruct (decide (r_base r + r_size r <= endp)).
      * unfold clip1. repeat case_cmp; simpl; lia.
      * rewrite (clip_nil_hi _ base endp _ Hs) by lia.
        pose proof (clip_id _ endp ULLONG_MAX _ Hs ltac:(lia) ltac:(apply end_of_le; done)) as ->.
        unfold clip1. repeat case_cmp; simpl; lia.
Qed.

Lemma isolate_loop_dummy fuel t nid base endp :
  regions t = [mkRegion 0 0 0 nid] -> 0 <= base < endp ->
  isolate_loop (5 + fuel) t 0 base endp 0 0 = Ret (t, 0%nat, 0%nat).
Proof.
  intros Ed Hb. cbn [Nat.add isolate_loop]. rewrite Ed.
  change ([mkRegion 0 0 0 nid] !! 0%nat) with (Some (mkRegion 0 0 0 nid)).
  change ([mkRegion 0 0 0 nid] !! 1%nat) with (@None memblock_region).
  cbv beta iota zeta. rewrite (r_end_eq (mkRegion 0 0 0 nid)) by (cbn; unfold ULLONG_MAX; lia). cbn [r_base r_size].
  destruct (Z.leb_spec endp 0); [lia|]. by destruct (Z.leb_spec (0 + 0) base); [|lia].
Qed.

(** A table cut in three. *)
Lemma clips_sorted l base endp :
  sorted_from 0 l -> 0 <= base < endp -> endp <= ULLONG_MAX ->
  sorted_from 0 (clip 0 base l ++ clip base endp l ++ clip endp ULLONG_MAX l).
Proof.
  intros Hs Hb He. pose proof (clip_sorted 0 0 base _ Hs) as HA. pose proof (clip_end 0 0 base _ ltac:(lia) ltac:(lia) Hs).
  pose proof (clip_sorted 0 base endp _ Hs) as HM. pose proof (clip_end 0 base endp _ ltac:(lia) ltac:(lia) Hs).
  pose proof (clip_sorted 0 endp ULLONG_MAX _ Hs) as HC. rewrite Z.max_l in * by lia.
  apply sorted_from_app. split; [done|]. apply sorted_from_app. split.
  - eapply sorted_from_weaken; [|exact HM]. lia.
  - eapply sorted_from_weaken; [|exact HC]. destruct (clip base endp l); simpl in *; lia.
Qed.
Lemma clips_sum l base endp :
  sorted_from 0 l -> 0 <= base < endp -> endp <= ULLONG_MAX ->
  sum_sizes (clip 0 base l ++ clip base endp l ++ clip endp ULLONG_MAX l) = sum_sizes l.
Proof.
  intros Hs Hb He. rewrite !sum_sizes_app. pose proof (clip_sum 0 base endp ULLONG_MAX _ Hs ltac:(lia)).
  pose proof (clip_sum 0 0 base ULLONG_MAX _ Hs ltac:(lia)).
  rewrite (clip_id 0 0 ULLONG_MAX l Hs ltac:(lia)) in * by (apply end_of_le; unfold ULLONG_MAX; done || lia). lia.
Qed.

Lemma isolate_table t base endp :
  wf_type t -> 0 <= base < endp -> endp <= ULLONG_MAX -> cnt t + 2 <= max t ->
  exists t' s e A M C,
    isolate_loop (length (regions t) + 5) t 0 base endp 0 0 = Ret (t', s, e)
    /\ isolated t t' base endp s e A M C.
Proof.
  intros Hwf Hb He Hc. pose proof (wf_total_range _ Hwf) as Htot.
  destruct Hwf as [[[nid Ed]|[Hne Hs]] Hsum].
  - exists t, 0%nat, 0%nat, (regions t), [], []. split.
    + rewrite Nat.add_comm. by apply (isolate_loop_dummy _ _ nid).
    + assert (Hdum : is_dummy (regions t)) by (by exists nid).
      split; rewrite ?app_nil_r; try done; try (intros a; rewrite (attr_at_dummy _ a Hdum); simpl; by repeat case_cmp).
      * left. done.
      * by right.
      * lia.
  - set (A := clip 0 base (regions t)). set (M := clip base endp (regions t)).
    set (C := clip endp ULLONG_MAX (regions t)).
    pose proof (isolate_loop_eq (length (regions t) + 5) t [] (regions t) 0 base endp
                  eq_refl Hs ltac:(lia) Hb He Htot Hc ltac:(lia)) as E.
    cbv zeta in E. rewrite app_nil_l in E. fold A M C in E.
    do 2 eexists. exists (recorded (length A) M 0 0).2, A, M, C. split; [exact E|].
    pose proof (clips_sorted _ base endp Hs Hb He) as Hsorted. pose proof (clips_sum _ base endp Hs Hb He) as Hsums. fold A M C in Hsorted, Hsums.
    split; cbn [with_table regions max regions_pa total_size]; try done.
    + destruct M; simpl; split_and!; try done; intros; lia.
    + right. split; [|done]. intros E0. rewrite E0 in Hsums.
      destruct (regions t) as [|r rs] eqn:Er; [done|]. destruct Hs as (?&?&?&Hs).
      pose proof (sum_sizes_bound (r_base r + r_size r) _ ltac:(done) Hs). simpl in Hsums. lia.
    + intros a. unfold A. erewrite clip_attr by done.
      repeat case_cmp; simpl; try lia; try done.
      by rewrite (attr_at_negative 0) by (done || lia).
    + intros a. unfold M. by erewrite clip_attr by done.
    + intros a. unfold C. erewrite clip_attr by done.
      repeat case_cmp; simpl; try lia; try done.
      by rewrite (attr_at_past 0) by (done || unfold ULLONG_MAX in *; lia).
    + left. split; [exact (clip_sorted 0 0 base _ Hs)|exact (clip_end 0 0 base _ ltac:(lia) ltac:(lia) Hs)].
    + apply (clip_lengths 0); done || lia.
Qed.

(** The address map after removing [base, endp). *)
Definition removed (m : Z -> option (Z * Z)) (base endp a : Z) : option (Z * Z) :=
  if (base <=? a) && (a <? endp) then None else m a.
(** The address map after rewriting the attributes of [base, endp). *)
Definition rewritten (fa : Z * Z -> Z * Z) (m : Z -> option (Z * Z)) (base endp a : Z)
    : option (Z * Z) :=
  if (base <=? a) && (a <? endp) then fa <$> m a else m a.

(** Removing the inside of a cut table. *)
Lemma isolated_remove t t' base endp s e A M C :
  isolated t t' base endp s e A M C -> wf_type t -> base < endp ->
  let t2 := remove_regions_down (e - s) s t' in
  wf_type t2 /\ max t2 = max t /\ cnt t2 <= Z.max 1 (cnt t + 2)
  /\ forall a, attr_at (regions t2) a = removed (attr_at (regions t)) base endp a.
Proof.
  intros I Hwf Hlt. destruct (iso_index _ _ _ _ _ _ _ _ _ I) as (Hn&_&Hidx). rewrite Hn.
  assert (Hattr : forall a, attr_at (A ++ C) a = removed (attr_at (regions t)) base endp a).
  { intros a. rewrite attr_at_app, (iso_below _ _ _ _ _ _ _ _ _ I), (iso_above _ _ _ _ _ _ _ _ _ I).
    unfold removed. repeat case_cmp; simpl; try lia; try done; by destruct (attr_at _ a). }
  destruct (iso_shape _ _ _ _ _ _ _ _ _ I) as [(Hd&->&->&->)|(Hne&Hs)].
  - cbn [length remove_regions_down]. rewrite app_nil_r in Hattr. split_and!.
    + split; [by left|]. rewrite (iso_total _ _ _ _ _ _ _ _ _ I).
      destruct Hwf as [_ ->]. rewrite <- (iso_sum _ _ _ _ _ _ _ _ _ I). by rewrite !app_nil_r.
    + apply (iso_max _ _ _ _ _ _ _ _ _ I).
    + destruct Hd as [nd Hd]. unfold cnt. rewrite Hd. simpl. lia.
    + done.
  - assert (remove_regions_down (length M) s t' =
            mkType (or_dummy (A ++ C)) (max t') (w64 (total_size t' - sum_sizes M)) (regions_pa t')) as ->.
    { destruct M as [|m M'].
      - cbn [length remove_regions_down sum_sizes]. rewrite Z.sub_0_r, w64_small.
        2: { rewrite (iso_total _ _ _ _ _ _ _ _ _ I). by apply wf_total_range. }
        pose proof (iso_regions _ _ _ _ _ _ _ _ _ I) as Hr. simpl in Hr, Hne.
        destruct t'; simpl in *. subst. by destruct (A ++ C).
      - destruct (Hidx ltac:(done)) as [-> _]. apply remove_regions_down_eq; [apply I|done|].
        rewrite (iso_total _ _ _ _ _ _ _ _ _ I). by apply wf_total_range. }
    cbn [regions max total_size]. pose proof (iso_sum _ _ _ _ _ _ _ _ _ I) as Hsum.
    apply sorted_from_app in Hs as [HA Hs]. apply sorted_from_app in Hs as [HM HC].
    pose proof (end_of_ge _ _ HM).
    assert (HAC : sorted_from 0 (A ++ C)).
    { apply sorted_from_app. split; [done|]. eapply sorted_from_weaken; [|exact HC]. lia. }
    split_and!.
    + split; cbn [regions total_size]; [by apply or_dummy_wf|].
      rewrite or_dummy_sum, (iso_total _ _ _ _ _ _ _ _ _ I). destruct Hwf as [_ ->].
      rewrite <- Hsum, !sum_sizes_app.
      pose proof (sum_sizes_bound 0 _ ltac:(unfold ULLONG_MAX; lia) HAC). rewrite sum_sizes_app in *.
      rewrite w64_small by (unfold two64, ULLONG_MAX in *; lia). lia.
    + apply (iso_max _ _ _ _ _ _ _ _ _ I).
    + unfold cnt. cbn [regions]. pose proof (or_dummy_length (A ++ C)).
      pose proof (iso_length _ _ _ _ _ _ _ _ _ I). rewrite !length_app in *. lia.
    + intros a. by rewrite or_dummy_attr.
Qed.

Section UpdateRegions.
Context (f : memblock_region -> memblock_region) (fa : Z * Z -> Z * Z).
Hypothesis f_base : forall r, r_base (f r) = r_base r.
Hypothesis f_size : forall r, r_size (f r) = r_size r.
Hypothesis f_attr : forall r, (r_nid (f r), r_flags (f r)) = fa (r_nid r, r_flags r).

Lemma map_attr rs a : attr_at (f <$> rs) a = fa <$> attr_at rs a.
Proof using f_base f_size f_attr.
  induction rs as [|r rs IH]; [done|]. cbn [fmap list_fmap attr_at]. rewrite f_base, f_size.
  destruct (_ && _); [|done]. simpl. by rewrite f_attr.
Qed.
Lemma map_sorted lo rs : sorted_from lo (f <$> rs) <-> sorted_from lo rs.
Proof using f_base f_size.
  revert lo. induction rs as [|r rs IH]; intros lo; [done|]. cbn [fmap list_fmap sorted_from].
  by rewrite f_base, f_size, IH.
Qed.
Lemma map_end lo rs : end_of lo (f <$> rs) = end_of lo rs.
Proof using f_base f_size.
  revert lo. induction rs as [|r rs IH]; intros lo; [done|]. cbn [fmap list_fmap end_of].
  by rewrite f_base, f_size, IH.
Qed.
Lemma map_sum rs : sum_sizes (f <$> rs) = sum_sizes rs.
Proof using f_size.
  induction rs as [|r rs IH]; [done|]. cbn [fmap list_fmap sum_sizes]. by rewrite f_size, IH.
Qed.

Lemma map_range_parts A M C s e :
  (e - s)%nat = length M -> (M = [] -> s = 0 /\ e = 0)%nat ->
  (M <> [] -> s = length A /\ e = length A + length M)%nat ->
  map_range f s e (A ++ M ++ C) = A ++ (f <$> M) ++ C.
Proof using.
  intros Hn H0 H1. unfold map_range. rewrite Hn. destruct M as [|m M].
  - destruct (H0 eq_refl) as [-> ->]. simpl. by rewrite drop_0.
  - destruct (H1 ltac:(done)) as [-> ->]. rewrite Nat.max_r by lia.
    rewrite take_app_length, drop_app_length, take_app_length. do 2 f_equal.
    rewrite drop_app_ge by lia. replace (length A + _ - length A)%nat with (length (m :: M)) by lia.
    apply drop_app_length.
Qed.

(** Rewriting the inside of a cut table, and merging. *)
Lemma isolated_update t t' base endp s e A M C :
  isolated t t' base endp s e A M C -> wf_type t -> base < endp ->
  exists t2, memblock_merge_regions (with_regions t' (map_range f s e (regions t'))) = Ret t2
    /\ wf_type t2 /\ max t2 = max t /\ cnt t2 <= Z.max 1 (cnt t + 2) /\ minimal (regions t2)
    /\ forall a, attr_at (regions t2) a = rewritten fa (attr_at (regions t)) base endp a.
Proof using f_base f_size f_attr.
  intros I Hwf Hlt. destruct (iso_index _ _ _ _ _ _ _ _ _ I) as (Hn&H0&H1).
  rewrite (iso_regions _ _ _ _ _ _ _ _ _ I), (map_range_parts A M C) by done.
  assert (Htot : total_size t' = sum_sizes (A ++ (f <$> M) ++ C)).
  { rewrite (iso_total _ _ _ _ _ _ _ _ _ I). destruct Hwf as [_ ->].
    rewrite <- (iso_sum _ _ _ _ _ _ _ _ _ I), !sum_sizes_app. by rewrite map_sum. }
  assert (Hattr : forall a, attr_at (A ++ (f <$> M) ++ C) a
                            = rewritten fa (attr_at (regions t)) base endp a).
  { intros a. rewrite !attr_at_app, map_attr, (iso_below _ _ _ _ _ _ _ _ _ I),
      (iso_inside _ _ _ _ _ _ _ _ _ I), (iso_above _ _ _ _ _ _ _ _ _ I).
    unfold rewritten. repeat case_cmp; simpl; try lia; by destruct (attr_at _ a). }
  pose proof (iso_length _ _ _ _ _ _ _ _ _ I) as Hlen.
  destruct (iso_shape _ _ _ _ _ _ _ _ _ I) as [(Hd&EA&->&->)|(Hne&Hs)].
  - simpl in *. rewrite !app_nil_r in *. rewrite EA in *. destruct Hd as [nd Hd].
    exists (with_regions t' (regions t')). unfold memblock_merge_regions. cbn [with_regions regions].
    rewrite Hd. cbn. split_and!; try done.
    + split; cbn; [left; by exists nd|by rewrite Htot, Hd].
    + apply (iso_max _ _ _ _ _ _ _ _ _ I).
    + unfold cnt. simpl. lia.
    + intros a. by rewrite <- Hattr, Hd.
  - destruct (memblock_merge_regions_spec (with_regions t' (A ++ (f <$> M) ++ C)))
      as (rs&->&?&?&Ha&Hsum&Hl&?); cbn [with_regions regions] in *.
    + intros E. apply Hne. destruct A, M, C; done.
    + apply sorted_from_app in Hs as [HA Hs]. apply sorted_from_app in Hs as [HM HC].
      rewrite !sorted_from_app, map_sorted, map_end. done.
    + eexists; split; [done|]. cbn [with_regions regions max total_size]. split_and!; try done.
      * split; cbn; [by right|by rewrite Hsum].
      * apply (iso_max _ _ _ _ _ _ _ _ _ I).
      * unfold cnt. cbn [with_regions regions]. rewrite !length_app in Hlen, Hl. rewrite length_fmap in Hl. lia.
      * intros a. by rewrite Ha.
Qed.
End UpdateRegions.

Section RemoveUpdate.
Context `{BootEnv}.

Lemma resize_loop_room double fuel ty extra base size st :
  cnt (get_type st ty) + extra <= max (get_type st ty) ->
  resize_loop double (S fuel) ty extra base size st = Ret (0, st).
Proof. intros. cbn [resize_loop]. case_cmp; [lia|done]. Qed.

(** [memblock_isolate_range] once there is room for two more regions. *)
Lemma isolate_range_after double st ty base size stg :
  0 <= base < two64 -> 0 < memblock_cap_size base size ->
  resize_loop double RESIZE_FUEL ty 2 base
    (memblock_cap_size base size) st = Ret (0, stg) ->
  wf_type (get_type stg ty) -> cnt (get_type stg ty) + 2 <= max (get_type stg ty) ->
  exists t' s e A M C,
    memblock_isolate_range_with double ty base size st = Ret (0, set_type stg ty t', s, e)
    /\ isolated (get_type stg ty) t' base (capped_end base size) s e A M C.
Proof.
  intros Hb Hcap Er Hwf Hc. unfold memblock_isolate_range_with.
  assert (0 <= size) by (unfold memblock_cap_size in *; unfold two64, ULLONG_MAX in *; lia).
  destruct (capped_end_bounds base size) as (->&?&_); [done|lia|].
  case_cmp; [lia|]. rewrite Er. cbn [res_bind Z.ltb]. cbn.
  destruct (isolate_table (get_type stg ty) base (capped_end base size))
    as (t'&s&e&A&M&C&->&I); [done|unfold capped_end; lia|lia|done|].
  exists t', s, e, A, M, C. split; [done|done].
Qed.

Lemma remove_range_after double st ty base size stg :
  0 <= base < two64 -> 0 < memblock_cap_size base size ->
  resize_loop double RESIZE_FUEL ty 2 base
    (memblock_cap_size base size) st = Ret (0, stg) ->
  wf_type (get_type stg ty) -> cnt (get_type stg ty) + 2 <= max (get_type stg ty) ->
  exists t', memblock_remove_range_with double ty base size st = Ret (0, set_type stg ty t')
    /\ wf_type t' /\ max t' = max (get_type stg ty) /\ cnt t' <= cnt (get_type stg ty) + 2
    /\ forall a, attr_at (regions t') a
                = removed (attr_at (regions (get_type stg ty))) base (capped_end base size) a.
Proof.
  intros Hb Hcap Er Hwf Hc.
  destruct (isolate_range_after double st ty base size stg) as (t'&s&e&A&M&C&Ei&I); try done.
  unfold memblock_remove_range_with. rewrite Ei. cbn [res_bind negb Z.eqb].
  rewrite get_set_type, set_set_type.
  destruct (isolated_remove _ _ _ _ _ _ _ _ _ I Hwf) as (?&Hmax&?&?); [unfold capped_end; lia|].
  eexists; split; [done|]. split_and!; try done.
  pose proof (wf_regions_nonempty _ (proj1 Hwf)). unfold cnt in *. lia.
Qed.

Lemma remove_range_with_room double st ty base size :
  wf_type (get_type st ty) -> cnt (get_type st ty) + 2 <= max (get_type st ty) ->
  0 <= base < two64 -> 0 <= size < two64 ->
  exists t', memblock_remove_range_with double ty base size st = Ret (0, set_type st ty t')
    /\ wf_type t' /\ max t' = max (get_type st ty) /\ cnt t' <= cnt (get_type st ty) + 2
    /\ forall a, attr_at (regions t') a
                = removed (attr_at (regions (get_type st ty))) base (capped_end base size) a.
Proof.
  intros Hwf Hc Hb Hs. destruct (decide (memblock_cap_size base size = 0)) as [Hz|Hz].
  - exists (get_type st ty). rewrite set_get_type.
    unfold memblock_remove_range_with, memblock_isolate_range_with.
    rewrite Hz. cbn. rewrite set_get_type. split_and!; try done; [lia|].
    intros a. unfold removed, capped_end. rewrite Hz. case_cmps; done.
  - destruct (capped_end_bounds base size) as (_&_&?); [lia|lia|].
    apply (remove_range_after double st ty base size st); try done; [lia|].
    by apply resize_loop_room.
Qed.

Lemma remove_range_room st ty base size :
  wf_type (get_type st ty) -> cnt (get_type st ty) + 2 <= max (get_type st ty) ->
  0 <= base < two64 -> 0 <= size < two64 ->
  exists t', memblock_remove_range ty base size st = Ret (0, set_type st ty t')
    /\ wf_type t' /\ max t' = max (get_type st ty) /\ cnt t' <= max t'
    /\ forall a, attr_at (regions t') a
                = removed (attr_at (regions (get_type st ty))) base (capped_end base size) a.
Proof.
  intros ? Hc ? ?. destruct (remove_range_with_room (memblock_double_array GROW_DEPTH) st ty base size)
    as (t'&E&?&Hm&?&?); try done.
  exists t'. rewrite Hm. by split_and!; [| |lia..|].
Qed.

Lemma update_range_room st ty base size f fa :
  (forall r, r_base (f r) = r_base r) -> (forall r, r_size (f r) = r_size r) ->
  (forall r, (r_nid (f r), r_flags (f r)) = fa (r_nid r, r_flags r)) ->
  wf_type (get_type st ty) -> cnt (get_type st ty) + 2 <= max (get_type st ty) ->
  0 <= base < two64 -> 0 < memblock_cap_size base size ->
  exists t', update_range ty base size f st = Ret (0, set_type st ty t')
    /\ wf_type t' /\ max t' = max (get_type st ty) /\ cnt t' <= max t' /\ minimal (regions t')
    /\ forall a, attr_at (regions t') a
         = rewritten fa (attr_at (regions (get_type st ty))) base (capped_end base size) a.
Proof.
  intros Hfb Hfs Hfa Hwf Hc Hb Hcap.
  destruct (isolate_range_after (memblock_double_array GROW_DEPTH) st ty base size st) as (t'&s&e&A&M&C&Ei&I); try done.
  { by apply resize_loop_room. }
  unfold update_range, memblock_isolate_range. rewrite Ei. cbn [res_bind negb Z.eqb]. rewrite get_set_type.
  destruct (isolated_update f fa Hfb Hfs Hfa _ _ _ _ _ _ _ _ _ I Hwf) as (t2&->&?&Hmax&?&?&?);
    [unfold capped_end; lia|].
  cbn [res_bind]. rewrite set_set_type. eexists; split; [done|]. split_and!; try done.
  rewrite Hmax. unfold cnt in *. lia.
Qed.
End RemoveUpdate.

(** * Finding and allocating *)

(** The candidate range of a request: never the first page, and the current
    limit when the caller asks for accessible memory. *)
Definition req_start (start : Z) : Z := Z.max start PAGE_SIZE.
Definition req_end (st : memblock) (start endp : Z) : Z :=
  Z.max (req_start start) (if endp =? MEMBLOCK_ALLOC_ACCESSIBLE then current_limit st else endp).

(** The state the allocator works on: well-formed tables whose indices fit in an
    int, limits that are addresses. *)
Record wf_memblock (st : memblock) : Prop := {
  wf_memory : wf_type (memory st);
  wf_reserved : wf_type (reserved st);
  wf_memory_cnt : cnt (memory st) < 2147483647;
  wf_reserved_cnt : cnt (reserved st) < 2147483647;
  wf_limit : 0 <= current_limit st <= ULLONG_MAX;
}.

(** Rounding up inside memory does not overflow; only the bottom-up search
    rounds up. *)
Definition rounding_safe `{BootEnv} (st : memblock) (start k : Z) : Prop :=
  bottom_up st = true ->
  0 <= kernel_end /\ Z.max (req_start start) kernel_end + 2 ^ k <= two64
  /\ forall r, r ∈ regions (memory st) -> r_base r + r_size r + 2 ^ k <= two64.

(** A range with no reserved byte needs one new region. *)
Lemma nr_needed_free t base endp :
  wf_regions (regions t) -> 0 <= base < endp ->
  (forall a, base <= a < endp -> attr_at (regions t) a = None) -> nr_needed t base endp = 1.
Proof.
  intros Hwf Hb Hfree. unfold nr_needed, cnt.
  assert (length (add_from 0 0 base endp (regions t)) = S (length (regions t))) as ->; [|lia].
  destruct Hwf as [[nid ->]|[_ Hs]].
  - simpl. repeat case_cmp; try lia; done.
  - revert Hs Hfree. generalize 0 at 1. generalize (regions t). intros rs.
    induction rs as [|r rs IH]; intros lo Hs Hfree; simpl; [case_cmp; [done|lia]|].
    destruct Hs as (?&?&?&Hs). simpl in Hfree.
    destruct (Z.leb_spec endp (r_base r)); [case_cmp; [done|lia]|].
    destruct (Z.leb_spec (r_base r + r_size r) base).
    + cbn [length]. f_equal. apply (IH _ Hs). intros a Ha. specialize (Hfree a Ha).
      destruct (Z.ltb_spec a (r_base r + r_size r)); [lia|]. by rewrite andb_false_r in Hfree.
    + specialize (Hfree (Z.max base (r_base r)) ltac:(lia)). revert Hfree. case_cmps; done.
Qed.

Section Alloc.
Context `{BootEnv} (st : memblock) (size k start endp nid flags : Z).
Hypothesis Hwf : wf_memblock st.
Hypothesis Hk : 0 <= k < 64.
Hypothesis Hsize : 0 < size <= ULLONG_MAX.
Hypothesis Hstart : 0 <= start <= ULLONG_MAX.
Hypothesis Hend : 0 <= endp <= ULLONG_MAX.
Hypothesis Hround : rounding_safe st start k.

Lemma req_bounds :
  0 < req_start start <= req_end st start endp /\ req_end st start endp <= ULLONG_MAX.
Proof using Hwf Hstart Hend.
  destruct Hwf as [_ _ _ _ ?]. unfold req_end, req_start, PAGE_SIZE, ULLONG_MAX in *.
  case_cmp; lia.
Qed.

Let ok (c : Z) : Prop :=
  usable nid flags (memory st) (reserved st) (req_start start) (req_end st start endp) size (2 ^ k) c.

Lemma find_in_range_node_spec :
  exists c, memblock_find_in_range_node st size (2 ^ k) start endp nid flags = Ret c
    /\ ((c = 0 /\ forall c', ~ ok c') \/ (0 < c /\ ok c)).
Proof using All.
  pose proof req_bounds as (Hlo&Hhi). destruct Hwf as [[Hm _] [Hr _] Hcm Hcr Hlim].
  unfold memblock_find_in_range_node. fold (req_start start).
  change (Z.max (req_start start) (if endp =? MEMBLOCK_ALLOC_ACCESSIBLE then current_limit st else endp))
    with (req_end st start endp).
  destruct (find_top_down_spec nid flags (memory st) (reserved st) (req_start start)
              (req_end st start endp) size k Hm Hr Hcm Hcr Hk Hlo Hhi Hsize) as (c&Etd&Htd).
  assert (Htd' : exists c, __memblock_find_range_top_down (memory st) (reserved st)
      (req_start start) (req_end st start endp) size (2 ^ k) nid flags = Ret c
      /\ ((c = 0 /\ forall c', ~ ok c') \/ (0 < c /\ ok c))).
  { exists c. split; [done|]. destruct Htd as [?|(?&?&_)]; [by left|by right]. }
  destruct (bottom_up st) eqn:Hbu; cbn [andb]; [|done].
  destruct (Z.ltb_spec kernel_end (req_end st start endp)) as [Hke|]; [|done].
  destruct (Hround Hbu) as (Hk0&Hr1&Hr2).
  destruct (find_bottom_up_spec nid flags (memory st) (reserved st)
              (Z.max (req_start start) kernel_end) (req_end st start endp) size k
              Hm Hr Hcm Hcr Hk ltac:(lia) Hhi Hsize Hr1 Hr2) as (cb&->&Hcb).
  cbn [res_bind]. destruct Hcb as [[-> _]|(?&Hub&_)]; [done|].
  case_cmp; [lia|]. exists cb. split; [done|right]. split; [done|].
  destruct Hub as (?&?&?&?). split_and!; try done. lia.
Qed.

(** [memblock_alloc_range_nid] with a free slot in the reserved table. *)
Lemma alloc_range_nid_room :
  cnt (reserved st) + 1 <= max (reserved st) ->
  exists c st', memblock_alloc_range_nid size (2 ^ k) start endp nid flags st = Ret (c, st')
    /\ ((c = 0 /\ st' = st /\ forall c', ~ ok c')
        \/ (0 < c /\ ok c /\ exists t', st' = set_type st reserved_id t' /\ wf_type t'
            /\ max t' = max (reserved st) /\ cnt t' <= cnt (reserved st) + 1
            /\ forall a, attr_at (regions t') a
                 = added (attr_at (regions (reserved st))) c (c + size) MAX_NUMNODES 0 a)).
Proof using All.
  intros Hroom. unfold memblock_alloc_range_nid.
  assert (0 < 2 ^ k) by (apply Z.pow_pos_nonneg; lia).
  case_cmp; [lia|]. pose proof req_bounds as (Hlo&Hhi).
  destruct find_in_range_node_spec as (c&->&[[-> Hno]|[Hc Hok]]); cbn [res_bind].
  { exists 0, st. split; [done|]. by left. }
  destruct (Z.eqb_spec c 0); [lia|].
  pose proof Hok as (_&?&?&[_ Hfree]).
  assert (Hcap : capped_end c size = c + size) by (unfold capped_end, memblock_cap_size; lia).
  destruct (add_range_room st reserved_id c size MAX_NUMNODES 0) as (t'&E&?&?&?&_&Hattr);
    cbn [get_type]; try (apply Hwf); try (unfold two64, ULLONG_MAX in *; lia).
  { unfold has_room. rewrite Hcap, nr_needed_free; [done|apply Hwf|lia|done]. }
  cbn [get_type] in *. rewrite Hcap in *. rewrite nr_needed_free in * by (apply Hwf || lia || done).
  unfold memblock_reserve. rewrite E. cbn [res_bind Z.eqb].
  exists c. eexists. split; [done|]. right. split_and!; try done.
  by exists t'.
Qed.
End Alloc.

(** * Operations on memory that may grow tables on the way *)

Lemma frame_memory_wf st st' : memory_frame st st' -> wf_type (memory st) -> wf_type (memory st').
Proof. intros (E1&E2&_) [? ?]. split; by rewrite ?E1, ?E2. Qed.

Section MemoryGrowth.
Context `{BootEnv}.

Lemma add_memory_growth st base size nid flags r st' :
  wf_type (memory st) -> 0 <= base < two64 -> 0 <= size < two64 ->
  memblock_add_range memory_id base size nid flags st = Ret (r, st') ->
  (r = 0 /\ wf_type (memory st')
   /\ forall a, attr_at (regions (memory st')) a
        = added (attr_at (regions (memory st))) base (capped_end base size) nid flags a)
  \/ (r = - ENOMEM /\ memory_frame st st').
Proof.
  intros Hwf Hb Hs. unfold memblock_add_range, memblock_add_range_with.
  destruct (capped_end_bounds base size) as (->&He&Hcap); [lia|lia|].
  unfold capped_end in *. set (sz := memblock_cap_size base size) in *. cbn [get_type].
  destruct (Z.eqb_spec sz 0) as [Hz|Hz].
  { intros E. inv_res. left. split_and!; try done.
    intros a. unfold added. destruct (attr_at _ a); [done|]. case_cmps; done. }
  destruct (regions (memory st)) as [|r0 rs] eqn:Er; [done|].
  destruct (wf_empty_or_sorted _ _ _ Hwf Er) as [[E0 ->]|[Hpos Hsort]].
  { rewrite E0. cbn [Z.eqb]. rewrite <- Er.
    destruct (add_empty base (base + sz) nid flags ltac:(lia) ltac:(lia) _ _ Er E0 Hwf) as (?&?&?).
    replace (base + sz - base) with sz in * by lia. intros E. inv_res. left. by split_and!. }
  case_cmp; [lia|]. rewrite add_range_pass_count by done. cbn [res_bind].
  destruct (Z.eqb_spec (nr_needed (memory st) base (base + sz)) 0) as [Hz0|Hnz].
  { intros E. inv_res. left. split_and!; try done. intros a. rewrite <- Er.
    pose proof (add_from_attr nid flags base (base + sz) 0 _ a Hsort ltac:(lia)) as Ha.
    rewrite add_from_same in Ha; [done|].
    pose proof (add_from_length_indep nid flags 0 0 base (base + sz) (regions (memory st'))).
    unfold nr_needed, cnt in *. lia. }
  intros E. apply res_bind_Ret in E as ([ret stg]&Eg&E).
  apply resize_loop_framed in Eg as [Hf Hres]; [|apply double_array_framed].
  destruct Hres as [[-> Hroom]| ->].
  2: { change (- ENOMEM <? 0) with true in E. cbv iota in E. inv_res. by right. }
  cbn [Z.ltb Z.compare] in E.
  apply res_bind_Ret in E as ([t2 nr2]&Ep&E). cbn [get_type] in *.
  pose proof Hf as (Ereg&Etot&_).
  assert (Hneq : nr_needed (memory stg) base (base + sz) = nr_needed (memory st) base (base + sz)).
  { unfold nr_needed, cnt. by rewrite Ereg. }
  pose proof (nr_needed_nonneg (memory st) base (base + sz)).
  destruct (add_sorted base (base + sz) nid flags ltac:(lia) ltac:(lia) (memory stg) t2 nr2)
    as (t3&E3&Hwf3&_&_&_&Hattr); [by rewrite Ereg, Er|by rewrite Ereg|by eapply frame_memory_wf|lia|done|].
  left. rewrite Er in Ereg. rewrite Ereg in Hattr.
  assert (r = 0 /\ memory st' = t3) as [-> ->]; [|done].
  destruct (nr2 =? 0); [inv_res; done|]. apply res_bind_Ret in E as (t3'&E3'&E).
  rewrite E3 in E3'. inv_res. done.
Qed.
End MemoryGrowth.
