(* ===== verification/MemblockLimits.v ===== *)
(** Trimming, limiting and querying the memory map: what
    [memblock_trim_memory], [memblock_enforce_memory_limit] and the
    [memblock_is_*] queries of mm/memblock.c compute. *)

From S2P Require Import Prelude MemblockTable MemblockIter Memblock.

(** * Trimming *)

(** One turn of the loop of [memblock_trim_memory]. *)
Definition trim_region (align : Z) (r : memblock_region) : option memblock_region :=
  let s := round_up (r_base r) align in
  let e := round_down (r_end r) align in
  if s <? e then Some (mkRegion s (w64 (e - s)) (r_flags r) (r_nid r)) else None.

(** The bytes of the regions that are dropped whole. *)
Definition dropped (align : Z) (rs : list memblock_region) : Z :=
  sum_sizes (filter (fun r => trim_region align r = None) rs).

Section Trim.
Context (k : Z).
Hypothesis Hk : 0 <= k < 64.

Definition up (x : Z) : Z := (x + 2 ^ k - 1) / 2 ^ k * 2 ^ k.
Definition down (x : Z) : Z := x - x mod 2 ^ k.

Lemma pow_k : 0 < 2 ^ k.
Proof using Hk. apply Z.pow_pos_nonneg; lia. Qed.

Lemma up_bounds x : x <= up x < x + 2 ^ k /\ up x mod 2 ^ k = 0.
Proof using Hk.
  pose proof pow_k. unfold up. rewrite Z_mod_mult. split; [|done].
  pose proof (Z.div_mod (x + 2 ^ k - 1) (2 ^ k)).
  pose proof (Z.mod_pos_bound (x + 2 ^ k - 1) (2 ^ k)). lia.
Qed.
Lemma down_bounds x : x - 2 ^ k < down x <= x /\ down x mod 2 ^ k = 0.
Proof using Hk.
  pose proof pow_k. unfold down. pose proof (Z.mod_pos_bound x (2 ^ k)).
  split; [lia|]. rewrite Zminus_mod_idemp_r, Z.sub_diag. by apply Z.mod_0_l; lia.
Qed.

(** No region ends so close to 2^64 that rounding its base up overflows. *)
Definition trim_room (r : memblock_region) : Prop := r_base r + r_size r + 2 ^ k <= two64.

Lemma trim_region_eq lo r :
  0 <= lo -> lo <= r_base r -> 0 < r_size r -> trim_room r ->
  trim_region (2 ^ k) r =
    if up (r_base r) <? down (r_base r + r_size r)
    then Some (mkRegion (up (r_base r)) (down (r_base r + r_size r) - up (r_base r))
                 (r_flags r) (r_nid r))
    else None.
Proof using Hk.
  intros ? ? ? Hroom. unfold trim_room in Hroom. pose proof pow_k.
  unfold trim_region, r_end. rewrite (w64_small (r_base r + r_size r)) by lia.
  rewrite round_up_pow2, round_down_pow2 by lia. fold (up (r_base r)) (down (r_base r + r_size r)).
  pose proof (up_bounds (r_base r)). pose proof (down_bounds (r_base r + r_size r)).
  case_cmp; [|done]. rewrite w64_small by lia. done.
Qed.

(** The kept part of a sorted list is sorted, its regions are aligned. *)
Lemma trim_sorted lo rs :
  0 <= lo -> sorted_from lo rs -> Forall trim_room rs -> sorted_from lo (omap (trim_region (2 ^ k)) rs).
Proof using Hk.
  revert lo. induction rs as [|r rs IH]; intros lo Hlo; [done|]. intros (?&?&?&Hs) Hroom.
  inversion_clear Hroom as [|? ? Hr Hrs]. cbn [omap list_omap].
  rewrite (trim_region_eq lo r) by done.
  pose proof (up_bounds (r_base r)) as [? _]. pose proof (down_bounds (r_base r + r_size r)) as [? _].
  pose proof (IH (r_base r + r_size r) ltac:(lia) Hs Hrs) as IH'.
  case_cmp; [simpl; split_and!; try lia|]; (eapply sorted_from_weaken; [|exact IH']); lia.
Qed.

Lemma trim_elem lo rs x :
  0 <= lo -> sorted_from lo rs -> Forall trim_room rs ->
  x ∈ omap (trim_region (2 ^ k)) rs <->
  exists r, r ∈ rs /\ r_base x = up (r_base r) /\ r_base x < r_base x + r_size x
            /\ r_base x + r_size x = down (r_base r + r_size r)
            /\ r_flags x = r_flags r /\ r_nid x = r_nid r.
Proof using Hk.
  intros Hlo Hs Hroom. rewrite list_elem_of_omap. rewrite Forall_forall in Hroom.
  assert (Hreg : forall r, r ∈ rs -> 0 <= r_base r /\ 0 < r_size r).
  { intros r [i Hi]%list_elem_of_lookup. destruct (sorted_region _ _ _ _ Hs Hi). lia. }
  split; intros (r&Hin&Hx); exists r; (split; [done|]); destruct (Hreg r Hin);
    pose proof (trim_region_eq 0 r ltac:(lia) ltac:(lia) ltac:(lia) (Hroom r Hin)) as E.
  - rewrite E in Hx. case_cmp_in Hx; [|done]. injection Hx as <-. cbn. split_and!; try done; lia.
  - rewrite E. destruct Hx as (?&?&?&?&?), x; cbn in *. case_cmp; [|lia]. subst. do 2 f_equal. lia.
Qed.

(** One turn replaces the region by its trimming, or drops it. *)
Lemma trim_loop_step fuel pre r suf t :
  regions t = pre ++ r :: suf -> 0 <= r_base r -> 0 < r_size r -> trim_room r ->
  trim_loop (S fuel) (2 ^ k) (length pre) t =
    match trim_region (2 ^ k) r with
    | Some r' => trim_loop fuel (2 ^ k) (S (length pre)) (with_regions t (pre ++ r' :: suf))
    | None => trim_loop fuel (2 ^ k) (length pre) (memblock_remove_region t (length pre))
    end.
Proof using Hk.
  intros Ht ? ? Hroom. unfold trim_room in Hroom. pose proof pow_k. cbn [trim_loop].
  rewrite Ht, lookup_mid. unfold trim_region.
  destruct (Z.eqb_spec (round_up (r_base r) (2 ^ k)) (r_base r)) as [E1|E1]; cbn [andb];
    [destruct (Z.eqb_spec (round_down (r_end r) (2 ^ k)) (r_end r)) as [E2|E2]; cbn [andb]|].
  - rewrite E1, E2. unfold r_end. rewrite (w64_small (r_base r + r_size r)) by lia.
    case_cmp; [|lia]. rewrite w64_small by lia. f_equal.
    replace (mkRegion _ _ _ _) with r by (destruct r; cbn; f_equal; lia).
    unfold with_regions. rewrite <- Ht. by destruct t.
  - case_cmp; [|done]. by rewrite insert_mid.
  - case_cmp; [|done]. by rewrite insert_mid.
Qed.

Lemma trim_loop_dummy fuel t :
  regions t = [mkRegion 0 0 0 MAX_NUMNODES] -> trim_loop (S (S fuel)) (2 ^ k) 0 t = Ret t.
Proof using Hk.
  intros E. cbn [trim_loop]. rewrite E. cbn [lookup list_lookup r_base].
  unfold r_end. cbn [r_base r_size]. rewrite (w64_small (0 + 0)) by (unfold two64; lia).
  assert (2 ^ k <= 2 ^ 63) by (apply Z.pow_le_mono_r; lia). pose proof pow_k.
  rewrite round_up_pow2 by (unfold two64 in *; lia). rewrite round_down_pow2 by (unfold two64; lia).
  rewrite Z.mod_0_l, Z.div_small by lia. done.
Qed.

Lemma trim_loop_eq suf : forall fuel pre lo t,
  regions t = or_dummy (pre ++ suf) -> 0 <= lo -> sorted_from lo suf -> Forall trim_room suf ->
  0 <= total_size t < two64 -> (length suf + 2 <= fuel)%nat ->
  trim_loop fuel (2 ^ k) (length pre) t =
    Ret (mkType (or_dummy (pre ++ omap (trim_region (2 ^ k)) suf)) (max t)
           (w64 (total_size t - dropped (2 ^ k) suf)) (regions_pa t)).
Proof using Hk.
  induction suf as [|r suf IH]; intros fuel pre lo t Ht Hlo Hs Hroom Htot Hf.
  - simpl in Hf. destruct fuel as [|[|fuel]]; [lia|lia|]. rewrite app_nil_r in Ht.
    cbn [omap list_omap]. unfold dropped. simpl (sum_sizes _).
    rewrite Z.sub_0_r, w64_small, app_nil_r, <- Ht by done. replace (mkType _ _ _ _) with t by (by destruct t).
    destruct pre as [|p pre]; [by rewrite trim_loop_dummy|].
    cbn [trim_loop]. rewrite Ht. unfold or_dummy. by rewrite lookup_ge_None_2.
  - destruct fuel as [|fuel]; [lia|]. simpl in Hf. destruct Hs as (?&?&?&Hs).
    inversion_clear Hroom as [|? ? Hr Hrs].
    assert (regions t = pre ++ r :: suf) as Ht' by (rewrite Ht; by destruct pre).
    rewrite (trim_loop_step _ pre r suf) by (done || lia).
    cbn [omap list_omap]. unfold dropped. destruct (trim_region (2 ^ k) r) as [r'|] eqn:Er.
    + rewrite filter_cons_False by (by rewrite Er).
      replace (S (length pre)) with (length (pre ++ [r'])) by (rewrite length_app; simpl; lia).
      rewrite (IH _ (pre ++ [r']) (r_base r + r_size r)); try done; try lia.
      * by rewrite <- app_assoc.
      * rewrite <- app_assoc. cbn. by destruct pre.
    + rewrite filter_cons_True by done. cbn [sum_sizes].
      rewrite (memblock_remove_region_mid t pre r suf) by done.
      rewrite (IH _ pre (r_base r + r_size r)); try done; try lia; cbn [total_size max regions_pa].
      * rewrite w64_sub_l. unfold dropped. do 3 f_equal. lia.
      * apply w64_range.
Qed.
End Trim.

(** The address map of the trimmed regions. *)
Lemma trim_attr k rs a v :
  0 <= k < 64 -> sorted_from 0 rs -> Forall (trim_room k) rs ->
  attr_at (omap (trim_region (2 ^ k)) rs) a = Some v <->
  exists r, r ∈ rs /\ v = (r_nid r, r_flags r) /\ up k (r_base r) <= a < down k (r_base r + r_size r).
Proof.
  intros Hk Hs Hroom. pose proof (trim_sorted k Hk 0 rs ltac:(lia) Hs Hroom) as Hts. split.
  - intros (i&x&Hi&Hin&->)%attr_at_Some. apply list_elem_of_lookup_2 in Hi.
    apply (trim_elem k Hk 0) in Hi as (r&?&?&?&?&Ef&En); [|lia|done..].
    exists r. split_and!; [done|by rewrite En, Ef|lia|lia].
  - intros (r&Hr&->&Hin).
    set (x := mkRegion (up k (r_base r)) (down k (r_base r + r_size r) - up k (r_base r)) (r_flags r) (r_nid r)).
    assert (x ∈ omap (trim_region (2 ^ k)) rs) as [i Hi]%list_elem_of_lookup.
    { apply (trim_elem k Hk 0); [lia|done..|]. exists r. cbn. split_and!; try done; lia. }
    change (r_nid r, r_flags r) with (r_nid x, r_flags x). apply (attr_at_lookup 0 _ i x a); [done..|].
    cbn. lia.
Qed.

Lemma or_dummy_elem rs r : r ∈ or_dummy rs -> r = mkRegion 0 0 0 MAX_NUMNODES \/ r ∈ rs.
Proof. destruct rs; [|by right]. intros ?%list_elem_of_singleton. by left. Qed.

Lemma dropped_bound align lo rs : sorted_from lo rs -> 0 <= dropped align rs <= sum_sizes rs.
Proof.
  revert lo. induction rs as [|r rs IH]; intros lo; [done|]. intros (?&?&?&Hs). specialize (IH _ Hs).
  unfold dropped in *. cbn [sum_sizes]. destruct (decide (trim_region align r = None)).
  - rewrite filter_cons_True by done. cbn [sum_sizes]. lia.
  - rewrite filter_cons_False by done. lia.
Qed.

(** * Counting bytes *)

(** The bytes of the regions below [a]. *)
Fixpoint bytes_below (rs : list memblock_region) (a : Z) : Z :=
  match rs with
  | [] => 0
  | r :: rs' => Z.max 0 (Z.min (r_base r + r_size r) a - r_base r) + bytes_below rs' a
  end.

Definition present (v : option (Z * Z)) : Z := match v with Some _ => 1 | None => 0 end.

Lemma bytes_below_step lo rs n :
  sorted_from lo rs -> bytes_below rs (n + 1) = bytes_below rs n + present (attr_at rs n).
Proof.
  revert lo. induction rs as [|r rs IH]; intros lo; simpl; [done|]. intros (?&?&?&Hs).
  rewrite (IH _ Hs). destruct (Z.leb_spec (r_base r) n), (Z.ltb_spec n (r_base r + r_size r));
    simpl; try lia.
  rewrite (attr_at_below _ _ n Hs) by lia. simpl. lia.
Qed.

Lemma bytes_below_low lo rs a : sorted_from lo rs -> a <= lo -> bytes_below rs a = 0.
Proof.
  revert lo. induction rs as [|r rs IH]; intros lo; simpl; [done|]. intros (?&?&?&Hs) ?.
  rewrite (IH _ Hs) by lia. lia.
Qed.

Lemma bytes_below_all lo rs a : sorted_from lo rs -> end_of lo rs <= a -> bytes_below rs a = sum_sizes rs.
Proof.
  revert lo. induction rs as [|r rs IH]; intros lo; simpl; [done|]. intros (?&?&?&Hs) ?.
  pose proof (end_of_ge _ _ Hs). rewrite (IH _ Hs) by lia. lia.
Qed.

(** Two tables with the same addresses have the same number of bytes. *)
Lemma bytes_below_ext rs rs' n :
  0 <= n -> sorted_from 0 rs -> sorted_from 0 rs' ->
  (forall a, 0 <= a < n -> present (attr_at rs a) = present (attr_at rs' a)) ->
  bytes_below rs n = bytes_below rs' n.
Proof.
  intros Hn Hs Hs'. pattern n. apply natlike_ind; [| |done].
  - intros _. rewrite !(bytes_below_low 0) by done. done.
  - intros x Hx IH Hext. unfold Z.succ. rewrite !(bytes_below_step 0) by done.
    rewrite IH by (intros; apply Hext; lia). rewrite Hext by lia. done.
Qed.

Lemma bytes_below_stop rs m n :
  0 <= m <= n -> sorted_from 0 rs -> (forall a, m <= a -> attr_at rs a = None) ->
  bytes_below rs n = bytes_below rs m.
Proof.
  intros Hmn Hs Hnone. replace n with (m + (n - m)) by lia.
  assert (0 <= n - m) as Hd by lia. revert Hd. generalize (n - m) as d. clear Hmn n.
  intros d Hd. pattern d. apply natlike_ind; [by rewrite Z.add_0_r| |done].
  intros x Hx IH. replace (m + Z.succ x) with (m + x + 1) by lia.
  rewrite (bytes_below_step 0), Hnone by (done || lia). simpl. lia.
Qed.

(** The regions of a well-formed table, the placeholder left out. *)
Lemma wf_real rs :
  wf_regions rs -> exists rs', sorted_from 0 rs' /\ sum_sizes rs = sum_sizes rs'
    /\ forall a, attr_at rs a = attr_at rs' a.
Proof.
  intros [[nid ->]|[_ Hs]]; [exists []|by exists rs]. split_and!; [done|done|].
  intros a. by apply attr_at_dummy; eexists.
Qed.

(** A table that is [rs] cut at [m] holds the bytes of [rs] below [m]. *)
Lemma sum_sizes_cut rs rs' m :
  sorted_from 0 rs -> wf_regions rs' -> 0 <= m <= ULLONG_MAX ->
  (forall a, attr_at rs' a = if a <? m then attr_at rs a else None) ->
  sum_sizes rs' = bytes_below rs m.
Proof.
  intros Hs (l&Hl&->&Ha)%wf_real Hm Hcut.
  pose proof (end_of_le 0 l ltac:(unfold ULLONG_MAX; lia) Hl) as He. pose proof (end_of_ge _ _ Hl) as Hge.
  rewrite <- (bytes_below_all 0 l ULLONG_MAX) by done.
  rewrite (bytes_below_stop l m) by
    (lia || done || (intros a ?; rewrite <- Ha, Hcut; case_cmp; [lia|done])).
  apply bytes_below_ext; [lia|done..|]. intros a ?. rewrite <- Ha, Hcut. case_cmp; [done|lia].
Qed.

(** * Limiting *)

Lemma find_max_addr_loop_spec lo rs limit :
  0 <= lo -> sorted_from lo rs -> 0 < limit <= ULLONG_MAX ->
  if sum_sizes rs <? limit then find_max_addr_loop rs limit = ULLONG_MAX
  else lo < find_max_addr_loop rs limit <= ULLONG_MAX
       /\ bytes_below rs (find_max_addr_loop rs limit) = limit.
Proof.
  intros Hlo. revert lo limit Hlo. induction rs as [|r rs IH]; intros lo limit Hlo; simpl.
  { intros _ ?. case_cmp; [done|lia]. }
  intros (?&?&?&Hs) Hl. pose proof (sum_sizes_bound (r_base r + r_size r) rs ltac:(lia) Hs).
  destruct (Z.leb_spec limit (r_size r)).
  - case_cmp; [lia|]. rewrite w64_small by (unfold two64, ULLONG_MAX in *; lia).
    split; [lia|]. rewrite (bytes_below_low _ _ _ Hs) by lia. lia.
  - rewrite w64_small by (unfold two64, ULLONG_MAX in *; lia).
    specialize (IH (r_base r + r_size r) (limit - r_size r) ltac:(lia) Hs ltac:(lia)).
    revert IH. repeat case_cmp; try lia; intros [? ->]; lia.
Qed.

Definition cut_at (m : Z -> option (Z * Z)) (top a : Z) : option (Z * Z) :=
  if a <? top then m a else None.

Section Limit.
Context `{BootEnv}.

(** Removing everything from [top] up. *)
Lemma remove_above st ty top :
  wf_type (get_type st ty) -> cnt (get_type st ty) + 2 <= max (get_type st ty) ->
  0 <= top <= ULLONG_MAX ->
  exists t', memblock_remove_range ty top ULLONG_MAX st = Ret (0, set_type st ty t')
    /\ wf_type t' /\ max t' = max (get_type st ty) /\ cnt t' <= max t'
    /\ forall a, attr_at (regions t') a = cut_at (attr_at (regions (get_type st ty))) top a.
Proof.
  intros Hwf Hc Ht.
  destruct (remove_range_room st ty top ULLONG_MAX) as (t'&?&?&?&?&Ha);
    [done|done|unfold two64, ULLONG_MAX in *; lia|unfold two64, ULLONG_MAX in *; lia|].
  exists t'. split_and!; try done. intros a. rewrite Ha. unfold removed, cut_at.
  replace (capped_end top ULLONG_MAX) with ULLONG_MAX
    by (unfold capped_end, memblock_cap_size; lia).
  destruct Hwf as [(l&Hl&_&Hattr)%wf_real _]. rewrite !Hattr.
  destruct (Z.leb_spec top a), (Z.ltb_spec a ULLONG_MAX), (Z.ltb_spec a top); try lia; try done.
  cbn [andb]. rewrite (attr_at_past 0 l a) by (done || (unfold ULLONG_MAX in *; lia)). done.
Qed.

Lemma enforce_memory_limit_room st limit :
  wf_type (memory st) -> wf_type (reserved st) ->
  cnt (memory st) + 2 <= max (memory st) -> cnt (reserved st) + 2 <= max (reserved st) ->
  0 < limit <= ULLONG_MAX ->
  exists st' top, memblock_enforce_memory_limit limit st = Ret st'
    /\ wf_type (memory st') /\ wf_type (reserved st')
    /\ memblock_phys_mem_size st' = Z.min limit (memblock_phys_mem_size st)
    /\ (forall a, attr_at (regions (memory st')) a = cut_at (attr_at (regions (memory st))) top a)
    /\ (forall a, attr_at (regions (reserved st')) a = cut_at (attr_at (regions (reserved st))) top a).
Proof.
  intros Hm Hr Hcm Hcr Hl. unfold memblock_enforce_memory_limit, memblock_phys_mem_size.
  case_cmp; [lia|]. pose proof Hm as [Hwm Htm].
  assert (Hid : forall t, wf_type t -> forall a, attr_at (regions t) a = cut_at (attr_at (regions t)) ULLONG_MAX a).
  { intros t [(l&Hs&_&Ha)%wf_real _] a. rewrite !Ha. unfold cut_at. case_cmp; [done|].
    apply (attr_at_past 0); [done|unfold ULLONG_MAX; lia|lia]. }
  assert (Hmax : if sum_sizes (regions (memory st)) <? limit
    then __find_max_addr limit st = ULLONG_MAX
    else 0 <= __find_max_addr limit st <= ULLONG_MAX /\ sorted_from 0 (regions (memory st))
         /\ bytes_below (regions (memory st)) (__find_max_addr limit st) = limit).
  { unfold __find_max_addr. destruct Hwm as [[nd ->]|[_ Hs]].
    - simpl. repeat case_cmp; try lia; done.
    - pose proof (find_max_addr_loop_spec 0 _ limit ltac:(lia) Hs Hl) as Hf.
      case_cmp_in Hf; [done|]. destruct Hf. split_and!; [lia|lia|done|done]. }
  set (top := __find_max_addr limit st) in *.
  destruct (Z.eqb_spec top ULLONG_MAX) as [E|E].
  - exists st, ULLONG_MAX. split_and!; try done; [|by apply Hid..].
    rewrite Htm. case_cmp_in Hmax; [lia|]. destruct Hmax as (_&Hs&Hb). rewrite E in Hb.
    rewrite (bytes_below_all 0) in Hb; [lia|done|]. apply end_of_le; [unfold ULLONG_MAX; lia|done].
  - case_cmp_in Hmax; [done|]. destruct Hmax as (Htop&Hs&Hb).
    destruct (remove_above st memory_id top Hm Hcm Htop) as (tm&->&Hwtm&_&_&Ham). cbn [res_bind].
    destruct (remove_above (set_type st memory_id tm) reserved_id top) as (tr&->&Hwtr&_&_&Har); [done..|].
    exists (set_type (set_type st memory_id tm) reserved_id tr), top. cbn [res_bind].
    split_and!; try done. cbn [set_type memory reserved]. destruct Hwtm as [Hwtm ->].
    rewrite (sum_sizes_cut _ _ top Hs Hwtm Htop Ham), Htm. lia.
Qed.
End Limit.

(** * Queries *)

(** [memblock_overlaps_region] looks for a common byte. *)
Lemma overlaps_region_spec t base size :
  wf_regions (regions t) -> 0 <= base -> 0 < size -> base + size <= ULLONG_MAX ->
  memblock_overlaps_region t base size = true
  <-> exists a, base <= a < base + size /\ attr_at (regions t) a <> None.
Proof.
  intros Hwf Hb Hz He. unfold memblock_overlaps_region. destruct Hwf as [[n ->]|[_ Hs]].
  { cbn -[Z.leb Z.ltb]. unfold memblock_addrs_overlap. cbn [r_base r_size].
    rewrite !w64_small by (unfold two64, ULLONG_MAX in *; lia).
    split; [case_cmps; try done; lia|intros (a&?&Ha); revert Ha; case_cmps; try done; lia]. }
  revert Hs. assert (0 <= 0) as Hlo by lia. revert Hlo. generalize 0 at 2 3. intros lo Hlo.
  revert lo Hlo. induction (regions t) as [|r rs IH]; intros lo Hlo; simpl.
  { intros _. split; [done|]. by intros (a&_&?). }
  intros (?&?&?&Hs). unfold memblock_addrs_overlap.
  rewrite !w64_small by (unfold two64, ULLONG_MAX in *; lia).
  destruct (Z.ltb_spec base (r_base r + r_size r)), (Z.ltb_spec (r_base r) (base + size)); cbn [andb].
  { split; [intros _|done]. exists (Z.max base (r_base r)). split; [lia|]. case_cmps; try done; lia. }
  all: rewrite (IH (r_base r + r_size r)) by (done || lia); split; intros (a&?&Ha); exists a;
    (split; [done|]); revert Ha; case_cmps; try done; lia.
Qed.

(** The region that holds [addr] is the only one that can hold [addr, addr + size). *)
Lemma is_region_memory_iff rs i r addr size :
  wf_regions rs -> rs !! i = Some r -> r_base r <= addr < r_base r + r_size r -> 0 < size ->
  (addr + size <=? r_end r) = true
  <-> exists r', r' ∈ rs /\ r_base r' <= addr /\ addr + size <= r_base r' + r_size r'.
Proof.
  intros [[n ->]|[_ Hs]] Hi Hin Hz.
  { apply list_lookup_singleton_Some in Hi as [_ <-]. simpl in Hin. lia. }
  pose proof (sorted_region _ _ _ _ Hs Hi) as (?&?&?).
  unfold r_end. rewrite w64_small by (unfold two64, ULLONG_MAX in *; lia). rewrite Z.leb_le.
  split; [intros; exists r; split_and!; try lia; by eapply list_elem_of_lookup_2|].
  intros (r'&[j Hj]%list_elem_of_lookup&?&?).
  destruct (Nat.lt_trichotomy i j) as [Hij|[->|Hij]]; [|congruence|].
  - pose proof (sorted_lookup_lt _ _ _ _ _ _ Hs Hi Hj Hij). lia.
  - pose proof (sorted_lookup_lt _ _ _ _ _ _ Hs Hj Hi Hij). lia.
Qed.
