(* ===== verification/MemblockGrowth.v ===== *)
(** Growth of the region tables of mm/memblock.c: however the growths nest, and
    whatever they do to the reserved table on the way, they come to an end. *)

From S2P Require Import Prelude MemblockTable MemblockIter Memblock.

(** * The buffer of a table is changed by growth only *)

Lemma insert_region_pa t i base size nid flags t' :
  memblock_insert_region t i base size nid flags = Ret t' -> regions_pa t' = regions_pa t.
Proof. unfold memblock_insert_region. case_cmp; [done|]. by intros [= <-]. Qed.

Lemma add_range_loop_pa insert endp nid flags fuel : forall t i base nr t' i' base' nr',
  add_range_loop fuel insert t i base endp nid flags nr = Ret (t', i', base', nr') -> regions_pa t' = regions_pa t.
Proof.
  induction fuel as [|fuel IH]; intros t i base nr t' i' base' nr'; cbn [add_range_loop]; [done|].
  destruct (regions t !! i); [|intros E; by simplify_eq].
  destruct (endp <=? _); [intros E; by simplify_eq|]. destruct (_ <=? base); [apply IH|].
  destruct (base <? _); [|apply IH].
  destruct insert; [|apply IH]. intros (t1&E1&E)%res_bind_Ret. apply insert_region_pa in E1 as <-. by apply IH in E.
Qed.

Lemma add_range_pass_pa insert t base endp nid flags t' nr :
  add_range_pass insert t base endp nid flags = Ret (t', nr) -> regions_pa t' = regions_pa t.
Proof.
  intros ([[[t1 i] b] n]&E1&E)%res_bind_Ret. apply add_range_loop_pa in E1 as <-. unfold add_range_rest in E.
  case_cmp_in E; [|by inv_res]. destruct insert; [|by inv_res].
  apply res_bind_Ret in E as (t2&E&?). apply insert_region_pa in E. by inv_res.
Qed.

Lemma merge_regions_pa t t' : memblock_merge_regions t = Ret t' -> regions_pa t' = regions_pa t.
Proof. unfold memblock_merge_regions, res_map. intros (rs&_&[= <-])%res_bind_Ret. done. Qed.

Lemma isolate_loop_pa base endp fuel : forall t i s e t' s' e',
  isolate_loop fuel t i base endp s e = Ret (t', s', e') -> regions_pa t' = regions_pa t.
Proof.
  induction fuel as [|fuel IH]; intros t i s e t' s' e'; cbn [isolate_loop]; [done|].
  destruct (regions t !! i); [|intros E; by simplify_eq].
  destruct (endp <=? _); [intros E; by simplify_eq|]. destruct (_ <=? base); [apply IH|].
  destruct (_ <? base); [|destruct (endp <? _); [|apply IH]];
    intros (t1&E1&E)%res_bind_Ret; apply insert_region_pa in E1; apply IH in E; cbn in *; congruence.
Qed.

Lemma remove_region_pa t r : regions_pa (memblock_remove_region t r) = regions_pa t.
Proof. unfold memblock_remove_region. destruct (regions t !! r); [|done]. by destruct (take _ _ ++ _). Qed.
Lemma remove_regions_down_pa n s : forall t, regions_pa (remove_regions_down n s t) = regions_pa t.
Proof. induction n as [|n IH]; intros t; cbn [remove_regions_down]; [done|]. by rewrite IH, remove_region_pa. Qed.

(** * States whose tables can grow *)

(** Both tables are well formed and small enough to be doubled [n] times; 2^30 entries are more
    than the arrays can hold on a machine the code runs on. *)
Record table_ok (n : nat) (t : memblock_type) : Prop := {
  tab_wf : wf_type t;
  tab_cnt : cnt t <= max t;
  tab_min : 8 <= max t;
  tab_max : max t * 2 ^ Z.of_nat n <= 1073741824;
  tab_pa a : regions_pa t = Some a -> 0 <= a < two64;
}.
Record growable (n : nat) (st : memblock) : Prop := {
  grow_memory_ok : table_ok n (memory st);
  grow_reserved_ok : table_ok n (reserved st);
  grow_limit : 0 <= current_limit st <= ULLONG_MAX;
  grow_top_down : bottom_up st = false;
}.

Lemma table_ok_le n m t : (m <= n)%nat -> table_ok n t -> table_ok m t.
Proof.
  intros Hle []. split; try done. assert (2 ^ Z.of_nat m <= 2 ^ Z.of_nat n) by (apply Z.pow_le_mono_r; lia). nia.
Qed.
Lemma growable_le n m st : (m <= n)%nat -> growable n st -> growable m st.
Proof. intros Hle []. split; try done; by eapply table_ok_le. Qed.
Lemma growable_get n st ty : growable n st -> table_ok n (get_type st ty).
Proof. intros []. by destruct ty. Qed.
Lemma growable_set n st ty t : growable n st -> table_ok n t -> growable n (set_type st ty t).
Proof. intros [] ?. destruct ty; by split. Qed.
Lemma growable_in_slab n st ty v : growable n st -> growable n (set_in_slab st ty v).
Proof. intros []. destruct ty; by split. Qed.
Lemma table_small n t : table_ok n t -> max t <= 1073741824.
Proof. intros []. assert (1 <= 2 ^ Z.of_nat n) by (apply (Z.pow_le_mono_r 2 0); lia). nia. Qed.
Lemma growable_wf n st : growable n st -> wf_memblock st.
Proof.
  intros [Hm Hr ? ?]. pose proof (table_small _ _ Hm). pose proof (table_small _ _ Hr).
  destruct Hm, Hr. split; try done; lia.
Qed.

(** * Where a new array goes *)

Lemma PAGE_ALIGN_eq x : 0 <= x < 2 ^ 62 -> x <= PAGE_ALIGN x < x + 4096.
Proof.
  intros Hx. unfold PAGE_ALIGN, PAGE_SIZE. change (4096 - 1) with 4095. change (2 ^ 62) with 4611686018427387904 in Hx.
  rewrite (w64_small (x + _)) by (unfold two64; lia). change (Z.lnot 4095) with (Z.lnot (Z.ones 12)). unfold w64.
  change two64 with (2 ^ 64). rewrite <- Z.land_ones by done.
  rewrite Z.land_assoc, <- Z.ldiff_land, Z.ldiff_ones_r by done.
  rewrite Z.shiftl_mul_pow2, Z.shiftr_div_pow2, Z.land_ones by done.
  change (2 ^ 12) with 4096. change (2 ^ 64) with 18446744073709551616. divmod (x + 4095) 4096.
  rewrite Z.mod_small; lia.
Qed.

(** The sizes of the arrays: [old_alloc_size] and [new_alloc_size]. *)
Definition array_bytes (t : memblock_type) : Z := PAGE_ALIGN (w64 (max t * sizeof_region)).
Definition new_array_bytes (t : memblock_type) : Z := PAGE_ALIGN (w64 (Z.shiftl (w64 (max t * sizeof_region)) 1)).

Lemma array_bytes_bounds n t : table_ok n t ->
  0 <= array_bytes t < two64 /\ 0 < new_array_bytes t < 1099511627776 /\ w64 (Z.shiftl (max t) 1) = 2 * max t.
Proof.
  intros Ht. pose proof (table_small _ _ Ht). destruct Ht as [_ _ ? _ _].
  unfold array_bytes, new_array_bytes, sizeof_region. rewrite !Z.shiftl_mul_pow2 by done. change (2 ^ 1) with 2.
  rewrite !(w64_small) by (unfold two64; rewrite ?w64_small by (unfold two64; lia); lia).
  pose proof (PAGE_ALIGN_eq (max t * 32)). pose proof (PAGE_ALIGN_eq (max t * 32 * 2)). unfold two64. lia.
Qed.

Section Growth.
Context `{BootEnv}.
(** Before the slab allocator is up, the arrays come from the boot allocator itself. *)
Hypothesis early : slab_is_available = false.

Definition unreserved (st : memblock) (a size : Z) : Prop :=
  a + size <= ULLONG_MAX /\ forall x, a <= x < a + size -> attr_at (regions (reserved st)) x = None.

(** Some address is reserved. *)
Definition busy (st : memblock) : Prop := exists x, attr_at (regions (reserved st)) x <> None.

Lemma busy_sorted st : wf_type (reserved st) -> busy st ->
  regions (reserved st) <> [] /\ sorted_from 0 (regions (reserved st)).
Proof. intros [[Hd|?] _] [x Hx]; [|done]. by rewrite attr_at_dummy in Hx. Qed.

Lemma find_returns n st start endp size :
  growable n st -> 0 <= start <= ULLONG_MAX -> 0 <= endp <= ULLONG_MAX -> 0 < size <= ULLONG_MAX ->
  exists c, memblock_find_in_range st start endp size PAGE_SIZE = Ret c /\ (c = 0 \/ (0 < c < two64 /\ unreserved st c size)).
Proof.
  intros Hg Hs He Hz.
  assert (Hone : forall flags, exists c, memblock_find_in_range_node st size PAGE_SIZE start endp NUMA_NO_NODE flags = Ret c
            /\ (c = 0 \/ (0 < c < two64 /\ unreserved st c size))).
  { intros flags.
    destruct (find_in_range_node_spec st size 12 start endp NUMA_NO_NODE flags) as (c&E&Hc);
      [by eapply growable_wf|done..| |].
    { intros Hbu. by rewrite (grow_top_down _ _ Hg) in Hbu. }
    exists c. split; [exact E|]. destruct Hc as [[-> _]|[Hc (_&_&Hend&_&Hfree)]]; [by left|right].
    assert (Hr : req_end st start endp <= ULLONG_MAX).
    { pose proof (grow_limit _ _ Hg). unfold req_end, req_start, PAGE_SIZE. unfold ULLONG_MAX in *. case_cmp; lia. }
    split; [unfold two64, ULLONG_MAX in *; lia|]. split; [lia|done]. }
  unfold memblock_find_in_range. destruct (Hone (choose_memblock_flags st)) as (c&->&Hc). cbn [res_bind].
  destruct ((c =? 0) && _); [apply Hone|by exists c].
Qed.

(** A page-aligned free range for the doubled memory array, below the limit and in memory of
    any node that is neither hotpluggable nor unmapped. *)
Definition array_space (st : memblock) : Prop :=
  exists c, usable NUMA_NO_NODE MEMBLOCK_NONE (memory st) (reserved st) (req_start 0)
              (req_end st 0 (current_limit st)) (new_array_bytes (memory st)) PAGE_SIZE c.
(** The memory table cannot be doubled. *)
Definition stuck (st : memblock) : Prop := memblock_can_resize st = false \/ ~ array_space st.

Lemma find_fails n st :
  growable n st -> memblock_find_in_range st 0 (current_limit st) (new_array_bytes (memory st)) PAGE_SIZE = Ret 0 ->
  ~ array_space st.
Proof.
  intros Hg. destruct (array_bytes_bounds _ _ (grow_memory_ok _ _ Hg)) as (_&Hb&_). pose proof (grow_limit _ _ Hg).
  assert (Hone : memblock_find_in_range_node st (new_array_bytes (memory st)) PAGE_SIZE 0 (current_limit st) NUMA_NO_NODE
                   MEMBLOCK_NONE = Ret 0 -> ~ array_space st).
  { destruct (find_in_range_node_spec st (new_array_bytes (memory st)) 12 0 (current_limit st) NUMA_NO_NODE MEMBLOCK_NONE)
      as (c&E&Hc); [by eapply growable_wf|done|unfold ULLONG_MAX; lia|done|done| |].
    { intros Hbu. by rewrite (grow_top_down _ _ Hg) in Hbu. }
    change (2 ^ 12) with PAGE_SIZE in *. rewrite E. intros [= ->] [c' Hc']. destruct Hc as [[_ Hno]|[? _]]; [by eapply Hno|lia]. }
  unfold memblock_find_in_range, choose_memblock_flags. destruct (system_has_some_mirror st); cbn [wants_mirror].
  - change (clear_mirror MEMBLOCK_MIRROR) with MEMBLOCK_NONE.
    destruct (memblock_find_in_range_node _ _ _ _ _ _ MEMBLOCK_MIRROR) as [c| |]; try done. cbn [res_bind].
    destruct (Z.eqb_spec c 0) as [->|]; [exact Hone|]. by intros [= ->].
  - destruct (memblock_find_in_range_node _ _ _ _ _ _ MEMBLOCK_NONE) as [c| |] eqn:E; try done. cbn [res_bind].
    change (wants_mirror MEMBLOCK_NONE) with false. rewrite andb_false_r. exact Hone.
Qed.

Lemma double_addr_returns n ty na ns st :
  growable n st -> 0 <= na < two64 ->
  exists a, double_array_addr ty na ns (w64 (Z.shiftl (w64 (max (get_type st ty) * sizeof_region)) 1))
              (new_array_bytes (get_type st ty)) st = Ret a
    /\ 0 <= a < two64 /\ (a <> 0 -> unreserved st a (new_array_bytes (get_type st ty))).
Proof using early.
  intros Hg Hna. destruct (array_bytes_bounds _ _ (growable_get _ _ ty Hg)) as (_&Hb&_).
  pose proof (grow_limit _ _ Hg). pose proof (w64_range (na + ns)). pose proof (w64_range (0 + 0)).
  unfold double_array_addr. rewrite early.
  destruct (match ty with reserved_id => _ | memory_id => _ end) as [x y] eqn:Ep.
  assert (0 <= x < two64) by (destruct ty; simplify_eq; unfold two64 in *; lia). pose proof (w64_range (x + y)).
  destruct (find_returns n st (w64 (x + y)) (current_limit st) (new_array_bytes (get_type st ty))) as (c&->&Hc);
    [done|unfold two64, ULLONG_MAX in *; lia..|].
  cbn [res_bind]. destruct ((c =? 0) && _).
  - destruct (find_returns n st 0 (Z.min x (current_limit st)) (new_array_bytes (get_type st ty))) as (c2&->&Hc2);
      [done|unfold two64, ULLONG_MAX in *; lia..|].
    exists c2. split; [done|]. destruct Hc2 as [-> |[? ?]]; [unfold two64; split; [lia|done]|]. split; [lia|done].
  - exists c. split; [done|]. destruct Hc as [-> |[? ?]]; [unfold two64; split; [lia|done]|]. split; [lia|done].
Qed.

(** * Growing a table *)

Lemma resize_room double ty extra base size st :
  cnt (get_type st ty) + extra <= max (get_type st ty) ->
  resize_loop double RESIZE_FUEL ty extra base size st = Ret (0, st).
Proof. apply resize_loop_room. Qed.

(** The state in which the table has its new buffer, and what is left to do: give the old
    buffer back and reserve the new one. *)
Definition grown (ty : type_id) (a : Z) (st : memblock) : memblock :=
  let t := get_type st ty in set_type st ty (mkType (regions t) (2 * max t) (total_size t) (Some a)).
Definition finish (double : grower) (ty : type_id) (a : Z) (st : memblock) : res (Z * memblock) :=
  let t := get_type st ty in
  let* st2 :=
    if in_slab st ty then Ret (grown ty a st)
    else match regions_pa t with
         | None => Ret (grown ty a st)
         | Some old => res_map snd (memblock_free_with double old (array_bytes t) (grown ty a st))
         end in
  let* st3 :=
    if slab_is_available then Ret st2
    else let* (ret, st') := memblock_reserve_with double a (new_array_bytes t) st2 in
         if negb (ret =? 0) then BUG else Ret st' in
  Ret (0, set_in_slab st3 ty slab_is_available).

Lemma double_array_cases d n ty na ns st :
  growable n st -> 0 <= na < two64 ->
  (memblock_double_array (S d) ty na ns st = Ret (-1, st) /\ (ty = memory_id -> stuck st))
  \/ exists a, 0 <= a < two64 /\ unreserved st a (new_array_bytes (get_type st ty))
      /\ memblock_double_array (S d) ty na ns st = finish (memblock_double_array d) ty a st.
Proof using early.
  intros Hg Hna. cbn [memblock_double_array]. unfold double_array_body.
  destruct (memblock_can_resize st) eqn:Ecan; [|left; split; [done|by left]]. cbn [negb].
  destruct (double_addr_returns n ty na ns st Hg Hna) as (a&Ea&Ha&Hf). unfold new_array_bytes in Ea. rewrite Ea.
  cbn [res_bind]. destruct (Z.eqb_spec a 0) as [->|Hn0].
  { left. split; [done|]. intros ->. right. apply (find_fails n); [done|]. unfold double_array_addr in Ea. rewrite early in Ea.
    change (w64 (0 + 0)) with 0 in Ea. cbn [negb Z.eqb] in Ea. unfold new_array_bytes. cbn [get_type] in Ea.
    destruct (memblock_find_in_range _ _ _ _ _) as [c| |]; try done. cbn [res_bind] in Ea. by rewrite andb_false_r in Ea. }
  right. exists a. split; [done|]. split; [auto|].
  destruct (array_bytes_bounds _ _ (growable_get _ _ ty Hg)) as (_&_&->). done.
Qed.

Lemma grown_growable n ty a st : growable (S n) st -> 0 <= a < two64 -> growable n (grown ty a st).
Proof.
  intros Hg Ha. apply growable_set; [apply (growable_le (S n)); [lia|done]|].
  destruct (growable_get _ _ ty Hg) as [[Hr Ht] ? ? Hm ?]. rewrite Nat2Z.inj_succ, Z.pow_succ_r in Hm by lia.
  split; cbn [max regions_pa]; unfold cnt in *; cbn [regions]; [by split|lia|lia|nia|by intros ? [= <-]].
Qed.

Lemma free_room double n st base size :
  growable n st -> cnt (reserved st) + 2 <= max (reserved st) -> 0 <= base < two64 -> 0 <= size < two64 ->
  exists t', memblock_free_with double base size st = Ret (0, set_type st reserved_id t') /\ table_ok n t'
    /\ max t' = max (reserved st) /\ cnt t' <= cnt (reserved st) + 2
    /\ forall a, attr_at (regions (reserved st)) a = None -> attr_at (regions t') a = None.
Proof.
  intros Hg Hc Hb Hs. destruct (grow_reserved_ok _ _ Hg) as [Hwf ? ? ? Hpa].
  destruct (remove_range_with_room double st reserved_id base size) as (t'&E&?&Em&?&Ha); try done.
  exists t'. split; [done|]. cbn [get_type] in *. split_and!; try done; [split; try done; try lia|].
  - intros a. revert E. unfold memblock_remove_range_with, memblock_isolate_range_with.
    rewrite resize_room by done. case_cmp; cbn [res_bind negb Z.eqb Z.ltb Z.compare].
    + cbn. intros [= E]. rewrite <- E. apply Hpa.
    + intros ([[[r st1] s] e]&E1&E)%res_bind_Ret. apply res_bind_Ret in E1 as ([[t1 s1] e1]&E1&[= <- <- <- <-]).
      apply isolate_loop_pa in E1. cbn in E. injection E as E. rewrite <- E, remove_regions_down_pa, E1. apply Hpa.
  - intros a Hn. rewrite Ha. unfold removed. by destruct (_ && _).
Qed.

Lemma add_room_pa double st base size nid flags t' :
  cnt (reserved st) + nr_needed (reserved st) base (capped_end base size) <= max (reserved st) ->
  wf_type (reserved st) -> 0 <= base < two64 -> 0 <= size < two64 ->
  memblock_add_range_with double reserved_id base size nid flags st = Ret (0, set_type st reserved_id t') ->
  regions_pa t' = regions_pa (reserved st).
Proof.
  intros Hroom Hwf Hb Hs. unfold memblock_add_range_with.
  destruct (capped_end_bounds base size) as (->&_&_); [lia|lia|]. cbn [get_type].
  assert (Hsame : Ret (0, st) = Ret (0, set_type st reserved_id t') -> regions_pa t' = regions_pa (reserved st)).
  { intros [= E]. by rewrite E. }
  destruct (_ =? 0); [done|]. destruct (regions (reserved st)) as [|r0 rs] eqn:Er; [done|].
  destruct (wf_empty_or_sorted _ _ _ Hwf Er) as [[E0 ->]|[Hpos Hsort]]; [rewrite E0; by intros [= <-]|].
  destruct (Z.eqb_spec (r_size r0) 0); [lia|]. rewrite add_range_pass_count by done. cbn [res_bind].
  destruct (nr_needed _ _ _ =? 0); [done|].
  rewrite resize_room by done. cbn [res_bind Z.ltb Z.compare].
  intros ([t2 nr2]&E2&E)%res_bind_Ret. apply add_range_pass_pa in E2. cbn [get_type] in *.
  destruct (nr2 =? 0); [injection E as E; congruence|].
  apply res_bind_Ret in E as (t3&E3&E). apply merge_regions_pa in E3. injection E as E. congruence.
Qed.

Lemma reserve_room double n st base size :
  growable n st -> 0 <= base < two64 -> 0 <= size < two64 ->
  cnt (reserved st) + nr_needed (reserved st) base (capped_end base size) <= max (reserved st) ->
  exists t', memblock_reserve_with double base size st = Ret (0, set_type st reserved_id t') /\ table_ok n t'
    /\ max t' = max (reserved st) /\ cnt t' <= cnt (reserved st) + nr_needed (reserved st) base (capped_end base size)
    /\ forall x, base <= x < capped_end base size -> attr_at (regions t') x <> None.
Proof.
  intros Hg Hb Hs Hroom. destruct (grow_reserved_ok _ _ Hg) as [Hwf ? ? ? Hpa].
  destruct (add_range_with_room double st reserved_id base size MAX_NUMNODES 0) as (t'&E&?&Em&?&_&Ha); try done.
  cbn [get_type] in *. exists t'. split; [done|]. split_and!; try done.
  - split; try done; try lia. erewrite add_room_pa; done.
  - intros x Hx. rewrite Ha. unfold added. destruct (attr_at _ x); [done|]. case_cmps; done.
Qed.

Lemma get_grown ty a st : get_type (grown ty a st) ty
  = mkType (regions (get_type st ty)) (2 * max (get_type st ty)) (total_size (get_type st ty)) (Some a).
Proof. apply get_set_type. Qed.
Lemma grown_reserved ty a st : regions (reserved (grown ty a st)) = regions (reserved st).
Proof. by destruct ty. Qed.

(** If the reserved table has room for three more regions once the buffer is replaced,
    growth needs no further growth. *)
Lemma finish_room double n ty a st :
  growable (S n) st -> 0 <= a < two64 ->
  unreserved st a (new_array_bytes (get_type st ty)) ->
  cnt (reserved st) + 3 <= max (reserved (grown ty a st)) ->
  exists st', finish double ty a st = Ret (0, st') /\ growable n st'
    /\ memory st' = memory (grown ty a st) /\ max (reserved st') = max (reserved (grown ty a st))
    /\ cnt (reserved st') <= cnt (reserved st) + 3 /\ busy st'.
Proof using early.
  intros Hg Ha Hfree Hroom. pose proof (grown_growable _ ty _ _ Hg Ha) as Hg1. unfold finish.
  destruct (array_bytes_bounds _ _ (growable_get _ _ ty Hg)) as (Hab&Hnb&_).
  assert (cnt (reserved (grown ty a st)) = cnt (reserved st)) by (unfold cnt; by rewrite grown_reserved).
  match goal with |- context [res_bind ?m _] => set (give := m) end.
  assert (exists st2, give = Ret st2 /\ growable n st2 /\ memory st2 = memory (grown ty a st)
            /\ max (reserved st2) = max (reserved (grown ty a st)) /\ cnt (reserved st2) <= cnt (reserved st) + 2
            /\ forall x, attr_at (regions (reserved st)) x = None -> attr_at (regions (reserved st2)) x = None)
    as (st2&->&Hg2&Hm2&Hx2&Hc2&Ha2).
  { subst give. rewrite <- (grown_reserved ty a st).
    destruct (in_slab st ty); [exists (grown ty a st); split_and!; try done; lia|].
    destruct (regions_pa (get_type st ty)) as [old|] eqn:Eo; [|exists (grown ty a st); split_and!; try done; lia].
    destruct (free_room double n (grown ty a st) old (array_bytes (get_type st ty))) as (t'&->&?&?&?&?);
      [done|lia|exact (tab_pa _ _ (growable_get _ _ ty Hg) _ Eo)|lia|].
    cbn. exists (set_type (grown ty a st) reserved_id t'). split_and!; try done; [by apply growable_set|cbn; lia]. }
  cbn [res_bind]. rewrite early.
  destruct Hfree as [Hend Hun].
  assert (Hcap : capped_end a (new_array_bytes (get_type st ty)) = a + new_array_bytes (get_type st ty))
    by (unfold capped_end, memblock_cap_size; lia).
  assert (Hnr : nr_needed (reserved st2) a (capped_end a (new_array_bytes (get_type st ty))) = 1).
  { rewrite Hcap. apply nr_needed_free; [apply (grow_reserved_ok _ _ Hg2)|lia|auto]. }
  destruct (reserve_room double n st2 a (new_array_bytes (get_type st ty))) as (t'&->&?&?&?&Hb);
    [done|done|unfold two64; lia|lia|].
  cbn [res_bind negb Z.eqb]. eexists. split; [done|]. split; [by apply growable_in_slab, growable_set|].
  specialize (Hb a ltac:(lia)). destruct ty; cbn in *; split_and!; (done || lia || by exists a).
Qed.

(** Growth of the reserved table always has that room. *)
Lemma grow_reserved d n na ns st :
  growable (S n) st -> 0 <= na < two64 ->
  exists r st', memblock_double_array (S d) reserved_id na ns st = Ret (r, st')
    /\ growable n st' /\ memory st' = memory st
    /\ ((r = -1 /\ st' = st)
        \/ (r = 0 /\ max (reserved st') = 2 * max (reserved st) /\ cnt (reserved st') <= cnt (reserved st) + 3
            /\ busy st')).
Proof using early.
  intros Hg Hna. destruct (double_array_cases d _ reserved_id na ns st Hg Hna) as [[-> _]|(a&Ha&Hf&->)].
  { exists (-1), st. split_and!; try done; [apply (growable_le (S n)); [lia|done]|by left]. }
  destruct (grow_reserved_ok _ _ Hg).
  destruct (finish_room (memblock_double_array d) n reserved_id a st) as (st'&->&?&?&?&?&?); try done.
  { cbn. lia. }
  exists 0, st'. split_and!; try done. right. cbn in *. split_and!; (done || lia).
Qed.

(** * Every operation ends *)

(** [m] returns something that satisfies [P], or stops at a BUG_ON. *)
Definition ends {A} (P : A -> Prop) (m : res A) : Prop :=
  match m with Ret x => P x | BUG => True | OutOfFuel => False end.
Lemma ends_bind {A B} (P : A -> Prop) (Q : B -> Prop) (m : res A) (k : A -> res B) :
  ends P m -> (forall x, P x -> ends Q (k x)) -> ends Q (res_bind m k).
Proof. intros Hm Hk. destruct m; cbn in *; auto. Qed.

Lemma nr_needed_le t base endp : nr_needed t base endp <= cnt t + 1.
Proof. unfold nr_needed, cnt. pose proof (add_from_length 0 0 base endp (regions t)). lia. Qed.

(** Two growths make room for as many regions as the table has. *)
Lemma resize_reserved d n extra base size st :
  growable (S (S n)) st -> 0 <= base < two64 -> extra <= cnt (reserved st) + 2 ->
  exists r st', resize_loop (memblock_double_array (S d)) RESIZE_FUEL reserved_id extra base size st = Ret (r, st')
    /\ growable n st' /\ memory st' = memory st
    /\ ((r = 0 /\ cnt (reserved st') + extra <= max (reserved st') /\ (busy st -> busy st')) \/ r = - ENOMEM).
Proof using early.
  intros Hg Hb Hex. unfold RESIZE_FUEL. cbn [resize_loop get_type].
  destruct (Z.ltb_spec (max (reserved st)) (cnt (reserved st) + extra)).
  2: { exists 0, st. split_and!; try done; [by apply (growable_le (S (S n))); [lia|]|left; split_and!; (done || lia)]. }
  destruct (grow_reserved d _ base size _ Hg Hb) as (r1&st1&->&Hg1&Hm1&[(-> & ->)|(->&Hx1&Hc1&Hb1)]);
    cbn [res_bind Z.ltb Z.compare].
  { eexists _, st. split_and!; try done; [by apply (growable_le (S n)); [lia|]|by right]. }
  destruct (Z.ltb_spec (max (reserved st1)) (cnt (reserved st1) + extra)).
  2: { exists 0, st1. split_and!; try done; [by apply (growable_le (S n)); [lia|]|left; split_and!; (done || lia)]. }
  destruct (grow_reserved d _ base size _ Hg1 Hb) as (r2&st2&->&Hg2&Hm2&[(-> & ->)|(->&Hx2&Hc2&Hb2)]);
    cbn [res_bind Z.ltb Z.compare].
  { eexists _, st1. split_and!; try done. by right. }
  destruct (grow_reserved_ok _ _ Hg). case_cmp; [lia|].
  exists 0, st2. split_and!; try done; [congruence|left; split_and!; (done || lia)].
Qed.

Lemma free_ends d n st base size :
  growable (S (S n)) st -> 0 <= base < two64 -> 0 <= size < two64 ->
  exists r st', memblock_free_with (memblock_double_array (S d)) base size st = Ret (r, st')
    /\ growable n st' /\ memory st' = memory st.
Proof using early.
  intros Hg Hb Hs. unfold memblock_free_with.
  destruct (capped_end_bounds base size) as (_&Hce&Hcap); [lia|lia|].
  destruct (decide (memblock_cap_size base size = 0)) as [Hz|Hz].
  { unfold memblock_remove_range_with, memblock_isolate_range_with. rewrite Hz. cbn.
    eexists _, _. split; [done|]. split; [|done].
    apply (growable_set n st reserved_id); [by apply (growable_le (S (S n))); [lia|]|].
    apply (table_ok_le (S (S n))); [lia|]. apply (grow_reserved_ok _ _ Hg). }
  destruct (grow_reserved_ok _ _ Hg).
  destruct (resize_reserved d n 2 base (memblock_cap_size base size) st) as (r&st1&E&Hg1&Hm1&Hr); [done|done| |].
  { unfold cnt. lia. }
  destruct Hr as [(->&Hroom&_)| ->].
  2: { unfold memblock_remove_range_with, memblock_isolate_range_with.
       case_cmp; [done|]. rewrite E. cbn. exists (- ENOMEM), st1. split_and!; done. }
  destruct (free_room (memblock_double_array (S d)) n st1 base size) as (t'&E'&?&_&_&_); try done.
  exists 0, (set_type st1 reserved_id t'). split_and!; [|by apply growable_set|done].
  rewrite <- E'. unfold memblock_free_with, memblock_remove_range_with, memblock_isolate_range_with.
  case_cmp; [done|]. by rewrite E, resize_room.
Qed.

Lemma reserve_ends d n st base size :
  growable (S (S n)) st -> 0 <= base < two64 -> 0 <= size < two64 ->
  ends (fun '(_, st') => growable n st' /\ memory st' = memory st)
    (memblock_reserve_with (memblock_double_array (S d)) base size st).
Proof using early.
  intros Hg Hb Hs. assert (Hgn : growable n st) by (by apply (growable_le (S (S n))); [lia|]).
  destruct (grow_reserved_ok _ _ Hg) as [Hwf Hc ? ? Hpa]. unfold memblock_reserve_with.
  pose proof (nr_needed_le (reserved st) base (capped_end base size)).
  destruct (decide (cnt (reserved st) + nr_needed (reserved st) base (capped_end base size) <= max (reserved st))) as [Hr|Hno].
  { destruct (reserve_room (memblock_double_array (S d)) n st base size) as (t'&E&?&_&_&_); try done.
    unfold memblock_reserve_with in E. rewrite E. cbn. split; [by apply (growable_set n st reserved_id)|done]. }
  unfold memblock_add_range_with. destruct (capped_end_bounds base size) as (->&He&Hcap); [lia|lia|]. cbn [get_type].
  destruct (Z.eqb_spec (memblock_cap_size base size) 0) as [|Hz]; [done|].
  destruct (regions (reserved st)) as [|r0 rs] eqn:Er; [done|].
  destruct (wf_empty_or_sorted _ _ _ Hwf Er) as [[E0 ->]|[Hpos Hsort]].
  { exfalso. apply Hno. unfold cnt in *. rewrite Er in *. cbn [length] in *. lia. }
  destruct (Z.eqb_spec (r_size r0) 0); [lia|]. rewrite add_range_pass_count by done. cbn [res_bind].
  destruct (Z.eqb_spec (nr_needed (reserved st) base (capped_end base size)) 0); [done|].
  destruct (resize_reserved d n (nr_needed (reserved st) base (capped_end base size)) base
              (memblock_cap_size base size) st) as (r&st1&->&Hg1&Hm1&Hr); [done|done|lia|].
  cbn [res_bind]. destruct Hr as [(->&Hroom&Hbusy)| ->]; [|done]. cbn [Z.ltb Z.compare].
  destruct (grow_reserved_ok _ _ Hg1) as [Hwf1 Hc1 ? ? Hpa1].
  assert (regions (reserved st1) <> [] /\ sorted_from 0 (regions (reserved st1))) as [Hne1 Hs1].
  { apply busy_sorted; [done|]. apply Hbusy. exists (r_base r0). rewrite Er. cbn. case_cmps; done. }
  destruct (add_range_pass true (reserved st1) base (capped_end base size) MAX_NUMNODES 0) as [[t2 nr2]| |] eqn:Ep.
  2: done.
  2: { rewrite add_range_pass_insert in Ep; try done; try lia; [|by apply wf_total_range].
       cbv zeta in Ep. by case_cmp_in Ep. }
  unfold capped_end in *.
  destruct (add_sorted base (base + memblock_cap_size base size) MAX_NUMNODES 0 ltac:(lia) ltac:(lia) (reserved st1) t2 nr2)
    as (t3&E3&?&?&?&_); [done..|].
  cbn [res_bind].
  assert (Hok : regions_pa t3 = regions_pa (reserved st1) -> growable n (set_type st1 reserved_id t3)).
  { intros Epa. apply growable_set; [done|]. split; rewrite ?Epa; (done || lia). }
  apply add_range_pass_pa in Ep. destruct (nr2 =? 0).
  - injection E3 as ->. split; [by apply Hok|done].
  - rewrite E3. apply merge_regions_pa in E3. split; [apply Hok; congruence|done].
Qed.

(** Growing the memory table may grow the reserved table up to four times. *)
Lemma grow_memory d n na ns st :
  growable (5 + n) st -> 0 <= na < two64 ->
  ends (fun '(r, st') => growable n st' /\ regions (memory st') = regions (memory st)
          /\ ((r = -1 /\ st' = st) \/ (r = 0 /\ max (memory st') = 2 * max (memory st))))
    (memblock_double_array (S (S d)) memory_id na ns st).
Proof using early.
  intros Hg Hna. destruct (double_array_cases (S d) _ memory_id na ns st Hg Hna) as [[-> _]|(a&Ha&[Hend _]&->)].
  { split_and!; try done; [by apply (growable_le (5 + n)); [lia|]|by left]. }
  pose proof (grown_growable (4 + n) memory_id a st Hg Ha) as Hg1.
  destruct (array_bytes_bounds _ _ (growable_get _ _ memory_id Hg)) as (Hab&Hnb&_).
  unfold finish. apply (ends_bind (fun st2 => growable (2 + n) st2 /\ memory st2 = memory (grown memory_id a st))).
  { destruct (in_slab st memory_id); [split; [by apply (growable_le (4 + n)); [lia|]|done]|].
    destruct (regions_pa (get_type st memory_id)) as [old|] eqn:Eo; [|split; [by apply (growable_le (4 + n)); [lia|]|done]].
    destruct (free_ends d (2 + n) (grown memory_id a st) old (array_bytes (get_type st memory_id))) as (r&st2&->&?&?);
      [done|exact (tab_pa _ _ (growable_get _ _ memory_id Hg) _ Eo)|done|]. done. }
  intros st2 [Hg2 Hm2]. rewrite early.
  apply (ends_bind (fun st3 => growable n st3 /\ memory st3 = memory st2)).
  { eapply ends_bind; [apply (reserve_ends d n); [done|done|unfold two64; lia]|].
    intros [r st'] ?. by destruct (negb _). }
  intros st3 [Hg3 Hm3]. cbn [ends]. split; [by apply growable_in_slab|]. cbn [set_in_slab memory]. rewrite Hm3, Hm2.
  split; [done|]. by right.
Qed.


Lemma resize_memory d n extra base size st :
  growable (10 + n) st -> 0 <= base < two64 -> extra <= cnt (memory st) + 1 ->
  ends (fun '(r, st') => growable n st' /\ regions (memory st') = regions (memory st))
    (resize_loop (memblock_double_array (S (S d))) RESIZE_FUEL memory_id extra base size st).
Proof using early.
  intros Hg Hb Hex. assert (Hle : forall k st, (n <= k)%nat -> growable k st -> growable n st)
    by (intros; by eapply growable_le).
  unfold RESIZE_FUEL. cbn [resize_loop get_type]. case_cmp; [|split; [by eapply Hle; [|exact Hg]; lia|done]].
  eapply ends_bind; [by apply (grow_memory d (5 + n))|]. intros [r1 st1] (Hg1&Hr1&[(-> & ->)|[-> Hx1]]); cbn [Z.ltb Z.compare].
  { split; [by eapply Hle; [|exact Hg]; lia|done]. }
  case_cmp; [|split; [by eapply Hle; [|exact Hg1]; lia|done]].
  eapply ends_bind; [by apply (grow_memory d n)|]. intros [r2 st2] (Hg2&Hr2&[(-> & ->)|[-> Hx2]]); cbn [Z.ltb Z.compare].
  { split; [by eapply Hle; [|exact Hg1]; lia|done]. }
  destruct (grow_memory_ok _ _ Hg). unfold cnt in *. rewrite Hr2, Hr1. case_cmp; [lia|]. split; [done|congruence].
Qed.

(** With room in the reserved table for the arrays that are needed, growth does not stop. *)
Lemma grow_memory_room d n na ns st :
  growable (S n) st -> 0 <= na < two64 -> cnt (reserved st) + 3 <= max (reserved st) ->
  exists r st', memblock_double_array (S d) memory_id na ns st = Ret (r, st')
    /\ ((r = -1 /\ st' = st /\ stuck st)
        \/ (r = 0 /\ growable n st' /\ regions (memory st') = regions (memory st) /\ max (memory st') = 2 * max (memory st)
            /\ max (reserved st') = max (reserved st) /\ cnt (reserved st') <= cnt (reserved st) + 3)).
Proof using early.
  intros Hg Hna Hroom. destruct (double_array_cases d _ memory_id na ns st Hg Hna) as [[-> Hno]|(a&Ha&Hf&->)].
  { exists (-1), st. split; [done|]. left. auto. }
  destruct (finish_room (memblock_double_array d) n memory_id a st) as (st'&->&?&Hm&?&?&_); try done.
  exists 0, st'. split; [done|]. right. rewrite Hm. done.
Qed.

(** The first of [m], [2 * m] and [4 * m] that is not below [need]. *)
Definition room_for (need m : Z) : Z := if need <=? m then m else if need <=? 2 * m then 2 * m else 4 * m.

Lemma resize_memory_room d n extra base size st :
  growable (S (S n)) st -> 0 <= base < two64 -> extra <= cnt (memory st) + 1 -> cnt (reserved st) + 6 <= max (reserved st) ->
  exists r st', resize_loop (memblock_double_array (S d)) RESIZE_FUEL memory_id extra base size st = Ret (r, st')
    /\ cnt (memory st') <= max (memory st') /\ regions (memory st') = regions (memory st)
    /\ ((r = 0 /\ max (memory st') = room_for (cnt (memory st) + extra) (max (memory st)))
        \/ (r = - ENOMEM /\ max (memory st') < cnt (memory st) + extra /\ stuck st')).
Proof using early.
  intros Hg Hb Hex Hroom. destruct (grow_memory_ok _ _ Hg) as [_ Hc ? _ _].
  unfold RESIZE_FUEL. cbn [resize_loop get_type].
  case_cmp; [|exists 0, st; split_and!; try done; left; split; [done|unfold room_for; case_cmp; lia]].
  destruct (grow_memory_room d (S n) base size st) as (r1&st1&->&[(-> & -> & Hs)|(->&Hg1&Hr1&Hx1&Hx1'&Hc1)]); [done|done|lia|..];
    cbn [res_bind Z.ltb Z.compare]; [eexists _, st; split_and!; try done; by right|].
  assert (E1 : cnt (memory st1) = cnt (memory st)) by (unfold cnt; by rewrite Hr1).
  case_cmp; [|exists 0, st1; split_and!; try (done || lia); left; split; [done|unfold room_for; repeat case_cmp; lia]].
  destruct (grow_memory_room d n base size st1) as (r2&st2&->&[(-> & -> & Hs)|(->&Hg2&Hr2&Hx2&_)]); [done|done|lia|..];
    cbn [res_bind Z.ltb Z.compare].
  { eexists _, st1. split_and!; try (done || lia). right. split_and!; (done || lia). }
  assert (E2 : cnt (memory st2) = cnt (memory st1)) by (unfold cnt; by rewrite Hr2).
  case_cmp; [lia|]. exists 0, st2. split_and!; try (done || lia || congruence). left. split; [done|]. unfold room_for. repeat case_cmp; lia.
Qed.

(** * Adding memory *)

Lemma insert_ends t base endp nid flags :
  wf_type t -> sorted_from 0 (regions t) -> regions t <> [] -> cnt t <= max t -> 0 <= base < endp -> endp <= ULLONG_MAX ->
  ends (fun '(t2, nr2) => ends (fun _ => True) (if nr2 =? 0 then Ret t2 else memblock_merge_regions t2))
    (add_range_pass true t base endp nid flags).
Proof.
  intros Hwf Hs Hne Hc Hb He. destruct (add_range_pass true t base endp nid flags) as [[t2 nr2]| |] eqn:Ep; cbn [ends]; [|done|].
  - destruct (add_sorted base endp nid flags ltac:(lia) ltac:(lia) t t2 nr2) as (t3&->&_); done.
  - rewrite add_range_pass_insert in Ep; try done; try lia; [|by apply wf_total_range]. cbv zeta in Ep. by case_cmp_in Ep.
Qed.

Lemma add_from_none nid flags base endp : forall rs, endp <= base -> add_from nid flags base endp rs = rs.
Proof.
  intros rs. revert base. induction rs as [|r rs IH]; intros base Hle; cbn [add_from]; case_cmps; try done; try lia;
    rewrite IH by lia; done.
Qed.
(** What [memblock_add_range] does once the resize loop is done. *)
Lemma add_memory_cases st base size nid flags :
  wf_type (memory st) -> 0 <= base < two64 -> 0 <= size < two64 ->
  (cnt (memory st) <= max (memory st) -> 8 <= max (memory st) ->
   cnt (memory st) + nr_needed (memory st) base (capped_end base size) <= max (memory st))
  \/ (sorted_from 0 (regions (memory st)) /\ regions (memory st) <> []
      /\ base < capped_end base size <= ULLONG_MAX
      /\ memblock_add_range memory_id base size nid flags st
         = res_bind (resize_loop (memblock_double_array GROW_DEPTH) RESIZE_FUEL memory_id
                       (nr_needed (memory st) base (capped_end base size)) base (memblock_cap_size base size) st)
             (fun '(ret, st1) =>
                if ret <? 0 then Ret (ret, st1)
                else let* (t2, nr2) := add_range_pass true (memory st1) base (capped_end base size) nid flags in
                     if nr2 =? 0 then Ret (0, set_type st1 memory_id t2)
                     else let* t3 := memblock_merge_regions t2 in Ret (0, set_type st1 memory_id t3))).
Proof.
  intros Hwf Hb Hs. unfold memblock_add_range, memblock_add_range_with.
  destruct (capped_end_bounds base size) as (->&He&Hcap); [lia|lia|]. cbn [get_type].
  destruct (Z.eqb_spec (memblock_cap_size base size) 0) as [Ez|Hz].
  { left. intros ? _. unfold nr_needed, cnt in *. rewrite add_from_none by (unfold capped_end; lia). lia. }
  destruct (regions (memory st)) as [|r0 rs] eqn:Er.
  { pose proof (wf_regions_nonempty _ (proj1 Hwf)) as Hn. rewrite Er in Hn. cbn in Hn. lia. }
  destruct (wf_empty_or_sorted _ _ _ Hwf Er) as [[E0 ->]|[Hpos Hsort]].
  { left. intros _ ?. pose proof (nr_needed_le (memory st) base (capped_end base size)).
    assert (cnt (memory st) = 1) by (unfold cnt; by rewrite Er). lia. }
  destruct (Z.eqb_spec (r_size r0) 0); [lia|]. rewrite add_range_pass_count by done. cbn [res_bind].
  destruct (Z.eqb_spec (nr_needed (memory st) base (capped_end base size)) 0); [left; lia|].
  right. rewrite Er in Hsort. unfold capped_end in *. split_and!; try done; lia.
Qed.

Lemma add_memory_ends st base size nid flags :
  growable 10 st -> 0 <= base < two64 -> 0 <= size < two64 ->
  memblock_add_range memory_id base size nid flags st <> OutOfFuel
  /\ (cnt (reserved st) + 6 <= max (reserved st) ->
      exists r st', memblock_add_range memory_id base size nid flags st = Ret (r, st')
        /\ ((r = 0 /\ cnt (memory st) + nr_needed (memory st) base (capped_end base size) <= max (memory st')
             /\ max (memory st') = room_for (cnt (memory st) + nr_needed (memory st) base (capped_end base size)) (max (memory st)))
            \/ (r = - ENOMEM /\ max (memory st') < cnt (memory st) + nr_needed (memory st) base (capped_end base size)
                /\ stuck st'))).
Proof using early.
  intros Hg Hb Hs. destruct (grow_memory_ok _ _ Hg) as [Hwf Hc Hmin _ _].
  destruct (decide (cnt (memory st) + nr_needed (memory st) base (capped_end base size) <= max (memory st))) as [Hroom|Hno].
  { destruct (add_range_room st memory_id base size nid flags) as (t'&->&_&Em&_); try done. split; [done|]. intros _.
    eexists 0, _. split; [done|]. left. cbn in *. split_and!; [done|lia|]. unfold room_for. case_cmp; lia. }
  destruct (add_memory_cases st base size nid flags Hwf Hb Hs) as [Hsmall|(Hsort&Hne&He&->)]; [by destruct Hno; apply Hsmall|].
  pose proof (nr_needed_le (memory st) base (capped_end base size)) as Hnr. split.
  - pose proof (resize_memory 1 0 _ base (memblock_cap_size base size) st Hg Hb Hnr) as Hr.
    change (S (S 1)) with GROW_DEPTH in Hr. destruct (resize_loop _ _ _ _ _ _ _) as [[r st1]| |]; [|done|done].
    destruct Hr as [Hg1 Hr1]. cbn [res_bind]. case_cmp; [done|]. destruct (grow_memory_ok _ _ Hg1) as [Hwf1 Hc1 _ _ _].
    pose proof (insert_ends (memory st1) base (capped_end base size) nid flags) as Hi. rewrite Hr1 in Hi.
    specialize (Hi Hwf1 Hsort Hne Hc1 ltac:(lia) ltac:(lia)).
    destruct (add_range_pass true _ _ _ _ _) as [[t2 nr2]| |]; [|done|done]. cbn [res_bind ends] in *.
    destruct (nr2 =? 0); [done|]. by destruct (memblock_merge_regions t2).
  - intros Hroom. destruct (resize_memory_room 2 8 _ base (memblock_cap_size base size) st Hg Hb Hnr Hroom) as (r&st1&E&Hc1&Hr1&Hcase).
    change (S 2) with GROW_DEPTH in E. rewrite E. cbn [res_bind].
    apply resize_loop_framed in E as [Hf [[-> Hroom1]| ->]]; [| |apply double_array_framed].
    2: { eexists _, st1. split; [done|]. destruct Hcase as [[? _]|?]; [done|by right]. }
    destruct Hcase as [[_ Em]|[? _]]; [|done]. cbn [Z.ltb Z.compare get_type] in *.
    destruct (add_range_pass true (memory st1) base (capped_end base size) nid flags) as [[t2 nr2]| |] eqn:Ep.
    2-3: rewrite add_range_pass_insert in Ep; rewrite ?Hr1; try done; try lia;
         [|by apply wf_total_range; eapply frame_memory_wf]; cbv zeta in Ep; case_cmp_in Ep; [done|];
         unfold nr_needed, cnt in *; rewrite Hr1 in *; lia.
    cbn [res_bind].
    destruct (add_sorted base (capped_end base size) nid flags ltac:(lia) ltac:(lia) (memory st1) t2 nr2) as (t3&E3&_&Em3&_);
      try (by rewrite ?Hr1); try done; [by eapply frame_memory_wf|].
    exists 0, (set_type st1 memory_id t3).
    split; [destruct (nr2 =? 0); [by injection E3 as ->|by rewrite E3]|]. left. cbn.
    split_and!; [done| |congruence]. rewrite Em3, Em. unfold room_for. repeat case_cmp; lia.
Qed.
End Growth.
