(* ===== verification/MemblockSpec.v ===== *)
(** What mm/memblock.c promises: the theorems on the boot-time allocator, stated
    over the address map of its tables, with instances that run them on a small
    machine. *)

From S2P Require Import Prelude MemblockTable MemblockIter Memblock MemblockLimits MemblockGrowth.

(** * A small machine for the instances *)

(** One gigabyte of memory above the first page, no slab allocator yet. *)
Definition boot_env : BootEnv :=
  {| kernel_end := 16777216; slab_is_available := false; kmalloc_pa := fun _ => 0 |}.
Definition boot_memory : memblock_type :=
  mkType [mkRegion 4096 1000000 0 0; mkRegion 2097152 1073741824 0 0] 128 1074741824 None.
Definition boot_reserved : memblock_type :=
  mkType [mkRegion 8192 5000 0 1; mkRegion 16777216 4096 0 1] 128 9096 None.
Definition boot_state : memblock :=
  mkMemblock false ULLONG_MAX boot_memory boot_reserved true false false false.

Lemma boot_memory_wf : wf_type boot_memory.
Proof. split; [right; split; [done|]|done]. cbn. unfold ULLONG_MAX. lia. Qed.
Lemma boot_reserved_wf : wf_type boot_reserved.
Proof. split; [right; split; [done|]|done]. cbn. unfold ULLONG_MAX. lia. Qed.
Lemma boot_state_wf : wf_memblock boot_state.
Proof.
  split; [apply boot_memory_wf|apply boot_reserved_wf|vm_compute; reflexivity..|].
  cbn. unfold ULLONG_MAX. lia.
Qed.
Lemma boot_rounding start k : @rounding_safe boot_env boot_state start k.
Proof. discriminate 1. Qed.

(** * Adding *)

Section Add.
Context `{BootEnv}.

(** C16: [memblock_add_range] on a table with room for the new regions returns 0,
    keeps the table well formed (sorted, disjoint, non-empty regions, exact
    running total, count within capacity) and minimal if it was minimal, leaves
    the other table alone, and changes the address map exactly by giving the
    new attributes to those addresses of [base, base + size) that had none;
    without room, and with resizing not yet allowed, it returns -ENOMEM and
    changes nothing. *)
Theorem memblock_add_range_correct st ty base size nid flags :
  wf_type (get_type st ty) -> cnt (get_type st ty) <= max (get_type st ty) ->
  0 <= base < two64 -> 0 <= size < two64 ->
  (has_room (get_type st ty) base size ->
   exists t', memblock_add_range ty base size nid flags st = Ret (0, set_type st ty t')
    /\ wf_type t' /\ max t' = max (get_type st ty) /\ cnt t' <= max t'
    /\ (minimal (regions (get_type st ty)) -> minimal (regions t'))
    /\ forall a, attr_at (regions t') a
         = added (attr_at (regions (get_type st ty))) base (capped_end base size) nid flags a)
  /\ (~ has_room (get_type st ty) base size -> ~ is_dummy (regions (get_type st ty)) ->
      memblock_can_resize st = false ->
      memblock_add_range ty base size nid flags st = Ret (- ENOMEM, st)).
Proof.
  intros ? ? ? ?. split; [intros Hroom|by apply add_range_no_room].
  destruct (add_range_room st ty base size nid flags) as (t'&?&?&Hmax&?&?&?); [done..|].
  exists t'. split_and!; try done. unfold has_room in Hroom. lia.
Qed.

(** C30: with growth of the tables included, adding memory either succeeds, and
    then the memory table is well formed and its address map has gained exactly
    the new range, or returns -ENOMEM with the memory regions, their total and
    the allocator's settings unchanged.  Before the slab allocator is up it always
    comes to an end, however the growths of the two tables nest.  If the reserved
    table has six free slots (three for each new array), it returns: with the
    memory table doubled until it holds the old regions and the new ones and no
    further; or with -ENOMEM, and then the table is still too small and cannot be
    doubled in the state it returns, as resizing is not allowed or no free range
    below the limit holds the doubled array. *)
Theorem memblock_add_node_grows st base size nid :
  wf_type (memory st) -> 0 <= base < two64 -> 0 <= size < two64 ->
  (forall r st', memblock_add_node base size nid st = Ret (r, st') ->
     (r = 0 /\ wf_type (memory st')
      /\ forall a, attr_at (regions (memory st')) a
           = added (attr_at (regions (memory st))) base (capped_end base size) nid 0 a)
     \/ (r = - ENOMEM /\ memory_frame st st'))
  /\ (slab_is_available = false -> growable 10 st ->
      memblock_add_node base size nid st <> OutOfFuel
      /\ (cnt (reserved st) + 6 <= max (reserved st) ->
          exists r st', memblock_add_node base size nid st = Ret (r, st')
            /\ let need := cnt (memory st) + nr_needed (memory st) base (capped_end base size) in
               (r = 0 /\ need <= max (memory st') /\ max (memory st') = room_for need (max (memory st)))
               \/ (r = - ENOMEM /\ max (memory st') < need
                   /\ (memblock_can_resize st' = false \/ ~ array_space st')))).
Proof.
  intros Hwf Hb Hs. split; [intros r st'; by apply add_memory_growth|].
  intros Hearly Hg. exact (add_memory_ends Hearly st base size nid 0 Hg Hb Hs).
Qed.
End Add.

Lemma memblock_add_range_correct_witness :
  exists t', @memblock_add_range boot_env memory_id 1004096 2000000 0 0 boot_state
             = Ret (0, set_type boot_state memory_id t')
    /\ attr_at (regions t') 1500000 = Some (0, 0).
Proof.
  destruct (memblock_add_range_correct (H := boot_env) boot_state memory_id 1004096 2000000 0 0
              boot_memory_wf) as [Hok _]; [run..|].
  destruct Hok as (t'&E&_&_&_&_&Ha); [run|].
  exists t'. split; [exact E|]. rewrite Ha. run.
Defined.

(** The memory table is full, so that adding a region has to grow it first. *)
Definition eight_regions : list memblock_region :=
  (fun i => mkRegion (2097152 * (1 + Z.of_nat i)) 1048576 0 0) <$> seq 0 8.
Definition full_state (pa : option Z) (rsv : memblock_type) : memblock :=
  mkMemblock false ULLONG_MAX (mkType eight_regions 8 8388608 pa) rsv true false false false.

Lemma eight_regions_wf pa : wf_type (mkType eight_regions 8 8388608 pa).
Proof. split; [right; split; [done|]|done]. cbn. unfold ULLONG_MAX. lia. Qed.
Lemma full_state_growable : growable 10 (full_state None boot_reserved).
Proof.
  split; [split; [apply eight_regions_wf|run..|done]|split; [apply boot_reserved_wf|run..|done]|run|done].
Qed.

Lemma memblock_add_node_grows_witness :
  exists st', @memblock_add_node boot_env 2147483648 4096 1 (full_state None boot_reserved) = Ret (0, st')
    /\ attr_at (regions (memory st')) 2147483648 = Some (1, 0) /\ max (memory st') = 16.
Proof.
  destruct (memblock_add_node_grows (H := boot_env) (full_state None boot_reserved) 2147483648 4096 1) as [Hres Hend];
    [apply eight_regions_wf|run..|].
  destruct (Hend eq_refl full_state_growable) as [_ (r&st'&E&Hcase)]; [run|].
  assert (r = 0) as -> by (vm_compute in E; congruence). destruct Hcase as [(_&_&Hm)|(Hr&_)]; [|discriminate Hr].
  exists st'. split; [exact E|]. destruct (Hres _ _ E) as [(_&_&Ha)|(Hr&_)]; [|discriminate Hr].
  split; [rewrite Ha; run|]. rewrite Hm. run.
Defined.

(** Growing the memory table frees the old array before the new one is reserved.  If that
    makes the reserved table grow, its new array is put where the new array of the memory
    table already is. *)
Definition crowded_reserved : memblock_type :=
  mkType ((fun i => mkRegion (2097152 + 8192 * Z.of_nat i) 4096 0 1) <$> seq 0 8) 8 32768 None.

Example memblock_double_array_overlap :
  exists st' a, @memblock_add_node boot_env 2147483648 4096 0 (full_state (Some 2097152) crowded_reserved) = Ret (0, st')
    /\ regions_pa (memory st') = Some a /\ regions_pa (reserved st') = Some a.
Proof. eexists _, _. split; [vm_compute; reflexivity|]. split; reflexivity. Qed.

(** * Removing and updating *)

Section Update.
Context `{BootEnv}.

(** C26: [memblock_remove_range] (and so [memblock_remove] and [memblock_free])
    on a table with two free slots returns 0, keeps the table well formed with
    an exact running total, and forgets exactly the addresses of
    [base, base + size), splitting the regions that straddle an end. *)
Theorem memblock_remove_range_correct st ty base size :
  wf_type (get_type st ty) -> cnt (get_type st ty) + 2 <= max (get_type st ty) ->
  0 <= base < two64 -> 0 <= size < two64 ->
  exists t', memblock_remove_range ty base size st = Ret (0, set_type st ty t')
    /\ wf_type t' /\ max t' = max (get_type st ty) /\ cnt t' <= max t'
    /\ forall a, attr_at (regions t') a
         = removed (attr_at (regions (get_type st ty))) base (capped_end base size) a.
Proof. apply remove_range_room. Qed.

(** [memblock_setclr_flag] sets or clears one flag on exactly the memory of
    [base, base + size), [memblock_set_node] gives the node to exactly the
    addresses of the range that are in the table; both return 0, keep the table
    well formed and leave it minimal. *)
Theorem memblock_update_correct st base size set flag nid :
  wf_type (memory st) -> cnt (memory st) + 2 <= max (memory st) ->
  0 <= base < two64 -> 0 < memblock_cap_size base size ->
  (exists t', memblock_setclr_flag base size set flag st = Ret (0, set_type st memory_id t')
    /\ wf_type t' /\ minimal (regions t')
    /\ forall a, attr_at (regions t') a
         = rewritten (fun v => (v.1, if set then Z.lor v.2 flag else Z.land v.2 (w64 (Z.lnot flag))))
             (attr_at (regions (memory st))) base (capped_end base size) a)
  /\ (exists t', memblock_set_node base size memory_id nid st = Ret (0, set_type st memory_id t')
    /\ wf_type t' /\ minimal (regions t')
    /\ forall a, attr_at (regions t') a
         = rewritten (fun v => (nid, v.2)) (attr_at (regions (memory st))) base (capped_end base size) a).
Proof.
  intros Hwf Hc Hb Hs. split.
  - destruct (update_range_room st memory_id base size
                (fun r => if set then memblock_set_region_flags r flag
                          else memblock_clear_region_flags r flag)
                (fun v => (v.1, if set then Z.lor v.2 flag else Z.land v.2 (w64 (Z.lnot flag)))))
      as (t'&?&?&?&?&?&?); [by intros; destruct set..|done|done|done|done|].
    exists t'. by split_and!.
  - destruct (update_range_room st memory_id base size
                (fun r => memblock_set_region_node r nid) (fun v => (nid, v.2)))
      as (t'&?&?&?&?&?&?); [done..|]. exists t'. by split_and!.
Qed.
End Update.

Lemma memblock_remove_range_correct_witness :
  exists t', @memblock_remove_range boot_env memory_id 500000 4000000 boot_state
             = Ret (0, set_type boot_state memory_id t')
    /\ attr_at (regions t') 499999 = Some (0, 0) /\ attr_at (regions t') 500000 = None
    /\ attr_at (regions t') 4500000 = Some (0, 0).
Proof.
  destruct (memblock_remove_range_correct (H := boot_env) boot_state memory_id 500000 4000000
              boot_memory_wf) as (t'&E&_&_&_&Ha); [run..|].
  exists t'. split; [exact E|]. rewrite !Ha. run.
Defined.

Lemma memblock_update_correct_witness :
  exists t', @memblock_setclr_flag boot_env 4096 8192 true MEMBLOCK_HOTPLUG boot_state
             = Ret (0, set_type boot_state memory_id t')
    /\ attr_at (regions t') 8192 = Some (0, 1) /\ attr_at (regions t') 12288 = Some (0, 0).
Proof.
  destruct (memblock_update_correct (H := boot_env) boot_state 4096 8192 true MEMBLOCK_HOTPLUG 0
              boot_memory_wf) as [(t'&E&_&_&Ha) _]; [run..|].
  exists t'. split; [exact E|]. rewrite !Ha. run.
Defined.

(** * Walking the free memory, finding and allocating *)

(** C20: the forward and reverse walks over free memory stop at nothing but the
    body's result, visit disjoint ranges in increasing, respectively decreasing
    order, cover exactly the addresses of eligible memory that are not reserved,
    and never split a block that is free inside one memory region. *)
Theorem for_each_free_mem_range_correct nid flags mem rsv :
  wf_regions (regions mem) -> wf_regions (regions rsv) ->
  cnt mem < 2147483647 -> cnt rsv < 2147483647 ->
  (exists l, (forall A (body : Z * Z * Z -> option A),
                for_each_free_mem_range mem rsv nid flags body = Ret (first_some body l))
     /\ increasing l /\ free_ranges nid flags mem rsv l)
  /\ (exists l, (forall A (body : Z * Z * Z -> option A),
                   for_each_free_mem_range_reverse mem rsv nid flags body = Ret (first_some body l))
     /\ decreasing l /\ free_ranges nid flags mem rsv l).
Proof. split; [by apply for_each_free_spec|by apply for_each_free_reverse_spec]. Qed.

Lemma for_each_free_mem_range_correct_witness :
  exists l, for_each_free_mem_range boot_memory boot_reserved NUMA_NO_NODE 0
              (fun r => if r.1.1 =? 13192 then Some r else None)
            = Ret (Some (13192, 1004096, 0))
    /\ free_ranges NUMA_NO_NODE 0 boot_memory boot_reserved l /\ covered l 5000.
Proof.
  destruct (for_each_free_mem_range_correct NUMA_NO_NODE 0 boot_memory boot_reserved
              (proj1 boot_memory_wf) (proj1 boot_reserved_wf)) as [(l&_&_&Hl) _]; [run|run|].
  exists l. split; [run|]. split; [exact Hl|].
  apply (proj1 Hl); [lia|]. split; [|run].
  exists (mkRegion 4096 1000000 0 0). split; [apply list_elem_of_here|]. split; [run|]. cbn. lia.
Defined.

Section Alloc.
Context `{BootEnv}.

(** C21: [memblock_find_in_range_node] returns an address whose block is aligned,
    inside the requested bounds and one eligible memory region, free of
    reservations and above the first page, and returns 0 only when no such
    block exists; allocating top-down, it is the highest such block. *)
Theorem memblock_find_in_range_node_correct st size k start endp nid flags :
  wf_memblock st -> 0 <= k < 64 -> 0 < size <= ULLONG_MAX ->
  0 <= start <= ULLONG_MAX -> 0 <= endp <= ULLONG_MAX -> rounding_safe st start k ->
  exists c, memblock_find_in_range_node st size (2 ^ k) start endp nid flags = Ret c
    /\ ((c = 0 /\ forall c', ~ usable nid flags (memory st) (reserved st)
                                (req_start start) (req_end st start endp) size (2 ^ k) c')
        \/ (PAGE_SIZE <= c /\ usable nid flags (memory st) (reserved st)
                        (req_start start) (req_end st start endp) size (2 ^ k) c
            /\ (bottom_up st = false -> forall c',
                  usable nid flags (memory st) (reserved st)
                    (req_start start) (req_end st start endp) size (2 ^ k) c' -> c' <= c))).
Proof.
  intros Hwf Hk Hz Hs He Hr.
  destruct (find_in_range_node_spec st size k start endp nid flags Hwf Hk Hz Hs He Hr)
    as (c&E&[[-> Hno]|[Hc Hok]]); exists c || exists 0; (split; [done|]); [by left|right].
  split_and!; [destruct Hok as (_&?&_); unfold req_start in *; lia|done|].
  intros Hbu. pose proof (req_bounds st start endp Hwf Hs He) as [Hlo Hhi].
  unfold memblock_find_in_range_node in E. rewrite Hbu in E. cbn [andb] in E.
  fold (req_start start) (req_end st start endp) in E. destruct Hwf as [[Hm _] [Hrs _] Hcm Hcr _].
  destruct (find_top_down_spec nid flags (memory st) (reserved st) (req_start start)
              (req_end st start endp) size k Hm Hrs Hcm Hcr Hk Hlo Hhi Hz) as (c'&E'&Htd).
  unfold req_end, req_start in *. rewrite E in E'. injection E' as <-.
  destruct Htd as [[-> _]|(_&_&?)]; [lia|done].
Qed.

(** C15: with a free slot in the reserved table [memblock_alloc_range_nid] either
    returns 0 with the state unchanged because no suitable block exists, or an
    aligned block inside the bounds and inside eligible memory that was wholly
    unreserved; afterwards exactly the block's bytes are reserved in addition. *)
Theorem memblock_alloc_range_nid_correct st size k start endp nid flags :
  wf_memblock st -> 0 <= k < 64 -> 0 < size <= ULLONG_MAX ->
  0 <= start <= ULLONG_MAX -> 0 <= endp <= ULLONG_MAX -> rounding_safe st start k ->
  cnt (reserved st) + 1 <= max (reserved st) ->
  exists c st', memblock_alloc_range_nid size (2 ^ k) start endp nid flags st = Ret (c, st')
    /\ ((c = 0 /\ st' = st /\ forall c', ~ usable nid flags (memory st) (reserved st)
                                (req_start start) (req_end st start endp) size (2 ^ k) c')
        \/ (0 < c /\ usable nid flags (memory st) (reserved st)
                        (req_start start) (req_end st start endp) size (2 ^ k) c
            /\ exists t', st' = set_type st reserved_id t' /\ wf_type t'
                 /\ forall a, attr_at (regions t') a
                      = added (attr_at (regions (reserved st))) c (c + size) MAX_NUMNODES 0 a)).
Proof.
  intros Hwf Hk Hz Hs He Hr Hc.
  destruct (alloc_range_nid_room st size k start endp nid flags Hwf Hk Hz Hs He Hr Hc)
    as (c&st'&E&[?|(?&?&t'&?&?&_&_&?)]); exists c, st'; (split; [done|]); [by left|right].
  split_and!; try done. by exists t'.
Qed.

(** C31: with three free slots in the reserved table, freeing what was just allocated gives
    back the reserved address map the allocator started from. *)
Theorem memblock_alloc_free_roundtrip st size k start endp nid flags c st1 :
  wf_memblock st -> 0 <= k < 64 -> 0 < size <= ULLONG_MAX ->
  0 <= start <= ULLONG_MAX -> 0 <= endp <= ULLONG_MAX -> rounding_safe st start k ->
  cnt (reserved st) + 3 <= max (reserved st) ->
  memblock_alloc_range_nid size (2 ^ k) start endp nid flags st = Ret (c, st1) -> c <> 0 ->
  exists st2, memblock_free c size st1 = Ret (0, st2) /\ memory st2 = memory st
    /\ wf_type (reserved st2)
    /\ forall a, attr_at (regions (reserved st2)) a = attr_at (regions (reserved st)) a.
Proof.
  intros Hwf Hk Hz Hs He Hr Hc E Hc0.
  destruct (alloc_range_nid_room st size k start endp nid flags Hwf Hk Hz Hs He Hr ltac:(lia))
    as (c'&st'&E'&Hcase). rewrite E in E'. injection E' as <- <-.
  destruct Hcase as [[? _]|(Hpos&(_&Hlo&Hhi&[_ Hfree])&t'&->&Hwt&Hmax&Hcnt&Hattr)]; [done|].
  pose proof (req_bounds st start endp Hwf Hs He) as [_ Hend].
  destruct (remove_range_room (set_type st reserved_id t') reserved_id c size)
    as (t2&E2&Hw2&_&_&Ha2); cbn [get_type set_type reserved]; try done; try lia;
    try (unfold two64, ULLONG_MAX in *; lia).
  exists (set_type (set_type st reserved_id t') reserved_id t2). split_and!; try done.
  intros a. cbn [set_type reserved]. rewrite Ha2. cbn [get_type set_type reserved].
  unfold removed. rewrite Hattr. unfold added.
  replace (capped_end c size) with (c + size) by (unfold capped_end, memblock_cap_size; lia).
  destruct (Z.leb_spec c a), (Z.ltb_spec a (c + size)); cbn [andb];
    [by rewrite Hfree by lia|by destruct (attr_at _ a)..].
Qed.
End Alloc.

Lemma memblock_find_in_range_node_correct_witness :
  @memblock_find_in_range_node boot_env boot_state 4096 (2 ^ 12) 0 0 NUMA_NO_NODE 0 = Ret 1075834880
  /\ forall c', usable NUMA_NO_NODE 0 boot_memory boot_reserved 4096 ULLONG_MAX 4096 (2 ^ 12) c' ->
                c' <= 1075834880.
Proof.
  destruct (memblock_find_in_range_node_correct (H := boot_env) boot_state 4096 12 0 0 NUMA_NO_NODE 0
              boot_state_wf) as (c&E&Hc); [run|run|run|run|apply boot_rounding|].
  vm_compute in E. injection E as <-. split; [run|].
  destruct Hc as [[? _]|(_&_&Hmax)]; [discriminate|]. exact (Hmax eq_refl).
Defined.

Lemma memblock_alloc_range_nid_correct_witness :
  exists c st', @memblock_alloc_range_nid boot_env 65536 (2 ^ 16) 0 4194304 NUMA_NO_NODE 0 boot_state
                = Ret (c, st') /\ c = 4128768 /\ attr_at (regions (reserved st')) 4190000 = Some (1, 0).
Proof.
  destruct (memblock_alloc_range_nid_correct (H := boot_env) boot_state 65536 16 0 4194304 NUMA_NO_NODE 0
              boot_state_wf) as (c&st'&E&Hc); [run|run|run|run|apply boot_rounding|run|].
  exists c, st'. split; [exact E|].
  assert (c = 4128768) as -> by (vm_compute in E; congruence). split; [reflexivity|].
  destruct Hc as [[? _]|(_&_&t'&->&_&Ha)]; [discriminate|].
  cbn [set_type reserved]. rewrite Ha. run.
Defined.

Lemma memblock_alloc_free_roundtrip_witness :
  exists c st1 st2,
    @memblock_alloc_range_nid boot_env 4096 (2 ^ 12) 0 0 NUMA_NO_NODE 0 boot_state = Ret (c, st1)
    /\ @memblock_free boot_env c 4096 st1 = Ret (0, st2)
    /\ forall a, attr_at (regions (reserved st2)) a = attr_at (regions boot_reserved) a.
Proof.
  eexists 1075834880, _. unshelve (epose proof (memblock_alloc_free_roundtrip (H := boot_env)
    boot_state 4096 12 0 0 NUMA_NO_NODE 0 1075834880 _ boot_state_wf _ _ _ _ (boot_rounding 0 12) _
    _ _) as (st2&E&_&_&Ha)); [shelve|run|run|run|run|run|vm_compute; reflexivity|discriminate|].
  exists st2. split; [vm_compute; reflexivity|]. split; [exact E|exact Ha].
Defined.

(** * Queries *)

(** the binary search behind the [memblock_is_*] queries is right: an address
    is reported as memory, respectively reserved, exactly when it lies in the
    table; [memblock_is_map_memory] further asks that it is not NOMAP;
    [memblock_is_region_memory] that one region holds the whole range;
    [memblock_is_region_reserved] that some byte of the range is reserved. *)
Theorem memblock_queries_correct st addr size :
  wf_memblock st -> 0 <= addr -> 0 < size -> addr + size <= ULLONG_MAX ->
  memblock_is_memory addr st = Ret (bool_decide (attr_at (regions (memory st)) addr <> None))
  /\ memblock_is_reserved addr st = Ret (bool_decide (attr_at (regions (reserved st)) addr <> None))
  /\ memblock_is_map_memory addr st
     = Ret match attr_at (regions (memory st)) addr with
           | Some (_, flags) => Z.land flags MEMBLOCK_NOMAP =? 0
           | None => false
           end
  /\ (exists b, memblock_is_region_memory addr size st = Ret b
        /\ (b = true <-> exists r, r ∈ regions (memory st) /\ r_base r <= addr
                                   /\ addr + size <= r_base r + r_size r))
  /\ (memblock_is_region_reserved addr size st = true
      <-> exists a, addr <= a < addr + size /\ attr_at (regions (reserved st)) a <> None).
Proof.
  intros Hwf Ha Hz He. destruct Hwf as [[Hm _] [Hr _] Hcm Hcr _].
  assert (Hcap : memblock_cap_size addr size = size) by (unfold memblock_cap_size; lia).
  assert (Hmem : forall t, wf_regions (regions t) -> cnt t < 2147483647 ->
     res_map (fun i => negb (i =? -1)) (memblock_search t addr)
     = Ret (bool_decide (attr_at (regions t) addr <> None))).
  { intros t Ht Hc. destruct (memblock_search_spec t addr Ht ltac:(lia) Ha)
      as [(i&r&->&_&_&->)|[-> ->]]; [|done].
    unfold res_map. cbn [res_bind]. rewrite bool_decide_eq_true_2 by done. case_cmp; [lia|done]. }
  split; [by apply Hmem|]. split; [by apply Hmem|].
  unfold memblock_is_map_memory, memblock_is_region_memory.
  rewrite Hcap, w64_small by (unfold two64, ULLONG_MAX in *; lia).
  destruct (memblock_search_spec (memory st) addr Hm ltac:(lia) Ha)
    as [(i&r&->&Hi&Hin&Hattr)|[-> Hattr]]; rewrite Hattr; cbn [res_bind].
  - case_cmp; [lia|]. rewrite Nat2Z.id, Hi. split_and!; [unfold memblock_is_nomap; by rewrite negb_involutive| |].
    + eexists; split; [done|]. apply (is_region_memory_iff _ i); done || lia.
    + unfold memblock_is_region_reserved. rewrite Hcap. by apply overlaps_region_spec.
  - split_and!; [done| |].
    + exists false. split; [done|]. split; [done|]. intros (r&[i Hi]%list_elem_of_lookup&?&?).
      exfalso. by apply (attr_at_None _ i r addr Hattr Hi); lia.
    + unfold memblock_is_region_reserved. rewrite Hcap. by apply overlaps_region_spec.
Qed.

Lemma memblock_queries_correct_witness :
  memblock_is_memory 5000 boot_state = Ret true /\ memblock_is_region_reserved 13191 1 boot_state = true.
Proof.
  destruct (memblock_queries_correct boot_state 5000 8192 boot_state_wf) as (E&_); [run..|].
  destruct (memblock_queries_correct boot_state 13191 1 boot_state_wf) as (_&_&_&_&Hres); [run..|].
  split; [rewrite E; run|]. apply Hres. exists 13191. run.
Defined.

(** * Limits *)

(** [memblock_enforce_memory_limit] leaves exactly [limit] bytes of memory,
    or all of it if there is less: it cuts both address maps at one address and
    keeps everything below. *)
Theorem memblock_enforce_memory_limit_correct `{BootEnv} st limit :
  wf_type (memory st) -> wf_type (reserved st) ->
  cnt (memory st) + 2 <= max (memory st) -> cnt (reserved st) + 2 <= max (reserved st) ->
  0 < limit <= ULLONG_MAX ->
  exists st' top, memblock_enforce_memory_limit limit st = Ret st'
    /\ wf_type (memory st') /\ wf_type (reserved st')
    /\ memblock_phys_mem_size st' = Z.min limit (memblock_phys_mem_size st)
    /\ (forall a, attr_at (regions (memory st')) a = cut_at (attr_at (regions (memory st))) top a)
    /\ (forall a, attr_at (regions (reserved st')) a = cut_at (attr_at (regions (reserved st))) top a).
Proof. apply enforce_memory_limit_room. Qed.

Lemma memblock_enforce_memory_limit_correct_witness :
  exists st', @memblock_enforce_memory_limit boot_env 3000000 boot_state = Ret st'
    /\ memblock_phys_mem_size st' = 3000000.
Proof.
  destruct (memblock_enforce_memory_limit_correct (H := boot_env) boot_state 3000000
              boot_memory_wf boot_reserved_wf) as (st'&top&E&_&_&Hsz&_); [run..|].
  exists st'. split; [exact E|]. rewrite Hsz. run.
Defined.

(** [memblock_trim_memory] to a power of two keeps the table sorted and
    disjoint, makes every region start and end aligned, and keeps an address
    exactly when the aligned interior of its region holds it; the running total
    is lowered by the size of the regions it drops only. *)
Theorem memblock_trim_memory_correct st k :
  0 <= k < 64 -> wf_type (memory st) -> ~ is_dummy (regions (memory st)) ->
  Forall (trim_room k) (regions (memory st)) ->
  exists t', memblock_trim_memory (2 ^ k) st = Ret (set_type st memory_id t')
    /\ wf_regions (regions t')
    /\ (forall r, r ∈ regions t' -> r_base r mod 2 ^ k = 0 /\ (r_base r + r_size r) mod 2 ^ k = 0)
    /\ (forall a v, attr_at (regions t') a = Some v <->
          exists r, r ∈ regions (memory st) /\ v = (r_nid r, r_flags r)
                    /\ up k (r_base r) <= a < down k (r_base r + r_size r))
    /\ total_size t' = total_size (memory st) - dropped (2 ^ k) (regions (memory st)).
Proof.
  intros Hk [[?|[Hne Hs]] Htot] Hnd Hroom; [done|].
  pose proof (sum_sizes_bound 0 _ ltac:(unfold ULLONG_MAX; lia) Hs) as Hsum.
  unfold memblock_trim_memory.
  rewrite (trim_loop_eq k Hk (regions (memory st)) _ [] 0); try done; try lia;
    [|by destruct (regions (memory st))|unfold two64, ULLONG_MAX in *; lia].
  pose proof (trim_sorted k Hk 0 _ ltac:(lia) Hs Hroom) as Hts.
  eexists; split; [done|]. cbn [regions total_size app res_bind]. split_and!.
  - by apply or_dummy_wf.
  - intros r [->|Hr]%or_dummy_elem; [by rewrite Z.mod_0_l by (pose proof (pow_k k Hk); lia)|].
    apply (trim_elem k Hk 0) in Hr as (r0&_&->&_&->&_); [|lia|done..].
    split; [apply up_bounds|apply down_bounds]; done.
  - intros a v. rewrite or_dummy_attr. by apply trim_attr.
  - rewrite w64_small; [done|].
    pose proof (dropped_bound (2 ^ k) 0 _ Hs). unfold two64, ULLONG_MAX in *. lia.
Qed.

Lemma memblock_trim_memory_correct_witness :
  exists t', memblock_trim_memory (2 ^ 12) boot_state = Ret (set_type boot_state memory_id t')
    /\ forall a v, attr_at (regions t') a = Some v <->
          exists r, r ∈ regions boot_memory /\ v = (r_nid r, r_flags r)
                    /\ up 12 (r_base r) <= a < down 12 (r_base r + r_size r).
Proof.
  destruct (memblock_trim_memory_correct boot_state 12) as (t'&E&_&_&Ha&_);
    [run|exact boot_memory_wf|intros [nid E]; discriminate E|repeat constructor; run|].
  exists t'. split; [exact E|exact Ha].
Defined.

(** Trimming a region shortens it without lowering [total_size]: on a
    machine with one unaligned region the size [memblock_phys_mem_size] reports
    afterwards is larger than the memory the table holds. *)
Theorem memblock_trim_memory_total_stale :
  exists t', memblock_trim_memory 4096 boot_state = Ret (set_type boot_state memory_id t')
    /\ sum_sizes (regions t') < total_size t' /\ ~ wf_type t'.
Proof.
  eexists. split; [vm_compute; reflexivity|]. split; [run|]. intros [_ E]. discriminate E.
Qed.
