(* ===== verification/FindBit.v ===== *)
(** Bit searches: the word primitives of include/asm-generic/bitops and the
    searches of lib/find_bit.c over arrays of unsigned longs.

    A bitmap is the list of its words, each a [Z] in [0, 2^64).  Reads and writes
    go through [load] and [store], which are a [BUG] outside the array: a theorem
    that a routine returns also shows that it stays inside it. *)

From S2P Require Import Prelude.

Definition BITS_PER_LONG : Z := 64.
Definition ULONG_MAX : Z := 18446744073709551615.

Definition load (addr : list Z) (k : Z) : res Z :=
  match addr !! Z.to_nat k with
  | Some w => if 0 <=? k then Ret w else BUG
  | None => BUG
  end.
Definition store (addr : list Z) (k w : Z) : res (list Z) :=
  if (0 <=? k) && (k <? Z.of_nat (length addr)) then Ret (<[Z.to_nat k := w]> addr) else BUG.

(** * Words *)

(** if ((word & mask) == 0) { num += n; word >>= n; } *)
Definition ffs_step (n : Z) (s : Z * Z) : Z * Z :=
  let '(num, word) := s in
  if Z.land word (Z.ones n) =? 0 then (num + n, Z.shiftr word n) else (num, word).
Definition __ffs (word : Z) : Z :=
  let '(num, word) := ffs_step 2 (ffs_step 4 (ffs_step 8 (ffs_step 16 (ffs_step 32 (0, word))))) in
  if Z.land word 1 =? 0 then num + 1 else num.
Definition ffz (word : Z) : Z := __ffs (w64 (Z.lnot word)).

(** if (!(word & (~0ul << (BITS_PER_LONG-n)))) { num -= n; word <<= n; } *)
Definition fls_step (n : Z) (s : Z * Z) : Z * Z :=
  let '(num, word) := s in
  if Z.land word (w64 (Z.shiftl ULONG_MAX (BITS_PER_LONG - n))) =? 0
  then (num - n, w64 (Z.shiftl word n)) else (num, word).
Definition __fls (word : Z) : Z :=
  let '(num, word) :=
    fls_step 2 (fls_step 4 (fls_step 8 (fls_step 16 (fls_step 32 (BITS_PER_LONG - 1, word))))) in
  if Z.land word (w64 (Z.shiftl ULONG_MAX (BITS_PER_LONG - 1))) =? 0 then num - 1 else num.

(** * Masks (include/linux/bitmap.h) *)

Definition BITMAP_FIRST_WORD_MASK (start : Z) : Z :=
  w64 (Z.shiftl ULONG_MAX (Z.land start (BITS_PER_LONG - 1))).
Definition BITMAP_LAST_WORD_MASK (nbits : Z) : Z :=
  Z.shiftr ULONG_MAX (Z.land (- nbits) (BITS_PER_LONG - 1)).
Definition BITS_TO_LONGS (nbits : Z) : Z := (nbits + BITS_PER_LONG - 1) / BITS_PER_LONG.

(** * lib/find_bit.c *)

Fixpoint find_next_loop (fuel : nat) (addr : list Z) (nbits start tmp invert : Z) : res Z :=
  match fuel with
  | O => OutOfFuel
  | S fuel' =>
      if tmp =? 0 then
        let start := w64 (start + BITS_PER_LONG) in
        if nbits <=? start then Ret nbits
        else
          let* w := load addr (start / BITS_PER_LONG) in
          find_next_loop fuel' addr nbits start (Z.lxor w invert) invert
      else Ret (Z.min (w64 (start + __ffs tmp)) nbits)
  end.

(** One turn per word at most. *)
Definition _find_next_bit (addr : list Z) (nbits start invert : Z) : res Z :=
  if nbits <=? start then Ret nbits
  else
    let* w := load addr (start / BITS_PER_LONG) in
    let tmp := Z.land (Z.lxor w invert) (BITMAP_FIRST_WORD_MASK start) in
    find_next_loop (S (length addr)) addr nbits (round_down start BITS_PER_LONG) tmp invert.

Definition find_next_bit (addr : list Z) (size offset : Z) : res Z := _find_next_bit addr size offset 0.
Definition find_next_zero_bit (addr : list Z) (size offset : Z) : res Z :=
  _find_next_bit addr size offset ULONG_MAX.

Fixpoint find_first_loop (fuel : nat) (zero : bool) (addr : list Z) (idx size : Z) : res Z :=
  match fuel with
  | O => OutOfFuel
  | S fuel' =>
      if w64 (idx * BITS_PER_LONG) <? size then
        let* w := load addr idx in
        if zero then
          if negb (w =? ULONG_MAX) then Ret (Z.min (w64 (idx * BITS_PER_LONG + ffz w)) size)
          else find_first_loop fuel' zero addr (idx + 1) size
        else
          if negb (w =? 0) then Ret (Z.min (w64 (idx * BITS_PER_LONG + __ffs w)) size)
          else find_first_loop fuel' zero addr (idx + 1) size
      else Ret size
  end.
Definition find_first_bit (addr : list Z) (size : Z) : res Z :=
  find_first_loop (S (length addr)) false addr 0 size.
Definition find_first_zero_bit (addr : list Z) (size : Z) : res Z :=
  find_first_loop (S (length addr)) true addr 0 size.

(** do { val &= addr[idx]; if (val) return ...; val = ~0ul; } while (idx--); *)
Fixpoint find_last_loop (n : nat) (addr : list Z) (val size : Z) : res Z :=
  let* w := load addr (Z.of_nat n) in
  let v := Z.land val w in
  if negb (v =? 0) then Ret (w64 (Z.of_nat n * BITS_PER_LONG + __fls v))
  else match n with
       | O => Ret size
       | S n' => find_last_loop n' addr ULONG_MAX size
       end.
Definition find_last_bit (addr : list Z) (size : Z) : res Z :=
  if negb (size =? 0) then
    find_last_loop (Z.to_nat ((size - 1) / BITS_PER_LONG)) addr (BITMAP_LAST_WORD_MASK size) size
  else Ret size.

(** * What a search promises *)

(** Bit [i] of the bitmap. *)
Definition bit (addr : list Z) (i : Z) : bool :=
  Z.testbit (nth (Z.to_nat (i / 64)) addr 0) (i mod 64).

Definition words (addr : list Z) : Prop := Forall (fun w => 0 <= w < two64) addr.
(** The array holds [nbits] bits, and [nbits] fits in an unsigned int. *)
Definition holds (addr : list Z) (nbits : Z) : Prop :=
  words addr /\ 0 <= nbits <= 64 * Z.of_nat (length addr) /\ nbits < two32.

(** [r] is the first index from [start] on with [p], or [nbits]. *)
Definition first_from (p : Z -> bool) (start nbits r : Z) : Prop :=
  (r = nbits /\ forall i, start <= i < nbits -> p i = false)
  \/ (start <= r < nbits /\ p r = true /\ forall i, start <= i < r -> p i = false).
(** [r] is the last index below [nbits] with [p], or [nbits]. *)
Definition last_below (p : Z -> bool) (nbits r : Z) : Prop :=
  (r = nbits /\ forall i, 0 <= i < nbits -> p i = false)
  \/ (0 <= r < nbits /\ p r = true /\ forall i, r < i < nbits -> p i = false).

(** * Words, bit by bit *)

Lemma testbit_word w i : 0 <= w < two64 -> 64 <= i -> Z.testbit w i = false.
Proof.
  intros Hw Hi. rewrite <- (w64_small w) by done. rewrite w64_testbit by lia.
  case_cmp; [lia|done].
Qed.

Lemma ULONG_MAX_testbit i : 0 <= i -> Z.testbit ULONG_MAX i = (i <? 64).
Proof. intros. change ULONG_MAX with (Z.ones 64). rewrite Z.testbit_ones by lia. lia. Qed.

Lemma pos_bit w : 0 < w -> exists i, 0 <= i /\ Z.testbit w i = true.
Proof. intros. exists (Z.log2 w). split; [apply Z.log2_nonneg|by apply Z.bit_log2]. Qed.

Lemma land_zero_iff w m :
  0 <= w -> 0 <= m -> Z.land w m = 0 <-> forall i, 0 <= i -> Z.testbit m i = true -> Z.testbit w i = false.
Proof.
  intros Hw Hm. split.
  - intros E i Hi Ht. assert (Z.testbit (Z.land w m) i = false) as Hf by (rewrite E; apply Z.bits_0).
    rewrite Z.land_spec, Ht, andb_true_r in Hf. done.
  - intros Hz. apply Z.bits_inj'. intros i Hi. rewrite Z.land_spec, Z.bits_0.
    destruct (Z.testbit m i) eqn:E; [|apply andb_false_r]. by rewrite Hz.
Qed.

(** ** __ffs *)

(** The search state of [__ffs]: the bits of [w] below [num] are clear, [word] is
    [w] shifted, and has a bit set below [n]. *)
Definition ffs_inv (w n : Z) (s : Z * Z) : Prop :=
  let '(num, word) := s in
  0 <= num /\ word = Z.shiftr w num /\ (forall i, 0 <= i < num -> Z.testbit w i = false)
  /\ exists i, 0 <= i < n /\ Z.testbit word i = true.

Lemma ffs_step_inv w n s : 0 <= w -> 0 < n -> ffs_inv w (2 * n) s -> ffs_inv w n (ffs_step n s).
Proof.
  intros Hw Hn. destruct s as [num word]. intros (Hnum&->&Hlow&i&Hi&Ht). unfold ffs_step.
  assert (0 <= Z.shiftr w num) by (by apply Z.shiftr_nonneg).
  assert (0 <= Z.ones n) by (rewrite Z.ones_equiv; pose proof (Z.pow_pos_nonneg 2 n); lia).
  destruct (Z.eqb_spec (Z.land (Z.shiftr w num) (Z.ones n)) 0) as [E|E].
  - rewrite land_zero_iff in E by done.
    assert (Hz : forall j, 0 <= j < n -> Z.testbit (Z.shiftr w num) j = false).
    { intros j Hj. apply E; [lia|]. rewrite Z.testbit_ones by lia. lia. }
    unfold ffs_inv. split_and!; [lia|by rewrite Z.shiftr_shiftr by lia| |].
    + intros j Hj. destruct (Z.lt_ge_cases j num); [apply Hlow; lia|].
      specialize (Hz (j - num) ltac:(lia)). rewrite Z.shiftr_spec in Hz by lia.
      by replace (j - num + num) with j in Hz by lia.
    + exists (i - n). destruct (Z.lt_ge_cases i n); [by rewrite Hz in Ht by lia|].
      split; [lia|]. rewrite Z.shiftr_spec by lia. by replace (i - n + n) with i by lia.
  - split_and!; try done. destruct (pos_bit (Z.land (Z.shiftr w num) (Z.ones n))) as (j&Hj&Hb).
    { assert (0 <= Z.land (Z.shiftr w num) (Z.ones n)) by (apply Z.land_nonneg; lia). lia. }
    rewrite Z.land_spec, Z.testbit_ones in Hb by lia. exists j. lia.
Qed.

Lemma __ffs_spec w :
  0 < w < two64 ->
  0 <= __ffs w < 64 /\ Z.testbit w (__ffs w) = true /\ forall i, 0 <= i < __ffs w -> Z.testbit w i = false.
Proof.
  intros Hw.
  assert (ffs_inv w 64 (0, w)) as H.
  { unfold ffs_inv. split_and!; [lia|by rewrite Z.shiftr_0_r|lia|].
    destruct (pos_bit w) as (i&?&Hb); [lia|]. exists i. split; [|done].
    destruct (Z.lt_ge_cases i 64); [lia|]. by rewrite testbit_word in Hb by lia. }
  apply (ffs_step_inv w 32) in H; [|lia|lia].
  apply (ffs_step_inv w 16) in H; [|lia|lia].
  apply (ffs_step_inv w 8) in H; [|lia|lia].
  apply (ffs_step_inv w 4) in H; [|lia|lia].
  apply (ffs_step_inv w 2) in H; [|lia|lia].
  apply (ffs_step_inv w 1) in H; [|lia|lia].
  assert (__ffs w = fst (ffs_step 1 (ffs_step 2 (ffs_step 4 (ffs_step 8 (ffs_step 16 (ffs_step 32 (0, w)))))))) as ->.
  { unfold __ffs. destruct (ffs_step 2 _) as [num word]. cbn [ffs_step]. change (Z.ones 1) with 1.
    by destruct (Z.land word 1 =? 0). }
  destruct (ffs_step 1 _) as [num word]. destruct H as (Hn&->&Hlow&i&Hi&Hb). cbn [fst].
  rewrite Z.shiftr_spec in Hb by lia. replace (i + num) with num in Hb by lia. split_and!; try done.
  destruct (Z.lt_ge_cases num 64); [done|]. by rewrite testbit_word in Hb by lia.
Qed.

(** ** __fls *)

(** The mask [~0ul << (64 - n)] selects the top [n] bits. *)
Lemma top_mask_testbit n i :
  0 < n <= 64 -> 0 <= i -> Z.testbit (w64 (Z.shiftl ULONG_MAX (BITS_PER_LONG - n))) i = (64 - n <=? i) && (i <? 64).
Proof.
  intros Hn Hi. unfold BITS_PER_LONG. rewrite w64_testbit, Z.shiftl_spec by lia.
  destruct (Z.ltb_spec i 64); cbn [andb]; [|lia].
  destruct (Z.leb_spec (64 - n) i); cbn [andb].
  - rewrite ULONG_MAX_testbit by lia. lia.
  - by rewrite Z.testbit_neg_r by lia.
Qed.

(** The search state of [__fls]: the bits of [w] above [num] are clear, [word] is
    [w] shifted up so that [num] is the top, with a bit set in the top [n]. *)
Definition fls_inv (w n : Z) (s : Z * Z) : Prop :=
  let '(num, word) := s in
  num <= 63 /\ word = w64 (Z.shiftl w (63 - num)) /\ (forall i, num < i -> Z.testbit w i = false)
  /\ exists i, num - n < i <= num /\ 0 <= i /\ Z.testbit w i = true.

Lemma fls_step_inv w n s :
  0 <= w < two64 -> 0 < n <= 32 -> fls_inv w (2 * n) s -> fls_inv w n (fls_step n s).
Proof.
  intros Hw Hn. destruct s as [num word]. intros (Hnum&->&Hhigh&i&Hi&Hi0&Ht). unfold fls_step.
  set (word := w64 (Z.shiftl w (63 - num))).
  assert (Hword : 0 <= word < two64) by apply w64_range.
  assert (Hbit : forall j, 0 <= j < 64 -> Z.testbit word j = Z.testbit w (j - (63 - num))).
  { intros j Hj. unfold word. rewrite w64_testbit, Z.shiftl_spec by lia. case_cmp; [done|lia]. }
  pose proof (w64_range (Z.shiftl ULONG_MAX (BITS_PER_LONG - n))) as Hmask.
  destruct (Z.eqb_spec (Z.land word (w64 (Z.shiftl ULONG_MAX (BITS_PER_LONG - n)))) 0) as [E|E].
  - rewrite land_zero_iff in E by lia.
    assert (Hz : forall j, num - n < j <= num -> Z.testbit w j = false).
    { intros j Hj. destruct (Z.lt_ge_cases j 0); [by apply Z.testbit_neg_r|].
      replace j with (j + (63 - num) - (63 - num)) by lia. rewrite <- Hbit by lia.
      apply E; [lia|]. rewrite top_mask_testbit by lia. lia. }
    unfold fls_inv. split_and!; [lia| | |].
    + apply Z.bits_inj'. intros j Hj. unfold word.
      rewrite !w64_testbit by lia. destruct (Z.ltb_spec j 64); cbn [andb]; [|done].
      rewrite !Z.shiftl_spec by lia. destruct (Z.lt_ge_cases (j - n) 0).
      * rewrite !Z.testbit_neg_r by lia. done.
      * rewrite w64_testbit, Z.shiftl_spec by lia. case_cmp; [|lia]. cbn [andb]. f_equal. lia.
    + intros j Hj. destruct (Z.lt_ge_cases num j); [by apply Hhigh|]. apply Hz. lia.
    + exists i. destruct (Z.lt_ge_cases (num - n) i); [by rewrite Hz in Ht by lia|]. split_and!; try done; lia.
  - split_and!; try done.
    destruct (pos_bit (Z.land word (w64 (Z.shiftl ULONG_MAX (BITS_PER_LONG - n))))) as (j&Hj&Hb).
    { assert (0 <= Z.land word (w64 (Z.shiftl ULONG_MAX (BITS_PER_LONG - n)))) by (apply Z.land_nonneg; lia). lia. }
    rewrite Z.land_spec, top_mask_testbit in Hb by lia.
    apply andb_true_iff in Hb as [Hb Hr]. rewrite Hbit in Hb by lia.
    exists (j - (63 - num)). split_and!; try done; try lia.
    destruct (Z.lt_ge_cases (j - (63 - num)) 0); [by rewrite Z.testbit_neg_r in Hb by lia|done].
Qed.

Lemma __fls_spec w :
  0 < w < two64 ->
  0 <= __fls w < 64 /\ Z.testbit w (__fls w) = true /\ forall i, __fls w < i -> Z.testbit w i = false.
Proof.
  intros Hw. assert (fls_inv w 64 (63, w)) as H.
  { unfold fls_inv. split_and!; [lia|by rewrite Z.shiftl_0_r, w64_small by lia| |].
    - intros i Hi. apply testbit_word; lia.
    - destruct (pos_bit w) as (i&?&Hb); [lia|]. exists i. split_and!; try done; try lia.
      destruct (Z.lt_ge_cases i 64); [lia|]. by rewrite testbit_word in Hb by lia. }
  apply (fls_step_inv w 32) in H; [|lia|lia].
  apply (fls_step_inv w 16) in H; [|lia|lia].
  apply (fls_step_inv w 8) in H; [|lia|lia].
  apply (fls_step_inv w 4) in H; [|lia|lia].
  apply (fls_step_inv w 2) in H; [|lia|lia].
  apply (fls_step_inv w 1) in H; [|lia|lia].
  assert (__fls w = fst (fls_step 1 (fls_step 2 (fls_step 4 (fls_step 8 (fls_step 16 (fls_step 32 (63, w)))))))) as ->.
  { unfold __fls. change (BITS_PER_LONG - 1) with 63. destruct (fls_step 2 _) as [num word]. cbn [fls_step].
    by destruct (Z.land word _ =? 0). }
  destruct (fls_step 1 _) as [num word]. destruct H as (Hn&->&Hhigh&i&Hi&?&Hb). cbn [fst].
  replace i with num in * by lia. split_and!; try done; lia.
Qed.

(** * Arrays, word by word *)

Lemma words_nth addr k : words addr -> 0 <= nth k addr 0 < two64.
Proof.
  intros Hw. destruct (nth_in_or_default k addr 0) as [Hin| ->]; [|unfold two64; lia].
  rewrite <- list_elem_of_In in Hin. exact (proj1 (Forall_forall _ _) Hw _ Hin).
Qed.

Lemma load_ok addr k : 0 <= k < Z.of_nat (length addr) -> load addr k = Ret (nth (Z.to_nat k) addr 0).
Proof.
  intros Hk. unfold load. destruct (lookup_lt_is_Some_2 addr (Z.to_nat k)) as [w E]; [lia|].
  rewrite (nth_lookup_Some _ _ _ _ E), E. case_cmp; [done|lia].
Qed.

Lemma bit_in_word addr k j :
  0 <= k -> 0 <= j < 64 -> bit addr (64 * k + j) = Z.testbit (nth (Z.to_nat k) addr 0) j.
Proof.
  intros Hk Hj. unfold bit. rewrite (Z.mul_comm 64), Z.div_add_l, Z.div_small, Z.add_0_r by lia.
  by rewrite Z.add_comm, Z_mod_plus_full, Z.mod_small by lia.
Qed.

(** Every index is a word and an offset. *)
Lemma bit_index i : 0 <= i -> exists k j, i = 64 * k + j /\ 0 <= k /\ 0 <= j < 64.
Proof.
  intros Hi. exists (i / 64), (i mod 64). pose proof (Z.mod_pos_bound i 64). 
  pose proof (Z.div_mod i 64). pose proof (Z.div_pos i 64). lia.
Qed.

Lemma round_down_64 i : 0 <= i < two64 -> round_down i BITS_PER_LONG = 64 * (i / 64).
Proof.
  intros Hi. change BITS_PER_LONG with (2 ^ 6). rewrite round_down_pow2 by lia.
  change (2 ^ 6) with 64. pose proof (Z.div_mod i 64). lia.
Qed.

Lemma first_mask_testbit start j :
  0 <= start -> 0 <= j < 64 -> Z.testbit (BITMAP_FIRST_WORD_MASK start) j = (start mod 64 <=? j).
Proof.
  intros Hs Hj. unfold BITMAP_FIRST_WORD_MASK, BITS_PER_LONG.
  change (64 - 1) with (Z.ones 6). rewrite Z.land_ones by lia. change (2 ^ 6) with 64.
  rewrite w64_testbit, Z.shiftl_spec by lia. case_cmp; [cbn [andb]|lia].
  pose proof (Z.mod_pos_bound start 64).
  case_cmp; [rewrite ULONG_MAX_testbit by lia; lia|by rewrite Z.testbit_neg_r by lia].
Qed.

(** The last word's mask keeps its low [nbits mod 64] bits, all of them when
    that is 0. *)
Lemma last_mask_testbit nbits j :
  0 < nbits -> 0 <= j < 64 ->
  Z.testbit (BITMAP_LAST_WORD_MASK nbits) j = (64 * ((nbits - 1) / 64) + j <? nbits).
Proof.
  intros Hn Hj. unfold BITMAP_LAST_WORD_MASK, BITS_PER_LONG.
  change (64 - 1) with (Z.ones 6). rewrite Z.land_ones by lia. change (2 ^ 6) with 64.
  pose proof (Z.mod_pos_bound (- nbits) 64). pose proof (Z.div_mod (- nbits) 64).
  rewrite Z.shiftr_spec, ULONG_MAX_testbit by lia.
  assert (64 * ((nbits - 1) / 64) = nbits + (- nbits) mod 64 - 64) as ->; [|lia].
  assert ((nbits - 1) / 64 = - ((- nbits) / 64) - 1); [|lia].
  symmetry. apply (Z.div_unique_pos _ _ _ (63 - (- nbits) mod 64)); lia.
Qed.
Lemma last_mask_range nbits : 0 <= BITMAP_LAST_WORD_MASK nbits < two64.
Proof.
  unfold BITMAP_LAST_WORD_MASK, BITS_PER_LONG.
  assert (0 <= Z.land (- nbits) (64 - 1)) as Hs by (apply Z.land_nonneg; lia).
  rewrite Z.shiftr_div_pow2 by done. pose proof (Z.pow_pos_nonneg 2 (Z.land (- nbits) (64 - 1))).
  split; [apply Z.div_pos; unfold ULONG_MAX; lia|].
  apply (Z.le_lt_trans _ ULONG_MAX); [|unfold ULONG_MAX, two64; lia].
  apply Z.div_le_upper_bound; unfold ULONG_MAX; nia.
Qed.
Lemma first_mask_range start : 0 <= BITMAP_FIRST_WORD_MASK start < two64.
Proof. apply w64_range. Qed.

Lemma word_eq_0 w : 0 <= w < two64 -> (forall j, 0 <= j < 64 -> Z.testbit w j = false) -> w = 0.
Proof.
  intros Hw Hz. apply Z.bits_inj'. intros j Hj. rewrite Z.bits_0.
  destruct (Z.lt_ge_cases j 64); [apply Hz; lia|by apply testbit_word].
Qed.
Lemma range_of_bits w : 0 <= w -> (forall i, 64 <= i -> Z.testbit w i = false) -> 0 <= w < two64.
Proof.
  intros Hw Hb. assert (w = w64 w) as ->; [|apply w64_range].
  apply Z.bits_inj'. intros i Hi. rewrite w64_testbit by done. case_cmp; [done|]. by apply Hb.
Qed.
Lemma land_range a b : 0 <= a < two64 -> 0 <= b -> 0 <= Z.land a b < two64.
Proof.
  intros Ha Hb. apply range_of_bits; [apply Z.land_nonneg; lia|].
  intros i Hi. by rewrite Z.land_spec, testbit_word.
Qed.
Lemma lor_range a b : 0 <= a < two64 -> 0 <= b < two64 -> 0 <= Z.lor a b < two64.
Proof.
  intros Ha Hb. apply range_of_bits; [apply Z.lor_nonneg; lia|].
  intros i Hi. by rewrite Z.lor_spec, !testbit_word.
Qed.
Lemma lxor_range a b : 0 <= a < two64 -> 0 <= b < two64 -> 0 <= Z.lxor a b < two64.
Proof.
  intros Ha Hb. apply range_of_bits; [apply Z.lxor_nonneg; lia|].
  intros i Hi. by rewrite Z.lxor_spec, !testbit_word.
Qed.

(** * lib/find_bit.c: correctness *)

Section FindNext.
Context (addr : list Z) (nbits invert : Z) (inv : bool).
Hypothesis Hh : holds addr nbits.
Hypothesis Hinv : invert = if inv then ULONG_MAX else 0.

(** The bits looked for: the set ones, or the clear ones. *)
Let p (i : Z) : bool := xorb (bit addr i) inv.

Lemma invert_testbit k j :
  0 <= k -> 0 <= j < 64 -> Z.testbit (Z.lxor (nth (Z.to_nat k) addr 0) invert) j = p (64 * k + j).
Proof using Hinv.
  intros Hk Hj. unfold p. rewrite Z.lxor_spec, bit_in_word by done. f_equal. rewrite Hinv.
  destruct inv; [rewrite ULONG_MAX_testbit by lia; lia|apply Z.bits_0].
Qed.

Lemma invert_range k : 0 <= Z.lxor (nth k addr 0) invert < two64.
Proof using Hinv Hh.
  apply lxor_range; [apply words_nth, Hh|]. rewrite Hinv. destruct inv; unfold ULONG_MAX, two64; lia.
Qed.

Lemma find_next_loop_spec fuel : forall k tmp lo,
  0 <= k -> 64 * k < nbits -> 0 <= lo < 64 * (k + 1) -> 0 <= tmp < two64 ->
  (forall j, 0 <= j < 64 -> Z.testbit tmp j = (lo <=? 64 * k + j) && p (64 * k + j)) ->
  (forall i, lo <= i < 64 * k -> p i = false) ->
  Z.of_nat (length addr) - k <= Z.of_nat fuel ->
  exists r, find_next_loop fuel addr nbits (64 * k) tmp invert = Ret r /\ first_from p lo nbits r.
Proof using Hinv Hh.
  destruct Hh as (Hw&Hn&Hb). unfold two32 in Hb.
  induction fuel as [|fuel IH]; intros k tmp lo Hk Hkn Hlo Ht Hbits Hlow Hf; [lia|].
  cbn [find_next_loop]. unfold BITS_PER_LONG. nowrap.
  destruct (Z.eqb_spec tmp 0) as [->|Hne].
  - assert (Hnext : forall i, lo <= i < 64 * (k + 1) -> p i = false).
    { intros i Hi. destruct (Z.lt_ge_cases i (64 * k)); [apply Hlow; lia|].
      specialize (Hbits (i - 64 * k) ltac:(lia)). rewrite Z.bits_0 in Hbits.
      replace (64 * k + (i - 64 * k)) with i in Hbits by lia.
      destruct (p i); [|done]. rewrite andb_true_r in Hbits. lia. }
    case_cmp; [exists nbits; split; [done|left; split; [done|intros; apply Hnext; lia]]|].
    replace (64 * k + 64) with ((k + 1) * 64) by lia. rewrite Z.div_mul by lia.
    rewrite load_ok by lia. cbn [res_bind]. replace ((k + 1) * 64) with (64 * (k + 1)) by lia.
    apply IH; try lia; [apply invert_range| |done].
    intros j Hj. rewrite invert_testbit by lia.
    case_cmp; [done|lia].
  - destruct (__ffs_spec tmp) as (Hf0&Hf1&Hf2); [lia|]. nowrap.
    rewrite Hbits in Hf1 by lia. apply andb_true_iff in Hf1 as [Hle Hp].
    assert (Hbefore : forall i, lo <= i < 64 * k + __ffs tmp -> p i = false).
    { intros i Hi. destruct (Z.lt_ge_cases i (64 * k)); [apply Hlow; lia|].
      specialize (Hf2 (i - 64 * k) ltac:(lia)). rewrite Hbits in Hf2 by lia.
      replace (64 * k + (i - 64 * k)) with i in Hf2 by lia.
      destruct (p i); [|done]. rewrite andb_true_r in Hf2. lia. }
    exists (Z.min (64 * k + __ffs tmp) nbits). split; [done|].
    destruct (Z.lt_ge_cases (64 * k + __ffs tmp) nbits).
    + rewrite Z.min_l by lia. right. split_and!; try done; lia.
    + rewrite Z.min_r by lia. left. split; [done|]. intros i Hi. apply Hbefore. lia.
Qed.

Lemma _find_next_bit_spec start :
  0 <= start ->
  exists r, _find_next_bit addr nbits start invert = Ret r /\ first_from p start nbits r.
Proof using Hinv Hh.
  intros Hs. unfold _find_next_bit. case_cmp; [exists nbits; split; [done|left; split; [done|lia]]|].
  pose proof Hh as (Hw&Hn&Hb). unfold BITS_PER_LONG at 1.
  pose proof (Z.div_mod start 64). pose proof (Z.mod_pos_bound start 64).
  pose proof (Z.div_pos start 64 ltac:(lia) ltac:(lia)).
  rewrite load_ok by lia. cbn [res_bind]. rewrite round_down_64 by (unfold two64, two32 in *; lia).
  apply find_next_loop_spec; try lia.
  - apply land_range; [apply invert_range|apply first_mask_range].
  - intros j Hj. rewrite Z.land_spec, invert_testbit, first_mask_testbit by lia.
    rewrite andb_comm. f_equal. lia.
Qed.
End FindNext.

Lemma first_from_ext p q start nbits r :
  (forall i, start <= i < nbits -> p i = q i) -> first_from p start nbits r -> first_from q start nbits r.
Proof.
  intros E [[-> Hno]|(Hr&Hp&Hno)]; [left|right].
  - split; [done|]. intros i Hi. rewrite <- E by done. by apply Hno.
  - split_and!; try lia; [by rewrite <- E|]. intros i Hi. rewrite <- E by lia. by apply Hno.
Qed.

Lemma find_next_bit_spec addr nbits start :
  holds addr nbits -> 0 <= start ->
  exists r, find_next_bit addr nbits start = Ret r /\ first_from (bit addr) start nbits r.
Proof.
  intros Hh Hs. destruct (_find_next_bit_spec addr nbits 0 false Hh eq_refl start Hs) as (r&E&Hr).
  exists r. split; [done|]. eapply first_from_ext; [|done]. intros i _. apply xorb_false_r.
Qed.
Lemma find_next_zero_bit_spec addr nbits start :
  holds addr nbits -> 0 <= start ->
  exists r, find_next_zero_bit addr nbits start = Ret r
    /\ first_from (fun i => negb (bit addr i)) start nbits r.
Proof.
  intros Hh Hs. destruct (_find_next_bit_spec addr nbits ULONG_MAX true Hh eq_refl start Hs) as (r&E&Hr).
  exists r. split; [done|]. eapply first_from_ext; [|done]. intros i _. apply xorb_true_r.
Qed.

(** [~w] of a word: its clear bits. *)
Lemma lnot_testbit w j : 0 <= j < 64 -> Z.testbit (w64 (Z.lnot w)) j = negb (Z.testbit w j).
Proof. intros Hj. rewrite w64_testbit, Z.lnot_spec by lia. case_cmp; [done|lia]. Qed.
Lemma lnot_zero w : 0 <= w < two64 -> w64 (Z.lnot w) = 0 <-> w = ULONG_MAX.
Proof.
  intros Hw. split; [|by intros ->]. intros E. apply Z.bits_inj'. intros j Hj.
  rewrite ULONG_MAX_testbit by done. destruct (Z.ltb_spec j 64); [|by apply testbit_word].
  pose proof (lnot_testbit w j ltac:(lia)) as Hb. rewrite E, Z.bits_0 in Hb. by destruct (Z.testbit w j).
Qed.

(** The word searched in one turn of [find_first_bit] or [find_first_zero_bit]. *)
Lemma find_first_step (fuel : nat) (zero : bool) (addr : list Z) (idx size : Z) :
  words addr -> 0 <= idx < Z.of_nat (length addr) -> 0 <= size < two32 -> 64 * idx < size ->
  let v := let w := nth (Z.to_nat idx) addr 0 in if zero then w64 (Z.lnot w) else w in
  find_first_loop (S fuel) zero addr idx size =
  if v =? 0 then find_first_loop fuel zero addr (idx + 1) size else Ret (Z.min (64 * idx + __ffs v) size).
Proof.
  intros Hw Hi Hs Hlt v. cbn [find_first_loop]. unfold BITS_PER_LONG, two32 in *. nowrap.
  replace (idx * 64) with (64 * idx) by lia. case_cmp; [|lia].
  rewrite load_ok by lia. cbn [res_bind]. subst v. pose proof (words_nth addr (Z.to_nat idx) Hw) as Hr.
  set (w := nth (Z.to_nat idx) addr 0) in *. destruct zero; cbv zeta.
  - destruct (Z.eqb_spec w ULONG_MAX) as [E|E]; cbn [negb].
    + rewrite E. done.
    + destruct (Z.eqb_spec (w64 (Z.lnot w)) 0) as [E'|E']; [by apply lnot_zero in E'|].
      unfold ffz. pose proof (w64_range (Z.lnot w)).
      destruct (__ffs_spec (w64 (Z.lnot w))) as (?&_); [lia|]. by nowrap.
  - destruct (Z.eqb_spec w 0) as [E|E]; cbn [negb]; [done|].
    destruct (__ffs_spec w) as (?&_); [lia|]. by nowrap.
Qed.

Lemma find_first_loop_spec zero addr size fuel : forall idx,
  holds addr size -> 0 <= idx -> 64 * idx < size + 64 -> Z.of_nat (length addr) - idx < Z.of_nat fuel ->
  (forall i, 0 <= i < 64 * idx -> xorb (bit addr i) zero = false) ->
  exists r, find_first_loop fuel zero addr idx size = Ret r
    /\ first_from (fun i => xorb (bit addr i) zero) 0 size r.
Proof.
  induction fuel as [|fuel IH]; intros idx Hh Hi His Hf Hlow; pose proof Hh as (Hw&Hn&Hb);
    unfold two32 in Hb; [lia|].
  destruct (Z.lt_ge_cases (64 * idx) size) as [Hlt|Hge].
  2: { cbn [find_first_loop]. unfold BITS_PER_LONG. nowrap. case_cmp; [lia|].
       exists size. split; [done|left]. split; [done|]. intros i Hi'. apply Hlow. lia. }
  pose proof (find_first_step fuel zero addr idx size Hw) as E. cbv zeta in E.
  rewrite E by (unfold two32; lia). clear E.
  pose proof (words_nth addr (Z.to_nat idx) Hw) as Hr.
  set (v := if zero then w64 (Z.lnot (nth (Z.to_nat idx) addr 0)) else nth (Z.to_nat idx) addr 0).
  assert (0 <= v < two64) as Hv by (unfold v; destruct zero; [apply w64_range|done]).
  assert (Hbits : forall j, 0 <= j < 64 -> Z.testbit v j = xorb (bit addr (64 * idx + j)) zero).
  { intros j Hj. rewrite bit_in_word by lia. unfold v. destruct zero.
    - by rewrite lnot_testbit, xorb_true_r.
    - by rewrite xorb_false_r. }
  destruct (Z.eqb_spec v 0) as [Hz|Hz].
  - apply IH; try done; try lia. intros i Hi'. destruct (Z.lt_ge_cases i (64 * idx)); [apply Hlow; lia|].
    replace i with (64 * idx + (i - 64 * idx)) by lia. rewrite <- Hbits, Hz by lia. apply Z.bits_0.
  - destruct (__ffs_spec v) as (Hf0&Hf1&Hf2); [lia|]. rewrite Hbits in Hf1 by lia.
    assert (Hbefore : forall i, 0 <= i < 64 * idx + __ffs v -> xorb (bit addr i) zero = false).
    { intros i Hi'. destruct (Z.lt_ge_cases i (64 * idx)); [apply Hlow; lia|].
      replace i with (64 * idx + (i - 64 * idx)) by lia. rewrite <- Hbits by lia. apply Hf2. lia. }
    eexists; split; [done|]. destruct (Z.lt_ge_cases (64 * idx + __ffs v) size).
    + rewrite Z.min_l by lia. right. split_and!; try done; lia.
    + rewrite Z.min_r by lia. left. split; [done|]. intros i Hi'. apply Hbefore. lia.
Qed.

Lemma find_first_bit_spec addr size :
  holds addr size -> exists r, find_first_bit addr size = Ret r /\ first_from (bit addr) 0 size r.
Proof.
  intros Hh. destruct (find_first_loop_spec false addr size (S (length addr)) 0) as (r&E&Hr);
    [done|lia|destruct Hh; lia|lia|lia|]. exists r. split; [done|].
  eapply first_from_ext; [|done]. intros i _. apply xorb_false_r.
Qed.
Lemma find_first_zero_bit_spec addr size :
  holds addr size ->
  exists r, find_first_zero_bit addr size = Ret r /\ first_from (fun i => negb (bit addr i)) 0 size r.
Proof.
  intros Hh. destruct (find_first_loop_spec true addr size (S (length addr)) 0) as (r&E&Hr);
    [done|lia|destruct Hh; lia|lia|lia|]. exists r. split; [done|].
  eapply first_from_ext; [|done]. intros i _. apply xorb_true_r.
Qed.

(** One turn of [find_last_bit]: the word [m], under a mask that hides the bits
    from [size] on. *)
Lemma find_last_word addr size (n : nat) val :
  words addr -> 0 <= val < two64 -> 
  (forall j, 0 <= j < 64 -> Z.testbit val j = (64 * Z.of_nat n + j <? size)) ->
  (forall i, 64 * Z.of_nat (S n) <= i < size -> bit addr i = false) ->
  let v := Z.land val (nth n addr 0) in
  (v = 0 -> forall i, 64 * Z.of_nat n <= i < size -> bit addr i = false)
  /\ (v <> 0 -> 0 <= __fls v < 64 /\ last_below (bit addr) size (64 * Z.of_nat n + __fls v)).
Proof.
  intros Hw Hv Hmask Hhigh v.
  assert (0 <= v < two64) as Hvr by (apply land_range; [done|apply words_nth; done]).
  assert (Hbits : forall i, 64 * Z.of_nat n <= i < 64 * Z.of_nat (S n) ->
            Z.testbit v (i - 64 * Z.of_nat n) = (i <? size) && bit addr i).
  { intros i Hi. unfold v. rewrite Z.land_spec, Hmask by lia.
    replace (64 * Z.of_nat n + (i - 64 * Z.of_nat n)) with i by lia. f_equal.
    replace i with (64 * Z.of_nat n + (i - 64 * Z.of_nat n)) at 2 by lia.
    by rewrite bit_in_word, Nat2Z.id by lia. }
  split.
  - intros E i Hi. destruct (Z.lt_ge_cases i (64 * Z.of_nat (S n))); [|apply Hhigh; lia].
    specialize (Hbits i ltac:(lia)). rewrite E, Z.bits_0 in Hbits. destruct (bit addr i); [|done]. lia.
  - intros E. destruct (__fls_spec v) as (Hf0&Hf1&Hf2); [lia|]. split; [done|right].
    pose proof (Hbits (64 * Z.of_nat n + __fls v) ltac:(lia)) as Hb.
    replace (64 * Z.of_nat n + __fls v - 64 * Z.of_nat n) with (__fls v) in Hb by lia.
    rewrite Hf1 in Hb. symmetry in Hb. apply andb_true_iff in Hb as [Hlt Hb]. split_and!; [lia|lia|done|].
    intros i Hi. destruct (Z.lt_ge_cases i (64 * Z.of_nat (S n))); [|apply Hhigh; lia].
    specialize (Hbits i ltac:(lia)). rewrite Hf2 in Hbits by lia. destruct (bit addr i); [|done]. lia.
Qed.

Lemma find_last_loop_spec addr size n : forall val,
  words addr -> 0 <= size < two32 -> (n < length addr)%nat -> 64 * Z.of_nat n < size -> 0 <= val < two64 ->
  (forall j, 0 <= j < 64 -> Z.testbit val j = (64 * Z.of_nat n + j <? size)) ->
  (forall i, 64 * Z.of_nat (S n) <= i < size -> bit addr i = false) ->
  exists r, find_last_loop n addr val size = Ret r /\ last_below (bit addr) size r.
Proof.
  induction n as [|n IH]; intros val Hw Hs Hn Hlt Hv Hmask Hhigh;
    destruct (find_last_word addr size _ val Hw Hv Hmask Hhigh) as [Hz Hnz];
    cbn [find_last_loop]; rewrite load_ok by lia; cbn [res_bind]; rewrite Nat2Z.id;
    unfold BITS_PER_LONG, two32 in *.
  all: match goal with |- context [Z.eqb ?v 0] => destruct (Z.eqb_spec v 0) as [E|E] end; cbn [negb];
    [|destruct (Hnz E); nowrap; rewrite (Z.mul_comm _ 64); by eexists].
  - exists size. split; [done|left]. split; [done|]. intros i Hi. apply (Hz E). lia.
  - apply IH; try done; try (unfold two32, ULONG_MAX, two64; lia).
    + intros j Hj. rewrite ULONG_MAX_testbit by lia. lia.
    + by apply Hz.
Qed.

Lemma find_last_bit_spec addr size :
  holds addr size -> exists r, find_last_bit addr size = Ret r /\ last_below (bit addr) size r.
Proof.
  intros (Hw&Hn&Hb). unfold find_last_bit, BITS_PER_LONG.
  destruct (Z.eqb_spec size 0) as [->|Hz]; cbn [negb]; [exists 0; split; [done|left; split; [done|lia]]|].
  pose proof (Z.div_mod (size - 1) 64). pose proof (Z.mod_pos_bound (size - 1) 64).
  pose proof (Z.div_pos (size - 1) 64 ltac:(lia) ltac:(lia)).
  apply find_last_loop_spec; try done; try lia.
  - apply last_mask_range.
  - intros j Hj. rewrite last_mask_testbit, Z2Nat.id by lia. done.
Qed.
