(* ===== verification/Hweight.v ===== *)
(** Population counts: lib/hweight.c.  The routines add up bits in ever wider
    fields of the word; they are shown to count the bits that are set. *)

From S2P Require Import Prelude FindBit.

Definition __sw_hweight8 (w : Z) : Z :=
  let res := w32 (w - Z.land (Z.shiftr w 1) 0x55) in
  let res := w32 (Z.land res 0x33 + Z.land (Z.shiftr res 2) 0x33) in
  Z.land (w32 (res + Z.shiftr res 4)) 0x0F.

Definition __sw_hweight16 (w : Z) : Z :=
  let res := w32 (w - Z.land (Z.shiftr w 1) 0x5555) in
  let res := w32 (Z.land res 0x3333 + Z.land (Z.shiftr res 2) 0x3333) in
  let res := Z.land (w32 (res + Z.shiftr res 4)) 0x0F0F in
  Z.land (w32 (res + Z.shiftr res 8)) 0x00FF.

(** CONFIG_ARCH_HAS_FAST_MULTIPLIER is set on x86: the multiplying variants. *)
Definition __sw_hweight32 (w : Z) : Z :=
  let w := w32 (w - Z.land (Z.shiftr w 1) 0x55555555) in
  let w := w32 (Z.land w 0x33333333 + Z.land (Z.shiftr w 2) 0x33333333) in
  let w := Z.land (w32 (w + Z.shiftr w 4)) 0x0f0f0f0f in
  Z.shiftr (w32 (w * 0x01010101)) 24.

Definition __sw_hweight64 (w : Z) : Z :=
  let w := w64 (w - Z.land (Z.shiftr w 1) 0x5555555555555555) in
  let w := w64 (Z.land w 0x3333333333333333 + Z.land (Z.shiftr w 2) 0x3333333333333333) in
  let w := Z.land (w64 (w + Z.shiftr w 4)) 0x0f0f0f0f0f0f0f0f in
  Z.shiftr (w64 (w * 0x0101010101010101)) 56.

(** * The count itself *)

(** The number of indices in [lo, lo + n) with [p]. *)
Fixpoint count (p : Z -> bool) (lo : Z) (n : nat) : Z :=
  match n with
  | O => 0
  | S n' => (if p lo then 1 else 0) + count p (lo + 1) n'
  end.
Definition popcount (w : Z) (n : nat) : Z := count (Z.testbit w) 0 n.

Lemma count_app p lo n m : count p lo (n + m) = count p lo n + count p (lo + Z.of_nat n) m.
Proof.
  revert lo. induction n as [|n IH]; intros lo; [by rewrite Z.add_0_r|].
  cbn [count Nat.add]. rewrite IH. replace (lo + 1 + Z.of_nat n) with (lo + Z.of_nat (S n)) by lia. lia.
Qed.
Lemma count_ext p q lo lo' n :
  (forall i, 0 <= i < Z.of_nat n -> p (lo + i) = q (lo' + i)) -> count p lo n = count q lo' n.
Proof.
  revert lo lo'. induction n as [|n IH]; intros lo lo' E; [done|]. cbn [count].
  pose proof (E 0 ltac:(lia)) as E0. rewrite !Z.add_0_r in E0. rewrite E0. f_equal.
  apply IH. intros i Hi. specialize (E (i + 1) ltac:(lia)).
  by replace (lo + 1 + i) with (lo + (i + 1)) by lia; replace (lo' + 1 + i) with (lo' + (i + 1)) by lia.
Qed.
Lemma count_bounds p lo n : 0 <= count p lo n <= Z.of_nat n.
Proof. revert lo. induction n as [|n IH]; intros lo; cbn [count]; [lia|]. specialize (IH (lo + 1)). destruct (p lo); lia. Qed.
Lemma count_zero p lo n : count p lo n = 0 <-> forall i, lo <= i < lo + Z.of_nat n -> p i = false.
Proof.
  revert lo. induction n as [|n IH]; intros lo; cbn [count]; [split; [lia|done]|].
  pose proof (count_bounds p (lo + 1) n). split.
  - intros E i Hi. destruct (p lo) eqn:El; [lia|]. destruct (Z.eq_dec i lo) as [->|]; [done|].
    apply (proj1 (IH (lo + 1))); lia.
  - intros Hz. rewrite (Hz lo) by lia. apply IH. intros i Hi. apply Hz. lia.
Qed.

(** * Words as bytes *)

Fixpoint lanes (bs : list Z) : Z :=
  match bs with [] => 0 | b :: bs' => b + 256 * lanes bs' end.
Definition byte (b : Z) : Prop := 0 <= b < 256.
Fixpoint bytes (n : nat) (w : Z) : list Z :=
  match n with O => [] | S n' => w mod 256 :: bytes n' (w / 256) end.

Lemma bytes_byte n w : Forall byte (bytes n w).
Proof. revert w. induction n; intros w; constructor; [apply Z.mod_pos_bound; lia|auto]. Qed.
Lemma bytes_length n w : length (bytes n w) = n.
Proof. revert w. induction n; intros w; simpl; auto. Qed.
Lemma lanes_range bs : Forall byte bs -> 0 <= lanes bs < 256 ^ Z.of_nat (length bs).
Proof.
  induction 1 as [|b bs Hb _ IH]; [simpl; lia|]. cbn [lanes length].
  rewrite Nat2Z.inj_succ, Z.pow_succ_r by lia. unfold byte in Hb. lia.
Qed.
Lemma lanes_bytes n w : 0 <= w < 256 ^ Z.of_nat n -> lanes (bytes n w) = w.
Proof.
  revert w. induction n as [|n IH]; intros w; [simpl; lia|].
  rewrite Nat2Z.inj_succ, Z.pow_succ_r by lia. intros Hw. cbn [bytes lanes].
  rewrite IH; [pose proof (Z.div_mod w 256); lia|].
  split; [apply Z.div_pos; lia|apply Z.div_lt_upper_bound; lia].
Qed.

Lemma byte_high b i : byte b -> 8 <= i -> Z.testbit b i = false.
Proof.
  intros Hb Hi. rewrite <- (Z.mod_small b (2 ^ 8)) by exact Hb. by rewrite Z.mod_pow2_bits_high by lia.
Qed.
Lemma byte_of_bits x : 0 <= x -> (forall i, 8 <= i -> Z.testbit x i = false) -> byte x.
Proof.
  intros Hx Hb. assert (x = x mod 2 ^ 8) as ->; [|apply Z.mod_pos_bound; lia].
  apply Z.bits_inj'. intros i Hi. destruct (Z.lt_ge_cases i 8).
  - by rewrite Z.mod_pow2_bits_low by lia.
  - rewrite Z.mod_pow2_bits_high by lia. by apply Hb.
Qed.
Lemma lane_testbit b x i :
  byte b -> 0 <= i -> Z.testbit (b + 256 * x) i = if i <? 8 then Z.testbit b i else Z.testbit x (i - 8).
Proof.
  intros Hb Hi. replace (b + 256 * x) with (Z.lor b (Z.shiftl x 8)).
  - rewrite Z.lor_spec, Z.shiftl_spec by done. case_cmp.
    + by rewrite (Z.testbit_neg_r x), orb_false_r by lia.
    + by rewrite byte_high.
  - rewrite Z.shiftl_mul_pow2, lor_disjoint_add by (lia || exact Hb). lia.
Qed.

(** A masked shift acts on each byte by itself when the mask drops the bits that
    come from the byte above. *)
Lemma lanes_land_shift s m bs :
  0 <= s < 8 -> 0 <= m < 2 ^ (8 - s) -> Forall byte bs ->
  Z.land (Z.shiftr (lanes bs) s) (lanes (replicate (length bs) m))
  = lanes ((fun b => Z.land (Z.shiftr b s) m) <$> bs).
Proof.
  intros Hs Hm. assert (Hm8 : byte m).
  { split; [lia|]. assert (2 ^ (8 - s) <= 2 ^ 8) by (apply Z.pow_le_mono_r; lia). lia. }
  induction 1 as [|b bs Hb _ IH]; [by rewrite Z.land_0_r|]. cbn [length replicate lanes fmap list_fmap].
  rewrite <- IH. clear IH. set (ms := lanes (replicate (length bs) m)).
  assert (Hl : byte (Z.land (Z.shiftr b s) m)).
  { apply byte_of_bits; [apply Z.land_nonneg; lia|].
    intros i Hi. by rewrite Z.land_spec, (byte_high m), andb_false_r. }
  assert (Hms : forall j, 0 <= j < 8 -> 8 - s <= j -> Z.testbit m j = false).
  { intros j Hj ?. rewrite <- (Z.mod_small m (2 ^ (8 - s))) by lia. by rewrite Z.mod_pow2_bits_high by lia. }
  apply Z.bits_inj'. intros i Hi. rewrite lane_testbit, Z.land_spec, Z.shiftr_spec, !lane_testbit by (done || lia).
  repeat case_cmp; try lia; rewrite Z.land_spec, ?Z.shiftr_spec by lia; [done| |].
  - by rewrite Hms, !andb_false_r by lia.
  - by replace (i + s - 8) with (i - 8 + s) by lia.
Qed.

Lemma lanes_add (f g : Z -> Z) bs :
  lanes (f <$> bs) + lanes (g <$> bs) = lanes ((fun b => f b + g b) <$> bs).
Proof. induction bs as [|b bs IH]; [done|]. cbn [fmap list_fmap lanes] in *. lia. Qed.
Lemma lanes_sub (f g : Z -> Z) bs :
  lanes (f <$> bs) - lanes (g <$> bs) = lanes ((fun b => f b - g b) <$> bs).
Proof. induction bs as [|b bs IH]; [done|]. cbn [fmap list_fmap lanes] in *. lia. Qed.

(** ** A check on all bytes *)

Lemma byte_check (P : Z -> bool) :
  forallb P (Z.of_nat <$> seq 0 256) = true -> forall b, byte b -> P b = true.
Proof.
  intros Hall b Hb. rewrite forallb_forall in Hall. apply Hall. apply list_elem_of_In.
  apply list_elem_of_fmap. exists (Z.to_nat b). split; [unfold byte in Hb; lia|].
  apply elem_of_seq. unfold byte in Hb. lia.
Qed.

Definition stage1 (b : Z) : Z := b - Z.land (Z.shiftr b 1) 0x55.
Definition stage2 (b : Z) : Z := Z.land b 0x33 + Z.land (Z.shiftr b 2) 0x33.
Definition stage3 (b : Z) : Z := Z.land b 0x0f + Z.land (Z.shiftr b 4) 0x0f.

Lemma stages_ok b : byte b ->
  byte (stage1 b) /\ byte (stage2 (stage1 b))
  /\ byte (stage2 (stage1 b) + Z.shiftr (stage2 (stage1 b)) 4)
  /\ stage3 (stage2 (stage1 b)) = popcount b 8.
Proof.
  intros Hb. pose proof (byte_check (fun b => (0 <=? stage1 b) && (stage1 b <? 256)
    && (0 <=? stage2 (stage1 b)) && (stage2 (stage1 b) <? 256)
    && (0 <=? stage2 (stage1 b) + Z.shiftr (stage2 (stage1 b)) 4)
    && (stage2 (stage1 b) + Z.shiftr (stage2 (stage1 b)) 4 <? 256)
    && (stage3 (stage2 (stage1 b)) =? popcount b 8))
    ltac:(vm_compute; reflexivity) b Hb) as Hc. cbv beta in Hc. unfold byte. lia.
Qed.

Lemma lane_land b m x y :
  byte b -> byte m -> Z.land (b + 256 * x) (m + 256 * y) = Z.land b m + 256 * Z.land x y.
Proof.
  intros Hb Hm. assert (byte (Z.land b m)).
  { apply byte_of_bits; [apply Z.land_nonneg; destruct Hb; lia|].
    intros i Hi. by rewrite Z.land_spec, byte_high. }
  apply Z.bits_inj'. intros i Hi. rewrite Z.land_spec, !lane_testbit by done.
  case_cmp; by rewrite Z.land_spec.
Qed.

(** Both nibbles count at most four bits. *)
Definition nibbles (c : Z) : Prop := 0 <= c /\ c mod 16 <= 4 /\ c / 16 <= 4.
Lemma nibbles_stage2 b : byte b -> nibbles (stage2 (stage1 b)).
Proof.
  intros Hb. pose proof (byte_check (fun b => let c := stage2 (stage1 b) in
    (0 <=? c) && (c mod 16 <=? 4) && (c / 16 <=? 4)) ltac:(vm_compute; reflexivity) b Hb) as Hc.
  cbv zeta beta in Hc. unfold nibbles. lia.
Qed.

Lemma lanes_low_nibble cs : Forall nibbles cs -> lanes cs mod 16 <= 4.
Proof.
  destruct 1 as [|c cs (_&Hlo&_) _]; [done|]. cbn [lanes].
  replace (c + 256 * lanes cs) with (c + 16 * lanes cs * 16) by lia. by rewrite Z_mod_plus_full.
Qed.

Lemma lanes_fold_nibbles cs :
  Forall nibbles cs ->
  Z.land (lanes cs + Z.shiftr (lanes cs) 4) (lanes (replicate (length cs) 0x0f)) = lanes (stage3 <$> cs).
Proof.
  induction 1 as [|c cs (Hc&Hlo&Hhi) Hcs IH]; [done|]. cbn [length replicate lanes fmap list_fmap].
  rewrite <- IH. clear IH. pose proof (lanes_low_nibble cs Hcs) as Hl.
  set (l := lanes cs) in *. set (ms := lanes (replicate (length cs) 0x0f)).
  rewrite !Z.shiftr_div_pow2 by lia. change (2 ^ 4) with 16.
  pose proof (Z.div_mod c 16). pose proof (Z.div_mod l 16). pose proof (Z.mod_pos_bound l 16).
  pose proof (Z.mod_pos_bound c 16). pose proof (Z.div_pos c 16 ltac:(lia) ltac:(lia)).
  assert (Ediv : (c + 256 * l) / 16 = c / 16 + 16 * l).
  { symmetry. apply (Z.div_unique_pos _ _ _ (c mod 16)); lia. }
  replace (c + 256 * l + (c + 256 * l) / 16)
    with ((c + c / 16 + 16 * (l mod 16)) + 256 * (l + l / 16)) by lia.
  rewrite lane_land by (unfold byte; lia). f_equal.
  unfold stage3. rewrite Z.shiftr_div_pow2 by lia. change 0x0f with (Z.ones 4). change (2 ^ 4) with 16.
  rewrite !Z.land_ones by lia. change (2 ^ 4) with 16.
  rewrite (Z.mod_small (c / 16)) by lia.
  replace (c + c / 16 + 16 * (l mod 16)) with (c mod 16 + c / 16 + (c / 16 + l mod 16) * 16) by lia.
  rewrite Z_mod_plus_full. apply Z.mod_small. lia.
Qed.

Lemma popcount_lanes bs :
  Forall byte bs -> popcount (lanes bs) (8 * length bs) = foldr Z.add 0 ((fun b => popcount b 8) <$> bs).
Proof.
  induction 1 as [|b bs Hb _ IH]; [done|]. cbn [length fmap list_fmap foldr lanes].
  replace (8 * S (length bs))%nat with (8 + 8 * length bs)%nat by lia.
  unfold popcount in *. rewrite count_app. f_equal.
  - apply count_ext. intros i Hi. rewrite lane_testbit by (done || lia). case_cmp; [done|lia].
  - rewrite <- IH. apply count_ext. intros i Hi. rewrite lane_testbit by (done || lia).
    case_cmp; [lia|]. f_equal. lia.
Qed.

Section Lanes.
Context (bs : list Z).
Hypothesis Hbs : Forall byte bs.
Let n := length bs.

Lemma lanes_stage1 :
  lanes bs - Z.land (Z.shiftr (lanes bs) 1) (lanes (replicate n 0x55)) = lanes (stage1 <$> bs).
Proof using Hbs.
  unfold n. rewrite lanes_land_shift by (done || lia).
  replace (lanes bs) with (lanes (id <$> bs)) at 1 by (by rewrite list_fmap_id). apply lanes_sub.
Qed.

Lemma lanes_stage2 :
  Z.land (lanes bs) (lanes (replicate n 0x33))
  + Z.land (Z.shiftr (lanes bs) 2) (lanes (replicate n 0x33)) = lanes (stage2 <$> bs).
Proof using Hbs.
  unfold n. rewrite <- (Z.shiftr_0_r (lanes bs)) at 1. rewrite !lanes_land_shift by (done || lia).
  rewrite lanes_add. unfold stage2. by setoid_rewrite Z.shiftr_0_r.
Qed.
End Lanes.

(** The three stages turn each byte into its number of set bits. *)
Lemma lanes_stages bs :
  Forall byte bs ->
  Forall byte (stage1 <$> bs) /\ Forall byte (stage2 <$> (stage1 <$> bs))
  /\ Forall nibbles (stage2 <$> (stage1 <$> bs))
  /\ stage3 <$> (stage2 <$> (stage1 <$> bs)) = (fun b => popcount b 8) <$> bs.
Proof.
  induction 1 as [|b bs Hb _ (IH1&IH2&IH3&IH4)]; [done|]. cbn [fmap list_fmap] in *.
  destruct (stages_ok b Hb) as (?&?&_&E). pose proof (nibbles_stage2 b Hb).
  split_and!; [by constructor..|]. by rewrite E, IH4.
Qed.

(** Multiplying eight counts by 0x0101010101010101 adds them up in the top byte. *)
Lemma lanes_multiply cs :
  length cs = 8%nat -> Forall (fun c => 0 <= c <= 8) cs ->
  Z.shiftr (w64 (lanes cs * 0x0101010101010101)) 56 = foldr Z.add 0 cs.
Proof.
  intros Hlen Hcs. do 8 (destruct cs as [|? cs]; [done|]). destruct cs; [|done].
  repeat match goal with H : Forall _ (_ :: _) |- _ => inversion_clear H end.
  rewrite Z.shiftr_div_pow2 by lia. unfold w64. cbn [lanes foldr]. rewrite Z.add_0_r.
  set (low := z + 256 * (z + z0) + 65536 * (z + z0 + z1) + 16777216 * (z + z0 + z1 + z2)
    + 4294967296 * (z + z0 + z1 + z2 + z3) + 1099511627776 * (z + z0 + z1 + z2 + z3 + z4)
    + 281474976710656 * (z + z0 + z1 + z2 + z3 + z4 + z5)).
  set (sum := z + (z0 + (z1 + (z2 + (z3 + (z4 + (z5 + z6))))))).
  set (high := (z0 + z1 + z2 + z3 + z4 + z5 + z6) + 256 * (z1 + z2 + z3 + z4 + z5 + z6)
    + 65536 * (z2 + z3 + z4 + z5 + z6) + 16777216 * (z3 + z4 + z5 + z6) + 4294967296 * (z4 + z5 + z6)
    + 1099511627776 * (z5 + z6) + 281474976710656 * z6).
  match goal with |- ?x mod _ / _ = _ =>
    replace x with (low + sum * 2 ^ 56 + high * two64) by (unfold low, sum, high, two64; lia) end.
  rewrite Z_mod_plus_full, Z.mod_small, Z.div_add by (unfold low, sum, two64; lia).
  rewrite Z.div_small by (unfold low; lia). lia.
Qed.

Lemma lanes_nibbles_bound cs : Forall nibbles cs -> 0 <= lanes cs /\ 255 * lanes cs <= 68 * (256 ^ Z.of_nat (length cs) - 1).
Proof.
  induction 1 as [|c cs (Hc&Hlo&Hhi) _ IH]; [done|]. cbn [lanes length].
  rewrite Nat2Z.inj_succ, Z.pow_succ_r by lia. pose proof (Z.div_mod c 16). lia.
Qed.

(** The body of [__sw_hweight64] on eight bytes. *)
Lemma hweight64_lanes bs :
  Forall byte bs -> length bs = 8%nat -> __sw_hweight64 (lanes bs) = foldr Z.add 0 ((fun b => popcount b 8) <$> bs).
Proof.
  intros Hbs Hlen. destruct (lanes_stages bs Hbs) as (H1&H2&H3&H4).
  assert (Hw64 : forall cs, Forall byte cs -> length cs = 8%nat -> w64 (lanes cs) = lanes cs).
  { intros cs Hcs Hl. apply w64_small. pose proof (lanes_range cs Hcs) as Hr. by rewrite Hl in Hr. }
  assert (Hl1 : length (stage1 <$> bs) = 8%nat) by (by rewrite length_fmap).
  assert (Hl2 : length (stage2 <$> (stage1 <$> bs)) = 8%nat) by (by rewrite !length_fmap).
  pose proof (lanes_stage1 bs Hbs) as E1. pose proof (lanes_stage2 _ H1) as E2.
  pose proof (lanes_fold_nibbles _ H3) as E3. rewrite Hlen in E1. rewrite Hl1 in E2. rewrite Hl2 in E3.
  unfold __sw_hweight64.
  change 0x5555555555555555 with (lanes (replicate 8 0x55)).
  change 0x3333333333333333 with (lanes (replicate 8 0x33)).
  change 0x0f0f0f0f0f0f0f0f with (lanes (replicate 8 0x0f)).
  rewrite E1, Hw64, E2, Hw64 by done.
  set (cs := stage2 <$> (stage1 <$> bs)) in *.
  rewrite (w64_small (lanes cs + Z.shiftr (lanes cs) 4)), E3, H4.
  - apply lanes_multiply; [by rewrite length_fmap|]. apply Forall_fmap, Forall_true.
    intros b. apply (count_bounds _ _ 8).
  - destruct (lanes_nibbles_bound cs H3) as [? Hb]. rewrite Hl2 in Hb. rewrite Z.shiftr_div_pow2 by lia.
    pose proof (Z.div_pos (lanes cs) (2 ^ 4) ltac:(lia) ltac:(lia)).
    pose proof (Z.div_le_upper_bound (lanes cs) (2 ^ 4) (lanes cs) ltac:(lia) ltac:(lia)).
    unfold two64. change (256 ^ Z.of_nat 8) with 18446744073709551616 in Hb. lia.
Qed.

Lemma __sw_hweight64_spec w : 0 <= w < two64 -> __sw_hweight64 w = popcount w 64.
Proof.
  intros Hw. rewrite <- (lanes_bytes 8 w) by exact Hw.
  pose proof (bytes_byte 8 w) as Hb. pose proof (bytes_length 8 w) as Hl.
  rewrite hweight64_lanes by done. rewrite <- popcount_lanes by done. by rewrite Hl.
Qed.

Lemma lanes_multiply32 cs :
  length cs = 4%nat -> Forall (fun c => 0 <= c <= 8) cs ->
  Z.shiftr (w32 (lanes cs * 0x01010101)) 24 = foldr Z.add 0 cs.
Proof.
  intros Hlen Hcs. do 4 (destruct cs as [|? cs]; [done|]). destruct cs; [|done].
  repeat match goal with H : Forall _ (_ :: _) |- _ => inversion_clear H end.
  rewrite Z.shiftr_div_pow2 by lia. unfold w32. cbn [lanes foldr]. rewrite Z.add_0_r.
  set (low := z + 256 * (z + z0) + 65536 * (z + z0 + z1)).
  set (sum := z + (z0 + (z1 + z2))).
  set (high := (z0 + z1 + z2) + 256 * (z1 + z2) + 65536 * z2).
  match goal with |- ?x mod _ / _ = _ =>
    replace x with (low + sum * 2 ^ 24 + high * two32) by (unfold low, sum, high, two32; lia) end.
  rewrite Z_mod_plus_full, Z.mod_small, Z.div_add by (unfold low, sum, two32; lia).
  rewrite Z.div_small by (unfold low; lia). lia.
Qed.

Lemma hweight32_lanes bs :
  Forall byte bs -> length bs = 4%nat -> __sw_hweight32 (lanes bs) = foldr Z.add 0 ((fun b => popcount b 8) <$> bs).
Proof.
  intros Hbs Hlen. destruct (lanes_stages bs Hbs) as (H1&H2&H3&H4).
  assert (Hw32 : forall cs, Forall byte cs -> length cs = 4%nat -> w32 (lanes cs) = lanes cs).
  { intros cs Hcs Hl. apply w32_small. pose proof (lanes_range cs Hcs) as Hr. by rewrite Hl in Hr. }
  assert (Hl1 : length (stage1 <$> bs) = 4%nat) by (by rewrite length_fmap).
  assert (Hl2 : length (stage2 <$> (stage1 <$> bs)) = 4%nat) by (by rewrite !length_fmap).
  pose proof (lanes_stage1 bs Hbs) as E1. pose proof (lanes_stage2 _ H1) as E2.
  pose proof (lanes_fold_nibbles _ H3) as E3. rewrite Hlen in E1. rewrite Hl1 in E2. rewrite Hl2 in E3.
  unfold __sw_hweight32.
  change 0x55555555 with (lanes (replicate 4 0x55)).
  change 0x33333333 with (lanes (replicate 4 0x33)).
  change 0x0f0f0f0f with (lanes (replicate 4 0x0f)).
  rewrite E1, Hw32, E2, Hw32 by done.
  set (cs := stage2 <$> (stage1 <$> bs)) in *.
  rewrite (w32_small (lanes cs + Z.shiftr (lanes cs) 4)), E3, H4.
  - apply lanes_multiply32; [by rewrite length_fmap|]. apply Forall_fmap, Forall_true.
    intros b. apply (count_bounds _ _ 8).
  - destruct (lanes_nibbles_bound cs H3) as [? Hb]. rewrite Hl2 in Hb. rewrite Z.shiftr_div_pow2 by lia.
    pose proof (Z.div_pos (lanes cs) (2 ^ 4) ltac:(lia) ltac:(lia)).
    pose proof (Z.div_le_upper_bound (lanes cs) (2 ^ 4) (lanes cs) ltac:(lia) ltac:(lia)).
    unfold two32. change (256 ^ Z.of_nat 4) with 4294967296 in Hb. lia.
Qed.

Lemma __sw_hweight32_spec w : 0 <= w < two32 -> __sw_hweight32 w = popcount w 32.
Proof.
  intros Hw. rewrite <- (lanes_bytes 4 w) by exact Hw.
  pose proof (bytes_byte 4 w) as Hb. pose proof (bytes_length 4 w) as Hl.
  rewrite hweight32_lanes by done. rewrite <- popcount_lanes by done. by rewrite Hl.
Qed.

Lemma __sw_hweight8_spec w : byte w -> __sw_hweight8 w = popcount w 8.
Proof.
  intros Hw. apply Z.eqb_eq.
  exact (byte_check (fun w => __sw_hweight8 w =? popcount w 8) ltac:(vm_compute; reflexivity) w Hw).
Qed.

Definition all_bytes : list Z := Z.of_nat <$> seq 0 256.
Definition hweight16_ok (hi : Z) : bool :=
  forallb (fun lo => __sw_hweight16 (lo + 256 * hi) =? popcount (lo + 256 * hi) 16) all_bytes.
Lemma hweight16_all : forallb hweight16_ok all_bytes = true.
Proof. vm_compute. reflexivity. Qed.

Lemma __sw_hweight16_spec w : 0 <= w < 65536 -> __sw_hweight16 w = popcount w 16.
Proof.
  intros Hw. apply Z.eqb_eq.
  pose proof (byte_check _ hweight16_all (w / 256)) as Hc.
  specialize (Hc ltac:(split; [apply Z.div_pos; lia|apply Z.div_lt_upper_bound; lia])).
  pose proof (byte_check _ Hc (w mod 256) ltac:(apply Z.mod_pos_bound; lia)) as Hd. cbv beta in Hd.
  by replace (w mod 256 + 256 * (w / 256)) with w in Hd by (pose proof (Z.div_mod w 256); lia).
Qed.

(** * Counting after a change *)

(** One more index has the property. *)
Lemma count_flip p q lo n b :
  lo <= b < lo + Z.of_nat n -> p b = false -> q b = true ->
  (forall i, lo <= i < lo + Z.of_nat n -> i <> b -> p i = q i) -> count q lo n = count p lo n + 1.
Proof.
  revert lo. induction n as [|n IH]; intros lo Hb Hp Hq Heq; [lia|]. cbn [count].
  destruct (Z.eq_dec lo b) as [->|Hne].
  - rewrite Hp, Hq. rewrite (count_ext q p (b + 1) (b + 1) n); [lia|].
    intros i Hi. symmetry. apply Heq; lia.
  - rewrite (Heq lo) by lia. rewrite (IH (lo + 1)) by (try lia; try done; intros; apply Heq; lia). lia.
Qed.
Lemma count_same p q lo n :
  (forall i, lo <= i < lo + Z.of_nat n -> p i = q i) -> count p lo n = count q lo n.
Proof. intros E. apply count_ext. intros i Hi. apply E. lia. Qed.

(** Disjoint properties add up. *)
Lemma count_disjoint p q lo n :
  (forall i, lo <= i < lo + Z.of_nat n -> p i = true -> q i = false) ->
  count (fun i => p i || q i) lo n = count p lo n + count q lo n.
Proof.
  revert lo. induction n as [|n IH]; intros lo Hd; cbn [count]; [done|].
  rewrite IH by (intros; apply Hd; [lia|done]). specialize (Hd lo ltac:(lia)).
  destruct (p lo), (q lo); cbn [orb]; naive_solver lia.
Qed.
Lemma count_negb p lo n : count (fun i => negb (p i)) lo n = Z.of_nat n - count p lo n.
Proof. revert lo. induction n as [|n IH]; intros lo; cbn [count]; [lia|]. rewrite IH. destruct (p lo); cbn [negb]; lia. Qed.
Lemma count_pos p lo n : 0 < count p lo n -> exists i, lo <= i < lo + Z.of_nat n /\ p i = true.
Proof.
  revert lo. induction n as [|n IH]; intros lo; cbn [count]; [lia|]. destruct (p lo) eqn:E.
  - intros _. exists lo. split; [lia|done].
  - intros Hc. destruct (IH (lo + 1)) as (i&?&?); [lia|]. exists i. split; [lia|done].
Qed.
