(* ===== verification/Bitmap.v ===== *)
(** Bitmaps: lib/bitmap.c and the inline wrappers of include/linux/bitmap.h.

    Every operation is written over the array of words the code touches, and
    specified bit by bit.  An operation that takes a destination returns the new
    destination; the word-wise ones read word k of the sources before they write
    word k, so that a destination that is also a source behaves like a copy.
    Bit counts are ints or unsigned ints below 2^31, as every caller passes. *)

From S2P Require Import Prelude FindBit Hweight.

Definition b2z (b : bool) : Z := if b then 1 else 0.

(** * Word loops *)

(** for (k = ...; n turns; k++) result |= (dst[k] = f(bitmap1[k], bitmap2[k])); *)
Fixpoint zip_words (f : Z -> Z -> Z) (n : nat) (k : Z) (dst b1 b2 : list Z) (result : Z)
    : res (list Z * Z) :=
  match n with
  | O => Ret (dst, result)
  | S n' =>
      let* x := load b1 k in
      let* y := load b2 k in
      let v := f x y in
      let* dst' := store dst k v in
      zip_words f n' (k + 1) dst' b1 b2 (Z.lor result v)
  end.

(** for (k = ...; n turns; k++) if (test(bitmap1[k], bitmap2[k])) return hit; *)
Fixpoint any_word (test : Z -> Z -> bool) (n : nat) (k : Z) (b1 b2 : list Z) : res bool :=
  match n with
  | O => Ret false
  | S n' =>
      let* x := load b1 k in
      let* y := load b2 k in
      if test x y then Ret true else any_word test n' (k + 1) b1 b2
  end.

Definition nonzero (x : Z) : bool := negb (x =? 0).
Definition andnot (x y : Z) : Z := Z.land x (w64 (Z.lnot y)).

(** * Comparisons *)

(** The whole words, then the last partial one under its mask. *)
Definition __bitmap_equal (b1 b2 : list Z) (bits : Z) : res Z :=
  let lim := bits / BITS_PER_LONG in
  let* differ := any_word (fun x y => negb (x =? y)) (Z.to_nat lim) 0 b1 b2 in
  if differ then Ret 0
  else if nonzero (bits mod BITS_PER_LONG) then
    let* x := load b1 lim in
    let* y := load b2 lim in
    Ret (if nonzero (Z.land (Z.lxor x y) (BITMAP_LAST_WORD_MASK bits)) then 0 else 1)
  else Ret 1.

Definition __bitmap_intersects (b1 b2 : list Z) (bits : Z) : res Z :=
  let lim := bits / BITS_PER_LONG in
  let* hit := any_word (fun x y => nonzero (Z.land x y)) (Z.to_nat lim) 0 b1 b2 in
  if hit then Ret 1
  else if nonzero (bits mod BITS_PER_LONG) then
    let* x := load b1 lim in
    let* y := load b2 lim in
    Ret (if nonzero (Z.land (Z.land x y) (BITMAP_LAST_WORD_MASK bits)) then 1 else 0)
  else Ret 0.

Definition __bitmap_subset (b1 b2 : list Z) (bits : Z) : res Z :=
  let lim := bits / BITS_PER_LONG in
  let* hit := any_word (fun x y => nonzero (andnot x y)) (Z.to_nat lim) 0 b1 b2 in
  if hit then Ret 0
  else if nonzero (bits mod BITS_PER_LONG) then
    let* x := load b1 lim in
    let* y := load b2 lim in
    Ret (if nonzero (Z.land (andnot x y) (BITMAP_LAST_WORD_MASK bits)) then 0 else 1)
  else Ret 1.

(** * Combinations *)

Definition __bitmap_complement (dst src : list Z) (bits : Z) : res (list Z) :=
  let lim := bits / BITS_PER_LONG in
  let* (dst, _) := zip_words (fun x _ => w64 (Z.lnot x)) (Z.to_nat lim) 0 dst src src 0 in
  if nonzero (bits mod BITS_PER_LONG) then
    let* x := load src lim in
    store dst lim (w64 (Z.lnot x))
  else Ret dst.

Definition bitmap_masked (f : Z -> Z -> Z) (dst b1 b2 : list Z) (bits : Z) : res (list Z * Z) :=
  let lim := bits / BITS_PER_LONG in
  let* (dst, result) := zip_words f (Z.to_nat lim) 0 dst b1 b2 0 in
  if nonzero (bits mod BITS_PER_LONG) then
    let* x := load b1 lim in
    let* y := load b2 lim in
    let v := Z.land (f x y) (BITMAP_LAST_WORD_MASK bits) in
    let* dst := store dst lim v in
    Ret (dst, b2z (nonzero (Z.lor result v)))
  else Ret (dst, b2z (nonzero result)).
Definition __bitmap_and (dst b1 b2 : list Z) (bits : Z) : res (list Z * Z) :=
  bitmap_masked Z.land dst b1 b2 bits.
Definition __bitmap_andnot (dst b1 b2 : list Z) (bits : Z) : res (list Z * Z) :=
  bitmap_masked andnot dst b1 b2 bits.

Definition bitmap_whole (f : Z -> Z -> Z) (dst b1 b2 : list Z) (bits : Z) : res (list Z) :=
  res_map fst (zip_words f (Z.to_nat (BITS_TO_LONGS bits)) 0 dst b1 b2 0).
Definition __bitmap_or (dst b1 b2 : list Z) (bits : Z) : res (list Z) := bitmap_whole Z.lor dst b1 b2 bits.
Definition __bitmap_xor (dst b1 b2 : list Z) (bits : Z) : res (list Z) := bitmap_whole Z.lxor dst b1 b2 bits.

(** memset of n words *)
Fixpoint fill_words (v : Z) (n : nat) (k : Z) (dst : list Z) : res (list Z) :=
  match n with
  | O => Ret dst
  | S n' => let* dst' := store dst k v in fill_words v n' (k + 1) dst'
  end.
Definition bitmap_zero (dst : list Z) (nbits : Z) : res (list Z) :=
  fill_words 0 (Z.to_nat (BITS_TO_LONGS nbits)) 0 dst.
Definition bitmap_fill (dst : list Z) (nbits : Z) : res (list Z) :=
  let nlongs := BITS_TO_LONGS nbits in
  let* dst := fill_words ULONG_MAX (Z.to_nat (nlongs - 1)) 0 dst in
  store dst (nlongs - 1) (BITMAP_LAST_WORD_MASK nbits).

(** * Counting *)

(** The sum is an int. *)
Fixpoint weight_loop (n : nat) (k : Z) (bitmap : list Z) (w : Z) : res Z :=
  match n with
  | O => Ret w
  | S n' => let* x := load bitmap k in weight_loop n' (k + 1) bitmap (s32 (w + __sw_hweight64 x))
  end.
Definition __bitmap_weight (bitmap : list Z) (bits : Z) : res Z :=
  let lim := bits / BITS_PER_LONG in
  let* w := weight_loop (Z.to_nat lim) 0 bitmap 0 in
  if nonzero (bits mod BITS_PER_LONG) then
    let* x := load bitmap lim in
    Ret (s32 (w + __sw_hweight64 (Z.land x (BITMAP_LAST_WORD_MASK bits))))
  else Ret w.

(** * Single bits (include/asm-generic/bitops/non-atomic.h) *)

Definition BIT_MASK (nr : Z) : Z := w64 (Z.shiftl 1 (nr mod BITS_PER_LONG)).
Definition BIT_WORD (nr : Z) : Z := nr / BITS_PER_LONG.
Definition set_bit (nr : Z) (addr : list Z) : res (list Z) :=
  let* w := load addr (BIT_WORD nr) in store addr (BIT_WORD nr) (Z.lor w (BIT_MASK nr)).
Definition clear_bit (nr : Z) (addr : list Z) : res (list Z) :=
  let* w := load addr (BIT_WORD nr) in store addr (BIT_WORD nr) (andnot w (BIT_MASK nr)).
Definition test_bit (nr : Z) (addr : list Z) : res bool :=
  let* w := load addr (BIT_WORD nr) in
  Ret (nonzero (Z.land 1 (Z.shiftr w (Z.land nr (BITS_PER_LONG - 1))))).

(** * Runs of bits *)

(** while (len - bits_to_set >= 0) { *p |= mask; len -= bits_to_set; ... p++; }
    with [upd] the update of one word; gives back map, p, len and mask. *)
Fixpoint run_loop (fuel : nat) (upd : Z -> Z -> Z) (map : list Z) (p len bits_to_set mask : Z)
    : res (list Z * Z * Z * Z) :=
  match fuel with
  | O => OutOfFuel
  | S fuel' =>
      if 0 <=? len - bits_to_set then
        let* w := load map p in
        let* map' := store map p (upd w mask) in
        run_loop fuel' upd map' (p + 1) (len - bits_to_set) BITS_PER_LONG ULONG_MAX
      else Ret (map, p, len, mask)
  end.

(** Every turn but the last one writes a word of [map]. *)
Definition bitmap_run (upd : Z -> Z -> Z) (map : list Z) (start len : Z) : res (list Z) :=
  let size := w32 (start + len) in
  let* (map, p, len, mask) :=
    run_loop (S (length map)) upd map (BIT_WORD start) len
      (BITS_PER_LONG - start mod BITS_PER_LONG) (BITMAP_FIRST_WORD_MASK start) in
  if nonzero len then
    let* w := load map p in
    store map p (upd w (Z.land mask (BITMAP_LAST_WORD_MASK size)))
  else Ret map.
Definition __bitmap_set (map : list Z) (start len : Z) : res (list Z) := bitmap_run Z.lor map start len.
Definition __bitmap_clear (map : list Z) (start len : Z) : res (list Z) := bitmap_run andnot map start len.

(** [__ALIGN_MASK(x, mask)] *)
Definition ALIGN_MASK (x mask : Z) : Z := Z.land (w64 (x + mask)) (w64 (Z.lnot mask)).

(** The [goto again] moves [start] past a set bit. *)
Fixpoint zero_area_again (fuel : nat) (map : list Z) (size start nr align_mask align_offset : Z) : res Z :=
  match fuel with
  | O => OutOfFuel
  | S fuel' =>
      let* index := find_next_zero_bit map size start in
      let index := w64 (ALIGN_MASK (w64 (index + align_offset)) align_mask - align_offset) in
      let endp := w64 (index + nr) in
      if size <? endp then Ret endp
      else
        let* i := find_next_bit map endp index in
        if i <? endp then zero_area_again fuel' map size (w64 (i + 1)) nr align_mask align_offset
        else Ret index
  end.
Definition bitmap_find_next_zero_area_off (map : list Z) (size start nr align_mask align_offset : Z) : res Z :=
  zero_area_again (S (Z.to_nat size)) map size start nr align_mask align_offset.
Definition bitmap_find_next_zero_area (map : list Z) (size start nr align_mask : Z) : res Z :=
  bitmap_find_next_zero_area_off map size start nr align_mask 0.

(** * Shifts *)

Definition shift_right_upper (src : list Z) (off rem lim mask k : Z) : res Z :=
  if (rem =? 0) || (lim <=? off + k + 1) then Ret 0
  else
    let* u := load src (off + k + 1) in
    let u := if off + k + 1 =? lim - 1 then Z.land u mask else u in
    Ret (w64 (Z.shiftl u (BITS_PER_LONG - rem))).
Definition shift_right_word (src : list Z) (off rem lim mask k : Z) : res Z :=
  let* upper := shift_right_upper src off rem lim mask k in
  let* l := load src (off + k) in
  let l := if off + k =? lim - 1 then Z.land l mask else l in
  Ret (Z.lor (Z.shiftr l rem) upper).
Fixpoint shift_right_loop (n : nat) (k : Z) (dst src : list Z) (off rem lim mask : Z) : res (list Z) :=
  match n with
  | O => Ret dst
  | S n' =>
      let* v := shift_right_word src off rem lim mask k in
      let* dst' := store dst k v in
      shift_right_loop n' (k + 1) dst' src off rem lim mask
  end.
Definition __bitmap_shift_right (dst src : list Z) (shift nbits : Z) : res (list Z) :=
  let lim := BITS_TO_LONGS nbits in
  let off := shift / BITS_PER_LONG in
  let rem := shift mod BITS_PER_LONG in
  let* dst := shift_right_loop (Z.to_nat (lim - off)) 0 dst src off rem lim (BITMAP_LAST_WORD_MASK nbits) in
  if nonzero off then fill_words 0 (Z.to_nat off) (w32 (lim - off)) dst else Ret dst.

(** k counts down from lim - off - 1 to 0. *)
Fixpoint shift_left_loop (n : nat) (dst src : list Z) (off rem : Z) : res (list Z) :=
  match n with
  | O => Ret dst
  | S n' =>
      let k := Z.of_nat n' in
      let* lower :=
        if negb (rem =? 0) && (0 <? k) then
          let* l := load src (k - 1) in Ret (Z.shiftr l (BITS_PER_LONG - rem))
        else Ret 0 in
      let* u := load src k in
      let* dst' := store dst (k + off) (Z.lor lower (w64 (Z.shiftl u rem))) in
      shift_left_loop n' dst' src off rem
  end.
Definition __bitmap_shift_left (dst src : list Z) (shift nbits : Z) : res (list Z) :=
  let lim := BITS_TO_LONGS nbits in
  let off := shift / BITS_PER_LONG in
  let rem := shift mod BITS_PER_LONG in
  let* dst := shift_left_loop (Z.to_nat (lim - off)) dst src off rem in
  if nonzero off then fill_words 0 (Z.to_nat off) 0 dst else Ret dst.

(** * Aligned regions of 2^order bits *)

Inductive reg_op := REG_OP_ISFREE | REG_OP_ALLOC | REG_OP_RELEASE.

Fixpoint reg_isfree (n : nat) (k : Z) (bitmap : list Z) (mask : Z) : res Z :=
  match n with
  | O => Ret 1
  | S n' =>
      let* w := load bitmap k in
      if nonzero (Z.land w mask) then Ret 0 else reg_isfree n' (k + 1) bitmap mask
  end.
Fixpoint reg_update (upd : Z -> Z -> Z) (n : nat) (k : Z) (bitmap : list Z) (mask : Z) : res (list Z) :=
  match n with
  | O => Ret bitmap
  | S n' =>
      let* w := load bitmap k in
      let* bitmap' := store bitmap k (upd w mask) in
      reg_update upd n' (k + 1) bitmap' mask
  end.
Definition __reg_op (bitmap : list Z) (pos order : Z) (op : reg_op) : res (list Z * Z) :=
  let nbits_reg := Z.shiftl 1 order in
  let index := pos / BITS_PER_LONG in
  let offset := pos - index * BITS_PER_LONG in
  let nlongs_reg := BITS_TO_LONGS nbits_reg in
  let nbitsinlong := Z.min nbits_reg BITS_PER_LONG in
  let mask := w64 (Z.shiftl 1 (nbitsinlong - 1)) in
  let mask := w64 (mask + (mask - 1)) in
  let mask := w64 (Z.shiftl mask offset) in
  match op with
  | REG_OP_ISFREE => let* r := reg_isfree (Z.to_nat nlongs_reg) index bitmap mask in Ret (bitmap, r)
  | REG_OP_ALLOC =>
      let* bitmap := reg_update Z.lor (Z.to_nat nlongs_reg) index bitmap mask in Ret (bitmap, 0)
  | REG_OP_RELEASE =>
      let* bitmap := reg_update andnot (Z.to_nat nlongs_reg) index bitmap mask in Ret (bitmap, 0)
  end.

Fixpoint free_region_loop (fuel : nat) (bitmap : list Z) (bits order pos : Z) : res (list Z * Z) :=
  match fuel with
  | O => OutOfFuel
  | S fuel' =>
      let endp := w32 (pos + w32 (Z.shiftl 1 order)) in
      if endp <=? bits then
        let* (_, free) := __reg_op bitmap pos order REG_OP_ISFREE in
        if free =? 0 then free_region_loop fuel' bitmap bits order endp
        else
          let* (bitmap, _) := __reg_op bitmap pos order REG_OP_ALLOC in
          Ret (bitmap, pos)
      else Ret (bitmap, - ENOMEM)
  end.
Definition bitmap_find_free_region (bitmap : list Z) (bits order : Z) : res (list Z * Z) :=
  free_region_loop (S (Z.to_nat bits)) bitmap bits order 0.
Definition bitmap_release_region (bitmap : list Z) (pos order : Z) : res (list Z) :=
  res_map fst (__reg_op bitmap pos order REG_OP_RELEASE).
Definition bitmap_allocate_region (bitmap : list Z) (pos order : Z) : res (list Z * Z) :=
  let* (_, free) := __reg_op bitmap pos order REG_OP_ISFREE in
  if free =? 0 then Ret (bitmap, - EBUSY) else __reg_op bitmap pos order REG_OP_ALLOC.

(** * Positions and ordinals *)

Definition bitmap_pos_to_ord (buf : list Z) (pos nbits : Z) : res Z :=
  if nbits <=? pos then Ret (-1)
  else
    let* set := test_bit pos buf in
    if set then __bitmap_weight buf pos else Ret (-1).

Fixpoint ord_to_pos_loop (ord : nat) (buf : list Z) (pos nbits : Z) : res Z :=
  if pos <? nbits then
    match ord with
    | O => Ret pos
    | S ord' =>
        let* pos' := find_next_bit buf nbits (w32 (pos + 1)) in
        ord_to_pos_loop ord' buf pos' nbits
    end
  else Ret pos.
Definition bitmap_ord_to_pos (buf : list Z) (ord nbits : Z) : res Z :=
  let* pos := find_first_bit buf nbits in
  ord_to_pos_loop (Z.to_nat ord) buf pos nbits.

(** for_each_set_bit(bit, addr, size) *)
Fixpoint set_bits_loop {A} (fuel : nat) (addr : list Z) (size bit : Z) (body : Z -> A -> res A) (a : A)
    : res A :=
  match fuel with
  | O => OutOfFuel
  | S fuel' =>
      if bit <? size then
        let* a' := body bit a in
        let* bit' := find_next_bit addr size (w32 (bit + 1)) in
        set_bits_loop fuel' addr size bit' body a'
      else Ret a
  end.
Definition for_each_set_bit {A} (addr : list Z) (size : Z) (body : Z -> A -> res A) (a : A) : res A :=
  let* bit := find_first_bit addr size in
  set_bits_loop (S (Z.to_nat size)) addr size bit body a.

(** [same] tells whether the pointers dst and src are equal. *)
Definition bitmap_remap (same : bool) (dst src old new : list Z) (nbits : Z) : res (list Z) :=
  if same then Ret dst
  else
    let* dst := bitmap_zero dst nbits in
    let* w := __bitmap_weight new nbits in
    let w := w32 w in
    for_each_set_bit src nbits (fun oldbit dst =>
      let* n := bitmap_pos_to_ord old oldbit nbits in
      if (n <? 0) || (w =? 0) then set_bit oldbit dst
      else
        let* pos := bitmap_ord_to_pos new (n mod w) nbits in
        set_bit pos dst) dst.
Definition bitmap_bitremap (oldbit : Z) (old new : list Z) (bits : Z) : res Z :=
  let* w := __bitmap_weight new bits in
  let* n := bitmap_pos_to_ord old oldbit bits in
  if (n <? 0) || (w =? 0) then Ret oldbit else bitmap_ord_to_pos new (w32 (Z.rem n w)) bits.
Definition bitmap_onto (same : bool) (dst orig relmap : list Z) (bits : Z) : res (list Z) :=
  if same then Ret dst
  else
    let* dst := bitmap_zero dst bits in
    res_map fst (for_each_set_bit relmap bits (fun n '(dst, m) =>
      let* set := test_bit m orig in
      let* dst := if set then set_bit n dst else Ret dst in
      Ret (dst, w32 (m + 1))) (dst, 0)).
Definition bitmap_fold (same : bool) (dst orig : list Z) (sz nbits : Z) : res (list Z) :=
  if same then Ret dst
  else
    let* dst := bitmap_zero dst nbits in
    for_each_set_bit orig nbits (fun oldbit dst => set_bit (oldbit mod sz) dst) dst.
