(* ===== verification/BitmapFacts.v ===== *)
(** Bit-by-bit specifications of the bitmap operations. *)

From S2P Require Import Prelude FindBit Hweight Bitmap.

(** * Words of an array *)

Lemma store_ok addr k w :
  0 <= k < Z.of_nat (length addr) -> store addr k w = Ret (<[Z.to_nat k := w]> addr).
Proof. intros Hk. unfold store. case_cmps; done. Qed.

Lemma nth_insert addr k w j :
  (k < length addr)%nat -> nth j (<[k := w]> addr) 0 = if (j =? k)%nat then w else nth j addr 0.
Proof.
  intros Hk. rewrite !nth_lookup. destruct (Nat.eqb_spec j k) as [->|].
  - by rewrite list_lookup_insert_eq.
  - by rewrite list_lookup_insert_ne.
Qed.

Lemma words_insert addr k w : words addr -> 0 <= w < two64 -> words (<[k := w]> addr).
Proof. intros. by apply Forall_insert. Qed.

Lemma bit_insert addr k w i :
  0 <= i -> 0 <= k < Z.of_nat (length addr) ->
  bit (<[Z.to_nat k := w]> addr) i = if i / 64 =? k then Z.testbit w (i mod 64) else bit addr i.
Proof.
  intros Hi Hk. pose proof (Z.div_pos i 64 ltac:(lia) ltac:(lia)). unfold bit. rewrite nth_insert by lia.
  destruct (Nat.eqb_spec (Z.to_nat (i / 64)) (Z.to_nat k)), (Z.eqb_spec (i / 64) k); try lia; done.
Qed.

Lemma BITS_TO_LONGS_bounds n : 0 <= n -> 64 * BITS_TO_LONGS n - 64 < n <= 64 * BITS_TO_LONGS n /\ 0 <= BITS_TO_LONGS n.
Proof.
  intros Hn. unfold BITS_TO_LONGS, BITS_PER_LONG. divmod (n + 64 - 1) 64.
  pose proof (Z.div_pos (n + 64 - 1) 64 ltac:(lia) ltac:(lia)). lia.
Qed.
Lemma nonzero_spec v :
  0 <= v < two64 -> nonzero v = true <-> exists j, 0 <= j < 64 /\ Z.testbit v j = true.
Proof.
  intros Hv. unfold nonzero. destruct (Z.eqb_spec v 0) as [->|Hne]; cbn [negb].
  - split; [done|]. intros (j&_&Hj). by rewrite Z.bits_0 in Hj.
  - split; [intros _|done]. destruct (pos_bit v) as (j&Hj&Hb); [lia|].
    exists j. split; [|done]. destruct (Z.lt_ge_cases j 64); [lia|]. by rewrite testbit_word in Hb.
Qed.

(** * Operations word by word *)

(** [f] acts on words as [g] acts on bits. *)
Definition wordwise (f : Z -> Z -> Z) (g : bool -> bool -> bool) : Prop :=
  forall x y, 0 <= x < two64 -> 0 <= y < two64 ->
    0 <= f x y < two64 /\ forall j, 0 <= j < 64 -> Z.testbit (f x y) j = g (Z.testbit x j) (Z.testbit y j).

Lemma wordwise_land : wordwise Z.land andb.
Proof. intros x y Hx Hy. split; [apply land_range; lia|]. intros. apply Z.land_spec. Qed.
Lemma wordwise_lor : wordwise Z.lor orb.
Proof. intros x y Hx Hy. split; [by apply lor_range|]. intros. apply Z.lor_spec. Qed.
Lemma wordwise_lxor : wordwise Z.lxor xorb.
Proof. intros x y Hx Hy. split; [by apply lxor_range|]. intros. apply Z.lxor_spec. Qed.
Lemma wordwise_andnot : wordwise andnot (fun a b => a && negb b).
Proof.
  intros x y Hx Hy. unfold andnot. pose proof (w64_range (Z.lnot y)).
  split; [apply land_range; lia|]. intros. by rewrite Z.land_spec, lnot_testbit.
Qed.
Lemma wordwise_not : wordwise (fun x _ => w64 (Z.lnot x)) (fun a _ => negb a).
Proof. intros x y _ _. split; [apply w64_range|]. intros. by apply lnot_testbit. Qed.
#[export] Hint Resolve wordwise_land wordwise_lor wordwise_lxor wordwise_andnot wordwise_not : machine.

Section Wordwise.
Context (f : Z -> Z -> Z) (g : bool -> bool -> bool).
Hypothesis Hfg : wordwise f g.

Lemma zip_words_spec b1 b2 n : forall k dst result,
  words dst -> words b1 -> words b2 -> 0 <= k ->
  k + Z.of_nat n <= Z.of_nat (length dst) ->
  k + Z.of_nat n <= Z.of_nat (length b1) -> k + Z.of_nat n <= Z.of_nat (length b2) ->
  exists dst' r, zip_words f n k dst b1 b2 result = Ret (dst', r)
    /\ words dst' /\ length dst' = length dst
    /\ (forall i, 0 <= i -> bit dst' i = if (64 * k <=? i) && (i <? 64 * (k + Z.of_nat n))
                                       then g (bit b1 i) (bit b2 i) else bit dst i)
    /\ (r = 0 <-> result = 0 /\ forall i, 64 * k <= i < 64 * (k + Z.of_nat n) -> g (bit b1 i) (bit b2 i) = false).
Proof using Hfg.
  induction n as [|n IH]; intros k dst result Hd H1 H2 Hk Hld Hl1 Hl2; cbn [zip_words].
  { exists dst, result. split_and!; try done.
    - intros i Hi. case_cmps; done.
    - split; [intros; split; [done|lia]|by intros []]. }
  rewrite !load_ok by lia. cbn [res_bind].
  pose proof (words_nth b1 (Z.to_nat k) H1) as R1. pose proof (words_nth b2 (Z.to_nat k) H2) as R2.
  destruct (Hfg _ _ R1 R2) as [Rv Hv]. rewrite store_ok by lia. cbn [res_bind].
  set (v := f (nth (Z.to_nat k) b1 0) (nth (Z.to_nat k) b2 0)) in *.
  assert (Hword : forall i, 64 * k <= i < 64 * (k + 1) -> Z.testbit v (i mod 64) = g (bit b1 i) (bit b2 i)).
  { intros i Hi. divmod i 64. assert (i / 64 = k) as E by lia. rewrite Hv by lia. unfold bit. by rewrite E. }
  destruct (IH (k + 1) (<[Z.to_nat k := v]> dst) (Z.lor result v)) as (dst'&r&E&Hw&Hl&Hb&Hr);
    try done; try (rewrite ?length_insert; lia); [by apply words_insert|].
  exists dst', r. split_and!; [done|done|by rewrite Hl, length_insert| |].
  - intros i Hi. rewrite Hb, bit_insert by lia. divmod i 64.
    destruct (Z.eqb_spec (i / 64) k) as [Ei|Ei]; case_cmps; try done; try lia. by rewrite Hword by lia.
  - rewrite Hr, Z.lor_eq_0_iff. split.
    + intros [[-> Ev] Hrest]. split; [done|]. intros i Hi.
      destruct (Z.lt_ge_cases i (64 * (k + 1))); [|apply Hrest; lia].
      rewrite <- Hword, Ev by lia. apply Z.bits_0.
    + intros [-> Hall]. split_and!; [done| |intros; apply Hall; lia].
      apply word_eq_0; [done|]. intros j Hj. specialize (Hword (64 * k + j) ltac:(lia)).
      rewrite Hall in Hword by lia. rewrite Z.mul_comm, Z.add_comm, Z_mod_plus_full, Z.mod_small in Hword by lia.
      done.
Qed.
End Wordwise.

(** The last, partial word of a bitmap of [bits] bits. *)
Lemma last_word bits :
  0 < bits mod 64 -> 0 <= bits -> 0 <= bits / 64 /\ (bits - 1) / 64 = bits / 64
  /\ forall j, 0 <= j < 64 -> Z.testbit (BITMAP_LAST_WORD_MASK bits) j = (64 * (bits / 64) + j <? bits).
Proof.
  intros Hm Hb. divmod bits 64. assert ((bits - 1) / 64 = bits / 64) as E.
  { symmetry. apply (Z.div_unique_pos _ _ _ (bits mod 64 - 1)); lia. }
  split_and!; [apply Z.div_pos; lia|done|]. intros j Hj. by rewrite last_mask_testbit, E by lia.
Qed.

Lemma BITS_TO_LONGS_div bits :
  0 <= bits -> BITS_TO_LONGS bits = bits / 64 + (if nonzero (bits mod 64) then 1 else 0).
Proof.
  intros Hb. unfold BITS_TO_LONGS, BITS_PER_LONG, nonzero. divmod bits 64.
  destruct (Z.eqb_spec (bits mod 64) 0); cbn [negb]; symmetry;
    [apply (Z.div_unique_pos _ _ _ 63)|apply (Z.div_unique_pos _ _ _ (bits mod 64 - 1))]; lia.
Qed.

(** A bounded search decides. *)
Lemma first_hit (p : Z -> bool) n :
  (exists i, 0 <= i < n /\ p i = true) \/ (forall i, 0 <= i < n -> p i = false).
Proof.
  destruct (Z.lt_ge_cases n 0); [right; lia|]. pattern n. apply natlike_ind; [right; lia| |done].
  intros x Hx [(i&Hi&Hp)|Hno]; [left; exists i; split; [lia|done]|].
  destruct (p x) eqn:E; [left; exists x; split; [lia|done]|right].
  intros i Hi. destruct (Z.eq_dec i x) as [->|]; [done|]. apply Hno. lia.
Qed.

(** A result word that collects the bits of [p] reports whether there is one. *)
Lemma collected (p : Z -> bool) bits r :
  (r = 0 <-> forall i, 0 <= i < bits -> p i = false) ->
  (b2z (nonzero r) = 0 \/ b2z (nonzero r) = 1)
  /\ (b2z (nonzero r) = 1 <-> exists i, 0 <= i < bits /\ p i = true).
Proof.
  intros Hr. unfold b2z, nonzero. destruct (Z.eqb_spec r 0) as [Er|Er]; cbn [negb].
  - split; [by left|]. split; [done|]. intros (i&Hi&Ht). by rewrite (proj1 Hr Er) in Ht.
  - split; [by right|]. split; [intros _|done].
    destruct (first_hit p bits) as [?|Hno]; [done|]. by destruct Er; apply Hr.
Qed.

Lemma nonzero_cases x : (nonzero x = false /\ x = 0) \/ (nonzero x = true /\ x <> 0).
Proof. unfold nonzero. destruct (Z.eqb_spec x 0); [by left|by right]. Qed.

Section Masked.
Context (f : Z -> Z -> Z) (g : bool -> bool -> bool).
Hypothesis Hfg : wordwise f g.

(** The last word under its mask. *)
Lemma masked_word b1 b2 bits :
  words b1 -> words b2 -> 0 <= bits -> 0 < bits mod 64 ->
  let k := Z.to_nat (bits / 64) in
  let v := Z.land (f (nth k b1 0) (nth k b2 0)) (BITMAP_LAST_WORD_MASK bits) in
  0 <= v < two64 /\ forall i, 64 * (bits / 64) <= i < 64 * (bits / 64) + 64 ->
    Z.testbit v (i mod 64) = (i <? bits) && g (bit b1 i) (bit b2 i).
Proof using Hfg.
  intros H1 H2 Hb Hm k v. destruct (last_word bits Hm Hb) as (_&_&Hmask).
  destruct (Hfg _ _ (words_nth b1 k H1) (words_nth b2 k H2)) as [Rv Hv]. split.
  - apply land_range; [done|apply last_mask_range].
  - intros i Hi. divmod i 64. assert (i / 64 = bits / 64) as E by lia. unfold v.
    rewrite Z.land_spec, Hmask, Hv by lia. unfold bit, k. rewrite E, andb_comm. f_equal. lia.
Qed.

(** The masked combinations clear the unused bits of the last word and report
    whether any bit is set. *)
Lemma bitmap_masked_spec dst b1 b2 bits :
  holds dst bits -> holds b1 bits -> holds b2 bits ->
  exists dst' r, bitmap_masked f dst b1 b2 bits = Ret (dst', r)
    /\ words dst' /\ length dst' = length dst
    /\ (forall i, 0 <= i -> bit dst' i = if i <? 64 * BITS_TO_LONGS bits
                                       then (i <? bits) && g (bit b1 i) (bit b2 i) else bit dst i)
    /\ (r = 0 \/ r = 1)
    /\ (r = 1 <-> exists i, 0 <= i < bits /\ g (bit b1 i) (bit b2 i) = true).
Proof using Hfg.
  intros (Hd&Hdn&_) (H1&H1n&_) (H2&H2n&_). unfold bitmap_masked, BITS_PER_LONG.
  divmod bits 64. pose proof (Z.div_pos bits 64 ltac:(lia) ltac:(lia)).
  destruct (zip_words_spec f g Hfg b1 b2 (Z.to_nat (bits / 64)) 0 dst 0)
    as (d1&r1&->&Hw&Hl&Hb&Hr); try done; try lia. cbn [res_bind].
  rewrite Z2Nat.id, Z.mul_0_r, Z.add_0_l in * by lia.
  rewrite BITS_TO_LONGS_div by lia.
  destruct (nonzero_cases (bits mod 64)) as [[-> Em]|[-> Em]].
  - exists d1, (b2z (nonzero r1)). split_and!; [done..| | |].
    + intros i Hi. rewrite Hb by done. case_cmps; done.
    + apply (collected (fun i => g (bit b1 i) (bit b2 i)) bits). rewrite Hr.
      replace (64 * (bits / 64)) with bits by lia. naive_solver.
    + apply (collected (fun i => g (bit b1 i) (bit b2 i)) bits). rewrite Hr.
      replace (64 * (bits / 64)) with bits by lia. naive_solver.
  - rewrite !load_ok by lia. cbn [res_bind].
    destruct (masked_word b1 b2 bits H1 H2 ltac:(lia) ltac:(lia)) as [Rx Hlast]. set (v := Z.land _ _) in *.
    rewrite store_ok by lia. cbn [res_bind].
    assert (Hres : Z.lor r1 v = 0 <-> forall i, 0 <= i < bits -> g (bit b1 i) (bit b2 i) = false).
    { rewrite Z.lor_eq_0_iff, Hr. split.
      - intros [[_ Hlow] Ev] i Hi. destruct (Z.lt_ge_cases i (64 * (bits / 64))); [apply Hlow; lia|].
        specialize (Hlast i ltac:(lia)). rewrite Ev, Z.bits_0 in Hlast.
        destruct (g (bit b1 i) (bit b2 i)); [lia|done].
      - intros Ha. split; [split; [done|intros; apply Ha; lia]|]. apply word_eq_0; [done|].
        intros j Hj. specialize (Hlast (64 * (bits / 64) + j) ltac:(lia)).
        rewrite Z.mul_comm, Z.add_comm, Z_mod_plus_full, Z.mod_small in Hlast by lia. rewrite Hlast.
        case_cmp; [|done]. cbn [andb]. apply Ha. lia. }
    eexists _, _. split; [done|]. split_and!; [by apply words_insert|by rewrite length_insert| |by apply (collected _ _ _ Hres)..].
    intros i Hi. rewrite bit_insert by lia. rewrite Hb by done. divmod i 64.
    destruct (Z.eqb_spec (i / 64) (bits / 64)); [rewrite Hlast by lia|]; case_cmps; done.
Qed.

Lemma bitmap_whole_spec dst b1 b2 bits :
  holds dst bits -> holds b1 bits -> holds b2 bits ->
  exists dst', bitmap_whole f dst b1 b2 bits = Ret dst'
    /\ words dst' /\ length dst' = length dst
    /\ forall i, 0 <= i -> bit dst' i = if i <? 64 * BITS_TO_LONGS bits
                                      then g (bit b1 i) (bit b2 i) else bit dst i.
Proof using Hfg.
  intros (Hd&Hdn&_) (H1&H1n&_) (H2&H2n&_). unfold bitmap_whole.
  pose proof (BITS_TO_LONGS_bounds bits ltac:(lia)) as [Hbl Hnn].
  destruct (zip_words_spec f g Hfg b1 b2 (Z.to_nat (BITS_TO_LONGS bits)) 0 dst 0)
    as (d1&r1&->&Hw&Hl&Hb&_); try done; try lia.
  exists d1. split_and!; try done. intros i Hi. rewrite Hb, Z2Nat.id by lia. case_cmps; done.
Qed.
End Masked.

(** * Scans *)

Section Scan.
Context (test : Z -> Z -> bool) (f : Z -> Z -> Z) (g : bool -> bool -> bool).
Hypothesis Hfg : wordwise f g.
Hypothesis Htest : forall x y, 0 <= x < two64 -> 0 <= y < two64 -> test x y = nonzero (f x y).

Lemma any_word_spec b1 b2 n : forall k,
  words b1 -> words b2 -> 0 <= k ->
  k + Z.of_nat n <= Z.of_nat (length b1) -> k + Z.of_nat n <= Z.of_nat (length b2) ->
  exists b, any_word test n k b1 b2 = Ret b
    /\ (b = true <-> exists i, 64 * k <= i < 64 * (k + Z.of_nat n) /\ g (bit b1 i) (bit b2 i) = true).
Proof using Hfg Htest.
  induction n as [|n IH]; intros k H1 H2 Hk Hl1 Hl2; cbn [any_word].
  { exists false. split; [done|]. split; [done|]. intros (i&?&_). lia. }
  rewrite !load_ok by lia. cbn [res_bind].
  pose proof (words_nth b1 (Z.to_nat k) H1) as R1. pose proof (words_nth b2 (Z.to_nat k) H2) as R2.
  destruct (Hfg _ _ R1 R2) as [Rv Hv]. rewrite Htest by done. set (v := f _ _) in *.
  assert (Hword : forall i, 64 * k <= i < 64 * (k + 1) -> Z.testbit v (i mod 64) = g (bit b1 i) (bit b2 i)).
  { intros i Hi. divmod i 64. assert (i / 64 = k) as E by lia. rewrite Hv by lia. unfold bit. by rewrite E. }
  destruct (nonzero v) eqn:Env.
  - exists true. split; [done|]. split; [intros _|done].
    apply nonzero_spec in Env as (j&Hj&Hb); [|done]. exists (64 * k + j). split; [lia|].
    rewrite <- Hword by lia. by rewrite Z.mul_comm, Z.add_comm, Z_mod_plus_full, Z.mod_small by lia.
  - destruct (IH (k + 1)) as (b&->&Hb); try done; try lia. exists b. split; [done|]. rewrite Hb.
    split; intros (i&Hi&Hg); exists i; (split; [|done]); [lia|].
    destruct (Z.lt_ge_cases i (64 * (k + 1))); [|lia]. exfalso.
    assert (nonzero v = true) as Hc; [|congruence]. apply nonzero_spec; [done|].
    exists (i mod 64). divmod i 64. split; [lia|]. by rewrite Hword by lia.
Qed.

(** Whole words, then the last word under its mask. *)
Lemma scan_spec b1 b2 bits :
  holds b1 bits -> holds b2 bits ->
  exists b, (let* hit := any_word test (Z.to_nat (bits / BITS_PER_LONG)) 0 b1 b2 in
             if hit then Ret true
             else if nonzero (bits mod BITS_PER_LONG) then
               let* x := load b1 (bits / BITS_PER_LONG) in
               let* y := load b2 (bits / BITS_PER_LONG) in
               Ret (nonzero (Z.land (f x y) (BITMAP_LAST_WORD_MASK bits)))
             else Ret false) = Ret b
    /\ (b = true <-> exists i, 0 <= i < bits /\ g (bit b1 i) (bit b2 i) = true).
Proof using Hfg Htest.
  intros (H1&H1n&_) (H2&H2n&_). unfold BITS_PER_LONG.
  divmod bits 64. pose proof (Z.div_pos bits 64 ltac:(lia) ltac:(lia)).
  destruct (any_word_spec b1 b2 (Z.to_nat (bits / 64)) 0) as (hit&->&Hhit); try done; try lia.
  cbn [res_bind]. rewrite Z2Nat.id, Z.mul_0_r, Z.add_0_l in Hhit by lia.
  destruct hit.
  { exists true. split; [done|]. split; [intros _|done].
    destruct (proj1 Hhit eq_refl) as (i&Hi&Hg). exists i. split; [lia|done]. }
  assert (Hlow : forall i, 0 <= i < 64 * (bits / 64) -> g (bit b1 i) (bit b2 i) = false).
  { intros i Hi. destruct (g _ _) eqn:E; [|done]. by discriminate (proj2 Hhit ltac:(by exists i)). }
  destruct (nonzero_cases (bits mod 64)) as [[-> Em]|[-> Em]].
  { exists false. split; [done|]. split; [done|]. intros (i&Hi&Hg). by rewrite Hlow in Hg by lia. }
  rewrite !load_ok by lia. cbn [res_bind].
  destruct (masked_word f g Hfg b1 b2 bits H1 H2 ltac:(lia) ltac:(lia)) as [Rx Hlast]. set (v := Z.land _ _) in *.
  exists (nonzero v). split; [done|]. rewrite nonzero_spec by done. split.
  - intros (j&Hj&Hb). specialize (Hlast (64 * (bits / 64) + j) ltac:(lia)).
    rewrite (Z.mul_comm 64), Z.add_comm, Z_mod_plus_full, Z.mod_small, Hb in Hlast by lia.
    symmetry in Hlast. apply andb_true_iff in Hlast as [? ?].
    exists (j + bits / 64 * 64). split; [lia|done].
  - intros (i&Hi&Hg). destruct (Z.lt_ge_cases i (64 * (bits / 64))); [by rewrite Hlow in Hg by lia|].
    exists (i mod 64). divmod i 64. split; [lia|]. rewrite Hlast by lia. rewrite Hg. lia.
Qed.
End Scan.

Lemma lxor_nonzero x y : negb (x =? y) = nonzero (Z.lxor x y).
Proof.
  unfold nonzero. f_equal. destruct (Z.eqb_spec x y) as [->|]; [by rewrite Z.lxor_nilpotent|].
  destruct (Z.eqb_spec (Z.lxor x y) 0) as [E|]; [by apply Z.lxor_eq in E|done].
Qed.

Lemma bool_iff_false (b : bool) (P : Prop) : (b = true <-> P) -> b = false <-> ~ P.
Proof. destruct b; naive_solver. Qed.

(** Reads the outcome of a comparison off the outcome of its scan. *)
Ltac read_scan :=
  repeat match goal with
         | E : context [res_bind ?m _] |- _ => destruct m as [[]| |]; cbn [res_bind] in *; try (by inv_res)
         | E : context [res_bind ?m _] |- _ => destruct m; cbn [res_bind] in *; try (by inv_res)
         | E : context [if ?b then _ else _] |- _ => destruct b; try (by inv_res)
         end; try (by inv_res).

Lemma __bitmap_equal_spec b1 b2 bits :
  holds b1 bits -> holds b2 bits ->
  exists r, __bitmap_equal b1 b2 bits = Ret r /\ (r = 0 \/ r = 1)
    /\ (r = 1 <-> forall i, 0 <= i < bits -> bit b1 i = bit b2 i).
Proof.
  intros H1 H2. destruct (scan_spec (fun x y => negb (x =? y)) Z.lxor xorb wordwise_lxor
    ltac:(intros; apply lxor_nonzero) b1 b2 bits H1 H2) as (b&E&Hb).
  exists (if b then 0 else 1). split_and!; [unfold __bitmap_equal; read_scan|destruct b; auto|].
  destruct b.
  - split; [done|]. intros Ha. destruct (proj1 Hb eq_refl) as (i&Hi&Hx). by rewrite Ha, xorb_nilpotent in Hx.
  - split; [intros _|done]. intros i Hi. apply xorb_eq. destruct (xorb _ _) eqn:Ex; [|done].
    by discriminate (proj2 Hb ltac:(by exists i)).
Qed.

Lemma __bitmap_intersects_spec b1 b2 bits :
  holds b1 bits -> holds b2 bits ->
  exists r, __bitmap_intersects b1 b2 bits = Ret r /\ (r = 0 \/ r = 1)
    /\ (r = 1 <-> exists i, 0 <= i < bits /\ bit b1 i = true /\ bit b2 i = true).
Proof.
  intros H1 H2. destruct (scan_spec (fun x y => nonzero (Z.land x y)) Z.land andb wordwise_land
    ltac:(done) b1 b2 bits H1 H2) as (b&E&Hb).
  exists (if b then 1 else 0). split_and!; [unfold __bitmap_intersects; read_scan|destruct b; auto|].
  setoid_rewrite andb_true_iff in Hb. destruct b; naive_solver.
Qed.

Lemma __bitmap_subset_spec b1 b2 bits :
  holds b1 bits -> holds b2 bits ->
  exists r, __bitmap_subset b1 b2 bits = Ret r /\ (r = 0 \/ r = 1)
    /\ (r = 1 <-> forall i, 0 <= i < bits -> bit b1 i = true -> bit b2 i = true).
Proof.
  intros H1 H2. destruct (scan_spec (fun x y => nonzero (andnot x y)) andnot (fun a b => a && negb b)
    wordwise_andnot ltac:(done) b1 b2 bits H1 H2) as (b&E&Hb).
  exists (if b then 0 else 1). split_and!; [unfold __bitmap_subset; read_scan|destruct b; auto|].
  destruct b.
  - split; [done|]. intros Ha. destruct (proj1 Hb eq_refl) as (i&Hi&[Hx Hy]%andb_true_iff).
    by rewrite (Ha i Hi Hx) in Hy.
  - split; [intros _|done]. intros i Hi Hx. destruct (bit b2 i) eqn:Ey; [done|].
    discriminate (proj2 Hb). exists i. by rewrite Hx, Ey.
Qed.

(** * Complement, zero and fill *)

Lemma __bitmap_complement_spec dst src bits :
  holds dst bits -> holds src bits ->
  exists dst', __bitmap_complement dst src bits = Ret dst' /\ words dst' /\ length dst' = length dst
    /\ forall i, 0 <= i -> bit dst' i = if i <? 64 * BITS_TO_LONGS bits then negb (bit src i) else bit dst i.
Proof.
  intros (Hd&Hdn&_) (H1&H1n&_). unfold __bitmap_complement, BITS_PER_LONG.
  divmod bits 64. pose proof (Z.div_pos bits 64 ltac:(lia) ltac:(lia)).
  destruct (zip_words_spec _ _ wordwise_not src src (Z.to_nat (bits / 64)) 0 dst 0)
    as (d1&r1&->&Hw&Hl&Hb&_); try done; try lia. cbn [res_bind].
  rewrite Z2Nat.id, Z.mul_0_r, Z.add_0_l in * by lia. rewrite BITS_TO_LONGS_div by lia.
  destruct (nonzero_cases (bits mod 64)) as [[-> Em]|[-> Em]].
  - exists d1. split_and!; try done. intros i Hi. rewrite Hb by done. case_cmps; done.
  - rewrite load_ok by lia. cbn [res_bind]. rewrite store_ok by lia.
    eexists. split; [done|]. split_and!; [apply words_insert, w64_range; done|by rewrite length_insert|].
    intros i Hi. rewrite bit_insert, Hb by lia. divmod i 64.
    destruct (Z.eqb_spec (i / 64) (bits / 64)) as [E|]; [|case_cmps; done].
    rewrite lnot_testbit by lia. unfold bit. rewrite E. case_cmps; done.
Qed.

Lemma fill_words_spec v n : forall k dst,
  0 <= v < two64 -> words dst -> 0 <= k -> k + Z.of_nat n <= Z.of_nat (length dst) ->
  exists dst', fill_words v n k dst = Ret dst' /\ words dst' /\ length dst' = length dst
    /\ forall i, 0 <= i -> bit dst' i = if (64 * k <=? i) && (i <? 64 * (k + Z.of_nat n))
                                      then Z.testbit v (i mod 64) else bit dst i.
Proof.
  induction n as [|n IH]; intros k dst Hv Hd Hk Hl; cbn [fill_words].
  { exists dst. split_and!; try done. intros i Hi. case_cmps; done. }
  rewrite store_ok by lia. cbn [res_bind].
  destruct (IH (k + 1) (<[Z.to_nat k := v]> dst)) as (d&->&Hw&Hld&Hb);
    try done; try (rewrite ?length_insert; lia); [by apply words_insert|].
  exists d. split_and!; [done|done|by rewrite Hld, length_insert|].
  intros i Hi. rewrite Hb, bit_insert by lia. divmod i 64.
  destruct (Z.eqb_spec (i / 64) k); case_cmps; done.
Qed.

Lemma bitmap_zero_spec dst nbits :
  holds dst nbits ->
  exists dst', bitmap_zero dst nbits = Ret dst' /\ words dst' /\ length dst' = length dst
    /\ forall i, 0 <= i -> bit dst' i = if i <? 64 * BITS_TO_LONGS nbits then false else bit dst i.
Proof.
  intros (Hd&Hdn&_). pose proof (BITS_TO_LONGS_bounds nbits ltac:(lia)) as [Hbl Hnn].
  destruct (fill_words_spec 0 (Z.to_nat (BITS_TO_LONGS nbits)) 0 dst) as (d&E&Hw&Hl&Hb);
    [unfold two64; lia|done|lia|lia|].
  exists d. split_and!; try done. intros i Hi. rewrite Hb, Z2Nat.id, Z.bits_0 by lia. case_cmps; done.
Qed.

Lemma bitmap_fill_spec dst nbits :
  holds dst nbits -> 0 < nbits ->
  exists dst', bitmap_fill dst nbits = Ret dst' /\ words dst' /\ length dst' = length dst
    /\ forall i, 0 <= i -> bit dst' i = if i <? 64 * BITS_TO_LONGS nbits then i <? nbits else bit dst i.
Proof.
  intros (Hd&Hdn&_) Hpos. pose proof (BITS_TO_LONGS_bounds nbits ltac:(lia)) as [Hbl Hnn].
  unfold bitmap_fill.
  destruct (fill_words_spec ULONG_MAX (Z.to_nat (BITS_TO_LONGS nbits - 1)) 0 dst) as (d&->&Hw&Hl&Hb);
    [unfold ULONG_MAX, two64; lia|done|lia|lia|]. cbn [res_bind]. rewrite store_ok by lia.
  eexists. split; [done|]. split_and!; [apply words_insert, last_mask_range; done|by rewrite length_insert|].
  intros i Hi. rewrite bit_insert, Hb by lia. rewrite Z2Nat.id by lia. divmod i 64.
  destruct (Z.eqb_spec (i / 64) (BITS_TO_LONGS nbits - 1)) as [E|E].
  - rewrite last_mask_testbit by lia.
    assert ((nbits - 1) / 64 = BITS_TO_LONGS nbits - 1) as ->
      by (symmetry; apply (Z.div_unique_pos _ _ _ (nbits - 1 - 64 * (BITS_TO_LONGS nbits - 1))); lia).
    case_cmps; done.
  - rewrite ULONG_MAX_testbit by lia. case_cmps; done.
Qed.

(** * Weight *)

Lemma hweight_word addr k :
  words addr -> 0 <= k -> __sw_hweight64 (nth (Z.to_nat k) addr 0) = count (bit addr) (64 * k) 64.
Proof.
  intros Hw Hk. rewrite __sw_hweight64_spec by (by apply words_nth). apply count_ext.
  intros i Hi. by rewrite bit_in_word by lia.
Qed.

Lemma weight_loop_spec addr n : forall k w,
  words addr -> 0 <= k -> k + Z.of_nat n <= Z.of_nat (length addr) ->
  weight_loop n k addr (s32 w) = Ret (s32 (w + count (bit addr) (64 * k) (64 * n))).
Proof.
  induction n as [|n IH]; intros k w Hw Hk Hl; [simpl; do 2 f_equal; lia|]. cbn [weight_loop].
  rewrite load_ok by lia. cbn [res_bind]. rewrite hweight_word, s32_add_l, IH by (done || lia). do 2 f_equal.
  replace (64 * S n)%nat with (64 + 64 * n)%nat by lia. rewrite count_app.
  replace (64 * k + Z.of_nat 64) with (64 * (k + 1)) by lia. lia.
Qed.

Lemma __bitmap_weight_spec addr bits :
  holds addr bits -> __bitmap_weight addr bits = Ret (s32 (count (bit addr) 0 (Z.to_nat bits))).
Proof.
  intros (Hw&Hn&_). unfold __bitmap_weight, BITS_PER_LONG.
  divmod bits 64. pose proof (Z.div_pos bits 64 ltac:(lia) ltac:(lia)).
  change 0 with (s32 0) at 2. rewrite weight_loop_spec by (done || lia). cbn [res_bind]. rewrite Z.mul_0_r, Z.add_0_l.
  destruct (nonzero_cases (bits mod 64)) as [[-> Em]|[-> Em]].
  { do 3 f_equal. lia. }
  rewrite load_ok by lia. cbn [res_bind]. rewrite s32_add_l. do 2 f_equal.
  replace (Z.to_nat bits) with (64 * Z.to_nat (bits / 64) + Z.to_nat (bits mod 64))%nat by lia.
  rewrite count_app. f_equal.
  destruct (last_word bits ltac:(lia) ltac:(lia)) as (_&_&Hmask).
  pose proof (words_nth addr (Z.to_nat (bits / 64)) Hw).
  rewrite __sw_hweight64_spec by (apply land_range; [done|apply last_mask_range]). unfold popcount.
  replace 64%nat with (Z.to_nat (bits mod 64) + Z.to_nat (64 - bits mod 64))%nat at 1 by lia.
  rewrite count_app. rewrite (proj2 (count_zero _ _ (Z.to_nat (64 - bits mod 64)))), Z.add_0_r.
  - apply count_ext. intros i Hi. rewrite Z.land_spec, Hmask by lia.
    replace (0 + Z.of_nat (64 * Z.to_nat (bits / 64)) + i) with (64 * (bits / 64) + i) by lia.
    rewrite bit_in_word by lia. replace (64 * (bits / 64) + (0 + i) <? bits) with true by lia. by rewrite andb_true_r.
  - intros i Hi. rewrite Z.land_spec, Hmask by lia.
    replace (64 * (bits / 64) + i <? bits) with false by lia. apply andb_false_r.
Qed.
(** The sum of fewer than 2^31 bits fits an int. *)
Lemma bitmap_weight_int addr bits :
  holds addr bits -> bits < 2147483648 -> __bitmap_weight addr bits = Ret (count (bit addr) 0 (Z.to_nat bits)).
Proof.
  intros Hh Hb. rewrite __bitmap_weight_spec, s32_small by first [done|pose proof (count_bounds (bit addr) 0 (Z.to_nat bits)); lia]. done.
Qed.

(** * Single bits *)

Lemma BIT_MASK_testbit nr j : 0 <= j < 64 -> Z.testbit (BIT_MASK nr) j = (j =? nr mod 64).
Proof.
  intros Hj. unfold BIT_MASK, BITS_PER_LONG. divmod nr 64.
  rewrite w64_testbit, Z.shiftl_1_l, Z.pow2_bits_eqb by lia. lia.
Qed.

Section OneBit.
Context (nr : Z) (addr : list Z).
Hypothesis Hw : words addr.
Hypothesis Hn : 0 <= nr < 64 * Z.of_nat (length addr).

Lemma bit_word_bounds : 0 <= nr / 64 < Z.of_nat (length addr).
Proof using Hn. split; [apply Z.div_pos; lia|apply Z.div_lt_upper_bound; lia]. Qed.

Lemma set_bit_spec :
  exists addr', set_bit nr addr = Ret addr' /\ words addr' /\ length addr' = length addr
    /\ forall i, 0 <= i -> bit addr' i = (i =? nr) || bit addr i.
Proof using Hw Hn.
  pose proof bit_word_bounds. unfold set_bit, BIT_WORD, BITS_PER_LONG.
  rewrite load_ok by lia. cbn [res_bind]. rewrite store_ok by lia. eexists. split; [done|].
  pose proof (words_nth addr (Z.to_nat (nr / 64)) Hw). split_and!;
    [apply words_insert, lor_range, w64_range; done|by rewrite length_insert|].
  intros i Hi. rewrite bit_insert by lia. divmod i 64. divmod nr 64.
  destruct (Z.eqb_spec (i / 64) (nr / 64)) as [E|E].
  - rewrite Z.lor_spec, BIT_MASK_testbit, orb_comm by lia. unfold bit. rewrite E. f_equal. lia.
  - replace (i =? nr) with false by lia. done.
Qed.

Lemma clear_bit_spec :
  exists addr', clear_bit nr addr = Ret addr' /\ words addr' /\ length addr' = length addr
    /\ forall i, 0 <= i -> bit addr' i = negb (i =? nr) && bit addr i.
Proof using Hw Hn.
  pose proof bit_word_bounds. unfold clear_bit, BIT_WORD, BITS_PER_LONG.
  rewrite load_ok by lia. cbn [res_bind]. rewrite store_ok by lia. eexists. split; [done|].
  destruct (wordwise_andnot (nth (Z.to_nat (nr / 64)) addr 0) (BIT_MASK nr)) as [Hr Hb];
    [by apply words_nth|apply w64_range|]. split_and!; [by apply words_insert|by rewrite length_insert|].
  intros i Hi. rewrite bit_insert by lia. divmod i 64. divmod nr 64.
  destruct (Z.eqb_spec (i / 64) (nr / 64)) as [E|E].
  - rewrite Hb, BIT_MASK_testbit, andb_comm by lia. unfold bit. rewrite E. do 2 f_equal. lia.
  - replace (i =? nr) with false by lia. done.
Qed.

Lemma test_bit_spec : test_bit nr addr = Ret (bit addr nr).
Proof using Hw Hn.
  pose proof bit_word_bounds. unfold test_bit, BIT_WORD, BITS_PER_LONG.
  rewrite load_ok by lia. cbn [res_bind]. f_equal. unfold bit, nonzero.
  change (64 - 1) with (Z.ones 6). rewrite Z.land_ones by lia. change (2 ^ 6) with 64.
  set (w := nth _ addr 0). rewrite Z.land_comm. change 1 with (Z.ones 1). rewrite Z.land_ones by lia.
  rewrite Z.pow_1_r, <- Z.bit0_mod, Z.shiftr_spec, Z.add_0_l by lia.
  by destruct (Z.testbit w (nr mod 64)).
Qed.
End OneBit.

(** * Runs *)

Section Run.
Context (upd : Z -> Z -> Z) (v : bool).
(** [upd w mask] gives the bits of the mask the value [v]. *)
Hypothesis Hupd : wordwise upd (fun a m => if m then v else a).

(** Updating word [p] under a mask that covers [lo, hi) there. *)
Lemma run_word map p mask lo hi :
  words map -> 0 <= p < Z.of_nat (length map) -> 0 <= mask < two64 ->
  64 * p <= lo -> hi <= 64 * (p + 1) ->
  (forall j, 0 <= j < 64 -> Z.testbit mask j = (lo <=? 64 * p + j) && (64 * p + j <? hi)) ->
  let map' := <[Z.to_nat p := upd (nth (Z.to_nat p) map 0) mask]> map in
  words map' /\ forall i, 0 <= i -> bit map' i = if (lo <=? i) && (i <? hi) then v else bit map i.
Proof using Hupd.
  intros Hw Hp Hm Hlo Hhi Hmask map'.
  destruct (Hupd _ _ (words_nth map (Z.to_nat p) Hw) Hm) as [Hr Hb]. split; [by apply words_insert|].
  intros i Hi. unfold map'. rewrite bit_insert by done. divmod i 64.
  destruct (Z.eqb_spec (i / 64) p) as [E|E].
  - rewrite Hb, Hmask by lia. unfold bit. rewrite E.
    replace (64 * p + i mod 64) with i by lia. done.
  - case_cmps; done.
Qed.

Lemma run_loop_spec fin fuel : forall map p len bits_to_set mask,
  words map -> 0 <= p -> 0 < bits_to_set <= 64 -> 0 <= len -> 0 <= mask < two64 ->
  64 * p + (64 - bits_to_set) + len = fin -> fin <= 64 * Z.of_nat (length map) ->
  (forall j, 0 <= j < 64 -> Z.testbit mask j = (64 - bits_to_set <=? j)) ->
  Z.of_nat (length map) - p < Z.of_nat fuel ->
  exists map' p' len' mask', run_loop fuel upd map p len bits_to_set mask = Ret (map', p', len', mask')
    /\ words map' /\ length map' = length map /\ 0 <= p' /\ 0 <= mask' < two64
    /\ exists cur, cur + len' = fin /\ Z.max (64 * p') (64 * p + (64 - bits_to_set)) <= cur
      /\ fin < 64 * (p' + 1) /\ 0 <= len'
      /\ (forall j, 0 <= j < 64 -> Z.testbit mask' j = (cur <=? 64 * p' + j))
      /\ (forall i, 0 <= i -> bit map' i
            = if (64 * p + (64 - bits_to_set) <=? i) && (i <? cur) then v else bit map i).
Proof using Hupd.
  induction fuel as [|fuel IH]; intros map p len bts mask Hw Hp Hbts Hlen Hm Hfin Hroom Hmask Hf; [lia|].
  cbn [run_loop]. destruct (Z.leb_spec 0 (len - bts)).
  - rewrite load_ok by lia. cbn [res_bind]. rewrite store_ok by lia. cbn [res_bind].
    destruct (run_word map p mask (64 * p + (64 - bts)) (64 * (p + 1)) Hw) as [Hw' Hb'];
      [lia|done|lia|lia|intros j Hj; rewrite Hmask by done; lia|].
    unfold BITS_PER_LONG in *.
    destruct (IH (<[Z.to_nat p := upd (nth (Z.to_nat p) map 0) mask]> map) (p + 1) (len - bts) 64 ULONG_MAX)
      as (m&p'&l'&k'&E&Hwm&Hlm&Hp'&Hk'&cur&Hc1&Hc2&Hc3&Hc4&Hk&Hbm);
      try done; try (rewrite ?length_insert; lia); try (unfold ULONG_MAX, two64; lia).
    { intros j Hj. rewrite ULONG_MAX_testbit by lia. lia. }
    exists m, p', l', k'. split_and!; [done|done|by rewrite Hlm, length_insert|lia|lia|lia|].
    exists cur. split_and!; try done; [lia|]. intros i Hi. rewrite Hbm, Hb' by done. case_cmps; done.
  - exists map, p, len, mask. split_and!; try done; try lia.
    exists (64 * p + (64 - bts)). split_and!; try lia.
    + intros j Hj. rewrite Hmask by done. lia.
    + intros i Hi. case_cmps; done.
Qed.

Lemma bitmap_run_spec map start len :
  words map -> 0 <= start -> 0 <= len -> start + len <= 64 * Z.of_nat (length map) -> start + len < two32 ->
  exists map', bitmap_run upd map start len = Ret map' /\ words map' /\ length map' = length map
    /\ forall i, 0 <= i -> bit map' i = if (start <=? i) && (i <? start + len) then v else bit map i.
Proof using Hupd.
  intros Hw Hs Hl Hroom H32. unfold bitmap_run, BIT_WORD, BITS_PER_LONG. rewrite w32_small by lia.
  divmod start 64. pose proof (Z.div_pos start 64 ltac:(lia) ltac:(lia)).
  destruct (run_loop_spec (start + len) (S (length map)) map (start / 64) len (64 - start mod 64)
              (BITMAP_FIRST_WORD_MASK start))
    as (m&p'&l'&k'&->&Hwm&Hlm&Hp'&Hk'&cur&Hc1&Hc2&Hc3&Hc4&Hk&Hbm);
    try done; try lia; [apply first_mask_range|intros j Hj; rewrite first_mask_testbit by lia; lia|].
  cbn [res_bind].
  replace (64 * (start / 64) + (64 - (64 - start mod 64))) with start in Hbm by lia.
  destruct (nonzero_cases l') as [[-> E]|[-> E]].
  - exists m. split_and!; try done. intros i Hi. rewrite Hbm by done. case_cmps; done.
  - rewrite load_ok by lia. cbn [res_bind]. rewrite store_ok by lia.
    assert ((start + len - 1) / 64 = p') as Ep.
    { symmetry. apply (Z.div_unique_pos _ _ _ (start + len - 1 - 64 * p')); lia. }
    destruct (run_word m p' (Z.land k' (BITMAP_LAST_WORD_MASK (start + len))) cur (start + len) Hwm)
      as [Hw' Hb']; [lia|apply land_range; [done|apply last_mask_range]|lia|lia| |].
    { intros j Hj. by rewrite Z.land_spec, Hk, last_mask_testbit, Ep by lia. }
    eexists. split; [done|]. split_and!; [done|by rewrite length_insert|].
    intros i Hi. rewrite Hb', Hbm by done. case_cmps; done.
Qed.
End Run.

Lemma wordwise_set : wordwise Z.lor (fun a m => if m then true else a).
Proof. intros x y Hx Hy. destruct (wordwise_lor x y Hx Hy) as [Hr Hb]. split; [done|]. intros j Hj. rewrite Hb by done. by destruct (Z.testbit x j), (Z.testbit y j). Qed.
Lemma wordwise_clear : wordwise andnot (fun a m => if m then false else a).
Proof. intros x y Hx Hy. destruct (wordwise_andnot x y Hx Hy) as [Hr Hb]. split; [done|]. intros j Hj. rewrite Hb by done. by destruct (Z.testbit x j), (Z.testbit y j). Qed.

(** * Searching for an area *)

(** [x] starts a clear, aligned area of [nr] bits inside [start, size). *)
Definition clear_area (map : list Z) (size start nr align offset x : Z) : Prop :=
  start <= x /\ x + nr <= size /\ (x + offset) mod align = 0
  /\ forall i, x <= i < x + nr -> bit map i = false.

Lemma ALIGN_MASK_pow2 x k :
  0 <= x -> 0 <= k <= 32 -> x + 2 ^ k <= two64 -> ALIGN_MASK x (2 ^ k - 1) = (x + 2 ^ k - 1) / 2 ^ k * 2 ^ k.
Proof.
  intros Hx Hk Hb. unfold ALIGN_MASK. assert (0 < 2 ^ k) by (apply Z.pow_pos_nonneg; lia).
  replace (2 ^ k - 1) with (__round_mask (2 ^ k)).
  - fold (round_down (w64 (x + __round_mask (2 ^ k))) (2 ^ k)).
    rewrite round_down_pow2 by (lia || apply w64_range). rewrite round_mask_ones, Z.ones_equiv by lia.
    rewrite w64_small by lia. replace (x + Z.pred (2 ^ k)) with (x + 2 ^ k - 1) by lia.
    divmod (x + 2 ^ k - 1) (2 ^ k). lia.
  - by rewrite round_mask_ones, Z.ones_equiv by lia.
Qed.

Section Area.
Context (map : list Z) (size nr k offset : Z).
Hypothesis Hh : holds map size.
Hypothesis Hnr : 0 < nr < two32.
Hypothesis Hk : 0 <= k <= 32.
Hypothesis Hoff : 0 <= offset < two32.

(** Rounding the candidate up: the least aligned index at or above it. *)
Definition align_index (i : Z) : Z := (i + offset + 2 ^ k - 1) / 2 ^ k * 2 ^ k - offset.

Lemma align_index_spec i :
  0 <= i <= size ->
  w64 (ALIGN_MASK (w64 (i + offset)) (2 ^ k - 1) - offset) = align_index i
  /\ i <= align_index i < i + 2 ^ k /\ (align_index i + offset) mod 2 ^ k = 0
  /\ forall x, i <= x -> (x + offset) mod 2 ^ k = 0 -> align_index i <= x.
Proof using Hh Hk Hoff.
  intros Hi. destruct Hh as (_&_&H32). unfold two32 in *.
  assert (0 < 2 ^ k <= 2 ^ 32) by (split; [apply Z.pow_pos_nonneg|apply Z.pow_le_mono_r]; lia).
  change (2 ^ 32) with 4294967296 in *.
  rewrite (w64_small (i + offset)) by (unfold two64; lia).
  rewrite ALIGN_MASK_pow2 by (unfold two64; lia). fold (align_index i).
  divmod (i + offset + 2 ^ k - 1) (2 ^ k).
  assert (Hb : i <= align_index i < i + 2 ^ k) by (unfold align_index; lia).
  split_and!; [apply w64_small; unfold two64; lia|lia|lia| |].
  - unfold align_index. rewrite Z.sub_add. apply Z_mod_mult.
  - intros x Hx Hm. unfold align_index. divmod (x + offset) (2 ^ k).
    assert ((i + offset + 2 ^ k - 1) / 2 ^ k <= (x + offset) / 2 ^ k); [|nia].
    assert ((i + offset + 2 ^ k - 1) / 2 ^ k < (x + offset) / 2 ^ k + 1); [|lia].
    apply Z.div_lt_upper_bound; lia.
Qed.

Lemma zero_area_again_spec fuel : forall start,
  0 <= start <= size -> size - start < Z.of_nat fuel ->
  exists r, zero_area_again fuel map size start nr (2 ^ k - 1) offset = Ret r
    /\ ((size < r < size + 2 ^ k + nr /\ forall x, ~ clear_area map size start nr (2 ^ k) offset x)
        \/ (clear_area map size start nr (2 ^ k) offset r
            /\ forall x, clear_area map size start nr (2 ^ k) offset x -> r <= x)).
Proof using Hh Hnr Hk Hoff.
  pose proof Hh as (Hw&Hsz&H32). assert (0 < 2 ^ k <= 2 ^ 32) as Hpow
    by (split; [apply Z.pow_pos_nonneg|apply Z.pow_le_mono_r]; lia). change (2 ^ 32) with two32 in Hpow.
  induction fuel as [|fuel IH]; intros start Hs Hf; [lia|]. cbn [zero_area_again].
  destruct (find_next_zero_bit_spec map size start Hh) as (z&->&Hz); [lia|]. cbn [res_bind].
  assert (Hzb : start <= z <= size) by (destruct Hz as [[-> _]|[? _]]; lia).
  destruct (align_index_spec z) as (->&Hidx&Hal&Hmin); [lia|].
  set (idx := align_index z) in *.
  assert (Hcand : forall x, clear_area map size start nr (2 ^ k) offset x -> idx <= x).
  { intros x (Hx1&Hx2&Hx3&Hx4). apply Hmin; [|done]. destruct (Z.le_gt_cases z x) as [|Hxz]; [done|].
    destruct Hz as [[-> Hno]|(_&_&Hno)]; specialize (Hno x ltac:(lia)); rewrite Hx4 in Hno by lia; done. }
  rewrite w64_small by (unfold two64, two32 in *; lia).
  destruct (Z.ltb_spec size (idx + nr)) as [Hbig|Hfit].
  { exists (idx + nr). split; [done|left]. split; [lia|]. intros x Hx. pose proof (Hcand x Hx).
    destruct Hx as (_&?&_). lia. }
  destruct (find_next_bit_spec map (idx + nr) idx) as (i&->&Hi); [split_and!; try done; lia|lia|].
  cbn [res_bind]. destruct (Z.ltb_spec i (idx + nr)) as [Hlt|Hge].
  - destruct Hi as [[-> _]|(Hi&Hset&_)]; [lia|]. rewrite w64_small by (unfold two64, two32 in *; lia).
    assert (Hsame : forall x, clear_area map size start nr (2 ^ k) offset x
                             <-> clear_area map size (i + 1) nr (2 ^ k) offset x).
    { intros x. split; intros Hx.
      - pose proof (Hcand x Hx). destruct Hx as (Hx1&Hx2&Hx3&Hx4). split_and!; try done.
        destruct (Z.lt_ge_cases i x); [lia|]. rewrite Hx4 in Hset by lia. done.
      - destruct Hx as (Hx1&?&?&?). split_and!; try done. lia. }
    destruct (IH (i + 1)) as (r&->&Hr); [lia|lia|]. exists r. split; [done|].
    destruct Hr as [[? Hno]|[Hr Hleast]]; [left|right].
    + split; [done|]. intros x Hx. by apply (Hno x), Hsame.
    + split; [by apply Hsame|]. intros x Hx. by apply Hleast, Hsame.
  - exists idx. split; [done|right]. destruct Hi as [[_ Hno]|[? _]]; [|lia]. split; [|done].
    split_and!; [lia|lia|done|done].
Qed.
End Area.

(** * Shifts *)

(** A word of a bitmap of [nbits] bits, the last one under its mask. *)
Lemma masked_load src nbits m :
  holds src nbits -> 0 < nbits -> 0 <= m < BITS_TO_LONGS nbits ->
  let w := nth (Z.to_nat m) src 0 in
  let w' := if m =? BITS_TO_LONGS nbits - 1 then Z.land w (BITMAP_LAST_WORD_MASK nbits) else w in
  0 <= w' < two64 /\ forall j, 0 <= j < 64 -> Z.testbit w' j = (64 * m + j <? nbits) && bit src (64 * m + j).
Proof.
  intros (Hw&Hn&_) Hpos Hm w w'. pose proof (BITS_TO_LONGS_bounds nbits ltac:(lia)) as [Hb _].
  pose proof (words_nth src (Z.to_nat m) Hw). unfold w'. destruct (Z.eqb_spec m (BITS_TO_LONGS nbits - 1)) as [E|E].
  - split; [apply land_range; [done|apply last_mask_range]|]. intros j Hj.
    rewrite Z.land_spec, last_mask_testbit, bit_in_word, andb_comm by lia.
    assert ((nbits - 1) / 64 = m) as ->; [|done].
    symmetry. apply (Z.div_unique_pos _ _ _ (nbits - 1 - 64 * m)); lia.
  - split; [done|]. intros j Hj. rewrite bit_in_word by lia. case_cmp; [done|lia].
Qed.

Section ShiftRightWord.
Context (src : list Z) (nbits off rem k : Z).
Hypothesis Hh : holds src nbits.
Hypothesis Hpos : 0 < nbits.
Hypothesis Hoff : 0 <= off.
Hypothesis Hrem : 0 <= rem < 64.
Hypothesis Hk : 0 <= k.
Hypothesis Hlt : off + k < BITS_TO_LONGS nbits.

(** The bit that the shift moves to bit [j] of word [k]. *)
Let moved (j : Z) : bool := (64 * (k + off) + j + rem <? nbits) && bit src (64 * (k + off) + j + rem).

Lemma shift_right_upper_spec :
  exists u, shift_right_upper src off rem (BITS_TO_LONGS nbits) (BITMAP_LAST_WORD_MASK nbits) k = Ret u
    /\ 0 <= u < two64 /\ forall j, 0 <= j < 64 -> Z.testbit u j = (64 - rem <=? j) && moved j.
Proof using All.
  pose proof Hh as (Hw&Hn&_). pose proof (BITS_TO_LONGS_bounds nbits ltac:(lia)) as [Hb _].
  unfold shift_right_upper, moved, BITS_PER_LONG.
  destruct (Z.eqb_spec rem 0) as [->|Hr0]; cbn [orb].
  { exists 0. split_and!; [done|unfold two64; lia..|]. intros j Hj. rewrite Z.bits_0. case_cmps; done. }
  destruct (Z.leb_spec (BITS_TO_LONGS nbits) (off + k + 1)).
  { exists 0. split_and!; [done|unfold two64; lia..|]. intros j Hj. rewrite Z.bits_0. case_cmps; done. }
  destruct (masked_load src nbits (off + k + 1) Hh Hpos) as [Ru Hu]; [lia|].
  rewrite load_ok by lia. cbn [res_bind]. cbv zeta in *. set (u := if _ =? _ then _ else _) in *.
  eexists. split; [done|]. split; [apply w64_range|]. intros j Hj.
  rewrite w64_testbit, Z.shiftl_spec by lia. destruct (Z.leb_spec (64 - rem) j); cbn [andb].
  - rewrite Hu by lia. replace (64 * (off + k + 1) + (j - (64 - rem))) with (64 * (k + off) + j + rem) by lia.
    case_cmp; [done|lia].
  - rewrite (Z.testbit_neg_r u) by lia. apply andb_false_r.
Qed.

Lemma shift_right_word_spec :
  exists v, shift_right_word src off rem (BITS_TO_LONGS nbits) (BITMAP_LAST_WORD_MASK nbits) k = Ret v
    /\ 0 <= v < two64 /\ forall j, 0 <= j < 64 -> Z.testbit v j = moved j.
Proof using All.
  pose proof Hh as (Hw&Hn&_). pose proof (BITS_TO_LONGS_bounds nbits ltac:(lia)) as [Hb _].
  unfold shift_right_word. destruct shift_right_upper_spec as (u&->&Ru&Hu). cbn [res_bind].
  destruct (masked_load src nbits (off + k) Hh Hpos) as [Rl Hl]; [lia|].
  rewrite load_ok by lia. cbn [res_bind]. cbv zeta in *. set (l := if _ =? _ then _ else _) in *.
  eexists. split; [done|]. assert (0 <= Z.shiftr l rem < two64).
  { apply range_of_bits; [apply Z.shiftr_nonneg; lia|]. intros i Hi. rewrite Z.shiftr_spec by lia. apply testbit_word; lia. }
  split; [by apply lor_range|]. intros j Hj. rewrite Z.lor_spec, Z.shiftr_spec, Hu by lia.
  destruct (Z.leb_spec (64 - rem) j); cbn [andb].
  - by rewrite (testbit_word l) by lia.
  - rewrite Hl, orb_false_r by lia. unfold moved.
    by replace (64 * (off + k) + (j + rem)) with (64 * (k + off) + j + rem) by lia.
Qed.
End ShiftRightWord.

Lemma shift_right_loop_spec src nbits off rem n : forall k dst,
  holds src nbits -> 0 < nbits -> 0 <= off -> 0 <= rem < 64 -> 0 <= k ->
  off + k + Z.of_nat n <= BITS_TO_LONGS nbits -> words dst -> k + Z.of_nat n <= Z.of_nat (length dst) ->
  exists dst', shift_right_loop n k dst src off rem (BITS_TO_LONGS nbits) (BITMAP_LAST_WORD_MASK nbits) = Ret dst'
    /\ words dst' /\ length dst' = length dst
    /\ forall i, 0 <= i -> bit dst' i = if (64 * k <=? i) && (i <? 64 * (k + Z.of_nat n))
         then (i + 64 * off + rem <? nbits) && bit src (i + 64 * off + rem) else bit dst i.
Proof.
  induction n as [|n IH]; intros k dst Hh Hpos Hoff Hrem Hk Hlim Hd Hl; cbn [shift_right_loop].
  { exists dst. split_and!; try done. intros i Hi. case_cmps; done. }
  destruct (shift_right_word_spec src nbits off rem k) as (v&->&Rv&Hv); try done; try lia.
  cbn [res_bind]. rewrite store_ok by lia. cbn [res_bind].
  destruct (IH (k + 1) (<[Z.to_nat k := v]> dst)) as (d&->&Hw&Hld&Hb);
    try done; try (rewrite ?length_insert; lia); [by apply words_insert|].
  exists d. split_and!; [done|done|by rewrite Hld, length_insert|].
  intros i Hi. rewrite Hb, bit_insert by lia. divmod i 64.
  destruct (Z.eqb_spec (i / 64) k) as [E|E]; [rewrite Hv by lia|case_cmps; done].
  replace (64 * (k + off) + i mod 64 + rem) with (i + 64 * off + rem) by lia. case_cmps; done.
Qed.

Lemma __bitmap_shift_right_spec dst src shift nbits :
  holds dst nbits -> holds src nbits -> 0 < nbits -> 0 <= shift <= nbits ->
  exists dst', __bitmap_shift_right dst src shift nbits = Ret dst' /\ words dst' /\ length dst' = length dst
    /\ forall i, 0 <= i -> bit dst' i = if i <? 64 * BITS_TO_LONGS nbits
         then (i + shift <? nbits) && bit src (i + shift) else bit dst i.
Proof.
  intros (Hd&Hdn&Hd32) Hh Hpos Hs. unfold __bitmap_shift_right, BITS_PER_LONG. divmod shift 64.
  pose proof (Z.div_pos shift 64 ltac:(lia) ltac:(lia)).
  pose proof (BITS_TO_LONGS_bounds nbits ltac:(lia)) as [Hb Hnn].
  assert (shift / 64 <= BITS_TO_LONGS nbits) by lia.
  destruct (shift_right_loop_spec src nbits (shift / 64) (shift mod 64)
              (Z.to_nat (BITS_TO_LONGS nbits - shift / 64)) 0 dst) as (d&->&Hw&Hl&Hbd); try done; try lia.
  cbn [res_bind]. destruct (nonzero_cases (shift / 64)) as [[-> E]|[-> E]].
  - exists d. split_and!; try done. intros i Hi. rewrite Hbd by done.
    replace (i + 64 * (shift / 64) + shift mod 64) with (i + shift) by lia. case_cmps; done.
  - rewrite w32_small by (unfold two32 in *; lia).
    destruct (fill_words_spec 0 (Z.to_nat (shift / 64)) (BITS_TO_LONGS nbits - shift / 64) d)
      as (d2&->&Hw2&Hl2&Hb2); [unfold two64; lia|done|lia|lia|].
    exists d2. split_and!; [done|done|congruence|]. intros i Hi. rewrite Hb2, Hbd, Z.bits_0 by done.
    replace (i + 64 * (shift / 64) + shift mod 64) with (i + shift) by lia. case_cmps; done.
Qed.

Lemma shift_left_loop_spec src off rem n : forall dst,
  words src -> words dst -> 0 <= off -> 0 <= rem < 64 ->
  (n <= length src)%nat -> off + Z.of_nat n <= Z.of_nat (length dst) ->
  exists dst', shift_left_loop n dst src off rem = Ret dst' /\ words dst' /\ length dst' = length dst
    /\ forall i, 0 <= i -> bit dst' i = if (64 * off <=? i) && (i <? 64 * (off + Z.of_nat n))
         then (64 * off + rem <=? i) && bit src (i - 64 * off - rem) else bit dst i.
Proof.
  induction n as [|n IH]; intros dst Hs Hd Hoff Hrem Hls Hld; cbn [shift_left_loop].
  { exists dst. split_and!; try done. intros i Hi. case_cmps; done. }
  unfold BITS_PER_LONG.
  assert (Hlow : exists l, (if negb (rem =? 0) && (0 <? Z.of_nat n)
      then let* l := load src (Z.of_nat n - 1) in Ret (Z.shiftr l (64 - rem)) else Ret 0) = Ret l
      /\ 0 <= l < two64 /\ forall j, 0 <= j < 64 -> Z.testbit l j =
           (j <? rem) && (0 <? Z.of_nat n) && bit src (64 * Z.of_nat n + j - rem)).
  { destruct (Z.eqb_spec rem 0), (Z.ltb_spec 0 (Z.of_nat n)); cbn [negb andb].
    1,2,4: exists 0; (split_and!; [done|unfold two64; lia..|]); intros j Hj; rewrite Z.bits_0; case_cmps; done.
    rewrite load_ok by lia. cbn [res_bind]. pose proof (words_nth src (Z.to_nat (Z.of_nat n - 1)) Hs).
    eexists. split; [done|]. split.
    - apply range_of_bits; [apply Z.shiftr_nonneg; lia|]. intros i Hi. rewrite Z.shiftr_spec by lia. apply testbit_word; lia.
    - intros j Hj. rewrite Z.shiftr_spec by lia. destruct (Z.ltb_spec j rem); cbn [andb].
      + replace (64 * Z.of_nat n + j - rem) with (64 * (Z.of_nat n - 1) + (j + (64 - rem))) by lia.
        by rewrite bit_in_word by lia.
      + apply testbit_word; lia. }
  destruct Hlow as (l&->&Rl&Hl). cbn [res_bind]. rewrite load_ok by lia. cbn [res_bind].
  rewrite store_ok by lia. cbn [res_bind]. rewrite Nat2Z.id.
  pose proof (words_nth src n Hs) as Ru. pose proof (w64_range (Z.shiftl (nth n src 0) rem)) as Rv.
  set (v := Z.lor l _). assert (0 <= v < two64) as Rv' by (by apply lor_range).
  assert (Hv : forall j, 0 <= j < 64 -> Z.testbit v j =
    (rem <=? 64 * Z.of_nat n + j) && bit src (64 * Z.of_nat n + j - rem)).
  { intros j Hj. unfold v. rewrite Z.lor_spec, Hl, w64_testbit, Z.shiftl_spec by lia.
    destruct (Z.ltb_spec j rem); cbn [andb orb].
    - rewrite (Z.testbit_neg_r (nth n src 0)), andb_false_r, orb_false_r by lia. f_equal. lia.
    - replace (64 * Z.of_nat n + j - rem) with (64 * Z.of_nat n + (j - rem)) by lia.
      rewrite bit_in_word, Nat2Z.id by lia. case_cmps; done. }
  destruct (IH (<[Z.to_nat (Z.of_nat n + off) := v]> dst)) as (d&->&Hw&Hlen&Hb);
    try done; try (rewrite ?length_insert; lia); [by apply words_insert|].
  exists d. split_and!; [done|done|by rewrite Hlen, length_insert|].
  intros i Hi. rewrite Hb, bit_insert by lia. divmod i 64.
  destruct (Z.eqb_spec (i / 64) (Z.of_nat n + off)) as [E|E]; [rewrite Hv by lia|case_cmps; done].
  replace (64 * Z.of_nat n + i mod 64 - rem) with (i - 64 * off - rem) by lia. case_cmps; done.
Qed.

Lemma __bitmap_shift_left_spec dst src shift nbits :
  holds dst nbits -> holds src nbits -> 0 < nbits -> 0 <= shift <= nbits ->
  exists dst', __bitmap_shift_left dst src shift nbits = Ret dst' /\ words dst' /\ length dst' = length dst
    /\ forall i, 0 <= i -> bit dst' i = if i <? 64 * BITS_TO_LONGS nbits
         then (shift <=? i) && bit src (i - shift) else bit dst i.
Proof.
  intros (Hd&Hdn&_) (Hs&Hsn&_) Hpos Hsh. unfold __bitmap_shift_left, BITS_PER_LONG. divmod shift 64.
  pose proof (Z.div_pos shift 64 ltac:(lia) ltac:(lia)).
  pose proof (BITS_TO_LONGS_bounds nbits ltac:(lia)) as [Hb Hnn].
  destruct (shift_left_loop_spec src (shift / 64) (shift mod 64)
              (Z.to_nat (BITS_TO_LONGS nbits - shift / 64)) dst) as (d&->&Hw&Hl&Hbd); try done; try lia.
  cbn [res_bind].
  assert (Hmove : forall i, i - 64 * (shift / 64) - shift mod 64 = i - shift) by (intros; lia).
  destruct (nonzero_cases (shift / 64)) as [[-> E]|[-> E]].
  - exists d. split_and!; try done. intros i Hi. rewrite Hbd, Hmove by done. case_cmps; done.
  - destruct (fill_words_spec 0 (Z.to_nat (shift / 64)) 0 d)
      as (d2&->&Hw2&Hl2&Hb2); [unfold two64; lia|done|lia|lia|].
    exists d2. split_and!; [done|done|congruence|]. intros i Hi. rewrite Hb2, Hbd, Hmove, Z.bits_0 by done.
    case_cmps; done.
Qed.

(** * Aligned regions *)

(** The mask selects [lo, hi) in each of the words [k, k + n). *)
Definition region_mask (mask lo hi k : Z) (n : nat) : Prop :=
  0 <= mask < two64 /\ forall m j, k <= m < k + Z.of_nat n -> 0 <= j < 64 ->
    Z.testbit mask j = (lo <=? 64 * m + j) && (64 * m + j <? hi).

Lemma reg_isfree_spec bm mask lo hi n : forall k,
  words bm -> 0 <= k -> k + Z.of_nat n <= Z.of_nat (length bm) -> region_mask mask lo hi k n ->
  exists r, reg_isfree n k bm mask = Ret r /\ (r = 0 \/ r = 1)
    /\ (r = 1 <-> forall i, 64 * k <= i < 64 * (k + Z.of_nat n) -> lo <= i < hi -> bit bm i = false).
Proof.
  induction n as [|n IH]; intros k Hw Hk Hl [Rm Hm]; cbn [reg_isfree].
  { exists 1. split_and!; [done|by right|]. split; [lia|done]. }
  rewrite load_ok by lia. cbn [res_bind]. pose proof (words_nth bm (Z.to_nat k) Hw) as Rw.
  assert (Rv : 0 <= Z.land (nth (Z.to_nat k) bm 0) mask < two64) by (apply land_range; lia).
  assert (Hv : forall i, 64 * k <= i < 64 * (k + 1) ->
    Z.testbit (Z.land (nth (Z.to_nat k) bm 0) mask) (i mod 64) = bit bm i && ((lo <=? i) && (i <? hi))).
  { intros i Hi. divmod i 64. assert (i / 64 = k) as E by lia.
    rewrite Z.land_spec, (Hm k) by lia. unfold bit. rewrite E.
    by replace (64 * k + i mod 64) with i by lia. }
  destruct (nonzero _) eqn:En.
  - exists 0. split_and!; [done|by left|]. split; [done|]. intros Hfree.
    apply nonzero_spec in En as (j&Hj&Hb); [|done]. specialize (Hv (64 * k + j) ltac:(lia)).
    rewrite (Z.mul_comm 64), Z.add_comm, Z_mod_plus_full, Z.mod_small, Hb in Hv by lia.
    symmetry in Hv. apply andb_true_iff in Hv as [Hbit Hr]. rewrite Hfree in Hbit by lia. done.
  - destruct (IH (k + 1)) as (r&->&Hr&Hiff); [done|lia|lia|split; [done|intros; apply Hm; lia]|].
    exists r. split_and!; try done. rewrite Hiff. split; intros Hf i Hi Hlh; [|apply Hf; lia].
    destruct (Z.lt_ge_cases i (64 * (k + 1))); [|apply Hf; lia]. specialize (Hv i ltac:(lia)).
    destruct (bit bm i) eqn:Eb; [|done]. exfalso. assert (nonzero (Z.land (nth (Z.to_nat k) bm 0) mask) = true); [|congruence].
    apply nonzero_spec; [done|]. exists (i mod 64). divmod i 64. split; [lia|]. rewrite Hv. lia.
Qed.

Lemma reg_update_spec upd v mask lo hi n : forall k bm,
  wordwise upd (fun a m => if m then v else a) ->
  words bm -> 0 <= k -> k + Z.of_nat n <= Z.of_nat (length bm) -> region_mask mask lo hi k n ->
  exists bm', reg_update upd n k bm mask = Ret bm' /\ words bm' /\ length bm' = length bm
    /\ forall i, 0 <= i -> bit bm' i =
         if ((64 * k <=? i) && (i <? 64 * (k + Z.of_nat n))) && ((lo <=? i) && (i <? hi)) then v else bit bm i.
Proof.
  induction n as [|n IH]; intros k bm Hu Hw Hk Hl [Rm Hm]; cbn [reg_update].
  { exists bm. split_and!; try done. intros i Hi. case_cmps; done. }
  rewrite load_ok by lia. cbn [res_bind]. rewrite store_ok by lia. cbn [res_bind].
  destruct (Hu _ _ (words_nth bm (Z.to_nat k) Hw) Rm) as [Rv Hv].
  set (x := upd _ _) in *.
  destruct (IH (k + 1) (<[Z.to_nat k := x]> bm)) as (b&->&Hwb&Hlb&Hb);
    try done; try (rewrite ?length_insert; lia); [by apply words_insert|split; [done|intros; apply Hm; lia]|].
  exists b. split_and!; [done|done|by rewrite Hlb, length_insert|].
  intros i Hi. rewrite Hb, bit_insert by lia. divmod i 64.
  destruct (Z.eqb_spec (i / 64) k) as [E|E]; [|case_cmps; done].
  rewrite Hv, (Hm k) by lia. unfold bit. rewrite E. replace (64 * k + i mod 64) with i by lia. case_cmps; done.
Qed.

(** ** The mask __reg_op computes *)

Lemma low_mask m : 1 <= m <= 64 ->
  let mask := w64 (Z.shiftl 1 (m - 1)) in w64 (mask + (mask - 1)) = Z.ones m.
Proof.
  intros Hm mask. unfold mask. rewrite Z.shiftl_1_l. rewrite Z.ones_equiv.
  assert (2 ^ m = 2 * 2 ^ (m - 1)) as E by (rewrite <- Z.pow_succ_r by lia; f_equal; lia).
  assert (0 < 2 ^ (m - 1) <= 2 ^ 63) by (split; [apply Z.pow_pos_nonneg|apply Z.pow_le_mono_r]; lia).
  change (2 ^ 63) with 9223372036854775808 in *.
  rewrite (w64_small (2 ^ (m - 1))) by (unfold two64; lia). rewrite w64_small by (unfold two64; lia). lia.
Qed.

Section Region.
Context (pos order : Z).
Hypothesis Hpos : 0 <= pos.
Hypothesis Hord : 0 <= order <= 30.
Hypothesis Halign : pos mod 2 ^ order = 0.

Definition reg_mask : Z :=
  let mask := w64 (Z.shiftl 1 (Z.min (Z.shiftl 1 order) BITS_PER_LONG - 1)) in
  w64 (Z.shiftl (w64 (mask + (mask - 1))) (pos - pos / BITS_PER_LONG * BITS_PER_LONG)).

Lemma pow_order : 2 ^ order = Z.shiftl 1 order /\ 0 < 2 ^ order <= 1073741824.
Proof using Hord.
  rewrite Z.shiftl_1_l. split; [done|]. split; [apply Z.pow_pos_nonneg; lia|].
  change 1073741824 with (2 ^ 30). apply Z.pow_le_mono_r; lia.
Qed.

(** A region is inside one word, or made of whole words. *)
Lemma region_shape :
  (2 ^ order <= 64 /\ BITS_TO_LONGS (2 ^ order) = 1 /\ pos mod 64 + 2 ^ order <= 64)
  \/ (64 < 2 ^ order /\ 64 * BITS_TO_LONGS (2 ^ order) = 2 ^ order /\ pos mod 64 = 0).
Proof using Hord Halign Hpos.
  pose proof pow_order as [_ Hp]. divmod pos 64.
  pose proof (BITS_TO_LONGS_bounds (2 ^ order) ltac:(lia)) as [Hb _].
  destruct (Z.le_gt_cases order 6) as [Ho|Ho].
  - left. assert (64 = 2 ^ order * 2 ^ (6 - order)) as E by (rewrite <- Z.pow_add_r by lia; by replace (order + (6 - order)) with 6 by lia).
    assert (0 < 2 ^ (6 - order)) by (apply Z.pow_pos_nonneg; lia).
    assert (2 ^ order <= 64) by nia. split_and!; [done|lia|].
    assert ((pos mod 64) mod 2 ^ order = 0) as Hm.
    { rewrite E, Z.rem_mul_r by lia. rewrite Halign, Z.add_0_l, Z.mul_comm. apply Z_mod_mult. }
    divmod (pos mod 64) (2 ^ order). set (q := pos mod 64 / 2 ^ order) in *.
    set (w := 2 ^ (6 - order)) in *. set (p := 2 ^ order) in *. rewrite Hm in *.
    assert (pos mod 64 = p * q) as -> by lia. assert (q < w) by nia. nia.
  - right. assert (2 ^ order = 64 * 2 ^ (order - 6)) as E by (change 64 with (2 ^ 6); rewrite <- Z.pow_add_r by lia; f_equal; lia).
    assert (2 <= 2 ^ (order - 6)) by (change 2 with (2 ^ 1) at 1; apply Z.pow_le_mono_r; lia).
    split_and!; [lia|lia|]. rewrite E, Z.rem_mul_r in Halign by lia.
    pose proof (Z.mod_pos_bound (pos / 64) (2 ^ (order - 6)) ltac:(lia)). lia.
Qed.

Lemma reg_mask_spec :
  region_mask reg_mask pos (pos + 2 ^ order) (pos / 64) (Z.to_nat (BITS_TO_LONGS (2 ^ order))).
Proof using Hord Halign Hpos.
  pose proof pow_order as [Es Hp]. divmod pos 64. split; [apply w64_range|].
  intros m j Hm Hj. unfold reg_mask, BITS_PER_LONG. rewrite <- Es.
  rewrite low_mask by lia. replace (pos - pos / 64 * 64) with (pos mod 64) by lia.
  rewrite w64_testbit, Z.shiftl_spec by lia.
  destruct region_shape as [(Hle&Hl&Hfit)|(Hgt&Hl&Hzero)].
  - rewrite Hl in Hm. assert (m = pos / 64) as -> by lia. rewrite Z.min_l by lia.
    destruct (Z.lt_ge_cases j (pos mod 64)).
    + rewrite Z.testbit_neg_r, andb_false_r by lia. lia.
    + rewrite Z.testbit_ones_nonneg by lia. lia.
  - rewrite Z.min_r, Z.testbit_ones_nonneg by lia. rewrite Z2Nat.id in Hm by lia. lia.
Qed.
End Region.

(** The region's bits are all clear. *)
Definition region_free (bm : list Z) (pos order : Z) : Prop :=
  forall i, pos <= i < pos + 2 ^ order -> bit bm i = false.

Section RegOp.
Context (bm : list Z) (pos order : Z).
Hypothesis Hw : words bm.
Hypothesis Hpos : 0 <= pos.
Hypothesis Hord : 0 <= order <= 30.
Hypothesis Halign : pos mod 2 ^ order = 0.
Hypothesis Hroom : pos + 2 ^ order <= 64 * Z.of_nat (length bm).

(** The words of the region are in the array and contain it. *)
Lemma region_words :
  0 <= pos / 64 /\ 0 <= BITS_TO_LONGS (2 ^ order)
  /\ pos / 64 + BITS_TO_LONGS (2 ^ order) <= Z.of_nat (length bm)
  /\ 64 * (pos / 64) <= pos /\ pos + 2 ^ order <= 64 * (pos / 64 + BITS_TO_LONGS (2 ^ order)).
Proof using All.
  divmod pos 64. pose proof (Z.div_pos pos 64 ltac:(lia) ltac:(lia)). pose proof (pow_order order Hord) as [_ Hp].
  destruct (region_shape pos order Hpos Hord Halign) as [(?&->&?)|(?&?&?)]; split_and!; lia.
Qed.

Lemma reg_op_isfree :
  exists r, __reg_op bm pos order REG_OP_ISFREE = Ret (bm, r) /\ (r = 0 \/ r = 1)
    /\ (r = 1 <-> region_free bm pos order).
Proof using All.
  destruct region_words as (?&?&?&?&?). pose proof (reg_mask_spec pos order Hpos Hord Halign) as Hm.
  destruct (reg_isfree_spec bm (reg_mask pos order) pos (pos + 2 ^ order)
              (Z.to_nat (BITS_TO_LONGS (2 ^ order))) (pos / 64)) as (r&E&Hr&Hiff); try done; try lia.
  unfold __reg_op, BITS_PER_LONG. unfold reg_mask, BITS_PER_LONG in E.
  destruct (pow_order order Hord) as [Es _]. rewrite <- Es in *. cbv zeta in *. rewrite E. cbn [res_bind].
  exists r. split_and!; try done. rewrite Hiff. unfold region_free. split; intros Hf i Hi; [apply Hf|intros; apply Hf]; lia.
Qed.

Lemma reg_op_update op v :
  op = (if v : bool then REG_OP_ALLOC else REG_OP_RELEASE) ->
  exists bm', __reg_op bm pos order op = Ret (bm', 0) /\ words bm' /\ length bm' = length bm
    /\ forall i, 0 <= i -> bit bm' i = if (pos <=? i) && (i <? pos + 2 ^ order) then v else bit bm i.
Proof using All.
  intros Hop. destruct region_words as (?&?&?&?&?).
  pose proof (reg_mask_spec pos order Hpos Hord Halign) as Hm.
  assert (Hu : wordwise (if v then Z.lor else andnot) (fun a m => if m then v else a)).
  { destruct v; [apply wordwise_set|apply wordwise_clear]. }
  destruct (reg_update_spec _ v (reg_mask pos order) pos (pos + 2 ^ order)
              (Z.to_nat (BITS_TO_LONGS (2 ^ order))) (pos / 64) bm Hu) as (b&E&Hwb&Hlb&Hb); try done; try lia.
  exists b. split_and!; try done.
  - unfold __reg_op, BITS_PER_LONG. unfold reg_mask, BITS_PER_LONG in E.
    destruct (pow_order order Hord) as [Es _]. rewrite <- Es in *.
    rewrite Hop. destruct v; cbn; by rewrite E.
  - intros i Hi. rewrite Hb by done. case_cmps; done.
Qed.
End RegOp.

(** The next multiple. *)
Lemma aligned_next a x n : 0 < n -> a mod n = 0 -> x mod n = 0 -> a < x -> a + n <= x.
Proof.
  intros Hn Ha Hx Hlt. apply Z.mod_divide in Ha as [qa ->]; [|lia]. apply Z.mod_divide in Hx as [qx ->]; [|lia].
  assert (qa < qx) by nia. nia.
Qed.

Section FreeRegion.
Context (bm : list Z) (bits order : Z).
Hypothesis Hh : holds bm bits.
Hypothesis Hbits : bits < 2147483648.
Hypothesis Hord : 0 <= order <= 30.

(** A candidate of the search. *)
Definition region_at (pos : Z) : Prop :=
  0 <= pos /\ pos mod 2 ^ order = 0 /\ pos + 2 ^ order <= bits /\ region_free bm pos order.

Lemma free_region_loop_spec fuel : forall pos,
  0 <= pos -> pos mod 2 ^ order = 0 -> 0 < Z.of_nat fuel -> bits - pos < Z.of_nat fuel -> pos <= bits ->
  (forall x, region_at x -> pos <= x) ->
  exists bm' r, free_region_loop fuel bm bits order pos = Ret (bm', r)
    /\ ((r = - ENOMEM /\ bm' = bm /\ forall x, ~ region_at x)
        \/ (region_at r /\ (forall x, region_at x -> r <= x) /\ words bm' /\ length bm' = length bm
            /\ forall i, 0 <= i -> bit bm' i = (r <=? i) && (i <? r + 2 ^ order) || bit bm i)).
Proof using Hh Hbits Hord.
  pose proof Hh as (Hw&Hn&H32). pose proof (pow_order order Hord) as [Es Hp].
  induction fuel as [|fuel IH]; intros pos Hpos Hal Hf0 Hf Hle Hlow; [lia|].
  cbn [free_region_loop]. rewrite <- Es. rewrite (w32_small (2 ^ order)) by (unfold two32; lia).
  rewrite w32_small by (unfold two32; lia).
  destruct (Z.leb_spec (pos + 2 ^ order) bits) as [Hfit|Hbig].
  2: { exists bm, (- ENOMEM). split; [done|left]. split_and!; try done.
       intros x Hx. pose proof (Hlow x Hx). destruct Hx as (_&_&?&_). lia. }
  destruct (reg_op_isfree bm pos order Hw Hpos Hord Hal) as (r&->&Hr&Hiff); [lia|]. cbn [res_bind].
  destruct (Z.eqb_spec r 0) as [->|Hr0].
  - apply IH; try lia.
    + rewrite Z.add_mod, Hal, Z_mod_same_full by lia. by rewrite Zmod_0_l.
    + intros x Hx. pose proof (Hlow x Hx). destruct (Z.eq_dec x pos) as [->|].
      { destruct Hx as (_&_&_&Hx). by apply Hiff in Hx. }
      destruct Hx as (_&Hmx&_). apply (aligned_next pos x (2 ^ order)); lia.
  - assert (r = 1) as -> by lia.
    destruct (reg_op_update bm pos order Hw Hpos Hord Hal ltac:(lia) REG_OP_ALLOC true eq_refl)
      as (b&->&Hwb&Hlb&Hb). cbn [res_bind].
    exists b, pos. split; [done|right]. split_and!; try done. split_and!; try done. by apply Hiff.
Qed.

Lemma bitmap_find_free_region_spec :
  exists bm' r, bitmap_find_free_region bm bits order = Ret (bm', r)
    /\ ((r = - ENOMEM /\ bm' = bm /\ forall x, ~ region_at x)
        \/ (region_at r /\ (forall x, region_at x -> r <= x) /\ words bm' /\ length bm' = length bm
            /\ forall i, 0 <= i -> bit bm' i = (r <=? i) && (i <? r + 2 ^ order) || bit bm i)).
Proof using Hh Hbits Hord.
  pose proof Hh as (_&Hn&_). apply free_region_loop_spec; try lia; [apply Zmod_0_l|].
  by intros x [? _].
Qed.
End FreeRegion.

(** * Positions and ordinals *)

(** [r] is the position of the set bit with [ord] set bits below it, or [nbits]
    when there are too few. *)
Definition selects (p : Z -> bool) (nbits ord r : Z) : Prop :=
  (0 <= r < nbits /\ p r = true /\ count p 0 (Z.to_nat r) = ord)
  \/ (r = nbits /\ count p 0 (Z.to_nat nbits) <= ord).

Lemma count_split p a b : 0 <= a <= b -> count p 0 (Z.to_nat b) = count p 0 (Z.to_nat a) + count p a (Z.to_nat (b - a)).
Proof.
  intros Hab. replace (Z.to_nat b) with (Z.to_nat a + Z.to_nat (b - a))%nat by lia.
  rewrite count_app. by replace (0 + Z.of_nat (Z.to_nat a)) with a by lia.
Qed.
Lemma count_one p a : count p a 1 = if p a then 1 else 0.
Proof. cbn [count]. by destruct (p a). Qed.

(** The set bit after a set bit. *)
Lemma count_next p a b :
  0 <= a < b -> p a = true -> (forall i, a + 1 <= i < b -> p i = false) ->
  count p 0 (Z.to_nat b) = count p 0 (Z.to_nat a) + 1.
Proof.
  intros Hab Hp Hno. rewrite (count_split p (a + 1) b), (count_split p a (a + 1)) by lia.
  replace (Z.to_nat (a + 1 - a)) with 1%nat by lia. rewrite count_one, Hp.
  rewrite (proj2 (count_zero p (a + 1) (Z.to_nat (b - (a + 1))))); [lia|]. intros i Hi. apply Hno. lia.
Qed.

Lemma selects_unique p nbits ord r r' :
  0 <= nbits -> selects p nbits ord r -> selects p nbits ord r' -> r = r'.
Proof.
  intros Hn. assert (Hlt : forall a b, 0 <= a < b -> p a = true -> count p 0 (Z.to_nat a) < count p 0 (Z.to_nat b)).
  { intros a b Hab Hp. rewrite (count_split p (a + 1) b), (count_split p a (a + 1)) by lia.
    replace (Z.to_nat (a + 1 - a)) with 1%nat by lia. rewrite count_one, Hp.
    pose proof (count_bounds p (a + 1) (Z.to_nat (b - (a + 1)))). lia. }
  intros [(H1&P1&C1)|[-> C1]] [(H2&P2&C2)|[-> C2]].
  - destruct (Z.lt_trichotomy r r') as [?|[?|?]]; [|done|].
    + pose proof (Hlt r r' ltac:(lia) P1). lia.
    + pose proof (Hlt r' r ltac:(lia) P2). lia.
  - pose proof (Hlt r nbits ltac:(lia) P1). lia.
  - pose proof (Hlt r' nbits ltac:(lia) P2). lia.
  - done.
Qed.

Section Ordinals.
Context (buf : list Z) (nbits : Z).
Hypothesis Hh : holds buf nbits.

Lemma ord_to_pos_loop_spec ord : forall pos c,
  selects (bit buf) nbits c pos -> exists r, ord_to_pos_loop ord buf pos nbits = Ret r
    /\ selects (bit buf) nbits (c + Z.of_nat ord) r.
Proof using Hh.
  pose proof Hh as (Hw&Hn&H32). unfold two32 in H32.
  induction ord as [|ord IH]; intros pos c Hsel; cbn [ord_to_pos_loop].
  { rewrite Z.add_0_r. exists pos. by destruct (pos <? nbits). }
  destruct Hsel as [(Hp&Hb&Hc)|[-> Hc]].
  - case_cmp; [|lia]. rewrite w32_small by (unfold two32; lia).
    destruct (find_next_bit_spec buf nbits (pos + 1) Hh) as (r&->&Hr); [lia|]. cbn [res_bind].
    replace (c + Z.of_nat (S ord)) with (c + 1 + Z.of_nat ord) by lia. apply IH.
    destruct Hr as [[-> Hno]|(Hr&Hrb&Hno)]; [right|left].
    + split; [done|]. rewrite (count_next (bit buf) pos nbits) by (done || lia). lia.
    + split_and!; [lia|lia|done|]. rewrite (count_next (bit buf) pos r) by (done || lia). lia.
  - case_cmp; [lia|]. exists nbits. split; [done|right]. split; [done|lia].
Qed.

Lemma bitmap_ord_to_pos_spec ord :
  0 <= ord -> exists r, bitmap_ord_to_pos buf ord nbits = Ret r /\ selects (bit buf) nbits ord r.
Proof using Hh.
  pose proof Hh as (Hw&Hn&H32). intros Ho. unfold bitmap_ord_to_pos.
  destruct (find_first_bit_spec buf nbits Hh) as (pos&->&Hpos). cbn [res_bind].
  destruct (ord_to_pos_loop_spec (Z.to_nat ord) pos 0) as (r&E&Hr).
  - destruct Hpos as [[-> Hno]|(Hp&Hb&Hno)]; [right|left].
    + split; [done|]. rewrite (proj2 (count_zero _ _ _)); [lia|]. intros i Hi. apply Hno. lia.
    + split_and!; [lia|lia|done|]. apply count_zero. intros i Hi. apply Hno. lia.
  - exists r. rewrite Z.add_0_l, Z2Nat.id in Hr by lia. done.
Qed.

Lemma bitmap_pos_to_ord_spec pos :
  0 <= pos -> nbits <= 2147483648 -> bitmap_pos_to_ord buf pos nbits
    = Ret (if (pos <? nbits) && bit buf pos then count (bit buf) 0 (Z.to_nat pos) else -1).
Proof using Hh.
  pose proof Hh as (Hw&Hn&H32). intros Hp H31. unfold bitmap_pos_to_ord. destruct (Z.leb_spec nbits pos).
  { replace (pos <? nbits) with false by lia. done. }
  rewrite test_bit_spec by (done || lia). cbn [res_bind]. replace (pos <? nbits) with true by lia. cbn [andb].
  destruct (bit buf pos); [|done]. apply bitmap_weight_int; [split_and!; try done; lia|lia].
Qed.
End Ordinals.

(** * Loops over the set bits *)

(** The set bits of [lo, lo + n) in increasing order. *)
Fixpoint set_bits_from (p : Z -> bool) (lo : Z) (n : nat) : list Z :=
  match n with
  | O => []
  | S n' => if p lo then lo :: set_bits_from p (lo + 1) n' else set_bits_from p (lo + 1) n'
  end.
Fixpoint res_fold {A B} (body : B -> A -> res A) (l : list B) (a : A) : res A :=
  match l with
  | [] => Ret a
  | b :: l' => let* a' := body b a in res_fold body l' a'
  end.

Lemma set_bits_from_elem p lo n x : x ∈ set_bits_from p lo n <-> lo <= x < lo + Z.of_nat n /\ p x = true.
Proof.
  revert lo. induction n as [|n IH]; intros lo; cbn [set_bits_from].
  { split; [by intros ?%elem_of_nil|lia]. }
  destruct (p lo) eqn:E; [rewrite elem_of_cons|]; rewrite IH.
  - split; [intros [->|[? ?]]; [split; [lia|done]|split; [lia|done]]|].
    intros [Hx Hp]. destruct (Z.eq_dec x lo); [by left|right; split; [lia|done]].
  - split; intros [Hx Hp]; (split; [|done]); [lia|]. destruct (Z.eq_dec x lo) as [->|]; [congruence|lia].
Qed.
Lemma set_bits_from_skip p lo n m :
  (forall i, lo <= i < lo + Z.of_nat n -> p i = false) ->
  set_bits_from p lo (n + m) = set_bits_from p (lo + Z.of_nat n) m.
Proof.
  revert lo. induction n as [|n IH]; intros lo Hno; [by rewrite Z.add_0_r|].
  cbn [set_bits_from Nat.add]. rewrite Hno by lia. rewrite IH by (intros; apply Hno; lia). f_equal. lia.
Qed.

Lemma set_bits_loop_spec {A} (addr : list Z) (size : Z) (body : Z -> A -> res A) fuel : forall b a,
  holds addr size -> 0 <= b <= size -> (b < size -> bit addr b = true) -> size - b < Z.of_nat fuel ->
  set_bits_loop fuel addr size b body a = res_fold body (set_bits_from (bit addr) b (Z.to_nat (size - b))) a.
Proof.
  induction fuel as [|fuel IH]; intros b a Hh Hb Hset Hf; [lia|]. cbn [set_bits_loop].
  destruct (Z.ltb_spec b size) as [Hlt|Hge].
  2: { by replace (Z.to_nat (size - b)) with 0%nat by lia. }
  replace (Z.to_nat (size - b)) with (S (Z.to_nat (size - b - 1))) by lia. cbn [set_bits_from].
  rewrite Hset by done. cbn [res_fold]. destruct (body b a) as [a'| |]; [cbn [res_bind]|done..].
  pose proof Hh as (_&_&H32). rewrite w32_small by (unfold two32 in *; lia).
  destruct (find_next_bit_spec addr size (b + 1) Hh) as (r&->&Hr); [lia|]. cbn [res_bind].
  assert (Hrb : b + 1 <= r <= size /\ (r < size -> bit addr r = true) /\ forall i, b + 1 <= i < r -> bit addr i = false).
  { destruct Hr as [[-> Hno]|(?&?&?)]; split_and!; try done; lia. }
  destruct Hrb as (Hr1&Hr2&Hr3). rewrite IH by (done || lia).
  replace (Z.to_nat (size - b - 1)) with (Z.to_nat (r - b - 1) + Z.to_nat (size - r))%nat by lia.
  rewrite set_bits_from_skip by (intros i Hi; apply Hr3; lia). do 2 f_equal. lia.
Qed.

Lemma for_each_set_bit_spec {A} (addr : list Z) (size : Z) (body : Z -> A -> res A) a :
  holds addr size ->
  for_each_set_bit addr size body a = res_fold body (set_bits_from (bit addr) 0 (Z.to_nat size)) a.
Proof.
  intros Hh. pose proof Hh as (_&Hn&_). unfold for_each_set_bit.
  destruct (find_first_bit_spec addr size Hh) as (r&->&Hr). cbn [res_bind].
  assert (Hrb : 0 <= r <= size /\ (r < size -> bit addr r = true) /\ forall i, 0 <= i < r -> bit addr i = false).
  { destruct Hr as [[-> Hno]|(?&?&?)]; split_and!; try done; lia. }
  destruct Hrb as (Hr1&Hr2&Hr3). rewrite set_bits_loop_spec by (done || lia).
  replace (Z.to_nat size) with (Z.to_nat r + Z.to_nat (size - r))%nat by lia.
  rewrite set_bits_from_skip by (intros i Hi; apply Hr3; lia). do 2 f_equal. lia.
Qed.

(** Setting the bits [h b] for the elements [b] of a list. *)
Lemma res_fold_set_bits (body : Z -> list Z -> res (list Z)) (h : Z -> Z) nbits l : forall dst,
  (forall b d, b ∈ l -> body b d = set_bit (h b) d) -> (forall b, b ∈ l -> 0 <= h b < nbits) ->
  words dst -> nbits <= 64 * Z.of_nat (length dst) ->
  exists dst', res_fold body l dst = Ret dst' /\ words dst' /\ length dst' = length dst
    /\ forall i, 0 <= i -> bit dst' i = true <-> bit dst i = true \/ exists b, b ∈ l /\ h b = i.
Proof.
  induction l as [|b l IH]; intros dst Hbody Hh Hd Hlen; cbn [res_fold].
  { exists dst. split_and!; try done. intros i Hi. split; [by left|]. intros [?|(b&[]%elem_of_nil&_)]. done. }
  rewrite Hbody by apply list_elem_of_here. pose proof (Hh b (list_elem_of_here _ _)).
  destruct (set_bit_spec (h b) dst Hd) as (d1&->&Hw1&Hl1&Hb1); [lia|]. cbn [res_bind].
  destruct (IH d1) as (d2&->&Hw2&Hl2&Hb2); [by intros; apply Hbody, list_elem_of_further|
    by intros; apply Hh, list_elem_of_further|done|lia|].
  exists d2. split_and!; [done|done|congruence|]. intros i Hi. rewrite Hb2, Hb1 by done.
  rewrite orb_true_iff, Z.eqb_eq. setoid_rewrite elem_of_cons. naive_solver.
Qed.

Lemma bitmap_fold_spec dst orig sz nbits :
  holds dst nbits -> holds orig nbits -> 0 < sz <= nbits ->
  exists dst', bitmap_fold false dst orig sz nbits = Ret dst' /\ words dst'
    /\ forall i, 0 <= i < nbits -> bit dst' i = true <-> exists m, 0 <= m < nbits /\ bit orig m = true /\ m mod sz = i.
Proof.
  intros Hd Ho Hsz. unfold bitmap_fold. destruct (bitmap_zero_spec dst nbits Hd) as (d0&->&Hw0&Hl0&Hb0).
  cbn [res_bind]. rewrite for_each_set_bit_spec by done. pose proof Hd as (_&Hdn&_).
  pose proof (BITS_TO_LONGS_bounds nbits ltac:(lia)) as [Hbl _].
  destruct (res_fold_set_bits (fun oldbit dst => set_bit (oldbit mod sz) dst) (fun m => m mod sz) nbits
              (set_bits_from (bit orig) 0 (Z.to_nat nbits)) d0) as (d&->&Hw&Hl&Hb); [done| |done|lia|].
  { intros b _. pose proof (Z.mod_pos_bound b sz). lia. }
  exists d. split_and!; try done. intros i Hi. rewrite Hb, Hb0 by lia.
  setoid_rewrite set_bits_from_elem. replace (i <? 64 * BITS_TO_LONGS nbits) with true by lia.
  split; [intros [?|(m&[? ?]&?)]; [done|exists m; split_and!; try done; lia]|].
  intros (m&?&?&?). right. exists m. split_and!; try done; lia.
Qed.

(** The bit that [bitmap_remap] sends [oldbit] to. *)
Definition remapped (old new : list Z) (nbits oldbit newbit : Z) : Prop :=
  if (oldbit <? nbits) && bit old oldbit && negb (count (bit new) 0 (Z.to_nat nbits) =? 0)
  then selects (bit new) nbits
         (count (bit old) 0 (Z.to_nat oldbit) mod count (bit new) 0 (Z.to_nat nbits)) newbit
  else newbit = oldbit.

Lemma remapped_unique old new nbits b r r' :
  0 <= nbits -> remapped old new nbits b r -> remapped old new nbits b r' -> r = r'.
Proof.
  intros Hn. unfold remapped. destruct (_ && _ && _); [by apply selects_unique|]. congruence.
Qed.

Lemma bitmap_bitremap_spec old new nbits b :
  holds old nbits -> holds new nbits -> nbits < 2147483648 -> 0 <= b < nbits ->
  exists r, bitmap_bitremap b old new nbits = Ret r /\ 0 <= r < nbits /\ remapped old new nbits b r.
Proof.
  intros Ho Hn H31 Hb. unfold bitmap_bitremap, remapped. rewrite bitmap_weight_int by done. cbn [res_bind].
  rewrite bitmap_pos_to_ord_spec by (done || lia). cbn [res_bind].
  set (w := count (bit new) 0 (Z.to_nat nbits)). pose proof (count_bounds (bit new) 0 (Z.to_nat nbits)) as Hw.
  pose proof (count_bounds (bit old) 0 (Z.to_nat b)) as Hc.
  destruct ((b <? nbits) && bit old b) eqn:E; cbn [andb]; [|by exists b].
  replace (count (bit old) 0 (Z.to_nat b) <? 0) with false by lia. cbn [orb].
  destruct (Z.eqb_spec w 0) as [Ew|Ew]; cbn [negb]; [by exists b|].
  pose proof (Z.mod_pos_bound (count (bit old) 0 (Z.to_nat b)) w ltac:(unfold w in *; lia)).
  rewrite Z.rem_mod_nonneg, w32_small by (unfold w, two32 in *; lia).
  destruct (bitmap_ord_to_pos_spec new nbits Hn (count (bit old) 0 (Z.to_nat b) mod w)) as (r&->&Hr); [lia|].
  exists r. split_and!; try done; destruct Hr as [(?&_)|[-> ?]]; try lia; unfold w in *; lia.
Qed.

Lemma bitmap_remap_spec dst src old new nbits :
  holds dst nbits -> holds src nbits -> holds old nbits -> holds new nbits -> nbits < 2147483648 ->
  exists dst', bitmap_remap false dst src old new nbits = Ret dst' /\ words dst'
    /\ forall i, 0 <= i < nbits -> bit dst' i = true
         <-> exists b, 0 <= b < nbits /\ bit src b = true /\ bitmap_bitremap b old new nbits = Ret i.
Proof.
  intros Hd Hs Ho Hn H31. unfold bitmap_remap. destruct (bitmap_zero_spec dst nbits Hd) as (d0&->&Hw0&Hl0&Hb0).
  cbn [res_bind]. rewrite bitmap_weight_int by done. cbn [res_bind].
  rewrite w32_small by (pose proof (count_bounds (bit new) 0 (Z.to_nat nbits)); unfold two32; destruct Hn; lia).
  rewrite for_each_set_bit_spec by done. pose proof Hd as (_&Hdn&_). pose proof (BITS_TO_LONGS_bounds nbits ltac:(lia)) as [Hbl _].
  set (h := fun b => match bitmap_bitremap b old new nbits with Ret r => r | _ => 0 end).
  match goal with |- context [res_fold ?body _ _] =>
    destruct (res_fold_set_bits body h nbits (set_bits_from (bit src) 0 (Z.to_nat nbits)) d0)
      as (d&E&Hw&Hl&Hb) end; [| |done|lia|].
  - intros b d [Hb _]%set_bits_from_elem. unfold h, bitmap_bitremap. rewrite bitmap_weight_int by done.
    cbn [res_bind]. rewrite bitmap_pos_to_ord_spec by (done || lia). cbn [res_bind].
    set (n := if _ && _ then _ else _). set (w := count (bit new) 0 (Z.to_nat nbits)).
    destruct ((n <? 0) || (w =? 0)) eqn:Ec; [done|].
    assert (0 < w) by (pose proof (count_bounds (bit new) 0 (Z.to_nat nbits)); unfold w in *; lia).
    pose proof (Z.mod_pos_bound n w ltac:(lia)). pose proof (count_bounds (bit new) 0 (Z.to_nat nbits)).
    rewrite Z.rem_mod_nonneg, w32_small by (unfold w, two32 in *; lia).
    destruct (bitmap_ord_to_pos_spec new nbits Hn (n mod w)) as (r&->&_); [lia|]. done.
  - intros b [Hb _]%set_bits_from_elem. unfold h.
    destruct (bitmap_bitremap_spec old new nbits b Ho Hn H31 ltac:(lia)) as (r&->&?&_). done.
  - rewrite E. exists d. split_and!; try done. intros i Hi. rewrite Hb, Hb0 by lia.
    setoid_rewrite set_bits_from_elem. replace (i <? 64 * BITS_TO_LONGS nbits) with true by lia.
    assert (Hiff : forall b, 0 <= b < nbits -> h b = i <-> bitmap_bitremap b old new nbits = Ret i).
    { intros b Hbn. unfold h. destruct (bitmap_bitremap_spec old new nbits b Ho Hn H31 Hbn) as (r&->&_). naive_solver. }
    split.
    + intros [?|(b&[Hbn ?]&Hh)]; [done|]. exists b. split_and!; [lia|lia|done|]. apply Hiff; [lia|done].
    + intros (b&Hbn&?&Hh). right. exists b. split; [split; [lia|done]|]. by apply Hiff.
Qed.

Section Onto.
Context (orig relmap : list Z) (bits : Z).
Hypothesis Ho : holds orig bits.
Hypothesis Hr : holds relmap bits.

Let rank (i : Z) : Z := count (bit relmap) 0 (Z.to_nat i).
Let step (n : Z) (s : list Z * Z) : res (list Z * Z) :=
  let '(dst, m) := s in
  let* set := test_bit m orig in
  let* dst := if set then set_bit n dst else Ret dst in
  Ret (dst, w32 (m + 1)).

Lemma onto_fold n : forall lo dst,
  0 <= lo -> lo + Z.of_nat n <= bits -> words dst -> bits <= 64 * Z.of_nat (length dst) ->
  exists dst' m', res_fold step (set_bits_from (bit relmap) lo n) (dst, rank lo) = Ret (dst', m')
    /\ words dst' /\ forall i, 0 <= i -> bit dst' i =
         bit dst i || ((lo <=? i) && (i <? lo + Z.of_nat n)) && (bit relmap i && bit orig (rank i)).
Proof using Ho Hr.
  pose proof Ho as (Hw&Hn&_).
  induction n as [|n IH]; intros lo dst Hlo Hle Hd Hlen; cbn [set_bits_from].
  { exists dst, (rank lo). split_and!; try done. intros i Hi. case_cmps; by rewrite orb_false_r. }
  assert (Hrank : rank (lo + 1) = rank lo + if bit relmap lo then 1 else 0).
  { unfold rank. rewrite (count_split (bit relmap) lo (lo + 1)) by lia.
    replace (Z.to_nat (lo + 1 - lo)) with 1%nat by lia. by rewrite count_one. }
  pose proof (count_bounds (bit relmap) 0 (Z.to_nat lo)) as Hc. fold (rank lo) in Hc.
  destruct (bit relmap lo) eqn:Eb; cbn [res_fold].
  - cbn [step]. rewrite test_bit_spec by (done || lia). cbn [res_bind].
    assert (exists d1, (if bit orig (rank lo) then set_bit lo dst else Ret dst) = Ret d1 /\ words d1
      /\ length d1 = length dst
      /\ forall i, 0 <= i -> bit d1 i = bit dst i || (i =? lo) && bit orig (rank lo)) as (d1&->&Hw1&Hl1&Hb1).
    { destruct (bit orig (rank lo)).
      - destruct (set_bit_spec lo dst Hd) as (d1&?&?&?&Hb1); [lia|]. exists d1. split_and!; try done.
        intros i Hi. rewrite Hb1, andb_true_r, orb_comm by done. done.
      - exists dst. split_and!; try done. intros i Hi. by rewrite andb_false_r, orb_false_r. }
    cbn [res_bind]. destruct (IH (lo + 1) d1) as (d2&m2&E&Hw2&Hb2); [lia|lia|done|lia|].
    rewrite w32_small by (destruct Ho as (_&_&H32); unfold two32 in *; lia). rewrite Hrank in E. rewrite E. exists d2, m2. split_and!; try done. intros i Hi. rewrite Hb2, Hb1 by done.
    destruct (Z.eqb_spec i lo) as [->|].
    + rewrite Eb. case_cmps; by rewrite ?orb_false_r.
    + case_cmps; by rewrite ?orb_false_r.
  - destruct (IH (lo + 1) dst) as (d2&m2&E&Hw2&Hb2); [lia|lia|done|done|].
    rewrite Hrank, Z.add_0_r in E. exists d2, m2. split_and!; try done. intros i Hi. rewrite Hb2 by done.
    destruct (Z.eq_dec i lo) as [->|]; [rewrite Eb, !andb_false_r; done|]. case_cmps; done.
Qed.

Lemma bitmap_onto_spec dst :
  holds dst bits ->
  exists dst', bitmap_onto false dst orig relmap bits = Ret dst' /\ words dst'
    /\ forall i, 0 <= i < bits -> bit dst' i = bit relmap i && bit orig (rank i).
Proof using Ho Hr.
  intros Hd. unfold bitmap_onto. destruct (bitmap_zero_spec dst bits Hd) as (d0&->&Hw0&Hl0&Hb0).
  cbn [res_bind]. rewrite for_each_set_bit_spec by done. pose proof Hd as (_&Hdn&_).
  pose proof (BITS_TO_LONGS_bounds bits ltac:(lia)) as [Hbl _].
  destruct (onto_fold (Z.to_nat bits) 0 d0) as (d&m&E&Hw&Hb); [lia|lia|done|lia|].
  change (rank 0) with 0 in E. unfold step in E. unfold res_map. rewrite E. cbn [res_bind fst].
  exists d. split_and!; try done. intros i Hi. rewrite Hb, Hb0 by lia. case_cmps; done.
Qed.
End Onto.
