(* ===== verification/BitmapSpec.v ===== *)
(** What lib/find_bit.c, lib/hweight.c and lib/bitmap.c promise. *)

From S2P Require Import Prelude FindBit Hweight Bitmap BitmapFacts.

(** Bitmaps for the instances: 130 bits in three words. *)
Definition map_a : list Z := [0xff00; 0; 0x3].
Definition map_b : list Z := [0x0ff0; 0x8000000000000000; 0x2].

Lemma map_a_holds : holds map_a 130.
Proof. split; [|run]. repeat constructor; run. Qed.
Lemma map_b_holds : holds map_b 130.
Proof. split; [|run]. repeat constructor; run. Qed.

(** * Searching *)

(** the searches of lib/find_bit.c stay inside the array and return the
    first (from the offset on), respectively last, index of a set or clear bit,
    or the size if there is none. *)
Theorem find_bit_correct addr size offset :
  holds addr size -> 0 <= offset ->
  (exists r, find_next_bit addr size offset = Ret r /\ first_from (bit addr) offset size r)
  /\ (exists r, find_next_zero_bit addr size offset = Ret r
        /\ first_from (fun i => negb (bit addr i)) offset size r)
  /\ (exists r, find_first_bit addr size = Ret r /\ first_from (bit addr) 0 size r)
  /\ (exists r, find_first_zero_bit addr size = Ret r /\ first_from (fun i => negb (bit addr i)) 0 size r)
  /\ (exists r, find_last_bit addr size = Ret r /\ last_below (bit addr) size r).
Proof.
  intros Hh Ho. split_and!; [by apply find_next_bit_spec|by apply find_next_zero_bit_spec|
    by apply find_first_bit_spec|by apply find_first_zero_bit_spec|by apply find_last_bit_spec].
Qed.

Lemma find_bit_correct_witness :
  find_next_bit map_a 130 16 = Ret 128 /\ first_from (bit map_a) 16 130 128.
Proof.
  destruct (find_bit_correct map_a 130 16 map_a_holds) as [(r&E&Hr) _]; [run|].
  assert (r = 128) as -> by (vm_compute in E; congruence). split; [exact E|exact Hr].
Defined.

(** C27: [bitmap_find_next_zero_area_off] with an alignment of a power of two
    returns the lowest index from [start] on at which [nr] clear bits start,
    aligned with the offset and ending within the map; when there is none it
    returns a value past the end. *)
Theorem bitmap_find_next_zero_area_off_correct map size start nr k offset :
  holds map size -> 0 <= start <= size -> 0 < nr < two32 -> 0 <= k <= 32 -> 0 <= offset < two32 ->
  exists r, bitmap_find_next_zero_area_off map size start nr (2 ^ k - 1) offset = Ret r
    /\ ((size < r < size + 2 ^ k + nr /\ forall x, ~ clear_area map size start nr (2 ^ k) offset x)
        \/ (clear_area map size start nr (2 ^ k) offset r
            /\ forall x, clear_area map size start nr (2 ^ k) offset x -> r <= x)).
Proof.
  intros Hh Hs Hnr Hk Ho. apply zero_area_again_spec; try done. destruct Hh. lia.
Qed.

Lemma bitmap_find_next_zero_area_off_correct_witness :
  bitmap_find_next_zero_area_off map_b 130 2 8 (2 ^ 3 - 1) 0 = Ret 16
  /\ clear_area map_b 130 2 8 (2 ^ 3) 0 16.
Proof.
  destruct (bitmap_find_next_zero_area_off_correct map_b 130 2 8 3 0 map_b_holds) as (r&E&Hr); [run..|].
  assert (r = 16) as -> by (vm_compute in E; congruence). split; [exact E|].
  destruct Hr as [[[Hr _] _]|[Hr _]]; [lia|exact Hr].
Defined.

(** * Counting *)

(** C32: the shift-and-add routines of lib/hweight.c count the bits set in a word
    of their width, and [__bitmap_weight] those among the first [bits] of a map, as an int:
    the number itself for maps of fewer than 2^31 bits, and the number wrapped to 32 bits
    for larger ones. *)
Theorem weight_correct addr bits w64' w32' w16' w8' :
  holds addr bits -> 0 <= w64' < two64 -> 0 <= w32' < two32 -> 0 <= w16' < 65536 -> byte w8' ->
  __sw_hweight64 w64' = popcount w64' 64 /\ __sw_hweight32 w32' = popcount w32' 32
  /\ __sw_hweight16 w16' = popcount w16' 16 /\ __sw_hweight8 w8' = popcount w8' 8
  /\ __bitmap_weight addr bits = Ret (s32 (count (bit addr) 0 (Z.to_nat bits)))
  /\ (bits < 2147483648 -> __bitmap_weight addr bits = Ret (count (bit addr) 0 (Z.to_nat bits))).
Proof.
  intros. split_and!; [by apply __sw_hweight64_spec|by apply __sw_hweight32_spec|
    by apply __sw_hweight16_spec|by apply __sw_hweight8_spec|by apply __bitmap_weight_spec|by apply bitmap_weight_int].
Qed.

Lemma weight_correct_witness :
  __bitmap_weight map_a 130 = Ret 10 /\ __sw_hweight64 0xf00000000000000f = 8.
Proof.
  destruct (weight_correct map_a 130 0xf00000000000000f 7 7 7 map_a_holds) as (E&_&_&_&_&Ew); [run..|].
  rewrite E, Ew by lia. run.
Defined.

(** * Bitwise operations *)

(** the combining operations compute the bitwise function on every bit of
    the map and leave the words past it alone; AND and ANDNOT also clear the
    unused bits of the last word and return whether the result has a bit set. *)
Theorem bitmap_combine_correct dst b1 b2 bits :
  holds dst bits -> holds b1 bits -> holds b2 bits ->
  let whole f d := forall i, 0 <= i -> bit d i = if i <? 64 * BITS_TO_LONGS bits then f i : bool else bit dst i in
  let masked f d r := whole (fun i => (i <? bits) && f i) d
    /\ (r = 0 \/ r = 1) /\ (r = 1 <-> exists i, 0 <= i < bits /\ f i = true) in
  (exists d r, __bitmap_and dst b1 b2 bits = Ret (d, r) /\ masked (fun i => bit b1 i && bit b2 i) d r)
  /\ (exists d r, __bitmap_andnot dst b1 b2 bits = Ret (d, r) /\ masked (fun i => bit b1 i && negb (bit b2 i)) d r)
  /\ (exists d, __bitmap_or dst b1 b2 bits = Ret d /\ whole (fun i => bit b1 i || bit b2 i) d)
  /\ (exists d, __bitmap_xor dst b1 b2 bits = Ret d /\ whole (fun i => xorb (bit b1 i) (bit b2 i)) d)
  /\ (exists d, __bitmap_complement dst b1 bits = Ret d /\ whole (fun i => negb (bit b1 i)) d)
  /\ (exists d, bitmap_zero dst bits = Ret d /\ whole (fun _ => false) d).
Proof.
  intros Hd H1 H2 whole masked. split_and!.
  - destruct (bitmap_masked_spec _ _ wordwise_land dst b1 b2 bits Hd H1 H2) as (d&r&?&_&_&?&?&?). by exists d, r.
  - destruct (bitmap_masked_spec _ _ wordwise_andnot dst b1 b2 bits Hd H1 H2) as (d&r&?&_&_&?&?&?). by exists d, r.
  - destruct (bitmap_whole_spec _ _ wordwise_lor dst b1 b2 bits Hd H1 H2) as (d&?&_&_&?). by exists d.
  - destruct (bitmap_whole_spec _ _ wordwise_lxor dst b1 b2 bits Hd H1 H2) as (d&?&_&_&?). by exists d.
  - destruct (__bitmap_complement_spec dst b1 bits Hd H1) as (d&?&_&_&?). by exists d.
  - destruct (bitmap_zero_spec dst bits Hd) as (d&?&_&_&?). by exists d.
Qed.

Lemma bitmap_combine_correct_witness :
  exists d r, __bitmap_and map_a map_a map_b 130 = Ret (d, r) /\ r = 1 /\ bit d 8 = true.
Proof.
  destruct (bitmap_combine_correct map_a map_a map_b 130 map_a_holds map_a_holds map_b_holds)
    as [(d&r&E&Hb&_&Hr) _].
  exists d, r. split; [exact E|]. split; [apply Hr; exists 8; run|]. rewrite Hb; [run|lia].
Defined.

(** the comparisons decide equality, intersection and inclusion of the first
    [bits] bits, whatever the unused bits hold. *)
Theorem bitmap_compare_correct b1 b2 bits :
  holds b1 bits -> holds b2 bits ->
  (exists r, __bitmap_equal b1 b2 bits = Ret r /\ (r = 0 \/ r = 1)
     /\ (r = 1 <-> forall i, 0 <= i < bits -> bit b1 i = bit b2 i))
  /\ (exists r, __bitmap_intersects b1 b2 bits = Ret r /\ (r = 0 \/ r = 1)
     /\ (r = 1 <-> exists i, 0 <= i < bits /\ bit b1 i = true /\ bit b2 i = true))
  /\ (exists r, __bitmap_subset b1 b2 bits = Ret r /\ (r = 0 \/ r = 1)
     /\ (r = 1 <-> forall i, 0 <= i < bits -> bit b1 i = true -> bit b2 i = true)).
Proof.
  intros. split_and!; [by apply __bitmap_equal_spec|by apply __bitmap_intersects_spec|by apply __bitmap_subset_spec].
Qed.

Lemma bitmap_compare_correct_witness : __bitmap_intersects map_a map_b 130 = Ret 1.
Proof.
  destruct (bitmap_compare_correct map_a map_b 130 map_a_holds map_b_holds) as (_&(r&E&_&Hr)&_).
  rewrite E. f_equal. apply Hr. exists 8. run.
Defined.

(** [__bitmap_set] and [__bitmap_clear] change exactly the bits of
    [start, start + len), over any number of words. *)
Theorem bitmap_run_correct map start len :
  words map -> 0 <= start -> 0 <= len -> start + len <= 64 * Z.of_nat (length map) -> start + len < two32 ->
  (exists map', __bitmap_set map start len = Ret map' /\ words map' /\ length map' = length map
     /\ forall i, 0 <= i -> bit map' i = if (start <=? i) && (i <? start + len) then true else bit map i)
  /\ (exists map', __bitmap_clear map start len = Ret map' /\ words map' /\ length map' = length map
     /\ forall i, 0 <= i -> bit map' i = if (start <=? i) && (i <? start + len) then false else bit map i).
Proof.
  intros. split; [by apply bitmap_run_spec; [apply wordwise_set|..]|by apply bitmap_run_spec; [apply wordwise_clear|..]].
Qed.

Lemma bitmap_run_correct_witness :
  exists m, __bitmap_set map_a 60 70 = Ret m /\ bit m 59 = false /\ bit m 129 = true.
Proof.
  destruct (bitmap_run_correct map_a 60 70 (proj1 map_a_holds)) as [(m&E&_&_&Hb) _]; [run..|].
  exists m. split; [exact E|]. split; rewrite Hb; first [run|lia].
Defined.

(** the shifts move every bit by [shift] positions across word boundaries
    and shift in zeros; the right shift takes no bit from beyond the map. *)
Theorem bitmap_shift_correct dst src shift nbits :
  holds dst nbits -> holds src nbits -> 0 < nbits -> 0 <= shift <= nbits ->
  (exists d, __bitmap_shift_right dst src shift nbits = Ret d /\ words d /\ length d = length dst
     /\ forall i, 0 <= i < 64 * BITS_TO_LONGS nbits -> bit d i = (i + shift <? nbits) && bit src (i + shift))
  /\ (exists d, __bitmap_shift_left dst src shift nbits = Ret d /\ words d /\ length d = length dst
     /\ forall i, 0 <= i < 64 * BITS_TO_LONGS nbits -> bit d i = (shift <=? i) && bit src (i - shift)).
Proof.
  intros Hd Hs Hn Hsh. split.
  - destruct (__bitmap_shift_right_spec dst src shift nbits Hd Hs Hn Hsh) as (d&?&?&?&Hb).
    exists d. split_and!; try done. intros i Hi. rewrite Hb by lia. case_cmp; [done|lia].
  - destruct (__bitmap_shift_left_spec dst src shift nbits Hd Hs Hn Hsh) as (d&?&?&?&Hb).
    exists d. split_and!; try done. intros i Hi. rewrite Hb by lia. case_cmp; [done|lia].
Qed.

Lemma bitmap_shift_correct_witness :
  exists d, __bitmap_shift_right map_a map_b 70 130 = Ret d /\ bit d 57 = true.
Proof.
  destruct (bitmap_shift_correct map_a map_b 70 130 map_a_holds map_b_holds) as [(d&E&_&_&Hb) _]; [run..|].
  exists d. split; [exact E|]. rewrite Hb; [run|run].
Defined.

(** * Allocating regions *)

(** [bitmap_find_free_region] allocates the lowest free region of 2^order
    bits aligned to its size, setting exactly its bits, or returns -ENOMEM
    without a change when no such region is free; releasing what it returned
    gives the bitmap back. *)
Theorem bitmap_find_free_region_correct bm bits order :
  holds bm bits -> bits < 2147483648 -> 0 <= order <= 30 ->
  exists bm' r, bitmap_find_free_region bm bits order = Ret (bm', r)
    /\ ((r = - ENOMEM /\ bm' = bm /\ forall x, ~ region_at bm bits order x)
        \/ (region_at bm bits order r /\ (forall x, region_at bm bits order x -> r <= x)
            /\ (forall i, 0 <= i -> bit bm' i = (r <=? i) && (i <? r + 2 ^ order) || bit bm i)
            /\ exists bm2, bitmap_release_region bm' r order = Ret bm2
                 /\ forall i, 0 <= i -> bit bm2 i = bit bm i)).
Proof.
  intros Hh Hb Ho. destruct (bitmap_find_free_region_spec bm bits order Hh Hb Ho)
    as (bm'&r&E&[?|(Hr&Hmin&Hw&Hl&Hbits)]); exists bm', r; (split; [done|]); [by left|right].
  split_and!; try done. destruct Hr as (Hr0&Hal&Hfit&Hfree). destruct Hh as (_&Hn&_).
  destruct (reg_op_update bm' r order Hw Hr0 Ho Hal ltac:(lia) REG_OP_RELEASE false eq_refl) as (b2&E2&_&_&Hb2).
  exists b2. unfold bitmap_release_region. rewrite E2. split; [done|]. intros i Hi. rewrite Hb2, Hbits by done.
  destruct (Z.leb_spec r i), (Z.ltb_spec i (r + 2 ^ order)); cbn [andb orb]; try done. by rewrite Hfree by lia.
Qed.

Lemma bitmap_find_free_region_correct_witness :
  exists bm', bitmap_find_free_region map_b 130 3 = Ret (bm', 16) /\ bit bm' 23 = true /\ bit bm' 24 = false.
Proof.
  destruct (bitmap_find_free_region_correct map_b 130 3 map_b_holds) as (bm'&r&E&Hr); [run|run|].
  assert (r = 16) as -> by (vm_compute in E; congruence). exists bm'. split; [exact E|].
  destruct Hr as [(?&_)|(_&_&Hb&_)]; [discriminate|]. split; rewrite Hb; first [run|lia].
Defined.

(** * Remapping *)


