(* ===== verification/IrqMatrix.v ===== *)
(** The interrupt vector allocator: kernel/irq/matrix.c.

    The matrix has one map of vectors per CPU; [maps] is the per-CPU area, indexed
    by CPU number.  A CPU mask is the list of CPUs [for_each_cpu] visits, in its
    order; on this kernel's uniprocessor configuration [for_each_cpu_up] is that
    list whatever the mask.  The counters are 32-bit and wrap.  A [BUG_ON] or a
    per-CPU access past the last CPU is the outcome [BUG]; a [WARN_ON_ONCE] has no
    effect on the state.  Tracing is left out. *)

From S2P Require Import Prelude FindBit Hweight Bitmap.

Definition IRQ_MATRIX_BITS : Z := 256.
Definition IRQ_MATRIX_SIZE : Z := BITS_TO_LONGS IRQ_MATRIX_BITS * 8.

Record cpumap := mkCpumap {
  available : Z;
  allocated : Z;
  managed : Z;
  online : bool;
  alloc_map : list Z;
  managed_map : list Z;
}.

Record irq_matrix := mkMatrix {
  matrix_bits : Z;
  alloc_start : Z;
  alloc_end : Z;
  alloc_size : Z;
  global_available : Z;
  global_reserved : Z;
  systembits_inalloc : Z;
  total_allocated : Z;
  online_maps : Z;
  maps : list cpumap;
  scratch_map : list Z;
  system_map : list Z;
}.

(** ** Field updates *)

Definition set_maps (m : irq_matrix) (ms : list cpumap) : irq_matrix :=
  mkMatrix (matrix_bits m) (alloc_start m) (alloc_end m) (alloc_size m) (global_available m)
    (global_reserved m) (systembits_inalloc m) (total_allocated m) (online_maps m) ms
    (scratch_map m) (system_map m).
Definition set_scratch (m : irq_matrix) (s : list Z) : irq_matrix :=
  mkMatrix (matrix_bits m) (alloc_start m) (alloc_end m) (alloc_size m) (global_available m)
    (global_reserved m) (systembits_inalloc m) (total_allocated m) (online_maps m) (maps m)
    s (system_map m).
(** m->global_available += ga; m->global_reserved += gr; m->total_allocated += ta;
    m->online_maps += om; each modulo 2^32. *)
Definition count_up (m : irq_matrix) (ga gr ta om : Z) : irq_matrix :=
  mkMatrix (matrix_bits m) (alloc_start m) (alloc_end m) (alloc_size m)
    (w32 (global_available m + ga)) (w32 (global_reserved m + gr)) (systembits_inalloc m)
    (w32 (total_allocated m + ta)) (w32 (online_maps m + om)) (maps m) (scratch_map m) (system_map m).
Definition set_system (m : irq_matrix) (s : list Z) (inalloc : Z) : irq_matrix :=
  mkMatrix (matrix_bits m) (alloc_start m) (alloc_end m) (alloc_size m) (global_available m)
    (global_reserved m) inalloc (total_allocated m) (online_maps m) (maps m) (scratch_map m) s.
(** cm->available += av; cm->allocated += al; cm->managed += mg. *)
Definition cpu_count (cm : cpumap) (av al mg : Z) : cpumap :=
  mkCpumap (w32 (available cm + av)) (w32 (allocated cm + al)) (w32 (managed cm + mg)) (online cm)
    (alloc_map cm) (managed_map cm).
Definition set_alloc_map (cm : cpumap) (b : list Z) : cpumap :=
  mkCpumap (available cm) (allocated cm) (managed cm) (online cm) b (managed_map cm).
Definition set_managed_map (cm : cpumap) (b : list Z) : cpumap :=
  mkCpumap (available cm) (allocated cm) (managed cm) (online cm) (alloc_map cm) b.

(** [per_cpu_ptr(m->maps, cpu)] *)
Definition per_cpu (m : irq_matrix) (cpu : nat) : res cpumap :=
  match maps m !! cpu with Some cm => Ret cm | None => BUG end.
Definition put_cpu (m : irq_matrix) (cpu : nat) (cm : cpumap) : irq_matrix :=
  set_maps m (<[cpu := cm]> (maps m)).

(** [for_each_cpu(cpu, mask)] of a uniprocessor kernel: CPU 0, mask ignored. *)
Definition for_each_cpu_up (mask : list nat) : list nat := [0%nat].

Definition BUG_ON (b : bool) : res unit := if b then BUG else Ret tt.

(** * Setting up *)

Definition zero_map : list Z := replicate (Z.to_nat IRQ_MATRIX_SIZE) 0.
Definition zero_cpumap : cpumap := mkCpumap 0 0 0 false zero_map zero_map.

(** [kzalloc_ok], [percpu_ok]: whether the two allocations succeed. *)
Definition irq_alloc_matrix (kzalloc_ok percpu_ok : bool) (nr_cpus : nat) (matrix_bits alloc_start alloc_end : Z)
    : option irq_matrix :=
  if IRQ_MATRIX_BITS <? matrix_bits then None
  else if negb kzalloc_ok then None
  else if negb percpu_ok then None
  else Some (mkMatrix matrix_bits alloc_start alloc_end (w32 (alloc_end - alloc_start)) 0 0 0 0 0
               (replicate nr_cpus zero_cpumap) zero_map zero_map).

(** [cpu] is the local CPU. *)
Definition irq_matrix_online (cpu : nat) (m : irq_matrix) : res irq_matrix :=
  let* cm := per_cpu m cpu in
  let* _ := BUG_ON (online cm) in
  let* alloc := bitmap_zero (alloc_map cm) (matrix_bits m) in
  let av := w32 (alloc_size m - w32 (managed cm + systembits_inalloc m)) in
  Ret (count_up (put_cpu m cpu (mkCpumap av 0 (managed cm) true alloc (managed_map cm))) av 0 0 1).

Definition irq_matrix_offline (cpu : nat) (m : irq_matrix) : res irq_matrix :=
  let* cm := per_cpu m cpu in
  Ret (count_up (put_cpu m cpu (mkCpumap (available cm) (allocated cm) (managed cm) false
                                  (alloc_map cm) (managed_map cm)))
         (- available cm) 0 0 (-1)).

(** * Vectors *)

(** Gives back the area and the matrix with its scratch map and the CPU's map
    updated. *)
Definition matrix_alloc_area (m : irq_matrix) (cpu : nat) (num : Z) (managed : bool)
    : res (irq_matrix * Z) :=
  let* cm := per_cpu m cpu in
  let endp := alloc_end m in
  let* scratch := __bitmap_or (scratch_map m) (managed_map cm) (system_map m) endp in
  let* scratch := __bitmap_or scratch scratch (alloc_map cm) endp in
  let m := set_scratch m scratch in
  let* area := bitmap_find_next_zero_area scratch endp (alloc_start m) num 0 in
  let area := w32 area in
  if endp <=? area then Ret (m, area)
  else if managed then
    let* b := __bitmap_set (managed_map cm) area num in
    Ret (put_cpu m cpu (set_managed_map cm b), area)
  else
    let* b := __bitmap_set (alloc_map cm) area num in
    Ret (put_cpu m cpu (set_alloc_map cm b), area).

Definition irq_matrix_assign_system (cpu : nat) (m : irq_matrix) (bit : Z) (replace : bool) : res irq_matrix :=
  let* cm := per_cpu m cpu in
  let* _ := BUG_ON (matrix_bits m <? bit) in
  let* _ := BUG_ON ((1 <? online_maps m) || (negb (online_maps m =? 0) && negb replace)) in
  let* sys := set_bit bit (system_map m) in
  let inalloc :=
    if (alloc_start m <=? bit) && (bit <? alloc_end m) then w32 (systembits_inalloc m + 1)
    else systembits_inalloc m in
  if replace then
    let* set := test_bit bit (alloc_map cm) in
    let* _ := BUG_ON (negb set) in
    let* b := clear_bit bit (alloc_map cm) in
    Ret (set_system (count_up (put_cpu m cpu (cpu_count (set_alloc_map cm b) 0 (-1) 0)) 0 0 (-1) 0)
           sys inalloc)
  else Ret (set_system m sys inalloc).

(** One turn of the loop of [irq_matrix_remove_managed]. *)
Definition remove_managed_cpu (m : irq_matrix) (cpu : nat) : res irq_matrix :=
  let* cm := per_cpu m cpu in
  let endp := alloc_end m in
  if managed cm =? 0 then Ret m
  else
    let* (scratch, _) := __bitmap_andnot (scratch_map m) (managed_map cm) (alloc_map cm) endp in
    let m := set_scratch m scratch in
    let* bit := find_first_bit scratch endp in
    if endp <=? bit then Ret m
    else
      let* b := clear_bit bit (managed_map cm) in
      let cm := set_managed_map cm b in
      if online cm then Ret (count_up (put_cpu m cpu (cpu_count cm 1 0 (-1))) 1 0 0 0)
      else Ret (put_cpu m cpu (cpu_count cm 0 0 (-1))).
Fixpoint irq_matrix_remove_managed (m : irq_matrix) (cpus : list nat) : res irq_matrix :=
  match cpus with
  | [] => Ret m
  | cpu :: cpus' => let* m' := remove_managed_cpu m cpu in irq_matrix_remove_managed m' cpus'
  end.

(** The loop of [irq_matrix_reserve_managed]; on failure it gives the CPU that
    has no room. *)
Fixpoint reserve_managed_loop (m : irq_matrix) (cpus : list nat) : res (irq_matrix * option nat) :=
  match cpus with
  | [] => Ret (m, None)
  | cpu :: cpus' =>
      let* (m, bit) := matrix_alloc_area m cpu 1 true in
      if alloc_end m <=? bit then Ret (m, Some cpu)
      else
        let* cm := per_cpu m cpu in
        let m := if online cm then count_up (put_cpu m cpu (cpu_count cm (-1) 0 1)) (-1) 0 0 0
                 else put_cpu m cpu (cpu_count cm 0 0 1) in
        reserve_managed_loop m cpus'
  end.
(** The CPUs [for_each_cpu] visits before [failed]. *)
Fixpoint before (failed : nat) (cpus : list nat) : list nat :=
  match cpus with
  | [] => []
  | cpu :: cpus' => if Nat.eqb cpu failed then [] else cpu :: before failed cpus'
  end.
Definition irq_matrix_reserve_managed (m : irq_matrix) (cpus : list nat) : res (irq_matrix * Z) :=
  let* (m, failed) := reserve_managed_loop m cpus in
  match failed with
  | None => Ret (m, 0)
  | Some cpu =>
      let* m := irq_matrix_remove_managed m (before cpu cpus) in
      Ret (m, - ENOSPC)
  end.

Definition irq_matrix_alloc_managed (m : irq_matrix) (cpu : nat) : res (irq_matrix * Z) :=
  let* cm := per_cpu m cpu in
  let endp := alloc_end m in
  let* (scratch, _) := __bitmap_andnot (scratch_map m) (managed_map cm) (alloc_map cm) endp in
  let m := set_scratch m scratch in
  let* bit := find_first_bit scratch endp in
  if endp <=? bit then Ret (m, - ENOSPC)
  else
    let* b := set_bit bit (alloc_map cm) in
    Ret (count_up (put_cpu m cpu (cpu_count (set_alloc_map cm b) 0 1 0)) 0 0 1 0, bit).

Definition irq_matrix_assign (cpu : nat) (m : irq_matrix) (bit : Z) : res irq_matrix :=
  let* cm := per_cpu m cpu in
  if (bit <? alloc_start m) || (alloc_end m <=? bit) then Ret m
  else
    let* set := test_bit bit (alloc_map cm) in
    let* b := set_bit bit (alloc_map cm) in
    if set then Ret (put_cpu m cpu (set_alloc_map cm b))
    else Ret (count_up (put_cpu m cpu (cpu_count (set_alloc_map cm b) (-1) 1 0)) (-1) 0 1 0).

Definition irq_matrix_reserve (m : irq_matrix) : irq_matrix := count_up m 0 1 0 0.
Definition irq_matrix_remove_reserved (m : irq_matrix) : irq_matrix := count_up m 0 (-1) 0 0.

(** The search for the CPU with the most available vectors; [None] is UINT_MAX. *)
Fixpoint best_cpu_loop (m : irq_matrix) (cpus : list nat) (best : option nat) (maxavl : Z)
    : res (option nat * Z) :=
  match cpus with
  | [] => Ret (best, maxavl)
  | cpu :: cpus' =>
      let* cm := per_cpu m cpu in
      if negb (online cm) || (available cm <=? maxavl) then best_cpu_loop m cpus' best maxavl
      else best_cpu_loop m cpus' (Some cpu) (available cm)
  end.
(** Gives the vector and the CPU it is for, or -ENOSPC. *)
Definition irq_matrix_alloc (m : irq_matrix) (cpus : list nat) (reserved : bool)
    : res (irq_matrix * Z * option nat) :=
  let* (best, maxavl) := best_cpu_loop m cpus None 0 in
  match best with
  | Some cpu =>
      if negb (maxavl =? 0) then
        let* (m, bit) := matrix_alloc_area m cpu 1 false in
        if bit <? alloc_end m then
          let* cm := per_cpu m cpu in
          Ret (count_up (put_cpu m cpu (cpu_count cm (-1) 1 0)) (-1) (if reserved then -1 else 0) 1 0,
               bit, Some cpu)
        else Ret (m, - ENOSPC, None)
      else Ret (m, - ENOSPC, None)
  | None => if negb (maxavl =? 0) then BUG else Ret (m, - ENOSPC, None)
  end.

Definition irq_matrix_free (m : irq_matrix) (cpu : nat) (bit : Z) (managed : bool) : res irq_matrix :=
  let* cm := per_cpu m cpu in
  if (bit <? alloc_start m) || (alloc_end m <=? bit) then Ret m
  else if online cm then
    let* b := clear_bit bit (alloc_map cm) in
    let av := if managed then 0 else 1 in
    Ret (count_up (put_cpu m cpu (cpu_count (set_alloc_map cm b) av (-1) 0)) av 0 (-1) 0)
  else Ret m.

(** * Queries *)

Definition irq_matrix_available (cpu : nat) (m : irq_matrix) (cpudown : bool) : res Z :=
  let* cm := per_cpu m cpu in
  Ret (if negb cpudown then global_available m else w32 (global_available m - available cm)).
Definition irq_matrix_reserved (m : irq_matrix) : Z := global_reserved m.
Definition irq_matrix_allocated (cpu : nat) (m : irq_matrix) : res Z :=
  let* cm := per_cpu m cpu in Ret (allocated cm).
