(* ===== verification/IrqMatrixFacts.v ===== *)
(** The accounting of the interrupt matrix: the counters the allocator decides
    on are the numbers of vectors they stand for, and every operation keeps them
    so. *)

From S2P Require Import Prelude FindBit Hweight Bitmap BitmapFacts IrqMatrix.

(** * The invariant *)

(** A vector is used when the CPU manages it, the system owns it, or it is
    allocated. *)
Definition used (sys : list Z) (cm : cpumap) (i : Z) : bool :=
  bit (managed_map cm) i || bit sys i || bit (alloc_map cm) i.

(** A map as [irq_alloc_matrix] makes it. *)
Definition map_ok (b : list Z) : Prop := words b /\ length b = Z.to_nat IRQ_MATRIX_SIZE.

(** One CPU's map, over the [n] vectors from [lo] on. *)
Record cpu_ok (lo : Z) (n : nat) (sys : list Z) (cm : cpumap) : Prop := {
  ok_alloc_map : map_ok (alloc_map cm);
  ok_managed_map : map_ok (managed_map cm);
  ok_managed : managed cm = count (bit (managed_map cm)) lo n;
  ok_in_range i : 0 <= i < lo + Z.of_nat n -> bit (managed_map cm) i = true -> lo <= i;
  ok_disjoint i : lo <= i < lo + Z.of_nat n -> bit (managed_map cm) i = true -> bit sys i = false;
  ok_available : online cm = true -> available cm = count (fun i => negb (used sys cm i)) lo n;
  ok_allocated : online cm = true -> allocated cm = count (bit (alloc_map cm)) lo n;
  ok_system i : online cm = true -> lo <= i < lo + Z.of_nat n -> bit (alloc_map cm) i = true -> bit sys i = false;
}.

Definition nvec (m : irq_matrix) : nat := Z.to_nat (alloc_end m - alloc_start m).
Definition cpu_valid (m : irq_matrix) (cm : cpumap) : Prop :=
  cpu_ok (alloc_start m) (nvec m) (system_map m) cm.

Definition contribution (cm : cpumap) : Z := if online cm then available cm else 0.
Definition total (f : cpumap -> Z) (ms : list cpumap) : Z := foldr (fun cm s => f cm + s) 0 ms.

Record matrix_ok (m : irq_matrix) : Prop := {
  ok_range : 0 <= alloc_start m <= alloc_end m /\ alloc_end m <= matrix_bits m <= IRQ_MATRIX_BITS;
  ok_size : alloc_size m = alloc_end m - alloc_start m;
  ok_scratch : map_ok (scratch_map m);
  ok_sysmap : map_ok (system_map m);
  ok_systembits : systembits_inalloc m = count (bit (system_map m)) (alloc_start m) (nvec m);
  ok_maps : Forall (cpu_valid m) (maps m);
  ok_cpus : Z.of_nat (length (maps m)) <= 8192;
  ok_global : global_available m = total contribution (maps m);
  ok_online : online_maps m = total (fun cm => b2z (online cm)) (maps m);
  ok_u32 : 0 <= total_allocated m < two32 /\ 0 <= global_reserved m < two32;
}.

(** * Sums over the CPUs *)

Lemma total_insert f ms cpu cm cm' :
  ms !! cpu = Some cm -> total f (<[cpu := cm']> ms) = total f ms - f cm + f cm'.
Proof.
  revert cpu. induction ms as [|x ms IH]; intros cpu; [done|]. destruct cpu as [|cpu]; simpl.
  - intros [= ->]. lia.
  - intros E. rewrite IH by done. lia.
Qed.
Lemma total_bound f ms k :
  Forall (fun cm => 0 <= f cm <= k) ms -> 0 <= total f ms <= k * Z.of_nat (length ms).
Proof. induction 1; simpl in *; lia. Qed.
Lemma total_elem f ms cpu cm :
  Forall (fun cm => 0 <= f cm) ms -> ms !! cpu = Some cm -> 0 <= f cm <= total f ms.
Proof.
  intros Hf. revert cpu. induction Hf as [|x ms Hx Hms IH]; intros cpu; [done|]. destruct cpu as [|cpu]; simpl.
  - intros [= ->]. assert (0 <= total f ms) by (clear IH; induction Hms; simpl; lia). lia.
  - intros E. specialize (IH cpu E). lia.
Qed.

(** * Maps *)

Lemma map_ok_holds b n : map_ok b -> 0 <= n <= IRQ_MATRIX_BITS -> holds b n.
Proof.
  intros [Hw Hl] Hn. split; [done|]. rewrite Hl. unfold IRQ_MATRIX_BITS, two32 in *.
  change (Z.of_nat (Z.to_nat IRQ_MATRIX_SIZE)) with 32. lia.
Qed.
Lemma map_ok_room b n : map_ok b -> n <= 1024 -> n <= 64 * Z.of_nat (length b).
Proof. intros [_ ->] ?. change (Z.of_nat (Z.to_nat IRQ_MATRIX_SIZE)) with 32. lia. Qed.
#[export] Hint Resolve map_ok_holds : machine.

Lemma used_count m cm : matrix_ok m -> 0 <= count (fun i => negb (used (system_map m) cm i)) (alloc_start m) (nvec m) <= 256.
Proof.
  intros [[? ?] _ _ _ _ _ _ _ _ _].
  pose proof (count_bounds (fun i => negb (used (system_map m) cm i)) (alloc_start m) (nvec m)).
  unfold nvec, IRQ_MATRIX_BITS in *. lia.
Qed.

Section Valid.
Context (m : irq_matrix).
Hypothesis Hm : matrix_ok m.

Lemma vectors i : alloc_start m <= i < alloc_start m + Z.of_nat (nvec m) <-> alloc_start m <= i < alloc_end m.
Proof using Hm. destruct Hm as [[? ?] _ _ _ _ _ _ _ _ _]. unfold nvec. lia. Qed.

Lemma cpu_lookup cpu cm : maps m !! cpu = Some cm -> cpu_valid m cm.
Proof using Hm. intros E. exact (Forall_lookup_1 _ _ _ _ (ok_maps m Hm) E). Qed.

Lemma contribution_bounds cm : cpu_valid m cm -> 0 <= contribution cm <= 256.
Proof using Hm.
  intros Hc. unfold contribution. destruct (online cm) eqn:E; [|lia].
  rewrite (ok_available _ _ _ _ Hc E). by apply used_count.
Qed.

Lemma online_bound : 0 <= online_maps m <= 8192.
Proof using Hm.
  rewrite (ok_online m Hm). pose proof (ok_cpus m Hm).
  assert (Forall (fun cm => 0 <= b2z (online cm) <= 1) (maps m)) as Hf.
  { apply Forall_true. intros cm. unfold b2z. destruct (online cm); lia. }
  pose proof (total_bound _ _ _ Hf). lia.
Qed.

Lemma global_bound : 0 <= global_available m <= 256 * 8192.
Proof using Hm.
  rewrite (ok_global m Hm). pose proof (ok_cpus m Hm).
  assert (Forall (fun cm => 0 <= contribution cm <= 256) (maps m)) as Hf.
  { eapply Forall_impl; [exact (ok_maps m Hm)|]. intros cm Hc. by apply contribution_bounds. }
  pose proof (total_bound _ _ _ Hf). lia.
Qed.

(** Replacing the map of one CPU, with the global counters adjusted by the
    difference, keeps the matrix valid. *)
Lemma update_valid cpu cm cm' s ga gr ta om :
  maps m !! cpu = Some cm -> cpu_valid m cm' -> map_ok s ->
  ga = contribution cm' - contribution cm -> om = b2z (online cm') - b2z (online cm) ->
  matrix_ok (count_up (put_cpu (set_scratch m s) cpu cm') ga gr ta om).
Proof using Hm.
  intros E Hc Hs Hga Hom. pose proof (lookup_lt_Some _ _ _ E) as Hlt.
  pose proof (contribution_bounds _ Hc). pose proof (cpu_lookup _ _ E) as Hcm.
  pose proof (contribution_bounds _ Hcm). pose proof online_bound. pose proof global_bound.
  assert (contribution cm <= global_available m).
  { rewrite (ok_global m Hm). eapply total_elem; [|done].
    eapply Forall_impl; [exact (ok_maps m Hm)|]. intros x Hx. by apply contribution_bounds. }
  assert (b2z (online cm) <= online_maps m).
  { rewrite (ok_online m Hm). apply (total_elem (fun cm => b2z (online cm)) _ cpu cm); [|done].
    apply Forall_true. intros x. unfold b2z. destruct (online x); lia. }
  destruct Hm as [? ? ? ? ? Hmaps ? Hg Ho _]. split; try done; cbn -[total w32].
  - apply Forall_insert; done.
  - by rewrite length_insert.
  - rewrite w32_small by (unfold two32; lia). rewrite (total_insert _ _ _ cm) by done. lia.
  - assert (forall b, 0 <= b2z b <= 1) as Hb2 by (intros []; simpl; lia).
    pose proof (Hb2 (online cm)). pose proof (Hb2 (online cm')).
    rewrite w32_small by (unfold two32; lia). rewrite (total_insert _ _ _ cm) by done. lia.
  - split; apply w32_range.
Qed.
End Valid.

(** * Operations *)

Lemma per_cpu_ok m cpu cm : maps m !! cpu = Some cm -> per_cpu m cpu = Ret cm.
Proof. intros E. unfold per_cpu. by rewrite E. Qed.

Lemma self_scratch m : set_scratch m (scratch_map m) = m.
Proof. by destruct m. Qed.

Section Operations.
Context (m : irq_matrix) (cpu : nat) (cm : cpumap).
Hypothesis Hm : matrix_ok m.
Hypothesis Hcpu : maps m !! cpu = Some cm.

Lemma cpu_here : cpu_valid m cm.
Proof using Hm Hcpu. by apply (cpu_lookup m Hm cpu). Qed.

Lemma irq_matrix_online_ok :
  online cm = false ->
  exists m' cm', irq_matrix_online cpu m = Ret m' /\ matrix_ok m' /\ maps m' = <[cpu := cm']> (maps m)
    /\ online cm' = true /\ allocated cm' = 0 /\ managed_map cm' = managed_map cm
    /\ forall i, alloc_start m <= i < alloc_end m -> bit (alloc_map cm') i = false.
Proof using Hm Hcpu.
  pose proof cpu_here as Hcm.
  intros Hoff. unfold irq_matrix_online. rewrite (per_cpu_ok _ _ _ Hcpu). cbn [res_bind]. rewrite Hoff.
  cbn [BUG_ON res_bind]. pose proof (ok_range m Hm) as [Hr1 Hr2].
  destruct (bitmap_zero_spec (alloc_map cm) (matrix_bits m)) as (b&->&Hw&Hl&Hb);
    [apply map_ok_holds; [apply Hcm|lia]|]. cbn [res_bind].
  pose proof (BITS_TO_LONGS_bounds (matrix_bits m) ltac:(lia)) as [Hbl _].
  assert (Hzero : forall i, alloc_start m <= i < alloc_end m -> bit b i = false).
  { intros i Hi. rewrite Hb by lia. case_cmp; [done|lia]. }
  pose proof (ok_managed _ _ _ _ Hcm) as Eman. pose proof (ok_systembits m Hm) as Esys.
  pose proof (count_bounds (bit (managed_map cm)) (alloc_start m) (nvec m)).
  pose proof (count_bounds (bit (system_map m)) (alloc_start m) (nvec m)).
  assert (Hcount : count (fun i => negb (used (system_map m) (mkCpumap 0 0 (managed cm) true b (managed_map cm)) i))
                     (alloc_start m) (nvec m)
                   = alloc_size m - (managed cm + systembits_inalloc m)).
  { rewrite Eman, Esys, (ok_size m Hm), <- count_disjoint.
    - rewrite count_negb. rewrite (count_same (used _ _) (fun i => bit (managed_map cm) i || bit (system_map m) i)).
      + unfold nvec. lia.
      + intros i Hi. unfold used. cbn. rewrite Hzero, orb_false_r by (by apply vectors). done.
    - intros i Hi. apply (ok_disjoint _ _ _ _ Hcm). done. }
  pose proof (count_bounds (fun i => negb (used (system_map m) (mkCpumap 0 0 (managed cm) true b (managed_map cm)) i))
                (alloc_start m) (nvec m)) as Hcb.
  assert (Z.of_nat (nvec m) <= 256) by (unfold nvec, IRQ_MATRIX_BITS in *; lia).
  rewrite (w32_small (managed cm + systembits_inalloc m)) by (unfold two32; lia).
  rewrite w32_small by (unfold two32; lia). rewrite <- Hcount.
  set (cm' := mkCpumap _ _ _ _ _ _). exists (count_up (put_cpu m cpu cm') (available cm') 0 0 1), cm'.
  split; [done|]. split; [|done].
  rewrite <- (self_scratch m). apply (update_valid m Hm cpu cm); try done; [|apply Hm| |].
  - destruct Hcm. split; try done; cbn.
    + by split; [|rewrite Hl; apply (proj2 ok_alloc_map0)].
    + intros _. symmetry. apply count_zero. intros i Hi. apply Hzero. by apply vectors.
    + intros i _ Hi Hbi. rewrite Hzero in Hbi by (by apply vectors). done.
  - unfold contribution. cbn [online available cm']. rewrite Hoff. lia.
  - cbn [online cm']. by rewrite Hoff.
Qed.

Lemma irq_matrix_offline_ok :
  online cm = true -> exists m', irq_matrix_offline cpu m = Ret m' /\ matrix_ok m'.
Proof using Hm Hcpu.
  pose proof cpu_here as Hcm.
  intros Hon. unfold irq_matrix_offline. rewrite (per_cpu_ok _ _ _ Hcpu). cbn [res_bind].
  eexists. split; [done|]. rewrite <- (self_scratch m) at 1. apply (update_valid m Hm cpu cm); try done; [|apply Hm| |].
  - destruct Hcm. by split.
  - unfold contribution. cbn. rewrite Hon. lia.
  - cbn. by rewrite Hon.
Qed.
End Operations.

(** * Changing one vector of one CPU *)

Lemma count_change p q lo n b :
  lo <= b < lo + Z.of_nat n -> (forall i, lo <= i < lo + Z.of_nat n -> i <> b -> p i = q i) ->
  count q lo n = count p lo n + b2z (q b) - b2z (p b).
Proof.
  intros Hb Heq. unfold b2z. destruct (p b) eqn:Ep, (q b) eqn:Eq.
  - rewrite (count_same q p); [lia|]. intros i Hi. destruct (Z.eq_dec i b) as [->|]; [congruence|]. symmetry. by apply Heq.
  - rewrite (count_flip q p lo n b) by (done || (intros; symmetry; by apply Heq)). lia.
  - rewrite (count_flip p q lo n b) by done. lia.
  - rewrite (count_same q p); [lia|]. intros i Hi. destruct (Z.eq_dec i b) as [->|]; [congruence|]. symmetry. by apply Heq.
Qed.

(** [cm'] is [cm] with vector [b] changed and the counters following. *)
Record changes (sys : list Z) (b : Z) (cm cm' : cpumap) : Prop := {
  ch_alloc_map : map_ok (alloc_map cm');
  ch_managed_map : map_ok (managed_map cm');
  ch_online : online cm' = online cm;
  ch_alloc i : 0 <= i -> i <> b -> bit (alloc_map cm') i = bit (alloc_map cm) i;
  ch_man i : 0 <= i -> i <> b -> bit (managed_map cm') i = bit (managed_map cm) i;
  ch_managed : managed cm' = managed cm + b2z (bit (managed_map cm') b) - b2z (bit (managed_map cm) b);
  ch_available : online cm = true ->
    available cm' = available cm + b2z (used sys cm b) - b2z (used sys cm' b);
  ch_allocated : online cm = true ->
    allocated cm' = allocated cm + b2z (bit (alloc_map cm') b) - b2z (bit (alloc_map cm) b);
  ch_disjoint : bit (managed_map cm') b = true -> bit sys b = false;
  ch_system : online cm = true -> bit (alloc_map cm') b = true -> bit sys b = false;
}.

Lemma changes_valid m b cm cm' :
  matrix_ok m -> cpu_valid m cm -> alloc_start m <= b < alloc_end m ->
  changes (system_map m) b cm cm' -> cpu_valid m cm'.
Proof.
  intros Hm Hc Hb [? ? Eon Ha Hman Emn Eav Eal Hd Hs]. pose proof (ok_range m Hm) as [Hr _].
  apply (vectors m Hm) in Hb. destruct Hc as [_ _ Cmn Ci Cd Cav Cal Cs]. split; try done.
  - rewrite Emn, Cmn. symmetry. apply count_change; [done|]. intros i Hi Hne. symmetry. apply Hman; [lia|done].
  - intros i Hi Hbi. destruct (Z.eq_dec i b) as [->|]; [lia|]. rewrite Hman in Hbi by (done || lia). by apply Ci.
  - intros i Hi Hbi. destruct (Z.eq_dec i b) as [->|]; [by apply Hd|]. rewrite Hman in Hbi by (done || lia). by apply Cd.
  - rewrite Eon. intros Hon. rewrite Eav, Cav by done. symmetry.
    rewrite (count_change (fun i => negb (used (system_map m) cm i)) _ _ _ b Hb).
    + unfold b2z. destruct (used _ cm b), (used _ cm' b); simpl; lia.
    + intros i Hi Hne. unfold used. rewrite Ha, Hman by (done || lia). done.
  - rewrite Eon. intros Hon. rewrite Eal, Cal by done. symmetry. apply count_change; [done|].
    intros i Hi Hne. symmetry. apply Ha; [lia|done].
  - rewrite Eon. intros i Hon Hi Hbi. destruct (Z.eq_dec i b) as [->|]; [by apply Hs|].
    rewrite Ha in Hbi by (done || lia). by apply (Cs i).
Qed.

(** The counters of a valid CPU are small. *)
Lemma cpu_bounds m cm :
  matrix_ok m -> cpu_valid m cm ->
  0 <= managed cm <= 256 /\ (online cm = true -> 0 <= available cm <= 256 /\ 0 <= allocated cm <= 256).
Proof.
  intros Hm [_ _ Cmn _ _ Cav Cal _]. pose proof (ok_range m Hm) as [? ?].
  assert (Z.of_nat (nvec m) <= 256) by (unfold nvec, IRQ_MATRIX_BITS in *; lia). split.
  - rewrite Cmn. pose proof (count_bounds (bit (managed_map cm)) (alloc_start m) (nvec m)). lia.
  - intros Hon. rewrite Cav, Cal by done.
    pose proof (count_bounds (bit (alloc_map cm)) (alloc_start m) (nvec m)).
    pose proof (count_bounds (fun i => negb (used (system_map m) cm i)) (alloc_start m) (nvec m)). lia.
Qed.
(** A used vector is not available, so there is room to count it back. *)
Lemma cpu_room m cm b :
  matrix_ok m -> cpu_valid m cm -> online cm = true -> alloc_start m <= b < alloc_end m ->
  (used (system_map m) cm b = false -> 0 < available cm)
  /\ (bit (alloc_map cm) b = true -> 0 < allocated cm).
Proof.
  intros Hm [_ _ _ _ _ Cav Cal _] Hon Hb%(vectors m Hm). rewrite Cav, Cal by done. split; intros E.
  - pose proof (count_bounds (fun i => negb (used (system_map m) cm i)) (alloc_start m) (nvec m)).
    destruct (Z.eq_dec (count (fun i => negb (used (system_map m) cm i)) (alloc_start m) (nvec m)) 0) as [Ez|]; [|lia].
    rewrite count_zero in Ez. specialize (Ez b Hb). cbv beta in Ez. by rewrite E in Ez.
  - pose proof (count_bounds (bit (alloc_map cm)) (alloc_start m) (nvec m)).
    destruct (Z.eq_dec (count (bit (alloc_map cm)) (alloc_start m) (nvec m)) 0) as [Ez|]; [|lia].
    rewrite count_zero in Ez. specialize (Ez b Hb). congruence.
Qed.
Lemma managed_room m cm b :
  matrix_ok m -> cpu_valid m cm -> alloc_start m <= b < alloc_end m ->
  bit (managed_map cm) b = true -> 0 < managed cm.
Proof.
  intros Hm [_ _ Cmn _ _ _ _ _] Hb%(vectors m Hm) E. rewrite Cmn.
  pose proof (count_bounds (bit (managed_map cm)) (alloc_start m) (nvec m)).
  destruct (Z.eq_dec (count (bit (managed_map cm)) (alloc_start m) (nvec m)) 0) as [Ez|]; [|lia].
  rewrite count_zero in Ez. specialize (Ez b Hb). congruence.
Qed.

(** * Finding a vector *)

Lemma map_ok_length b b' : map_ok b -> words b' -> length b' = length b -> map_ok b'.
Proof. intros [_ Hl] Hw E. split; [done|]. congruence. Qed.

Section Area.
Context (m : irq_matrix) (cpu : nat) (cm : cpumap).
Hypothesis Hm : matrix_ok m.
Hypothesis Hcpu : maps m !! cpu = Some cm.

(** [matrix_alloc_area] for one vector takes the lowest unused one. *)
Lemma matrix_alloc_area_ok managed :
  exists s area, map_ok s /\
    ((alloc_end m <= area /\ matrix_alloc_area m cpu 1 managed = Ret (set_scratch m s, area)
      /\ forall i, alloc_start m <= i < alloc_end m -> used (system_map m) cm i = true)
     \/ (alloc_start m <= area < alloc_end m /\ used (system_map m) cm area = false
         /\ (forall i, alloc_start m <= i < area -> used (system_map m) cm i = true)
         /\ exists b, map_ok b
            /\ (forall i, 0 <= i -> bit b i = (i =? area) || bit (if managed then managed_map cm else alloc_map cm) i)
            /\ matrix_alloc_area m cpu 1 managed
               = Ret (put_cpu (set_scratch m s) cpu
                        (if managed then set_managed_map cm b else set_alloc_map cm b), area))).
Proof using Hm Hcpu.
  pose proof (cpu_here m cpu cm Hm Hcpu) as Hc. pose proof (ok_range m Hm) as [Hr1 Hr2].
  unfold matrix_alloc_area. rewrite (per_cpu_ok _ _ _ Hcpu). cbn [res_bind].
  assert (Hend : 0 <= alloc_end m <= IRQ_MATRIX_BITS) by (unfold IRQ_MATRIX_BITS in *; lia).
  pose proof (BITS_TO_LONGS_bounds (alloc_end m) ltac:(lia)) as [Hbl _].
  destruct (bitmap_whole_spec _ _ wordwise_lor (scratch_map m) (managed_map cm) (system_map m) (alloc_end m))
    as (s1&E1&Hw1&Hl1&Hb1); [apply map_ok_holds; [apply Hm|done]|apply map_ok_holds; [apply Hc|done]|
                            apply map_ok_holds; [apply Hm|done]|].
  unfold __bitmap_or. rewrite E1. cbn [res_bind].
  assert (Hs1 : map_ok s1) by (eapply map_ok_length; [apply (ok_scratch m Hm)|done|done]).
  destruct (bitmap_whole_spec _ _ wordwise_lor s1 s1 (alloc_map cm) (alloc_end m))
    as (s2&E2&Hw2&Hl2&Hb2); [apply map_ok_holds; [done|done]|apply map_ok_holds; [done|done]|
                            apply map_ok_holds; [apply Hc|done]|].
  rewrite E2. cbn [res_bind].
  assert (Hs2 : map_ok s2) by (eapply map_ok_length; [apply Hs1|done|done]).
  assert (Hused : forall i, 0 <= i < alloc_end m -> bit s2 i = used (system_map m) cm i).
  { intros i Hi. rewrite Hb2, Hb1 by lia. unfold used. case_cmp; [done|lia]. }
  destruct (zero_area_again_spec s2 (alloc_end m) 1 0 0) with (fuel := S (Z.to_nat (alloc_end m))) (start := alloc_start m)
    as (r&Er&Hres); [apply map_ok_holds; done|unfold two32; lia|lia|unfold two32; lia|lia|lia|].
  change (2 ^ 0 - 1) with 0 in Er. unfold bitmap_find_next_zero_area, bitmap_find_next_zero_area_off.
  cbn [set_scratch alloc_start]. rewrite Er. cbn [res_bind].
  exists s2. unfold IRQ_MATRIX_BITS in *. change (2 ^ 0) with 1 in Hres.
  destruct Hres as [[Hbig Hno]|[Hr Hmin]].
  - exists r. split; [done|left]. rewrite w32_small by (unfold two32; lia). case_cmp; [|lia].
    split_and!; [lia|done|]. intros i Hi. rewrite <- Hused by lia. destruct (bit s2 i) eqn:Eb; [done|].
    exfalso. apply (Hno i). split_and!; [lia|lia|apply Z.mod_1_r|]. intros j Hj. by replace j with i by lia.
  - destruct Hr as (H1&H2&_&H4). rewrite w32_small by (unfold two32; lia). case_cmp; [lia|].
    exists r. split; [done|right]. split_and!; [lia|lia|rewrite <- Hused by lia; apply H4; lia| |].
    { intros i Hi. rewrite <- Hused by lia. destruct (bit s2 i) eqn:Eb; [done|].
      assert (r <= i); [|lia]. apply Hmin. split_and!; [lia|lia|apply Z.mod_1_r|]. intros j Hj. by replace j with i by lia. }
    destruct (bitmap_run_spec _ _ wordwise_set (if managed then managed_map cm else alloc_map cm) r 1)
      as (b&Eb&Hwb&Hlb&Hbb); try lia; try (unfold two32; lia).
    { destruct managed; apply Hc. }
    { apply map_ok_room; [|lia]. destruct managed; apply Hc. }
    exists b. assert (map_ok b).
    { destruct managed; [eapply (map_ok_length (managed_map cm))|eapply (map_ok_length (alloc_map cm))]; try done; apply Hc. }
    split_and!; [done| |].
    { intros i Hi. rewrite Hbb by done. case_cmps; done. }
    unfold __bitmap_set. destruct managed; rewrite Eb; done.
Qed.
End Area.

Lemma put_put m cpu cm cm' : put_cpu (put_cpu m cpu cm) cpu cm' = put_cpu m cpu cm'.
Proof. unfold put_cpu, set_maps. cbn. by rewrite list_insert_insert_eq. Qed.
Lemma per_cpu_put m cpu cm cm' s :
  maps m !! cpu = Some cm -> per_cpu (put_cpu (set_scratch m s) cpu cm') cpu = Ret cm'.
Proof. intros E. unfold per_cpu. cbn. by rewrite list_lookup_insert_eq by (by eapply lookup_lt_Some). Qed.

Section Vectors.
Context (m : irq_matrix) (cpu : nat) (cm : cpumap).
Hypothesis Hm : matrix_ok m.
Hypothesis Hcpu : maps m !! cpu = Some cm.

(** Changing one vector and adjusting the counters keeps the matrix valid. *)
Lemma change_ok b cm' s ga gr ta :
  alloc_start m <= b < alloc_end m -> changes (system_map m) b cm cm' -> map_ok s ->
  ga = contribution cm' - contribution cm ->
  matrix_ok (count_up (put_cpu (set_scratch m s) cpu cm') ga gr ta 0).
Proof using Hm Hcpu.
  intros Hb Hch Hs Hga. apply (update_valid m Hm cpu cm); try done.
  - eapply changes_valid; [done|by apply (cpu_here m cpu)|done|done].
  - rewrite (ch_online _ _ _ _ Hch). lia.
Qed.

(** Taking the unused vector [b]: allocated, or managed. *)
Lemma take_changes b bm :
  alloc_start m <= b < alloc_end m -> used (system_map m) cm b = false -> map_ok bm ->
  (online cm = true -> (forall i, 0 <= i -> bit bm i = (i =? b) || bit (alloc_map cm) i) ->
   changes (system_map m) b cm (cpu_count (set_alloc_map cm bm) (-1) 1 0))
  /\ ((forall i, 0 <= i -> bit bm i = (i =? b) || bit (managed_map cm) i) ->
      changes (system_map m) b cm (cpu_count (set_managed_map cm bm) (if online cm then -1 else 0) 0 1)).
Proof using Hm Hcpu.
  intros Hb Hu Hbm. pose proof (cpu_here m cpu cm Hm Hcpu) as Hc. pose proof (ok_range m Hm) as [Hr _].
  pose proof (cpu_bounds m cm Hm Hc) as [Hmn Hon]. pose proof Hu as Hu'. unfold used in Hu'.
  apply orb_false_iff in Hu' as [Hu' Hua]. apply orb_false_iff in Hu' as [Hum Hus].
  split.
  - intros Eon Hbits. destruct (Hon Eon). destruct (cpu_room m cm b Hm Hc Eon Hb) as [Hav _]. specialize (Hav Hu).
    split; cbn -[w32]; try done; try apply Hc.
    + intros i Hi Hne. rewrite Hbits by done. by replace (i =? b) with false by lia.
    + rewrite w32_small by (unfold two32; lia). lia.
    + intros _. unfold used. cbn. rewrite Hbits, Z.eqb_refl, Hum, Hus, Hua by lia. cbn.
      rewrite w32_small by (unfold two32; lia). lia.
    + intros _. rewrite Hbits, Z.eqb_refl, Hua by lia. cbn. rewrite w32_small by (unfold two32; lia). lia.
  - intros Hbits. split; cbn -[w32]; try done; try apply Hc.
    + intros i Hi Hne. rewrite Hbits by done. by replace (i =? b) with false by lia.
    + rewrite Hbits, Z.eqb_refl, Hum by lia. cbn. rewrite w32_small by (unfold two32; lia). lia.
    + intros Eon. rewrite Eon. destruct (Hon Eon). destruct (cpu_room m cm b Hm Hc Eon Hb) as [Hav _]. specialize (Hav Hu).
      unfold used. cbn. rewrite Hbits, Z.eqb_refl, Hum, Hus, Hua by lia. cbn.
      rewrite w32_small by (unfold two32; lia). lia.
    + intros Eon. destruct (Hon Eon). rewrite w32_small by (unfold two32; lia). lia.
Qed.

Lemma contribution_change cm' b :
  changes (system_map m) b cm cm' -> 
  contribution cm' - contribution cm = if online cm then b2z (used (system_map m) cm b) - b2z (used (system_map m) cm' b) else 0.
Proof using.
  intros Hch. unfold contribution. rewrite (ch_online _ _ _ _ Hch). destruct (online cm) eqn:E; [|lia].
  rewrite (ch_available _ _ _ _ Hch E). lia.
Qed.
End Vectors.

(** * Allocating *)

(** The CPU's vectors are all used. *)
Definition cpu_full (m : irq_matrix) (cm : cpumap) : Prop :=
  forall i, alloc_start m <= i < alloc_end m -> used (system_map m) cm i = true.

Lemma available_full m cm :
  matrix_ok m -> cpu_valid m cm -> online cm = true -> available cm = 0 <-> cpu_full m cm.
Proof.
  intros Hm Hc Hon. rewrite (ok_available _ _ _ _ Hc Hon), count_zero. unfold cpu_full. split; intros Hf i Hi.
  - specialize (Hf i ltac:(by apply vectors)). by destruct (used _ cm i).
  - rewrite Hf by (by apply vectors). done.
Qed.

Definition cpus_ok (m : irq_matrix) (cpus : list nat) : Prop := forall cpu, cpu ∈ cpus -> is_Some (maps m !! cpu).

Lemma best_cpu_loop_ok m cpus : forall best maxavl,
  cpus_ok m cpus ->
  exists best' max', best_cpu_loop m cpus best maxavl = Ret (best', max') /\ maxavl <= max'
    /\ ((best' = best /\ max' = maxavl)
        \/ exists cpu cm, best' = Some cpu /\ cpu ∈ cpus /\ maps m !! cpu = Some cm /\ online cm = true
             /\ available cm = max' /\ maxavl < max')
    /\ forall cpu cm, cpu ∈ cpus -> maps m !! cpu = Some cm -> online cm = true -> available cm <= max'.
Proof.
  induction cpus as [|c cpus IH]; intros best maxavl Hcs; cbn [best_cpu_loop].
  { exists best, maxavl. split_and!; [done|lia|by left|]. by intros ? ? []%elem_of_nil. }
  destruct (Hcs c (list_elem_of_here _ _)) as [cm Ecm]. rewrite (per_cpu_ok _ _ _ Ecm). cbn [res_bind].
  assert (Hcs' : cpus_ok m cpus) by (intros x Hx; apply Hcs; by apply list_elem_of_further).
  destruct (negb (online cm) || (available cm <=? maxavl)) eqn:Eskip.
  - destruct (IH best maxavl Hcs') as (b'&mx&->&Hle&Hcase&Hall). exists b', mx. split_and!; [done|done| |].
    + destruct Hcase as [?|(x&cx&?&?&?)]; [by left|right]. exists x, cx. split_and!; try done; [by apply list_elem_of_further|naive_solver..].
    + intros x cx [->|Hx]%elem_of_cons Ex Hon; [|by eapply Hall].
      rewrite Ecm in Ex. injection Ex as ->. rewrite Hon in Eskip. simpl in Eskip. lia.
  - apply orb_false_iff in Eskip as [Hon%negb_false_iff Hgt%Z.leb_gt].
    destruct (IH (Some c) (available cm) Hcs') as (b'&mx&->&Hle&Hcase&Hall). exists b', mx. split_and!; [done|lia| |].
    + right. destruct Hcase as [[-> ->]|(x&cx&->&?&?&?&?&?)].
      * exists c, cm. split_and!; try done. apply list_elem_of_here.
      * exists x, cx. split_and!; try done; [by apply list_elem_of_further|lia].
    + intros x cx [->|Hx]%elem_of_cons Ex Hon'; [|by eapply Hall].
      rewrite Ecm in Ex. injection Ex as ->. lia.
Qed.

Lemma irq_matrix_alloc_ok m cpus reserved :
  matrix_ok m -> cpus_ok m cpus ->
  exists m' r best, irq_matrix_alloc m cpus reserved = Ret (m', r, best) /\ matrix_ok m'
    /\ system_map m' = system_map m
    /\ ((r = - ENOSPC /\ best = None /\ maps m' = maps m
         /\ forall cpu cm, cpu ∈ cpus -> maps m !! cpu = Some cm -> online cm = true -> cpu_full m cm)
        \/ exists cpu cm cm', best = Some cpu /\ cpu ∈ cpus /\ maps m !! cpu = Some cm /\ online cm = true
             /\ (forall cpu' c', cpu' ∈ cpus -> maps m !! cpu' = Some c' -> online c' = true -> available c' <= available cm)
             /\ alloc_start m <= r < alloc_end m /\ used (system_map m) cm r = false
             /\ maps m' = <[cpu := cm']> (maps m) /\ online cm' = true
             /\ (forall i, 0 <= i -> bit (alloc_map cm') i = (i =? r) || bit (alloc_map cm) i)
             /\ managed_map cm' = managed_map cm).
Proof.
  intros Hm Hcs. unfold irq_matrix_alloc.
  destruct (best_cpu_loop_ok m cpus None 0 Hcs) as (best&mx&->&Hle&Hcase&Hall). cbn [res_bind].
  assert (Hfull : mx = 0 -> forall cpu cm, cpu ∈ cpus -> maps m !! cpu = Some cm -> online cm = true -> cpu_full m cm).
  { intros Emx cpu cm Hin E Hon. pose proof (cpu_here m cpu cm Hm E) as Hc. apply available_full; try done.
    pose proof (Hall cpu cm Hin E Hon). pose proof (cpu_bounds m cm Hm Hc) as [_ Hb]. specialize (Hb Hon). lia. }
  destruct Hcase as [[-> ->]|(cpu&cm&->&Hin&E&Hon&Hav&Hlt)].
  { exists m, (- ENOSPC), None. split_and!; try done. left. split_and!; try done. by apply Hfull. }
  case_cmp; [lia|]. cbn [negb].
  pose proof (cpu_here m cpu cm Hm E) as Hc.
  destruct (matrix_alloc_area_ok m cpu cm Hm E false) as (s&area&Hs&[(Hbig&_&Hf)|(Ha&Hu&_&b&Hb&Hbits&->)]).
  { apply (available_full m cm Hm Hc Hon) in Hf. lia. }
  cbn [res_bind set_scratch put_cpu set_maps alloc_end]. case_cmp; [|lia].
  rewrite (per_cpu_put m cpu cm) by done. cbn [res_bind].
  destruct (take_changes m cpu cm Hm E area b Ha Hu Hb) as [Hch _]. specialize (Hch Hon Hbits).
  set (cm' := cpu_count _ _ _ _) in *.
  exists (count_up (put_cpu (set_scratch m s) cpu cm') (-1) (if reserved then -1 else 0) 1 0), area, (Some cpu).
  fold (put_cpu (set_scratch m s) cpu (set_alloc_map cm b)).
  split_and!; [by rewrite put_put| |done|].
  - apply (change_ok m cpu cm Hm E area); try done. rewrite (contribution_change m cm cm' area Hch), Hon, Hu.
    unfold used, cm'. cbn. by rewrite Hbits, Z.eqb_refl, orb_true_l, !orb_true_r by (pose proof (ok_range m Hm); lia).
  - right. exists cpu, cm, cm'. split_and!; try done; try lia. intros c' cm2 Hin' E' Hon'. rewrite Hav. by eapply Hall.
Qed.

(** * Managed vectors *)

Lemma scratch_ok m s : matrix_ok m -> map_ok s -> matrix_ok (set_scratch m s).
Proof. intros [] Hs. by split. Qed.
Lemma count_up_put m s cpu cm : matrix_ok m -> count_up (put_cpu (set_scratch m s) cpu cm) 0 0 0 0 = put_cpu (set_scratch m s) cpu cm.
Proof.
  intros Hm. destruct (ok_u32 m Hm). pose proof (online_bound m Hm). pose proof (global_bound m Hm). unfold count_up. cbn.
  by rewrite !Z.add_0_r, !w32_small by (unfold two32 in *; lia).
Qed.

(** A vector that the CPU manages and nobody has allocated. *)
Definition spare_at (m : irq_matrix) (cm : cpumap) (b : Z) : Prop :=
  alloc_start m <= b < alloc_end m /\ bit (managed_map cm) b = true /\ bit (alloc_map cm) b = false.
Definition has_spare (m : irq_matrix) (cm : cpumap) : Prop := exists b, spare_at m cm b.

(** How a CPU's map looks with [d] more managed vectors. *)
Record managed_by (d : Z) (cm cm' : cpumap) : Prop := {
  mb_online : online cm' = online cm;
  mb_alloc : alloc_map cm' = alloc_map cm;
  mb_managed : managed cm' = managed cm + d;
  mb_available : online cm = true -> available cm' = available cm - d;
  mb_allocated : online cm = true -> allocated cm' = allocated cm;
}.

Section Managed.
Context (m : irq_matrix) (cpu : nat) (cm : cpumap).
Hypothesis Hm : matrix_ok m.
Hypothesis Hcpu : maps m !! cpu = Some cm.

(** The search for a managed vector that is not allocated. *)
Lemma spare_search :
  exists s r bit', map_ok s
    /\ __bitmap_andnot (scratch_map m) (managed_map cm) (alloc_map cm) (alloc_end m) = Ret (s, r)
    /\ find_first_bit s (alloc_end m) = Ret bit'
    /\ ((bit' = alloc_end m /\ ~ has_spare m cm)
        \/ (0 <= bit' < alloc_end m /\ bit (managed_map cm) bit' = true /\ bit (alloc_map cm) bit' = false)).
Proof using Hm Hcpu.
  pose proof (cpu_here m cpu cm Hm Hcpu) as Hc. pose proof (ok_range m Hm) as [Hr1 Hr2].
  assert (Hend : 0 <= alloc_end m <= IRQ_MATRIX_BITS) by (unfold IRQ_MATRIX_BITS in *; lia).
  pose proof (BITS_TO_LONGS_bounds (alloc_end m) ltac:(lia)) as [Hbl _].
  destruct (bitmap_masked_spec _ _ wordwise_andnot (scratch_map m) (managed_map cm) (alloc_map cm) (alloc_end m))
    as (s&r&E&Hw&Hl&Hb&_); [apply map_ok_holds; [apply Hm|done]|apply map_ok_holds; [apply Hc|done]|
                            apply map_ok_holds; [apply Hc|done]|].
  assert (Hs : map_ok s) by (eapply map_ok_length; [apply (ok_scratch m Hm)|done|done]).
  destruct (find_first_bit_spec s (alloc_end m)) as (b&Eb&Hfb); [by apply map_ok_holds|].
  exists s, r, b. split_and!; try done.
  assert (Hbit : forall i, 0 <= i < alloc_end m -> bit s i = bit (managed_map cm) i && negb (bit (alloc_map cm) i)).
  { intros i Hi. rewrite Hb by lia. case_cmps; done. }
  destruct Hfb as [[-> Hno]|(Hr&Hset&_)]; [left|right].
  - split; [done|]. intros (i&Hi&Hmi&Hai). specialize (Hno i ltac:(lia)). rewrite Hbit, Hmi, Hai in Hno by lia. done.
  - rewrite Hbit in Hset by lia. apply andb_true_iff in Hset as [? ?%negb_true_iff]. done.
Qed.

Lemma remove_managed_cpu_ok :
  exists m' cm' d, remove_managed_cpu m cpu = Ret m' /\ matrix_ok m' /\ maps m' = <[cpu := cm']> (maps m)
    /\ system_map m' = system_map m /\ alloc_start m' = alloc_start m /\ alloc_end m' = alloc_end m
    /\ managed_by d cm cm' /\ (d = 0 \/ d = -1) /\ (has_spare m cm -> d = -1).
Proof using Hm Hcpu.
  pose proof (cpu_here m cpu cm Hm Hcpu) as Hc. pose proof (ok_range m Hm) as [Hr1 Hr2].
  pose proof (cpu_bounds m cm Hm Hc) as [Hmn Hon].
  unfold remove_managed_cpu. rewrite (per_cpu_ok _ _ _ Hcpu). cbn [res_bind].
  assert (Hsame : managed_by 0 cm cm) by (split; try done; lia).
  destruct (Z.eqb_spec (managed cm) 0) as [Ez|Ez].
  { exists m, cm, 0. split_and!; try done; [by rewrite list_insert_id|by left|].
    intros (b&Hb&Hmb&_). pose proof (managed_room m cm b Hm Hc Hb Hmb). lia. }
  destruct spare_search as (s&r&b&Hs&->&Ef&Hb). cbn [res_bind]. rewrite Ef. cbn [res_bind].
  destruct Hb as [[-> Hno]|(Hb&Hmb&Hab)].
  { case_cmp; [|lia]. exists (set_scratch m s), cm, 0. split_and!; try done; [by apply scratch_ok|by rewrite list_insert_id|by left]. }
  case_cmp; [lia|]. pose proof (ok_in_range _ _ _ _ Hc b ltac:(unfold nvec; lia) Hmb) as Hlo.
  destruct (clear_bit_spec b (managed_map cm)) as (bm&->&Hw&Hl&Hbm); [apply Hc|split; [lia|]; apply Z.lt_le_trans with 1024; [unfold IRQ_MATRIX_BITS in *; lia|apply map_ok_room; [apply Hc|lia]]|].
  cbn [res_bind]. assert (Hbmok : map_ok bm) by (eapply map_ok_length; [apply (ok_managed_map _ _ _ _ Hc)|done|done]).
  pose proof (managed_room m cm b Hm Hc ltac:(lia) Hmb) as Hpos.
  pose proof (ok_disjoint _ _ _ _ Hc b ltac:(apply vectors; [done|lia]) Hmb) as Hsys.
  set (av := if online cm then 1 else 0). set (cm' := cpu_count (set_managed_map cm bm) av 0 (-1)).
  assert (Hch : changes (system_map m) b cm cm').
  { split; cbn -[w32]; try done; try apply Hc.
    - intros i Hi Hne. rewrite Hbm by done. by replace (i =? b) with false by lia.
    - rewrite Hbm, Z.eqb_refl, Hmb by lia. cbn. rewrite w32_small by (unfold two32; lia). lia.
    - intros E. unfold av. rewrite E. destruct (Hon E). unfold used. cbn.
      rewrite Hbm, Z.eqb_refl, Hmb, Hsys, Hab by lia. cbn. rewrite w32_small by (unfold two32; lia). lia.
    - intros E. destruct (Hon E). rewrite w32_small by (unfold two32; lia). lia. }
  assert (Hcontr : contribution cm' - contribution cm = av).
  { rewrite (contribution_change m cm cm' b Hch). unfold av. destruct (online cm); [|done].
    unfold used, cm'. cbn. rewrite Hbm, Z.eqb_refl, Hmb, Hsys, Hab by lia. done. }
  exists (count_up (put_cpu (set_scratch m s) cpu cm') av 0 0 0), cm', (-1). split_and!; try done; [| | |by right].
  - unfold cm', av. cbn [online set_managed_map]. destruct (online cm); [done|]. by rewrite count_up_put.
  - apply (change_ok m cpu cm Hm Hcpu b); try done; lia.
  - split; cbn -[w32]; try done.
    + rewrite w32_small by (unfold two32; lia). lia.
    + intros E. unfold av. rewrite E. destruct (Hon E). rewrite w32_small by (unfold two32; lia). lia.
    + intros E. destruct (Hon E). rewrite w32_small by (unfold two32; lia). lia.
Qed.
End Managed.

(** The parts of the matrix that managed vectors do not touch. *)
Definition same_frame (m m' : irq_matrix) : Prop :=
  system_map m' = system_map m /\ alloc_start m' = alloc_start m /\ alloc_end m' = alloc_end m
  /\ length (maps m') = length (maps m).

#[export] Instance same_frame_preorder : PreOrder same_frame.
Proof. split; [done|]. intros x y z (?&?&?&?) (?&?&?&?). repeat split; congruence. Qed.

(** Relates the maps of the CPUs in [cs], the others being unchanged. *)
Definition each_cpu (cs : list nat) (P : cpumap -> cpumap -> Prop) (m m' : irq_matrix) : Prop :=
  forall cpu cm, maps m !! cpu = Some cm ->
    if decide (cpu ∈ cs) then exists cm', maps m' !! cpu = Some cm' /\ P cm cm'
    else maps m' !! cpu = Some cm.

Definition reserved_one (m : irq_matrix) (cm cm' : cpumap) : Prop := managed_by 1 cm cm' /\ has_spare m cm'.

(** One turn of [reserve_managed_loop] on a CPU with a free vector. *)
Lemma reserve_one_ok m cpu cm :
  matrix_ok m -> maps m !! cpu = Some cm ->
  (exists s bit, map_ok s /\ matrix_alloc_area m cpu 1 true = Ret (set_scratch m s, bit) /\ alloc_end m <= bit /\ cpu_full m cm)
  \/ (exists m1 m' bit cm1 cm', matrix_alloc_area m cpu 1 true = Ret (m1, bit) /\ bit < alloc_end m1
      /\ per_cpu m1 cpu = Ret cm1
      /\ (if online cm1 then count_up (put_cpu m1 cpu (cpu_count cm1 (-1) 0 1)) (-1) 0 0 0
          else put_cpu m1 cpu (cpu_count cm1 0 0 1)) = m'
      /\ matrix_ok m' /\ same_frame m m' /\ maps m' = <[cpu := cm']> (maps m) /\ reserved_one m cm cm').
Proof.
  intros Hm E. pose proof (cpu_here m cpu cm Hm E) as Hc. pose proof (ok_range m Hm) as [Hr1 Hr2].
  destruct (matrix_alloc_area_ok m cpu cm Hm E true) as (s&area&Hs&[(Hbig&Ea&Hf)|(Ha&Hu&_&b&Hb&Hbits&Ea)]).
  { left. exists s, area. done. }
  right. destruct (take_changes m cpu cm Hm E area b Ha Hu Hb) as [_ Hch]. specialize (Hch Hbits).
  set (cm' := cpu_count _ _ _ _) in Hch.
  eexists _, _, area, (set_managed_map cm b), cm'. split; [exact Ea|]. split; [cbn; lia|].
  split; [by apply (per_cpu_put m cpu cm)|]. split; [done|].
  assert (Hcontr : contribution cm' - contribution cm = if online cm then -1 else 0).
  { rewrite (contribution_change m cm cm' area Hch). destruct (online cm); [|done]. rewrite Hu.
    unfold used, cm'. cbn. rewrite Hbits, Z.eqb_refl by lia. done. }
  assert (Heq : (if online (set_managed_map cm b)
    then count_up (put_cpu (put_cpu (set_scratch m s) cpu (set_managed_map cm b)) cpu (cpu_count (set_managed_map cm b) (-1) 0 1)) (-1) 0 0 0
    else put_cpu (put_cpu (set_scratch m s) cpu (set_managed_map cm b)) cpu (cpu_count (set_managed_map cm b) 0 0 1))
    = count_up (put_cpu (set_scratch m s) cpu cm') (if online cm then -1 else 0) 0 0 0).
  { unfold cm'. rewrite !put_put. cbn [online set_managed_map]. destruct (online cm); [done|]. by rewrite count_up_put. }
  rewrite Heq. split; [apply (change_ok m cpu cm Hm E area); done|].
  split; [repeat split; cbn; by rewrite length_insert|]. split; [done|].
  pose proof (cpu_bounds m cm Hm Hc) as [Hmn Hon].
  assert (Hmb : bit (managed_map cm) area = false /\ bit (alloc_map cm) area = false).
  { unfold used in Hu. apply orb_false_iff in Hu as [Hu ?]. by apply orb_false_iff in Hu as [? ?]. }
  split.
  - split; cbn -[w32]; try done.
    + rewrite w32_small by (unfold two32; lia). done.
    + intros Eon. rewrite Eon. destruct (Hon Eon). destruct (cpu_room m cm area Hm Hc Eon Ha) as [Hav _]. specialize (Hav Hu).
      rewrite w32_small by (unfold two32; lia). lia.
    + intros Eon. destruct (Hon Eon). rewrite w32_small by (unfold two32; lia). lia.
  - exists area. split; [done|]. cbn. rewrite Hbits, Z.eqb_refl by lia. split; [done|apply Hmb].
Qed.

Lemma cpu_ok_frame m m' cm : same_frame m m' -> has_spare m cm <-> has_spare m' cm.
Proof. intros (?&E1&E2&_). unfold has_spare, spare_at. by rewrite E1, E2. Qed.

Lemma reserve_managed_loop_ok cpus : forall m,
  matrix_ok m -> cpus_ok m cpus -> NoDup cpus ->
  exists m' o pre suf, reserve_managed_loop m cpus = Ret (m', o) /\ matrix_ok m' /\ same_frame m m'
    /\ cpus = pre ++ suf /\ each_cpu pre (reserved_one m) m m'
    /\ match o with
       | None => suf = []
       | Some c => exists cm, head suf = Some c /\ maps m !! c = Some cm /\ cpu_full m cm
       end.
Proof.
  induction cpus as [|c cpus IH]; intros m Hm Hcs Hnd; cbn [reserve_managed_loop].
  { exists m, None, [], []. split_and!; try done. intros cpu cm E. by rewrite decide_False by (by intros []%elem_of_nil). }
  apply NoDup_cons in Hnd as [Hni Hnd].
  destruct (Hcs c (list_elem_of_here _ _)) as [cm E].
  destruct (reserve_one_ok m c cm Hm E)
    as [(s&b&Hs&->&Hb&Hf)|(m1&m2&b&cm1&cm2&->&Hb&Ep&E2&Hm2&Hfr&Hmaps&Hres)]; cbn [res_bind].
  - cbn [set_scratch alloc_end]. case_cmp; [|lia].
    exists (set_scratch m s), (Some c), [], (c :: cpus). split_and!; try done; [by apply scratch_ok| |by exists cm].
    intros cpu cm' E'. by rewrite decide_False by (by intros []%elem_of_nil).
  - case_cmp; [lia|]. rewrite Ep. cbn [res_bind]. cbv zeta. rewrite E2.
    assert (Hcs2 : cpus_ok m2 cpus).
    { intros x Hx. destruct (Hcs x (list_elem_of_further _ _ _ Hx)) as [y Ey]. rewrite Hmaps.
      destruct (decide (x = c)) as [->|]; [done|]. rewrite list_lookup_insert_ne by done. by exists y. }
    destruct (IH m2 Hm2 Hcs2 Hnd) as (m3&o&pre&suf&E3&Hm3&Hfr3&->&Heach&Ho).
    rewrite E3. exists m3, o, (c :: pre), suf. split_and!; try done; [by etrans| |].
    + intros cpu y Ey. specialize (Heach cpu).
      destruct (decide (cpu = c)) as [->|Hne].
      * assert (y = cm) as -> by congruence. rewrite decide_True by apply list_elem_of_here.
        specialize (Heach cm2 ltac:(rewrite Hmaps; apply list_lookup_insert_eq; by eapply lookup_lt_Some)).
        rewrite decide_False in Heach by set_solver. by exists cm2.
      * specialize (Heach y ltac:(by rewrite Hmaps, list_lookup_insert_ne)).
        destruct (decide (cpu ∈ pre)) as [Hin|Hin].
        -- rewrite decide_True by (by apply list_elem_of_further). destruct Heach as (y'&Ey'&[? ?]).
           exists y'. split; [done|]. split; [done|]. by rewrite (cpu_ok_frame m m2).
        -- rewrite decide_False by set_solver. done.
    + destruct o as [f|]; [|done]. destruct Ho as (y&Hh&Ey&Hfy). exists y. split; [done|].
      assert (f ≠ c) as Hne by (intros ->; destruct suf; [done|]; simplify_eq/=; set_solver).
      rewrite Hmaps, list_lookup_insert_ne in Ey by done. split; [done|].
      destruct Hfr as (Es&E4&E5&_). intros i Hi. rewrite <- Es. apply Hfy. by rewrite E4, E5.
Qed.

Lemma before_app pre c suf : NoDup (pre ++ c :: suf) -> before c (pre ++ c :: suf) = pre.
Proof.
  induction pre as [|x pre IH]; cbn [app before]; intros Hnd; [by rewrite Nat.eqb_refl|].
  apply NoDup_cons in Hnd as [Hni Hnd]. destruct (Nat.eqb_spec x c) as [->|]; [set_solver|]. by rewrite IH.
Qed.

(** Removing one managed vector per CPU. *)
Lemma irq_matrix_remove_managed_ok cpus : forall m,
  matrix_ok m -> cpus_ok m cpus -> NoDup cpus ->
  exists m', irq_matrix_remove_managed m cpus = Ret m' /\ matrix_ok m' /\ same_frame m m'
    /\ each_cpu cpus (fun cm cm' => exists d, managed_by d cm cm' /\ (d = 0 \/ d = -1)
                                     /\ (has_spare m cm -> d = -1)) m m'.
Proof.
  induction cpus as [|c cpus IH]; intros m Hm Hcs Hnd; cbn [irq_matrix_remove_managed].
  { exists m. split_and!; try done. intros cpu cm E. by rewrite decide_False by (by intros []%elem_of_nil). }
  apply NoDup_cons in Hnd as [Hni Hnd]. destruct (Hcs c (list_elem_of_here _ _)) as [cm E].
  destruct (remove_managed_cpu_ok m c cm Hm E) as (m2&cm2&d&->&Hm2&Hmaps&Es&E1&E2&Hmb&Hd&Hsp). cbn [res_bind].
  assert (Hfr : same_frame m m2) by (repeat split; try done; by rewrite Hmaps, length_insert).
  assert (Hcs2 : cpus_ok m2 cpus).
  { intros x Hx. destruct (Hcs x (list_elem_of_further _ _ _ Hx)) as [y Ey]. rewrite Hmaps.
    rewrite list_lookup_insert_ne by set_solver. by exists y. }
  destruct (IH m2 Hm2 Hcs2 Hnd) as (m3&->&Hm3&Hfr3&Heach). exists m3. split_and!; try done; [by etrans|].
  intros cpu y Ey. destruct (decide (cpu = c)) as [->|Hne].
  - assert (y = cm) as -> by congruence. rewrite decide_True by apply list_elem_of_here.
    specialize (Heach c cm2 ltac:(rewrite Hmaps; apply list_lookup_insert_eq; by eapply lookup_lt_Some)).
    rewrite decide_False in Heach by set_solver. exists cm2. split; [done|]. by exists d.
  - specialize (Heach cpu y ltac:(by rewrite Hmaps, list_lookup_insert_ne)).
    destruct (decide (cpu ∈ cpus)).
    + rewrite decide_True by (by apply list_elem_of_further). destruct Heach as (y'&?&d'&?&?&Hs).
      exists y'. split; [done|]. exists d'. split_and!; try done. intros Hy. apply Hs. by apply (cpu_ok_frame m m2).
    + rewrite decide_False by set_solver. done.
Qed.

(** [irq_matrix_reserve_managed] reserves one vector on every CPU or, when one of
    them is full, leaves every counter and every allocation as it was. *)
Lemma irq_matrix_reserve_managed_ok m cpus :
  matrix_ok m -> cpus_ok m cpus -> NoDup cpus ->
  exists m' r, irq_matrix_reserve_managed m cpus = Ret (m', r) /\ matrix_ok m' /\ same_frame m m'
    /\ ((r = 0 /\ each_cpu cpus (managed_by 1) m m')
        \/ (r = - ENOSPC /\ (exists c cm, c ∈ cpus /\ maps m !! c = Some cm /\ cpu_full m cm)
            /\ each_cpu cpus (managed_by 0) m m')).
Proof.
  intros Hm Hcs Hnd. unfold irq_matrix_reserve_managed.
  destruct (reserve_managed_loop_ok cpus m Hm Hcs Hnd) as (m1&o&pre&suf&->&Hm1&Hfr1&->&Heach&Ho).
  cbn [res_bind]. destruct o as [c|].
  - destruct Ho as (cm&Hh&E&Hf). destruct suf as [|x suf]; [done|]. simplify_eq/=.
    rewrite before_app by done.
    assert (Hcs1 : cpus_ok m1 pre).
    { intros x Hx. destruct (Hcs x ltac:(set_solver)) as [y Ey]. specialize (Heach x y Ey).
      rewrite decide_True in Heach by done. destruct Heach as (y'&->&_). done. }
    destruct (irq_matrix_remove_managed_ok pre m1 Hm1 Hcs1) as (m2&->&Hm2&Hfr2&Heach2).
    { by apply NoDup_app in Hnd as [? _]. }
    cbn [res_bind]. exists m2, (- ENOSPC). split_and!; try done; [by etrans|]. right. split_and!; [done| |].
    + exists c, cm. split_and!; try done. set_solver.
    + intros cpu y Ey. specialize (Heach cpu y Ey). destruct (decide (cpu ∈ pre)) as [Hin|Hin].
      * rewrite decide_True by set_solver. destruct Heach as (y1&E1&[Hmb Hsp]).
        specialize (Heach2 cpu y1 E1). rewrite decide_True in Heach2 by done.
        destruct Heach2 as (y2&E2&d&Hmb2&_&Hd). exists y2. split; [done|].
        assert (d = -1) as -> by (apply Hd; by apply (cpu_ok_frame m m1)).
        destruct Hmb as [O1 A1 M1 V1 L1], Hmb2 as [O2 A2 M2 V2 L2].
        split; [congruence|congruence|lia|intros Hon; rewrite V2, V1 by congruence; lia|
                intros Hon; rewrite L2, L1 by congruence; done].
      * specialize (Heach2 cpu y Heach). rewrite decide_False in Heach2 by done.
        destruct (decide (cpu ∈ pre ++ c :: suf)); [|done]. exists y. split; [done|]. split; try done; lia.
  - subst suf. rewrite app_nil_r in *. exists m1, 0. split_and!; try done. left. split; [done|].
    intros cpu y Ey. specialize (Heach cpu y Ey). destruct (decide (cpu ∈ pre)); [|done].
    destruct Heach as (y'&?&[? _]). by exists y'.
Qed.

Section VectorOps.
Context (m : irq_matrix) (cpu : nat) (cm : cpumap).
Hypothesis Hm : matrix_ok m.
Hypothesis Hcpu : maps m !! cpu = Some cm.

Lemma map_room b bm : map_ok bm -> b < alloc_end m \/ b < 1024 -> b < 64 * Z.of_nat (length bm).
Proof using Hm.
  intros [_ ->] Hb. pose proof (ok_range m Hm) as [_ ?]. unfold IRQ_MATRIX_BITS in *.
  change (Z.of_nat (Z.to_nat IRQ_MATRIX_SIZE)) with 32. lia.
Qed.

(** [irq_matrix_alloc_managed] hands out a managed vector that is not allocated. *)
Lemma irq_matrix_alloc_managed_ok :
  online cm = true ->
  exists m' r, irq_matrix_alloc_managed m cpu = Ret (m', r) /\ matrix_ok m' /\ same_frame m m'
    /\ ((r = - ENOSPC /\ maps m' = maps m /\ ~ has_spare m cm)
        \/ (spare_at m cm r /\ exists cm', maps m' = <[cpu := cm']> (maps m)
              /\ (forall i, 0 <= i -> bit (alloc_map cm') i = (i =? r) || bit (alloc_map cm) i)
              /\ managed_map cm' = managed_map cm /\ available cm' = available cm /\ online cm' = true)).
Proof using Hm Hcpu.
  intros Hon. pose proof (cpu_here m cpu cm Hm Hcpu) as Hc. pose proof (ok_range m Hm) as [Hr1 Hr2].
  pose proof (cpu_bounds m cm Hm Hc) as [Hmn Hbd]. destruct (Hbd Hon) as [Hav Hal].
  unfold irq_matrix_alloc_managed. rewrite (per_cpu_ok _ _ _ Hcpu). cbn [res_bind].
  destruct (spare_search m cpu cm Hm Hcpu) as (s&r&b&Hs&->&Ef&Hb). cbn [res_bind]. rewrite Ef. cbn [res_bind].
  destruct Hb as [[-> Hno]|(Hb&Hmb&Hab)].
  { case_cmp; [|lia]. exists (set_scratch m s), (- ENOSPC). split_and!; try done; [by apply scratch_ok|by left]. }
  case_cmp; [lia|]. pose proof (ok_in_range _ _ _ _ Hc b ltac:(unfold nvec; lia) Hmb) as Hlo.
  destruct (set_bit_spec b (alloc_map cm)) as (bm&->&Hw&Hl&Hbm); [apply Hc|split; [lia|apply map_room; [apply Hc|lia]]|].
  cbn [res_bind]. pose proof (ok_disjoint _ _ _ _ Hc b ltac:(apply vectors; [done|lia]) Hmb) as Hsys.
  set (cm' := cpu_count _ _ _ _).
  assert (Hch : changes (system_map m) b cm cm').
  { split; cbn -[w32]; try done; try apply Hc.
    - eapply map_ok_length; [apply (ok_alloc_map _ _ _ _ Hc)|done|done].
    - intros i Hi Hne. rewrite Hbm by done. by replace (i =? b) with false by lia.
    - rewrite w32_small by (unfold two32; lia). lia.
    - intros _. unfold used. cbn. rewrite Hmb. cbn. rewrite w32_small by (unfold two32; lia). lia.
    - intros _. rewrite Hbm, Z.eqb_refl, Hab by lia. cbn. rewrite w32_small by (unfold two32; lia). lia. }
  exists (count_up (put_cpu (set_scratch m s) cpu cm') 0 0 1 0), b. split_and!; [done| | |].
  - apply (change_ok m cpu cm Hm Hcpu b); try done. rewrite (contribution_change m cm cm' b Hch), Hon.
    unfold used, cm'. cbn. by rewrite Hmb.
  - repeat split; cbn; by rewrite length_insert.
  - right. split; [done|]. exists cm'. split_and!; try done. cbn -[w32].
    rewrite w32_small by (unfold two32; lia). lia.
Qed.

(** [irq_matrix_assign] of an unused vector. *)
Lemma irq_matrix_assign_ok b :
  online cm = true -> alloc_start m <= b < alloc_end m -> used (system_map m) cm b = false ->
  exists m' cm', irq_matrix_assign cpu m b = Ret m' /\ matrix_ok m' /\ maps m' = <[cpu := cm']> (maps m)
    /\ bit (alloc_map cm') b = true.
Proof using Hm Hcpu.
  intros Hon Hb Hu. pose proof (cpu_here m cpu cm Hm Hcpu) as Hc. pose proof (ok_range m Hm) as [Hr1 Hr2].
  unfold irq_matrix_assign. rewrite (per_cpu_ok _ _ _ Hcpu). cbn [res_bind].
  replace ((b <? alloc_start m) || (alloc_end m <=? b)) with false by lia.
  assert (Hroom : 0 <= b < 64 * Z.of_nat (length (alloc_map cm))) by (split; [lia|apply map_room; [apply Hc|lia]]).
  rewrite test_bit_spec by (done || apply Hc). cbn [res_bind].
  destruct (set_bit_spec b (alloc_map cm)) as (bm&->&Hw&Hl&Hbm); [apply Hc|done|]. cbn [res_bind].
  assert (bit (alloc_map cm) b = false) as -> by (unfold used in Hu; by apply orb_false_iff in Hu as [_ ?]).
  assert (Hbok : map_ok bm) by (eapply map_ok_length; [apply (ok_alloc_map _ _ _ _ Hc)|done|done]).
  destruct (take_changes m cpu cm Hm Hcpu b bm Hb Hu Hbok) as [Hch _]. specialize (Hch Hon Hbm).
  set (cm' := cpu_count _ _ _ _) in *.
  exists (count_up (put_cpu m cpu cm') (-1) 0 1 0), cm'. split_and!; [done| |done|].
  - rewrite <- (self_scratch m). apply (change_ok m cpu cm Hm Hcpu b); try done; [apply Hm|].
    rewrite (contribution_change m cm cm' b Hch), Hon, Hu. unfold used, cm'. cbn.
    by rewrite Hbm, Z.eqb_refl, orb_true_l, !orb_true_r by lia.
  - cbn. by rewrite Hbm, Z.eqb_refl by lia.
Qed.

(** [irq_matrix_free] of an allocated vector, told correctly whether it is
    managed. *)
Lemma irq_matrix_free_ok b :
  alloc_start m <= b < alloc_end m -> (online cm = true -> bit (alloc_map cm) b = true) ->
  exists m', irq_matrix_free m cpu b (bit (managed_map cm) b) = Ret m' /\ matrix_ok m'
    /\ (online cm = true -> exists cm', maps m' = <[cpu := cm']> (maps m)
        /\ (forall i, 0 <= i -> bit (alloc_map cm') i = negb (i =? b) && bit (alloc_map cm) i)
        /\ managed_map cm' = managed_map cm).
Proof using Hm Hcpu.
  intros Hb Ha. pose proof (cpu_here m cpu cm Hm Hcpu) as Hc. pose proof (ok_range m Hm) as [Hr1 Hr2].
  pose proof (cpu_bounds m cm Hm Hc) as [Hmn Hbd].
  unfold irq_matrix_free. rewrite (per_cpu_ok _ _ _ Hcpu). cbn [res_bind].
  replace ((b <? alloc_start m) || (alloc_end m <=? b)) with false by lia.
  destruct (online cm) eqn:Hon; [|exists m; done]. specialize (Ha eq_refl). destruct (Hbd eq_refl) as [Hav Hal].
  destruct (cpu_room m cm b Hm Hc Hon Hb) as [_ Hpos]. specialize (Hpos Ha).
  pose proof (ok_system _ _ _ _ Hc b Hon ltac:(apply vectors; [done|lia]) Ha) as Hsys.
  destruct (clear_bit_spec b (alloc_map cm)) as (bm&->&Hw&Hl&Hbm); [apply Hc|split; [lia|apply map_room; [apply Hc|lia]]|].
  cbn [res_bind]. set (av := if bit (managed_map cm) b then 0 else 1). set (cm' := cpu_count _ _ _ _).
  assert (Hu : used (system_map m) cm b = true) by (unfold used; by rewrite Ha, orb_true_r).
  assert (Hu' : used (system_map m) cm' b = bit (managed_map cm) b).
  { unfold used, cm'. cbn. by rewrite Hbm, Z.eqb_refl, Hsys, !orb_false_r by lia. }
  assert (Hch : changes (system_map m) b cm cm').
  { split; try done; try (by apply Hc).
    - eapply map_ok_length; [apply (ok_alloc_map _ _ _ _ Hc)|done|done].
    - intros i Hi Hne. cbn. rewrite Hbm by done. by replace (i =? b) with false by lia.
    - cbn -[w32]. rewrite w32_small by (unfold two32; lia). lia.
    - intros _. rewrite Hu, Hu'. cbn -[w32]. unfold av, b2z. destruct (bit (managed_map cm) b);
        rewrite w32_small by (unfold two32; lia); lia.
    - intros _. cbn -[w32]. rewrite Hbm, Z.eqb_refl, Ha by lia. cbn -[w32]. rewrite w32_small by (unfold two32; lia). lia. }
  exists (count_up (put_cpu m cpu cm') av 0 (-1) 0). split_and!; [done| |].
  - rewrite <- (self_scratch m). apply (change_ok m cpu cm Hm Hcpu b); try done; [apply Hm|].
    rewrite (contribution_change m cm cm' b Hch), Hon, Hu, Hu'. unfold av, b2z. destruct (bit (managed_map cm) b); lia.
  - intros _. by exists cm'.
Qed.
End VectorOps.

(** * System vectors *)

Section System.
Context (m : irq_matrix) (cpu : nat) (cm : cpumap) (b : Z).
Hypothesis Hm : matrix_ok m.
Hypothesis Hcpu : maps m !! cpu = Some cm.
Hypothesis Hb : 0 <= b < matrix_bits m.
Hypothesis Hnew : bit (system_map m) b = false.
Hypothesis Hfree : forall c x, maps m !! c = Some x -> bit (managed_map x) b = false.

Lemma offline_valid sys c x :
  (forall i, 0 <= i -> bit sys i = (i =? b) || bit (system_map m) i) ->
  maps m !! c = Some x -> online x = false -> cpu_ok (alloc_start m) (nvec m) sys x.
Proof using All.
  intros Hs E Hoff. destruct (cpu_lookup m Hm _ _ E) as [? ? ? ? Hd ? ? ?]. pose proof (ok_range m Hm) as [? _].
  split; try done; try (by rewrite Hoff). intros i Hi Hbi. rewrite Hs by lia. case_cmp; [|by apply Hd].
  replace i with b in Hbi by lia. by rewrite (Hfree _ _ E) in Hbi.
Qed.

Lemma others_offline f c x :
  (forall y, f y = b2z (online y)) -> total f (maps m) = b2z (online cm) -> maps m !! c = Some x -> c <> cpu -> online x = false.
Proof using All.
  intros Hf Ht E Hne. set (off := mkCpumap 0 0 0 false [] []).
  pose proof (total_insert f (maps m) cpu cm off Hcpu) as Hi.
  assert (Hx : (<[cpu := off]> (maps m)) !! c = Some x) by (by rewrite list_lookup_insert_ne).
  assert (Hpos : forall y, 0 <= f y) by (intros y; rewrite Hf; destruct (online y); simpl; lia).
  destruct (total_elem f _ c x (Forall_true _ (<[cpu := off]> (maps m)) Hpos) Hx) as [_ He].
  rewrite Hi, Ht, !Hf in He. cbn in He. destruct (online x); [cbn in He; lia|done].
Qed.

Lemma systembits_up sys :
  (forall i, 0 <= i -> bit sys i = (i =? b) || bit (system_map m) i) ->
  (if (alloc_start m <=? b) && (b <? alloc_end m) then w32 (systembits_inalloc m + 1) else systembits_inalloc m)
  = count (bit sys) (alloc_start m) (nvec m).
Proof using All.
  intros Hs. pose proof (ok_range m Hm) as [Hr ?]. pose proof (ok_systembits m Hm) as E.
  pose proof (count_bounds (bit (system_map m)) (alloc_start m) (nvec m)).
  assert (Z.of_nat (nvec m) <= 256) by (unfold nvec, IRQ_MATRIX_BITS in *; lia).
  destruct ((alloc_start m <=? b) && (b <? alloc_end m)) eqn:Ein.
  - rewrite w32_small by (unfold two32; lia). rewrite E. symmetry. apply (count_flip _ _ _ _ b); try done.
    + apply vectors; [done|lia].
    + rewrite Hs, Z.eqb_refl by lia. done.
    + intros i Hi Hne. rewrite Hs by lia. by replace (i =? b) with false by lia.
  - rewrite E. apply count_same. intros i Hi%(vectors m Hm). rewrite Hs by lia. by replace (i =? b) with false by lia.
Qed.

(** Before any CPU is online. *)
Lemma assign_system_early :
  online_maps m = 0 ->
  exists m', irq_matrix_assign_system cpu m b false = Ret m' /\ matrix_ok m' /\ maps m' = maps m
    /\ forall i, 0 <= i -> bit (system_map m') i = (i =? b) || bit (system_map m) i.
Proof using All.
  intros H0. pose proof (ok_range m Hm) as [Hr1 Hr2]. unfold irq_matrix_assign_system.
  rewrite (per_cpu_ok _ _ _ Hcpu). cbn [res_bind]. replace (matrix_bits m <? b) with false by lia.
  rewrite H0. cbn [BUG_ON res_bind]. change (1 <? 0) with false. cbn [orb negb Z.eqb andb BUG_ON res_bind].
  destruct (set_bit_spec b (system_map m)) as (sys&->&Hw&Hl&Hs); [apply Hm| |].
  { split; [lia|]. apply (map_room m); [done|apply Hm|]. unfold IRQ_MATRIX_BITS in *. lia. }
  cbn [res_bind]. eexists. split; [done|]. split_and!; [|done|done].
  pose proof (systembits_up sys Hs) as Hsb. destruct Hm as [? ? ? Hsm ? Hmaps ? ? Hon ?]. split; try done.
  - eapply map_ok_length; [apply Hsm|done|done].
  - cbn. apply Forall_lookup. intros c x E. apply (offline_valid sys c x); [done|done|].
    rewrite H0 in Hon. destruct (online x) eqn:Ex; [|done]. pose proof (total_elem (fun cm => b2z (online cm)) (maps m) c x) as He.
    cbv beta in He. rewrite Ex, <- Hon in He. cbn in He. destruct He as [_ He]; [|done|lia].
    apply Forall_true. intros y. destruct (online y); simpl; lia.
Qed.

(** Once the local CPU, and no other, is online: the vector must be allocated. *)
Lemma assign_system_replace :
  online cm = true -> online_maps m = 1 -> alloc_start m <= b < alloc_end m -> bit (alloc_map cm) b = true ->
  exists m', irq_matrix_assign_system cpu m b true = Ret m' /\ matrix_ok m'
    /\ (forall i, 0 <= i -> bit (system_map m') i = (i =? b) || bit (system_map m) i)
    /\ exists cm', maps m' = <[cpu := cm']> (maps m) /\ available cm' = available cm
         /\ forall i, 0 <= i -> bit (alloc_map cm') i = negb (i =? b) && bit (alloc_map cm) i.
Proof using All.
  intros Hon H1 Hin Ha. pose proof (ok_range m Hm) as [Hr1 Hr2]. pose proof (cpu_here m cpu cm Hm Hcpu) as Hc.
  unfold irq_matrix_assign_system. rewrite (per_cpu_ok _ _ _ Hcpu). cbn [res_bind]. replace (matrix_bits m <? b) with false by lia.
  rewrite H1. cbn [BUG_ON res_bind]. change (1 <? 1) with false. cbn [orb negb Z.eqb Pos.eqb andb BUG_ON res_bind].
  destruct (set_bit_spec b (system_map m)) as (sys&->&Hw&Hl&Hs); [apply Hm|split; [lia|apply (map_room m); [done|apply Hm|lia]]|].
  assert (Hroom : 0 <= b < 64 * Z.of_nat (length (alloc_map cm))) by (split; [lia|apply (map_room m); [done|apply Hc|lia]]).
  cbn [res_bind]. rewrite test_bit_spec by (done || apply Hc). cbn [res_bind]. rewrite Ha. cbn [negb BUG_ON res_bind].
  destruct (clear_bit_spec b (alloc_map cm)) as (bm&->&Hbw&Hbl&Hbm); [apply Hc|done|]. cbn [res_bind].
  pose proof (cpu_bounds m cm Hm Hc) as [Hmn Hbd]. destruct (Hbd Hon) as [Hav Hal].
  destruct (cpu_room m cm b Hm Hc Hon Hin) as [_ Hpos]. specialize (Hpos Ha).
  set (cm' := cpu_count _ _ _ _). eexists. split; [done|].
  assert (Eav : available cm' = available cm) by (cbn -[w32]; rewrite w32_small by (unfold two32; lia); lia).
  assert (Hcm' : cpu_ok (alloc_start m) (nvec m) sys cm').
  { pose proof Hc as [? ? ? ? Hd Cav Cal Cs]. apply (vectors m Hm) in Hin. split; try done; cbn -[w32 count].
    - eapply map_ok_length; [apply (ok_alloc_map _ _ _ _ Hc)|done|done].
    - rewrite w32_small by (unfold two32; lia). lia.
    - intros i Hi Hbi. rewrite Hs by lia. case_cmp; [|by apply Hd]. replace i with b in Hbi by lia.
      by rewrite (Hfree _ _ Hcpu) in Hbi.
    - intros _. rewrite w32_small, Z.add_0_r, Cav by (done || (unfold two32; lia)). apply count_same. intros i Hi. unfold used. cbn.
      rewrite Hs, Hbm by lia. case_cmp; [replace i with b by lia; rewrite Ha; cbn; by rewrite !orb_true_r|done].
    - intros _. rewrite w32_small, Cal by (done || (unfold two32; lia)).
      rewrite (count_change (bit (alloc_map cm)) (bit bm) _ _ b Hin).
      + rewrite Hbm, Z.eqb_refl, Ha by lia. cbn. lia.
      + intros i Hi Hne. rewrite Hbm by lia. by replace (i =? b) with false by lia.
    - intros i _ Hi Hbi. rewrite Hbm in Hbi by lia. rewrite Hs by lia. case_cmp; [done|]. by apply (Cs i). }
  split; [|split; [done|by exists cm']].
  pose proof (systembits_up sys Hs) as Hsb. destruct (ok_u32 m Hm). pose proof (global_bound m Hm).
  pose proof Hm as [? ? ? Hsm ? Hmaps ? Hg Hol _]. split; try done; cbn -[w32 total b2z].
  - eapply map_ok_length; [apply Hsm|done|done].
  - apply Forall_lookup. intros c x E. destruct (decide (c = cpu)) as [->|Hne].
    + rewrite list_lookup_insert_eq in E by (by eapply lookup_lt_Some). by injection E as <-.
    + rewrite list_lookup_insert_ne in E by done. apply (offline_valid sys c x); [done|done|].
      eapply (others_offline (fun cm => b2z (online cm)) c x); try done. by rewrite Hon, <- Hol, H1.
  - by rewrite length_insert.
  - rewrite w32_small by (unfold two32; lia). rewrite (total_insert _ _ _ cm) by done. unfold contribution at 2 3.
    change (online cm') with (online cm). rewrite Hon, Eav. lia.
  - rewrite w32_small by (unfold two32; lia). rewrite (total_insert _ _ _ cm) by done. change (online cm') with (online cm). lia.
  - split; apply w32_range.
Qed.
End System.

(** * The initial matrix and the reservation counter *)

Lemma zero_map_ok : map_ok zero_map.
Proof. split; [|done]. apply Forall_replicate. unfold two64. lia. Qed.
Lemma bit_zero_map i : bit zero_map i = false.
Proof.
  unfold bit, zero_map. rewrite nth_lookup. destruct (replicate _ 0 !! _) as [w|] eqn:E; [|apply Z.bits_0].
  apply lookup_replicate in E as [-> _]. apply Z.bits_0.
Qed.
Lemma total_replicate f n x : f x = 0 -> total f (replicate n x) = 0.
Proof. intros E. induction n; simpl; lia. Qed.

Lemma irq_alloc_matrix_ok n bits lo hi m :
  irq_alloc_matrix true true n bits lo hi = Some m -> 0 <= lo <= hi -> hi <= bits -> Z.of_nat n <= 8192 ->
  matrix_ok m.
Proof.
  unfold irq_alloc_matrix. case_cmp; [done|]. intros [= <-] Hr Hb Hn. unfold IRQ_MATRIX_BITS in *.
  assert (Hz : forall lo n, 0 = count (bit zero_map) lo n) by (intros; symmetry; apply count_zero; intros; apply bit_zero_map).
  split; cbn -[w32 total zero_map count]; try done; try apply zero_map_ok; try (unfold two32; lia).
  - apply w32_small. unfold two32. lia.
  - apply Forall_replicate. split; cbn -[zero_map count]; try done; try apply zero_map_ok; try apply Hz;
      intros i _; by rewrite bit_zero_map.
  - by rewrite length_replicate.
  - by rewrite total_replicate.
  - by rewrite total_replicate.
Qed.

Lemma count_reserved m d : matrix_ok m -> matrix_ok (count_up m 0 d 0 0).
Proof.
  intros Hm. destruct (ok_u32 m Hm). pose proof (online_bound m Hm). pose proof (global_bound m Hm).
  destruct Hm. split; try done; cbn -[w32 total].
  - by rewrite Z.add_0_r, w32_small by (unfold two32; lia).
  - by rewrite Z.add_0_r, w32_small by (unfold two32; lia).
  - split; apply w32_range.
Qed.
