(* ===== verification/IrqMatrixSpec.v ===== *)
(** What kernel/irq/matrix.c promises to the x86 vector domain: the accounting
    survives every sequence of operations, an allocation succeeds exactly when a
    vector is free, and managed reservations are all or nothing. *)

From S2P Require Import Prelude FindBit Hweight Bitmap BitmapFacts IrqMatrix IrqMatrixFacts.

(** * The operations as a transition system *)

(** One call; [cpu] is the local CPU where the code uses [this_cpu_ptr]. *)
Inductive matrix_op :=
  | op_online (cpu : nat)
  | op_offline (cpu : nat)
  | op_assign_system (cpu : nat) (b : Z) (replace : bool)
  | op_reserve_managed (cpus : list nat)
  | op_remove_managed (cpus : list nat)
  | op_alloc_managed (cpu : nat)
  | op_assign (cpu : nat) (b : Z)
  | op_reserve
  | op_remove_reserved
  | op_alloc (cpus : list nat) (reserved : bool)
  | op_free (cpu : nat) (b : Z) (managed : bool).

Definition matrix_exec (m : irq_matrix) (o : matrix_op) : res irq_matrix :=
  match o with
  | op_online cpu => irq_matrix_online cpu m
  | op_offline cpu => irq_matrix_offline cpu m
  | op_assign_system cpu b replace => irq_matrix_assign_system cpu m b replace
  | op_reserve_managed cpus => let* (m, _) := irq_matrix_reserve_managed m cpus in Ret m
  | op_remove_managed cpus => irq_matrix_remove_managed m cpus
  | op_alloc_managed cpu => let* (m, _) := irq_matrix_alloc_managed m cpu in Ret m
  | op_assign cpu b => irq_matrix_assign cpu m b
  | op_reserve => Ret (irq_matrix_reserve m)
  | op_remove_reserved => Ret (irq_matrix_remove_reserved m)
  | op_alloc cpus reserved => let* (m, _, _) := irq_matrix_alloc m cpus reserved in Ret m
  | op_free cpu b managed => irq_matrix_free m cpu b managed
  end.

Definition in_alloc (m : irq_matrix) (b : Z) : bool := (alloc_start m <=? b) && (b <? alloc_end m).
Definition cpu_is (m : irq_matrix) (cpu : nat) (p : cpumap -> bool) : bool :=
  match maps m !! cpu with Some cm => p cm | None => false end.
Definition valid_mask (m : irq_matrix) (cpus : list nat) : bool :=
  forallb (fun cpu => Nat.ltb cpu (length (maps m))) cpus && bool_decide (NoDup cpus).

(** What the callers of an operation see to. *)
Definition matrix_pre (m : irq_matrix) (o : matrix_op) : bool :=
  match o with
  | op_online cpu => cpu_is m cpu (fun cm => negb (online cm))
  | op_offline cpu => cpu_is m cpu online
  | op_assign_system cpu b replace =>
      (0 <=? b) && (b <? matrix_bits m) && negb (bit (system_map m) b)
      && forallb (fun cm => negb (bit (managed_map cm) b)) (maps m)
      && if replace then
           (online_maps m =? 1) && in_alloc m b && cpu_is m cpu (fun cm => online cm && bit (alloc_map cm) b)
         else (online_maps m =? 0) && cpu_is m cpu (fun _ => true)
  | op_reserve_managed cpus | op_remove_managed cpus | op_alloc cpus _ => valid_mask m cpus
  | op_alloc_managed cpu => cpu_is m cpu online
  | op_assign cpu b => in_alloc m b && cpu_is m cpu (fun cm => online cm && negb (used (system_map m) cm b))
  | op_reserve | op_remove_reserved => true
  | op_free cpu b managed =>
      in_alloc m b && cpu_is m cpu (fun cm => implb (online cm) (bit (alloc_map cm) b)
                                              && eqb managed (bit (managed_map cm) b))
  end.

Inductive matrix_run : irq_matrix -> irq_matrix -> Prop :=
  | run_done m : matrix_run m m
  | run_step m o m1 m' : matrix_pre m o = true -> matrix_exec m o = Ret m1 -> matrix_run m1 m' -> matrix_run m m'.

Lemma cpu_is_true m cpu p : cpu_is m cpu p = true -> exists cm, maps m !! cpu = Some cm /\ p cm = true.
Proof. unfold cpu_is. destruct (maps m !! cpu) as [cm|]; [|done]. intros Hp. by exists cm. Qed.

Lemma valid_mask_true m cpus : valid_mask m cpus = true -> cpus_ok m cpus /\ NoDup cpus.
Proof.
  unfold valid_mask. rewrite andb_true_iff, forallb_forall, bool_decide_eq_true. intros [Hf Hn]. split; [|done].
  intros cpu Hin. apply lookup_lt_is_Some_2. apply Nat.ltb_lt, Hf. by apply list_elem_of_In.
Qed.

Lemma matrix_exec_system m cpu b replace :
  matrix_ok m -> matrix_pre m (op_assign_system cpu b replace) = true ->
  exists m', irq_matrix_assign_system cpu m b replace = Ret m' /\ matrix_ok m'.
Proof.
  intros Hm. cbn [matrix_pre]. rewrite !andb_true_iff, forallb_forall, negb_true_iff. intros [[[[Hb0 Hb] Hs] Hf] Hr].
  assert (Hf' : forall c x, maps m !! c = Some x -> bit (managed_map x) b = false).
  { intros c x E. apply negb_true_iff, Hf, list_elem_of_In. by eapply list_elem_of_lookup_2. }
  assert (Hb' : 0 <= b < matrix_bits m) by lia. destruct replace.
  - apply andb_true_iff in Hr as [[H1 Hin]%andb_true_iff (cm&E&[Hon Ha]%andb_true_iff)%cpu_is_true].
    destruct (assign_system_replace m cpu cm b Hm E Hb' Hs Hf') as (m'&?&?&_); try done; try (unfold in_alloc in *; lia). by exists m'.
  - apply andb_true_iff in Hr as [H0 (cm&E&_)%cpu_is_true].
    destruct (assign_system_early m cpu cm b Hm E Hb' Hs Hf') as (m'&?&?&_); [lia|]. by exists m'.
Qed.

Lemma matrix_exec_ok m o :
  matrix_ok m -> matrix_pre m o = true -> exists m', matrix_exec m o = Ret m' /\ matrix_ok m'.
Proof.
  intros Hm Hp. destruct o as [cpu|cpu|cpu b rp|cpus|cpus|cpu|cpu b| | |cpus rs|cpu b mg]; cbn [matrix_exec]; try done;
    try (by apply matrix_exec_system); cbn [matrix_pre] in Hp;
    try (apply valid_mask_true in Hp as [Hc Hn]); try (eexists; split; [done|by apply count_reserved]).
  - apply cpu_is_true in Hp as (cm&E&Hoff%negb_true_iff).
    destruct (irq_matrix_online_ok m cpu cm Hm E Hoff) as (m'&_&?&?&_). by exists m'.
  - apply cpu_is_true in Hp as (cm&E&Hon). by apply (irq_matrix_offline_ok m cpu cm).
  - destruct (irq_matrix_reserve_managed_ok m cpus Hm Hc Hn) as (m'&r&->&?&_). by exists m'.
  - destruct (irq_matrix_remove_managed_ok cpus m Hm Hc Hn) as (m'&->&?&_). by exists m'.
  - apply cpu_is_true in Hp as (cm&E&Hon).
    destruct (irq_matrix_alloc_managed_ok m cpu cm Hm E Hon) as (m'&r&->&?&_). by exists m'.
  - apply andb_true_iff in Hp as [Hin (cm&E&[Hon Hu%negb_true_iff]%andb_true_iff)%cpu_is_true].
    destruct (irq_matrix_assign_ok m cpu cm Hm E b Hon) as (m'&_&->&?&_); [unfold in_alloc in *; lia|done|]. by exists m'.
  - destruct (irq_matrix_alloc_ok m cpus rs Hm Hc) as (m'&r&best&->&?&_). by exists m'.
  - apply andb_true_iff in Hp as [Hin (cm&E&[Hon ->%eqb_prop]%andb_true_iff)%cpu_is_true].
    destruct (irq_matrix_free_ok m cpu cm Hm E b) as (m'&->&?&_); [unfold in_alloc in *; lia| |by exists m'].
    intros Eon. by rewrite Eon in Hon.
Qed.

Lemma matrix_run_ok m m' : matrix_run m m' -> matrix_ok m -> matrix_ok m'.
Proof.
  induction 1 as [|m o m1 m' Hp He _ IH]; intros Hm; [done|]. apply IH.
  destruct (matrix_exec_ok m o Hm Hp) as (m2&E&?). rewrite He in E. by injection E as <-.
Qed.

(** A sequence of calls, each of which meets its callers' obligations. *)
Fixpoint exec_all (m : irq_matrix) (os : list matrix_op) : res irq_matrix :=
  match os with
  | [] => Ret m
  | o :: os' => if matrix_pre m o then let* m' := matrix_exec m o in exec_all m' os' else BUG
  end.
Lemma exec_all_run os : forall m m', exec_all m os = Ret m' -> matrix_run m m'.
Proof.
  induction os as [|o os IH]; cbn [exec_all]; intros m m'; [intros [= <-]; apply run_done|].
  destruct (matrix_pre m o) eqn:Ep; [|done]. destruct (matrix_exec m o) as [m1| |] eqn:Ee; try done. cbn [res_bind].
  intros E%IH. by eapply run_step.
Qed.

(** * The ledger *)

(** What a call adds to the number of reservations... *)
Definition reserved_by (m : irq_matrix) (o : matrix_op) : Z :=
  match o with
  | op_reserve => 1
  | op_remove_reserved => -1
  | op_alloc cpus true => match irq_matrix_alloc m cpus true with Ret (_, _, Some _) => -1 | _ => 0 end
  | _ => 0
  end.
(** ... and the allocations it forgets: [irq_matrix_online] starts the CPU with none. *)
Definition forgotten_by (m : irq_matrix) (o : matrix_op) : Z :=
  match o with
  | op_online cpu => match maps m !! cpu with Some cm => allocated cm | None => 0 end
  | _ => 0
  end.
Fixpoint ledger (by_op : irq_matrix -> matrix_op -> Z) (m : irq_matrix) (os : list matrix_op) : Z :=
  match os with
  | [] => 0
  | o :: os' => by_op m o + match matrix_exec m o with Ret m' => ledger by_op m' os' | _ => 0 end
  end.

(** From [m] to [m'] the reservations grow by [gr], and the allocations that are
    counted in total but on no CPU by [lost]. *)
Definition books (gr lost : Z) (m m' : irq_matrix) : Prop :=
  w32 (global_reserved m') = w32 (global_reserved m + gr)
  /\ w32 (total_allocated m' - total allocated (maps m')) = w32 (total_allocated m - total allocated (maps m) + lost).

Lemma books_refl m : books 0 0 m m.
Proof. split; f_equal; lia. Qed.
Lemma books_trans m1 m2 m3 g1 g2 l1 l2 : books g1 l1 m1 m2 -> books g2 l2 m2 m3 -> books (g1 + g2) (l1 + l2) m1 m3.
Proof.
  intros [G1 L1] [G2 L2]. split.
  - rewrite G2, <- w32_add_l, G1, w32_add_l. f_equal. lia.
  - rewrite L2, <- w32_add_l, L1, w32_add_l. f_equal. lia.
Qed.
(** One CPU counts [al] allocations more, the matrix [ta]. *)
Lemma books_count m cpu cm cm' ga gr al ta om lost s :
  maps m !! cpu = Some cm -> w32 (allocated cm') = w32 (allocated cm + al) -> lost = ta - al ->
  books gr lost m (count_up (put_cpu (set_scratch m s) cpu cm') ga gr ta om).
Proof.
  intros E Ea ->. split; cbn [count_up global_reserved total_allocated maps put_cpu set_maps set_scratch]; [by rewrite w32_idemp|].
  rewrite (total_insert _ _ _ cm) by done. rewrite w32_sub_l.
  replace (total_allocated m + ta - (total allocated (maps m) - allocated cm + allocated cm'))
    with (total_allocated m + ta - (total allocated (maps m) - allocated cm) - allocated cm') by lia.
  rewrite <- w32_sub_r, Ea, w32_sub_r. f_equal. lia.
Qed.
(** The map of one CPU changes, no allocation is counted. *)
Lemma books_put m cpu cm cm' s :
  maps m !! cpu = Some cm -> w32 (allocated cm') = w32 (allocated cm) ->
  books 0 0 m (put_cpu (set_scratch m s) cpu cm').
Proof.
  intros E Ea. eapply (books_trans _ _ _ 0 0 0 0); [apply (books_count m cpu cm cm' 0 0 0 0 0 0 s)|split]; try done.
  - by rewrite Z.add_0_r.
  - cbn. by rewrite !Z.add_0_r, w32_idemp.
  - cbn -[total w32]. by rewrite !Z.add_0_r, w32_sub_l.
Qed.
Lemma books_scratch m s : books 0 0 m (set_scratch m s).
Proof. destruct (books_refl m). by split. Qed.
Lemma per_cpu_inv m cpu cm : per_cpu m cpu = Ret cm -> maps m !! cpu = Some cm.
Proof. unfold per_cpu. destruct (maps m !! cpu); congruence. Qed.

(** Splits a run at its guards and reads off each CPU's map. *)
Ltac split_run :=
  repeat (inv_res; match goal with
    | H : per_cpu _ _ = Ret _ |- _ => apply per_cpu_inv in H
    | H : context [if ?b then _ else _] |- _ => let E := fresh "E" in destruct b eqn:E
    end); inv_res.
(** An operation that changes one CPU, and counts what it changes. *)
Ltac settle_books :=
  first [ apply books_refl | apply books_scratch
        | eapply books_put; [eassumption|cbn; rewrite ?Z.add_0_r, ?w32_idemp; reflexivity]
        | eapply books_count; [eassumption|cbn; rewrite ?w32_idemp; reflexivity|lia]
        | match goal with |- books _ _ ?m _ => eapply (books_put m _ _ _ (scratch_map m));
            [eassumption|cbn; rewrite ?Z.add_0_r, ?w32_idemp; reflexivity] end
        | match goal with |- books _ _ ?m _ => eapply (books_count m _ _ _ _ _ _ _ _ _ (scratch_map m));
            [eassumption|cbn; rewrite ?w32_idemp; reflexivity|lia] end ].

(** [matrix_alloc_area] counts nothing; the CPU keeps its counters. *)
Lemma area_books m cpu num mg m1 area :
  matrix_alloc_area m cpu num mg = Ret (m1, area) -> books 0 0 m m1.
Proof. unfold matrix_alloc_area. intros H. split_run; settle_books. Qed.

Lemma remove_managed_cpu_books m cpu m' : remove_managed_cpu m cpu = Ret m' -> books 0 0 m m'.
Proof. unfold remove_managed_cpu. intros H. split_run; settle_books. Qed.
Lemma remove_managed_books cpus : forall m m', irq_matrix_remove_managed m cpus = Ret m' -> books 0 0 m m'.
Proof.
  induction cpus as [|cpu cpus IH]; cbn [irq_matrix_remove_managed]; intros m m' H; inv_res; [apply books_refl|].
  eapply (books_trans _ _ _ 0 0 0 0); [by eapply remove_managed_cpu_books|by apply IH].
Qed.
Lemma reserve_loop_books cpus : forall m m' failed, reserve_managed_loop m cpus = Ret (m', failed) -> books 0 0 m m'.
Proof.
  induction cpus as [|cpu cpus IH]; cbn [reserve_managed_loop]; intros m m' failed H; inv_res; [apply books_refl|].
  split_run; (eapply (books_trans _ _ _ 0 0 0 0); [by eapply area_books|]); try settle_books;
    (eapply (books_trans _ _ _ 0 0 0 0); [|by eapply IH]); settle_books.
Qed.
Lemma reserve_managed_books m cpus m' r : irq_matrix_reserve_managed m cpus = Ret (m', r) -> books 0 0 m m'.
Proof.
  unfold irq_matrix_reserve_managed. intros H. inv_res. destruct o; inv_res; [|by eapply reserve_loop_books].
  eapply (books_trans _ _ _ 0 0 0 0); [by eapply reserve_loop_books|by eapply remove_managed_books].
Qed.
Lemma alloc_books m cpus reserved m' r best :
  irq_matrix_alloc m cpus reserved = Ret (m', r, best) ->
  books (match best with Some _ => if reserved then -1 else 0 | None => 0 end) 0 m m'.
Proof.
  unfold irq_matrix_alloc. intros H. inv_res. destruct o as [cpu|]; split_run; try settle_books;
    (eapply (books_trans _ _ _ 0 _ 0 0); [by eapply area_books|settle_books]).
Qed.
Lemma books_system m m' gr lost sys i : books gr lost m m' -> books gr lost m (set_system m' sys i).
Proof. intros [? ?]. by split. Qed.
Lemma assign_system_books m cpu b replace m' : irq_matrix_assign_system cpu m b replace = Ret m' -> books 0 0 m m'.
Proof. unfold irq_matrix_assign_system. intros H. split_run; apply books_system; settle_books. Qed.

(** Every call keeps the books. *)
Lemma exec_books m o m' : matrix_exec m o = Ret m' -> books (reserved_by m o) (forgotten_by m o) m m'.
Proof.
  destruct o as [cpu|cpu|cpu b rp|cpus|cpus|cpu|cpu b| | |cpus rs|cpu b mg]; cbn [matrix_exec reserved_by forgotten_by]; intros H.
  - unfold irq_matrix_online in H. split_run. match goal with E : maps m !! cpu = Some ?cm |- _ => rewrite E;
      apply (books_count m cpu cm _ _ _ (- allocated cm) _ _ _ (scratch_map m)); [exact E| |lia] end. cbn. f_equal. lia.
  - unfold irq_matrix_offline in H. split_run.
    eapply (books_count m cpu _ _ _ _ 0 _ _ _ (scratch_map m)); [eassumption|cbn; by rewrite Z.add_0_r|lia].
  - by eapply assign_system_books.
  - inv_res. by eapply reserve_managed_books.
  - by eapply remove_managed_books.
  - unfold irq_matrix_alloc_managed in H. split_run; settle_books.
  - unfold irq_matrix_assign in H. split_run; settle_books.
  - inv_res. split; cbn -[w32 total]; by rewrite ?Z.add_0_r, ?w32_idemp, ?w32_sub_l.
  - inv_res. split; cbn -[w32 total]; by rewrite ?Z.add_0_r, ?w32_idemp, ?w32_sub_l.
  - destruct (irq_matrix_alloc m cpus rs) as [[[m1 r] best]| |] eqn:E; try done. injection H as <-.
    apply alloc_books in E as B. destruct rs; [by rewrite E|by destruct best].
  - unfold irq_matrix_free in H. split_run; settle_books.
Qed.
Lemma exec_all_books os : forall m m',
  exec_all m os = Ret m' -> books (ledger reserved_by m os) (ledger forgotten_by m os) m m'.
Proof.
  induction os as [|o os IH]; cbn [exec_all ledger]; intros m m' H; [inv_res; apply books_refl|].
  destruct (matrix_pre m o); [|done]. destruct (matrix_exec m o) as [m1| |] eqn:E; try done.
  eapply books_trans; [by eapply exec_books|by apply IH].
Qed.

(** The matrix starts with nothing reserved and nothing allocated. *)
Lemma alloc_matrix_books n bits lo hi m0 :
  irq_alloc_matrix true true n bits lo hi = Some m0 ->
  global_reserved m0 = 0 /\ total_allocated m0 = 0 /\ total allocated (maps m0) = 0.
Proof.
  unfold irq_alloc_matrix. destruct (IRQ_MATRIX_BITS <? bits); [done|]. intros [= <-]. cbn -[total].
  split_and!; [done|done|]. induction n as [|n IH]; [done|]. cbn [replicate total foldr]. exact IH.
Qed.

(** The matrix of the x86 vector domain on two CPUs: vectors 32 to 235. *)
Definition boot_matrix : irq_matrix :=
  match irq_alloc_matrix true true 2 256 32 236 with Some m => m | None => mkMatrix 0 0 0 0 0 0 0 0 0 [] [] [] end.
(** CPU 0 online, with vector 48 a system vector, one managed vector and two
    allocated ones; CPU 1 offline. *)
Definition boot_ops : list matrix_op :=
  [op_assign_system 0 48 false; op_online 0; op_reserve_managed [0; 1]%nat; op_assign 0 49; op_reserve;
   op_alloc [0; 1]%nat true; op_alloc_managed 0].
Definition live_matrix : irq_matrix := match exec_all boot_matrix boot_ops with Ret m => m | _ => boot_matrix end.
Lemma live_matrix_reached : matrix_run boot_matrix live_matrix.
Proof. apply (exec_all_run boot_ops). by vm_compute. Qed.
Lemma live_matrix_ok : matrix_ok live_matrix.
Proof.
  apply (matrix_run_ok _ _ live_matrix_reached). apply (irq_alloc_matrix_ok 2 256 32 236); [reflexivity|lia|lia|lia].
Qed.

(** * Properties *)

(** C17: starting from [irq_alloc_matrix], after any sequence of calls that meet
    their callers' obligations the matrix is well-formed: per online CPU
    [available] and [allocated] are the numbers of free and of allocated
    vectors, [managed] the number of managed ones, managed, system and allocated
    vectors do not overlap where they must not, [global_available] and
    [online_maps] are the sums over the CPUs. [global_reserved] is, modulo 2^32,
    the reservations made less those removed or allocated;
    [total_allocated] is the allocations the CPUs count and those of CPUs that
    were brought online again since. And each further such call returns: no
    BUG_ON fires, no map is accessed out of bounds and no search runs on. *)
Theorem irq_matrix_accounting n bits lo hi m0 os m :
  irq_alloc_matrix true true n bits lo hi = Some m0 -> 0 <= lo <= hi -> hi <= bits -> Z.of_nat n <= 8192 ->
  exec_all m0 os = Ret m ->
  matrix_ok m
  /\ global_reserved m = w32 (ledger reserved_by m0 os)
  /\ total_allocated m = w32 (total allocated (maps m) + ledger forgotten_by m0 os)
  /\ forall o, matrix_pre m o = true -> exists m', matrix_exec m o = Ret m' /\ matrix_ok m'.
Proof.
  intros E Hr Hb Hn Hrun. pose proof (irq_alloc_matrix_ok _ _ _ _ _ E Hr Hb Hn) as H0.
  pose proof (matrix_run_ok _ _ (exec_all_run _ _ _ Hrun) H0) as Hm. destruct (ok_u32 m Hm) as [Ht Hg].
  destruct (exec_all_books _ _ _ Hrun) as [Gr To]. destruct (alloc_matrix_books _ _ _ _ _ E) as (Z1&Z2&Z3).
  split_and!; [done| | |intros o Hp; by apply matrix_exec_ok].
  - rewrite <- (w32_small (global_reserved m)), Gr, Z1 by done. done.
  - rewrite <- (w32_small (total_allocated m)) by done.
    replace (total_allocated m) with (total_allocated m - total allocated (maps m) + total allocated (maps m)) by lia.
    rewrite <- w32_add_l, To, w32_add_l, Z2, Z3. f_equal. lia.
Qed.

Lemma irq_matrix_accounting_witness :
  matrix_ok live_matrix /\ global_reserved live_matrix = 0 /\ total_allocated live_matrix = 3
  /\ exists m', matrix_exec live_matrix (op_free 0 49 false) = Ret m' /\ matrix_ok m'.
Proof.
  destruct (irq_matrix_accounting 2 256 32 236 boot_matrix boot_ops live_matrix) as (Hm&->&->&H);
    [reflexivity|lia|lia|lia|by vm_compute|].
  split; [exact Hm|]. split; [by vm_compute|]. split; [by vm_compute|]. apply H. by vm_compute.
Defined.

(** C22: [irq_matrix_alloc] returns -ENOSPC, with no CPU's map changed, exactly
    when no online CPU of the mask has a free vector; otherwise it takes a free
    vector of the allocation range on an online CPU of the mask that has the most
    available vectors, and marks just that vector allocated. *)
Theorem irq_matrix_alloc_correct m cpus reserved :
  matrix_ok m -> cpus_ok m cpus ->
  exists m' r best, irq_matrix_alloc m cpus reserved = Ret (m', r, best) /\ matrix_ok m'
    /\ system_map m' = system_map m
    /\ ((r = - ENOSPC /\ best = None /\ maps m' = maps m
         /\ forall cpu cm, cpu ∈ cpus -> maps m !! cpu = Some cm -> online cm = true -> cpu_full m cm)
        \/ exists cpu cm cm', best = Some cpu /\ cpu ∈ cpus /\ maps m !! cpu = Some cm /\ online cm = true
             /\ (forall cpu' c', cpu' ∈ cpus -> maps m !! cpu' = Some c' -> online c' = true -> available c' <= available cm)
             /\ alloc_start m <= r < alloc_end m /\ used (system_map m) cm r = false
             /\ maps m' = <[cpu := cm']> (maps m) /\ online cm' = true
             /\ (forall i, 0 <= i -> bit (alloc_map cm') i = (i =? r) || bit (alloc_map cm) i)
             /\ managed_map cm' = managed_map cm).
Proof. apply irq_matrix_alloc_ok. Qed.

Lemma live_mask : cpus_ok live_matrix [0%nat; 1%nat].
Proof. by apply valid_mask_true. Qed.

Lemma irq_matrix_alloc_correct_witness :
  exists m' r best, irq_matrix_alloc live_matrix [0; 1]%nat false = Ret (m', r, best) /\ matrix_ok m'
    /\ r = 34 /\ best = Some 0%nat.
Proof.
  destruct (irq_matrix_alloc_correct live_matrix [0; 1]%nat false live_matrix_ok live_mask) as (m'&r&best&E&Hm&_).
  exists m', r, best. split; [exact E|]. split; [exact Hm|]. vm_compute in E. split; congruence.
Defined.

(** C28: [irq_matrix_reserve_managed] is all or nothing: either it succeeds and
    every CPU of the mask manages one vector more (and an online one has one
    available vector less), or it returns -ENOSPC because some CPU of the mask
    has no free vector, and then every CPU manages, and has available, as many
    vectors as before. CPUs outside the mask keep their maps. *)
Theorem irq_matrix_reserve_managed_correct m cpus :
  matrix_ok m -> cpus_ok m cpus -> NoDup cpus ->
  exists m' r, irq_matrix_reserve_managed m cpus = Ret (m', r) /\ matrix_ok m' /\ same_frame m m'
    /\ ((r = 0 /\ each_cpu cpus (managed_by 1) m m')
        \/ (r = - ENOSPC /\ (exists c cm, c ∈ cpus /\ maps m !! c = Some cm /\ cpu_full m cm)
            /\ each_cpu cpus (managed_by 0) m m')).
Proof. apply irq_matrix_reserve_managed_ok. Qed.

Lemma irq_matrix_reserve_managed_correct_witness :
  exists m' r, irq_matrix_reserve_managed live_matrix [0; 1]%nat = Ret (m', r) /\ matrix_ok m' /\ r = 0.
Proof.
  destruct (irq_matrix_reserve_managed_correct live_matrix [0; 1]%nat live_matrix_ok live_mask) as (m'&r&E&Hm&_).
  - apply valid_mask_true with (m := live_matrix). by vm_compute.
  - exists m', r. split; [exact E|]. split; [exact Hm|]. vm_compute in E. congruence.
Defined.

(** [irq_matrix_alloc_managed] and [irq_matrix_free] pair up. On an online
    CPU the first hands out a managed vector that nobody has allocated (and says
    -ENOSPC exactly when there is none), leaving the number of available vectors
    alone; freeing that vector as managed gives the allocation map back. *)
Theorem irq_matrix_managed_roundtrip m cpu cm :
  matrix_ok m -> maps m !! cpu = Some cm -> online cm = true ->
  exists m' r, irq_matrix_alloc_managed m cpu = Ret (m', r) /\ matrix_ok m'
    /\ ((r = - ENOSPC /\ maps m' = maps m /\ ~ has_spare m cm)
        \/ (spare_at m cm r /\ exists m'' cm'', irq_matrix_free m' cpu r true = Ret m'' /\ matrix_ok m''
              /\ maps m'' = <[cpu := cm'']> (maps m) /\ managed_map cm'' = managed_map cm
              /\ forall i, 0 <= i -> bit (alloc_map cm'') i = bit (alloc_map cm) i)).
Proof.
  intros Hm E Hon. destruct (irq_matrix_alloc_managed_ok m cpu cm Hm E Hon) as (m'&r&Em&Hm'&(_&Es&Ee&_)&Hr).
  exists m', r. split_and!; [done|done|]. destruct Hr as [?|[Hsp (cm'&Emaps&Hal&Eman&_&Eon)]]; [by left|right].
  pose proof Hsp as (Hin&Hmg&Hna). split; [done|].
  assert (E' : maps m' !! cpu = Some cm') by (rewrite Emaps; apply list_lookup_insert_eq; by eapply lookup_lt_Some).
  destruct (irq_matrix_free_ok m' cpu cm' Hm' E' r) as (m''&Ef&Hm''&Hon'').
  { by rewrite Es, Ee. }
  { intros _. rewrite Hal, Z.eqb_refl by (pose proof (ok_range m Hm); lia). done. }
  rewrite Eman, Hmg in Ef. destruct (Hon'' Eon) as (cm''&Em2&Hal2&Eman2).
  exists m'', cm''. split_and!; try done; [|congruence|].
  - by rewrite Em2, Emaps, list_insert_insert_eq.
  - intros i Hi. rewrite Hal2, Hal by done. destruct (Z.eqb_spec i r) as [->|]; [by rewrite Hna|done].
Qed.

(** CPU 0 before its managed vector is handed out. *)
Definition spare_matrix : irq_matrix :=
  match exec_all boot_matrix (take 6 boot_ops) with Ret m => m | _ => boot_matrix end.
Definition spare_cpu : cpumap := match maps spare_matrix !! 0%nat with Some cm => cm | None => zero_cpumap end.
Lemma spare_matrix_ok : matrix_ok spare_matrix.
Proof.
  apply (matrix_run_ok boot_matrix); [apply (exec_all_run (take 6 boot_ops)); by vm_compute|].
  apply (irq_alloc_matrix_ok 2 256 32 236); [reflexivity|lia|lia|lia].
Qed.

Lemma irq_matrix_managed_roundtrip_witness :
  exists m' r, irq_matrix_alloc_managed spare_matrix 0 = Ret (m', r) /\ matrix_ok m' /\ spare_at spare_matrix spare_cpu r.
Proof.
  destruct (irq_matrix_managed_roundtrip spare_matrix 0 spare_cpu spare_matrix_ok) as (m'&r&E&Hm&Hr);
    [by vm_compute|by vm_compute|].
  exists m', r. split; [exact E|]. split; [exact Hm|]. destruct Hr as [[-> _]|[Hr _]]; [|exact Hr].
  vm_compute in E. discriminate.
Defined.

(** [total_allocated] is not the number of allocated vectors once a CPU has
    been offline: [irq_matrix_offline] leaves the counter alone and
    [irq_matrix_online] clears the CPU's allocations without taking them off it,
    so after one cycle the live matrix counts three allocations where there are
    none. *)
Theorem irq_matrix_total_allocated_drifts :
  exists m, exec_all live_matrix [op_offline 0; op_online 0] = Ret m
    /\ total_allocated m = 3 /\ total allocated (maps m) = 0 /\ total allocated (maps live_matrix) = 3.
Proof. eexists. split; [by vm_compute|]. run. Qed.
