(* ===== verification/Kfifo.v ===== *)
(** The generic kernel FIFO: lib/kfifo.c and the macros of include/linux/kfifo.h.

    A fifo is a ring of [mask + 1] elements of [esize] bytes each, with two free
    running 32-bit indices.  Memory is a list of bytes; every copy goes through
    [memcpy], which is a [BUG] outside either buffer, so that a theorem that an
    operation returns also shows that it stays inside the ring and inside the
    caller's buffer.  A NULL [data] is the empty buffer. *)

From S2P Require Import Prelude FindBit.

Definition EFAULT : Z := 14.

Record __kfifo := mkKfifo { in_ : Z; out : Z; mask : Z; esize : Z; data : list Z }.

Definition set_in (f : __kfifo) (i : Z) : __kfifo := mkKfifo i (out f) (mask f) (esize f) (data f).
Definition set_out (f : __kfifo) (o : Z) : __kfifo := mkKfifo (in_ f) o (mask f) (esize f) (data f).
Definition set_data (f : __kfifo) (d : list Z) : __kfifo := mkKfifo (in_ f) (out f) (mask f) (esize f) d.

(** * Memory *)

Definition inside (buf : list Z) (off n : Z) : bool :=
  (0 <=? off) && (0 <=? n) && (off + n <=? Z.of_nat (length buf)).
(** [n] bytes of [buf] from [off] on. *)
Definition slice (buf : list Z) (off n : Z) : list Z := take (Z.to_nat n) (drop (Z.to_nat off) buf).
(** [buf] with [bytes] written at [off]. *)
Definition splice (buf : list Z) (off : Z) (bytes : list Z) : list Z :=
  take (Z.to_nat off) buf ++ bytes ++ drop (Z.to_nat off + length bytes) buf.
Definition memcpy (dst : list Z) (doff : Z) (src : list Z) (soff n : Z) : res (list Z) :=
  if inside dst doff n && inside src soff n then Ret (splice dst doff (slice src soff n)) else BUG.

(** Division traps on zero. *)
Definition udiv (n d : Z) : res Z := if d =? 0 then BUG else Ret (n / d).

(** * Powers of two (include/linux/log2.h, include/linux/bitops.h) *)

Definition fls64 (x : Z) : Z := if x =? 0 then 0 else __fls x + 1.
Definition fls_long (l : Z) : Z := fls64 l.
(** A shift by the width of the word or more is undefined. *)
Definition __roundup_pow_of_two (n : Z) : res Z :=
  let s := fls_long (w64 (n - 1)) in
  if s <? 64 then Ret (w64 (Z.shiftl 1 s)) else BUG.

(** * Setting up *)

Definition kfifo_unused (f : __kfifo) : Z := w32 (w32 (mask f + 1) - w32 (in_ f - out f)).

(** [kmalloc n] is the memory handed out, [None] when there is none. *)
Definition __kfifo_alloc (kmalloc : Z -> option (list Z)) (size esize : Z) : res (__kfifo * Z) :=
  let* size := __roundup_pow_of_two size in
  let size := w32 size in
  let esize32 := w32 esize in
  if size <? 2 then Ret (mkKfifo 0 0 0 esize32 [], - EINVAL)
  else match kmalloc (w64 (size * esize)) with
       | None => Ret (mkKfifo 0 0 0 esize32 [], - ENOMEM)
       | Some mem => Ret (mkKfifo 0 0 (w32 (size - 1)) esize32 mem, 0)
       end.
Definition __kfifo_free (f : __kfifo) : __kfifo := mkKfifo 0 0 0 0 [].
Definition __kfifo_init (buffer : list Z) (size esize : Z) : res (__kfifo * Z) :=
  let* size := udiv size esize in
  let* size := __roundup_pow_of_two (w32 size) in
  let size := w32 size in
  let esize32 := w32 esize in
  if size <? 2 then Ret (mkKfifo 0 0 0 esize32 buffer, - EINVAL)
  else Ret (mkKfifo 0 0 (w32 (size - 1)) esize32 buffer, 0).

(** * Copies *)

(** The head of the four copy routines: [off] and [len] in bytes, and the part
    [l] of [len] that lies before the end of the ring. *)
Definition kfifo_span (f : __kfifo) (len off : Z) : Z * Z * Z :=
  let size := w32 (mask f + 1) in
  let off := Z.land off (mask f) in
  let '(off, size, len) :=
    if negb (esize f =? 1) then (w32 (off * esize f), w32 (size * esize f), w32 (len * esize f))
    else (off, size, len) in
  (off, len, Z.min len (w32 (size - off))).

Definition kfifo_copy_in (f : __kfifo) (src : list Z) (len off : Z) : res __kfifo :=
  let '(off, len, l) := kfifo_span f len off in
  let* d := memcpy (data f) off src 0 l in
  let* d := memcpy d 0 src l (w32 (len - l)) in
  Ret (set_data f d).

Definition __kfifo_in (f : __kfifo) (buf : list Z) (len : Z) : res (__kfifo * Z) :=
  let l := kfifo_unused f in
  let len := if l <? len then l else len in
  let* f := kfifo_copy_in f buf len (in_ f) in
  Ret (set_in f (w32 (in_ f + len)), len).

Definition kfifo_copy_out (f : __kfifo) (dst : list Z) (len off : Z) : res (list Z) :=
  let '(off, len, l) := kfifo_span f len off in
  let* dst := memcpy dst 0 (data f) off l in
  memcpy dst l (data f) 0 (w32 (len - l)).

Definition __kfifo_out_peek (f : __kfifo) (buf : list Z) (len : Z) : res (list Z * Z) :=
  let l := w32 (in_ f - out f) in
  let len := if l <? len then l else len in
  let* buf := kfifo_copy_out f buf len (out f) in
  Ret (buf, len).
Definition __kfifo_out (f : __kfifo) (buf : list Z) (len : Z) : res (__kfifo * list Z * Z) :=
  let* (buf, len) := __kfifo_out_peek f buf len in
  Ret (set_out f (w32 (out f + len)), buf, len).

(** * Copies from and to user space *)

Definition DIV_ROUND_UP (n d : Z) : Z := w64 (w64 (n + d) - 1) / d.

Section User.
(** A user buffer: its bytes, and how many of the [n] bytes from offset [o] on a
    copy fails to transfer. *)
Context (ubyte : Z -> Z) (uncopied : Z -> Z -> Z).

(** lib/usercopy.c: what could not be read is zeroed. *)
Definition _copy_from_user (dst : list Z) (doff o n : Z) : res (list Z * Z) :=
  let r := uncopied o n in
  if inside dst doff n then
    Ret (splice dst doff ((ubyte <$> seqZ o (n - r)) ++ replicate (Z.to_nat r) 0), r)
  else BUG.
(** Writing to a user buffer gives the buffer as a function of the offset. *)
Definition _copy_to_user (udst : Z -> Z) (o : Z) (src : list Z) (soff n : Z) : res ((Z -> Z) * Z) :=
  let r := uncopied o n in
  if inside src soff n then
    Ret (fun i => if (o <=? i) && (i <? o + (n - r)) then nth (Z.to_nat (soff + (i - o))) src 0 else udst i, r)
  else BUG.

(** Gives the fifo, the elements not copied and [*copied]. *)
Definition kfifo_copy_from_user (f : __kfifo) (len off : Z) : res (__kfifo * Z * Z) :=
  let '(off, len, l) := kfifo_span f len off in
  let* (d, ret) := _copy_from_user (data f) off 0 l in
  let* (d, ret) :=
    if negb (ret =? 0) then Ret (d, DIV_ROUND_UP (w64 (ret + len - l)) (esize f))
    else
      let* (d, ret) := _copy_from_user d 0 l (w32 (len - l)) in
      Ret (d, if negb (ret =? 0) then DIV_ROUND_UP ret (esize f) else ret) in
  Ret (set_data f d, ret, w32 (len - ret * esize f)).

Definition __kfifo_from_user (f : __kfifo) (len : Z) : res (__kfifo * Z * Z) :=
  let* len := if negb (esize f =? 1) then udiv len (esize f) else Ret len in
  let l := kfifo_unused f in
  let len := if l <? len then l else len in
  let* (f, ret, copied) := kfifo_copy_from_user f len (in_ f) in
  let '(len, err) := if negb (ret =? 0) then (w64 (len - ret), - EFAULT) else (len, 0) in
  Ret (set_in f (w32 (in_ f + len)), err, copied).

Definition kfifo_copy_to_user (f : __kfifo) (to : Z -> Z) (len off : Z) : res ((Z -> Z) * Z * Z) :=
  let '(off, len, l) := kfifo_span f len off in
  let* (to, ret) := _copy_to_user to 0 (data f) off l in
  let* (to, ret) :=
    if negb (ret =? 0) then Ret (to, DIV_ROUND_UP (w64 (ret + len - l)) (esize f))
    else
      let* (to, ret) := _copy_to_user to l (data f) 0 (w32 (len - l)) in
      Ret (to, if negb (ret =? 0) then DIV_ROUND_UP ret (esize f) else ret) in
  Ret (to, ret, w32 (len - ret * esize f)).

Definition __kfifo_to_user (f : __kfifo) (to : Z -> Z) (len : Z) : res (__kfifo * (Z -> Z) * Z * Z) :=
  let* len := if negb (esize f =? 1) then udiv len (esize f) else Ret len in
  let l := w32 (in_ f - out f) in
  let len := if l <? len then l else len in
  let* (to, ret, copied) := kfifo_copy_to_user f to len (out f) in
  let '(len, err) := if negb (ret =? 0) then (w64 (len - ret), - EFAULT) else (len, 0) in
  Ret (set_out f (w32 (out f + len)), to, err, copied).
End User.

(** * Records *)

(** A record fifo holds bytes; each record is preceded by its length in
    [recsize] bytes, which is 1 or 2. *)
Definition __kfifo_max_r (len recsize : Z) : Z :=
  let max := w32 (Z.shiftl 1 (Z.shiftl recsize 3) - 1) in
  if max <? len then max else len.

Definition __KFIFO_PEEK (d : list Z) (o m : Z) : res Z := load d (Z.land o m).
Definition __kfifo_peek_n (f : __kfifo) (recsize : Z) : res Z :=
  let* l := __KFIFO_PEEK (data f) (out f) (mask f) in
  if negb (w64 (recsize - 1) =? 0) then
    let* h := __KFIFO_PEEK (data f) (w32 (out f + 1)) (mask f) in
    Ret (Z.lor l (Z.shiftl h 8))
  else Ret l.

Definition __KFIFO_POKE (d : list Z) (i m v : Z) : res (list Z) := store d (Z.land i m) (v mod 256).
Definition __kfifo_poke_n (f : __kfifo) (n recsize : Z) : res __kfifo :=
  let* d := __KFIFO_POKE (data f) (in_ f) (mask f) n in
  let* d := if 1 <? recsize then __KFIFO_POKE d (w32 (in_ f + 1)) (mask f) (Z.shiftr n 8) else Ret d in
  Ret (set_data f d).

Definition __kfifo_len_r (f : __kfifo) (recsize : Z) : res Z := __kfifo_peek_n f recsize.

Definition __kfifo_in_r (f : __kfifo) (buf : list Z) (len recsize : Z) : res (__kfifo * Z) :=
  if kfifo_unused f <? w64 (len + recsize) then Ret (f, 0)
  else
    let* f := __kfifo_poke_n f len recsize in
    let* f := kfifo_copy_in f buf len (w32 (in_ f + recsize)) in
    Ret (set_in f (w32 (in_ f + (len + recsize))), len).

(** Gives the buffer, the length copied and the length of the record. *)
Definition kfifo_out_copy_r (f : __kfifo) (buf : list Z) (len recsize : Z) : res (list Z * Z * Z) :=
  let* n := __kfifo_peek_n f recsize in
  let len := if n <? len then n else len in
  let* buf := kfifo_copy_out f buf len (w32 (out f + recsize)) in
  Ret (buf, len, n).
Definition __kfifo_out_peek_r (f : __kfifo) (buf : list Z) (len recsize : Z) : res (list Z * Z) :=
  if in_ f =? out f then Ret (buf, 0)
  else
    let* (buf, len, _) := kfifo_out_copy_r f buf len recsize in
    Ret (buf, len).
Definition __kfifo_out_r (f : __kfifo) (buf : list Z) (len recsize : Z) : res (__kfifo * list Z * Z) :=
  if in_ f =? out f then Ret (f, buf, 0)
  else
    let* (buf, len, n) := kfifo_out_copy_r f buf len recsize in
    Ret (set_out f (w32 (out f + (n + recsize))), buf, len).
Definition __kfifo_skip_r (f : __kfifo) (recsize : Z) : res __kfifo :=
  let* n := __kfifo_peek_n f recsize in
  Ret (set_out f (w32 (out f + (n + recsize)))).

Section UserRecords.
Context (ubyte : Z -> Z) (uncopied : Z -> Z -> Z).

Definition __kfifo_from_user_r (f : __kfifo) (len recsize : Z) : res (__kfifo * Z * Z) :=
  let len := __kfifo_max_r (w32 len) recsize in
  if kfifo_unused f <? w64 (len + recsize) then Ret (f, 0, 0)
  else
    let* f := __kfifo_poke_n f len recsize in
    let* (f, ret, copied) := kfifo_copy_from_user ubyte uncopied f len (w32 (in_ f + recsize)) in
    if negb (ret =? 0) then Ret (f, - EFAULT, 0)
    else Ret (set_in f (w32 (in_ f + (len + recsize))), 0, copied).
Definition __kfifo_to_user_r (f : __kfifo) (to : Z -> Z) (len recsize : Z)
    : res (__kfifo * (Z -> Z) * Z * Z) :=
  if in_ f =? out f then Ret (f, to, 0, 0)
  else
    let* n := __kfifo_peek_n f recsize in
    let len := if n <? len then n else len in
    let* (to, ret, copied) := kfifo_copy_to_user uncopied f to len (w32 (out f + recsize)) in
    if negb (ret =? 0) then Ret (f, to, - EFAULT, 0)
    else Ret (set_out f (w32 (out f + (n + recsize))), to, 0, copied).
End UserRecords.

Definition __kfifo_dma_in_finish_r (f : __kfifo) (len recsize : Z) : res __kfifo :=
  let len := __kfifo_max_r len recsize in
  let* f := __kfifo_poke_n f len recsize in
  Ret (set_in f (w32 (in_ f + (len + recsize)))).
Definition __kfifo_dma_out_finish_r (f : __kfifo) (recsize : Z) : res __kfifo :=
  let* len := __kfifo_peek_n f recsize in
  Ret (set_out f (w32 (out f + (len + recsize)))).

(** * The macros of include/linux/kfifo.h, for a fifo without records *)

Definition kfifo_size (f : __kfifo) : Z := w32 (mask f + 1).
Definition kfifo_reset (f : __kfifo) : __kfifo := set_in (set_out f 0) 0.
Definition kfifo_reset_out (f : __kfifo) : __kfifo := set_out f (in_ f).
Definition kfifo_len (f : __kfifo) : Z := w32 (in_ f - out f).
Definition kfifo_is_empty (f : __kfifo) : bool := in_ f =? out f.
Definition kfifo_is_full (f : __kfifo) : bool := mask f <? kfifo_len f.
(** [recsize] is 0 for a fifo without records. *)
Definition kfifo_avail (f : __kfifo) (recsize : Z) : Z :=
  let avail := w32 (kfifo_size f - kfifo_len f) in
  if negb (recsize =? 0) then if avail <=? recsize then 0 else __kfifo_max_r (avail - recsize) recsize
  else avail.
Definition kfifo_skip (f : __kfifo) (recsize : Z) : res __kfifo :=
  if negb (recsize =? 0) then __kfifo_skip_r f recsize else Ret (set_out f (w32 (out f + 1))).
Definition kfifo_peek_len (f : __kfifo) (recsize : Z) : res Z :=
  if negb (recsize =? 0) then __kfifo_len_r f recsize else Ret (w32 (kfifo_len f * esize f)).
(** The value stored or read is one element, [esize] bytes long. *)
Definition kfifo_put (f : __kfifo) (val : list Z) (recsize : Z) : res (__kfifo * Z) :=
  if negb (recsize =? 0) then __kfifo_in_r f val (Z.of_nat (length val)) recsize
  else if negb (kfifo_is_full f) then
    let* d := memcpy (data f) (Z.land (in_ f) (mask f) * esize f) val 0 (esize f) in
    Ret (set_in (set_data f d) (w32 (in_ f + 1)), 1)
  else Ret (f, 0).
Definition kfifo_get (f : __kfifo) (val : list Z) (recsize : Z) : res (__kfifo * list Z * Z) :=
  if negb (recsize =? 0) then __kfifo_out_r f val (Z.of_nat (length val)) recsize
  else if negb (kfifo_is_empty f) then
    let* val := memcpy val 0 (data f) (Z.land (out f) (mask f) * esize f) (esize f) in
    Ret (set_out f (w32 (out f + 1)), val, 1)
  else Ret (f, val, 0).
Definition kfifo_peek (f : __kfifo) (val : list Z) (recsize : Z) : res (list Z * Z) :=
  if negb (recsize =? 0) then __kfifo_out_peek_r f val (Z.of_nat (length val)) recsize
  else if negb (kfifo_is_empty f) then
    let* val := memcpy val 0 (data f) (Z.land (out f) (mask f) * esize f) (esize f) in
    Ret (val, 1)
  else Ret (val, 0).
