(* ===== verification/KfifoFacts.v ===== *)
(** The ring buffer read as a queue: what a fifo holds, and how each copy,
    index update and record header acts on it. *)

From S2P Require Import Prelude FindBit Kfifo.

(** * Bytes of a buffer *)

Definition byte (d : list Z) (j : Z) : Z := nth (Z.to_nat j) d 0.

Lemma byte_lookup d j : 0 <= j < Z.of_nat (length d) -> d !! Z.to_nat j = Some (byte d j).
Proof.
  intros Hj. unfold byte. rewrite nth_lookup. destruct (d !! Z.to_nat j) eqn:E; [done|].
  apply lookup_ge_None_1 in E. lia.
Qed.
(** Two buffers of the same length with the same bytes are the same. *)
Lemma byte_ext d d' :
  length d = length d' -> (forall j, 0 <= j < Z.of_nat (length d) -> byte d j = byte d' j) -> d = d'.
Proof.
  intros Hl He. apply list_eq_same_length with (n := length d); [done|done|]. intros i x y Hi Hx Hy.
  specialize (He (Z.of_nat i) ltac:(lia)). unfold byte in He. rewrite !Nat2Z.id, !nth_lookup, Hx, Hy in He. done.
Qed.

Lemma slice_length d o n : inside d o n = true -> length (slice d o n) = Z.to_nat n.
Proof. unfold inside, slice. intros H. rewrite length_take, length_drop. lia. Qed.
Lemma slice_byte d o n j : inside d o n = true -> 0 <= j < n -> byte (slice d o n) j = byte d (o + j).
Proof.
  unfold inside, byte, slice. intros H Hj. rewrite !nth_lookup, lookup_take_lt, lookup_drop by lia.
  do 2 f_equal. lia.
Qed.
Lemma splice_length d o b :
  inside d o (Z.of_nat (length b)) = true -> length (splice d o b) = length d.
Proof. unfold inside, splice. intros H. rewrite !length_app, length_take, length_drop. lia. Qed.
Lemma splice_byte d o b j :
  inside d o (Z.of_nat (length b)) = true -> 0 <= j ->
  byte (splice d o b) j = if (o <=? j) && (j <? o + Z.of_nat (length b)) then byte b (j - o) else byte d j.
Proof.
  unfold inside, byte, splice. intros H Hj. rewrite !nth_lookup.
  destruct (Z.leb_spec o j); cbn [andb].
  - rewrite lookup_app_r, length_take by (rewrite length_take; lia).
    destruct (Z.ltb_spec j (o + Z.of_nat (length b))).
    + rewrite lookup_app_l by lia. do 2 f_equal. lia.
    + rewrite lookup_app_r, lookup_drop by lia. do 2 f_equal. lia.
  - rewrite lookup_app_l, lookup_take_lt by (rewrite ?length_take; lia). done.
Qed.

(** * The ring *)

Definition cap (f : __kfifo) : Z := mask f + 1.
Definition ring (f : __kfifo) : Z := cap f * esize f.

Record kfifo_ok (f : __kfifo) : Prop := {
  ok_mask : exists k, 1 <= k <= 31 /\ mask f = 2 ^ k - 1;
  ok_esize : 0 < esize f;
  ok_ring : ring f < two32;
  ok_data : Z.of_nat (length (data f)) = ring f;
  ok_in : 0 <= in_ f < two32;
  ok_out : 0 <= out f < two32;
  ok_len : kfifo_len f <= cap f;
}.

(** The queue of bytes a fifo stands for, oldest first. *)
Definition contents (f : __kfifo) : list Z :=
  (fun i => byte (data f) ((out f * esize f + i) mod ring f)) <$> seqZ 0 (kfifo_len f * esize f).

Lemma contents_length f : kfifo_ok f -> Z.of_nat (length (contents f)) = kfifo_len f * esize f.
Proof.
  intros [? ? ? ? ? ? ?]. unfold contents. rewrite length_fmap, length_seqZ.
  pose proof (w32_range (in_ f - out f)). unfold kfifo_len. nia.
Qed.
Lemma contents_byte f j :
  kfifo_ok f -> 0 <= j < kfifo_len f * esize f -> byte (contents f) j = byte (data f) ((out f * esize f + j) mod ring f).
Proof.
  intros Hf Hj. unfold byte at 1, contents. rewrite nth_lookup, list_lookup_fmap, lookup_seqZ_lt by lia.
  cbn. do 3 f_equal. lia.
Qed.

(** Position of ring byte [j] relative to a start [o]. *)
Lemma ring_sub j o B : 0 <= j < B -> 0 <= o < B -> (j - o) mod B = if o <=? j then j - o else j - o + B.
Proof.
  intros Hj Ho. case_cmp; [apply Z.mod_small; lia|].
  symmetry. apply (Z.mod_unique_pos _ _ (-1)); lia.
Qed.
Lemma ring_add j o B : 0 <= j < B -> 0 <= o < B -> (o + j) mod B = if o + j <? B then o + j else o + j - B.
Proof.
  intros Hj Ho. case_cmp; [apply Z.mod_small; lia|]. symmetry. apply (Z.mod_unique_pos _ _ 1); lia.
Qed.

Section Ring.
Context (f : __kfifo).
Hypothesis Hf : kfifo_ok f.

Lemma cap_pow : exists k, 1 <= k <= 31 /\ cap f = 2 ^ k.
Proof using Hf. destruct (ok_mask f Hf) as (k&?&E). exists k. unfold cap. lia. Qed.

Lemma cap_bounds : 2 <= cap f <= 2147483648 /\ cap f <= ring f.
Proof using Hf.
  pose proof (ok_esize f Hf). destruct cap_pow as (k&Hk&E).
  pose proof (Z.pow_le_mono_r 2 1 k). pose proof (Z.pow_le_mono_r 2 k 31). unfold ring. rewrite E. nia.
Qed.

Lemma cap_w32 : w32 (mask f + 1) = cap f.
Proof using Hf. pose proof cap_bounds. apply w32_small. unfold cap, two32 in *. lia. Qed.

Lemma land_mask x : Z.land x (mask f) = x mod cap f.
Proof using Hf.
  unfold cap. destruct (ok_mask f Hf) as (k&Hk&->). replace (2 ^ k - 1 + 1) with (2 ^ k) by lia.
  replace (2 ^ k - 1) with (Z.ones k) by (rewrite Z.ones_equiv; lia). by rewrite Z.land_ones by lia.
Qed.

(** The ring size divides the index period. *)
Lemma w32_mod_cap x : w32 x mod cap f = x mod cap f.
Proof using Hf.
  destruct cap_pow as (k&Hk&->). unfold w32. rewrite two32_pow. apply Z.mod_mod_divide.
  exists (2 ^ (32 - k)). rewrite <- Z.pow_add_r by lia. f_equal. lia.
Qed.
Lemma start_of x : x mod cap f * esize f = (x * esize f) mod ring f.
Proof using Hf. pose proof (ok_esize f Hf). pose proof cap_bounds. unfold ring. by rewrite Z.mul_mod_distr_r by lia. Qed.
Lemma start_w32 x : (w32 x * esize f) mod ring f = (x * esize f) mod ring f.
Proof using Hf. by rewrite <- !start_of, w32_mod_cap. Qed.

Lemma len_bounds : 0 <= kfifo_len f <= cap f.
Proof using Hf. split; [apply w32_range|apply (ok_len f Hf)]. Qed.
Lemma unused_eq : kfifo_unused f = cap f - kfifo_len f.
Proof using Hf.
  unfold kfifo_unused. rewrite cap_w32. fold (kfifo_len f). pose proof len_bounds. pose proof cap_bounds.
  apply w32_small. unfold two32. lia.
Qed.

Lemma span_eq len off :
  0 <= len <= cap f ->
  kfifo_span f len off =
  ((off * esize f) mod ring f, len * esize f, Z.min (len * esize f) (ring f - (off * esize f) mod ring f)).
Proof using Hf.
  intros Hl. unfold kfifo_span. rewrite land_mask, cap_w32, <- start_of.
  pose proof cap_bounds as [Hc Hr]. pose proof (Z.mod_pos_bound off (cap f) ltac:(lia)) as Ho.
  pose proof (ok_esize f Hf). pose proof (ok_ring f Hf) as Hring. unfold ring, two32 in *.
  destruct (Z.eqb_spec (esize f) 1) as [E|]; cbn [negb].
  - rewrite E, !Z.mul_1_r. rewrite (w32_small (cap f - _)) by (unfold two32; lia). done.
  - rewrite (w32_small (off mod cap f * esize f)), (w32_small (len * esize f)), (w32_small (cap f * esize f)) by (unfold two32; nia).
    by rewrite w32_small by (unfold two32; nia).
Qed.

(** Where the [i]th byte of a span that starts at [off] lies. *)
Lemma span_start off : 0 <= (off * esize f) mod ring f < ring f.
Proof using Hf. apply Z.mod_pos_bound. pose proof cap_bounds. lia. Qed.
End Ring.

(** * Writing *)

(** A buffer with [n] bytes of [src] written from [o] on around the ring. *)
Definition written (d src : list Z) (o n : Z) (d' : list Z) : Prop :=
  length d' = length d /\ forall j, 0 <= j < Z.of_nat (length d) ->
    byte d' j = if (j - o) mod Z.of_nat (length d) <? n then byte src ((j - o) mod Z.of_nat (length d)) else byte d j.

Lemma write_around d src1 src2 o n l B :
  Z.of_nat (length d) = B -> 0 <= o < B -> 0 <= n <= B -> l = Z.min n (B - o) ->
  Z.of_nat (length src1) = l -> Z.of_nat (length src2) = n - l ->
  written d (src1 ++ src2) o n (splice (splice d o src1) 0 src2).
Proof.
  intros HB Ho Hn Hl H1 H2.
  assert (I1 : inside d o (Z.of_nat (length src1)) = true) by (unfold inside; lia).
  assert (L1 : length (splice d o src1) = length d) by (by apply splice_length).
  assert (I2 : inside (splice d o src1) 0 (Z.of_nat (length src2)) = true) by (unfold inside; rewrite L1; lia).
  split; [by rewrite splice_length|]. intros j Hj. rewrite splice_byte by (done || lia).
  rewrite splice_byte by (done || lia). rewrite HB, ring_sub by lia. unfold byte at 4. rewrite H1, H2.
  destruct (Z.leb_spec o j); cbn [andb].
  - destruct (Z.ltb_spec j (0 + (n - l))); cbn [Z.leb andb].
    { lia. }
    replace (0 <=? j) with true by lia. cbn [andb].
    destruct (Z.ltb_spec j (o + l)), (Z.ltb_spec (j - o) n); try lia.
    unfold byte. rewrite app_nth1 by lia. done.
  - replace (0 <=? j) with true by lia. cbn [andb].
    destruct (Z.ltb_spec j (0 + (n - l))), (Z.ltb_spec (j - o + B) n); try lia.
    unfold byte. rewrite app_nth2 by lia. f_equal. lia.
Qed.

Lemma slice_whole src l n :
  0 <= l <= n -> n <= Z.of_nat (length src) -> slice src 0 l ++ slice src l (n - l) = take (Z.to_nat n) src.
Proof.
  intros Hl Hn. unfold slice. rewrite drop_0, take_take_drop. f_equal. lia.
Qed.

Lemma copy_in_spec f src len off :
  kfifo_ok f -> 0 <= len <= cap f -> len * esize f <= Z.of_nat (length src) ->
  exists d', kfifo_copy_in f src len off = Ret (set_data f d')
    /\ written (data f) (take (Z.to_nat (len * esize f)) src) ((off * esize f) mod ring f) (len * esize f) d'.
Proof.
  intros Hf Hl Hs. pose proof (ok_esize f Hf) as He. pose proof (cap_bounds f Hf) as [Hc Hr].
  pose proof (span_start f Hf off) as Ho. pose proof (ok_ring f Hf) as Hring. pose proof (ok_data f Hf) as Hd.
  unfold kfifo_copy_in. rewrite span_eq by done.
  set (o := (off * esize f) mod ring f) in *. set (n := len * esize f) in *.
  assert (0 <= n <= ring f) by (unfold n, ring; nia). set (l := Z.min n (ring f - o)).
  assert (I1 : inside (data f) o l = true) by (unfold inside; lia).
  assert (I2 : inside src 0 l = true) by (unfold inside; lia).
  assert (I3 : inside src l (n - l) = true) by (unfold inside; lia).
  rewrite (w32_small (n - l)) by (unfold two32 in *; lia). unfold memcpy. rewrite I1, I2. cbn [andb res_bind].
  assert (L1 : length (slice src 0 l) = Z.to_nat l) by (by apply slice_length).
  assert (L2 : length (slice src l (n - l)) = Z.to_nat (n - l)) by (by apply slice_length).
  assert (Hlen : length (splice (data f) o (slice src 0 l)) = length (data f)).
  { apply splice_length. rewrite L1. by rewrite Z2Nat.id by lia. }
  replace (inside (splice (data f) o (slice src 0 l)) 0 (n - l)) with true
    by (unfold inside; rewrite Hlen; lia).
  rewrite I3. cbn [andb res_bind]. eexists. split; [done|].
  rewrite <- (slice_whole src l n) by lia. by apply (write_around _ _ _ o n l (ring f)); lia.
Qed.

(** * Reading *)

Lemma copy_out_spec f dst len off :
  kfifo_ok f -> 0 <= len <= cap f -> len * esize f <= Z.of_nat (length dst) ->
  exists dst', kfifo_copy_out f dst len off = Ret dst' /\ length dst' = length dst
    /\ forall j, 0 <= j < Z.of_nat (length dst) ->
         byte dst' j = if j <? len * esize f then byte (data f) ((off * esize f + j) mod ring f) else byte dst j.
Proof.
  intros Hf Hl Hs. pose proof (ok_esize f Hf) as He. pose proof (cap_bounds f Hf) as [Hc Hr].
  pose proof (span_start f Hf off) as Ho. pose proof (ok_ring f Hf) as Hring. pose proof (ok_data f Hf) as Hd.
  unfold kfifo_copy_out. rewrite span_eq by done.
  set (o := (off * esize f) mod ring f) in *. set (n := len * esize f) in *.
  assert (0 <= n <= ring f) by (unfold n, ring; nia). set (l := Z.min n (ring f - o)).
  assert (I1 : inside dst 0 l = true) by (unfold inside; lia).
  assert (I2 : inside (data f) o l = true) by (unfold inside; lia).
  assert (I3 : inside (data f) 0 (n - l) = true) by (unfold inside; lia).
  rewrite (w32_small (n - l)) by (unfold two32 in *; lia). unfold memcpy. rewrite I1, I2. cbn [andb res_bind].
  assert (L1 : Z.of_nat (length (slice (data f) o l)) = l) by (rewrite slice_length; [lia|done]).
  assert (L2 : Z.of_nat (length (slice (data f) 0 (n - l))) = n - l) by (rewrite slice_length; [lia|done]).
  assert (Hlen : length (splice dst 0 (slice (data f) o l)) = length dst) by (apply splice_length; by rewrite L1).
  assert (I4 : inside (splice dst 0 (slice (data f) o l)) l (n - l) = true) by (unfold inside; rewrite Hlen; lia).
  rewrite I3, I4. cbn [andb]. eexists. split; [done|]. split; [rewrite splice_length; [done|by rewrite L2]|].
  intros j Hj. rewrite splice_byte by (rewrite ?L2; done || lia). rewrite L2.
  rewrite splice_byte by (rewrite ?L1; done || lia). rewrite L1.
  rewrite <- Zplus_mod_idemp_l. fold o.
  destruct (Z.leb_spec l j); cbn [andb].
  - destruct (Z.ltb_spec j (l + (n - l))).
    + rewrite slice_byte by (done || lia). replace (j <? n) with true by lia.
      rewrite ring_add by lia. f_equal. case_cmp; lia.
    + replace (j <? n) with false by lia. destruct (Z.leb_spec 0 j), (Z.ltb_spec j (0 + l)); cbn [andb]; lia.
  - replace (0 <=? j) with true by lia. replace (j <? 0 + l) with true by lia. cbn [andb].
    rewrite slice_byte by (done || lia). replace (j <? n) with true by lia.
    rewrite ring_add by lia. f_equal. case_cmp; lia.
Qed.

(** * Moving the indices *)

Lemma len_add f i : 0 <= out f < two32 -> 0 <= i -> 0 <= kfifo_len f + i < two32 ->
  w32 (w32 (in_ f + i) - out f) = kfifo_len f + i.
Proof.
  intros Ho Hi Hb. unfold kfifo_len, w32 in *. rewrite Zminus_mod_idemp_l.
  replace (in_ f + i - out f) with (in_ f - out f + i) by lia. rewrite <- Zplus_mod_idemp_l. apply Z.mod_small. lia.
Qed.
Lemma len_sub f i : 0 <= i <= kfifo_len f -> w32 (in_ f - w32 (out f + i)) = kfifo_len f - i.
Proof.
  intros Hi. pose proof (w32_range (in_ f - out f)) as Hr. unfold kfifo_len, w32 in *. rewrite Zminus_mod_idemp_r.
  replace (in_ f - (out f + i)) with (in_ f - out f - i) by lia. rewrite <- Zminus_mod_idemp_l. apply Z.mod_small. lia.
Qed.
(** The write index, seen from the read index. *)
Lemma in_start f : kfifo_ok f -> (in_ f * esize f) mod ring f = ((out f + kfifo_len f) * esize f) mod ring f.
Proof.
  intros Hf. rewrite <- (start_w32 f Hf (out f + kfifo_len f)). do 2 f_equal.
  pose proof (ok_in f Hf). unfold kfifo_len, w32. rewrite Zplus_mod_idemp_r.
  replace (out f + (in_ f - out f)) with (in_ f) by lia. symmetry. apply Z.mod_small. done.
Qed.

Lemma byte_app a b j : 0 <= j ->
  byte (a ++ b) j = if j <? Z.of_nat (length a) then byte a j else byte b (j - Z.of_nat (length a)).
Proof.
  intros Hj. unfold byte. case_cmp; [by rewrite app_nth1 by lia|]. rewrite app_nth2 by lia. f_equal. lia.
Qed.
Lemma byte_drop a n j : 0 <= n -> 0 <= j -> byte (drop (Z.to_nat n) a) j = byte a (n + j).
Proof. intros Hn Hj. unfold byte. rewrite !nth_lookup, lookup_drop. do 2 f_equal. lia. Qed.
Lemma byte_take a n j : 0 <= j < n -> byte (take (Z.to_nat n) a) j = byte a j.
Proof. intros Hj. unfold byte. by rewrite !nth_lookup, lookup_take_lt by lia. Qed.

(** Publishing the first [len] elements of the [n] bytes written behind the last
    one. *)
Lemma push_part f src len n d' :
  kfifo_ok f -> 0 <= len -> len * esize f <= n -> n <= (cap f - kfifo_len f) * esize f -> Z.of_nat (length src) = n ->
  written (data f) src ((in_ f * esize f) mod ring f) n d' ->
  let f' := mkKfifo (w32 (in_ f + len)) (out f) (mask f) (esize f) d' in
  kfifo_ok f' /\ contents f' = contents f ++ take (Z.to_nat (len * esize f)) src /\ kfifo_len f' = kfifo_len f + len.
Proof.
  intros Hf Hl0 Hln Hn Hs [Hlen Hw] f'. pose proof (cap_bounds f Hf) as [Hc Hr]. pose proof (ok_esize f Hf) as He.
  pose proof (ok_out f Hf). pose proof (len_bounds f Hf). assert (Hl : 0 <= len <= cap f - kfifo_len f) by nia.
  assert (El : kfifo_len f' = kfifo_len f + len) by (unfold kfifo_len at 1; cbn; apply len_add; unfold two32 in *; lia).
  assert (Hf' : kfifo_ok f').
  { destruct Hf. split; try done; cbn; [by rewrite Hlen|apply w32_range|]. rewrite El. unfold cap in *. cbn. lia. }
  split; [done|]. split; [|done].
  pose proof (contents_length f Hf) as L1. pose proof (contents_length f' Hf') as L2. rewrite El in L2. cbn [esize f'] in L2.
  apply byte_ext; [rewrite length_app, length_take; nia|]. intros j Hj. rewrite contents_byte by (done || (rewrite El; cbn; lia)).
  cbn [data out esize f']. change (ring f') with (ring f). rewrite byte_app by lia.
  pose proof (ok_data f Hf) as Hd. pose proof (span_start f Hf (in_ f)) as Hi.
  assert (HB : 0 < ring f) by lia. pose proof (Z.mod_pos_bound (out f * esize f + j) (ring f) HB) as Hm.
  rewrite Hw by (rewrite Hd; lia). rewrite Hd, in_start by done.
  assert (Ed : ((out f * esize f + j) mod ring f - ((out f + kfifo_len f) * esize f) mod ring f) mod ring f
               = (j - kfifo_len f * esize f) mod ring f).
  { rewrite <- Zminus_mod. f_equal. lia. }
  rewrite Ed. rewrite L1.
  assert (Hb : kfifo_len f * esize f + n <= ring f) by (unfold ring; nia).
  destruct (Z.ltb_spec j (kfifo_len f * esize f)).
  - replace ((j - kfifo_len f * esize f) mod ring f) with (j - kfifo_len f * esize f + ring f).
    + replace (_ <? _) with false by lia. by rewrite contents_byte by (done || lia).
    + apply (Z.mod_unique_pos _ _ (-1)); lia.
  - rewrite Z.mod_small by lia. replace (_ <? _) with true by lia. by rewrite byte_take by lia.
Qed.
Lemma push_spec f src len d' :
  kfifo_ok f -> 0 <= len <= cap f - kfifo_len f -> Z.of_nat (length src) = len * esize f ->
  written (data f) src ((in_ f * esize f) mod ring f) (len * esize f) d' ->
  let f' := mkKfifo (w32 (in_ f + len)) (out f) (mask f) (esize f) d' in
  kfifo_ok f' /\ contents f' = contents f ++ src /\ kfifo_len f' = kfifo_len f + len.
Proof.
  intros Hf Hl Hs Hw f'. pose proof (ok_esize f Hf).
  assert (E : take (Z.to_nat (len * esize f)) src = src) by (apply firstn_all2; lia).
  destruct (push_part f src len (len * esize f) d') as (?&Ec&?); [done|nia|nia|nia|done|done|]. rewrite E in Ec. done.
Qed.

(** Dropping the oldest [len] elements. *)
Lemma pop_spec f len :
  kfifo_ok f -> 0 <= len <= kfifo_len f ->
  let f' := set_out f (w32 (out f + len)) in
  kfifo_ok f' /\ contents f' = drop (Z.to_nat (len * esize f)) (contents f) /\ kfifo_len f' = kfifo_len f - len.
Proof.
  intros Hf Hl f'. pose proof (ok_esize f Hf) as He.
  assert (El : kfifo_len f' = kfifo_len f - len) by (unfold kfifo_len at 1; cbn; by apply len_sub).
  assert (Hf' : kfifo_ok f').
  { destruct Hf. split; try done; cbn; [apply w32_range|]. rewrite El. unfold cap in *. cbn. lia. }
  split; [done|]. split; [|done].
  pose proof (contents_length f Hf) as L1. pose proof (contents_length f' Hf') as L2. rewrite El in L2. cbn [esize f' set_out] in L2.
  apply byte_ext; [rewrite length_drop; nia|]. intros j Hj. rewrite byte_drop by nia.
  rewrite !contents_byte by (done || (rewrite ?El; cbn; nia)). cbn [data out esize f' set_out]. change (ring f') with (ring f).
  rewrite <- Zplus_mod_idemp_l, start_w32, Zplus_mod_idemp_l by done. do 2 f_equal. lia.
Qed.

(** * The plain operations *)

Lemma set_data_ok f d : kfifo_ok f -> length d = length (data f) -> kfifo_ok (set_data f d).
Proof. intros [] E. split; try done. cbn. by rewrite E. Qed.

Lemma kfifo_in_spec f buf len :
  kfifo_ok f -> 0 <= len < two32 -> Z.min len (cap f - kfifo_len f) * esize f <= Z.of_nat (length buf) ->
  let n := Z.min len (cap f - kfifo_len f) in
  exists f', __kfifo_in f buf len = Ret (f', n) /\ kfifo_ok f'
    /\ contents f' = contents f ++ take (Z.to_nat (n * esize f)) buf /\ kfifo_len f' = kfifo_len f + n
    /\ cap f' = cap f /\ esize f' = esize f.
Proof.
  intros Hf Hl Hb n. unfold __kfifo_in. rewrite unused_eq by done.
  replace (if cap f - kfifo_len f <? len then cap f - kfifo_len f else len) with n by (unfold n; case_cmp; lia).
  pose proof (len_bounds f Hf). pose proof (ok_esize f Hf).
  destruct (copy_in_spec f buf n (in_ f) Hf) as (d&->&Hw); [lia|done|]. cbn [res_bind].
  assert (Ht : Z.of_nat (length (take (Z.to_nat (n * esize f)) buf)) = n * esize f) by (rewrite length_take; nia).
  destruct (push_spec f _ n d Hf ltac:(lia) Ht Hw) as (?&?&?).
  eexists. split; [done|]. done.
Qed.

Lemma kfifo_peek_spec f buf len :
  kfifo_ok f -> 0 <= len < two32 -> Z.min len (kfifo_len f) * esize f <= Z.of_nat (length buf) ->
  let n := Z.min len (kfifo_len f) in
  __kfifo_out_peek f buf len
  = Ret (take (Z.to_nat (n * esize f)) (contents f) ++ drop (Z.to_nat (n * esize f)) buf, n).
Proof.
  intros Hf Hl Hb n. unfold __kfifo_out_peek. fold (kfifo_len f).
  replace (if kfifo_len f <? len then kfifo_len f else len) with n by (unfold n; case_cmp; lia).
  pose proof (len_bounds f Hf). pose proof (ok_esize f Hf). pose proof (contents_length f Hf) as L.
  destruct (copy_out_spec f buf n (out f) Hf) as (d&->&Hd&Hw); [lia|done|]. cbn [res_bind]. do 2 f_equal.
  assert (Hn : 0 <= n * esize f <= kfifo_len f * esize f) by nia.
  assert (Ht : Z.of_nat (length (take (Z.to_nat (n * esize f)) (contents f))) = n * esize f) by (rewrite length_take; lia).
  apply byte_ext; [rewrite length_app, length_drop; lia|].
  intros j Hj. rewrite Hw, byte_app, Ht by lia. case_cmp.
  - by rewrite byte_take, contents_byte by (done || lia).
  - rewrite byte_drop by lia. f_equal. lia.
Qed.

Lemma kfifo_out_spec f buf len :
  kfifo_ok f -> 0 <= len < two32 -> Z.min len (kfifo_len f) * esize f <= Z.of_nat (length buf) ->
  let n := Z.min len (kfifo_len f) in
  exists f', __kfifo_out f buf len
      = Ret (f', take (Z.to_nat (n * esize f)) (contents f) ++ drop (Z.to_nat (n * esize f)) buf, n)
    /\ kfifo_ok f' /\ contents f' = drop (Z.to_nat (n * esize f)) (contents f) /\ kfifo_len f' = kfifo_len f - n
    /\ cap f' = cap f /\ esize f' = esize f.
Proof.
  intros Hf Hl Hb n. unfold __kfifo_out. rewrite kfifo_peek_spec by done. cbn [res_bind]. fold n.
  pose proof (len_bounds f Hf). destruct (pop_spec f n Hf) as (?&?&?); [lia|]. eexists. split; [done|]. done.
Qed.

(** * Records *)

(** The length field of a record, low byte first. *)
Definition header (n recsize : Z) : list Z :=
  if 1 <? recsize then [n mod 256; Z.shiftr n 8 mod 256] else [n mod 256].

Lemma header_length n recsize : 1 <= recsize <= 2 -> Z.of_nat (length (header n recsize)) = recsize.
Proof. intros H. unfold header. case_cmp; cbn; lia. Qed.

Lemma written_app d a b o n m d1 d2 :
  0 < Z.of_nat (length d) -> 0 <= n -> 0 <= m -> n + m <= Z.of_nat (length d) -> Z.of_nat (length a) = n ->
  written d a o n d1 -> written d1 b ((o + n) mod Z.of_nat (length d)) m d2 -> written d (a ++ b) o (n + m) d2.
Proof.
  intros Hd Hn Hm Hnm Ha [L1 W1] [L2 W2]. split; [congruence|]. intros j Hj.
  rewrite W2, W1 by (rewrite ?L1; lia). rewrite L1. set (B := Z.of_nat (length d)) in *.
  assert (Hr : 0 <= (j - o) mod B < B) by (apply Z.mod_pos_bound; lia).
  assert (E : (j - (o + n) mod B) mod B = ((j - o) mod B - n) mod B).
  { rewrite Zminus_mod_idemp_r, Zminus_mod_idemp_l. f_equal. lia. }
  rewrite E. rewrite byte_app, Ha by lia. destruct (Z.ltb_spec ((j - o) mod B) n).
  - rewrite <- (Z.mod_unique_pos ((j - o) mod B - n) B (-1) ((j - o) mod B - n + B)) by lia.
    destruct (Z.ltb_spec ((j - o) mod B - n + B) m), (Z.ltb_spec ((j - o) mod B) (n + m)); lia.
  - rewrite (Z.mod_small (_ - n)) by lia.
    destruct (Z.ltb_spec ((j - o) mod B - n) m), (Z.ltb_spec ((j - o) mod B) (n + m)); lia || done.
Qed.

Lemma store_written d j v : 0 <= j < Z.of_nat (length d) ->
  exists d', store d j v = Ret d' /\ written d [v] j 1 d'.
Proof.
  intros Hj. unfold store. replace ((0 <=? j) && (j <? Z.of_nat (length d))) with true by lia.
  eexists. split; [done|]. split; [apply length_insert|]. intros i Hi. rewrite ring_sub by lia.
  unfold byte. rewrite !nth_lookup. destruct (Z.eq_dec i j) as [->|Hne].
  - rewrite list_lookup_insert_eq by lia. by rewrite Z.leb_refl, Z.sub_diag.
  - rewrite list_lookup_insert_ne by lia.
    destruct (Z.leb_spec j i); [destruct (Z.ltb_spec (i - j) 1)|destruct (Z.ltb_spec (i - j + Z.of_nat (length d)) 1)]; lia || done.
Qed.

Section Records.
Context (f : __kfifo) (recsize : Z).
Hypothesis Hf : kfifo_ok f.
Hypothesis Hes : esize f = 1.
Hypothesis Hrs : 1 <= recsize <= 2.

Lemma ring_cap : ring f = cap f.
Proof using Hf Hes. unfold ring. lia. Qed.

Lemma poke_spec n :
  exists d, __kfifo_poke_n f n recsize = Ret (set_data f d)
    /\ written (data f) (header n recsize) (in_ f mod cap f) recsize d.
Proof using Hf Hes Hrs.
  pose proof (cap_bounds f Hf) as [Hc _]. pose proof (ok_data f Hf) as Hd. rewrite ring_cap in Hd.
  pose proof (Z.mod_pos_bound (in_ f) (cap f) ltac:(lia)) as Hi.
  pose proof (Z.mod_pos_bound (in_ f + 1) (cap f) ltac:(lia)) as Hi1.
  unfold __kfifo_poke_n, __KFIFO_POKE. rewrite land_mask by done.
  destruct (store_written (data f) (in_ f mod cap f) (n mod 256)) as (d1&->&W1); [lia|]. cbn [res_bind].
  unfold header. destruct (Z.ltb_spec 1 recsize).
  - rewrite land_mask, w32_mod_cap by done.
    destruct (store_written d1 ((in_ f + 1) mod cap f) (Z.shiftr n 8 mod 256)) as (d2&->&W2); [rewrite (proj1 W1); lia|].
    cbn [res_bind]. exists d2. split; [done|]. replace recsize with (1 + 1) by lia.
    apply (written_app _ [_] [_] _ 1 1 d1); try done; try lia. by rewrite Hd, Zplus_mod_idemp_l.
  - cbn [res_bind]. exists d1. split; [done|]. by replace recsize with 1 by lia.
Qed.

Lemma in_r_spec buf len :
  0 <= len -> len + recsize <= cap f - kfifo_len f -> len <= Z.of_nat (length buf) ->
  exists f', __kfifo_in_r f buf len recsize = Ret (f', len) /\ kfifo_ok f' /\ esize f' = 1 /\ cap f' = cap f
    /\ contents f' = contents f ++ header len recsize ++ take (Z.to_nat len) buf
    /\ kfifo_len f' = kfifo_len f + len + recsize.
Proof using Hf Hes Hrs.
  intros Hl Hfit Hb. pose proof (cap_bounds f Hf) as [Hc Hr]. pose proof (len_bounds f Hf).
  pose proof (ok_data f Hf) as Hd. rewrite ring_cap in *. pose proof (ok_ring f Hf) as Hring. rewrite ring_cap in Hring.
  unfold __kfifo_in_r. rewrite unused_eq, w64_small by (done || (unfold two64, two32 in *; lia)).
  replace (_ <? _) with false by lia. destruct (poke_spec len) as (d1&->&W1). cbn [res_bind].
  assert (Hf1 : kfifo_ok (set_data f d1)) by (apply set_data_ok; [done|apply W1]).
  destruct (copy_in_spec (set_data f d1) buf len (w32 (in_ (set_data f d1) + recsize)) Hf1) as (d2&->&W2);
    cbn [esize set_data]; rewrite ?Hes; [unfold cap in *; cbn; lia|lia|]. cbn [res_bind set_data set_in data].
  cbn [data set_data esize in_] in W2. change (ring (set_data f d1)) with (ring f) in W2.
  rewrite Hes, !Z.mul_1_r, ring_cap, w32_mod_cap in W2 by done.
  pose proof (header_length len recsize Hrs) as Hh.
  assert (W : written (data f) (header len recsize ++ take (Z.to_nat len) buf) ((in_ f * esize f) mod ring f)
                ((len + recsize) * esize f) d2).
  { rewrite Hes, ring_cap, !Z.mul_1_r. replace (len + recsize) with (recsize + len) by lia.
    eapply written_app; try exact W1; try lia. by rewrite Hd, Zplus_mod_idemp_l. }
  assert (Hsl : Z.of_nat (length (header len recsize ++ take (Z.to_nat len) buf)) = (len + recsize) * esize f)
    by (rewrite length_app, length_take; lia).
  destruct (push_spec f _ (len + recsize) d2 Hf ltac:(lia) Hsl W) as (?&?&El).
  eexists. split; [done|]. split_and!; try done. etrans; [exact El|lia].
Qed.

Lemma in_r_full buf len :
  0 <= len < two32 -> cap f - kfifo_len f < len + recsize -> __kfifo_in_r f buf len recsize = Ret (f, 0).
Proof using Hf Hes Hrs.
  intros Hl Hfit. unfold __kfifo_in_r. rewrite unused_eq, w64_small by (done || (unfold two64, two32 in *; lia)).
  by replace (_ <? _) with true by lia.
Qed.

(** Reading the length field of the record in front. *)
Lemma peek_n_spec n rest :
  0 <= n < 256 ^ recsize -> contents f = header n recsize ++ rest -> __kfifo_peek_n f recsize = Ret n.
Proof using Hf Hes Hrs.
  intros Hn E. pose proof (cap_bounds f Hf) as [Hc _]. pose proof (ok_data f Hf) as Hd. rewrite ring_cap in Hd.
  pose proof (contents_length f Hf) as L. rewrite E, length_app, Hes in L. pose proof (header_length n recsize Hrs) as Hh.
  assert (Hload : forall x, 0 <= x < recsize -> load (data f) (w32 (out f + x) mod cap f) = Ret (byte (header n recsize) x)).
  { intros x Hx. unfold load. rewrite w32_mod_cap by done.
    pose proof (Z.mod_pos_bound (out f + x) (cap f) ltac:(lia)).
    rewrite byte_lookup by lia. replace (0 <=? _) with true by lia. f_equal.
    pose proof (contents_byte f x Hf) as Hb. rewrite Hes, E, byte_app, !Z.mul_1_r, ring_cap in Hb by lia.
    rewrite <- Hb by lia. by replace (x <? _) with true by lia. }
  unfold __kfifo_peek_n, __KFIFO_PEEK. rewrite !land_mask by done.
  pose proof (Hload 0 ltac:(lia)) as H0. rewrite Z.add_0_r, w32_small in H0 by apply (ok_out f Hf). rewrite H0. cbn [res_bind].
  rewrite w64_small by (unfold two64; lia). unfold header in *. destruct (Z.ltb_spec 1 recsize).
  - replace recsize with 2 in * by lia. cbn [negb Z.eqb Z.sub Z.add Z.opp Z.pos_sub Pos.pred_double].
    rewrite (Hload 1) by lia. cbn [res_bind byte nth Z.to_nat Pos.to_nat Pos.iter_op Nat.add]. f_equal.
    rewrite Z.shiftr_div_pow2, Z.shiftl_mul_pow2 by lia. change (2 ^ 8) with 256. change (256 ^ 2) with 65536 in Hn.
    unfold byte. change (Z.to_nat 0) with 0%nat. change (Z.to_nat 1) with 1%nat. cbn [nth]. divmod n 256. rewrite (Z.mod_small (n / 256)) by lia.
    pose proof (lor_disjoint_add (n mod 256) (n / 256) 8) as Hlor. change (2 ^ 8) with 256 in Hlor. rewrite Hlor; lia.
  - replace recsize with 1 in * by lia. cbn. f_equal. unfold byte. cbn. apply Z.mod_small. lia.
Qed.

(** Taking the record in front. *)
Lemma out_copy_r_spec p rest buf len :
  Z.of_nat (length p) < 256 ^ recsize -> contents f = header (Z.of_nat (length p)) recsize ++ p ++ rest ->
  0 <= len -> Z.min len (Z.of_nat (length p)) <= Z.of_nat (length buf) ->
  let n := Z.min len (Z.of_nat (length p)) in
  kfifo_out_copy_r f buf len recsize = Ret (take (Z.to_nat n) p ++ drop (Z.to_nat n) buf, n, Z.of_nat (length p)).
Proof using Hf Hes Hrs.
  intros Hp E Hl Hb n. unfold kfifo_out_copy_r. rewrite (peek_n_spec (Z.of_nat (length p)) (p ++ rest)) by (done || lia). cbn [res_bind].
  replace (if Z.of_nat (length p) <? len then Z.of_nat (length p) else len) with n by (unfold n; case_cmp; lia).
  pose proof (header_length (Z.of_nat (length p)) recsize Hrs) as Hh. pose proof (len_bounds f Hf).
  pose proof (contents_length f Hf) as L. rewrite E, !length_app, Hes in L.
  destruct (copy_out_spec f buf n (w32 (out f + recsize)) Hf) as (d&->&Hd&Hw); [lia|rewrite Hes; lia|].
  cbn [res_bind]. do 3 f_equal. rewrite Hes in Hw.
  apply byte_ext; [rewrite length_app, length_take, length_drop; lia|].
  intros j Hj. rewrite Hw, byte_app, length_take by lia. replace (Z.of_nat (Z.to_nat n `min` length p)) with n by lia.
  rewrite !Z.mul_1_r. case_cmp.
  - rewrite byte_take by lia. pose proof (contents_byte f (recsize + j) Hf) as Hc. rewrite Hes, E, byte_app, Hh in Hc by lia.
    replace (_ <? recsize) with false in Hc by lia. rewrite byte_app in Hc by lia.
    replace (_ <? Z.of_nat (length p)) with true in Hc by lia. replace (recsize + j - recsize) with j in Hc by lia.
    rewrite Hc, Z.mul_1_r by lia. f_equal. rewrite ring_cap.
    rewrite <- (Zplus_mod_idemp_l (w32 _)), w32_mod_cap, Zplus_mod_idemp_l by done. f_equal. lia.
  - rewrite byte_drop by lia. f_equal. lia.
Qed.

Lemma pop_r_spec p rest :
  contents f = header (Z.of_nat (length p)) recsize ++ p ++ rest ->
  let f' := set_out f (w32 (out f + (Z.of_nat (length p) + recsize))) in
  kfifo_ok f' /\ contents f' = rest.
Proof using Hf Hes Hrs.
  intros E f'. pose proof (header_length (Z.of_nat (length p)) recsize Hrs) as Hh.
  pose proof (contents_length f Hf) as L. rewrite E, !length_app, Hes in L.
  destruct (pop_spec f (Z.of_nat (length p) + recsize) Hf) as (H1&H2&_); [lia|]. split; [done|].
  unfold f'. rewrite H2, E, Hes, app_assoc, drop_app_length'; [done|]. rewrite length_app. lia.
Qed.
End Records.

(** * User copies *)

Lemma splice_nil d j : splice d j [] = d.
Proof. unfold splice. cbn. rewrite Nat.add_0_r. apply take_drop. Qed.

Lemma div_round_up n d : 0 <= n < two32 -> 0 < d < two32 ->
  DIV_ROUND_UP n d = (n + d - 1) / d /\ n <= DIV_ROUND_UP n d * d < n + d.
Proof.
  intros Hn Hd. unfold DIV_ROUND_UP. rewrite !w64_small by (unfold two32, two64 in *; rewrite ?w64_small; unfold two64; lia).
  split; [done|]. pose proof (Z.div_mod (n + d - 1) d). pose proof (Z.mod_pos_bound (n + d - 1) d). nia.
Qed.

(** An element count whose bytes were not all transferred. *)
Lemma round_elements r len E : 0 < E < two32 -> 0 <= r <= len * E -> len * E < two32 ->
  0 <= DIV_ROUND_UP r E <= len /\ (len - DIV_ROUND_UP r E) * E <= len * E - r /\ (r <> 0 -> DIV_ROUND_UP r E <> 0).
Proof. intros HE Hr Hl. pose proof (div_round_up r E ltac:(lia) HE) as [_ ?]. nia. Qed.

Section UserCopies.
Context (ubyte : Z -> Z) (uncopied : Z -> Z -> Z).
Hypothesis Hun : forall o n, 0 <= n -> 0 <= uncopied o n <= n.

(** The bytes that [_copy_from_user] writes. *)
Definition user_bytes (o n : Z) : list Z :=
  (ubyte <$> seqZ o (n - uncopied o n)) ++ replicate (Z.to_nat (uncopied o n)) 0.
Lemma user_bytes_length o n : 0 <= n -> Z.of_nat (length (user_bytes o n)) = n.
Proof using Hun. intros Hn. specialize (Hun o n Hn). unfold user_bytes. rewrite length_app, length_fmap, length_seqZ, length_replicate. lia. Qed.
Lemma user_bytes_byte o n j : 0 <= n -> 0 <= j < n - uncopied o n -> byte (user_bytes o n) j = ubyte (o + j).
Proof using Hun.
  intros Hn Hj. specialize (Hun o n Hn). unfold byte, user_bytes.
  rewrite nth_lookup, lookup_app_l by (rewrite length_fmap, length_seqZ; lia).
  rewrite list_lookup_fmap, lookup_seqZ_lt by lia. cbn. f_equal. lia.
Qed.

Lemma copy_from_user_spec f len off :
  kfifo_ok f -> 0 <= len <= cap f ->
  exists d src ret, kfifo_copy_from_user ubyte uncopied f len off = Ret (set_data f d, ret, (len - ret) * esize f)
    /\ 0 <= ret <= len /\ (len - ret) * esize f <= Z.of_nat (length src) <= len * esize f
    /\ written (data f) src ((off * esize f) mod ring f) (Z.of_nat (length src)) d
    /\ (forall j, 0 <= j < (len - ret) * esize f -> byte src j = ubyte j)
    /\ ((forall o n, uncopied o n = 0) -> ret = 0).
Proof using Hun.
  intros Hf Hl. pose proof (ok_esize f Hf) as He. pose proof (cap_bounds f Hf) as [Hc Hr].
  pose proof (span_start f Hf off) as Ho. pose proof (ok_ring f Hf) as Hring. pose proof (ok_data f Hf) as Hd.
  unfold kfifo_copy_from_user. rewrite span_eq by done.
  set (o := (off * esize f) mod ring f) in *. set (n := len * esize f) in *.
  assert (0 <= n <= ring f) by (unfold n, ring; nia). assert (HE : 0 < esize f < two32) by (unfold ring in *; nia).
  set (l := Z.min n (ring f - o)). unfold _copy_from_user. replace (inside (data f) o l) with true by (unfold inside; lia).
  fold (user_bytes 0 l). cbn [res_bind]. pose proof (Hun 0 l ltac:(lia)) as Hr1. pose proof (user_bytes_length 0 l ltac:(lia)) as L1.
  assert (I1 : inside (data f) o (Z.of_nat (length (user_bytes 0 l))) = true) by (unfold inside; lia).
  destruct (Z.eqb_spec (uncopied 0 l) 0) as [E0|E0]; cbn [negb].
  - rewrite (w32_small (n - l)) by (unfold two32 in *; lia).
    replace (inside _ 0 (n - l)) with true by (unfold inside; rewrite splice_length by done; lia).
    fold (user_bytes l (n - l)). cbn [res_bind]. pose proof (Hun l (n - l) ltac:(lia)) as Hr2.
    pose proof (user_bytes_length l (n - l) ltac:(lia)) as L2.
    assert (Hret : exists ret, (if negb (uncopied l (n - l) =? 0) then DIV_ROUND_UP (uncopied l (n - l)) (esize f)
                      else uncopied l (n - l)) = ret /\ 0 <= ret <= len /\ (len - ret) * esize f <= n - uncopied l (n - l)
                      /\ (uncopied l (n - l) = 0 -> ret = 0)).
    { eexists. split; [done|]. destruct (Z.eqb_spec (uncopied l (n - l)) 0) as [->|]; cbn [negb]; [nia|].
      pose proof (round_elements (uncopied l (n - l)) len (esize f) HE) as Hre. unfold n in *. lia. }
    destruct Hret as (ret&->&Hret&Hm&Hz).
    exists (splice (splice (data f) o (user_bytes 0 l)) 0 (user_bytes l (n - l))), (user_bytes 0 l ++ user_bytes l (n - l)), ret.
    rewrite w32_small by (unfold two32 in *; nia). split_and!; [do 3 f_equal; lia|lia|lia|rewrite length_app; lia|rewrite length_app; lia| | |].
    + rewrite length_app. replace (Z.of_nat _) with n by lia. by apply (write_around _ _ _ o n l (ring f)); lia.
    + intros j Hj. rewrite byte_app, L1 by lia. case_cmp.
      * by rewrite user_bytes_byte by lia.
      * rewrite user_bytes_byte by lia. f_equal. lia.
    + intros Hall. auto.
  - rewrite w64_small by (unfold two64, two32 in *; lia). cbn [res_bind].
    pose proof (round_elements (uncopied 0 l + n - l) len (esize f) HE) as Hre. fold n in Hre.
    exists (splice (data f) o (user_bytes 0 l)), (user_bytes 0 l), (DIV_ROUND_UP (uncopied 0 l + n - l) (esize f)).
    rewrite w32_small by (unfold two32 in *; nia). split_and!; [do 3 f_equal; lia|lia|lia|lia|lia| | |].
    + pose proof (write_around (data f) (user_bytes 0 l) [] o l l (ring f)) as Hw. rewrite app_nil_r, splice_nil, L1 in *.
      apply Hw; cbn [length]; done || lia.
    + intros j Hj. by rewrite user_bytes_byte by lia.
    + intros Hall. congruence.
Qed.

Lemma from_user_spec f len :
  kfifo_ok f -> 0 <= len < two64 ->
  exists f' err m, __kfifo_from_user ubyte uncopied f len = Ret (f', err, m * esize f)
    /\ kfifo_ok f' /\ 0 <= m <= Z.min (len / esize f) (cap f - kfifo_len f)
    /\ contents f' = contents f ++ (ubyte <$> seqZ 0 (m * esize f)) /\ kfifo_len f' = kfifo_len f + m
    /\ ((err = 0 /\ m = Z.min (len / esize f) (cap f - kfifo_len f)) \/ (err = - EFAULT /\ m < Z.min (len / esize f) (cap f - kfifo_len f)))
    /\ ((forall o n, uncopied o n = 0) -> err = 0).
Proof using Hun.
  intros Hf Hl. pose proof (ok_esize f Hf) as He. pose proof (len_bounds f Hf) as Hlen. pose proof (cap_bounds f Hf) as [Hc Hr].
  unfold __kfifo_from_user, udiv. replace (esize f =? 0) with false by lia.
  assert (E : (if negb (esize f =? 1) then Ret (len / esize f) else Ret len) = Ret (len / esize f)).
  { case_cmp; [|done]. cbn. f_equal. rewrite e. by rewrite Z.div_1_r. }
  rewrite E. cbn [res_bind]. rewrite unused_eq by done. set (n := Z.min (len / esize f) (cap f - kfifo_len f)).
  replace (if cap f - kfifo_len f <? len / esize f then cap f - kfifo_len f else len / esize f) with n by (unfold n; case_cmp; lia).
  assert (Hn : 0 <= n) by (pose proof (Z.div_pos len (esize f)); lia).
  destruct (copy_from_user_spec f n (in_ f) Hf) as (d&src&ret&->&Hret&Hs&Hw&Hb&Hz); [lia|]. cbn [res_bind set_data in_].
  destruct (push_part f src (n - ret) (Z.of_nat (length src)) d Hf) as (Hok&Hcont&Hlen'); try done; try nia.
  assert (Hsrc : take (Z.to_nat ((n - ret) * esize f)) src = ubyte <$> seqZ 0 ((n - ret) * esize f)).
  { apply byte_ext; [rewrite length_take, length_fmap, length_seqZ; lia|]. intros j Hj. rewrite length_take in Hj.
    rewrite byte_take, Hb by lia. unfold byte. rewrite nth_lookup, list_lookup_fmap, lookup_seqZ_lt by lia. cbn. f_equal. lia. }
  rewrite Hsrc in Hcont. destruct (Z.eqb_spec ret 0) as [->|]; cbn [negb].
  - exists (mkKfifo (w32 (in_ f + (n - 0))) (out f) (mask f) (esize f) d), 0, n.
    rewrite Z.sub_0_r in *. split_and!; try done; try lia; by left.
  - rewrite w64_small by (unfold two64; lia).
    exists (mkKfifo (w32 (in_ f + (n - ret))) (out f) (mask f) (esize f) d), (- EFAULT), (n - ret).
    split_and!; try done; try lia. intros Ha. by specialize (Hz Ha).
Qed.
End UserCopies.

Section UserReads.
Context (uncopied : Z -> Z -> Z).
Hypothesis Hun : forall o n, 0 <= n -> 0 <= uncopied o n <= n.

Lemma copy_to_user_spec f to len off :
  kfifo_ok f -> 0 <= len <= cap f ->
  exists to' ret, kfifo_copy_to_user uncopied f to len off = Ret (to', ret, (len - ret) * esize f)
    /\ 0 <= ret <= len
    /\ (forall j, 0 <= j < (len - ret) * esize f -> to' j = byte (data f) ((off * esize f + j) mod ring f))
    /\ (forall j, ~ 0 <= j < len * esize f -> to' j = to j)
    /\ ((forall o n, uncopied o n = 0) -> ret = 0).
Proof using Hun.
  intros Hf Hl. pose proof (ok_esize f Hf) as He. pose proof (cap_bounds f Hf) as [Hc Hr].
  pose proof (span_start f Hf off) as Ho. pose proof (ok_ring f Hf) as Hring. pose proof (ok_data f Hf) as Hd.
  unfold kfifo_copy_to_user. rewrite span_eq by done. set (n := len * esize f) in *.
  assert (Hat : forall j, ((off * esize f) + j) mod ring f = ((off * esize f) mod ring f + j) mod ring f)
    by (intros j; by rewrite Zplus_mod_idemp_l).
  set (o := (off * esize f) mod ring f) in *.
  assert (0 <= n <= ring f) by (unfold n, ring; nia). assert (HE : 0 < esize f < two32) by (unfold ring in *; nia).
  set (l := Z.min n (ring f - o)). unfold _copy_to_user. replace (inside (data f) o l) with true by (unfold inside; lia).
  cbn [res_bind]. pose proof (Hun 0 l ltac:(lia)) as Hr1.
  destruct (Z.eqb_spec (uncopied 0 l) 0) as [E0|E0]; cbn [negb].
  - rewrite (w32_small (n - l)) by (unfold two32 in *; lia). replace (inside _ 0 (n - l)) with true by (unfold inside; lia).
    cbn [res_bind]. pose proof (Hun l (n - l) ltac:(lia)) as Hr2.
    assert (Hret : exists ret, (if negb (uncopied l (n - l) =? 0) then DIV_ROUND_UP (uncopied l (n - l)) (esize f)
                      else uncopied l (n - l)) = ret /\ 0 <= ret <= len /\ (len - ret) * esize f <= n - uncopied l (n - l)
                      /\ (uncopied l (n - l) = 0 -> ret = 0)).
    { eexists. split; [done|]. destruct (Z.eqb_spec (uncopied l (n - l)) 0) as [->|]; cbn [negb]; [nia|].
      pose proof (round_elements (uncopied l (n - l)) len (esize f) HE) as Hre. unfold n in *. lia. }
    destruct Hret as (ret&->&Hret&Hm&Hz). rewrite w32_small by (unfold two32 in *; nia).
    eexists _, ret. split_and!; [do 3 f_equal; lia|lia|lia| | |intros; auto].
    + intros j Hj. rewrite Hat, ring_add by lia. cbv beta.
      destruct (Z.leb_spec l j), (Z.ltb_spec j (l + (n - l - uncopied l (n - l)))); cbn [andb]; try lia.
      * unfold byte. f_equal. destruct (Z.ltb_spec (o + j) (ring f)); lia.
      * replace (0 <=? j) with true by lia. replace (j <? 0 + (l - uncopied 0 l)) with true by lia. cbn [andb].
        unfold byte. f_equal. destruct (Z.ltb_spec (o + j) (ring f)); lia.
    + intros j Hj. cbv beta. replace ((l <=? j) && (j <? l + (n - l - uncopied l (n - l)))) with false by lia.
      by replace ((0 <=? j) && (j <? 0 + (l - uncopied 0 l))) with false by lia.
  - rewrite w64_small by (unfold two64, two32 in *; lia). cbn [res_bind].
    pose proof (round_elements (uncopied 0 l + n - l) len (esize f) HE) as Hre. fold n in Hre.
    rewrite w32_small by (unfold two32 in *; nia). eexists _, _. split_and!; [do 3 f_equal; lia|lia|lia| | |].
    + intros j Hj. rewrite Hat, ring_add by lia. cbv beta.
      replace ((0 <=? j) && (j <? 0 + (l - uncopied 0 l))) with true by lia.
      unfold byte. f_equal. destruct (Z.ltb_spec (o + j) (ring f)); lia.
    + intros j Hj. cbv beta. by replace ((0 <=? j) && (j <? 0 + (l - uncopied 0 l))) with false by lia.
    + intros Hall. congruence.
Qed.

Lemma to_user_spec f to len :
  kfifo_ok f -> 0 <= len < two64 ->
  exists f' to' err m, __kfifo_to_user uncopied f to len = Ret (f', to', err, m * esize f)
    /\ kfifo_ok f' /\ 0 <= m <= Z.min (len / esize f) (kfifo_len f)
    /\ contents f' = drop (Z.to_nat (m * esize f)) (contents f) /\ kfifo_len f' = kfifo_len f - m
    /\ (forall j, 0 <= j < m * esize f -> to' j = byte (contents f) j)
    /\ ((err = 0 /\ m = Z.min (len / esize f) (kfifo_len f)) \/ (err = - EFAULT /\ m < Z.min (len / esize f) (kfifo_len f)))
    /\ ((forall o n, uncopied o n = 0) -> err = 0).
Proof using Hun.
  intros Hf Hl. pose proof (ok_esize f Hf) as He. pose proof (len_bounds f Hf) as Hlen. pose proof (cap_bounds f Hf) as [Hc Hr].
  unfold __kfifo_to_user, udiv. replace (esize f =? 0) with false by lia.
  assert (E : (if negb (esize f =? 1) then Ret (len / esize f) else Ret len) = Ret (len / esize f)).
  { case_cmp; [|done]. cbn. f_equal. rewrite e. by rewrite Z.div_1_r. }
  rewrite E. cbn [res_bind]. fold (kfifo_len f). set (n := Z.min (len / esize f) (kfifo_len f)).
  replace (if kfifo_len f <? len / esize f then kfifo_len f else len / esize f) with n by (unfold n; case_cmp; lia).
  assert (Hn : 0 <= n) by (pose proof (Z.div_pos len (esize f)); lia).
  destruct (copy_to_user_spec f to n (out f) Hf) as (to'&ret&->&Hret&Hb&_&Hz); [lia|]. cbn [res_bind].
  destruct (pop_spec f (n - ret) Hf) as (Hok&Hcont&Hlen'); [lia|].
  assert (Hb' : forall j, 0 <= j < (n - ret) * esize f -> to' j = byte (contents f) j).
  { intros j Hj. rewrite Hb, contents_byte by (done || nia). done. }
  destruct (Z.eqb_spec ret 0) as [->|]; cbn [negb].
  - exists (set_out f (w32 (out f + (n - 0)))), to', 0, n. rewrite Z.sub_0_r in *. split_and!; try done; try lia; by left.
  - rewrite w64_small by (unfold two64; lia). exists (set_out f (w32 (out f + (n - ret)))), to', (- EFAULT), (n - ret).
    split_and!; try done; try lia. intros Ha. by specialize (Hz Ha).
Qed.
End UserReads.

(** * Setting up *)

Lemma __fls_log2 w : 0 < w < two64 -> __fls w = Z.log2 w.
Proof.
  intros Hw. destruct (__fls_spec w Hw) as (Hr&Hb&Habove).
  destruct (Z.lt_trichotomy (__fls w) (Z.log2 w)) as [Hlt|[E|Hgt]]; [|done|].
  - specialize (Habove _ Hlt). by rewrite Z.bit_log2 in Habove by lia.
  - by rewrite Z.bits_above_log2 in Hb by lia.
Qed.

(** The next power of two. *)
Lemma roundup_spec n :
  2 <= n < two32 -> exists s, __roundup_pow_of_two n = Ret (2 ^ s) /\ 1 <= s <= 32 /\ n <= 2 ^ s < 2 * n.
Proof.
  intros Hn. unfold __roundup_pow_of_two, fls_long, fls64. rewrite (w64_small (n - 1)) by (unfold two64, two32 in *; lia).
  replace (n - 1 =? 0) with false by lia. rewrite __fls_log2 by (unfold two64, two32 in *; lia).
  pose proof (Z.log2_spec (n - 1) ltac:(lia)) as Hs. pose proof (Z.log2_nonneg (n - 1)).
  assert (Hlt : Z.log2 (n - 1) < 32) by (apply Z.log2_lt_pow2; unfold two32 in *; lia).
  set (s := Z.log2 (n - 1)) in *. replace (s + 1 <? 64) with true by lia.
  exists (s + 1). rewrite Z.shiftl_1_l. rewrite <- Z.add_1_r in Hs.
  rewrite w64_small by (pose proof (Z.pow_le_mono_r 2 (s + 1) 33); unfold two64; lia). split; [done|]. rewrite Z.pow_add_r in * by lia. lia.
Qed.

Lemma new_fifo_ok s e d :
  1 <= s <= 31 -> 0 < e -> 2 ^ s * e < two32 -> Z.of_nat (length d) = 2 ^ s * e ->
  kfifo_ok (mkKfifo 0 0 (w32 (2 ^ s - 1)) e d) /\ cap (mkKfifo 0 0 (w32 (2 ^ s - 1)) e d) = 2 ^ s.
Proof.
  intros Hs He Hb Hd. pose proof (Z.pow_le_mono_r 2 1 s). pose proof (Z.pow_le_mono_r 2 s 31).
  rewrite w32_small by (unfold two32; lia). unfold ring, cap; split; [|cbn; lia].
  assert (E : 2 ^ s - 1 + 1 = 2 ^ s) by lia.
  split; cbn [mask esize data in_ out]; unfold ring, cap, kfifo_len; cbn [mask esize data in_ out]; rewrite ?E; try done.
  - by exists s.
  - change (w32 (0 - 0)) with 0. lia.
Qed.

(** * One element *)

Lemma memcpy_nothing d o src s : inside d o 0 = true -> inside src s 0 = true -> memcpy d o src s 0 = Ret d.
Proof.
  intros Hd Hs. unfold memcpy. rewrite Hd, Hs. cbn [andb]. f_equal. unfold splice, slice. cbn.
  rewrite Nat.add_0_r. apply take_drop.
Qed.

Section Element.
Context (f : __kfifo).
Hypothesis Hf : kfifo_ok f.

Lemma element_span off :
  kfifo_span f 1 off = (Z.land off (mask f) * esize f, esize f, esize f)
  /\ 0 <= Z.land off (mask f) * esize f <= ring f - esize f.
Proof using Hf.
  pose proof (cap_bounds f Hf) as [Hc _]. pose proof (ok_esize f Hf). rewrite span_eq, land_mask by (done || lia).
  rewrite <- start_of by done. pose proof (Z.mod_pos_bound off (cap f) ltac:(lia)).
  assert (off mod cap f * esize f <= ring f - esize f) by (unfold ring; nia). split; [|nia].
  f_equal; [f_equal|]; lia.
Qed.

(** Storing one value is [__kfifo_in] of one element, and reading one value is
    [__kfifo_out] of one. *)
Lemma put_in val :
  Z.of_nat (length val) = esize f -> kfifo_put f val 0 = __kfifo_in f val 1.
Proof using Hf.
  intros Hv. pose proof (ok_esize f Hf). pose proof (len_bounds f Hf). pose proof (ok_data f Hf) as Hd.
  pose proof (cap_bounds f Hf) as [Hc _].
  unfold kfifo_put, __kfifo_in, kfifo_is_full. cbn [negb Z.eqb]. rewrite unused_eq by done. unfold cap in *.
  destruct (Z.ltb_spec (mask f) (kfifo_len f)); cbn [negb].
  - replace (mask f + 1 - kfifo_len f) with 0 by lia. cbn [Z.ltb Z.compare].
    pose proof (span_eq f Hf 0 (in_ f) ltac:(unfold cap; lia)) as E. unfold kfifo_copy_in. rewrite E. cbn [Z.mul].
    pose proof (span_start f Hf (in_ f)) as Hs. rewrite Z.min_l by lia. change (w32 (0 - 0)) with 0.
    rewrite memcpy_nothing by (unfold inside; lia). cbn [res_bind]. rewrite memcpy_nothing by (unfold inside; lia).
    cbn [res_bind]. unfold set_data, set_in. cbn. rewrite Z.add_0_r, w32_small by apply (ok_in f Hf). by destruct f.
  - replace (mask f + 1 - kfifo_len f <? 1) with false by lia. unfold kfifo_copy_in.
    destruct (element_span (in_ f)) as [-> Hs]. rewrite Z.sub_diag. change (w32 0) with 0.
    set (o := Z.land (in_ f) (mask f) * esize f) in *.
    destruct (memcpy (data f) o val 0 (esize f)) as [d| |] eqn:E; cbn [res_bind]; try done.
    unfold memcpy in E. case_match; [|done]. injection E as <-. rewrite memcpy_nothing; [done| |unfold inside; lia].
    unfold inside. lia.
Qed.
Lemma get_out val :
  Z.of_nat (length val) = esize f -> kfifo_get f val 0 = __kfifo_out f val 1.
Proof using Hf.
  intros Hv. pose proof (ok_esize f Hf). pose proof (len_bounds f Hf). pose proof (ok_data f Hf) as Hd.
  pose proof (cap_bounds f Hf) as [Hc _]. pose proof (ok_in f Hf). pose proof (ok_out f Hf) as Ho.
  unfold kfifo_get, __kfifo_out, __kfifo_out_peek, kfifo_is_empty. cbn [negb Z.eqb]. fold (kfifo_len f).
  destruct (Z.eqb_spec (in_ f) (out f)) as [Eq|Hne]; cbn [negb].
  - assert (El : kfifo_len f = 0) by (unfold kfifo_len; by rewrite Eq, Z.sub_diag). rewrite El. cbn [Z.ltb Z.compare].
    pose proof (span_eq f Hf 0 (out f) ltac:(lia)) as E. unfold kfifo_copy_out. rewrite E. cbn [Z.mul].
    pose proof (span_start f Hf (out f)) as Hs. rewrite Z.min_l by lia. change (w32 (0 - 0)) with 0.
    rewrite memcpy_nothing by (unfold inside; lia). cbn [res_bind]. rewrite memcpy_nothing by (unfold inside; lia).
    cbn [res_bind]. unfold set_out. cbn. rewrite Z.add_0_r, w32_small by done. by destruct f.
  - assert (El : 1 <= kfifo_len f).
    { unfold kfifo_len, w32 in *. destruct (Z.eq_dec ((in_ f - out f) mod two32) 0) as [Ez|]; [|lia].
      apply Z.mod_divide in Ez as [q Hq]; [|done]. unfold two32 in *. nia. }
    replace (kfifo_len f <? 1) with false by lia. unfold kfifo_copy_out.
    destruct (element_span (out f)) as [-> Hs]. rewrite Z.sub_diag. change (w32 0) with 0.
    set (o := Z.land (out f) (mask f) * esize f) in *.
    destruct (memcpy val 0 (data f) o (esize f)) as [d| |] eqn:E; cbn [res_bind]; try done.
    unfold memcpy in E. case_match eqn:Ein; [|done]. injection E as <-. apply andb_true_iff in Ein as [Iv Id].
    assert (Ls : length (slice (data f) o (esize f)) = Z.to_nat (esize f)) by (by apply slice_length).
    assert (Hsl : length (splice val 0 (slice (data f) o (esize f))) = length val).
    { apply splice_length. rewrite Ls, Z2Nat.id by lia. done. }
    rewrite memcpy_nothing; [done|unfold inside; rewrite Hsl; lia|unfold inside; lia].
Qed.
End Element.
