(* ===== verification/KfifoShared.v ===== *)
(** One reader and one writer of a fifo without a lock: [__kfifo_in] and
    [__kfifo_out] of lib/kfifo.c as programs over their single accesses to the
    shared fifo, interleaved in any way.

    The shared memory is the two indices and the ring; every read or write of an index and
    every byte that [memcpy] moves is one access.  Accesses of a program take effect in
    program order, as the [smp_wmb] calls and the locked order of x86 see to; a [memcpy] goes
    from the lowest address up.  [mask], [esize] and the [data] pointer are not
    written while the fifo is in use.  The callers' buffers are private. *)

From stdpp Require Import relations.
From S2P Require Import Prelude FindBit Kfifo KfifoFacts.

(** * Programs *)

Inductive access := Rd_in | Rd_out | Ld (j : Z) | St (j v : Z) | Wr_in (v : Z) | Wr_out (v : Z).

(** The fifo after an access, and the value it gives. *)
Definition perform (a : access) (f : __kfifo) : res (__kfifo * Z) :=
  match a with
  | Rd_in => Ret (f, in_ f)
  | Rd_out => Ret (f, out f)
  | Ld j => if inside (data f) j 1 then Ret (f, byte (data f) j) else BUG
  | St j v => if inside (data f) j 1 then Ret (set_data f (splice (data f) j [v]), 0) else BUG
  | Wr_in v => Ret (set_in f v, 0)
  | Wr_out v => Ret (set_out f v, 0)
  end.

(** [Crash] is an access outside a private buffer. *)
Inductive prog (A : Type) := Done (a : A) | Crash | Act (a : access) (k : Z -> prog A).
Arguments Done {A} a.
Arguments Crash {A}.
Arguments Act {A} a k.

(** A program that runs alone. *)
Fixpoint run_alone {A} (p : prog A) (f : __kfifo) : res (__kfifo * A) :=
  match p with
  | Done a => Ret (f, a)
  | Crash => BUG
  | Act a k => let* (f', v) := perform a f in run_alone (k v) f'
  end.

Fixpoint st_bytes {A} (j : Z) (bytes : list Z) (k : prog A) : prog A :=
  match bytes with
  | [] => k
  | v :: bytes' => Act (St j v) (fun _ => st_bytes (j + 1) bytes' k)
  end.
Fixpoint ld_bytes {A} (n : nat) (j : Z) (k : list Z -> prog A) : prog A :=
  match n with
  | O => k []
  | S n' => Act (Ld j) (fun v => ld_bytes n' (j + 1) (fun vs => k (v :: vs)))
  end.

Section Programs.
(** The fifo, for its [mask] and [esize]. *)
Context (g : __kfifo).

Definition copy_in_prog {A} (src : list Z) (len off : Z) (k : prog A) : prog A :=
  let '(off, len, l) := kfifo_span g len off in
  if inside src 0 l && inside src l (w32 (len - l)) then
    st_bytes off (slice src 0 l) (st_bytes 0 (slice src l (w32 (len - l))) k)
  else Crash.
Definition in_prog (buf : list Z) (len : Z) : prog Z :=
  Act Rd_in (fun i => Act Rd_out (fun o =>
    let l := w32 (w32 (mask g + 1) - w32 (i - o)) in
    let len := if l <? len then l else len in
    Act Rd_in (fun i => copy_in_prog buf len i
      (Act Rd_in (fun i => Act (Wr_in (w32 (i + len))) (fun _ => Done len)))))).

Definition copy_out_prog {A} (dst : list Z) (len off : Z) (k : list Z -> prog A) : prog A :=
  let '(off, len, l) := kfifo_span g len off in
  if inside dst 0 l && inside dst l (w32 (len - l)) then
    ld_bytes (Z.to_nat l) off (fun b1 => ld_bytes (Z.to_nat (w32 (len - l))) 0 (fun b2 => k (splice (splice dst 0 b1) l b2)))
  else Crash.
Definition out_prog (buf : list Z) (len : Z) : prog (list Z * Z) :=
  Act Rd_in (fun i => Act Rd_out (fun o =>
    let l := w32 (i - o) in
    let len := if l <? len then l else len in
    Act Rd_out (fun o => copy_out_prog buf len o (fun buf =>
      Act Rd_out (fun o => Act (Wr_out (w32 (o + len))) (fun _ => Done (buf, len))))))).
End Programs.

(** * Interleaving *)

(** The fifo, what is left of the calls the writer and the reader are in, and the bytes that
    completed calls have put in and taken out. *)
Record shared := mkShared {
  fifo : __kfifo;
  writer : option (list Z * prog Z);
  reader : option (prog (list Z * Z));
  sent : list Z;
  received : list Z;
}.

(** A call ends with its last access. *)
Inductive shared_step (g : __kfifo) : shared -> shared -> Prop :=
  | write_call f r s q buf len :
      0 <= len < two32 -> len * esize g <= Z.of_nat (length buf) ->
      shared_step g (mkShared f None r s q) (mkShared f (Some (buf, in_prog g buf len)) r s q)
  | write_access f buf a k r s q f' v :
      perform a f = Ret (f', v) -> (forall n, k v <> Done n) ->
      shared_step g (mkShared f (Some (buf, Act a k)) r s q) (mkShared f' (Some (buf, k v)) r s q)
  | write_last f buf a k r s q f' v n :
      perform a f = Ret (f', v) -> k v = Done n ->
      shared_step g (mkShared f (Some (buf, Act a k)) r s q)
        (mkShared f' None r (s ++ take (Z.to_nat (n * esize g)) buf) q)
  | read_call f w s q buf len :
      0 <= len < two32 -> len * esize g <= Z.of_nat (length buf) ->
      shared_step g (mkShared f w None s q) (mkShared f w (Some (out_prog g buf len)) s q)
  | read_access f w a k s q f' v :
      perform a f = Ret (f', v) -> (forall x, k v <> Done x) ->
      shared_step g (mkShared f w (Some (Act a k)) s q) (mkShared f' w (Some (k v)) s q)
  | read_last f w a k s q f' v buf n :
      perform a f = Ret (f', v) -> k v = Done (buf, n) ->
      shared_step g (mkShared f w (Some (Act a k)) s q)
        (mkShared f' w None s (q ++ take (Z.to_nat (n * esize g)) buf)).

(** A call that is under way can take its next step. *)
Definition can_go {A} (p : prog A) (f : __kfifo) : Prop := exists a k x, p = Act a k /\ perform a f = Ret x.

(** * Alone, the programs are the functions *)

Lemma splice_cons d j v b :
  inside d j (Z.of_nat (length (v :: b))) = true -> splice (splice d j [v]) (j + 1) b = splice d j (v :: b).
Proof.
  unfold inside. cbn [length]. intros H.
  assert (L1 : length (splice d j [v]) = length d) by (apply splice_length; unfold inside; cbn; lia).
  assert (I1 : inside d j (Z.of_nat (length [v])) = true) by (unfold inside; cbn; lia).
  assert (I2 : inside (splice d j [v]) (j + 1) (Z.of_nat (length b)) = true) by (unfold inside; rewrite L1; lia).
  assert (I3 : inside d j (Z.of_nat (length (v :: b))) = true) by (unfold inside; cbn [length]; lia).
  apply byte_ext; [rewrite !splice_length by done; done|]. rewrite splice_length, L1 by done. intros x Hx.
  rewrite !splice_byte by (done || lia). cbn [length].
  destruct (Z.eq_dec x j) as [->|Hne].
  - repeat match goal with |- context [if ?b then _ else _] => destruct b eqn:? end; try lia. by replace (j - j) with 0 by lia.
  - repeat match goal with |- context [if ?b then _ else _] => destruct b eqn:? end; try done; try lia.
    unfold byte. replace (Z.to_nat (x - j)) with (S (Z.to_nat (x - (j + 1)))) by lia. done.
Qed.

Lemma st_bytes_alone {A} (k : prog A) : forall bytes j f,
  inside (data f) j (Z.of_nat (length bytes)) = true ->
  run_alone (st_bytes j bytes k) f = run_alone k (set_data f (splice (data f) j bytes)).
Proof.
  induction bytes as [|v bytes IH]; intros j f Hj; cbn [st_bytes].
  { rewrite splice_nil. by destruct f. }
  cbn [run_alone perform]. assert (I1 : inside (data f) j 1 = true) by (unfold inside in *; cbn [length] in Hj; lia).
  rewrite I1. cbn [res_bind]. rewrite IH; cbn [data set_data].
  - by rewrite splice_cons.
  - unfold inside in *. cbn [length] in Hj. rewrite splice_length by (cbn; unfold inside; lia). lia.
Qed.
Lemma ld_bytes_alone {A} f : forall n j (k : list Z -> prog A),
  inside (data f) j (Z.of_nat n) = true ->
  run_alone (ld_bytes n j k) f = run_alone (k (slice (data f) j (Z.of_nat n))) f.
Proof.
  induction n as [|n IH]; intros j k Hj; cbn [ld_bytes]; [done|].
  assert (I1 : inside (data f) j 1 = true) by (unfold inside in *; lia).
  cbn [run_alone perform]. rewrite I1. cbn [res_bind]. rewrite IH by (unfold inside in *; lia). do 2 f_equal.
  unfold slice, inside in *. rewrite !Nat2Z.id. rewrite (drop_S (data f) (byte (data f) j) (Z.to_nat j)) by (apply byte_lookup; lia).
  by replace (Z.to_nat (j + 1)) with (S (Z.to_nat j)) by lia.
Qed.

Lemma memcpy_Ret dst doff src soff n d : memcpy dst doff src soff n = Ret d ->
  inside dst doff n = true /\ inside src soff n = true /\ d = splice dst doff (slice src soff n).
Proof. unfold memcpy. destruct (inside dst doff n), (inside src soff n); try done. intros [= <-]. done. Qed.
Lemma inside_slice dst doff src soff n :
  inside dst doff n = true -> inside src soff n = true -> inside dst doff (Z.of_nat (length (slice src soff n))) = true.
Proof. intros H1 H2. rewrite slice_length by done. unfold inside in *. lia. Qed.

Lemma in_prog_alone f buf len x : __kfifo_in f buf len = Ret x -> run_alone (in_prog f buf len) f = Ret x.
Proof.
  unfold __kfifo_in, in_prog, kfifo_unused. cbn [run_alone perform res_bind]. set (n := if _ <? _ then _ else _).
  unfold kfifo_copy_in, copy_in_prog. destruct (kfifo_span f n (in_ f)) as [[off l0] l]. intros H.
  apply res_bind_Ret in H as (f1&H&[= <-]). apply res_bind_Ret in H as (d1&E1&H). apply res_bind_Ret in H as (d2&E2&[= <-]).
  apply memcpy_Ret in E1 as (A1&B1&->). apply memcpy_Ret in E2 as (A2&B2&->). rewrite B1, B2. cbn [andb].
  rewrite st_bytes_alone by by apply inside_slice. rewrite st_bytes_alone by (cbn; by apply inside_slice). done.
Qed.
Lemma out_prog_alone f buf len f' buf' n :
  __kfifo_out f buf len = Ret (f', buf', n) -> run_alone (out_prog f buf len) f = Ret (f', (buf', n)).
Proof.
  unfold __kfifo_out, __kfifo_out_peek, out_prog. cbn [run_alone perform res_bind]. set (m := if _ <? _ then _ else _).
  unfold kfifo_copy_out, copy_out_prog. destruct (kfifo_span f m (out f)) as [[off l0] l]. intros H.
  apply res_bind_Ret in H as ([b1 m1]&H&[= <- <- <-]). apply res_bind_Ret in H as (b2&H&[= <- <-]).
  apply res_bind_Ret in H as (d1&E1&E2). apply memcpy_Ret in E1 as (A1&B1&->). apply memcpy_Ret in E2 as (A2&B2&->).
  assert (0 <= l) by (unfold inside in A1; lia). pose proof (w32_range (l0 - l)).
  rewrite A1. cbn [andb]. replace (inside buf l (w32 (l0 - l))) with true.
  2: { unfold inside in *. rewrite splice_length in A2 by (rewrite slice_length by done; unfold inside; lia). lia. }
  rewrite ld_bytes_alone by (unfold inside in *; lia). rewrite ld_bytes_alone by (unfold inside in *; lia).
  rewrite !Z2Nat.id by lia. done.
Qed.

(** * What each side relies on *)

(** While the writer is between two accesses, the reader only moves [out] forward... *)
Definition rely_w (f f' : __kfifo) : Prop :=
  in_ f' = in_ f /\ mask f' = mask f /\ esize f' = esize f /\ data f' = data f /\ kfifo_ok f' /\ kfifo_len f' <= kfifo_len f.
(** ... and for the reader, the writer only adds to the contents. *)
Definition rely_r (f f' : __kfifo) : Prop :=
  out f' = out f /\ mask f' = mask f /\ esize f' = esize f /\ kfifo_ok f' /\ contents f `prefix_of` contents f'.

Lemma rely_w_refl f : kfifo_ok f -> rely_w f f.
Proof. intros. unfold rely_w. split_and!; (done || lia). Qed.
Lemma rely_w_trans f1 f2 f3 : rely_w f1 f2 -> rely_w f2 f3 -> rely_w f1 f3.
Proof. intros (?&?&?&?&?&?) (?&?&?&?&?&?). unfold rely_w. split_and!; (congruence || done || lia). Qed.
Lemma rely_r_refl f : kfifo_ok f -> rely_r f f.
Proof. intros. unfold rely_r. split_and!; done. Qed.
Lemma rely_r_trans f1 f2 f3 : rely_r f1 f2 -> rely_r f2 f3 -> rely_r f1 f3.
Proof. intros (?&?&?&?&?) (?&?&?&?&?). unfold rely_r. split_and!; try (congruence || done). by etrans. Qed.

(** An access of the writer that is not its last leaves what the fifo holds alone; the last
    one adds the first [n] elements of [buf]. *)
Definition kept (f f' : __kfifo) : Prop :=
  in_ f' = in_ f /\ out f' = out f /\ mask f' = mask f /\ esize f' = esize f /\ kfifo_ok f' /\ contents f' = contents f.
Definition pushed (buf : list Z) (n : Z) (f f' : __kfifo) : Prop :=
  out f' = out f /\ mask f' = mask f /\ esize f' = esize f /\ kfifo_ok f'
  /\ contents f' = contents f ++ take (Z.to_nat (n * esize f)) buf.
(** The last access of the reader takes [n] elements, which are in its buffer. *)
Definition popped (buf : list Z) (n : Z) (f f' : __kfifo) : Prop :=
  rely_w f f' /\ contents f = take (Z.to_nat (n * esize f)) buf ++ contents f'.

(** The writer goes on without a fault and keeps to this, whatever the reader does. *)
Fixpoint w_safe (buf : list Z) (p : prog Z) (f : __kfifo) : Prop :=
  match p with
  | Done _ | Crash => False
  | Act a k => forall f1, rely_w f f1 -> exists f2 v, perform a f1 = Ret (f2, v) /\
      match k v with Done n => pushed buf n f1 f2 | _ => kept f1 f2 /\ w_safe buf (k v) f2 end
  end.
(** The same for the reader, whose other accesses do not change the fifo. *)
Fixpoint r_safe (p : prog (list Z * Z)) (f : __kfifo) : Prop :=
  match p with
  | Done _ | Crash => False
  | Act a k => forall f1, rely_r f f1 -> exists f2 v, perform a f1 = Ret (f2, v) /\
      match k v with Done (buf, n) => popped buf n f1 f2 | _ => f2 = f1 /\ r_safe (k v) f2 end
  end.

Lemma w_safe_rely buf p f f' : w_safe buf p f -> rely_w f f' -> w_safe buf p f'.
Proof. destruct p; [done..|]. intros H Hr f1 Hr1. apply H. by eapply rely_w_trans. Qed.
Lemma r_safe_rely p f f' : r_safe p f -> rely_r f f' -> r_safe p f'.
Proof. destruct p; [done..|]. intros H Hr f1 Hr1. apply H. by eapply rely_r_trans. Qed.

Lemma kept_rely f f' : kept f f' -> rely_r f f'.
Proof. intros (?&?&?&?&?&E). unfold rely_r. rewrite E. done. Qed.
Lemma pushed_rely buf n f f' : pushed buf n f f' -> rely_r f f'.
Proof. intros (?&?&?&?&E). unfold rely_r. rewrite E. split_and!; try done. by apply prefix_app_r. Qed.

(** One more access. *)
Lemma w_act buf a k f :
  (forall f1, rely_w f f1 -> exists f2 v, perform a f1 = Ret (f2, v) /\ kept f1 f2 /\ w_safe buf (k v) f2) -> w_safe buf (Act a k) f.
Proof.
  intros H f1 Hr. destruct (H f1 Hr) as (f2&v&E&Hk&Hs). exists f2, v. split; [done|]. by destruct (k v).
Qed.
Lemma r_act a k f :
  (forall f1, rely_r f f1 -> exists v, perform a f1 = Ret (f1, v) /\ r_safe (k v) f1) -> r_safe (Act a k) f.
Proof. intros H f1 Hr. destruct (H f1 Hr) as (v&E&Hs). exists f1, v. split; [done|]. by destruct (k v). Qed.
Lemma kept_self f : kfifo_ok f -> kept f f.
Proof. intros. unfold kept. by split_and!. Qed.

(** * The writer *)

Section Writer.
Context (g : __kfifo) (buf : list Z).

(** What the writer knows: [in] and the ring, and that at most [l] elements are in use. *)
Record w_now (i : Z) (d : list Z) (l : Z) (f : __kfifo) : Prop := {
  now_in : in_ f = i;
  now_mask : mask f = mask g;
  now_esize : esize f = esize g;
  now_data : data f = d;
  now_ok : kfifo_ok f;
  now_len : kfifo_len f <= l;
}.
Lemma w_now_rely i d l f f' : w_now i d l f -> rely_w f f' -> w_now i d l f'.
Proof. intros [] (?&?&?&?&?&?). split; (congruence || done || lia). Qed.
Lemma now_ring i d l f : w_now i d l f -> ring f = ring g /\ cap f = cap g.
Proof. intros []. unfold ring, cap. split; congruence. Qed.

(** A byte outside the contents. *)
Lemma st_free i d l f q v :
  w_now i d l f -> 0 <= q < ring g -> (q - (i * esize g) mod ring g) mod ring g < (cap g - l) * esize g ->
  exists f', perform (St q v) f = Ret (f', 0) /\ kept f f' /\ w_now i (splice d q [v]) l f'.
Proof.
  intros Hn Hq Hfree. destruct (now_ring _ _ _ _ Hn) as [Er Ec]. destruct Hn as [Ei Em Ee Ed Hf Hl].
  pose proof (ok_data f Hf) as Hd. pose proof (ok_esize f Hf) as He. pose proof (len_bounds f Hf).
  assert (I1 : inside (data f) q (Z.of_nat (length [v])) = true) by (unfold inside; cbn; lia).
  assert (L1 : length (splice (data f) q [v]) = length (data f)) by by apply splice_length.
  cbn [perform]. change (Z.of_nat (length [v])) with 1 in I1. rewrite I1. eexists. split; [done|]. subst i d.
  assert (Hf' : kfifo_ok (set_data f (splice (data f) q [v]))).
  { destruct Hf. split; try done. cbn. by rewrite L1. }
  split; [|by split].
  unfold kept. split_and!; try done. pose proof (contents_length _ Hf) as C1. pose proof (contents_length _ Hf') as C2.
  change (kfifo_len (set_data f _)) with (kfifo_len f) in C2. cbn [esize set_data] in C2.
  apply byte_ext; [lia|]. intros j Hj. rewrite C2 in Hj. rewrite !contents_byte by done. cbn [data out esize set_data].
  change (ring (set_data f _)) with (ring f). assert (HB : 0 < ring f) by lia.
  pose proof (Z.mod_pos_bound (out f * esize f + j) (ring f) HB) as Hm. rewrite splice_byte by (cbn; done || lia). cbn [length].
  destruct (_ && _) eqn:E; [|done]. exfalso.
  assert (Eq : q = (out f * esize f + j) mod ring f) by lia.
  rewrite <- Er, <- Ec, <- Ee, in_start, Eq, <- Zminus_mod in Hfree by done.
  replace (out f * esize f + j - (out f + kfifo_len f) * esize f) with (j - kfifo_len f * esize f) in Hfree by lia.
  assert (kfifo_len f * esize f <= ring f) by (unfold ring; nia).
  rewrite <- (Z.mod_add _ 1) in Hfree by lia. rewrite Z.mod_small in Hfree by lia.
  unfold ring in Hfree. nia.
Qed.

Lemma w_safe_st i l k : forall bytes j d f,
  0 <= j -> j + Z.of_nat (length bytes) <= ring g ->
  (forall q, j <= q < j + Z.of_nat (length bytes) -> (q - (i * esize g) mod ring g) mod ring g < (cap g - l) * esize g) ->
  (forall f', w_now i (splice d j bytes) l f' -> w_safe buf k f') ->
  w_now i d l f -> w_safe buf (st_bytes j bytes k) f.
Proof.
  induction bytes as [|v bytes IH]; intros j d f Hj He Hfree Hk Hn; cbn [st_bytes].
  { apply Hk. by rewrite splice_nil. }
  cbn [length] in *. apply w_act. intros f1 Hr. pose proof (w_now_rely _ _ _ _ _ Hn Hr) as Hn1.
  destruct (st_free i d l f1 j v Hn1) as (f2&E&Hkept&Hn2); [lia|apply Hfree; lia|].
  exists f2, 0. split_and!; [done|done|]. apply (IH (j + 1) (splice d j [v])); [lia|lia|intros q Hq; apply Hfree; lia| |done].
  rewrite splice_cons; [done|]. destruct (now_ring _ _ _ _ Hn) as [Er _]. pose proof (ok_data f (now_ok _ _ _ _ Hn)) as Hd.
  rewrite (now_data _ _ _ _ Hn) in Hd. unfold inside. cbn [length]. lia.
Qed.

Lemma written_again d src o n d' : written d src o n d' -> written d' src o n d'.
Proof.
  intros [L W]. split; [done|]. rewrite L. intros j Hj. destruct (Z.ltb_spec ((j - o) mod Z.of_nat (length d)) n) as [Hlt|]; [|done].
  rewrite W by done. apply Z.ltb_lt in Hlt. by rewrite Hlt.
Qed.

(** Publishing what has been copied. *)
Lemma publish_safe i l d n f :
  0 <= n <= cap g - l -> n * esize g <= Z.of_nat (length buf) ->
  written d (take (Z.to_nat (n * esize g)) buf) ((i * esize g) mod ring g) (n * esize g) d ->
  w_now i d l f -> w_safe buf (Act Rd_in (fun i => Act (Wr_in (w32 (i + n))) (fun _ => Done n))) f.
Proof.
  intros Hn Hb Hw Hnow. apply w_act. intros f1 Hr. pose proof (w_now_rely _ _ _ _ _ Hnow Hr) as Hn1.
  exists f1, (in_ f1). split; [done|]. split; [apply kept_self, Hn1|]. cbn [w_safe]. intros f2 Hr2.
  pose proof (w_now_rely _ _ _ _ _ Hn1 Hr2) as Hn2. eexists _, 0. split; [done|].
  destruct (now_ring _ _ _ _ Hn2) as [Er Ec]. destruct Hn2 as [Ei Em Ee Ed Hf Hl]. rewrite (now_in _ _ _ _ Hn1).
  rewrite <- Er, <- Ee, <- Ei, <- Ed in Hw. pose proof (ok_esize f2 Hf).
  destruct (push_spec f2 (take (Z.to_nat (n * esize f2)) buf) n (data f2)) as (H1&H2&_);
    [done|rewrite Ec; lia|rewrite length_take, Ee; rewrite Ee in *; nia|done|].
  rewrite <- Ei. by unfold pushed.
Qed.

Lemma span_g f len off : mask f = mask g -> esize f = esize g -> kfifo_span g len off = kfifo_span f len off.
Proof. intros Em Ee. unfold kfifo_span. by rewrite Em, Ee. Qed.

Lemma copy_in_safe f n :
  mask f = mask g -> esize f = esize g -> kfifo_ok f -> 0 <= n <= cap g - kfifo_len f -> n * esize g <= Z.of_nat (length buf) ->
  w_safe buf (copy_in_prog g buf n (in_ f) (Act Rd_in (fun i => Act (Wr_in (w32 (i + n))) (fun _ => Done n)))) f.
Proof.
  intros Em Ee Hf Hn Hb. assert (Hnow : w_now (in_ f) (data f) (kfifo_len f) f) by (split; (done || lia)).
  destruct (now_ring _ _ _ _ Hnow) as [Er Ec]. pose proof (ok_esize f Hf) as He. pose proof (len_bounds f Hf) as Hlen.
  pose proof (span_start f Hf (in_ f)) as Ho. pose proof (ok_ring f Hf). pose proof (ok_data f Hf) as Hd.
  unfold copy_in_prog. rewrite (span_g f) by done. rewrite span_eq by (done || lia).
  rewrite Er, Ee in *. set (o := (in_ f * esize g) mod ring g) in *. set (N := n * esize g) in *.
  assert (HN : 0 <= N <= (cap g - kfifo_len f) * esize g) by (unfold N; nia).
  assert (HR : (cap g - kfifo_len f) * esize g <= ring g) by (unfold ring; nia). set (L := Z.min N (ring g - o)).
  rewrite (w32_small (N - L)) by (unfold two32 in *; lia).
  assert (I1 : inside buf 0 L = true) by (unfold inside; lia). assert (I2 : inside buf L (N - L) = true) by (unfold inside; lia).
  pose proof (slice_length buf 0 L I1) as L1. pose proof (slice_length buf L (N - L) I2) as L2. rewrite I1, I2. cbn [andb].
  apply (w_safe_st (in_ f) (kfifo_len f) _ (slice buf 0 L) o (data f)); [lia|rewrite L1; lia| | |done].
  { intros q Hq. rewrite L1 in Hq. fold o. rewrite Z.mod_small by lia. lia. }
  intros f1 Hn1. apply (w_safe_st (in_ f) (kfifo_len f) _ _ 0 (splice (data f) o (slice buf 0 L))); [lia|rewrite L2; lia| | |done].
  { intros q Hq. rewrite L2 in Hq. fold o. rewrite <- (Z.mod_add _ 1) by lia. rewrite Z.mod_small by lia. lia. }
  intros f2 Hn2. eapply publish_safe; [|done| |done]; [lia|]. fold o N.
  rewrite <- (slice_whole buf L N) by lia. eapply written_again, write_around; [done|lia|lia|done|lia|lia].
Qed.

Lemma in_prog_safe f len :
  mask f = mask g -> esize f = esize g -> kfifo_ok f -> 0 <= len < two32 -> len * esize g <= Z.of_nat (length buf) ->
  w_safe buf (in_prog g buf len) f.
Proof.
  intros Em Ee Hf Hlen Hb. apply w_act. intros f1 Hr1. exists f1, (in_ f1). split; [done|].
  pose proof Hr1 as (_&Em1&Ee1&_&Hf1&_). split; [by apply kept_self|]. apply w_act. intros f2 Hr2. exists f2, (out f2).
  split; [done|]. pose proof Hr2 as (Ei2&Em2&Ee2&_&Hf2&_). split; [by apply kept_self|]. cbv zeta. rewrite <- Ei2.
  replace (mask g) with (mask f2) by congruence. change (w32 (w32 (mask f2 + 1) - w32 (in_ f2 - out f2))) with (kfifo_unused f2).
  rewrite unused_eq by done. apply w_act. intros f3 Hr3. exists f3, (in_ f3). split; [done|].
  pose proof Hr3 as (_&Em3&Ee3&_&Hf3&Hl3). split; [by apply kept_self|]. pose proof (len_bounds f2 Hf2). pose proof (ok_esize f Hf).
  assert (Ec : cap f2 = cap g) by (unfold cap; congruence). rewrite Ec.
  apply copy_in_safe; try congruence; [case_cmp; lia|]. rewrite Ee in *. case_cmp; nia.
Qed.
End Writer.

(** * The reader *)

Lemma byte_prefix c c' x : c `prefix_of` c' -> 0 <= x < Z.of_nat (length c) -> byte c' x = byte c x.
Proof. intros [c2 ->] Hx. rewrite byte_app by lia. case_cmp; [done|lia]. Qed.
Lemma slice_cons c x n :
  0 <= x -> 0 <= n -> x + n + 1 <= Z.of_nat (length c) -> slice c x (n + 1) = byte c x :: slice c (x + 1) n.
Proof.
  intros Hx Hn Hl. unfold slice. rewrite (drop_S c (byte c x) (Z.to_nat x)) by (apply byte_lookup; lia).
  replace (Z.to_nat (n + 1)) with (S (Z.to_nat n)) by lia. replace (Z.to_nat (x + 1)) with (S (Z.to_nat x)) by lia. done.
Qed.

Lemma splice_after buf b1 b2 L :
  Z.to_nat L = length b1 -> splice (splice buf 0 b1) L b2 = (b1 ++ b2) ++ drop (length b1 + length b2) (b1 ++ drop (length b1) buf).
Proof.
  intros E. assert (Es : splice buf 0 b1 = b1 ++ drop (length b1) buf) by done. rewrite Es. unfold splice.
  rewrite E, take_app_length, <- app_assoc. done.
Qed.

Section Reader.
Context (g : __kfifo).

(** What the reader knows: [out], and the contents it saw, which are still the first ones. *)
Record r_now (o : Z) (c : list Z) (f : __kfifo) : Prop := {
  see_out : out f = o;
  see_mask : mask f = mask g;
  see_esize : esize f = esize g;
  see_ok : kfifo_ok f;
  see_contents : c `prefix_of` contents f;
}.
Lemma r_now_rely o c f f' : r_now o c f -> rely_r f f' -> r_now o c f'.
Proof. intros [] (?&?&?&?&?). split; try congruence; try done. by etrans. Qed.

Lemma ld_contents o c f j x :
  r_now o c f -> 0 <= x < Z.of_nat (length c) -> j = (o * esize g + x) mod ring g ->
  perform (Ld j) f = Ret (f, byte c x).
Proof.
  intros [Eo Em Ee Hf Hp] Hx Hj. assert (Er : ring f = ring g) by (unfold ring, cap; congruence).
  pose proof (cap_bounds f Hf). pose proof (ok_data f Hf). pose proof (contents_length f Hf) as C1.
  pose proof (prefix_length _ _ Hp). pose proof (Z.mod_pos_bound (o * esize g + x) (ring g) ltac:(lia)).
  cbn [perform]. replace (inside (data f) j 1) with true by (unfold inside; lia).
  rewrite <- (byte_prefix c (contents f)) by done. rewrite contents_byte by (done || lia). congruence.
Qed.

Lemma r_safe_ld o c : forall cnt j x k f,
  0 <= x -> x + Z.of_nat cnt <= Z.of_nat (length c) ->
  (forall y, 0 <= y < Z.of_nat cnt -> j + y = (o * esize g + (x + y)) mod ring g) ->
  (forall f', r_now o c f' -> r_safe (k (slice c x (Z.of_nat cnt))) f') ->
  r_now o c f -> r_safe (ld_bytes cnt j k) f.
Proof.
  induction cnt as [|cnt IH]; intros j x k f Hx Hl Hj Hk Hn; cbn [ld_bytes]; [by apply Hk|].
  apply r_act. intros f1 Hr. pose proof (r_now_rely _ _ _ _ Hn Hr) as Hn1. exists (byte c x).
  split; [apply (ld_contents o); [done|lia|]; specialize (Hj 0 ltac:(lia)); rewrite !Z.add_0_r in Hj; done|].
  apply (IH (j + 1) (x + 1)); [lia|lia| | |done].
  - intros y Hy. specialize (Hj (y + 1) ltac:(lia)). replace (x + 1 + y) with (x + (y + 1)) by lia. lia.
  - intros f' Hf'. rewrite <- slice_cons by lia. replace (Z.of_nat cnt + 1) with (Z.of_nat (S cnt)) by lia. by apply Hk.
Qed.

(** Giving the elements back to the writer. *)
Lemma consume_safe o c n buf f :
  0 <= n -> n * esize g <= Z.of_nat (length c) -> take (Z.to_nat (n * esize g)) buf = take (Z.to_nat (n * esize g)) c ->
  r_now o c f -> r_safe (Act Rd_out (fun o => Act (Wr_out (w32 (o + n))) (fun _ => Done (buf, n)))) f.
Proof.
  intros Hn Hl Hb Hnow. apply r_act. intros f1 Hr. pose proof (r_now_rely _ _ _ _ Hnow Hr) as Hn1.
  exists (out f1). split; [done|]. cbn [r_safe]. intros f2 Hr2. pose proof (r_now_rely _ _ _ _ Hn1 Hr2) as [Eo Em Ee Hf Hp].
  eexists _, 0. split; [done|]. rewrite (see_out _ _ _ Hn1), <- Eo. pose proof (ok_esize f2 Hf) as He.
  pose proof (contents_length f2 Hf) as C1. pose proof (prefix_length _ _ Hp) as Hpl. rewrite <- Ee in *.
  destruct (pop_spec f2 n Hf) as (H1&H2&H3); [nia|]. split.
  - unfold rely_w. split_and!; try done. lia.
  - rewrite H2, Hb. destruct Hp as [c2 Ec]. rewrite Ec.
    replace (take _ c) with (take (Z.to_nat (n * esize f2)) (c ++ c2)) by (apply take_app_le; lia). by rewrite take_drop.
Qed.

Lemma copy_out_safe f buf c n :
  r_now (out f) c f -> 0 <= n <= cap g -> n * esize g <= Z.of_nat (length c) -> n * esize g <= Z.of_nat (length buf) ->
  r_safe (copy_out_prog g buf n (out f) (fun buf => Act Rd_out (fun o => Act (Wr_out (w32 (o + n))) (fun _ => Done (buf, n))))) f.
Proof.
  intros Hnow Hn Hc Hb. pose proof Hnow as [_ Em Ee Hf Hp]. assert (Er : ring f = ring g) by (unfold ring, cap; congruence).
  assert (Ec : cap f = cap g) by (unfold cap; congruence).
  pose proof (ok_esize f Hf) as He. pose proof (span_start f Hf (out f)) as Ho. pose proof (ok_ring f Hf).
  unfold copy_out_prog. rewrite (span_g g f) by done. rewrite span_eq by (done || lia).
  rewrite Er, Ee in *. set (o := (out f * esize g) mod ring g) in *. set (N := n * esize g) in *.
  assert (HN : 0 <= N <= ring g) by (unfold N, ring; nia). set (L := Z.min N (ring g - o)).
  rewrite (w32_small (N - L)) by (unfold two32 in *; lia).
  assert (I1 : inside buf 0 L = true) by (unfold inside; lia). assert (I2 : inside buf L (N - L) = true) by (unfold inside; lia).
  rewrite I1, I2. cbn [andb].
  apply (r_safe_ld (out f) c _ o 0); [lia|lia| | |done].
  { intros y Hy. rewrite <- Zplus_mod_idemp_l. fold o. rewrite Z.mod_small by lia. lia. }
  intros f1 Hn1. apply (r_safe_ld (out f) c _ 0 L); [lia|lia| | |done].
  { intros y Hy. rewrite <- Zplus_mod_idemp_l. fold o. apply (Z.mod_unique_pos _ _ 1); lia. }
  intros f2 Hn2. rewrite !Z2Nat.id by lia. apply (consume_safe (out f) c); [lia|done| |done]. fold N.
  assert (J1 : inside c 0 L = true) by (unfold inside; lia). assert (J2 : inside c L (N - L) = true) by (unfold inside; lia).
  pose proof (slice_length c 0 L J1) as L1. pose proof (slice_length c L (N - L) J2) as L2.
  rewrite <- (slice_whole c L N), (splice_after buf (slice c 0 L)) by lia.
  rewrite take_app_le by (rewrite length_app; lia). apply take_ge. rewrite length_app. lia.
Qed.

Lemma out_prog_safe f buf len :
  mask f = mask g -> esize f = esize g -> kfifo_ok f -> 0 <= len < two32 -> len * esize g <= Z.of_nat (length buf) ->
  r_safe (out_prog g buf len) f.
Proof.
  intros Em Ee Hf Hlen Hb. apply r_act. intros f1 Hr1. exists (in_ f1). split; [done|]. pose proof Hr1 as (_&Em1&Ee1&Hf1&_).
  assert (Hn1 : r_now (out f1) (contents f1) f1) by (split; (congruence || done)).
  apply r_act. intros f2 Hr2. exists (out f2). split; [done|]. pose proof (r_now_rely _ _ _ _ Hn1 Hr2) as Hn2. cbv zeta.
  rewrite (see_out _ _ _ Hn2). change (w32 (in_ f1 - out f1)) with (kfifo_len f1). pose proof (len_bounds f1 Hf1) as Hl1.
  pose proof (contents_length f1 Hf1) as C1. pose proof (ok_esize f1 Hf1) as He1.
  assert (Ec : cap f1 = cap g) by (unfold cap; congruence). assert (Ee1' : esize f1 = esize g) by congruence. rewrite Ee1' in *.
  apply r_act. intros f3 Hr3. exists (out f3). split; [done|]. pose proof (r_now_rely _ _ _ _ Hn2 Hr3) as Hn3.
  apply (copy_out_safe f3 buf (contents f1)); [|case_cmp; lia|case_cmp; nia|case_cmp; nia].
  rewrite (see_out _ _ _ Hn3). done.
Qed.
End Reader.

(** * Both *)

Record shared_ok (g : __kfifo) (s : shared) : Prop := {
  sh_fifo : kfifo_ok (fifo s) /\ mask (fifo s) = mask g /\ esize (fifo s) = esize g;
  sh_log : sent s = received s ++ contents (fifo s);
  sh_writer buf p : writer s = Some (buf, p) -> w_safe buf p (fifo s);
  sh_reader p : reader s = Some p -> r_safe p (fifo s);
}.

(** The fifo changes under the other side. *)
Lemma writer_stays f f' w buf p :
  rely_w f f' -> w = Some (buf, p) -> (w = Some (buf, p) -> w_safe buf p f) -> w_safe buf p f'.
Proof. intros Hr E H. eapply w_safe_rely; [by apply H|done]. Qed.
Lemma reader_stays f f' r p : rely_r f f' -> r = Some p -> (r = Some p -> r_safe p f) -> r_safe p f'.
Proof. intros Hr E H. eapply r_safe_rely; [by apply H|done]. Qed.

Lemma shared_step_ok g s s' : shared_step g s s' -> shared_ok g s -> shared_ok g s'.
Proof.
  intros Hs [(Hf&Em&Ee) Hlog Hw Hr]. destruct Hs as [f r s q buf len Hl Hb|f buf a k r s q f' v E Hk|f buf a k r s q f' v n E Hk
    |f w s q buf len Hl Hb|f w a k s q f' v E Hk|f w a k s q f' v buf n E Hk]; cbn [fifo writer reader sent received] in *.
  - split; cbn; try done. intros b p [= <- <-]. by apply in_prog_safe.
  - destruct (Hw buf _ eq_refl f (rely_w_refl f Hf)) as (f2&v2&E2&H2). rewrite E in E2. injection E2 as <- <-.
    assert (kept f f' /\ w_safe buf (k v) f') as [Hkept Hs] by (by destruct (k v); [destruct (Hk a0)|..]).
    pose proof Hkept as (_&_&Em'&Ee'&Hf'&Ec). split; cbn; [split_and!; congruence|congruence|by intros ? ? [= <- <-]|].
    intros p Ep. eapply reader_stays; [by apply kept_rely|done|apply Hr].
  - destruct (Hw buf _ eq_refl f (rely_w_refl f Hf)) as (f2&v2&E2&H2). rewrite E in E2. injection E2 as <- <-. rewrite Hk in H2.
    pose proof H2 as (_&Em'&Ee'&Hf'&Ec). split; cbn; [split_and!; congruence| |done|].
    + rewrite Ec, Hlog, Ee, app_assoc. done.
    + intros p Ep. eapply reader_stays; [by eapply pushed_rely|done|apply Hr].
  - split; cbn; try done. intros p [= <-]. by apply out_prog_safe.
  - destruct (Hr _ eq_refl f (rely_r_refl f Hf)) as (f2&v2&E2&H2). rewrite E in E2. injection E2 as <- <-.
    assert (f' = f /\ r_safe (k v) f') as [-> Hs] by (by destruct (k v); [destruct (Hk a0)|..]).
    split; cbn; try done. by intros ? [= <-].
  - destruct (Hr _ eq_refl f (rely_r_refl f Hf)) as (f2&v2&E2&H2). rewrite E in E2. injection E2 as <- <-. rewrite Hk in H2.
    destruct H2 as [Hrel Ec]. pose proof Hrel as (_&Em'&Ee'&_&Hf'&_). split; cbn; [split_and!; congruence| | |done].
    + rewrite Hlog, Ec, Ee, app_assoc. done.
    + intros b p Ep. eapply writer_stays; [done|done|apply Hw].
Qed.

Lemma shared_goes g s :
  shared_ok g s ->
  (forall buf p, writer s = Some (buf, p) -> can_go p (fifo s)) /\ (forall p, reader s = Some p -> can_go p (fifo s)).
Proof.
  intros [(Hf&_&_) _ Hw Hr]. split.
  - intros buf p Ep. specialize (Hw buf p Ep). destruct p as [| |a k]; [done..|].
    destruct (Hw (fifo s) (rely_w_refl _ Hf)) as (f2&v&E&_). by exists a, k, (f2, v).
  - intros p Ep. specialize (Hr p Ep). destruct p as [| |a k]; [done..|].
    destruct (Hr (fifo s) (rely_r_refl _ Hf)) as (f2&v&E&_). by exists a, k, (f2, v).
Qed.

(** * Schedules *)

(** Who moves next: a new call, or the next access of a call. *)
Inductive move := W_call (buf : list Z) (len : Z) | R_call (buf : list Z) (len : Z) | W | R.

Definition move_step (g : __kfifo) (s : shared) (m : move) : option shared :=
  let 'mkShared f w r sn rc := s in
  match m, w, r with
  | W_call buf len, None, _ =>
      if (0 <=? len) && (len <? two32) && (len * esize g <=? Z.of_nat (length buf))
      then Some (mkShared f (Some (buf, in_prog g buf len)) r sn rc) else None
  | R_call buf len, _, None =>
      if (0 <=? len) && (len <? two32) && (len * esize g <=? Z.of_nat (length buf))
      then Some (mkShared f w (Some (out_prog g buf len)) sn rc) else None
  | W, Some (buf, Act a k), _ =>
      match perform a f with
      | Ret (f', v) =>
          Some match k v with
               | Done n => mkShared f' None r (sn ++ take (Z.to_nat (n * esize g)) buf) rc
               | p => mkShared f' (Some (buf, p)) r sn rc
               end
      | _ => None
      end
  | R, _, Some (Act a k) =>
      match perform a f with
      | Ret (f', v) =>
          Some match k v with
               | Done (buf, n) => mkShared f' w None sn (rc ++ take (Z.to_nat (n * esize g)) buf)
               | p => mkShared f' w (Some p) sn rc
               end
      | _ => None
      end
  | _, _, _ => None
  end.
Fixpoint play (g : __kfifo) (s : shared) (ms : list move) : option shared :=
  match ms with
  | [] => Some s
  | m :: ms' => match move_step g s m with Some s' => play g s' ms' | None => None end
  end.

Lemma move_step_sound g s m s' : move_step g s m = Some s' -> shared_step g s s'.
Proof.
  destruct s as [f w r sn rc], m as [buf len|buf len| |]; cbn [move_step].
  - destruct w; [done|]. destruct (_ && _) eqn:E; [|done]. intros [= <-]. apply write_call; lia.
  - destruct r; [destruct w; done|]. destruct w; (destruct (_ && _) eqn:E; [|done]); intros [= <-]; apply read_call; lia.
  - destruct w as [[buf [| |a k]]|]; try done. destruct (perform a f) as [[f' v]| |] eqn:E; try done. intros [= <-].
    destruct (k v) eqn:Ek; [by eapply write_last|rewrite <- Ek..]; (apply write_access; [done|]); intros n; by rewrite Ek.
  - destruct r as [[| |a k]|]; try done; try (by destruct w). intros H.
    assert (H' : match perform a f with
      | Ret (f', v) => Some match k v with
               | Done (buf, n) => mkShared f' w None sn (rc ++ take (Z.to_nat (n * esize g)) buf)
               | p => mkShared f' w (Some p) sn rc end
      | _ => None end = Some s') by (by destruct w). clear H.
    destruct (perform a f) as [[f' v]| |] eqn:E; try done. injection H' as <-.
    destruct (k v) as [[buf n]| |] eqn:Ek; [by eapply read_last|rewrite <- Ek..]; (apply read_access; [done|]); intros n; by rewrite Ek.
Qed.
Lemma play_sound g ms : forall s s', play g s ms = Some s' -> rtc (shared_step g) s s'.
Proof.
  induction ms as [|m ms IH]; cbn [play]; intros s s'; [intros [= <-]; constructor|].
  destruct (move_step g s m) as [s1|] eqn:E; [|done]. intros H. eapply rtc_l; [by eapply move_step_sound|by apply IH].
Qed.
