(* ===== verification/KfifoSpec.v ===== *)
(** What lib/kfifo.c promises: a bounded queue of elements, safe for one reader
    and one writer without locks, a queue of records, and exact accounting of
    partial user copies. *)

From stdpp Require Import relations.
From S2P Require Import Prelude FindBit Kfifo KfifoFacts KfifoShared.

(** * The bounded queue *)

Inductive fifo_op :=
  | f_in (buf : list Z) (len : Z)
  | f_out (buf : list Z) (len : Z)
  | f_peek (buf : list Z) (len : Z)
  | f_put (val : list Z)
  | f_get (val : list Z)
  | f_len
  | f_avail
  | f_reset_out
  | f_reset.

(** One call on the fifo: the fifo afterwards, the value returned and the
    caller's buffer. *)
Definition fifo_exec (f : __kfifo) (o : fifo_op) : res (__kfifo * (Z * list Z)) :=
  match o with
  | f_in buf len => let* (f, n) := __kfifo_in f buf len in Ret (f, (n, buf))
  | f_out buf len => let* (f, buf, n) := __kfifo_out f buf len in Ret (f, (n, buf))
  | f_peek buf len => let* (buf, n) := __kfifo_out_peek f buf len in Ret (f, (n, buf))
  | f_put val => let* (f, n) := kfifo_put f val 0 in Ret (f, (n, val))
  | f_get val => let* (f, val, n) := kfifo_get f val 0 in Ret (f, (n, val))
  | f_len => Ret (f, (kfifo_len f, []))
  | f_avail => Ret (f, (kfifo_avail f 0, []))
  | f_reset_out => Ret (kfifo_reset_out f, (0, []))
  | f_reset => Ret (kfifo_reset f, (0, []))
  end.
Fixpoint fifo_run (f : __kfifo) (os : list fifo_op) : res (__kfifo * list (Z * list Z)) :=
  match os with
  | [] => Ret (f, [])
  | o :: os' =>
      let* (f, r) := fifo_exec f o in
      let* (f, rs) := fifo_run f os' in
      Ret (f, r :: rs)
  end.

(** The specification: a list of at most [c] elements of [e] bytes. *)
Definition q_len (e : Z) (q : list Z) : Z := Z.of_nat (length q) / e.
Definition queue_in (c e : Z) (q buf : list Z) (len : Z) : list Z * Z :=
  let n := Z.min len (c - q_len e q) in (q ++ take (Z.to_nat (n * e)) buf, n).
Definition queue_peek (e : Z) (q buf : list Z) (len : Z) : list Z * Z :=
  let n := Z.min len (q_len e q) in (take (Z.to_nat (n * e)) q ++ drop (Z.to_nat (n * e)) buf, n).
Definition queue_exec (c e : Z) (q : list Z) (o : fifo_op) : list Z * (Z * list Z) :=
  match o with
  | f_in buf len => let '(q, n) := queue_in c e q buf len in (q, (n, buf))
  | f_out buf len => let '(buf, n) := queue_peek e q buf len in (drop (Z.to_nat (n * e)) q, (n, buf))
  | f_peek buf len => let '(buf, n) := queue_peek e q buf len in (q, (n, buf))
  | f_put val => let '(q, n) := queue_in c e q val 1 in (q, (n, val))
  | f_get val => let '(val, n) := queue_peek e q val 1 in (drop (Z.to_nat (n * e)) q, (n, val))
  | f_len => (q, (q_len e q, []))
  | f_avail => (q, (c - q_len e q, []))
  | f_reset_out | f_reset => ([], (0, []))
  end.
Fixpoint queue_run (c e : Z) (q : list Z) (os : list fifo_op) : list Z * list (Z * list Z) :=
  match os with
  | [] => (q, [])
  | o :: os' =>
      let '(q, r) := queue_exec c e q o in
      let '(q, rs) := queue_run c e q os' in
      (q, r :: rs)
  end.

(** The caller's buffers hold the elements the call may move. *)
Definition fifo_pre (e : Z) (o : fifo_op) : bool :=
  match o with
  | f_in buf len | f_out buf len | f_peek buf len =>
      (0 <=? len) && (len <? two32) && (len * e <=? Z.of_nat (length buf))
  | f_put val | f_get val => Z.of_nat (length val) =? e
  | _ => true
  end.

(** The fifo [f] stands for the queue [q] of capacity [c]. *)
Record represents (c e : Z) (f : __kfifo) (q : list Z) : Prop := {
  rep_ok : kfifo_ok f;
  rep_cap : cap f = c;
  rep_esize : esize f = e;
  rep_queue : contents f = q;
}.

Section Queue.
Context (c e : Z) (f : __kfifo) (q : list Z).
Hypothesis Hr : represents c e f q.

Lemma rep_len : q_len e q = kfifo_len f.
Proof using Hr.
  destruct Hr as [Hf _ <- <-]. unfold q_len. rewrite contents_length by done. pose proof (ok_esize f Hf). by rewrite Z.div_mul by lia.
Qed.

Lemma rep_in buf len :
  0 <= len < two32 -> len * e <= Z.of_nat (length buf) ->
  exists f', __kfifo_in f buf len = Ret (f', snd (queue_in c e q buf len)) /\ represents c e f' (fst (queue_in c e q buf len)).
Proof using Hr.
  intros Hl Hb. unfold queue_in. cbn [fst snd]. rewrite rep_len. destruct Hr as [Hf <- <- <-].
  pose proof (ok_esize f Hf). pose proof (len_bounds f Hf).
  destruct (kfifo_in_spec f buf len Hf Hl ltac:(nia)) as (f'&->&Hf'&Hc&_&?&?). exists f'. split; [done|]. by split.
Qed.
Lemma rep_peek buf len :
  0 <= len < two32 -> len * e <= Z.of_nat (length buf) -> __kfifo_out_peek f buf len = Ret (queue_peek e q buf len).
Proof using Hr.
  intros Hl Hb. unfold queue_peek. rewrite rep_len. destruct Hr as [Hf <- <- <-]. pose proof (ok_esize f Hf).
  pose proof (len_bounds f Hf). by rewrite kfifo_peek_spec by (done || nia).
Qed.
Lemma rep_out buf len :
  0 <= len < two32 -> len * e <= Z.of_nat (length buf) ->
  exists f', __kfifo_out f buf len = Ret (f', fst (queue_peek e q buf len), snd (queue_peek e q buf len))
    /\ represents c e f' (drop (Z.to_nat (snd (queue_peek e q buf len) * e)) q).
Proof using Hr.
  intros Hl Hb. unfold queue_peek. cbn [fst snd]. rewrite rep_len. destruct Hr as [Hf <- <- <-].
  pose proof (ok_esize f Hf). pose proof (len_bounds f Hf).
  destruct (kfifo_out_spec f buf len Hf Hl ltac:(nia)) as (f'&->&Hf'&Hc&_&?&?). exists f'. split; [done|]. by split.
Qed.
Lemma rep_clear i : 0 <= i < two32 -> represents c e (mkKfifo i i (mask f) (esize f) (data f)) [].
Proof using Hr.
  intros Hi. destruct Hr as [Hf <- <- _]. pose proof (cap_bounds f Hf) as [Hc _].
  assert (El : w32 (i - i) = 0) by (by rewrite Z.sub_diag).
  split; [|done|done|]; [|unfold contents, kfifo_len; cbn [in_ out]; by rewrite El].
  destruct Hf. split; try done. unfold kfifo_len, cap in *. cbn. rewrite El. lia.
Qed.

Lemma exec_refines o :
  fifo_pre e o = true ->
  exists f', fifo_exec f o = Ret (f', snd (queue_exec c e q o)) /\ represents c e f' (fst (queue_exec c e q o)).
Proof using Hr.
  intros Hp. assert (H1 : 0 <= 1 < two32) by done. pose proof (rep_ok _ _ _ _ Hr) as Hf.
  destruct o as [buf len|buf len|buf len|val|val| | | |]; cbn [fifo_exec queue_exec fifo_pre] in *.
  - destruct (rep_in buf len) as (f'&->&Hr'); [lia|lia|]. exists f'. destruct (queue_in _ _ _ _ _). done.
  - destruct (rep_out buf len) as (f'&->&Hr'); [lia|lia|]. exists f'. destruct (queue_peek _ _ _ _). done.
  - rewrite rep_peek by lia. exists f. destruct (queue_peek _ _ _ _). done.
  - rewrite put_in by (done || (rewrite (rep_esize _ _ _ _ Hr); lia)).
    destruct (rep_in val 1) as (f'&->&Hr'); [done|lia|]. exists f'. destruct (queue_in _ _ _ _ _). done.
  - rewrite get_out by (done || (rewrite (rep_esize _ _ _ _ Hr); lia)).
    destruct (rep_out val 1) as (f'&->&Hr'); [done|lia|]. exists f'. destruct (queue_peek _ _ _ _). done.
  - exists f. by rewrite rep_len.
  - exists f. rewrite rep_len. split; [|done]. do 3 f_equal. unfold kfifo_avail, kfifo_size. cbn [negb Z.eqb].
    change (w32 (w32 (mask f + 1) - kfifo_len f)) with (kfifo_unused f). rewrite unused_eq by done.
    by rewrite (rep_cap _ _ _ _ Hr).
  - eexists. split; [done|]. apply rep_clear. apply Hf.
  - eexists. split; [done|]. by apply rep_clear.
Qed.
End Queue.

Lemma run_refines os : forall c e f q,
  represents c e f q -> forallb (fifo_pre e) os = true ->
  exists f', fifo_run f os = Ret (f', snd (queue_run c e q os)) /\ represents c e f' (fst (queue_run c e q os)).
Proof.
  induction os as [|o os IH]; intros c e f q Hr Hp; cbn [fifo_run queue_run]; [by exists f|].
  cbn in Hp. apply andb_true_iff in Hp as [Ho Hos].
  destruct (exec_refines c e f q Hr o Ho) as (f1&->&Hr1). destruct (queue_exec c e q o) as [q1 r] eqn:Eq. cbn [res_bind fst snd] in *.
  destruct (IH c e f1 q1 Hr1 Hos) as (f2&->&Hr2). destruct (queue_run c e q1 os) as [q2 rs]. cbn. by exists f2.
Qed.

Lemma alloc_ok kmalloc size e :
  (forall n mem, kmalloc n = Some mem -> Z.of_nat (length mem) = n) ->
  2 <= size <= 2147483648 -> 0 < e -> 2 * size * e < two32 ->
  exists f r s, __kfifo_alloc kmalloc size e = Ret (f, r) /\ size <= 2 ^ s < 2 * size
    /\ ((r = 0 /\ represents (2 ^ s) e f []) \/ (r = - ENOMEM /\ data f = [] /\ kmalloc (2 ^ s * e) = None)).
Proof.
  intros Hk Hs He Hb. destruct (roundup_spec size) as (s&E&Hsr&Hp); [unfold two32; lia|].
  assert (Hs31 : s <= 31).
  { destruct (Z.le_gt_cases s 31); [done|]. pose proof (Z.pow_le_mono_r 2 32 s). lia. }
  pose proof (Z.pow_le_mono_r 2 s 31). unfold __kfifo_alloc. rewrite E. cbn [res_bind].
  rewrite (w32_small (2 ^ s)) by (unfold two32; lia). rewrite (w32_small e) by (unfold two32 in *; nia).
  replace (2 ^ s <? 2) with false by lia. rewrite w64_small by (unfold two64, two32 in *; nia).
  destruct (kmalloc (2 ^ s * e)) as [mem|] eqn:Ek.
  - destruct (new_fifo_ok s e mem) as [Hf Hc]; [lia|lia|nia|by apply Hk|].
    eexists _, 0, s. split; [done|]. split; [done|]. left. split; [done|].
    by split.
  - eexists _, (- ENOMEM), s. split; [done|]. split; [done|]. by right.
Qed.

(** * Records *)

Definition encode (recsize : Z) (r : list Z) : list Z := header (Z.of_nat (length r)) recsize ++ r.
(** A record fifo [f] holds the records [rs]; [recsize] bytes can hold every
    length. *)
Record holds_records (recsize : Z) (f : __kfifo) (rs : list (list Z)) : Prop := {
  hr_ok : kfifo_ok f;
  hr_esize : esize f = 1;
  hr_recsize : 1 <= recsize <= 2;
  hr_short : Forall (fun r => Z.of_nat (length r) < 256 ^ recsize) rs;
  hr_contents : contents f = concat (encode recsize <$> rs);
}.

Inductive rec_op :=
  | r_in (buf : list Z) (len : Z)
  | r_out (buf : list Z) (len : Z)
  | r_peek (buf : list Z) (len : Z)
  | r_skip.
Definition rec_exec (recsize : Z) (f : __kfifo) (o : rec_op) : res (__kfifo * (Z * list Z)) :=
  match o with
  | r_in buf len => let* (f, n) := __kfifo_in_r f buf len recsize in Ret (f, (n, buf))
  | r_out buf len => let* (f, buf, n) := __kfifo_out_r f buf len recsize in Ret (f, (n, buf))
  | r_peek buf len => let* (buf, n) := __kfifo_out_peek_r f buf len recsize in Ret (f, (n, buf))
  | r_skip => let* f := __kfifo_skip_r f recsize in Ret (f, (0, []))
  end.
(** [free] is the number of unused bytes of the fifo. *)
Definition records_exec (free recsize : Z) (rs : list (list Z)) (o : rec_op) : list (list Z) * (Z * list Z) :=
  match o with
  | r_in buf len => if len + recsize <=? free then (rs ++ [take (Z.to_nat len) buf], (len, buf)) else (rs, (0, buf))
  | r_out buf len =>
      match rs with
      | [] => ([], (0, buf))
      | r :: rs' => let n := Z.min len (Z.of_nat (length r)) in
                    (rs', (n, take (Z.to_nat n) r ++ drop (Z.to_nat n) buf))
      end
  | r_peek buf len =>
      match rs with
      | [] => ([], (0, buf))
      | r :: _ => let n := Z.min len (Z.of_nat (length r)) in
                  (rs, (n, take (Z.to_nat n) r ++ drop (Z.to_nat n) buf))
      end
  | r_skip => (tail rs, (0, []))
  end.
(** Buffers are as long as the call says, a record written fits its length
    field, and there is a record to skip. *)
Definition rec_pre (recsize : Z) (rs : list (list Z)) (o : rec_op) : bool :=
  match o with
  | r_in buf len => (0 <=? len) && (len <? 256 ^ recsize) && (len <=? Z.of_nat (length buf))
  | r_out buf len | r_peek buf len => (0 <=? len) && (len <=? Z.of_nat (length buf))
  | r_skip => match rs with [] => false | _ => true end
  end.

Section RecordOps.
Context (recsize : Z) (f : __kfifo) (rs : list (list Z)).
Hypothesis Hh : holds_records recsize f rs.

Lemma records_empty : in_ f =? out f = match rs with [] => true | _ => false end.
Proof using Hh.
  destruct Hh as [Hf He Hrs _ Hc]. pose proof (contents_length f Hf) as L. pose proof (ok_in f Hf). pose proof (ok_out f Hf).
  destruct rs as [|r rs'].
  - rewrite Hc, He in L. cbn in L. unfold kfifo_len, w32 in L.
    assert (Hz : (in_ f - out f) mod two32 = 0) by lia. apply Z.mod_divide in Hz as [k Hk]; [|done]. unfold two32 in *. lia.
  - rewrite Hc in L. cbn [fmap list_fmap concat] in L. unfold encode in L at 1. rewrite !length_app in L.
    pose proof (header_length (Z.of_nat (length r)) recsize Hrs). destruct (Z.eqb_spec (in_ f) (out f)) as [E|]; [|done].
    unfold kfifo_len in L. rewrite E, Z.sub_diag in L. change (w32 0) with 0 in L. lia.
Qed.

Lemma records_cases : rs = [] \/ exists r rs', rs = r :: rs'.
Proof using Hh. destruct rs as [|r rs']; [by left|]. right. by exists r, rs'. Qed.
(** The record in front, as the byte queue shows it. *)
Lemma records_front r rs' : rs = r :: rs' ->
  contents f = header (Z.of_nat (length r)) recsize ++ r ++ concat (encode recsize <$> rs')
  /\ Z.of_nat (length r) < 256 ^ recsize.
Proof using Hh.
  intros E. destruct Hh as [_ _ _ Hs Hc]. rewrite E in *. split; [|by inversion Hs].
  rewrite Hc. cbn [fmap list_fmap concat]. unfold encode at 1. by rewrite <- app_assoc.
Qed.
Lemma records_pop r rs' : rs = r :: rs' ->
  holds_records recsize (set_out f (w32 (out f + (Z.of_nat (length r) + recsize)))) rs'.
Proof using Hh.
  intros E. destruct (records_front r rs' E) as [Hc _]. destruct Hh as [Hf He Hrs Hs _].
  destruct (pop_r_spec f recsize Hf He Hrs r _ Hc) as [Hok Hc']. split; try done. rewrite E in Hs. by inversion Hs.
Qed.
Lemma records_copy r rs' buf len : rs = r :: rs' -> 0 <= len <= Z.of_nat (length buf) ->
  kfifo_out_copy_r f buf len recsize
  = Ret (take (Z.to_nat (Z.min len (Z.of_nat (length r)))) r ++ drop (Z.to_nat (Z.min len (Z.of_nat (length r)))) buf,
         Z.min len (Z.of_nat (length r)), Z.of_nat (length r)).
Proof using Hh.
  intros E Hl. destruct (records_front r rs' E) as [Hc Hlt]. destruct Hh as [Hf He Hrs _ _].
  apply (out_copy_r_spec f recsize Hf He Hrs r (concat (encode recsize <$> rs'))); done || lia.
Qed.

Lemma rec_exec_refines o :
  rec_pre recsize rs o = true ->
  exists f', rec_exec recsize f o = Ret (f', snd (records_exec (kfifo_unused f) recsize rs o))
    /\ holds_records recsize f' (fst (records_exec (kfifo_unused f) recsize rs o)) /\ cap f' = cap f.
Proof using Hh.
  intros Hp. pose proof records_empty as Hem. pose proof Hh as [Hf He Hrs Hs Hc].
  destruct o as [buf len|buf len|buf len|]; cbn [rec_exec records_exec rec_pre] in *.
  - rewrite unused_eq by done. assert (256 ^ recsize <= 65536) by (apply (Z.pow_le_mono_r 256 recsize 2); lia).
    destruct (Z.leb_spec (len + recsize) (cap f - kfifo_len f)) as [Hfit|Hfit].
    + destruct (in_r_spec f recsize Hf He Hrs buf len) as (f'&->&Hf'&He'&Hcap&Hc'&_); [lia|lia|lia|]. exists f'. split_and!; try done.
      split; try done. { apply Forall_app. split; [done|]. apply Forall_singleton. cbn. rewrite length_take. lia. }
      cbn [fst]. rewrite fmap_app, concat_app, Hc', Hc. cbn [fmap list_fmap concat]. rewrite app_nil_r. unfold encode at 3.
      rewrite length_take. do 4 f_equal. lia.
    + rewrite in_r_full by (done || (unfold two32; lia)). by exists f.
  - unfold __kfifo_out_r. rewrite Hem. destruct records_cases as [E|(r&rs'&E)]; rewrite E; [exists f; by rewrite <- E|].
    rewrite (records_copy r rs') by (done || lia). cbn [res_bind]. eexists. split; [done|]. split; [|done]. by apply records_pop.
  - unfold __kfifo_out_peek_r. rewrite Hem. destruct records_cases as [E|(r&rs'&E)]; rewrite E; [exists f; by rewrite <- E|].
    rewrite (records_copy r rs') by (done || lia). cbn [res_bind]. exists f. cbn [fst]. by rewrite <- E.
  - destruct records_cases as [E|(r&rs'&E)]; [by rewrite E in Hp|]. destruct (records_front r rs' E) as [Hcf Hlt].
    unfold __kfifo_skip_r. rewrite (peek_n_spec f recsize Hf He Hrs (Z.of_nat (length r)) (r ++ concat (encode recsize <$> rs'))) by (done || lia).
    cbn [res_bind]. rewrite E. cbn [tail fst snd]. eexists. split; [done|]. split; [|done]. by apply records_pop.
Qed.
End RecordOps.

(** A copy from user space that fails leaves the records as they were. *)
Lemma from_user_r_spec ubyte uncopied recsize f rs len :
  (forall o n, 0 <= n -> 0 <= uncopied o n <= n) -> holds_records recsize f rs -> 0 <= len < 256 ^ recsize ->
  exists f' err copied, __kfifo_from_user_r ubyte uncopied f len recsize = Ret (f', err, copied)
    /\ ((err = 0 /\ copied = 0 /\ f' = f /\ kfifo_unused f < len + recsize)
        \/ (err = 0 /\ copied = len /\ holds_records recsize f' (rs ++ [ubyte <$> seqZ 0 len]))
        \/ (err = - EFAULT /\ copied = 0 /\ holds_records recsize f' rs)).
Proof.
  intros Hun Hh Hl. pose proof Hh as [Hf He Hrs Hs Hc].
  assert (Hmax : __kfifo_max_r (w32 len) recsize = len).
  { assert (Hr : recsize = 1 \/ recsize = 2) by lia. unfold __kfifo_max_r.
    destruct Hr as [-> | ->]; [change (256 ^ 1) with 256 in Hl|change (256 ^ 2) with 65536 in Hl];
      rewrite (w32_small len) by (unfold two32; lia);
      [change (w32 _) with 255|change (w32 _) with 65535]; case_cmp; lia. }
  assert (256 ^ recsize <= 65536) by (apply (Z.pow_le_mono_r 256 recsize 2); lia).
  unfold __kfifo_from_user_r. rewrite Hmax, w64_small by (unfold two64; lia). pose proof (len_bounds f Hf). pose proof (cap_bounds f Hf) as [Hcb _].
  destruct (Z.ltb_spec (kfifo_unused f) (len + recsize)) as [Hlt|Hge]; [eexists _, _, _; split; [done|by left]|].
  rewrite unused_eq in Hge by done. destruct (poke_spec f recsize Hf He Hrs len) as (d1&->&W1). cbn [res_bind set_data in_].
  assert (Hf1 : kfifo_ok (set_data f d1)) by (apply set_data_ok; [done|apply W1]).
  destruct (copy_from_user_spec ubyte uncopied Hun (set_data f d1) len (w32 (in_ f + recsize)) Hf1)
    as (d2&src&ret&->&Hret&Hsl&W2&Hb&_); [unfold cap in *; cbn; lia|]. cbn [res_bind]. cbn [data set_data esize] in *.
  change (ring (set_data f d1)) with (ring f) in W2. rewrite He in *. rewrite !Z.mul_1_r in *.
  pose proof (ring_cap f Hf He) as Erc. rewrite Erc, w32_mod_cap in W2 by done. pose proof (ok_data f Hf) as Hd. rewrite Erc in Hd.
  pose proof (header_length len recsize Hrs) as Hhl.
  assert (W : written (data f) (header len recsize ++ src) ((in_ f * esize f) mod ring f) (recsize + Z.of_nat (length src)) d2).
  { rewrite He, Erc, Z.mul_1_r. eapply written_app; try exact W1; try lia. by rewrite Hd, Zplus_mod_idemp_l. }
  assert (Hlen : Z.of_nat (length (header len recsize ++ src)) = recsize + Z.of_nat (length src)) by (rewrite length_app; lia).
  destruct (Z.eqb_spec ret 0) as [->|Hne]; cbn [negb]; eexists _, _, _; (split; [done|]); right.
  - left. split_and!; [done|lia|]. rewrite Z.sub_0_r in *.
    destruct (push_part f (header len recsize ++ src) (len + recsize) (recsize + Z.of_nat (length src)) d2 Hf
      ltac:(lia) ltac:(rewrite He; lia) ltac:(rewrite He; lia) Hlen W) as (Hok&Hc'&_).
    replace ((len + recsize) * esize f) with (len + recsize) in Hc' by lia. assert (Hsrc : src = ubyte <$> seqZ 0 len).
    { apply byte_ext; [rewrite length_fmap, length_seqZ; lia|]. intros j Hj. rewrite Hb by lia. unfold byte.
      rewrite nth_lookup, list_lookup_fmap, lookup_seqZ_lt by lia. cbn. f_equal. lia. }
    split; try done; [apply Forall_app; split; [done|]; apply Forall_singleton; rewrite length_fmap, length_seqZ; lia|].
    etrans; [exact Hc'|]. rewrite firstn_all2 by lia. rewrite fmap_app, concat_app, Hc. cbn [fmap list_fmap concat].
    rewrite app_nil_r, <- Hsrc. f_equal. unfold encode. by replace (Z.of_nat (length src)) with len by lia.
  - right. split_and!; [done|done|]. destruct (push_part f (header len recsize ++ src) 0 (recsize + Z.of_nat (length src)) d2 Hf
      ltac:(lia) ltac:(lia) ltac:(rewrite He; lia) Hlen W) as (Hok&Hc'&_).
    rewrite Z.add_0_r, w32_small in * by apply (ok_in f Hf). rewrite app_nil_r in Hc'. split; try done. by etrans.
Qed.

Fixpoint rec_run (recsize : Z) (f : __kfifo) (os : list rec_op) : res (__kfifo * list (Z * list Z)) :=
  match os with
  | [] => Ret (f, [])
  | o :: os' =>
      let* (f, r) := rec_exec recsize f o in
      let* (f, rs) := rec_run recsize f os' in
      Ret (f, r :: rs)
  end.
(** The unused bytes of a ring of [c] bytes that holds [rs]. *)
Definition records_free (c recsize : Z) (rs : list (list Z)) : Z := c - Z.of_nat (length (concat (encode recsize <$> rs))).
(** [None] when a call does not meet its obligations. *)
Fixpoint records_run (c recsize : Z) (rs : list (list Z)) (os : list rec_op)
    : option (list (list Z) * list (Z * list Z)) :=
  match os with
  | [] => Some (rs, [])
  | o :: os' =>
      if rec_pre recsize rs o then
        let '(rs, r) := records_exec (records_free c recsize rs) recsize rs o in
        match records_run c recsize rs os' with
        | Some (rs, out) => Some (rs, r :: out)
        | None => None
        end
      else None
  end.
Lemma rec_run_refines os : forall recsize f rs rs' out,
  holds_records recsize f rs -> records_run (cap f) recsize rs os = Some (rs', out) ->
  exists f', rec_run recsize f os = Ret (f', out) /\ holds_records recsize f' rs'.
Proof.
  induction os as [|o os IH]; intros recsize f rs rs' out Hh E; cbn [rec_run records_run] in *; [injection E as <- <-; by exists f|].
  destruct (rec_pre recsize rs o) eqn:Hp; [|done].
  assert (Hfree : records_free (cap f) recsize rs = kfifo_unused f).
  { pose proof Hh as [Hf He _ _ Hc]. unfold records_free. rewrite unused_eq, <- Hc, contents_length, He by done. lia. }
  rewrite Hfree in E. destruct (rec_exec_refines recsize f rs Hh o Hp) as (f1&->&Hh1&Hcap).
  destruct (records_exec (kfifo_unused f) recsize rs o) as [rs1 r]. cbn [fst snd res_bind] in *. rewrite <- Hcap in E.
  destruct (records_run (cap f1) recsize rs1 os) as [[rs2 out2]|] eqn:E2; [|done]. injection E as <- <-.
  destruct (IH recsize f1 rs1 rs2 out2 Hh1 E2) as (f2&->&?). by exists f2.
Qed.

(** * Properties *)


Definition some_memory (n : Z) : option (list Z) := Some (replicate (Z.to_nat n) 0).
Lemma some_memory_length n mem : 0 <= n -> some_memory n = Some mem -> Z.of_nat (length mem) = n.
Proof. intros Hn [= <-]. rewrite length_replicate. lia. Qed.
(** Memory for every request of a non-negative size. *)
Definition any_memory (n : Z) : option (list Z) := if 0 <=? n then some_memory n else None.

(** Three elements of two bytes in a ring of four, wrapping around. *)
Definition queue_ops : list fifo_op :=
  [f_in [1; 2; 3; 4; 5; 6] 3; f_get [0; 0]; f_put [7; 8]; f_in [9; 10; 11; 12] 2; f_len; f_out [0; 0; 0; 0; 0; 0] 3; f_avail].


(** C23: one reader and one writer need no lock.  However the single accesses (to
    an index or to one byte of the ring) of [__kfifo_in] calls of the writer and of
    [__kfifo_out] calls of the reader interleave, with any buffers and lengths: what the reader has received
    is a prefix of what the writer has sent and the rest is in the fifo; the fifo
    stays well-formed, and a call that is under way can always take its next step, inside
    the ring and its buffer.  Run without interference, the programs are
    [__kfifo_in] and [__kfifo_out]. *)
Theorem kfifo_single_reader_writer f s :
  kfifo_ok f -> rtc (shared_step f) (mkShared f None None (contents f) []) s ->
  sent s = received s ++ contents (fifo s) /\ kfifo_ok (fifo s)
  /\ (forall buf p, writer s = Some (buf, p) -> can_go p (fifo s))
  /\ (forall p, reader s = Some p -> can_go p (fifo s))
  /\ (forall h buf len, kfifo_ok h -> 0 <= len < two32 -> len * esize h <= Z.of_nat (length buf) ->
        (exists h' n, __kfifo_in h buf len = Ret (h', n) /\ run_alone (in_prog h buf len) h = Ret (h', n))
        /\ exists h' buf' n, __kfifo_out h buf len = Ret (h', buf', n) /\ run_alone (out_prog h buf len) h = Ret (h', (buf', n))).
Proof.
  intros Hf Hrun. assert (Hok : shared_ok f (mkShared f None None (contents f) [])) by (by split).
  assert (Hs : shared_ok f s) by (induction Hrun as [|x y z Hst _ IH]; [done|]; by apply IH, (shared_step_ok f x)).
  destruct (shared_goes f s Hs) as [Hw Hr].
  split_and!; [apply Hs|apply Hs|done|done|]. intros h buf len Hh Hl Hb. pose proof (len_bounds h Hh). pose proof (ok_esize h Hh). split.
  - destruct (kfifo_in_spec h buf len Hh Hl ltac:(nia)) as (h'&E&_). eexists h', _. split; [exact E|by apply in_prog_alone].
  - destruct (kfifo_out_spec h buf len Hh Hl ltac:(nia)) as (h'&E&_). eexists h', _, _. split; [exact E|by apply out_prog_alone].
Qed.

Definition small_fifo : __kfifo := mkKfifo 4294967294 4294967294 3 1 [0; 0; 0; 0].
Lemma small_fifo_ok : kfifo_ok small_fifo.
Proof. split; try done. exists 2. done. Qed.

(** Three bytes are put in; while two more are on their way in, two are taken out. *)
Definition small_moves : list move :=
  [W_call [5; 6; 7] 3] ++ replicate 8 W ++ [W_call [8; 9] 2; R_call [0; 0] 2; W; R; W; R; W; R; R; W; R; R; R].
Definition small_end : shared :=
  default (mkShared small_fifo None None [] []) (play small_fifo (mkShared small_fifo None None (contents small_fifo) []) small_moves).
Lemma play_default g s ms d :
  match play g s ms with Some _ => true | None => false end = true -> play g s ms = Some (default d (play g s ms)).
Proof. by destruct (play g s ms). Qed.
Lemma kfifo_single_reader_writer_witness :
  rtc (shared_step small_fifo) (mkShared small_fifo None None (contents small_fifo) []) small_end
  /\ received small_end = [5; 6] /\ sent small_end = [5; 6; 7] /\ sent small_end = received small_end ++ contents (fifo small_end).
Proof.
  assert (H : rtc (shared_step small_fifo) (mkShared small_fifo None None (contents small_fifo) []) small_end).
  { apply (play_sound small_fifo small_moves). apply play_default. vm_compute. reflexivity. }
  split; [exact H|]. split; [vm_compute; reflexivity|]. split; [vm_compute; reflexivity|].
  destruct (kfifo_single_reader_writer small_fifo small_end small_fifo_ok H) as [E _]. exact E.
Defined.

(** C33: a record fifo is a queue of records.  Every sequence of record calls
    whose records fit their length field gives what a list of records gives: a
    record goes in whole or not at all, the front record comes out up to the
    length of the reader's buffer and is then gone with its rest, and peeking
    and skipping agree with that. *)
Theorem kfifo_records_refine recsize f rs os rs' out :
  holds_records recsize f rs -> records_run (cap f) recsize rs os = Some (rs', out) ->
  exists f', rec_run recsize f os = Ret (f', out) /\ holds_records recsize f' rs'.
Proof. apply rec_run_refines. Qed.

Definition record_fifo : __kfifo := mkKfifo 4294967290 4294967290 15 1 (replicate 16 0).
Definition record_ops : list rec_op :=
  [r_in [1; 2; 3] 3; r_in [4; 5; 6; 7; 8] 5; r_in [9; 9] 2; r_in [10; 11; 12] 3; r_peek [0; 0] 2; r_out [0; 0; 0] 3; r_skip].
Lemma record_fifo_holds : holds_records 2 record_fifo [].
Proof. split; try done. split; try done. exists 4. done. Qed.

Lemma kfifo_records_refine_witness :
  exists f' out, rec_run 2 record_fifo record_ops = Ret (f', out) /\ holds_records 2 f' [[9; 9]]
    /\ out = [(3, [1; 2; 3]); (5, [4; 5; 6; 7; 8]); (2, [9; 9]); (0, [10; 11; 12]); (2, [1; 2]); (3, [1; 2; 3]); (0, [])].
Proof.
  destruct (kfifo_records_refine 2 record_fifo [] record_ops [[9; 9]]
              [(3, [1; 2; 3]); (5, [4; 5; 6; 7; 8]); (2, [9; 9]); (0, [10; 11; 12]); (2, [1; 2]); (3, [1; 2; 3]); (0, [])]
              record_fifo_holds) as (f'&E&H); [by vm_compute|].
  exists f'. eexists. split; [exact E|]. split; [exact H|reflexivity].
Defined.

(** user copies account for faults exactly.  [__kfifo_from_user] and
    [__kfifo_to_user] move a whole number [m] of elements, report [m * esize]
    bytes, move the index by [m], and leave the rest of the queue alone; they
    return 0 exactly when all elements that were asked for and possible were
    moved, and -EFAULT otherwise.  [__kfifo_from_user_r] adds the whole record or
    none of it. *)
Theorem kfifo_user_copies ubyte uncopied f to len recsize g rs rlen :
  (forall o n, 0 <= n -> 0 <= uncopied o n <= n) -> kfifo_ok f -> 0 <= len < two64 ->
  holds_records recsize g rs -> 0 <= rlen < 256 ^ recsize ->
  (exists f' err m, __kfifo_from_user ubyte uncopied f len = Ret (f', err, m * esize f)
     /\ kfifo_ok f' /\ contents f' = contents f ++ (ubyte <$> seqZ 0 (m * esize f))
     /\ ((err = 0 /\ m = Z.min (len / esize f) (cap f - kfifo_len f))
         \/ (err = - EFAULT /\ 0 <= m < Z.min (len / esize f) (cap f - kfifo_len f)))
     /\ ((forall o n, uncopied o n = 0) -> err = 0))
  /\ (exists f' to' err m, __kfifo_to_user uncopied f to len = Ret (f', to', err, m * esize f)
     /\ kfifo_ok f' /\ contents f' = drop (Z.to_nat (m * esize f)) (contents f)
     /\ (forall j, 0 <= j < m * esize f -> to' j = byte (contents f) j)
     /\ ((err = 0 /\ m = Z.min (len / esize f) (kfifo_len f))
         \/ (err = - EFAULT /\ 0 <= m < Z.min (len / esize f) (kfifo_len f)))
     /\ ((forall o n, uncopied o n = 0) -> err = 0))
  /\ (exists g' err copied, __kfifo_from_user_r ubyte uncopied g rlen recsize = Ret (g', err, copied)
     /\ ((err = 0 /\ copied = 0 /\ g' = g /\ kfifo_unused g < rlen + recsize)
         \/ (err = 0 /\ copied = rlen /\ holds_records recsize g' (rs ++ [ubyte <$> seqZ 0 rlen]))
         \/ (err = - EFAULT /\ copied = 0 /\ holds_records recsize g' rs))).
Proof.
  intros Hun Hf Hl Hh Hr. split_and!.
  - destruct (from_user_spec ubyte uncopied Hun f len Hf Hl) as (f'&err&m&E&?&?&?&_&?&?). exists f', err, m. split_and!; try done. lia.
  - destruct (to_user_spec uncopied Hun f to len Hf Hl) as (f'&to'&err&m&E&?&?&?&_&?&?&?). exists f', to', err, m. split_and!; try done. lia.
  - by apply from_user_r_spec.
Qed.

(** A user buffer of three readable bytes. *)
Definition three_bytes (o n : Z) : Z := Z.max 0 (n - Z.max 0 (3 - o)).

Lemma kfifo_user_copies_witness :
  exists f' err m, __kfifo_from_user (fun i => 10 + i) three_bytes small_fifo 4 = Ret (f', err, m * 1)
    /\ kfifo_ok f' /\ err = - EFAULT /\ m = 3.
Proof.
  destruct (kfifo_user_copies (fun i => 10 + i) three_bytes small_fifo (fun _ => 0) 4 2 record_fifo [] 3)
    as ((f'&err&m&E&Hf&_)&_&_).
  - intros o n Hn. unfold three_bytes. lia.
  - exact small_fifo_ok.
  - done.
  - exact record_fifo_holds.
  - done.
  - exists f', err, m. cbn [esize small_fifo] in E. split; [exact E|]. split; [exact Hf|].
    assert (Hm : Ret (f', err, m * 1) = Ret (mkKfifo 1 4294967294 3 1 [12; 0; 10; 11], - EFAULT, 3)).
    { rewrite <- E. by vm_compute. }
    injection Hm. intros. split; lia.
Defined.

(** [__kfifo_init] rounds the number of elements up, so that a buffer whose
    size is not a power of two gets a ring larger than itself: six bytes are
    accepted as a ring of eight, and filling it writes past the buffer. *)
Theorem kfifo_init_overruns_buffer :
  exists f, __kfifo_init (replicate 6 0) 6 1 = Ret (f, 0) /\ kfifo_size f = 8
    /\ kfifo_avail f 0 = 8 /\ __kfifo_in f (replicate 8 1) 8 = BUG.
Proof. eexists. split; [by vm_compute|]. run. Qed.

(** [__kfifo_in_r] accepts a record longer than its length field can say:
    with one length byte a record of 300 bytes goes in as one of 44, and the next
    read takes the bytes after it for a record. *)
Theorem kfifo_in_r_truncates_length :
  exists f, __kfifo_in_r (mkKfifo 0 0 511 1 (replicate 512 0)) (replicate 300 7) 300 1 = Ret (f, 300)
    /\ __kfifo_len_r f 1 = Ret 44
    /\ exists f' buf n, __kfifo_out_r f (replicate 300 0) 300 1 = Ret (f', buf, n) /\ n = 44 /\ __kfifo_len_r f' 1 = Ret 7.
Proof. eexists. split; [by vm_compute|]. split; [by vm_compute|]. eexists _, _, _. split; [by vm_compute|]. run. Qed.
