(* ===== verification/NumText.v ===== *)
(** Numbers and text: parsing (lib/kstrtox.c, lib/cmdline.c), printing (the
    integer conversions of lib/vsprintf.c), hexadecimal dumps of bytes
    (lib/hexdump.c) and character classes (lib/ctype.c).

    A string is the list of bytes at an address and after it, so that [drop] is
    pointer arithmetic; reading past its end is a [BUG].  A buffer to write to is
    a list of bytes with an offset. *)

From Stdlib Require Import Ascii.
From S2P Require Import Prelude FindBit Kfifo.

(** * Characters *)

Definition chr (a : ascii) : Z := Z.of_N (N_of_ascii a).
(** The value of a [char] with the byte [c]; [char] is signed. *)
Definition schar (c : Z) : Z := if c <? 128 then c else c - 256.

Definition _U : Z := 1.
Definition _L : Z := 2.
Definition _D : Z := 4.
Definition _C : Z := 8.
Definition _P : Z := 16.
Definition _S : Z := 32.
Definition _X : Z := 64.
Definition _SP : Z := 128.

Definition _ctype : list Z :=
  replicate 9 _C ++ replicate 5 (Z.lor _C _S) ++ replicate 18 _C   (* 0-31 *)
  ++ Z.lor _S _SP :: replicate 15 _P                               (* 32-47 *)
  ++ replicate 10 _D ++ replicate 7 _P                             (* 48-64 *)
  ++ replicate 6 (Z.lor _U _X) ++ replicate 20 _U ++ replicate 6 _P (* 65-96 *)
  ++ replicate 6 (Z.lor _L _X) ++ replicate 20 _L ++ replicate 4 _P ++ [_C] (* 97-127 *)
  ++ replicate 32 0                                                (* 128-159 *)
  ++ Z.lor _S _SP :: replicate 31 _P                               (* 160-191 *)
  ++ replicate 23 _U ++ [_P] ++ replicate 7 _U                     (* 192-222 *)
  ++ replicate 24 _L ++ [_P] ++ replicate 8 _L.                    (* 223-255 *)
Definition __ismask (c : Z) : Z := nth (Z.to_nat (c mod 256)) _ctype 0.

Definition isdigit (c : Z) : bool := (chr "0" <=? c) && (c <=? chr "9").
Definition isupper (c : Z) : bool := negb (Z.land (__ismask c) _U =? 0).
Definition isxdigit (c : Z) : bool := negb (Z.land (__ismask c) (Z.lor _D _X) =? 0).
Definition __tolower (c : Z) : Z := if isupper c then (c - (chr "A" - chr "a")) mod 256 else c.
Definition _tolower (c : Z) : Z := Z.lor c 32.

(** [s[i]] *)
Definition at_ (s : list Z) (i : nat) : res Z := match s !! i with Some c => Ret c | None => BUG end.

(** * Parsing integers *)

(** [*res] is written on success only. *)
Inductive parsed := Parsed (v : Z) | Failed (e : Z).

Definition _parse_integer_fixup_radix (s : list Z) (base : Z) : res (list Z * Z) :=
  let* base :=
    if base =? 0 then
      let* c0 := at_ s 0 in
      if c0 =? chr "0" then
        let* c1 := at_ s 1 in
        if _tolower c1 =? chr "x" then
          let* c2 := at_ s 2 in Ret (if isxdigit c2 then 16 else 8)
        else Ret 8
      else Ret 10
    else Ret base in
  if base =? 16 then
    let* c0 := at_ s 0 in
    if c0 =? chr "0" then
      let* c1 := at_ s 1 in
      Ret (if _tolower c1 =? chr "x" then drop 2 s else s, base)
    else Ret (s, base)
  else Ret (s, base).

Definition KSTRTOX_OVERFLOW : Z := 2147483648.

(** The digit that a character stands for. *)
Definition digit_of (c : Z) : option Z :=
  let c := w32 (schar c) in
  let lc := Z.lor c 32 in
  if (chr "0" <=? c) && (c <=? chr "9") then Some (c - chr "0")
  else if (chr "a" <=? lc) && (lc <=? chr "f") then Some (lc - chr "a" + 10)
  else None.
Fixpoint parse_loop (s : list Z) (base res rv : Z) : Prelude.res (Z * Z) :=
  match s with
  | [] => BUG
  | c :: s' =>
      match digit_of c with
      | None => Ret (res, rv)
      | Some val =>
          if base <=? val then Ret (res, rv)
          else
            let rv :=
              if negb (Z.land res (w64 (Z.shiftl ULLONG_MAX 60)) =? 0) && ((ULLONG_MAX - val) / base <? res)
              then Z.lor rv KSTRTOX_OVERFLOW else rv in
            parse_loop s' base (w64 (res * base + val)) (w32 (rv + 1))
      end
  end.
(** The number and the count of characters, or-ed with the overflow bit. *)
Definition _parse_integer (s : list Z) (base : Z) : res (Z * Z) := parse_loop s base 0 0.

Definition _kstrtoull (s : list Z) (base : Z) : res parsed :=
  let* (s, base) := _parse_integer_fixup_radix s base in
  let* (_res, rv) := _parse_integer s base in
  if negb (Z.land rv KSTRTOX_OVERFLOW =? 0) then Ret (Failed (- ERANGE))
  else if rv =? 0 then Ret (Failed (- EINVAL))
  else
    let s := drop (Z.to_nat rv) s in
    let* c := at_ s 0 in
    let s := if c =? 10 then drop 1 s else s in
    let* c := at_ s 0 in
    if negb (c =? 0) then Ret (Failed (- EINVAL)) else Ret (Parsed _res).
Definition kstrtoull (s : list Z) (base : Z) : res parsed :=
  let* c := at_ s 0 in
  _kstrtoull (if c =? chr "+" then drop 1 s else s) base.
Definition kstrtoll (s : list Z) (base : Z) : res parsed :=
  let* c := at_ s 0 in
  if c =? chr "-" then
    let* r := _kstrtoull (drop 1 s) base in
    match r with
    | Failed e => Ret (Failed e)
    | Parsed tmp => Ret (if 0 <? s64 (- tmp) then Failed (- ERANGE) else Parsed (s64 (- tmp)))
    end
  else
    let* r := kstrtoull s base in
    match r with
    | Failed e => Ret (Failed e)
    | Parsed tmp => Ret (if s64 tmp <? 0 then Failed (- ERANGE) else Parsed (s64 tmp))
    end.

(** The conversions to narrower types; [bits] is the width of the type. *)
Definition to_unsigned (bits z : Z) : Z := z mod 2 ^ bits.
Definition to_signed (bits z : Z) : Z :=
  let u := z mod 2 ^ bits in if u <? 2 ^ (bits - 1) then u else u - 2 ^ bits.
Definition narrow (conv : Z -> Z) (r : parsed) : parsed :=
  match r with
  | Failed e => Failed e
  | Parsed tmp => if negb (tmp =? conv tmp) then Failed (- ERANGE) else Parsed (conv tmp)
  end.
Definition _kstrtoul (s : list Z) (base : Z) : res parsed := res_map (narrow (to_unsigned 64)) (kstrtoull s base).
Definition _kstrtol (s : list Z) (base : Z) : res parsed := res_map (narrow (to_signed 64)) (kstrtoll s base).
Definition kstrtouint (s : list Z) (base : Z) : res parsed := res_map (narrow (to_unsigned 32)) (kstrtoull s base).
Definition kstrtoint (s : list Z) (base : Z) : res parsed := res_map (narrow (to_signed 32)) (kstrtoll s base).
Definition kstrtou16 (s : list Z) (base : Z) : res parsed := res_map (narrow (to_unsigned 16)) (kstrtoull s base).
Definition kstrtos16 (s : list Z) (base : Z) : res parsed := res_map (narrow (to_signed 16)) (kstrtoll s base).
Definition kstrtou8 (s : list Z) (base : Z) : res parsed := res_map (narrow (to_unsigned 8)) (kstrtoull s base).
Definition kstrtos8 (s : list Z) (base : Z) : res parsed := res_map (narrow (to_signed 8)) (kstrtoll s base).

(** A NULL string is [None]; the result is 1 or 0. *)
Definition kstrtobool (s : option (list Z)) : res parsed :=
  match s with
  | None => Ret (Failed (- EINVAL))
  | Some s =>
      let* c := at_ s 0 in
      if (c =? chr "y") || (c =? chr "Y") || (c =? chr "1") then Ret (Parsed 1)
      else if (c =? chr "n") || (c =? chr "N") || (c =? chr "0") then Ret (Parsed 0)
      else if (c =? chr "o") || (c =? chr "O") then
        let* c1 := at_ s 1 in
        if (c1 =? chr "n") || (c1 =? chr "N") then Ret (Parsed 1)
        else if (c1 =? chr "f") || (c1 =? chr "F") then Ret (Parsed 0)
        else Ret (Failed (- EINVAL))
      else Ret (Failed (- EINVAL))
  end.

(** From user space, into a buffer [buf] on the stack whose contents before do
    not matter; [ubyte] and [uncopied] describe the user's memory. *)
Definition kstrto_from_user (ubyte : Z -> Z) (uncopied : Z -> Z -> Z) (g : list Z -> res parsed) (buf : list Z) (count : Z)
    : res parsed :=
  let count := Z.min count (Z.of_nat (length buf) - 1) in
  let* (buf, r) := _copy_from_user ubyte uncopied buf 0 0 count in
  if negb (r =? 0) then Ret (Failed (- EFAULT))
  else if inside buf count 1 then g (<[Z.to_nat count := 0]> buf) else BUG.

(** * Obsolete parsers and the command line *)

(** The number and [*endp]. *)
Definition simple_strtoull (cp : list Z) (base : Z) : res (Z * list Z) :=
  let* (cp, base) := _parse_integer_fixup_radix cp base in
  let* (result, rv) := _parse_integer cp base in
  Ret (result, drop (Z.to_nat (Z.land rv (w32 (Z.lnot KSTRTOX_OVERFLOW)))) cp).
Definition simple_strtoul (cp : list Z) (base : Z) : res (Z * list Z) := simple_strtoull cp base.
Definition simple_strtol (cp : list Z) (base : Z) : res (Z * list Z) :=
  let* c := at_ cp 0 in
  if c =? chr "-" then let* (r, e) := simple_strtoul (drop 1 cp) base in Ret (s64 (- r), e)
  else let* (r, e) := simple_strtoul cp base in Ret (s64 r, e).
Definition simple_strtoll (cp : list Z) (base : Z) : res (Z * list Z) :=
  let* c := at_ cp 0 in
  if c =? chr "-" then let* (r, e) := simple_strtoull (drop 1 cp) base in Ret (s64 (- r), e)
  else let* (r, e) := simple_strtoull cp base in Ret (s64 r, e).

(** How many of the [ret <<= 10] a suffix falls through. *)
Definition suffix_shifts (c : Z) : option nat :=
  let letter a := (c =? chr a) || (c =? Z.lor (chr a) 32) in
  if letter "E"%char then Some 6%nat else if letter "P"%char then Some 5%nat else if letter "T"%char then Some 4%nat
  else if letter "G"%char then Some 3%nat else if letter "M"%char then Some 2%nat else if letter "K"%char then Some 1%nat
  else None.
Definition memparse (ptr : list Z) : res (Z * list Z) :=
  let* (ret, endptr) := simple_strtoull ptr 0 in
  let* c := at_ endptr 0 in
  match suffix_shifts c with
  | Some n => Ret (Nat.iter n (fun r => w64 (Z.shiftl r 10)) ret, drop 1 endptr)
  | None => Ret (ret, endptr)
  end.

(** The code, [*str] and [*pint]; the latter is [None] when it is not written. *)
Definition get_option (str : list Z) : res (Z * list Z * option Z) :=
  let* c := at_ str 0 in
  if c =? 0 then Ret (0, str, None)
  else
    let* (v, e) := simple_strtol str 0 in
    if (length e =? length str)%nat then Ret (0, e, Some (s32 v))
    else
      let* c := at_ e 0 in
      if c =? chr "," then Ret (2, drop 1 e, Some (s32 v))
      else if c =? chr "-" then Ret (3, e, Some (s32 v))
      else Ret (1, e, Some (s32 v)).

(** [ints[i] = v] *)
Definition put (ints : list Z) (i v : Z) : res (list Z) :=
  if inside ints i 1 then Ret (<[Z.to_nat i := v]> ints) else BUG.
Fixpoint range_loop (n : nat) (ints : list Z) (i x upper_range : Z) : res (list Z) :=
  match n with
  | O => Ret ints
  | S n' =>
      if x <? upper_range then let* ints := put ints i x in range_loop n' ints (i + 1) (x + 1) upper_range
      else Ret ints
  end.
(** At [str] there is the hyphen; [x0] is [*pint] and [pint] is [ints + i]. *)
Definition get_range (str : list Z) (ints : list Z) (i x0 n : Z) : res (Z * list Z * list Z) :=
  let str := drop 1 str in
  let* (v, _) := simple_strtol str 0 in
  let upper_range := s32 v in
  let* ints := range_loop (Z.to_nat n) ints i x0 upper_range in
  Ret (s32 (upper_range - x0), str, ints).

Fixpoint options_loop (fuel : nat) (str : list Z) (nints : Z) (ints : list Z) (i : Z) : res (list Z * list Z * Z) :=
  match fuel with
  | O => OutOfFuel
  | S fuel' =>
      if i <? nints then
        let* (r, str, v) := get_option str in
        let* ints := match v with Some v => put ints i v | None => Ret ints end in
        if r =? 0 then Ret (str, ints, i)
        else
          let* (go, str, ints, i) :=
            if r =? 3 then
              let* (range_nums, str, ints) := get_range str ints i (default 0 v) (nints - i) in
              if range_nums <? 0 then Ret (false, str, ints, i)
              else Ret (true, str, ints, s32 (i + (range_nums - 1)))
            else Ret (true, str, ints, i) in
          if negb go then Ret (str, ints, i)
          else
            let i := s32 (i + 1) in
            if r =? 1 then Ret (str, ints, i) else options_loop fuel' str nints ints i
      else Ret (str, ints, i)
  end.
(** The rest of the string and the array, with the count in [ints[0]]. *)
Definition get_options (str : list Z) (nints : Z) (ints : list Z) : res (list Z * list Z) :=
  let* (str, ints, i) := options_loop (S (length str)) str nints ints 1 in
  let* ints := put ints 0 (i - 1) in
  Ret (str, ints).

(** * Printing integers *)

(** A 16-bit store, little endian. *)
Definition store16 (buf : list Z) (off v : Z) : res (list Z) :=
  if inside buf off 2 then Ret (splice buf off [v mod 256; v / 256]) else BUG.
Definition decpair (x : Z) : Z := Z.lor (x mod 10) (Z.shiftl (x / 10) 8) + 12336.
Definition pair_at (buf : list Z) (off x : Z) : res (list Z) :=
  if (0 <=? x) && (x <? 100) then store16 buf off (decpair x) else BUG.

(** The two multiplications that stand for a division by 100. *)
Definition div100_big (r : Z) : Z := w32 (Z.shiftr (w64 (r * 42949673)) 32).
Definition div100_small (r : Z) : Z := Z.shiftr (w32 (r * 5243)) 19.

(** [buf] is an offset into [tmp]. *)
Definition put_dec_trunc8 (tmp : list Z) (buf r : Z) : res (list Z * Z) :=
  let out_r tmp buf r :=
    let* tmp := pair_at tmp buf r in Ret (tmp, buf + (if r <? 10 then 1 else 2)) in
  if r <? 100 then out_r tmp buf r
  else
    let q := div100_big r in
    let* tmp := pair_at tmp buf (w32 (r - 100 * q)) in
    let buf := buf + 2 in
    if q <? 100 then out_r tmp buf q
    else
      let r := div100_big q in
      let* tmp := pair_at tmp buf (w32 (q - 100 * r)) in
      let buf := buf + 2 in
      if r <? 100 then out_r tmp buf r
      else
        let q := div100_small r in
        let* tmp := pair_at tmp buf (w32 (r - 100 * q)) in
        out_r tmp (buf + 2) q.
Definition put_dec_full8 (tmp : list Z) (buf r : Z) : res (list Z * Z) :=
  let q := div100_big r in
  let* tmp := pair_at tmp buf (w32 (r - 100 * q)) in
  let buf := buf + 2 in
  let r := div100_big q in
  let* tmp := pair_at tmp buf (w32 (q - 100 * r)) in
  let buf := buf + 2 in
  let q := div100_small r in
  let* tmp := pair_at tmp buf (w32 (r - 100 * q)) in
  let buf := buf + 2 in
  let* tmp := pair_at tmp buf q in
  Ret (tmp, buf + 2).
Definition put_dec (tmp : list Z) (buf n : Z) : res (list Z * Z) :=
  let* (tmp, buf, n) :=
    if 100000000 <=? n then
      let* (tmp, buf) := put_dec_full8 tmp buf (n mod 100000000) in Ret (tmp, buf, n / 100000000)
    else Ret (tmp, buf, n) in
  let* (tmp, buf, n) :=
    if 100000000 <=? n then
      let* (tmp, buf) := put_dec_full8 tmp buf (n mod 100000000) in Ret (tmp, buf, n / 100000000)
    else Ret (tmp, buf, n) in
  put_dec_trunc8 tmp buf (w32 n).

(** [tmp] is the array on the stack; the digits are copied in reverse. *)
Fixpoint reverse_loop (n : nat) (buf tmp : list Z) (idx len : Z) : res (list Z) :=
  match n with
  | O => Ret buf
  | S n' =>
      let* c := at_ tmp (Z.to_nat (len - idx - 1)) in
      let* buf := put buf idx c in
      reverse_loop n' buf tmp (idx + 1) len
  end.
Definition num_to_str (tmp buf : list Z) (size num : Z) : res (list Z * Z) :=
  let* (tmp, len) :=
    if num <=? 9 then let* tmp := put tmp 0 (chr "0" + num) in Ret (tmp, 1) else put_dec tmp 0 num in
  if size <? len then Ret (buf, 0)
  else
    let* buf := reverse_loop (Z.to_nat len) buf tmp 0 len in
    Ret (buf, len).

Definition SIGN : Z := 1.
Definition LEFT : Z := 2.
Definition PLUS : Z := 4.
Definition SPACE : Z := 8.
Definition ZEROPAD : Z := 16.
Definition SMALL : Z := 32.
Definition SPECIAL : Z := 64.

Record printf_spec := mkSpec { field_width : Z; flags : Z; base : Z; precision : Z }.
Definition flag (f mask : Z) : bool := negb (Z.land f mask =? 0).

Definition hex_asc_upper : list Z := chr <$> ["0"; "1"; "2"; "3"; "4"; "5"; "6"; "7"; "8"; "9"; "A"; "B"; "C"; "D"; "E"; "F"]%char.
Definition hex_asc : list Z := chr <$> ["0"; "1"; "2"; "3"; "4"; "5"; "6"; "7"; "8"; "9"; "a"; "b"; "c"; "d"; "e"; "f"]%char.

(** [if (buf < end) *buf = c; ++buf] *)
Definition emit (end_ : Z) (out : list Z * Z) (c : Z) : res (list Z * Z) :=
  let '(mem, buf) := out in
  if buf <? end_ then let* mem := put mem buf c in Ret (mem, buf + 1) else Ret (mem, buf + 1).
Fixpoint emit_loop (n : nat) (end_ : Z) (out : list Z * Z) (c : Z) : res (list Z * Z) :=
  match n with O => Ret out | S n' => let* out := emit end_ out c in emit_loop n' end_ out c end.
(** [while (--w >= 0)]: also gives the count after the loop. *)
Definition emit_width (end_ : Z) (out : list Z * Z) (c w : Z) : res (list Z * Z * Z) :=
  let* out := emit_loop (Z.to_nat w) end_ out c in Ret (out, Z.min w 0 - 1).
Definition emit_if (b : bool) (end_ : Z) (out : list Z * Z) (c : Z) : res (list Z * Z) :=
  if b then emit end_ out c else Ret out.
(** [while (--i >= 0)] over the digits in [tmp]. *)
Fixpoint emit_digits (i : nat) (end_ : Z) (out : list Z * Z) (tmp : list Z) : res (list Z * Z) :=
  match i with
  | O => Ret out
  | S i' => let* c := at_ tmp i' in let* out := emit end_ out c in emit_digits i' end_ out tmp
  end.

(** The digits of a number in base 8 or 16, into [tmp] from [i] on. *)
Fixpoint pow2_digits (fuel : nat) (tmp : list Z) (i num mask shift locase : Z) : res (list Z * Z) :=
  match fuel with
  | O => OutOfFuel
  | S fuel' =>
      let* d := at_ hex_asc_upper (Z.to_nat (Z.land (num mod 256) mask)) in
      let* tmp := put tmp i (Z.lor d locase) in
      let num := Z.shiftr num shift in
      if negb (num =? 0) then pow2_digits fuel' tmp (i + 1) num mask shift locase else Ret (tmp, i + 1)
  end.
Definition number_digits (tmp : list Z) (num base locase : Z) : res (list Z * Z) :=
  if num <? base then
    let* d := at_ hex_asc_upper (Z.to_nat num) in
    let* tmp := put tmp 0 (Z.lor d locase) in Ret (tmp, 1)
  else if negb (base =? 10) then
    pow2_digits 65 tmp 0 num (base - 1) (if base =? 16 then 4 else 3) locase
  else put_dec tmp 0 num.

(** The sign character or 0, the magnitude and the field width left. *)
Definition number_sign (num field_width flags : Z) : Z * Z * Z :=
  if flag flags SIGN then
    if s64 num <? 0 then (chr "-", w64 (- s64 num), field_width - 1)
    else if flag flags PLUS then (chr "+", num, field_width - 1)
    else if flag flags SPACE then (chr " ", num, field_width - 1)
    else (0, num, field_width)
  else (0, num, field_width).

(** The output: padding, sign, prefix, padding, digits, padding. *)
Definition number_emit (end_ : Z) (tmp : list Z) (flags base locase : Z) (need_pfx is_zero : bool)
    (sign field_width precision i : Z) (out : list Z * Z) : res (list Z * Z) :=
  let* (out, field_width) :=
    if negb (flag flags (Z.lor ZEROPAD LEFT)) then emit_width end_ out (chr " ") field_width
    else Ret (out, field_width) in
  let* out := emit_if (negb (sign =? 0)) end_ out sign in
  let* out := emit_if (need_pfx && ((base =? 16) || negb is_zero)) end_ out (chr "0") in
  let* out := emit_if (need_pfx && (base =? 16)) end_ out (Z.lor (chr "X") locase) in
  let* (out, field_width) :=
    if negb (flag flags LEFT) then emit_width end_ out (chr " " + Z.land flags ZEROPAD) field_width
    else Ret (out, field_width) in
  let* out := emit_loop (Z.to_nat (precision - i)) end_ out (chr "0") in
  let* out := emit_digits (Z.to_nat i) end_ out tmp in
  let* (out, _) := emit_width end_ out (chr " ") field_width in
  Ret out.

(** [tmp] is the array on the stack; [mem] and [buf] the output. *)
Definition number (tmp mem : list Z) (buf end_ num : Z) (spec : printf_spec) : res (list Z * Z) :=
  let need_pfx := flag (flags spec) SPECIAL && negb (base spec =? 10) in
  let is_zero := num =? 0 in
  let locase := Z.land (flags spec) SMALL in
  let flags := if flag (flags spec) LEFT then Z.land (flags spec) (255 - ZEROPAD) else flags spec in
  let '(sign, num, field_width) := number_sign num (field_width spec) flags in
  let field_width :=
    if need_pfx then
      if base spec =? 16 then field_width - 2
      else if negb is_zero then field_width - 1 else field_width
    else field_width in
  let* (tmp, i) := number_digits tmp num (base spec) locase in
  let precision := if precision spec <? i then i else precision spec in
  let field_width := field_width - precision in
  number_emit end_ tmp flags (base spec) locase need_pfx is_zero sign field_width precision i (mem, buf).
Definition special_hex_number (tmp mem : list Z) (buf end_ num size : Z) : res (list Z * Z) :=
  number tmp mem buf end_ num (mkSpec (2 + 2 * size) (Z.lor SPECIAL (Z.lor SMALL ZEROPAD)) 16 (-1)).

(** * Bytes in hexadecimal *)

Definition hex_to_bin (ch : Z) : Z :=
  let c := schar ch in
  if (chr "0" <=? c) && (c <=? chr "9") then c - chr "0"
  else
    let c := schar (__tolower ch) in
    if (chr "a" <=? c) && (c <=? chr "f") then c - chr "a" + 10 else -1.
(** The bytes written and the code; [src] is read two characters at a time. *)
Fixpoint hex2bin_loop (count : nat) (src : list Z) (dst : list Z) : res (list Z * Z) :=
  match count with
  | O => Ret (dst, 0)
  | S count' =>
      let* h := at_ src 0 in
      let* l := at_ src 1 in
      let hi := hex_to_bin h in
      let lo := hex_to_bin l in
      if (hi <? 0) || (lo <? 0) then Ret (dst, - EINVAL)
      else hex2bin_loop count' (drop 2 src) (dst ++ [Z.lor (Z.shiftl hi 4) lo mod 256])
  end.
Definition hex2bin (src : list Z) (count : nat) : res (list Z * Z) := hex2bin_loop count src [].
Definition hex_asc_lo (x : Z) : res Z := at_ hex_asc (Z.to_nat (Z.land x 15)).
Definition hex_asc_hi (x : Z) : res Z := at_ hex_asc (Z.to_nat (Z.shiftr (Z.land x 240) 4)).
Definition hex_byte_pack (dst : list Z) (byte : Z) : res (list Z) :=
  let* h := hex_asc_hi byte in let* l := hex_asc_lo byte in Ret (dst ++ [h; l]).
Fixpoint bin2hex_loop (src dst : list Z) : res (list Z) :=
  match src with
  | [] => Ret dst
  | b :: src' => let* dst := hex_byte_pack dst b in bin2hex_loop src' dst
  end.
Definition bin2hex (src : list Z) : res (list Z) := bin2hex_loop src [].
