(* ===== verification/NumTextFacts.v ===== *)
(** Numbers and text: what a string of digits means, and how the parsing and
    printing routines relate to that. *)

From Stdlib Require Import Ascii.
From S2P Require Import Prelude FindBit Kfifo NumText.

(** * Digits and their value *)

Definition digit_val (c : Z) : option Z :=
  if (48 <=? c) && (c <=? 57) then Some (c - 48)
  else if (97 <=? c) && (c <=? 102) then Some (c - 87)
  else if (65 <=? c) && (c <=? 70) then Some (c - 55)
  else None.
Definition digit_in (base c : Z) : option Z :=
  match digit_val c with Some v => if v <? base then Some v else None | None => None end.
(** The longest prefix of digits, and what follows it. *)
Fixpoint span_digits (base : Z) (s : list Z) : list Z * list Z :=
  match s with
  | [] => ([], [])
  | c :: s' =>
      match digit_in base c with
      | Some v => let '(ds, rest) := span_digits base s' in (v :: ds, rest)
      | None => ([], s)
      end
  end.
Definition value (base : Z) (ds : list Z) : Z := foldl (fun v d => v * base + d) 0 ds.

Definition is_byte (c : Z) : Prop := 0 <= c < 256.
(** The bytes of a C string, without the terminator. *)
Definition text (s : list Z) : Prop := Forall (fun c => 1 <= c < 256) s.

(** A statement about each byte is a finite computation. *)
Lemma all_bytes (P : Z -> bool) : forallb P (seqZ 0 256) = true -> forall c, is_byte c -> P c = true.
Proof. intros H c Hc. rewrite forallb_forall in H. apply H, list_elem_of_In, elem_of_seqZ. unfold is_byte in Hc. lia. Qed.

Definition opt_eqb (a b : option Z) : bool := bool_decide (a = b).
Lemma digit_of_val c : is_byte c -> digit_of c = digit_val c.
Proof.
  intros Hc. pose proof (all_bytes (fun c => opt_eqb (digit_of c) (digit_val c)) eq_refl c Hc) as H.
  by apply bool_decide_eq_true in H.
Qed.
Lemma xdigit_val c : is_byte c -> isxdigit c = match digit_val c with Some _ => true | None => false end.
Proof.
  intros Hc. pose proof (all_bytes (fun c => Bool.eqb (isxdigit c) (match digit_val c with Some _ => true | None => false end)) eq_refl c Hc) as H.
  by apply Bool.eqb_prop in H.
Qed.
Lemma tolower_x c : is_byte c -> (_tolower c =? chr "x") = (c =? 88) || (c =? 120).
Proof.
  intros Hc. pose proof (all_bytes (fun c => Bool.eqb (_tolower c =? chr "x") ((c =? 88) || (c =? 120))) eq_refl c Hc) as H.
  by apply Bool.eqb_prop in H.
Qed.
Lemma digit_val_range c v : digit_val c = Some v -> 0 <= v < 16.
Proof. unfold digit_val. intros H. repeat case_match; simplify_eq; lia. Qed.
Lemma digit_in_range base c v : digit_in base c = Some v -> 0 <= v < base /\ v < 16.
Proof.
  unfold digit_in. destruct (digit_val c) as [w|] eqn:E; [|done]. apply digit_val_range in E.
  destruct (Z.ltb_spec w base); intros Hd; simplify_eq. lia.
Qed.

Lemma value_app base ds1 ds2 : value base (ds1 ++ ds2) = foldl (fun v d => v * base + d) (value base ds1) ds2.
Proof. apply foldl_app. Qed.
Lemma value_snoc base ds d : value base (ds ++ [d]) = value base ds * base + d.
Proof. by rewrite value_app. Qed.

(** * The parsing loop *)

Lemma lor_overflow n (f : bool) :
  0 <= n < 2147483648 -> Z.lor (n + (if f then 2147483648 else 0)) 2147483648 = n + 2147483648.
Proof.
  intros Hn. change 2147483648 with (1 * 2 ^ 31) at 2 3. destruct f.
  - change 2147483648 with (1 * 2 ^ 31). rewrite <- (lor_disjoint_add n 1 31) by lia. rewrite <- Z.lor_assoc. by rewrite Z.lor_diag.
  - rewrite Z.add_0_r. by apply lor_disjoint_add.
Qed.
Lemma land_overflow n (f : bool) :
  0 <= n < 2147483648 -> negb (Z.land (n + (if f then 2147483648 else 0)) KSTRTOX_OVERFLOW =? 0) = f.
Proof.
  intros Hn. unfold KSTRTOX_OVERFLOW. change 2147483648 with (2 ^ 31) in *.
  assert (Hb : Z.testbit (n + (if f then 2 ^ 31 else 0)) 31 = f).
  { destruct f.
    - apply Z.testbit_true; [lia|]. replace (n + 2 ^ 31) with (n + 1 * 2 ^ 31) by lia. by rewrite Z.div_add, Z.div_small by lia.
    - apply Z.testbit_false; [lia|]. by rewrite Z.add_0_r, Z.div_small by lia. }
  set (x := n + _) in *. destruct f.
  - destruct (Z.eqb_spec (Z.land x (2 ^ 31)) 0) as [E|]; [|done]. apply (f_equal (fun z => Z.testbit z 31)) in E.
    by rewrite Z.land_spec, Hb, Z.bits_0 in E.
  - assert (Z.land x (2 ^ 31) = 0) as ->; [|done]. apply Z.bits_inj'. intros i Hi. rewrite Z.land_spec, Z.pow2_bits_eqb, Z.bits_0 by lia.
    destruct (Z.eqb_spec 31 i) as [<-|]; [by rewrite Hb|by rewrite andb_false_r].
Qed.
Lemma high_bits_zero v : 0 <= v < two64 -> (Z.land v (w64 (Z.shiftl ULLONG_MAX 60)) =? 0) = (v <? 2 ^ 60).
Proof.
  intros Hv. change (w64 (Z.shiftl ULLONG_MAX 60)) with (Z.shiftl (Z.ones 4) 60).
  assert (E : Z.land v (Z.shiftl (Z.ones 4) 60) = Z.shiftl (v / 2 ^ 60) 60).
  { apply Z.bits_inj'. intros i Hi. rewrite Z.land_spec. destruct (Z.ltb_spec i 60).
    - rewrite !Z.shiftl_spec_low by lia. apply andb_false_r.
    - rewrite !Z.shiftl_spec by lia. rewrite <- Z.shiftr_div_pow2, Z.shiftr_spec by lia. replace (i - 60 + 60) with i by lia.
      destruct (Z.ltb_spec i 64).
      + rewrite Z.ones_spec_low by lia. apply andb_true_r.
      + rewrite <- (Z.mod_small v two64) by done. rewrite two64_pow, Z.mod_pow2_bits_high by lia. done. }
  rewrite E, Z.shiftl_mul_pow2 by lia. pose proof (Z.div_mod v (2 ^ 60) ltac:(lia)) as Hdm. pose proof (Z.mod_pos_bound v (2 ^ 60) ltac:(lia)).
  destruct (Z.ltb_spec v (2 ^ 60)); destruct (Z.eqb_spec (v / 2 ^ 60 * 2 ^ 60) 0); lia.
Qed.

(** One digit: the flag says exactly whether the true value has left 64 bits. *)
Lemma overflow_step v val base (f : bool) :
  0 <= v -> 1 <= base <= 16 -> 0 <= val < base -> f = (two64 <=? v) ->
  f || (negb (Z.land (w64 v) (w64 (Z.shiftl ULLONG_MAX 60)) =? 0) && ((ULLONG_MAX - val) / base <? w64 v)) = (two64 <=? v * base + val).
Proof.
  intros Hv Hb Hval ->. destruct (Z.leb_spec two64 v); cbn [orb]; [symmetry; apply Z.leb_le; nia|].
  rewrite w64_small by lia. rewrite high_bits_zero by lia. unfold ULLONG_MAX, two64 in *.
  set (q := (18446744073709551615 - val) / base).
  pose proof (Z.div_mod (18446744073709551615 - val) base ltac:(lia)) as Hdm. fold q in Hdm.
  pose proof (Z.mod_pos_bound (18446744073709551615 - val) base ltac:(lia)) as Hm.
  destruct (Z.leb_spec 18446744073709551616 (v * base + val)) as [Ho|Ho].
  - assert (2 ^ 60 <= v) by nia. assert (q < v) by nia.
    rewrite (proj2 (Z.ltb_ge v (2 ^ 60))) by lia. cbn. by apply Z.ltb_lt.
  - assert (v <= q) by nia. rewrite (proj2 (Z.ltb_ge q v)) by lia. apply andb_false_r.
Qed.

Lemma value_nonneg base ds : 0 <= base -> Forall (fun d => 0 <= d) ds -> 0 <= value base ds.
Proof.
  intros Hb Hds. induction ds as [|d ds IH] using rev_ind; [done|]. rewrite value_snoc.
  apply Forall_app in Hds as [Hds Hd]. apply Forall_cons in Hd as [Hd _]. specialize (IH Hds). pose proof (Z.mul_nonneg_nonneg _ _ IH Hb). lia.
Qed.
Lemma span_digits_range base s : Forall (fun d => 0 <= d < base) (span_digits base s).1.
Proof.
  induction s as [|c s IH]; cbn; [done|]. destruct (digit_in base c) as [v|] eqn:E; [|done].
  destruct (span_digits base s) as [ds rest]. apply digit_in_range in E. constructor; [lia|done].
Qed.
Lemma span_digits_length base s ds rest :
  span_digits base s = (ds, rest) -> rest = drop (length ds) s /\ (length ds <= length s)%nat.
Proof.
  revert ds rest. induction s as [|c s IH]; intros ds rest H; cbn in H; [by simplify_eq|].
  destruct (digit_in base c); [|simplify_eq/=; split; [done|apply Nat.le_0_l]].
  destruct (span_digits base s) as [ds' rest'] eqn:E. simplify_eq/=. destruct (IH _ _ eq_refl). split; [done|lia].
Qed.

(** The flag of an intermediate state. *)
Definition rv_of (n : nat) (v : Z) : Z := Z.of_nat n + (if two64 <=? v then 2147483648 else 0).
Lemma parse_loop_spec base s junk : forall n v,
  1 <= base <= 16 -> text s -> 0 <= v -> Z.of_nat (n + length s) < 2147483648 ->
  parse_loop (s ++ 0 :: junk) base (w64 v) (rv_of n v)
  = let ds := (span_digits base s).1 in
    let v' := foldl (fun v d => v * base + d) v ds in
    Ret (w64 v', rv_of (n + length ds) v').
Proof.
  intros n v Hb. revert n v. induction s as [|c s IH]; intros n v Hs Hv Hn; cbn [app parse_loop span_digits].
  { cbn. by rewrite Nat.add_0_r. }
  apply Forall_cons in Hs as [Hc Hs]. rewrite digit_of_val by (unfold is_byte; lia). unfold digit_in.
  destruct (digit_val c) as [val|] eqn:Ed; [|cbn; by rewrite Nat.add_0_r]. apply digit_val_range in Ed as Hval.
  destruct (Z.ltb_spec val base) as [Hlt|Hge].
  2: { rewrite (proj2 (Z.leb_le base val)) by lia. cbn. by rewrite Nat.add_0_r. }
  rewrite (proj2 (Z.leb_gt base val)) by lia. destruct (span_digits base s) as [ds rest] eqn:E.
  set (t := negb _ && _). assert (Hf : (two64 <=? v) || t = (two64 <=? v * base + val)) by (apply overflow_step; (done || lia)). clearbody t.
  assert (Hrv : (if t then Z.lor (rv_of n v) KSTRTOX_OVERFLOW else rv_of n v) = Z.of_nat n + (if two64 <=? v * base + val then 2147483648 else 0)).
  { rewrite <- Hf. unfold rv_of, KSTRTOX_OVERFLOW. destruct t; [|by rewrite orb_false_r]. rewrite orb_true_r.
    apply (lor_overflow (Z.of_nat n) (two64 <=? v)). cbn in Hn. lia. }
  rewrite Hrv. replace (w32 _) with (rv_of (S n) (v * base + val)).
  2: { unfold rv_of, w32. rewrite Z.mod_small; [lia|]. unfold two32. cbn in Hn. destruct (two64 <=? v * base + val); lia. }
  replace (w64 (w64 v * base + val)) with (w64 (v * base + val)).
  2: { unfold w64. rewrite <- (Zplus_mod_idemp_l (v mod two64 * base)), Zmult_mod_idemp_l. by rewrite Zplus_mod_idemp_l. }
  rewrite IH; [|done|nia|cbn in Hn; lia]. cbn [fst foldl length]. by rewrite Nat.add_succ_r.
Qed.

(** * Whole strings *)

(** Radix and digits: what [_parse_integer_fixup_radix] decides. *)
Definition is_some_b {A} (o : option A) : bool := match o with Some _ => true | None => false end.
Definition hex_prefix (s : list Z) : option (list Z) :=
  match s with
  | c :: x :: s' => if (c =? 48) && ((x =? 88) || (x =? 120)) then Some s' else None
  | _ => None
  end.
Definition radix (base : Z) (s : list Z) : Z :=
  if base =? 0 then
    match hex_prefix s with
    | Some (d :: _) => if is_some_b (digit_val d) then 16 else 8
    | _ => match s with c :: _ => if c =? 48 then 8 else 10 | [] => 10 end
    end
  else base.
Definition radix_split (base : Z) (s : list Z) : Z * list Z :=
  (radix base s, if radix base s =? 16 then default s (hex_prefix s) else s).
Lemma radix_split_spec base s junk :
  text s -> _parse_integer_fixup_radix (s ++ 0 :: junk) base = let '(b, t) := radix_split base s in Ret (t ++ 0 :: junk, b).
Proof.
  intros Hs. unfold _parse_integer_fixup_radix, radix_split, radix, at_. change (chr "0") with 48.
  destruct s as [|c s]; cbn [app lookup list_lookup res_bind hex_prefix].
  { destruct (base =? 0); cbn; [done|]. by destruct (base =? 16). }
  apply Forall_cons in Hs as [Hc Hs]. destruct (Z.eqb_spec c 48) as [->|Hc48].
  2: { destruct s as [|x s]; cbn [andb hex_prefix default from_option id];
       (destruct (base =? 0); cbn [res_bind]; [done|]); by destruct (base =? 16). }
  destruct s as [|x s]; cbn [app].
  { cbn. destruct (base =? 0); cbn; [done|]. by destruct (base =? 16). }
  apply Forall_cons in Hs as [Hx Hs]. cbn [lookup list_lookup res_bind]. rewrite tolower_x by (unfold is_byte; lia). cbn [Z.eqb Pos.eqb andb].
  destruct ((x =? 88) || (x =? 120)) eqn:Ex; cbn [default from_option id].
  - destruct s as [|d s]; cbn [app].
    + destruct (base =? 0); cbn; [done|]. by destruct (base =? 16).
    + apply Forall_cons in Hs as [Hd Hs]. cbn [lookup list_lookup res_bind]. rewrite xdigit_val by (unfold is_byte; lia). unfold is_some_b.
      destruct (base =? 0); cbn [res_bind]; [by destruct (digit_val d)|]. by destruct (base =? 16).
  - destruct s as [|d s]; cbn [app]; (destruct (base =? 0); cbn [res_bind]; [done|]; by destruct (base =? 16)).
Qed.

(** * Reference parsers *)

Definition ref_magnitude (base : Z) (s : list Z) : parsed :=
  let '(b, t) := radix_split base s in
  let '(ds, rest) := span_digits b t in
  if two64 <=? value b ds then Failed (- ERANGE)
  else if bool_decide (ds = []) then Failed (- EINVAL)
  else if bool_decide (rest = [] \/ rest = [10]) then Parsed (value b ds)
  else Failed (- EINVAL).
Definition strip (sign : Z) (s : list Z) : list Z := match s with c :: s' => if c =? sign then s' else s | [] => [] end.
Definition ref_unsigned (bits base : Z) (s : list Z) : parsed :=
  match ref_magnitude base (strip (chr "+") s) with
  | Parsed v => if v <? 2 ^ bits then Parsed v else Failed (- ERANGE)
  | Failed e => Failed e
  end.
Definition ref_signed (bits base : Z) (s : list Z) : parsed :=
  let '(neg, t) := match s with c :: s' => if c =? chr "-" then (true, s') else (false, strip (chr "+") s) | [] => (false, []) end in
  match ref_magnitude base t with
  | Parsed v =>
      let z := if (neg : bool) then - v else v in
      if (- 2 ^ (bits - 1) <=? z) && (z <? 2 ^ (bits - 1)) then Parsed z else Failed (- ERANGE)
  | Failed e => Failed e
  end.

Lemma radix_range base s : 0 <= base <= 16 -> 1 <= radix base s <= 16.
Proof. unfold radix. intros H. repeat case_match; lia. Qed.
Lemma hex_prefix_text s t : text s -> hex_prefix s = Some t -> text t /\ (length t <= length s)%nat.
Proof.
  intros Hs H. destruct s as [|c [|x s]]; [done..|]. cbn in H. destruct (_ && _); [|done]. simplify_eq.
  apply Forall_cons in Hs as [_ Hs]. apply Forall_cons in Hs as [_ Hs]. split; [done|cbn; lia].
Qed.
Lemma radix_split_text base s b t : text s -> radix_split base s = (b, t) -> text t /\ (length t <= length s)%nat.
Proof.
  intros Hs [= <- <-]. case_match; [|done]. destruct (hex_prefix s) as [t|] eqn:E; [|done]. by apply hex_prefix_text in E.
Qed.
Lemma text_drop n s : text s -> text (drop n s).
Proof. apply Forall_drop. Qed.

Lemma kstrtoull_raw base s junk :
  0 <= base <= 16 -> text s -> Z.of_nat (length s) < 2147483648 ->
  _kstrtoull (s ++ 0 :: junk) base = Ret (ref_magnitude base s).
Proof.
  intros Hb Hs Hlen. unfold _kstrtoull, ref_magnitude. rewrite radix_split_spec by done.
  destruct (radix_split base s) as [b t] eqn:Er. assert (Hbr : 1 <= b <= 16) by (injection Er as <- _; by apply radix_range).
  destruct (radix_split_text _ _ _ _ Hs Er) as [Ht Hlt]. cbn [res_bind]. unfold _parse_integer.
  pose proof (parse_loop_spec b t junk 0 0 Hbr Ht ltac:(lia) ltac:(lia)) as Hp. cbv zeta in Hp.
  change (w64 0) with 0 in Hp. change (rv_of 0 0) with 0 in Hp. rewrite Hp. cbn [res_bind].
  destruct (span_digits b t) as [ds rest] eqn:Es. cbn [fst]. fold (value b ds). destruct (span_digits_length _ _ _ _ Es) as [-> Hds].
  assert (Hv : 0 <= value b ds).
  { apply value_nonneg; [lia|]. pose proof (span_digits_range b t) as H. rewrite Es in H. eapply Forall_impl; [exact H|]. cbn. lia. }
  unfold rv_of. rewrite (land_overflow (Z.of_nat (0 + length ds)) (two64 <=? value b ds)) by (cbn; lia).
  destruct (Z.leb_spec two64 (value b ds)); [done|]. rewrite Z.add_0_r. cbn [plus].
  destruct ds as [|d ds]; [done|]. rewrite (proj2 (Z.eqb_neq _ 0)) by (cbn; lia). rewrite Nat2Z.id, w64_small by lia.
  rewrite drop_app_le by done. set (rest := drop _ t). assert (Hrest : text rest) by (by apply text_drop).
  rewrite (bool_decide_eq_false_2 (d :: ds = [])) by done. unfold at_.
  destruct rest as [|r rest]; cbn [app lookup list_lookup res_bind drop]; [by rewrite bool_decide_eq_true_2 by (by left)|].
  apply Forall_cons in Hrest as [Hr Hrest]. destruct (Z.eqb_spec r 10) as [->|Hr10].
  - destruct rest as [|r2 rest]; cbn -[value bool_decide]; [by rewrite bool_decide_eq_true_2 by (by right)|].
    apply Forall_cons in Hrest as [Hr2 _]. rewrite (proj2 (Z.eqb_neq r2 0)) by lia. by rewrite bool_decide_eq_false_2 by naive_solver.
  - cbn -[value bool_decide]. rewrite (proj2 (Z.eqb_neq r 0)) by lia. by rewrite bool_decide_eq_false_2 by naive_solver.
Qed.

Lemma ref_magnitude_range base s v : 0 <= base <= 16 -> ref_magnitude base s = Parsed v -> 0 <= v < two64.
Proof.
  intros Hb. unfold ref_magnitude. destruct (radix_split base s) as [b t] eqn:Er.
  assert (Hbr : 1 <= b <= 16) by (injection Er as <- _; by apply radix_range). destruct (span_digits b t) as [ds rest] eqn:Es.
  assert (Hv : 0 <= value b ds).
  { apply value_nonneg; [lia|]. pose proof (span_digits_range b t) as H. rewrite Es in H. eapply Forall_impl; [exact H|]. cbn. lia. }
  intros H. repeat case_match; simplify_eq; lia.
Qed.
Lemma text_strip c s : text s -> text (strip c s) /\ (length (strip c s) <= length s)%nat.
Proof. intros Hs. destruct s as [|x s]; [done|]. cbn. apply Forall_cons in Hs as [? ?]. case_match; [split; [done|lia]|]. split; [by constructor|done]. Qed.

Lemma s64_neg v : 0 <= v < two64 ->
  (if 0 <? s64 (- v) then Failed (- ERANGE) else Parsed (s64 (- v)))
  = if (- 2 ^ 63 <=? - v) && (- v <? 2 ^ 63) then Parsed (- v) else Failed (- ERANGE).
Proof.
  intros Hv. unfold s64, w64, two64 in *. destruct (Z.eqb_spec v 0) as [->|]; [done|].
  rewrite <- (Z.mod_unique (- v) 18446744073709551616 (-1) (18446744073709551616 - v)) by lia.
  change (2 ^ 63) with 9223372036854775808. destruct (Z.ltb_spec (18446744073709551616 - v) 9223372036854775808); case_cmps; f_equal; lia.
Qed.
Lemma s64_pos v : 0 <= v < two64 ->
  (if s64 v <? 0 then Failed (- ERANGE) else Parsed (s64 v))
  = if (- 2 ^ 63 <=? v) && (v <? 2 ^ 63) then Parsed v else Failed (- ERANGE).
Proof.
  intros Hv. unfold s64. rewrite w64_small by done. unfold two64 in *. change (2 ^ 63) with 9223372036854775808.
  destruct (Z.ltb_spec v 9223372036854775808); case_cmps; f_equal; lia.
Qed.

Section Strings.
Context (base : Z) (s junk : list Z) (Hb : 0 <= base <= 16) (Hs : text s) (Hlen : Z.of_nat (length s) < 2147483648).

Lemma kstrtoull_spec : kstrtoull (s ++ 0 :: junk) base = Ret (ref_magnitude base (strip (chr "+") s)).
Proof using Hb Hs Hlen.
  unfold kstrtoull, at_. destruct s as [|c s']; cbn [app lookup list_lookup res_bind].
  - change (0 :: junk) with ([] ++ 0 :: junk) at 2. change (if 0 =? chr "+" then drop 1 ([] ++ 0 :: junk) else [] ++ 0 :: junk) with ([] ++ 0 :: junk). by apply kstrtoull_raw.
  - cbn [strip]. apply Forall_cons in Hs as [Hc Hs']. cbn in Hlen. destruct (c =? chr "+").
    + cbn [drop]. apply kstrtoull_raw; [done|done|lia].
    + apply (kstrtoull_raw base (c :: s')); [done|by constructor|cbn; lia].
Qed.

Lemma kstrtoull_ref : kstrtoull (s ++ 0 :: junk) base = Ret (ref_unsigned 64 base s).
Proof using Hb Hs Hlen.
  rewrite kstrtoull_spec. unfold ref_unsigned. destruct (ref_magnitude _ _) as [v|e] eqn:E; [|done].
  apply ref_magnitude_range in E; [|done]. unfold two64 in E. by rewrite (proj2 (Z.ltb_lt v (2 ^ 64))) by lia.
Qed.

Lemma kstrtoll_ref : kstrtoll (s ++ 0 :: junk) base = Ret (ref_signed 64 base s).
Proof using Hb Hs Hlen.
  pose proof kstrtoull_spec as Hu. unfold kstrtoll, at_, ref_signed. destruct s as [|c s']; cbn [app lookup list_lookup res_bind] in *.
  { change (0 =? chr "-") with false. cbn [strip] in *. rewrite Hu. cbn [res_bind]. destruct (ref_magnitude base []) as [v|e] eqn:E; [|done].
    f_equal. apply s64_pos. by eapply ref_magnitude_range. }
  apply Forall_cons in Hs as [Hc Hs']. cbn in Hlen. destruct (c =? chr "-").
  - change (drop 1 (c :: s' ++ 0 :: junk)) with (s' ++ 0 :: junk). rewrite kstrtoull_raw by (done || lia). cbn [res_bind]. destruct (ref_magnitude base s') as [v|e] eqn:E; [|done].
    f_equal. apply s64_neg. by eapply ref_magnitude_range.
  - rewrite Hu. cbn [res_bind]. destruct (ref_magnitude _ _) as [v|e] eqn:E; [|done].
    f_equal. apply s64_pos. by eapply ref_magnitude_range.
Qed.

Lemma narrow_unsigned bits : 0 <= bits <= 64 ->
  res_map (narrow (to_unsigned bits)) (kstrtoull (s ++ 0 :: junk) base) = Ret (ref_unsigned bits base s).
Proof using Hb Hs Hlen.
  intros Hbits. rewrite kstrtoull_spec. unfold ref_unsigned, res_map. cbn [res_bind]. destruct (ref_magnitude _ _) as [v|e] eqn:E; [|done]. cbn [narrow].
  apply ref_magnitude_range in E; [|done]. unfold to_unsigned. pose proof (Z.pow_pos_nonneg 2 bits ltac:(lia) ltac:(lia)).
  pose proof (Z.mod_pos_bound v (2 ^ bits) ltac:(lia)). destruct (Z.ltb_spec v (2 ^ bits)).
  - rewrite Z.mod_small by lia. by rewrite Z.eqb_refl.
  - by rewrite (proj2 (Z.eqb_neq v _)) by lia.
Qed.
Lemma narrow_signed bits : 1 <= bits <= 64 ->
  res_map (narrow (to_signed bits)) (kstrtoll (s ++ 0 :: junk) base) = Ret (ref_signed bits base s).
Proof using Hb Hs Hlen.
  intros Hbits. rewrite kstrtoll_ref. unfold ref_signed. destruct (match s with [] => _ | _ => _ end) as [neg t].
  unfold res_map. cbn [res_bind]. destruct (ref_magnitude _ _) as [v|e] eqn:E; [|done]. apply ref_magnitude_range in E; [|done]. cbv zeta. set (z := if neg then _ else _).
  assert (Hp : 2 ^ bits = 2 * 2 ^ (bits - 1)) by (rewrite <- Z.pow_succ_r by lia; f_equal; lia).
  assert (Hp0 : 0 < 2 ^ (bits - 1)) by (apply Z.pow_pos_nonneg; lia).
  assert (Hp64 : 2 ^ (bits - 1) <= 2 ^ 63) by (apply Z.pow_le_mono_r; lia). change (2 ^ (64 - 1)) with (2 ^ 63).
  assert (Hconv : to_signed bits z = z <-> - 2 ^ (bits - 1) <= z < 2 ^ (bits - 1)).
  { unfold to_signed. divmod z (2 ^ bits). split.
    - intros Hz. destruct (Z.ltb_spec (z mod 2 ^ bits) (2 ^ (bits - 1))); lia.
    - intros Hz. destruct (Z.ltb_spec z 0).
      + rewrite <- (Z.mod_unique z (2 ^ bits) (-1) (z + 2 ^ bits)) by lia. case_cmps.
      + rewrite Z.mod_small by lia. case_cmps. }
  destruct ((- 2 ^ 63 <=? z) && (z <? 2 ^ 63)) eqn:E63; cbn [narrow].
  - destruct ((- 2 ^ (bits - 1) <=? z) && (z <? 2 ^ (bits - 1))) eqn:Eb.
    + rewrite (proj2 Hconv) by lia. by rewrite Z.eqb_refl.
    + rewrite (proj2 (Z.eqb_neq z _)); [done|]. intros Heq. symmetry in Heq. apply Hconv in Heq. lia.
  - destruct ((- 2 ^ (bits - 1) <=? z) && (z <? 2 ^ (bits - 1))) eqn:Eb; [lia|done].
Qed.
End Strings.
