(* ===== verification/NumTextPrint.v ===== *)
(** Printing: the digits of a number and what the conversion routines write. *)

From Stdlib Require Import Ascii.
From S2P Require Import Prelude FindBit Kfifo NumText NumTextFacts.

(** * Digits of a number, the lowest first *)

Fixpoint ldigits (fuel : nat) (base n : Z) : list Z :=
  match fuel with
  | O => []
  | S fuel' => if n <? base then [n] else n mod base :: ldigits fuel' base (n / base)
  end.
(** A 64-bit number has at most 64 digits in any base. *)
Definition digits (base n : Z) : list Z := ldigits 65 base n.
#[global] Arguments digits : simpl never.

Lemma ldigits_S f base n : ldigits (S f) base n = if n <? base then [n] else n mod base :: ldigits f base (n / base).
Proof. done. Qed.
Lemma ldigits_fuel base : 2 <= base -> forall f g n, 0 <= n < base ^ Z.of_nat f -> 0 <= n < base ^ Z.of_nat g -> ldigits (S f) base n = ldigits (S g) base n.
Proof.
  intros Hb. induction f as [|f IH]; intros g n Hf Hg.
  - change (base ^ Z.of_nat 0) with 1 in Hf. cbn. by rewrite (proj2 (Z.ltb_lt n base)) by lia.
  - cbn [ldigits]. destruct (Z.ltb_spec n base) as [|Hn]; [done|]. destruct g as [|g]; [change (base ^ Z.of_nat 0) with 1 in Hg; lia|].
    f_equal. apply IH; rewrite Nat2Z.inj_succ, Z.pow_succ_r in * by lia; (split; [apply Z.div_pos; lia|apply Z.div_lt_upper_bound; lia]).
Qed.
Lemma pow_63 base n : 2 <= base -> 0 <= n < two64 -> 0 <= n / base < base ^ 63.
Proof.
  intros Hb Hn. split; [apply Z.div_pos; lia|]. apply Z.div_lt_upper_bound; [lia|].
  change (n < base * base ^ 63). rewrite <- (Z.pow_succ_r base 63) by lia. pose proof (Z.pow_le_mono_l 2 base 64 ltac:(lia)). unfold two64 in Hn.
  change (Z.succ 63) with 64. change 18446744073709551616 with (2 ^ 64) in Hn. lia.
Qed.
Lemma digits_small base n : n < base -> digits base n = [n].
Proof. intros Hn. unfold digits. by rewrite ldigits_S, (proj2 (Z.ltb_lt n base)). Qed.
Lemma digits_step base n : 2 <= base -> base <= n < two64 -> digits base n = n mod base :: digits base (n / base).
Proof.
  intros Hb Hn. unfold digits. rewrite (ldigits_S 64), (proj2 (Z.ltb_ge n base)) by lia.
  pose proof (pow_63 base n Hb ltac:(lia)) as [Hlo Hhi]. rewrite (ldigits_fuel base Hb 63 64); [reflexivity|done|].
  split; [done|]. change (Z.of_nat 64) with (Z.succ 63). rewrite Z.pow_succ_r by lia. nia.
Qed.

(** Two decimal digits at a time. *)
Definition low2 (x : Z) : list Z := [x mod 10; x / 10].
Lemma digits_100 n : 100 <= n < two64 -> digits 10 n = low2 (n mod 100) ++ digits 10 (n / 100).
Proof.
  intros Hn. pose proof (Z.div_mod n 10 ltac:(lia)) as H1. pose proof (Z.mod_pos_bound n 10 ltac:(lia)) as H2.
  rewrite digits_step by lia. rewrite digits_step by lia. rewrite Z.div_div by lia. change (10 * 10) with 100. unfold low2. cbn [app].
  pose proof (Z.div_mod n 100 ltac:(lia)) as H3. pose proof (Z.mod_pos_bound n 100 ltac:(lia)) as H4.
  pose proof (Z.div_mod (n mod 100) 10 ltac:(lia)) as H5. pose proof (Z.mod_pos_bound (n mod 100) 10 ltac:(lia)) as H6.
  assert (n mod 10 = n mod 100 mod 10) as -> by (symmetry; apply (Z.mod_unique _ _ (n / 100 * 10 + n mod 100 / 10)); lia).
  assert (n / 10 mod 10 = n mod 100 / 10) as ->; [|done].
  assert (n / 10 = n / 100 * 10 + n mod 100 / 10) as -> by (symmetry; apply (Z.div_unique _ _ _ (n mod 100 mod 10)); lia).
  rewrite Z.add_comm, Z.mod_add by lia. apply Z.mod_small. lia.
Qed.
Lemma digits_lt_100 n : 0 <= n < 100 -> digits 10 n = if n <? 10 then [n] else low2 n.
Proof.
  intros Hn. destruct (Z.ltb_spec n 10); [by apply digits_small|]. rewrite digits_step by (unfold two64; lia).
  rewrite digits_small; [done|]. apply Z.div_lt_upper_bound; lia.
Qed.
Lemma digits_value base n : 2 <= base -> 0 <= n < two64 -> value base (reverse (digits base n)) = n.
Proof.
  intros Hb. assert (H : forall f n, 0 <= n < base ^ Z.of_nat f -> value base (reverse (ldigits (S f) base n)) = n).
  { clear n. induction f as [|f IH]; intros n Hn; rewrite ldigits_S.
    - change (base ^ Z.of_nat 0) with 1 in Hn. by rewrite (proj2 (Z.ltb_lt n base)) by lia.
    - destruct (Z.ltb_spec n base); [done|]. rewrite reverse_cons, value_snoc.
      rewrite IH; [pose proof (Z.div_mod n base ltac:(lia)); lia|].
      rewrite Nat2Z.inj_succ, Z.pow_succ_r in Hn by lia. split; [apply Z.div_pos; lia|apply Z.div_lt_upper_bound; lia]. }
  intros Hn. apply (H 64%nat). pose proof (Z.pow_le_mono_l 2 base 64 ltac:(lia)). unfold two64 in Hn.
  change (Z.of_nat 64) with 64. change 18446744073709551616 with (2 ^ 64) in Hn. lia.
Qed.
Lemma digits_range base n : 2 <= base -> 0 <= n < two64 -> Forall (fun d => 0 <= d < base) (digits base n).
Proof.
  intros Hb [Hn _]. unfold digits. generalize 65%nat. intros f. revert n Hn. induction f as [|f IH]; intros n Hn; [constructor|]. cbn [ldigits].
  destruct (Z.ltb_spec n base); [constructor; [lia|constructor]|]. constructor; [apply Z.mod_pos_bound; lia|]. apply IH, Z.div_pos; lia.
Qed.

(** * Division by multiplication *)

Lemma div100_big_spec r : 0 <= r < 100000000 -> div100_big r = r / 100.
Proof.
  intros Hr. unfold div100_big. pose proof (Z.div_mod r 100 ltac:(lia)). pose proof (Z.mod_pos_bound r 100 ltac:(lia)).
  nowrap. rewrite Z.shiftr_div_pow2 by lia. change (2 ^ 32) with 4294967296.
  assert (r * 42949673 / 4294967296 = r / 100) as ->; [|apply w32_small; unfold two32; lia].
  symmetry. apply (Z.div_unique _ _ _ (4 * (r / 100) + 42949673 * (r mod 100))); lia.
Qed.
Lemma div100_small_spec r : 0 <= r < 10000 -> div100_small r = r / 100.
Proof.
  intros Hr. unfold div100_small. pose proof (Z.div_mod r 100 ltac:(lia)). pose proof (Z.mod_pos_bound r 100 ltac:(lia)).
  nowrap. rewrite Z.shiftr_div_pow2 by lia. change (2 ^ 19) with 524288.
  symmetry. apply (Z.div_unique _ _ _ (12 * (r / 100) + 5243 * (r mod 100))); lia.
Qed.

(** * Writing digits *)

Definition chars (ds : list Z) : list Z := (fun d => 48 + d) <$> ds.

(** [tmp'] has [cs] written after the first [off] bytes of [tmp]. *)
Definition wrote (tmp : list Z) (off : Z) (cs : list Z) (out : list Z * Z) : Prop :=
  length out.1 = length tmp /\ out.2 = off + Z.of_nat (length cs)
  /\ take (Z.to_nat out.2) out.1 = take (Z.to_nat off) tmp ++ cs.
Lemma wrote_trans tmp off cs1 tmp1 off1 cs2 out :
  0 <= off -> wrote tmp off cs1 (tmp1, off1) -> wrote tmp1 off1 cs2 out -> wrote tmp off (cs1 ++ cs2) out.
Proof.
  intros Ho (L1&E1&T1) (L2&E2&T2). cbn in *. subst off1. unfold wrote. rewrite length_app, T2, T1. split_and!; [congruence|lia|by rewrite app_assoc].
Qed.

Lemma splice_take tmp off cs :
  0 <= off -> off + Z.of_nat (length cs) <= Z.of_nat (length tmp) -> wrote tmp off cs (splice tmp off cs, off + Z.of_nat (length cs)).
Proof.
  intros Ho Hl. unfold wrote, splice. cbn. split_and!; [|done|].
  - rewrite !length_app, length_take, length_drop. lia.
  - rewrite app_assoc, take_app_length'; [done|]. rewrite length_app, length_take. lia.
Qed.
Lemma put_wrote tmp off c : 0 <= off < Z.of_nat (length tmp) -> exists tmp', put tmp off c = Ret tmp' /\ wrote tmp off [c] (tmp', off + 1).
Proof.
  intros Ho. unfold put, inside. rewrite (proj2 (Z.leb_le 0 off)), (proj2 (Z.leb_le (off + 1) _)) by lia. cbn. eexists. split; [done|].
  unfold wrote. cbn. rewrite length_insert. split_and!; [done|done|]. replace (Z.to_nat (off + 1)) with (S (Z.to_nat off)) by lia.
  rewrite (take_S_r _ _ c) by (rewrite list_lookup_insert_eq; [done|lia]). by rewrite take_insert_ge by lia.
Qed.

Lemma decpair_bytes x : 0 <= x < 100 -> decpair x mod 256 = 48 + x mod 10 /\ decpair x / 256 = 48 + x / 10.
Proof.
  intros Hx. assert (H : forallb (fun x => (decpair x mod 256 =? 48 + x mod 10) && (decpair x / 256 =? 48 + x / 10)) (seqZ 0 100) = true) by reflexivity.
  rewrite forallb_forall in H. specialize (H x). rewrite andb_true_iff, !Z.eqb_eq in H. apply H, list_elem_of_In, elem_of_seqZ. lia.
Qed.
Lemma pair_wrote tmp off x :
  0 <= x < 100 -> 0 <= off -> off + 2 <= Z.of_nat (length tmp) ->
  exists tmp', pair_at tmp off x = Ret tmp' /\ wrote tmp off (chars (low2 x)) (tmp', off + 2).
Proof.
  intros Hx Ho Hl. unfold pair_at, store16, inside. rewrite (proj2 (Z.leb_le 0 x)), (proj2 (Z.ltb_lt x 100)) by lia.
  rewrite (proj2 (Z.leb_le 0 off)), (proj2 (Z.leb_le (off + 2) _)) by lia. cbn [andb Z.leb]. destruct (decpair_bytes x Hx) as [-> ->].
  eexists. split; [done|]. apply (splice_take tmp off (chars (low2 x))); [done|]. cbn. lia.
Qed.
(** The last pair: a single digit is written with a byte to spare. *)
Lemma last_wrote tmp off x :
  0 <= x < 100 -> 0 <= off -> off + 2 <= Z.of_nat (length tmp) ->
  exists out, (let* tmp := pair_at tmp off x in Ret (tmp, off + (if x <? 10 then 1 else 2))) = Ret out
    /\ wrote tmp off (chars (digits 10 x)) out.
Proof.
  intros Hx Ho Hl. destruct (pair_wrote tmp off x Hx Ho Hl) as (tmp'&->&L&_&T). cbn [res_bind]. eexists. split; [done|].
  rewrite digits_lt_100 by done. destruct (Z.ltb_spec x 10) as [H10|H10]; [|done]. unfold wrote. cbn in *. split_and!; [done|done|].
  assert (E : take (Z.to_nat (off + 1)) tmp' = take (Z.to_nat (off + 1)) (take (Z.to_nat (off + 2)) tmp')) by (rewrite take_take; f_equal; lia).
  rewrite E, T. rewrite Z.mod_small by lia. change [48 + x; 48 + x / 10] with ([48 + x] ++ [48 + x / 10]).
  rewrite app_assoc, take_app_length'; [done|]. rewrite length_app, length_take. cbn. lia.
Qed.

(** One step: the pair below, and the quotient goes on. *)
Lemma pair_step tmp off r :
  0 <= r < 100000000 -> 0 <= off -> off + 2 <= Z.of_nat (length tmp) ->
  exists tmp', pair_at tmp off (w32 (r - 100 * (r / 100))) = Ret tmp' /\ length tmp' = length tmp
    /\ wrote tmp off (chars (low2 (r mod 100))) (tmp', off + 2) /\ 0 <= r / 100 /\ 100 * (r / 100) <= r.
Proof.
  intros Hr Ho Hl. divmod r 100. assert (w32 (r - 100 * (r / 100)) = r mod 100) as -> by (unfold w32; rewrite Z.mod_small; unfold two32; lia).
  destruct (pair_wrote tmp off (r mod 100)) as (t&E&W); [lia..|]. exists t. split_and!; [done|apply W|done|lia|lia].
Qed.
Lemma chars_digits_100 r :
  100 <= r < two64 -> chars (digits 10 r) = chars (low2 (r mod 100)) ++ chars (digits 10 (r / 100)).
Proof. intros Hr. rewrite digits_100 by done. apply fmap_app. Qed.

Lemma put_dec_trunc8_wrote tmp off r :
  0 <= r < 100000000 -> 0 <= off -> off + 8 <= Z.of_nat (length tmp) ->
  exists out, put_dec_trunc8 tmp off r = Ret out /\ wrote tmp off (chars (digits 10 r)) out.
Proof.
  intros Hr Ho Hl. unfold put_dec_trunc8. destruct (Z.ltb_spec r 100) as [|H100]; [apply last_wrote; lia|].
  rewrite div100_big_spec, (chars_digits_100 r) by (unfold two64; lia).
  destruct (pair_step tmp off r) as (t1&->&L1&W1&Hq0&Hq); [lia..|]. cbn [res_bind]. set (q := r / 100) in *. destruct (Z.ltb_spec q 100) as [|H1002].
  { destruct (last_wrote t1 (off + 2) q) as (out&->&W2); [lia..|]. eexists. split; [done|]. by eapply wrote_trans. }
  rewrite div100_big_spec, (chars_digits_100 q) by (unfold two64; lia).
  destruct (pair_step t1 (off + 2) q) as (t2&->&L2&W2&Hp0&Hp); [lia..|]. cbn [res_bind]. set (p := q / 100) in *. destruct (Z.ltb_spec p 100) as [|H1003].
  { destruct (last_wrote t2 (off + 2 + 2) p) as (out&->&W3); [lia..|]. eexists. split; [done|]. eapply wrote_trans; [lia|done|]. eapply wrote_trans; [lia|done..]. }
  rewrite div100_small_spec, (chars_digits_100 p) by (unfold two64; lia).
  destruct (pair_step t2 (off + 2 + 2) p) as (t3&->&L3&W3&Ho0&Hoo); [lia..|]. cbn [res_bind].
  destruct (last_wrote t3 (off + 2 + 2 + 2) (p / 100)) as (out&->&W4); [lia..|]. eexists. split; [done|].
  eapply wrote_trans; [lia|done|]. eapply wrote_trans; [lia|done|]. eapply wrote_trans; [lia|done..].
Qed.

(** Eight digits, leading zeros included. *)
Definition full8 (r : Z) : list Z :=
  low2 (r mod 100) ++ low2 (r / 100 mod 100) ++ low2 (r / 100 / 100 mod 100) ++ low2 (r / 100 / 100 / 100).
Lemma put_dec_full8_wrote tmp off r :
  0 <= r < 100000000 -> 0 <= off -> off + 8 <= Z.of_nat (length tmp) ->
  exists tmp', put_dec_full8 tmp off r = Ret (tmp', off + 8) /\ length tmp' = length tmp /\ wrote tmp off (chars (full8 r)) (tmp', off + 8).
Proof.
  intros Hr Ho Hl. unfold put_dec_full8. rewrite div100_big_spec by lia.
  destruct (pair_step tmp off r) as (t1&->&L1&W1&Hq0&Hq); [lia..|]. cbn [res_bind]. rewrite div100_big_spec by lia.
  destruct (pair_step t1 (off + 2) (r / 100)) as (t2&->&L2&W2&Hp0&Hp); [lia..|]. cbn [res_bind]. rewrite div100_small_spec by lia.
  destruct (pair_step t2 (off + 2 + 2) (r / 100 / 100)) as (t3&->&L3&W3&Ho0&Hoo); [lia..|]. cbn [res_bind].
  destruct (pair_wrote t3 (off + 2 + 2 + 2) (r / 100 / 100 / 100)) as (t4&->&W4); [lia..|]. cbn [res_bind].
  replace (off + 2 + 2 + 2 + 2) with (off + 8) in * by lia. exists t4.
  assert (L4 : length t4 = length tmp) by (transitivity (length t3); [apply W4|congruence]). split_and!; [done|done|].
  unfold full8, chars. rewrite !fmap_app. eapply wrote_trans; [lia|exact W1|]. eapply wrote_trans; [lia|exact W2|]. by eapply wrote_trans; [lia|exact W3|].
Qed.
Lemma quotient_shift n q m K : n = q * (100 * K) + m -> 0 < K -> n / 100 = q * K + m / 100 /\ n mod 100 = m mod 100.
Proof.
  intros -> HK. divmod m 100. split.
  - symmetry. apply (Z.div_unique _ _ _ (m mod 100)); lia.
  - symmetry. apply (Z.mod_unique _ _ (q * K + m / 100)); lia.
Qed.
Lemma digits_full8 n : 100000000 <= n < two64 -> digits 10 n = full8 (n mod 100000000) ++ digits 10 (n / 100000000).
Proof.
  intros Hn. divmod n 100000000. set (q := n / 100000000) in *. set (m := n mod 100000000) in *.
  destruct (quotient_shift n q m 1000000) as [D1 M1]; [lia..|]. destruct (quotient_shift (n / 100) q (m / 100) 10000) as [D2 M2]; [lia..|].
  destruct (quotient_shift (n / 100 / 100) q (m / 100 / 100) 100) as [D3 M3]; [lia..|].
  destruct (quotient_shift (n / 100 / 100 / 100) q (m / 100 / 100 / 100) 1) as [D4 M4]; [lia..|].
  divmod m 100. divmod (m / 100) 100. divmod (m / 100 / 100) 100.
  rewrite !digits_100 by lia. rewrite M1, M2, M3, M4, D4. unfold full8. rewrite <- !app_assoc.
  rewrite (Z.mod_small (m / 100 / 100 / 100) 100) by lia. rewrite (Z.div_small (m / 100 / 100 / 100) 100) by lia. do 5 f_equal; f_equal. lia.
Qed.

Lemma put_dec_wrote tmp off n :
  0 <= n < two64 -> 0 <= off -> off + 24 <= Z.of_nat (length tmp) ->
  exists out, put_dec tmp off n = Ret out /\ wrote tmp off (chars (digits 10 n)) out.
Proof.
  intros Hn Ho Hl. unfold put_dec. unfold two64 in Hn. destruct (Z.leb_spec 100000000 n) as [H1|H1].
  2: { cbn [res_bind]. rewrite (proj2 (Z.leb_gt 100000000 n)) by lia. cbn [res_bind]. rewrite w32_small by (unfold two32; lia). apply put_dec_trunc8_wrote; lia. }
  divmod n 100000000. destruct (put_dec_full8_wrote tmp off (n mod 100000000)) as (t1&->&L1&W1); [lia..|]. cbn [res_bind].
  rewrite (digits_full8 n) by (unfold two64; lia). unfold chars. rewrite fmap_app. fold (chars (full8 (n mod 100000000))) (chars (digits 10 (n / 100000000))).
  set (q := n / 100000000) in *. destruct (Z.leb_spec 100000000 q) as [H2|H2].
  2: { cbn [res_bind]. rewrite w32_small by (unfold two32; lia). destruct (put_dec_trunc8_wrote t1 (off + 8) q) as (out&->&W2); [lia..|].
       eexists. split; [done|]. by eapply wrote_trans. }
  divmod q 100000000. destruct (put_dec_full8_wrote t1 (off + 8) (q mod 100000000)) as (t2&->&L2&W2); [lia..|]. cbn [res_bind].
  rewrite (digits_full8 q) by (unfold two64; lia). unfold chars. rewrite fmap_app. fold (chars (full8 (q mod 100000000))) (chars (digits 10 (q / 100000000))).
  rewrite w32_small by (unfold two32; lia). destruct (put_dec_trunc8_wrote t2 (off + 8 + 8) (q / 100000000)) as (out&->&W3); [lia..|].
  eexists. split; [done|]. eapply wrote_trans; [lia|exact W1|]. by eapply wrote_trans; [lia|exact W2|].
Qed.

(** * Strings of decimal digits *)

Definition dec (n : Z) : list Z := chars (reverse (digits 10 n)).

Lemma at_lookup (s : list Z) i c : s !! i = Some c -> at_ s i = Ret c.
Proof. unfold at_. by intros ->. Qed.

Lemma put_ret (buf : list Z) i c : 0 <= i < Z.of_nat (length buf) -> put buf i c = Ret (<[Z.to_nat i := c]> buf).
Proof. intros Hi. unfold put, inside. by rewrite (proj2 (Z.leb_le 0 i)), (proj2 (Z.leb_le (i + 1) _)) by lia. Qed.
Lemma take_insert_S (buf : list Z) i c : (i < length buf)%nat -> take (S i) (<[i := c]> buf) = take i buf ++ [c].
Proof. intros Hi. rewrite (take_S_r _ _ c) by (by rewrite list_lookup_insert_eq). by rewrite take_insert_ge by lia. Qed.

Lemma reverse_loop_spec tmp len : forall n buf idx,
  0 <= idx -> len = idx + Z.of_nat n -> len <= Z.of_nat (length tmp) -> len <= Z.of_nat (length buf) ->
  reverse_loop n buf tmp idx len = Ret (take (Z.to_nat idx) buf ++ reverse (take n tmp) ++ drop (Z.to_nat len) buf).
Proof.
  induction n as [|n IH]; intros buf idx Hi Hlen Ht Hbuf; cbn [reverse_loop].
  - rewrite take_0, reverse_nil. cbn [app]. replace len with idx by lia. by rewrite take_drop.
  - assert (Hn : (n < length tmp)%nat) by lia. apply lookup_lt_is_Some in Hn as [c Hc].
    rewrite (at_lookup tmp _ c) by (replace (Z.to_nat (len - idx - 1)) with n by lia; done). cbn [res_bind].
    rewrite put_ret by lia. cbn [res_bind]. rewrite IH by (rewrite ?length_insert; lia).
    replace (Z.to_nat (idx + 1)) with (S (Z.to_nat idx)) by lia. rewrite take_insert_S, drop_insert_lt by lia.
    by rewrite (take_S_r tmp n c Hc), reverse_app, <- !app_assoc.
Qed.

Lemma num_to_str_spec tmp buf size num :
  0 <= num < two64 -> length tmp = 24%nat -> size <= Z.of_nat (length buf) ->
  num_to_str tmp buf size num =
  let cs := dec num in
  if size <? Z.of_nat (length cs) then Ret (buf, 0) else Ret (cs ++ drop (length cs) buf, Z.of_nat (length cs)).
Proof.
  intros Hn Ht Hsize. unfold num_to_str. cbv zeta.
  assert (exists tmp' len, (if num <=? 9 then let* tmp := put tmp 0 (chr "0" + num) in Ret (tmp, 1) else put_dec tmp 0 num) = Ret (tmp', len)
    /\ wrote tmp 0 (chars (digits 10 num)) (tmp', len)) as (tmp'&len&->&L&E&T).
  { destruct (Z.leb_spec num 9).
    - destruct (put_wrote tmp 0 (chr "0" + num)) as (t&->&W); [lia|]. exists t, 1. split; [done|]. by rewrite digits_small by lia.
    - destruct (put_dec_wrote tmp 0 num) as ([t len]&E&W); [lia..|]. by exists t, len. }
  cbn [fst snd] in L, E, T. change (take (Z.to_nat 0) tmp) with (@nil Z) in T. cbn [app] in T. cbn [res_bind]. assert (Hlen : length (dec num) = length (chars (digits 10 num))).
  { unfold dec, chars. by rewrite !length_fmap, length_reverse. }
  rewrite Z.add_0_l in E. rewrite Hlen, <- E. destruct (Z.ltb_spec size len); [done|].
  assert (Hl : len <= Z.of_nat (length tmp')).
  { apply (f_equal length) in T. rewrite length_take in T. lia. }
  rewrite reverse_loop_spec by lia. cbn [res_bind]. rewrite T. change (take (Z.to_nat 0) buf) with (@nil Z). cbn [app].
  replace (dec num) with (reverse (chars (digits 10 num))) by (symmetry; apply fmap_reverse).
  replace (Z.to_nat len) with (length (chars (digits 10 num))) by lia. done.
Qed.

(** * Formatted output *)

(** [out] is the output [cs] at [buf], cut off at [end_]. *)
Definition emits (end_ : Z) (mem : list Z) (buf : Z) (cs : list Z) (out : list Z * Z) : Prop :=
  out.2 = buf + Z.of_nat (length cs) /\ length out.1 = length mem
  /\ forall i : nat, out.1 !! i = if decide (buf <= Z.of_nat i < end_ /\ Z.of_nat i < buf + Z.of_nat (length cs))
                             then cs !! Z.to_nat (Z.of_nat i - buf) else mem !! i.
Lemma emits_nil end_ mem buf : emits end_ mem buf [] (mem, buf).
Proof. unfold emits. cbn. split_and!; [lia|done|]. intros i. rewrite decide_False; [done|lia]. Qed.
Lemma emits_app end_ mem buf cs1 out cs2 out' :
  0 <= buf -> emits end_ mem buf cs1 out -> emits end_ out.1 out.2 cs2 out' -> emits end_ mem buf (cs1 ++ cs2) out'.
Proof.
  intros Hb (E1&L1&H1) (E2&L2&H2). unfold emits. rewrite length_app. split_and!; [lia|congruence|]. intros i. rewrite H2, E1, H1.
  destruct (decide (buf + Z.of_nat (length cs1) <= Z.of_nat i < end_ /\ Z.of_nat i < buf + Z.of_nat (length cs1) + Z.of_nat (length cs2))) as [Hi|Hi].
  - rewrite decide_True by lia. rewrite lookup_app_r by lia. f_equal. lia.
  - destruct (decide (buf <= Z.of_nat i < end_ /\ Z.of_nat i < buf + Z.of_nat (length cs1))) as [Hj|Hj].
    + rewrite decide_True by lia. by rewrite lookup_app_l by lia.
    + by rewrite decide_False by lia.
Qed.

Section Emit.
Context (end_ : Z).
(** A step of output: it returns, and what it wrote. *)
Definition writes (c : list Z * Z -> res (list Z * Z)) (cs : list Z) : Prop :=
  forall mem buf, 0 <= buf -> end_ <= Z.of_nat (length mem) -> exists out, c (mem, buf) = Ret out /\ emits end_ mem buf cs out.

Lemma writes_nil : writes (fun out => Ret out) [].
Proof. intros mem buf _ _. eexists. split; [done|apply emits_nil]. Qed.
Lemma writes_bind c cs k cs' : writes c cs -> writes k cs' -> writes (fun out => let* out := c out in k out) (cs ++ cs').
Proof.
  intros Hc Hk mem buf Hb He. destruct (Hc mem buf Hb He) as ([m1 b1]&E&H1). rewrite E. cbn [res_bind]. pose proof H1 as (E1&L1&_). cbn in E1, L1.
  destruct (Hk m1 b1) as (out&->&H2); [lia|lia|]. exists out. split; [done|]. by eapply emits_app.
Qed.
Lemma writes_emit c : writes (fun out => emit end_ out c) [c].
Proof.
  intros mem buf Hb He. unfold emit. destruct (Z.ltb_spec buf end_) as [Hlt|Hge].
  - rewrite put_ret by lia. cbn [res_bind]. eexists. split; [done|]. unfold emits. cbn. rewrite length_insert. split_and!; [done|done|]. intros i.
    case_decide.
    + assert (i = Z.to_nat buf) as -> by lia. rewrite list_lookup_insert_eq by lia. by replace (Z.to_nat (Z.of_nat (Z.to_nat buf) - buf)) with 0%nat by lia.
    + by rewrite list_lookup_insert_ne by lia.
  - eexists. split; [done|]. unfold emits. cbn. split_and!; [done|done|]. intros i. by rewrite decide_False by lia.
Qed.
Lemma writes_loop c n : writes (fun out => emit_loop n end_ out c) (replicate n c).
Proof. induction n as [|n IH]; cbn [emit_loop replicate]; [apply writes_nil|]. apply (writes_bind _ [c]); [apply writes_emit|done]. Qed.
Lemma writes_if (b : bool) c : writes (fun out => emit_if b end_ out c) (if b then [c] else []).
Proof. unfold emit_if. destruct b; [apply writes_emit|apply writes_nil]. Qed.
Lemma writes_digits tmp : forall i, (i <= length tmp)%nat -> writes (fun out => emit_digits i end_ out tmp) (reverse (take i tmp)).
Proof.
  induction i as [|i IH]; intros Hi; cbn [emit_digits]; [apply writes_nil|].
  assert (Hl : (i < length tmp)%nat) by lia. apply lookup_lt_is_Some in Hl as [c Hc]. rewrite (take_S_r tmp i c Hc), reverse_app.
  rewrite (at_lookup tmp i c Hc). cbn [res_bind]. apply (writes_bind (fun out => emit end_ out c) [c] (fun out => emit_digits i end_ out tmp)); [apply writes_emit|]. apply IH. lia.
Qed.
End Emit.

(** ** The digits in [tmp] *)

Definition hexchar (locase d : Z) : Z := Z.lor (nth (Z.to_nat d) hex_asc_upper 0) locase.
Definition case_ok (locase : Z) : Prop := locase = 0 \/ locase = 32.
Lemma hexchar_dec locase d : case_ok locase -> 0 <= d < 10 -> hexchar locase d = 48 + d.
Proof.
  intros Hl Hd. assert (d = 0 \/ d = 1 \/ d = 2 \/ d = 3 \/ d = 4 \/ d = 5 \/ d = 6 \/ d = 7 \/ d = 8 \/ d = 9) as Hc by lia.
  destruct Hl as [-> | ->]; repeat (destruct Hc as [-> |Hc]; [done|]); by subst.
Qed.
Lemma hex_digit_at d : 0 <= d < 16 -> at_ hex_asc_upper (Z.to_nat d) = Ret (nth (Z.to_nat d) hex_asc_upper 0).
Proof.
  intros Hd. apply at_lookup. destruct (lookup_lt_is_Some_2 hex_asc_upper (Z.to_nat d)) as [c Hc]; [cbn; lia|].
  by rewrite Hc, (nth_lookup_Some _ _ _ _ Hc).
Qed.
Lemma ldigits_length base f : forall k n, 2 <= base -> 0 <= n < base ^ Z.of_nat (S k) -> (length (ldigits f base n) <= S k)%nat.
Proof.
  induction f as [|f IH]; intros k n Hb Hn; cbn [ldigits]; [cbn; lia|]. destruct (Z.ltb_spec n base); [cbn; lia|].
  destruct k as [|k]; [change (Z.of_nat 1) with 1 in Hn; rewrite Z.pow_1_r in Hn; lia|]. cbn [length]. apply le_n_S, IH; [done|].
  rewrite (Nat2Z.inj_succ (S k)), Z.pow_succ_r in Hn by lia. split; [apply Z.div_pos; lia|apply Z.div_lt_upper_bound; lia].
Qed.

Section Digits.
Context (shift locase : Z) (Hshift : shift = 3 \/ shift = 4) (Hcase : case_ok locase).
Let base := 2 ^ shift.

Lemma low_digit num : 0 <= num -> Z.land (num mod 256) (base - 1) = num mod base /\ Z.shiftr num shift = num / base /\ 8 <= base <= 16.
Proof using Hshift.
  intros Hn. unfold base. destruct Hshift as [-> | ->].
  - split_and!; [|by rewrite Z.shiftr_div_pow2|done|done]. change (2 ^ 3 - 1) with (Z.ones 3). rewrite Z.land_ones by lia.
    change 256 with (2 ^ 3 * 32). rewrite Z.rem_mul_r by lia. rewrite (Z.mul_comm (2 ^ 3)), Z.mod_add by lia. apply Z.mod_mod. lia.
  - split_and!; [|by rewrite Z.shiftr_div_pow2|done|done]. change (2 ^ 4 - 1) with (Z.ones 4). rewrite Z.land_ones by lia.
    change 256 with (2 ^ 4 * 16). rewrite Z.rem_mul_r by lia. rewrite (Z.mul_comm (2 ^ 4)), Z.mod_add by lia. apply Z.mod_mod. lia.
Qed.
Lemma pow2_digits_wrote : forall fuel tmp i num,
  0 <= num < base ^ Z.of_nat fuel -> 0 <= i -> i + Z.of_nat (length (ldigits fuel base num)) <= Z.of_nat (length tmp) -> (0 < fuel)%nat ->
  exists out, pow2_digits fuel tmp i num (base - 1) shift locase = Ret out /\ wrote tmp i (hexchar locase <$> ldigits fuel base num) out.
Proof using Hshift.
  induction fuel as [|fuel IH]; intros tmp i num Hnum Hi Hlen Hf; [lia|]. cbn [pow2_digits].
  destruct (low_digit num) as (->&->&Hb); [lia|]. pose proof (Z.mod_pos_bound num base ltac:(lia)) as Hm.
  rewrite hex_digit_at by lia. cbn [res_bind]. fold (hexchar locase (num mod base)). cbn [ldigits] in Hlen |- *.
  rewrite Nat2Z.inj_succ, Z.pow_succ_r in Hnum by lia. pose proof (Z.div_mod num base ltac:(lia)) as Hdm.
  destruct (Z.ltb_spec num base) as [Hlt|Hge].
  - destruct (put_wrote tmp i (hexchar locase (num mod base))) as (t&->&W); [cbn in Hlen; lia|]. cbn [res_bind].
    rewrite Z.div_small, Z.mod_small in * by lia. eexists. split; [done|done].
  - destruct (put_wrote tmp i (hexchar locase (num mod base))) as (t&->&W); [cbn in Hlen; lia|]. cbn [res_bind].
    assert (Hq : 0 < num / base) by (apply Z.div_str_pos; lia). rewrite (proj2 (Z.eqb_neq (num / base) 0)) by lia. cbn [negb].
    assert (Ht : length t = length tmp) by apply W. destruct (IH t (i + 1) (num / base)) as (out&->&W2).
    + split; [lia|apply Z.div_lt_upper_bound; lia].
    + lia.
    + cbn [length] in Hlen. lia.
    + destruct fuel; [change (Z.of_nat 0) with 0 in Hnum; rewrite Z.pow_0_r in Hnum; lia|lia].
    + exists out. split; [done|]. change (hexchar locase <$> num mod base :: ldigits fuel base (num / base)) with ([hexchar locase (num mod base)] ++ (hexchar locase <$> ldigits fuel base (num / base))).
      by eapply wrote_trans.
Qed.
End Digits.

Definition base_ok (base : Z) : Prop := base = 8 \/ base = 10 \/ base = 16.
Lemma digits_length base n : base_ok base -> 0 <= n < two64 -> (length (digits base n) <= 22)%nat.
Proof.
  intros Hb Hn. apply ldigits_length; [destruct Hb as [-> |[-> | ->]]; lia|]. split; [lia|]. unfold two64 in Hn.
  destruct Hb as [-> |[-> | ->]]; cbn; lia.
Qed.
Lemma number_digits_wrote tmp num base locase :
  base_ok base -> case_ok locase -> 0 <= num < two64 -> length tmp = 24%nat ->
  exists out, number_digits tmp num base locase = Ret out /\ wrote tmp 0 (hexchar locase <$> digits base num) out.
Proof.
  intros Hb Hc Hn Ht. pose proof (digits_length base num Hb Hn) as Hl. unfold number_digits. destruct (Z.ltb_spec num base) as [Hlt|Hge].
  - rewrite hex_digit_at by (destruct Hb as [-> |[-> | ->]]; lia). cbn [res_bind]. fold (hexchar locase num).
    destruct (put_wrote tmp 0 (hexchar locase num)) as (t&->&W); [lia|]. eexists. split; [done|]. by rewrite digits_small by done.
  - destruct (Z.eqb_spec base 10) as [->|H10]; cbn [negb].
    + destruct (put_dec_wrote tmp 0 num) as (out&->&W); [lia..|]. exists out. split; [done|]. replace (hexchar locase <$> digits 10 num) with (chars (digits 10 num)); [done|].
      pose proof (digits_range 10 num ltac:(lia) Hn) as Hr. unfold chars. clear -Hr Hc. induction Hr as [|d ds Hd _ IH]; [done|]. cbn. by rewrite IH, hexchar_dec.
    + assert (exists shift, base = 2 ^ shift /\ (shift = 3 \/ shift = 4) /\ shift = if base =? 16 then 4 else 3) as (shift&Eb&Hs&<-).
      { destruct Hb as [-> |[-> | ->]]; [exists 3|done|exists 4]; auto. }
      rewrite Eb in *. apply pow2_digits_wrote; [done| |lia|unfold digits in Hl; lia|lia].
      split; [lia|]. unfold two64 in Hn. destruct Hs as [-> | ->]; cbn; lia.
Qed.

(** ** The layout of a formatted number *)

Definition sign_text (fl num : Z) : list Z :=
  if flag fl SIGN then
    if s64 num <? 0 then [chr "-"] else if flag fl PLUS then [chr "+"] else if flag fl SPACE then [chr " "] else []
  else [].
Definition magnitude (fl num : Z) : Z := if flag fl SIGN then Z.abs (s64 num) else num.
Definition prefix_text (fl base num : Z) : list Z :=
  if flag fl SPECIAL then
    if base =? 16 then [chr "0"; Z.lor (chr "X") (Z.land fl SMALL)]
    else if (base =? 8) && negb (num =? 0) then [chr "0"] else []
  else [].
Definition digit_text (spec : printf_spec) (num : Z) : list Z :=
  let ds := reverse (hexchar (Z.land (flags spec) SMALL) <$> digits (base spec) (magnitude (flags spec) num)) in
  replicate (Z.to_nat (precision spec) - length ds) (chr "0") ++ ds.
(** Sign, prefix and digits, padded on the left with spaces or, after the
    prefix, with [z], or on the right. *)
Definition arrange (fl z : Z) (head body : list Z) (pad : nat) : list Z :=
  if flag fl LEFT then head ++ body ++ replicate pad (chr " ")
  else if flag fl ZEROPAD then head ++ replicate pad z ++ body
  else replicate pad (chr " ") ++ head ++ body.
Definition layout (spec : printf_spec) (num : Z) : list Z :=
  let head := sign_text (flags spec) num ++ prefix_text (flags spec) (base spec) num in
  let body := digit_text spec num in
  arrange (flags spec) (chr "0") head body (Z.to_nat (field_width spec) - length (head ++ body))%nat.

Lemma writes_width end_ c w cs k :
  (forall w', w' < 0 -> writes end_ (fun out => k (out, w')) cs) ->
  writes end_ (fun out => let* x := emit_width end_ out c w in k x) (replicate (Z.to_nat w) c ++ cs).
Proof.
  intros Hk mem buf Hb He. unfold emit_width. cbn.
  destruct (writes_bind end_ _ _ _ _ (writes_loop end_ c (Z.to_nat w)) (Hk (Z.min w 0 - 1) ltac:(lia)) mem buf Hb He) as (out&E&H).
  exists out. split; [|done]. rewrite <- E. by destruct (emit_loop _ _ _ _).
Qed.
Lemma writes_width_nil end_ c w : writes end_ (fun out => let* (out, _) := emit_width end_ out c w in Ret out) (replicate (Z.to_nat w) c).
Proof. rewrite <- (app_nil_r (replicate _ _)). apply writes_width. intros w' _. apply writes_nil. Qed.

Lemma flag_lor f a b : flag f (Z.lor a b) = flag f a || flag f b.
Proof.
  unfold flag. rewrite Z.land_lor_distr_r. destruct (Z.eqb_spec (Z.lor (Z.land f a) (Z.land f b)) 0) as [E|E].
  - apply Z.lor_eq_0_iff in E as [-> ->]. done.
  - destruct (Z.eqb_spec (Z.land f a) 0) as [Ea|]; [|done]. destruct (Z.eqb_spec (Z.land f b) 0) as [Eb|]; [|done].
    exfalso. apply E. by rewrite Ea, Eb.
Qed.
(** Clearing [ZEROPAD] leaves the other flags. *)
Lemma flag_clear f m : 0 <= f < 256 -> Z.land (255 - ZEROPAD) m = m -> flag (Z.land f (255 - ZEROPAD)) m = flag f m.
Proof. intros Hf Hm. unfold flag. by rewrite <- Z.land_assoc, Hm. Qed.

Section NumberEmit.
Context (end_ : Z) (tmp : list Z) (fl base locase : Z) (need_pfx is_zero : bool) (sign w prec i : Z).
Context (Hi : 0 <= i <= Z.of_nat (length tmp)).

Let head : list Z :=
  (if negb (sign =? 0) then [sign] else []) ++ (if need_pfx && ((base =? 16) || negb is_zero) then [chr "0"] else [])
  ++ (if need_pfx && (base =? 16) then [Z.lor (chr "X") locase] else []).
Let body : list Z := replicate (Z.to_nat (prec - i)) (chr "0") ++ reverse (take (Z.to_nat i) tmp).

Lemma writes_tail w' :
  writes end_ (fun out => let* out := emit_loop (Z.to_nat (prec - i)) end_ out (chr "0") in
                          let* out := emit_digits (Z.to_nat i) end_ out tmp in
                          let* (out, _) := emit_width end_ out (chr " ") w' in Ret out)
    (body ++ replicate (Z.to_nat w') (chr " ")).
Proof using Hi.
  unfold body. rewrite <- app_assoc. apply (writes_bind end_ (fun out => emit_loop _ end_ out _)); [apply writes_loop|].
  apply (writes_bind end_ (fun out => emit_digits _ end_ out tmp)); [apply writes_digits; lia|]. apply writes_width_nil.
Qed.
Lemma writes_head k cs :
  writes end_ k cs ->
  writes end_ (fun out => let* out := emit_if (negb (sign =? 0)) end_ out sign in
                          let* out := emit_if (need_pfx && ((base =? 16) || negb is_zero)) end_ out (chr "0") in
                          let* out := emit_if (need_pfx && (base =? 16)) end_ out (Z.lor (chr "X") locase) in k out)
    (head ++ cs).
Proof using.
  intros Hk. unfold head. rewrite <- !app_assoc. apply (writes_bind end_ (fun out => emit_if _ end_ out sign)); [apply writes_if|].
  apply (writes_bind end_ (fun out => emit_if _ end_ out (chr "0"))); [apply writes_if|].
  apply (writes_bind end_ (fun out => emit_if _ end_ out (Z.lor (chr "X") locase))); [apply writes_if|done].
Qed.

Lemma writes_number_emit :
  writes end_ (number_emit end_ tmp fl base locase need_pfx is_zero sign w prec i)
    (arrange fl (chr " " + Z.land fl ZEROPAD) head body (Z.to_nat w)).
Proof using Hi.
  intros mem buf Hb He. unfold number_emit, arrange. rewrite flag_lor. destruct (flag fl LEFT) eqn:EL; [|destruct (flag fl ZEROPAD) eqn:EZ]; cbn [negb orb].
  - rewrite orb_true_r. cbn [negb res_bind app]. exact (writes_head _ _ (writes_tail w) mem buf Hb He).
  - cbn [res_bind]. refine (writes_head (fun out => let* (out, w') := emit_width end_ out (chr " " + Z.land fl ZEROPAD) w in _) _ _ mem buf Hb He).
    apply (writes_width end_ _ w body (fun '(out, w') => _)). intros w' Hw'. cbn beta iota.
    pose proof (writes_tail w') as Ht. replace (Z.to_nat w') with 0%nat in Ht by lia. by rewrite app_nil_r in Ht.
  - refine (writes_width end_ (chr " ") w (head ++ body) (fun '(out, w') => _) _ mem buf Hb He). intros w' Hw'. cbn beta iota.
    apply (writes_head (fun out => let* (out, w') := emit_width end_ out (chr " " + Z.land fl ZEROPAD) w' in _)).
    replace body with (replicate (Z.to_nat w') (chr " " + Z.land fl ZEROPAD) ++ body) at 1 by (by replace (Z.to_nat w') with 0%nat by lia).
    apply (writes_width end_ _ w' body (fun '(out, w') => _)). intros w2 Hw2. cbn beta iota.
    pose proof (writes_tail w2) as Ht. replace (Z.to_nat w2) with 0%nat in Ht by lia. by rewrite app_nil_r in Ht.
Qed.
End NumberEmit.

Lemma number_sign_spec num w fl :
  0 <= num < two64 ->
  exists sign, number_sign num w fl = (sign, magnitude fl num, w - Z.of_nat (length (sign_text fl num)))
    /\ (if negb (sign =? 0) then [sign] else []) = sign_text fl num.
Proof.
  intros Hn. unfold number_sign, magnitude, sign_text. destruct (flag fl SIGN).
  2: { exists 0. split; [|done]. cbn. by rewrite Z.sub_0_r. }
  assert (Hs : - 2 ^ 63 <= s64 num < 2 ^ 63 /\ (0 <= s64 num -> s64 num = num)).
  { unfold s64. rewrite w64_small by done. unfold two64 in *. case_cmps. }
  destruct (Z.ltb_spec (s64 num) 0) as [Hneg|Hpos].
  { exists (chr "-"). split; [|done]. rewrite w64_small by (unfold two64; lia). f_equal; f_equal; lia. }
  assert (Z.abs (s64 num) = num) as -> by (rewrite Z.abs_eq by lia; by apply Hs).
  destruct (flag fl PLUS); [by exists (chr "+")|]. destruct (flag fl SPACE); [by exists (chr " ")|].
  exists 0. split; [|done]. cbn. by rewrite Z.sub_0_r.
Qed.
Lemma magnitude_range fl num : 0 <= num < two64 -> 0 <= magnitude fl num < two64.
Proof.
  intros Hn. unfold magnitude. destruct (flag fl SIGN); [|done]. unfold s64. rewrite w64_small by done. unfold two64 in *. case_cmps.
Qed.
Lemma zeropad_char fl : 0 <= fl < 256 -> flag fl ZEROPAD = true -> chr " " + Z.land fl ZEROPAD = chr "0".
Proof.
  intros Hf Hz. pose proof (all_bytes (fun f => negb (flag f ZEROPAD) || (chr " " + Z.land f ZEROPAD =? chr "0")) eq_refl fl Hf) as H.
  cbv beta in H. rewrite Hz in H. by apply Z.eqb_eq.
Qed.
Lemma small_case fl : 0 <= fl < 256 -> case_ok (Z.land fl SMALL).
Proof.
  intros Hf. pose proof (all_bytes (fun f => (Z.land f SMALL =? 0) || (Z.land f SMALL =? 32)) eq_refl fl Hf) as H. cbv beta in H.
  apply orb_true_iff in H as [H|H]; apply Z.eqb_eq in H; [by left|by right].
Qed.

Definition effective (fl : Z) : Z := if flag fl LEFT then Z.land fl (255 - ZEROPAD) else fl.
Lemma effective_flag fl m : 0 <= fl < 256 -> Z.land (255 - ZEROPAD) m = m -> flag (effective fl) m = flag fl m.
Proof. intros Hf Hm. unfold effective. destruct (flag fl LEFT); [by apply flag_clear|done]. Qed.
Lemma effective_sign fl num : 0 <= fl < 256 -> sign_text (effective fl) num = sign_text fl num /\ magnitude (effective fl) num = magnitude fl num.
Proof. intros Hf. unfold sign_text, magnitude. by rewrite !effective_flag. Qed.

(** The prefix, as the code builds it. *)
Lemma prefix_spec fl base num locase :
  base_ok base -> locase = Z.land fl SMALL ->
  let need_pfx := flag fl SPECIAL && negb (base =? 10) in
  (if need_pfx && ((base =? 16) || negb (num =? 0)) then [chr "0"] else []) ++ (if need_pfx && (base =? 16) then [Z.lor (chr "X") locase] else [])
  = prefix_text fl base num
  /\ forall w, (if need_pfx then if base =? 16 then w - 2 else if negb (num =? 0) then w - 1 else w else w)
        = w - Z.of_nat (length (prefix_text fl base num)).
Proof.
  intros Hb ->. unfold prefix_text. destruct Hb as [-> |[-> | ->]]; destruct (flag fl SPECIAL), (num =? 0); cbn; (split; [done|]); intros w; lia.
Qed.

Lemma number_spec tmp mem buf end_ num spec :
  base_ok (base spec) -> 0 <= flags spec < 256 -> 0 <= num < two64 -> length tmp = 24%nat ->
  0 <= buf -> end_ <= Z.of_nat (length mem) ->
  exists out, number tmp mem buf end_ num spec = Ret out /\ emits end_ mem buf (layout spec num) out.
Proof.
  intros Hb Hf Hn Ht Hbuf He. unfold number. cbv zeta. fold (effective (flags spec)).
  destruct (number_sign_spec num (field_width spec) (effective (flags spec)) Hn) as (sign&->&Hsign).
  destruct (effective_sign (flags spec) num Hf) as [Es Em]. rewrite Es in *. rewrite Em. cbn beta iota.
  destruct (number_digits_wrote tmp (magnitude (flags spec) num) (base spec) (Z.land (flags spec) SMALL)) as ([t i]&->&L&Ei&T);
    [done|by apply small_case|by apply magnitude_range|done|].
  cbn [fst snd res_bind] in *. rewrite Z.add_0_l in Ei. change (take (Z.to_nat 0) tmp) with (@nil Z) in T. cbn [app] in T.
  set (ds := hexchar _ <$> _) in *. assert (Hi : 0 <= i <= Z.of_nat (length t)).
  { apply (f_equal length) in T. rewrite length_take in T. lia. }
  destruct (prefix_spec (flags spec) (base spec) num _ Hb eq_refl) as [Hpfx Hpw]. cbv zeta in Hpfx, Hpw. rewrite Hpw.
  set (prec := if precision spec <? i then i else precision spec). set (w := _ - prec).
  destruct (writes_number_emit end_ t (effective (flags spec)) (base spec) (Z.land (flags spec) SMALL) (flag (flags spec) SPECIAL && negb (base spec =? 10))
    (num =? 0) sign w prec i Hi mem buf Hbuf He) as (out&->&H). exists out. split; [done|].
  replace (layout spec num) with (arrange (effective (flags spec)) (chr " " + Z.land (effective (flags spec)) ZEROPAD)
    (sign_text (flags spec) num ++ prefix_text (flags spec) (base spec) num)
    (replicate (Z.to_nat (prec - i)) (chr "0") ++ reverse (take (Z.to_nat i) t)) (Z.to_nat w)); [by rewrite <- Hsign, <- Hpfx|].
  clear H out. unfold layout. cbv zeta. rewrite T. assert (Hbody : digit_text spec num = replicate (Z.to_nat (prec - i)) (chr "0") ++ reverse ds).
  { unfold digit_text. fold ds. f_equal. f_equal. rewrite length_reverse. unfold prec. destruct (Z.ltb_spec (precision spec) i); lia. }
  rewrite <- Hbody. replace (Z.to_nat w) with (Z.to_nat (field_width spec) - length ((sign_text (flags spec) num ++ prefix_text (flags spec) (base spec) num) ++ digit_text spec num))%nat.
  2: { rewrite Hbody, !length_app, length_replicate, length_reverse. unfold w, prec. destruct (Z.ltb_spec (precision spec) i); lia. }
  unfold arrange. rewrite !(effective_flag _ LEFT) by done. unfold effective. destruct (flag (flags spec) LEFT) eqn:EL; [done|].
  destruct (flag (flags spec) ZEROPAD) eqn:EZ; [|done]. by rewrite zeropad_char.
Qed.
