(* ===== verification/NumTextSpec.v ===== *)
(** What the conversions between numbers and text promise: parsing accepts
    exactly the numbers it documents and reports what it rejects, printing lays
    out the digits, and the two are inverse to each other. *)

From Stdlib Require Import Ascii.
From S2P Require Import Prelude FindBit Kfifo KfifoFacts NumText NumTextFacts NumTextPrint.

(** * Reading back what was printed *)

Lemma digit_hexchar locase d base :
  case_ok locase -> 0 <= d < base -> base <= 16 -> digit_in base (hexchar locase d) = Some d /\ 1 <= hexchar locase d < 256.
Proof.
  intros Hl Hd Hb.
  assert (H : forallb (fun d => bool_decide (digit_val (hexchar locase d) = Some d) && (1 <=? hexchar locase d) && (hexchar locase d <? 256)) (seqZ 0 16) = true)
    by (by destruct Hl as [-> | ->]).
  rewrite forallb_forall in H. specialize (H d). rewrite !andb_true_iff, bool_decide_eq_true in H.
  destruct H as [[Hv H1] H2]; [apply list_elem_of_In, elem_of_seqZ; lia|]. unfold digit_in. rewrite Hv, (proj2 (Z.ltb_lt d base)) by lia. split; [done|lia].
Qed.
Lemma span_hexchar locase base ds :
  case_ok locase -> base <= 16 -> Forall (fun d => 0 <= d < base) ds ->
  span_digits base (hexchar locase <$> ds) = (ds, []) /\ text (hexchar locase <$> ds).
Proof.
  intros Hl Hb Hds. induction Hds as [|d ds Hd _ [IH1 IH2]]; [split; [done|constructor]|]. cbn [fmap list_fmap span_digits].
  destruct (digit_hexchar locase d base Hl Hd Hb) as [-> Hr]. change (list_fmap Z Z (hexchar locase) ds) with (hexchar locase <$> ds). rewrite IH1. split; [done|]. by constructor.
Qed.
(** The first digit of a number is not zero, except for zero itself. *)
Lemma digits_head base n : 2 <= base -> 0 < n < two64 -> exists d ds, reverse (digits base n) = d :: ds /\ 0 < d < base.
Proof.
  intros Hb Hn. unfold digits. assert (H : forall f n, 0 < n < base ^ Z.of_nat f -> exists d ds, reverse (ldigits (S f) base n) = d :: ds /\ 0 < d < base).
  { clear n Hn. induction f as [|f IH]; intros n Hn; rewrite ldigits_S.
    - change (base ^ Z.of_nat 0) with 1 in Hn. lia.
    - destruct (Z.ltb_spec n base); [exists n, []; split; [done|lia]|]. rewrite Nat2Z.inj_succ, Z.pow_succ_r in Hn by lia.
      destruct (IH (n / base)) as (d&ds&E&Hd); [split; [apply Z.div_str_pos; lia|apply Z.div_lt_upper_bound; lia]|].
      rewrite reverse_cons, E. by exists d, (ds ++ [n mod base]). }
  apply (H 64%nat). pose proof (Z.pow_le_mono_l 2 base 64 ltac:(lia)). unfold two64 in Hn. change (Z.of_nat 64) with 64.
  change 18446744073709551616 with (2 ^ 64) in Hn. lia.
Qed.

(** The digits alone, in a given base. *)
Definition digits_text (locase base n : Z) : list Z := hexchar locase <$> reverse (digits base n).
Lemma digits_text_spec locase base n :
  case_ok locase -> 2 <= base <= 16 -> 0 <= n < two64 ->
  span_digits base (digits_text locase base n) = (reverse (digits base n), []) /\ text (digits_text locase base n)
  /\ value base (reverse (digits base n)) = n /\ reverse (digits base n) <> [].
Proof.
  intros Hl Hb Hn. pose proof (digits_range base n ltac:(lia) Hn) as Hr.
  destruct (span_hexchar locase base (reverse (digits base n)) Hl ltac:(lia)) as [H1 H2]; [by apply Forall_reverse|].
  split_and!; [done|done|by apply digits_value; lia|]. unfold digits. rewrite ldigits_S. destruct (n <? base); [done|].
  rewrite reverse_cons. intros E. by apply app_nil in E as [_ E].
Qed.
Lemma parse_digits_text locase base n :
  case_ok locase -> 2 <= base <= 16 -> 0 <= n < two64 -> hex_prefix (digits_text locase base n) = None \/ base <> 16 ->
  ref_magnitude base (digits_text locase base n) = Parsed n.
Proof.
  intros Hl Hb Hn Hp. destruct (digits_text_spec locase base n Hl Hb Hn) as (Hs&_&Hv&Hne). unfold ref_magnitude, radix_split.
  assert (radix base (digits_text locase base n) = base) as -> by (unfold radix; by rewrite (proj2 (Z.eqb_neq base 0)) by lia).
  assert ((if base =? 16 then default (digits_text locase base n) (hex_prefix (digits_text locase base n)) else digits_text locase base n) = digits_text locase base n) as ->.
  { destruct (Z.eqb_spec base 16); [|done]. destruct Hp as [-> |]; done. }
  rewrite Hs, Hv, (proj2 (Z.leb_gt two64 n)) by lia. rewrite (bool_decide_eq_false_2 _ Hne). by rewrite bool_decide_eq_true_2 by (by left).
Qed.

Lemma plain_layout fl b num :
  flag fl LEFT = false -> flag fl ZEROPAD = false ->
  layout (mkSpec 0 fl b (-1)) num = sign_text fl num ++ prefix_text fl b num ++ digits_text (Z.land fl SMALL) b (magnitude fl num).
Proof.
  intros HL HZ. unfold layout, arrange, digit_text, digits_text. cbn [flags base precision field_width]. rewrite HL, HZ. cbn [Z.to_nat minus replicate app].
  by rewrite <- app_assoc, fmap_reverse.
Qed.
Lemma emits_take end_ mem cs out :
  emits end_ mem 0 cs out -> Z.of_nat (length cs) <= end_ -> end_ <= Z.of_nat (length mem) -> take (Z.to_nat out.2) out.1 = cs.
Proof.
  intros (E&L&H) Hc He. apply list_eq. intros i. rewrite E, Z.add_0_l, Nat2Z.id. destruct (decide (i < length cs)%nat) as [Hi|Hi].
  - rewrite lookup_take_lt by done. rewrite H, decide_True by lia. f_equal. lia.
  - rewrite lookup_take_ge by lia. symmetry. apply lookup_ge_None_2. lia.
Qed.

(** Base detection on printed numbers. *)
Lemma first_char locase b n :
  case_ok locase -> 2 <= b <= 16 -> 0 < n < two64 ->
  exists c s, digits_text locase b n = c :: s /\ is_some_b (digit_val c) = true /\ c <> 48 /\ c <> 43 /\ c <> 45
    /\ match s with x :: _ => (x =? 88) || (x =? 120) = false | [] => True end.
Proof.
  intros Hl Hb Hn. destruct (digits_head b n ltac:(lia) Hn) as (d&ds&E&Hd). unfold digits_text. pose proof (digits_range b n ltac:(lia) ltac:(lia)) as Hr.
  apply Forall_reverse in Hr. rewrite E in Hr |- *. exists (hexchar locase d), (hexchar locase <$> ds). split; [done|].
  assert (H : forallb (fun d => is_some_b (digit_val (hexchar locase d)) && negb ((hexchar locase d =? 88) || (hexchar locase d =? 120) || (hexchar locase d =? 43) || (hexchar locase d =? 45))
    && ((d =? 0) || negb (hexchar locase d =? 48))) (seqZ 0 16) = true) by (by destruct Hl as [-> | ->]).
  rewrite forallb_forall in H. pose proof (H d) as H1. rewrite !andb_true_iff, !negb_true_iff, !orb_false_iff, orb_true_iff, negb_true_iff in H1.
  destruct H1 as [[H1 H2] H3]; [apply list_elem_of_In, elem_of_seqZ; lia|]. split_and!; [done|lia|lia|lia|].
  apply Forall_cons in Hr as [_ Hr]. destruct Hr as [|x ds Hx _]; [done|]. cbn. specialize (H x). rewrite !andb_true_iff, negb_true_iff, !orb_false_iff in H.
  destruct H as [[_ [[[-> ->] _] _]] _]; [apply list_elem_of_In, elem_of_seqZ; lia|done].
Qed.
Lemma value_zero base ds : value base (0 :: ds) = value base ds.
Proof. done. Qed.

Lemma autodetect locase b num :
  case_ok locase -> base_ok b -> 0 <= num < two64 ->
  let fl := Z.lor SPECIAL locase in
  ref_unsigned 64 0 (prefix_text fl b num ++ digits_text locase b num) = Parsed num.
Proof.
  intros Hl Hb Hn. cbv zeta. unfold ref_unsigned. assert (Hfin : forall s, ref_magnitude 0 s = Parsed num -> strip (chr "+") s = s ->
    match ref_magnitude 0 (strip (chr "+") s) with Parsed v => if v <? 2 ^ 64 then Parsed v else Failed (- ERANGE) | Failed e => Failed e end = Parsed num).
  { intros s E ->. rewrite E. unfold two64 in Hn. by rewrite (proj2 (Z.ltb_lt num (2 ^ 64))) by lia. }
  assert (H16 : 2 <= b <= 16) by (destruct Hb as [-> |[-> | ->]]; lia).
  destruct (digits_text_spec locase b num Hl H16 Hn) as (Hs&_&Hv&Hne). unfold prefix_text.
  assert (flag (Z.lor SPECIAL locase) SPECIAL = true) as -> by (by destruct Hl as [-> | ->]).
  destruct (Z.eqb_spec num 0) as [->|Hn0].
  { destruct Hl as [-> | ->], Hb as [-> |[-> | ->]]; vm_compute; reflexivity. }
  destruct (first_char locase b num Hl H16 ltac:(lia)) as (c&s&Ec&Hdig&Hc0&Hplus&_&Hx). destruct Hb as [-> |[-> | ->]]; cbn [Z.eqb Pos.eqb andb negb app].
  - apply Hfin; [|done]. unfold ref_magnitude, radix_split, radix. rewrite Ec. cbn [Z.eqb hex_prefix chr]. change (chr "0") with 48.
    assert ((c =? 88) || (c =? 120) = false) as ->.
    { destruct (digits_head 8 num) as (d&ds&E&Hd); [lia..|]. unfold digits_text in Ec. rewrite E in Ec. cbn in Ec. injection Ec as <- _.
      rewrite hexchar_dec by (done || lia). lia. }
    cbn [Z.eqb Pos.eqb andb]. rewrite <- Ec. cbn [span_digits]. change (digit_in 8 48) with (Some 0). cbn beta iota. rewrite Hs, value_zero, Hv.
    rewrite (proj2 (Z.leb_gt two64 num)) by lia. rewrite bool_decide_eq_false_2 by done. by rewrite bool_decide_eq_true_2 by (by left).
  - rewrite Ec. apply Hfin.
    + unfold ref_magnitude, radix_split, radix. cbn [Z.eqb hex_prefix]. rewrite (proj2 (Z.eqb_neq c 48)) by done. cbn [andb].
      replace (match s with [] => None | x :: s' => if false then Some s' else None end) with (@None (list Z)) by (by destruct s). cbn [Z.eqb Pos.eqb].
      rewrite <- Ec, Hs, Hv. rewrite (proj2 (Z.leb_gt two64 num)) by lia. rewrite (bool_decide_eq_false_2 _ Hne). by rewrite bool_decide_eq_true_2 by (by left).
    + cbn. change (chr "+") with 43. by rewrite (proj2 (Z.eqb_neq c 43)) by done.
  - apply Hfin; [|done]. unfold ref_magnitude, radix_split, radix. rewrite Ec. cbn [Z.eqb hex_prefix].
    assert ((chr "0" =? 48) && ((Z.lor (chr "X") (Z.land (Z.lor SPECIAL locase) SMALL) =? 88) || (Z.lor (chr "X") (Z.land (Z.lor SPECIAL locase) SMALL) =? 120)) = true) as ->
      by (by destruct Hl as [-> | ->]).
    rewrite Hdig. cbn [Z.eqb Pos.eqb default from_option id]. rewrite <- Ec, Hs, Hv, (proj2 (Z.leb_gt two64 num)) by lia.
    rewrite (bool_decide_eq_false_2 _ Hne). by rewrite bool_decide_eq_true_2 by (by left).
Qed.

Lemma prefix_10 fl num : prefix_text fl 10 num = [].
Proof. unfold prefix_text. by destruct (flag fl SPECIAL). Qed.
Lemma signed_decimal num : 0 <= num < two64 -> ref_signed 64 10 (layout (mkSpec 0 SIGN 10 (-1)) num) = Parsed (s64 num).
Proof.
  intros Hn. rewrite plain_layout, prefix_10 by done. cbn [app]. pose proof (magnitude_range SIGN num Hn) as Hm.
  assert (Hs : - 2 ^ 63 <= s64 num < 2 ^ 63) by (unfold s64; rewrite w64_small by done; unfold two64 in *; case_cmps).
  assert (Hp : ref_magnitude 10 (digits_text (Z.land SIGN SMALL) 10 (magnitude SIGN num)) = Parsed (Z.abs (s64 num))) by (apply parse_digits_text; [by left|lia|done|by right]).
  unfold sign_text. change (flag SIGN SIGN) with true. change (flag SIGN PLUS) with false. change (flag SIGN SPACE) with false. cbn iota.
  unfold ref_signed. change (2 ^ (64 - 1)) with (2 ^ 63). destruct (Z.ltb_spec (s64 num) 0) as [Hneg|Hpos]; cbn [app].
  - change (chr "-" =? chr "-") with true. cbn iota beta. rewrite Hp. cbv zeta. replace (- Z.abs (s64 num)) with (s64 num) by lia.
    by rewrite (proj2 (Z.leb_le _ _)), (proj2 (Z.ltb_lt _ _)) by lia.
  - assert (exists c s, digits_text (Z.land SIGN SMALL) 10 (magnitude SIGN num) = c :: s /\ c <> 43 /\ c <> 45) as (c&s&Ec&H43&H45).
    { destruct (Z.eqb_spec (magnitude SIGN num) 0) as [->|]; [by exists 48, []|].
      destruct (first_char (Z.land SIGN SMALL) 10 (magnitude SIGN num)) as (c&s&E&_&_&?&?&_); [by left|lia|lia|]. by exists c, s. }
    rewrite Ec in Hp |- *. change (chr "-") with 45. rewrite (proj2 (Z.eqb_neq c 45)) by done. cbn iota beta. cbn [strip]. change (chr "+") with 43.
    rewrite (proj2 (Z.eqb_neq c 43)) by done. rewrite Hp. cbv zeta. rewrite Z.abs_eq by lia. by rewrite (proj2 (Z.leb_le _ _)), (proj2 (Z.ltb_lt _ _)) by lia.
Qed.
Lemma dec_text n : 0 <= n < two64 -> dec n = digits_text 0 10 n.
Proof.
  intros Hn. unfold dec, chars, digits_text. pose proof (digits_range 10 n ltac:(lia) Hn) as Hr. apply Forall_reverse in Hr.
  induction Hr as [|d ds Hd _ IH]; [done|]. cbn. rewrite hexchar_dec by (by left || done). f_equal. exact IH.
Qed.
Lemma layout_text fl b num :
  base_ok b -> 0 <= num < two64 -> 0 <= fl < 256 -> flag fl LEFT = false -> flag fl ZEROPAD = false ->
  (length (layout (mkSpec 0 fl b (-1)) num) <= 25)%nat /\ text (layout (mkSpec 0 fl b (-1)) num).
Proof.
  intros Hb Hn Hf HL HZ. pose proof (small_case fl Hf) as Hc. rewrite plain_layout by done.
  pose proof (digits_length b _ Hb (magnitude_range fl num Hn)) as Hd. split.
  - rewrite !length_app. unfold digits_text. rewrite length_fmap, length_reverse.
    assert (length (sign_text fl num) <= 1)%nat by (unfold sign_text; repeat case_match; cbn; lia).
    assert (length (prefix_text fl b num) <= 2)%nat by (unfold prefix_text; repeat case_match; cbn; lia). lia.
  - unfold text. rewrite !Forall_app. split_and!.
    + unfold sign_text. repeat case_match; repeat constructor; done.
    + unfold prefix_text. destruct Hc as [-> | ->]; repeat case_match; repeat constructor; done.
    + apply digits_text_spec; [done|destruct Hb as [-> |[-> | ->]]; lia|by apply magnitude_range].
Qed.
(** What [number] leaves in a buffer that is large enough. *)
Lemma number_output tmp mem num fl b :
  base_ok b -> 0 <= num < two64 -> 0 <= fl < 256 -> flag fl LEFT = false -> flag fl ZEROPAD = false ->
  length tmp = 24%nat -> (25 <= length mem)%nat ->
  exists mem' pos, number tmp mem 0 (Z.of_nat (length mem)) num (mkSpec 0 fl b (-1)) = Ret (mem', pos)
    /\ take (Z.to_nat pos) mem' = layout (mkSpec 0 fl b (-1)) num.
Proof.
  intros Hb Hn Hf HL HZ Ht Hm. destruct (number_spec tmp mem 0 (Z.of_nat (length mem)) num (mkSpec 0 fl b (-1))) as ([mem' pos]&E&H); [done..|].
  exists mem', pos. split; [done|]. destruct (layout_text fl b num Hb Hn Hf HL HZ) as [Hl _]. apply (emits_take _ _ _ _ H); lia.
Qed.

(** * Suffixes *)

Lemma land_count n (f : bool) :
  0 <= n < 2147483648 -> Z.land (n + (if f then 2147483648 else 0)) (w32 (Z.lnot KSTRTOX_OVERFLOW)) = n.
Proof.
  intros Hn. change (w32 (Z.lnot KSTRTOX_OVERFLOW)) with (Z.ones 31). rewrite Z.land_ones by lia. change (2 ^ 31) with 2147483648. destruct f.
  - symmetry. apply (Z.mod_unique _ _ 1); lia.
  - rewrite Z.add_0_r. by apply Z.mod_small.
Qed.
Lemma simple_strtoull_spec base s junk :
  0 <= base <= 16 -> text s -> Z.of_nat (length s) < 2147483648 ->
  simple_strtoull (s ++ 0 :: junk) base
  = let '(b, t) := radix_split base s in let '(ds, rest) := span_digits b t in Ret (w64 (value b ds), rest ++ 0 :: junk).
Proof.
  intros Hb Hs Hlen. unfold simple_strtoull. rewrite radix_split_spec by done. destruct (radix_split base s) as [b t] eqn:Er.
  assert (Hbr : 1 <= b <= 16) by (injection Er as <- _; by apply radix_range). destruct (radix_split_text _ _ _ _ Hs Er) as [Ht Hlt].
  cbn [res_bind]. unfold _parse_integer. pose proof (parse_loop_spec b t junk 0 0 Hbr Ht ltac:(lia) ltac:(lia)) as Hp. cbv zeta in Hp.
  change (w64 0) with 0 in Hp. change (rv_of 0 0) with 0 in Hp. rewrite Hp. cbn [res_bind].
  destruct (span_digits b t) as [ds rest] eqn:Es. cbn [fst]. fold (value b ds). destruct (span_digits_length _ _ _ _ Es) as [-> Hds].
  unfold rv_of. rewrite (land_count (Z.of_nat (0 + length ds)) (two64 <=? value b ds)) by (cbn [plus]; lia). cbn [plus].
  by rewrite Nat2Z.id, drop_app_le by done.
Qed.
Lemma iter_shift n v : Nat.iter n (fun r => w64 (Z.shiftl r 10)) (w64 v) = w64 (v * 1024 ^ Z.of_nat n).
Proof.
  induction n as [|n IH]; [by rewrite Z.pow_0_r, Z.mul_1_r|]. cbn [Nat.iter nat_rect]. change (nat_rect _ _ _ n) with (Nat.iter n (fun r => w64 (Z.shiftl r 10)) (w64 v)).
  rewrite IH, Z.shiftl_mul_pow2, Nat2Z.inj_succ, Z.pow_succ_r by lia. unfold w64. change (2 ^ 10) with 1024. rewrite Zmult_mod_idemp_l. f_equal. lia.
Qed.

(** * Bytes in hexadecimal *)

Lemma hex_byte b : is_byte b ->
  exists h l, hex_byte_pack [] b = Ret [h; l] /\ Z.lor (Z.shiftl (hex_to_bin h) 4) (hex_to_bin l) mod 256 = b /\ 0 <= hex_to_bin h /\ 0 <= hex_to_bin l.
Proof.
  intros Hb. pose proof (all_bytes (fun b => match hex_byte_pack [] b with
    | Ret [h; l] => (Z.lor (Z.shiftl (hex_to_bin h) 4) (hex_to_bin l) mod 256 =? b) && (0 <=? hex_to_bin h) && (0 <=? hex_to_bin l)
    | _ => false end) eq_refl b Hb) as H. cbv beta in H.
  destruct (hex_byte_pack [] b) as [[|h [|l [|]]]| |]; try done. rewrite !andb_true_iff, Z.eqb_eq, !Z.leb_le in H. exists h, l. naive_solver.
Qed.
Lemma hex_byte_pack_app dst b : hex_byte_pack dst b = res_map (fun hl => dst ++ hl) (hex_byte_pack [] b).
Proof. unfold hex_byte_pack. by destruct (hex_asc_hi b), (hex_asc_lo b). Qed.
Lemma bin2hex_loop_spec src : forall dst, Forall is_byte src ->
  exists hex, bin2hex_loop src dst = Ret (dst ++ hex) /\ length hex = (2 * length src)%nat
    /\ forall out rest, hex2bin_loop (length src) (hex ++ rest) out = Ret (out ++ src, 0).
Proof.
  induction src as [|b src IH]; intros dst Hs; cbn [bin2hex_loop].
  { exists []. rewrite app_nil_r. split_and!; [done|done|]. intros out rest. cbn. by rewrite app_nil_r. }
  apply Forall_cons in Hs as [Hb Hs]. destruct (hex_byte b Hb) as (h&l&E&Ev&Hh&Hl). rewrite hex_byte_pack_app, E. cbn [res_map res_bind].
  destruct (IH (dst ++ [h; l]) Hs) as (hex&->&Hlen&Hback). exists (h :: l :: hex). rewrite <- app_assoc. split_and!; [done|cbn; lia|].
  intros out rest. cbn [length hex2bin_loop app]. unfold at_. cbn [lookup list_lookup res_bind].
  rewrite (proj2 (Z.ltb_ge _ _) Hh), (proj2 (Z.ltb_ge _ _) Hl). cbn [orb]. change (drop 2 (h :: l :: hex ++ rest)) with (hex ++ rest).
  rewrite Hback, Ev, <- app_assoc. done.
Qed.

(** * Strings from user space *)

(** The parser sees the bytes of the user, cut to the size of the buffer and
    terminated, whatever was in the buffer; a fault is reported as such. *)
Lemma kstrto_from_user_spec ubyte uncopied buf count g :
  buf <> [] -> 0 <= count ->
  let n := Z.min count (Z.of_nat (length buf) - 1) in
  kstrto_from_user ubyte uncopied g buf count =
  if uncopied 0 n =? 0 then g ((ubyte <$> seqZ 0 n) ++ 0 :: drop (S (Z.to_nat n)) buf) else Ret (Failed (- EFAULT)).
Proof.
  intros Hbuf Hc. cbv zeta. unfold kstrto_from_user, _copy_from_user. assert (Hl : (0 < length buf)%nat) by (destruct buf; [done|cbn; lia]).
  set (n := Z.min count (Z.of_nat (length buf) - 1)). assert (Hn : 0 <= n < Z.of_nat (length buf)) by (unfold n; lia).
  assert (inside buf 0 n = true) as -> by (unfold inside; lia). cbn [res_bind]. destruct (Z.eqb_spec (uncopied 0 n) 0) as [->|]; cbn [negb]; [|done].
  rewrite Z.sub_0_r. change (Z.to_nat 0) with 0%nat. rewrite app_nil_r. unfold splice. change (Z.to_nat 0) with 0%nat. rewrite take_0. cbn [app plus].
  assert (Hlen : length (ubyte <$> seqZ 0 n) = Z.to_nat n) by (rewrite length_fmap, length_seqZ; lia). rewrite Hlen.
  assert (inside ((ubyte <$> seqZ 0 n) ++ drop (Z.to_nat n) buf) n 1 = true) as ->.
  { unfold inside. rewrite length_app, Hlen, length_drop. lia. }
  f_equal. rewrite insert_app_r_alt by lia. rewrite Hlen, Nat.sub_diag. f_equal. destruct (drop (Z.to_nat n) buf) as [|b rest] eqn:E.
  - apply (f_equal length) in E. rewrite length_drop in E. cbn in E. lia.
  - cbn. f_equal. replace (S (Z.to_nat n)) with (Z.to_nat n + 1)%nat by lia. by rewrite <- drop_drop, E.
Qed.

(** * Properties *)

(** C19: The kstrto* family parses exactly the documented syntax.  On any
    NUL-terminated string, whatever follows the terminator, each function returns
    (never reading past the terminator) the value that the digits denote in the
    given or detected base, -ERANGE exactly when the digits denote a number that
    does not fit into the type, and -EINVAL when there are no digits or something
    other than one newline follows them. *)
Theorem kstrtox_correct base s junk :
  0 <= base <= 16 -> text s -> Z.of_nat (length s) < 2147483648 ->
  let str := s ++ 0 :: junk in
  kstrtoull str base = Ret (ref_unsigned 64 base s) /\ _kstrtoul str base = Ret (ref_unsigned 64 base s)
  /\ kstrtouint str base = Ret (ref_unsigned 32 base s) /\ kstrtou16 str base = Ret (ref_unsigned 16 base s)
  /\ kstrtou8 str base = Ret (ref_unsigned 8 base s)
  /\ kstrtoll str base = Ret (ref_signed 64 base s) /\ _kstrtol str base = Ret (ref_signed 64 base s)
  /\ kstrtoint str base = Ret (ref_signed 32 base s) /\ kstrtos16 str base = Ret (ref_signed 16 base s)
  /\ kstrtos8 str base = Ret (ref_signed 8 base s).
Proof.
  intros Hb Hs Hl. cbv zeta. split_and!;
    first [by apply kstrtoull_ref|by apply kstrtoll_ref|by apply narrow_unsigned|by apply narrow_signed].
Qed.

(** C36: Printing and parsing are inverse: whatever 64-bit number is printed
    with number() in octal, decimal or hexadecimal with its prefix (either letter
    case), kstrtoull with base detection reads the same number back; a number
    printed as signed decimal is read back by kstrtoll; and so is what
    num_to_str writes. *)
Theorem number_kstrto_roundtrip num b locase tmp mem junk :
  0 <= num < two64 -> base_ok b -> case_ok locase -> length tmp = 24%nat -> (25 <= length mem)%nat ->
  (exists mem' pos, number tmp mem 0 (Z.of_nat (length mem)) num (mkSpec 0 (Z.lor SPECIAL locase) b (-1)) = Ret (mem', pos)
     /\ kstrtoull (take (Z.to_nat pos) mem' ++ 0 :: junk) 0 = Ret (Parsed num))
  /\ (exists mem' pos, number tmp mem 0 (Z.of_nat (length mem)) num (mkSpec 0 SIGN 10 (-1)) = Ret (mem', pos)
     /\ kstrtoll (take (Z.to_nat pos) mem' ++ 0 :: junk) 10 = Ret (Parsed (s64 num)))
  /\ (exists mem' len, num_to_str tmp mem (Z.of_nat (length mem)) num = Ret (mem', len)
     /\ kstrtoull (take (Z.to_nat len) mem' ++ 0 :: junk) 10 = Ret (Parsed num)).
Proof.
  intros Hn Hb Hc Ht Hm. split_and!.
  - assert (Hf : 0 <= Z.lor SPECIAL locase < 256 /\ flag (Z.lor SPECIAL locase) LEFT = false /\ flag (Z.lor SPECIAL locase) ZEROPAD = false
      /\ Z.land (Z.lor SPECIAL locase) SMALL = locase /\ flag (Z.lor SPECIAL locase) SIGN = false) by (destruct Hc as [-> | ->]; done).
    destruct Hf as (Hf&HL&HZ&Hsm&Hsg). destruct (number_output tmp mem num (Z.lor SPECIAL locase) b) as (mem'&pos&->&E); [done..|].
    exists mem', pos. split; [done|]. destruct (layout_text (Z.lor SPECIAL locase) b num Hb Hn Hf HL HZ) as [Hl Htx]. rewrite E, kstrtoull_ref by (done || lia).
    rewrite plain_layout by done. unfold sign_text, magnitude. rewrite Hsg, Hsm. cbn [app]. f_equal. by apply autodetect.
  - destruct (number_output tmp mem num SIGN 10) as (mem'&pos&->&E); [by right; left|done..|]. exists mem', pos. split; [done|].
    destruct (layout_text SIGN 10 num) as [Hl Htx]; [by right; left|done..|]. rewrite E, kstrtoll_ref by (done || lia). f_equal. by apply signed_decimal.
  - rewrite num_to_str_spec by (done || lia). cbv zeta. rewrite dec_text by done. pose proof (digits_length 10 num ltac:(by right; left) Hn) as Hl.
    assert (Hlen : (length (digits_text 0 10 num) <= 22)%nat) by (unfold digits_text; by rewrite length_fmap, length_reverse).
    rewrite (proj2 (Z.ltb_ge _ _)) by lia. eexists _, _. split; [done|]. rewrite Nat2Z.id, take_app_length.
    destruct (digits_text_spec 0 10 num) as (_&Htx&_&_); [by left|lia|done|]. rewrite kstrtoull_ref by (done || lia). f_equal.
    unfold ref_unsigned. assert (strip (chr "+") (digits_text 0 10 num) = digits_text 0 10 num) as ->.
    { destruct (Z.eqb_spec num 0) as [->|]; [done|]. destruct (first_char 0 10 num) as (c&s&->&_&_&H43&_); [by left|lia|lia|].
      cbn. change (chr "+") with 43. by rewrite (proj2 (Z.eqb_neq c 43)) by done. }
    rewrite parse_digits_text; [|by left|lia|done|by right]. unfold two64 in Hn. by rewrite (proj2 (Z.ltb_lt num (2 ^ 64))) by lia.
Qed.

(** number() writes the documented layout, sign, prefix, digits and padding
    according to the flags, width and precision, cut off at the end of the buffer,
    and returns the position as if there had been room for all of it; it never
    writes outside the buffer or its scratch array.  num_to_str writes the decimal
    digits when they fit, and otherwise leaves the buffer alone and returns 0. *)
Theorem number_correct tmp mem buf end_ num spec :
  base_ok (base spec) -> 0 <= flags spec < 256 -> 0 <= num < two64 -> length tmp = 24%nat ->
  0 <= buf -> end_ <= Z.of_nat (length mem) ->
  (exists out, number tmp mem buf end_ num spec = Ret out /\ emits end_ mem buf (layout spec num) out)
  /\ forall size, size <= Z.of_nat (length mem) ->
     num_to_str tmp mem size num =
     if size <? Z.of_nat (length (dec num)) then Ret (mem, 0) else Ret (dec num ++ drop (length (dec num)) mem, Z.of_nat (length (dec num))).
Proof. intros Hb Hf Hn Ht Hbuf He. split; [by apply number_spec|]. intros size Hs. by apply num_to_str_spec. Qed.

(** memparse multiplies the number by the power of 1024 that the suffix
    stands for, modulo 2^64, and returns the position after it; simple_strtoull
    gives the number modulo 2^64 and the position after the digits. *)
Theorem memparse_correct s junk :
  text s -> Z.of_nat (length s) < 2147483648 ->
  let '(b, t) := radix_split 0 s in
  let '(ds, rest) := span_digits b t in
  simple_strtoull (s ++ 0 :: junk) 0 = Ret (w64 (value b ds), rest ++ 0 :: junk)
  /\ memparse (s ++ 0 :: junk)
     = Ret (match rest with
            | c :: rest' =>
                match suffix_shifts c with
                | Some n => (w64 (value b ds * 1024 ^ Z.of_nat n), rest' ++ 0 :: junk)
                | None => (w64 (value b ds), rest ++ 0 :: junk)
                end
            | [] => (w64 (value b ds), rest ++ 0 :: junk)
            end).
Proof.
  intros Hs Hl. pose proof (simple_strtoull_spec 0 s junk ltac:(lia) Hs Hl) as H. unfold memparse.
  destruct (radix_split 0 s) as [b t]. destruct (span_digits b t) as [ds rest]. split; [done|]. rewrite H. cbn [res_bind].
  destruct rest as [|c rest]; [done|]. unfold at_. cbn [app lookup list_lookup res_bind]. destruct (suffix_shifts c) as [n|]; [|done].
  by rewrite iter_shift.
Qed.

(** bin2hex and hex2bin are inverse: every list of bytes comes back from its
    hexadecimal form, which has two characters for each byte. *)
Theorem hex_roundtrip src rest :
  Forall is_byte src ->
  exists hex, bin2hex src = Ret hex /\ length hex = (2 * length src)%nat /\ hex2bin (hex ++ rest) (length src) = Ret (src, 0).
Proof. intros Hs. destruct (bin2hex_loop_spec src [] Hs) as (hex&E&Hl&Hb). exists hex. split_and!; [done|done|]. apply (Hb []). Qed.

(** * Two defects of get_options *)

(** "1-100" into an array of four: three numbers are stored, and the count says 99. *)
Lemma get_options_count_exceeds :
  get_options (chr <$> ["1"; "-"; "1"; "0"; "0"; "000"]%char) 4 [0; 0; 0; 0] = Ret (chr <$> ["1"; "0"; "0"; "000"]%char, [99; 1; 2; 3]).
Proof. vm_compute. reflexivity. Qed.
(** "0-2147483647": the index overflows, and the next number is stored far outside the array. *)
Lemma get_options_writes_outside :
  get_options (chr <$> ["0"; "-"; "2"; "1"; "4"; "7"; "4"; "8"; "3"; "6"; "4"; "7"; "000"]%char) 4 [0; 0; 0; 0] = BUG.
Proof. vm_compute. reflexivity. Qed.

(** * Witnesses *)

Definition minus_42 : list Z := chr <$> ["-"; "4"; "2"]%char.
Definition scratch : list Z := replicate 24 0.
Definition text_page : list Z := replicate 40 0.

Lemma minus_42_text : text minus_42.
Proof. repeat constructor; done. Qed.

Lemma kstrtox_correct_witness :
  kstrtoint (minus_42 ++ [0]) 10 = Ret (Parsed (-42)) /\ kstrtouint (minus_42 ++ [0]) 10 = Ret (Failed (- EINVAL)).
Proof.
  destruct (kstrtox_correct 10 minus_42 [] ltac:(lia) minus_42_text ltac:(vm_compute; reflexivity)) as (_&_&H1&_&_&_&_&H2&_).
  split; [exact H2|exact H1].
Defined.

Lemma number_kstrto_roundtrip_witness :
  exists mem' pos, number scratch text_page 0 (Z.of_nat (length text_page)) 48879 (mkSpec 0 (Z.lor SPECIAL 32) 16 (-1)) = Ret (mem', pos)
    /\ kstrtoull (take (Z.to_nat pos) mem' ++ [0]) 0 = Ret (Parsed 48879).
Proof.
  exact (proj1 (number_kstrto_roundtrip 48879 16 32 scratch text_page [] ltac:(done) ltac:(by right; right) ltac:(by right) ltac:(done) ltac:(cbn; lia))).
Defined.

Lemma number_correct_witness :
  exists out, number scratch text_page 0 40 255 (mkSpec 8 (Z.lor SPECIAL ZEROPAD) 16 (-1)) = Ret out
    /\ emits 40 text_page 0 (chr <$> ["0"; "X"; "0"; "0"; "0"; "0"; "F"; "F"]%char) out.
Proof.
  exact (proj1 (number_correct scratch text_page 0 40 255 (mkSpec 8 (Z.lor SPECIAL ZEROPAD) 16 (-1))
    ltac:(by right; right) ltac:(done) ltac:(done) ltac:(done) ltac:(lia) ltac:(cbn; lia))).
Defined.

Definition mem_64M : list Z := chr <$> ["6"; "4"; "M"]%char.
Lemma mem_64M_text : text mem_64M.
Proof. repeat constructor; done. Qed.
Lemma memparse_correct_witness : memparse (mem_64M ++ [0]) = Ret (67108864, [0]).
Proof.
  exact (proj2 (memparse_correct mem_64M [] mem_64M_text ltac:(vm_compute; reflexivity))).
Defined.

Lemma hex_roundtrip_witness :
  exists hex, bin2hex [0; 171; 255] = Ret hex /\ length hex = 6%nat /\ hex2bin (hex ++ []) 3 = Ret ([0; 171; 255], 0).
Proof. apply (hex_roundtrip [0; 171; 255] []). repeat constructor; done. Defined.
