(* ===== verification/Mem.v ===== *)
(** Memory of 64-bit words, for the parts of the kernel that are about pointers.

    A structure is a group of words at fixed offsets from its address; NULL is
    address 0, which is never allocated.  Code that reads and writes memory is a
    computation of type [M A]: it takes the memory and returns a value and the
    new memory, or [BUG] when it touches a word that is not allocated.  The
    notations [x ← c; k] and [c;; k] sequence computations. *)

From stdpp Require Export gmap.
From S2P Require Import Prelude.
#[global] Open Scope Z_scope.

Notation mem := (gmap Z Z).
Definition M (A : Type) : Type := mem -> res (A * mem).

#[export] Instance M_ret : MRet M := fun A a m => Ret (a, m).
#[export] Instance M_bind : MBind M := fun A B k c m =>
  match c m with
  | Ret (a, m') => k a m'
  | BUG => BUG
  | OutOfFuel => OutOfFuel
  end.

Definition fetch (p : Z) : M Z := fun m =>
  match m !! p with Some v => Ret (v, m) | None => BUG end.
Definition assign (p v : Z) : M unit := fun m =>
  match m !! p with Some _ => Ret (tt, <[p := v]> m) | None => BUG end.
Definition crash {A} : M A := fun _ => BUG.
Definition out_of_fuel {A} : M A := fun _ => OutOfFuel.
(** A bound for loops that visit each allocated word at most once. *)
Definition mem_words : M nat := fun m => Ret (S (size m), m).

Definition when (b : bool) (c : M unit) : M unit := if b then c else mret tt.
