(* ===== verification/HeapLogic.v ===== *)
(** Separation logic for computations on memory.

    An assertion [hProp] is a predicate on a piece of memory.  It is a logic of
    bunched implications, so that Iris's proof mode works on it; [p ↦ v] owns the
    word at [p], and [wp c Φ] holds of a piece of memory from which [c] runs
    without error, in any larger memory, touching nothing else, and ends in a
    piece of memory that satisfies [Φ] of the value returned. *)

From iris.proofmode Require Export proofmode.
From iris.bi Require Import bi.
From S2P Require Import Prelude Mem.
#[global] Open Scope Z_scope.

(** * Assertions *)

Record hProp := HProp { holds_on : mem -> Prop }.
#[global] Arguments holds_on : simpl never.
Bind Scope bi_scope with hProp.

Inductive hProp_equiv' (P Q : hProp) : Prop := { hprop_in_equiv : forall m, holds_on P m <-> holds_on Q m }.
#[export] Instance hProp_equiv : Equiv hProp := hProp_equiv'.
#[export] Instance hProp_equivalence : Equivalence (≡@{hProp}).
Proof. split; repeat destruct 1; constructor; naive_solver. Qed.
Canonical Structure hPropO := discreteO hProp.

Inductive hEntails (P Q : hProp) : Prop := { hprop_in_entails : forall m, holds_on P m -> holds_on Q m }.
Definition hEmp : hProp := HProp (fun m => m = ∅).
Definition hPure (φ : Prop) : hProp := HProp (fun _ => φ).
Definition hAnd (P Q : hProp) : hProp := HProp (fun m => holds_on P m /\ holds_on Q m).
Definition hOr (P Q : hProp) : hProp := HProp (fun m => holds_on P m \/ holds_on Q m).
Definition hImpl (P Q : hProp) : hProp := HProp (fun m => holds_on P m -> holds_on Q m).
Definition hForall {A} (Ψ : A -> hProp) : hProp := HProp (fun m => forall a, holds_on (Ψ a) m).
Definition hExist {A} (Ψ : A -> hProp) : hProp := HProp (fun m => exists a, holds_on (Ψ a) m).
Definition hSep (P Q : hProp) : hProp :=
  HProp (fun m => exists m1 m2, m = m1 ∪ m2 /\ m1 ##ₘ m2 /\ holds_on P m1 /\ holds_on Q m2).
Definition hWand (P Q : hProp) : hProp :=
  HProp (fun m => forall m', m ##ₘ m' -> holds_on P m' -> holds_on Q (m ∪ m')).
Definition hPersistently (P : hProp) : hProp := hPure (hEntails hEmp P).
Definition hLater (P : hProp) : hProp := P.

Ltac unseal := unfold hEmp, hPure, hAnd, hOr, hImpl, hForall, hExist, hSep, hWand, hPersistently in *; cbn in *.

Lemma hProp_bi_mixin :
  BiMixin hEntails hEmp hPure hAnd hOr hImpl (@hForall) (@hExist) hSep hWand.
Proof.
  split.
  - split; [done|]. intros ??? [] []. constructor. naive_solver.
  - intros P Q. split.
    + intros [E]. split; constructor; naive_solver.
    + intros [[E1] [E2]]. constructor. naive_solver.
  - intros n φ1 φ2 E. constructor. intros m. exact E.
  - intros n P1 P2 [E] Q1 Q2 [E']. constructor. intros m. unfold holds_on in *. unseal. naive_solver.
  - intros n P1 P2 [E] Q1 Q2 [E']. constructor. intros m. unfold holds_on in *. unseal. naive_solver.
  - intros n P1 P2 [E] Q1 Q2 [E']. constructor. intros m. unfold holds_on in *. unseal. naive_solver.
  - intros A n Ψ1 Ψ2 E. constructor. intros m. unfold hForall. cbn. split; intros H a; apply (hprop_in_equiv _ _ (E a)), H.
  - intros A n Ψ1 Ψ2 E. constructor. intros m. unfold hExist. cbn.
    split; intros [a H]; exists a; apply (hprop_in_equiv _ _ (E a)), H.
  - intros n P1 P2 [E] Q1 Q2 [E']. constructor. intros m. unfold holds_on in *. unseal. naive_solver.
  - intros n P1 P2 [E] Q1 Q2 [E']. constructor. intros m. unfold holds_on in *. unseal. naive_solver.
  - intros φ P Hφ. by constructor.
  - intros φ P Hφ. constructor. intros m H. by apply (hprop_in_entails _ _ (Hφ H)).
  - intros P Q. constructor. by intros m [].
  - intros P Q. constructor. by intros m [].
  - intros P Q R [H1] [H2]. constructor. intros m H. split; auto.
  - intros P Q. constructor. by left.
  - intros P Q. constructor. by right.
  - intros P Q R [H1] [H2]. constructor. intros m [|]; auto.
  - intros P Q R [H]. constructor. intros m HP HQ. by apply H.
  - intros P Q R [H]. constructor. intros m [HP HQ]. by apply (H m HP).
  - intros A P Ψ H. constructor. intros m HP a. by apply (hprop_in_entails _ _ (H a)).
  - intros A Ψ a. constructor. intros m H. exact (H a).
  - intros A Ψ a. constructor. intros m H. by exists a.
  - intros A Φ Q H. constructor. intros m [a HΦ]. by apply (hprop_in_entails _ _ (H a)).
  - intros P P' Q Q' [H1] [H2]. constructor. intros m (m1&m2&->&Hd&HP&HQ). exists m1, m2. split_and!; auto.
  - intros P. constructor. intros m H. exists ∅, m. split_and!; try done; [by rewrite left_id_L|apply map_disjoint_empty_l].
  - intros P. constructor. intros m (m1&m2&->&Hd&E&HP). unseal. unfold holds_on in E. subst. by rewrite left_id_L.
  - intros P Q. constructor. intros m (m1&m2&->&Hd&HP&HQ). exists m2, m1. split_and!; try done. by apply map_union_comm.
  - intros P Q R. constructor. intros m (m12&m3&->&Hd&(m1&m2&->&Hd'&HP&HQ)&HR).
    apply map_disjoint_union_l in Hd as [Hd1 Hd2]. exists m1, (m2 ∪ m3). split_and!; try done; [by rewrite assoc_L|by apply map_disjoint_union_r|].
    by exists m2, m3.
  - intros P Q R [H]. constructor. intros m HP m' Hd HQ. apply H. by exists m, m'.
  - intros P Q R [H]. constructor. intros m (m1&m2&->&Hd&HP&HQ). by apply (H m1 HP).
Qed.

Lemma hProp_bi_persistently_mixin :
  BiPersistentlyMixin hEntails hEmp hAnd (@hExist) hSep hPersistently.
Proof.
  eapply bi_persistently_mixin_discrete, hProp_bi_mixin; [done| |done].
  intros A Φ [H]. destruct (H ∅ eq_refl) as [x Hx]. exists x. constructor. intros m. unfold hEmp, holds_on. cbn. by intros ->.
Qed.
Lemma hProp_bi_later_mixin :
  BiLaterMixin hEntails hPure hOr hImpl (@hForall) (@hExist) hSep hPersistently hLater.
Proof. eapply bi_later_mixin_id; [done|apply hProp_bi_mixin]. Qed.

Canonical Structure hPropI : bi := {|
  bi_ofe_mixin := ofe_mixin_of hProp;
  bi_bi_mixin := hProp_bi_mixin;
  bi_bi_persistently_mixin := hProp_bi_persistently_mixin;
  bi_bi_later_mixin := hProp_bi_later_mixin
|}.
#[export] Instance hProp_pure_forall : BiPureForall hPropI.
Proof. constructor. intros m H a. exact (H a). Qed.

(** * Words and computations *)

Definition pointsto (p v : Z) : hProp := HProp (fun m => p <> 0 /\ m = {[p := v]}).
Notation "p ↦ v" := (pointsto p v) (at level 20) : bi_scope.

Definition wp {A} (c : M A) (Φ : A -> hProp) : hProp :=
  HProp (fun m => forall mf, m ##ₘ mf ->
    exists a m', c (m ∪ mf) = Ret (a, m' ∪ mf) /\ m' ##ₘ mf /\ dom m' = dom m /\ holds_on (Φ a) m').
#[global] Arguments wp : simpl never.
#[global] Typeclasses Opaque pointsto wp.

Section Rules.
Context {A B : Type}.
Implicit Types (Φ Ψ : A -> hProp).

Lemma wp_ret Φ a : Φ a ⊢ wp (mret a) Φ.
Proof. constructor. intros m H mf Hd. by exists a, m. Qed.

Lemma wp_bind (c : M B) (k : B -> M A) Φ : wp c (fun b => wp (k b) Φ) ⊢ wp (mbind k c) Φ.
Proof.
  constructor. intros m H mf Hd. destruct (H mf Hd) as (b&m1&E&Hd1&Ed&H1). destruct (H1 mf Hd1) as (a&m2&E2&Hd2&Ed2&H2).
  exists a, m2. split; [unfold mbind, M_bind; by rewrite E|]. split_and!; [done|by rewrite Ed2|done].
Qed.

Lemma wp_wand (c : M A) Φ Ψ : wp c Φ ⊢ (∀ a, Φ a -∗ Ψ a) -∗ wp c Ψ.
Proof.
  constructor. intros m H m2 Hd2 Hw mf Hd. apply map_disjoint_union_l in Hd as [Hd1 Hdf].
  destruct (H (m2 ∪ mf)) as (a&m'&E&Hd'&Ed&HΦ); [by apply map_disjoint_union_r|].
  apply map_disjoint_union_r in Hd' as [Hd'2 Hd'f]. exists a, (m2 ∪ m'). split_and!.
  - rewrite <- (assoc_L (∪) m m2 mf), E. do 2 f_equal. rewrite assoc_L. by rewrite (map_union_comm m' m2).
  - by apply map_disjoint_union_l.
  - rewrite !dom_union_L Ed. by rewrite (comm_L (∪)).
  - by apply (Hw a m').
Qed.

Lemma wp_assoc {C} (c : M C) (k1 : C -> M B) (k2 : B -> M A) Φ :
  wp (mbind k2 (mbind k1 c)) Φ ⊢ wp (mbind (fun x => mbind k2 (k1 x)) c) Φ.
Proof.
  constructor. intros m H mf Hd. destruct (H mf Hd) as (a&m'&E&HΦ). exists a, m'. split; [|done]. rewrite <- E.
  unfold mbind, M_bind. by destruct (c (m ∪ mf)) as [[]| |].
Qed.

Lemma word_lookup p v (m mf : mem) : ({[p := v]} ∪ m ∪ mf) !! p = Some v.
Proof. apply lookup_union_Some_l, lookup_union_Some_l, lookup_singleton_eq. Qed.
Lemma wp_fetch p v (Ψ : Z -> hProp) : p ↦ v ⊢ (p ↦ v -∗ Ψ v) -∗ wp (fetch p) Ψ.
Proof.
  constructor. intros m [Hp ->] m2 Hd2 Hw mf Hd. exists v, (m2 ∪ {[p := v]}).
  assert (E : {[p := v]} ∪ m2 = m2 ∪ {[p := v]}) by (by apply map_union_comm). split_and!.
  - unfold fetch. rewrite (word_lookup p v m2 mf). by rewrite E.
  - by rewrite <- E.
  - by rewrite <- E.
  - by apply (Hw {[p := v]}).
Qed.
Lemma wp_assign p v w (Ψ : unit -> hProp) : p ↦ v ⊢ (p ↦ w -∗ Ψ tt) -∗ wp (assign p w) Ψ.
Proof.
  constructor. intros m [Hp ->] m2 Hd2 Hw mf Hd. exists tt, (m2 ∪ {[p := w]}).
  assert (Hd2' : m2 ##ₘ {[p := w]}).
  { apply map_disjoint_singleton_r. by eapply map_disjoint_singleton_l in Hd2. }
  split_and!.
  - unfold assign. rewrite (word_lookup p v m2 mf). do 2 f_equal. rewrite (map_union_comm m2); [|done].
    by rewrite !insert_union_l insert_singleton_eq.
  - apply map_disjoint_union_l in Hd as [Hd1 Hdf]. apply map_disjoint_union_l. split; [done|].
    apply map_disjoint_singleton_l. by eapply map_disjoint_singleton_l.
  - rewrite !dom_union_L !dom_singleton_L. by rewrite (comm_L (∪)).
  - by apply (Hw {[p := w]}).
Qed.
End Rules.

Lemma pointsto_nonnull p v : p ↦ v ⊢ ⌜p <> 0⌝.
Proof. constructor. by intros m [H _]. Qed.
Lemma pointsto_ne p v q w : p ↦ v ⊢ q ↦ w -∗ ⌜p <> q⌝.
Proof.
  constructor. intros m [_ ->] m2 Hd [_ ->] ->. apply map_disjoint_singleton_l in Hd. by rewrite lookup_singleton_eq in Hd.
Qed.

(** A run of the computation from a memory that the assertion describes. *)
Lemma wp_run {A} (c : M A) (P : hProp) (Φ : A -> hProp) m :
  (P ⊢ wp c Φ) -> holds_on P m -> exists a m', c m = Ret (a, m') /\ holds_on (Φ a) m'.
Proof.
  intros [H] HP. destruct (H m HP ∅ (map_disjoint_empty_r _)) as (a&m'&E&_&_&HΦ). exists a, m'.
  rewrite !right_id_L in E. done.
Qed.
(** No word is allocated or freed. *)
Lemma wp_run_dom {A} (c : M A) (P : hProp) (Φ : A -> hProp) m :
  (P ⊢ wp c Φ) -> holds_on P m -> exists a m', c m = Ret (a, m') /\ dom m' = dom m /\ holds_on (Φ a) m'.
Proof.
  intros [H] HP. destruct (H m HP ∅ (map_disjoint_empty_r _)) as (a&m'&E&_&Ed&HΦ). exists a, m'.
  rewrite !right_id_L in E. done.
Qed.
(** The same with memory around it that is left alone. *)
Lemma wp_run_frame {A} (c : M A) (P : hProp) (Φ : A -> hProp) m mf :
  (P ⊢ wp c Φ) -> holds_on P m -> m ##ₘ mf ->
  exists a m', c (m ∪ mf) = Ret (a, m' ∪ mf) /\ m' ##ₘ mf /\ holds_on (Φ a) m'.
Proof. intros [H] HP Hd. destruct (H m HP mf Hd) as (a&m'&E&Hd'&_&HΦ). by exists a, m'. Qed.

(** Total correctness: from any memory with a piece that satisfies [P], the
    computation runs without error and ends, the piece satisfies [Q] of the value
    returned, and the rest of the memory is unchanged. *)
Definition triple {A} (P : hProp) (c : M A) (Q : A -> hProp) : Prop :=
  forall m mf, holds_on P m -> m ##ₘ mf ->
  exists a m', c (m ∪ mf) = Ret (a, m' ∪ mf) /\ m' ##ₘ mf /\ holds_on (Q a) m'.
Lemma triple_wp {A} (P : hProp) (c : M A) (Q : A -> hProp) : (P ⊢ wp c Q) -> triple P c Q.
Proof. intros H m mf HP Hd. by apply (wp_run_frame c P Q). Qed.

Lemma triple_run {A} (P : hProp) (c : M A) (Q : A -> hProp) m :
  triple P c Q -> holds_on P m -> exists a m', c m = Ret (a, m') /\ holds_on (Q a) m'.
Proof.
  intros H HP. destruct (H m ∅ HP (map_disjoint_empty_r _)) as (a&m'&E&_&HQ). exists a, m'. by rewrite !right_id_L in E.
Qed.

(** Memory given as a list of words. *)
Definition words (ws : list (Z * Z)) : hProp := ([∗ list] w ∈ ws, w.1 ↦ w.2)%I.
Lemma words_hold ws :
  bool_decide (NoDup ws.*1) = true -> bool_decide (0 ∉ ws.*1) = true -> holds_on (words ws) (list_to_map ws).
Proof.
  rewrite !bool_decide_eq_true. unfold words. induction ws as [|[p v] ws IH]; cbn; intros Hnd H0; [done|].
  apply NoDup_cons in Hnd as [Hp Hnd]. apply not_elem_of_cons in H0 as [H0 H0'].
  assert (Hnone : (list_to_map ws : mem) !! p = None) by (by apply not_elem_of_list_to_map_1).
  exists {[p := v]}, (list_to_map ws). split_and!.
  - by rewrite insert_union_singleton_l.
  - by apply map_disjoint_singleton_l.
  - by split.
  - by apply IH.
Qed.

(** Assertions that describe one memory only. *)
Class Exact (P : hProp) : Prop := exact : forall m1 m2, holds_on P m1 -> holds_on P m2 -> m1 = m2.
#[export] Instance emp_exact : Exact emp%I.
Proof. intros m1 m2 H1 H2. unfold bi_emp in *. cbn in *. unfold hEmp, holds_on in *. congruence. Qed.
#[export] Instance pointsto_exact p v : Exact (p ↦ v)%I.
Proof. intros m1 m2 [_ ->] [_ ->]. done. Qed.
#[export] Instance pure_exact φ : Exact (<affine> ⌜φ⌝)%I.
Proof. intros m1 m2 [H1 _] [H2 _]. by apply emp_exact. Qed.
#[export] Instance sep_exact P Q : Exact P -> Exact Q -> Exact (P ∗ Q)%I.
Proof. intros HP HQ m1 m2 (a1&b1&->&_&?&?) (a2&b2&->&_&?&?). f_equal; eauto. Qed.
(** A computation that gives back what it was given has changed nothing. *)
Lemma exact_run {A} (P : hProp) (c : M A) v m mf :
  Exact P -> (forall Φ : A -> hProp, P ⊢ (P -∗ Φ v) -∗ wp c Φ) ->
  holds_on P m -> m ##ₘ mf -> c (m ∪ mf) = Ret (v, m ∪ mf).
Proof.
  intros HP Hc Hm Hd. destruct (wp_run_frame c P (fun a => P ∗ <affine> ⌜a = v⌝)%I m mf) as (a&m'&E&_&m1&m2&->&_&H1&[Hm2 ->]); [|done|done|].
  - iIntros "HP". iApply (Hc with "HP"). iIntros "$". done.
  - rewrite E (HP _ _ H1 Hm) (emp_exact _ ∅ Hm2); [by rewrite right_id_L|done].
Qed.

(** Loop bounds: the memory has at least as many words as are owned. *)
Definition at_least (k : nat) : hProp := HProp (fun m => (k <= size m)%nat).
Lemma wp_mem_words k (P : hProp) (Φ : nat -> hProp) :
  (P ⊢ at_least k) -> (forall n, (k < n)%nat -> P ⊢ Φ n) -> P ⊢ wp mem_words Φ.
Proof.
  intros [Hk] H. constructor. intros m HP mf Hd. exists (S (size (m ∪ mf))), m. split_and!; [done|done|done|].
  apply (H _); [|done]. specialize (Hk m HP). rewrite map_size_disj_union; [|done]. unfold at_least, holds_on in Hk. cbn in Hk. lia.
Qed.
#[export] Instance at_least_absorbing k : Absorbing (at_least k).
Proof.
  constructor. intros m (m1&m2&->&Hd&_&H2). unfold at_least, holds_on in *. cbn in *. rewrite map_size_disj_union; [|done]. lia.
Qed.
Lemma at_least_0 P : P ⊢ at_least 0.
Proof. constructor. intros m _. unfold at_least, holds_on. cbn. lia. Qed.
Lemma at_least_sep j k : at_least j ∗ at_least k ⊢ at_least (j + k).
Proof.
  constructor. intros m (m1&m2&->&Hd&H1&H2). unfold at_least, holds_on in *. cbn in *. rewrite map_size_disj_union; [|done]. lia.
Qed.
Lemma at_least_word p v : p ↦ v ⊢ at_least 1.
Proof. constructor. intros m [_ ->]. unfold at_least, holds_on. cbn. by rewrite map_size_singleton. Qed.
Lemma at_least_mono j k : (k <= j)%nat -> at_least j ⊢ at_least k.
Proof. intros Hjk. constructor. intros m. unfold at_least, holds_on. cbn. lia. Qed.

(** * Tactics *)

(** Steps of a computation; [H] names the word that is read or written. *)
Ltac wp_load H := try iApply wp_bind; iApply (wp_fetch with H); iIntros H.
Ltac wp_store H := try iApply wp_bind; iApply (wp_assign with H); iIntros H.
Ltac wp_done := iApply wp_ret.
