(* ===== verification/RbTree.v ===== *)
(** Red-black trees: lib/rbtree.c, include/linux/rbtree.h and the inline part of
    rb_erase in include/linux/rbtree_augmented.h.

    A [struct rb_node] at address [p] is three words: the parent pointer with the
    colour in its low bit at [p], [rb_right] at [p + 8] and [rb_left] at
    [p + 16]; a [struct rb_root] is one word, and [rb_leftmost] of a cached root
    is the word after it.  The rebalancing loops of the source are written twice,
    once for each side; here a [side] names the child pointer, and each half of
    the source is the instance at one side.  The augmentation callbacks are the
    dummies of rb_insert_color and rb_erase. *)

From S2P Require Import Prelude Mem.

Inductive side := Lft | Rgt.
#[export] Instance side_eq_dec : EqDecision side.
Proof. solve_decision. Defined.
Definition opp (d : side) : side := match d with Lft => Rgt | Rgt => Lft end.

(** [&p->rb_left] or [&p->rb_right] *)
Definition slot (d : side) (p : Z) : Z := match d with Lft => p + 16 | Rgt => p + 8 end.
Definition rb_child (d : side) (p : Z) : M Z := fetch (slot d p).
Definition rb_set_child (d : side) (p v : Z) : M unit := assign (slot d p) v.

(** * Parent and colour *)

Definition RB_RED : Z := 0.
Definition RB_BLACK : Z := 1.

Definition __rb_parent (pc : Z) : Z := Z.land pc (w64 (Z.lnot 3)).
Definition __rb_color (pc : Z) : Z := Z.land pc 1.
Definition __rb_is_black (pc : Z) : bool := negb (__rb_color pc =? 0).
Definition __rb_is_red (pc : Z) : bool := __rb_color pc =? 0.
Definition rb_parent (rb : Z) : M Z := pc ← fetch rb; mret (__rb_parent pc).
Definition rb_is_red (rb : Z) : M bool := pc ← fetch rb; mret (__rb_is_red pc).
Definition rb_is_black (rb : Z) : M bool := pc ← fetch rb; mret (__rb_is_black pc).
Definition rb_red_parent (red : Z) : M Z := fetch red.

Definition rb_set_parent (rb p : Z) : M unit := pc ← fetch rb; assign rb (Z.lor (__rb_color pc) p).
Definition rb_set_parent_color (rb p color : Z) : M unit := assign rb (Z.lor p color).
Definition rb_set_black (rb : Z) : M unit := pc ← fetch rb; assign rb (Z.lor pc RB_BLACK).

(** [tmp && rb_is_red(tmp)], [!tmp || rb_is_black(tmp)] *)
Definition red_node (tmp : Z) : M bool := if tmp =? 0 then mret false else rb_is_red tmp.
Definition black_node (tmp : Z) : M bool := if tmp =? 0 then mret true else rb_is_black tmp.

Definition __rb_change_child (old new parent root : Z) : M unit :=
  if negb (parent =? 0) then
    l ← rb_child Lft parent;
    if l =? old then rb_set_child Lft parent new else rb_set_child Rgt parent new
  else assign root new.

Definition __rb_rotate_set_parents (old new root color : Z) : M unit :=
  parent ← rb_parent old;
  pc ← fetch old;
  assign new pc;;
  rb_set_parent_color old new color;;
  __rb_change_child old new parent root.

(** * Insertion *)

Definition rb_link_node (node parent rb_link : Z) : M unit :=
  assign node parent;;
  rb_set_child Rgt node 0;;
  rb_set_child Lft node 0;;
  assign rb_link node.

(** Cases 2 and 3, for a parent that is the [d] child of [gparent]. *)
Definition insert_rotate (d : side) (node parent gparent root : Z) : M unit :=
  tmp ← rb_child (opp d) parent;
  '(parent, tmp) ←
    (if node =? tmp then
       tmp ← rb_child d node;
       rb_set_child (opp d) parent tmp;;
       rb_set_child d node parent;;
       when (negb (tmp =? 0)) (rb_set_parent_color tmp parent RB_BLACK);;
       rb_set_parent_color parent node RB_RED;;
       tmp ← rb_child (opp d) node;
       mret (node, tmp)
     else mret (parent, tmp));
  rb_set_child d gparent tmp;;
  rb_set_child (opp d) parent gparent;;
  when (negb (tmp =? 0)) (rb_set_parent_color tmp gparent RB_BLACK);;
  __rb_rotate_set_parents gparent parent root RB_RED.

(** The loop of [__rb_insert]; one turn per two levels of the tree. *)
Fixpoint insert_loop (fuel : nat) (node parent root : Z) : M unit :=
  match fuel with
  | O => out_of_fuel
  | S fuel' =>
      if parent =? 0 then rb_set_parent_color node 0 RB_BLACK
      else
        black ← rb_is_black parent;
        if (black : bool) then mret tt
        else
          gparent ← rb_red_parent parent;
          right ← rb_child Rgt gparent;
          let d := if negb (parent =? right) then Lft else Rgt in
          tmp ← rb_child (opp d) gparent;
          red ← red_node tmp;
          if (red : bool) then
            rb_set_parent_color tmp gparent RB_BLACK;;
            rb_set_parent_color parent gparent RB_BLACK;;
            parent ← rb_parent gparent;
            rb_set_parent_color gparent parent RB_RED;;
            insert_loop fuel' gparent parent root
          else insert_rotate d node parent gparent root
  end.

(** [leftmost] is the address of the cached pointer. *)
Definition __rb_insert (node root : Z) (newleft : bool) (leftmost : Z) : M unit :=
  parent ← rb_red_parent node;
  when newleft (assign leftmost node);;
  fuel ← mem_words;
  insert_loop fuel node parent root.
Definition rb_insert_color (node root : Z) : M unit := __rb_insert node root false 0.
Definition rb_insert_color_cached (node root : Z) (leftmost : bool) : M unit :=
  __rb_insert node root leftmost (root + 8).

(** * Removal *)

(** Case 4, for a sibling that is the [opp d] child of [parent]. *)
Definition erase_rotate (d : side) (parent sibling tmp1 root : Z) : M unit :=
  tmp2 ← rb_child d sibling;
  rb_set_child (opp d) parent tmp2;;
  rb_set_child d sibling parent;;
  rb_set_parent_color tmp1 sibling RB_BLACK;;
  when (negb (tmp2 =? 0)) (rb_set_parent tmp2 parent);;
  __rb_rotate_set_parents parent sibling root RB_BLACK.

(** Cases 2 to 4, the sibling being black; [loop] goes on one level up. *)
Definition erase_black (loop : Z -> Z -> M unit) (d : side) (parent sibling root : Z) : M unit :=
  tmp1 ← rb_child (opp d) sibling;
  black1 ← black_node tmp1;
  if (black1 : bool) then
    tmp2 ← rb_child d sibling;
    black2 ← black_node tmp2;
    if (black2 : bool) then
      rb_set_parent_color sibling parent RB_RED;;
      red ← rb_is_red parent;
      if (red : bool) then rb_set_black parent
      else
        up ← rb_parent parent;
        if negb (up =? 0) then loop parent up else mret tt
    else
      tmp1 ← rb_child (opp d) tmp2;
      rb_set_child d sibling tmp1;;
      rb_set_child (opp d) tmp2 sibling;;
      rb_set_child (opp d) parent tmp2;;
      when (negb (tmp1 =? 0)) (rb_set_parent_color tmp1 sibling RB_BLACK);;
      erase_rotate d parent tmp2 sibling root
  else erase_rotate d parent sibling tmp1 root.

Fixpoint erase_color_loop (fuel : nat) (root node parent : Z) : M unit :=
  match fuel with
  | O => out_of_fuel
  | S fuel' =>
      right ← rb_child Rgt parent;
      let d := if negb (node =? right) then Lft else Rgt in
      sibling ← rb_child (opp d) parent;
      red ← rb_is_red sibling;
      sibling ←
        (if (red : bool) then
           tmp1 ← rb_child d sibling;
           rb_set_child (opp d) parent tmp1;;
           rb_set_child d sibling parent;;
           rb_set_parent_color tmp1 parent RB_BLACK;;
           __rb_rotate_set_parents parent sibling root RB_RED;;
           mret tmp1
         else mret sibling);
      erase_black (erase_color_loop fuel' root) d parent sibling root
  end.
Definition ____rb_erase_color (parent root : Z) : M unit :=
  fuel ← mem_words;
  erase_color_loop fuel root 0 parent.

(** do { parent = successor; successor = tmp; tmp = tmp->rb_left; } while (tmp) *)
Fixpoint successor_loop (fuel : nat) (successor tmp : Z) : M (Z * Z) :=
  match fuel with
  | O => out_of_fuel
  | S fuel' =>
      next ← rb_child Lft tmp;
      if negb (next =? 0) then successor_loop fuel' tmp next else mret (successor, tmp)
  end.

(** * Walks *)

Fixpoint descend (fuel : nat) (d : side) (n : Z) : M Z :=
  match fuel with
  | O => out_of_fuel
  | S fuel' => c ← rb_child d n; if negb (c =? 0) then descend fuel' d c else mret n
  end.
(** [rb_first] with [Lft], [rb_last] with [Rgt]. *)
Definition rb_end (d : side) (root : Z) : M Z :=
  n ← fetch root;
  if n =? 0 then mret 0 else fuel ← mem_words; descend fuel d n.
Definition rb_first (root : Z) : M Z := rb_end Lft root.
Definition rb_last (root : Z) : M Z := rb_end Rgt root.

(** Up while the node is the [d] child of its parent. *)
Fixpoint ascend (fuel : nat) (d : side) (node : Z) : M Z :=
  match fuel with
  | O => out_of_fuel
  | S fuel' =>
      parent ← rb_parent node;
      if parent =? 0 then mret 0
      else c ← rb_child d parent; if node =? c then ascend fuel' d parent else mret parent
  end.
(** The neighbour on side [d]: [rb_next] with [Rgt], [rb_prev] with [Lft]. *)
Definition rb_step (d : side) (node : Z) : M Z :=
  pc ← fetch node;
  if pc =? node then mret 0
  else
    c ← rb_child d node;
    fuel ← mem_words;
    if negb (c =? 0) then descend fuel (opp d) c else ascend fuel d node.
Definition rb_next (node : Z) : M Z := rb_step Rgt node.
Definition rb_prev (node : Z) : M Z := rb_step Lft node.

(** * Removal, continued *)

(** A cached first node moves on. *)
Definition erase_leftmost (node leftmost : Z) : M unit :=
  lm ← fetch leftmost;
  when (node =? lm) (next ← rb_next node; assign leftmost next).

(** Finds the successor below the right child [child], whose left child is
    [left], and cuts it off: the parent of its child, the successor, its child. *)
Definition take_successor (child left : Z) : M (Z * Z * Z) :=
  if left =? 0 then
    child2 ← rb_child Rgt child;
    mret (child, child, child2)
  else
    fuel ← mem_words;
    '(parent, successor) ← successor_loop fuel child left;
    child2 ← rb_child Rgt successor;
    rb_set_child Lft parent child2;;
    rb_set_child Rgt successor child;;
    rb_set_parent child successor;;
    mret (parent, successor, child2).

(** Cases 2 and 3: both children exist, and the successor takes the place of the
    node; [child] is the right child. *)
Definition erase_successor (node child root : Z) : M Z :=
  left ← rb_child Lft child;
  '(parent, successor, child2) ← take_successor child left;
  tmp ← rb_child Lft node;
  rb_set_child Lft successor tmp;;
  rb_set_parent tmp successor;;
  pc ← fetch node;
  __rb_change_child node successor (__rb_parent pc) root;;
  if negb (child2 =? 0) then
    assign successor pc;;
    rb_set_parent_color child2 parent RB_BLACK;;
    mret 0
  else
    pc2 ← fetch successor;
    assign successor pc;;
    mret (if __rb_is_black pc2 then parent else 0).

(** The parent where rebalancing has to start, or 0; [leftmost] is 0 or the
    address of the cached pointer. *)
Definition __rb_erase_augmented (node root leftmost : Z) : M Z :=
  child ← rb_child Rgt node;
  tmp ← rb_child Lft node;
  (if negb (leftmost =? 0) then erase_leftmost node leftmost else mret tt);;
  if tmp =? 0 then
    pc ← fetch node;
    let parent := __rb_parent pc in
    __rb_change_child node child parent root;;
    if negb (child =? 0) then assign child pc;; mret 0
    else mret (if __rb_is_black pc then parent else 0)
  else if child =? 0 then
    pc ← fetch node;
    assign tmp pc;;
    __rb_change_child node tmp (__rb_parent pc) root;;
    mret 0
  else erase_successor node child root.
Definition rb_erase (node root : Z) : M unit :=
  rebalance ← __rb_erase_augmented node root 0;
  when (negb (rebalance =? 0)) (____rb_erase_color rebalance root).
Definition rb_erase_cached (node root : Z) : M unit :=
  rebalance ← __rb_erase_augmented node root (root + 8);
  when (negb (rebalance =? 0)) (____rb_erase_color rebalance root).

(** * Replacing a node *)

(** [*new = *victim] *)
Definition copy_node (victim new : Z) : M unit :=
  pc ← fetch victim; assign new pc;;
  r ← rb_child Rgt victim; rb_set_child Rgt new r;;
  l ← rb_child Lft victim; rb_set_child Lft new l.
Definition rb_replace_node (victim new root : Z) : M unit :=
  parent ← rb_parent victim;
  copy_node victim new;;
  l ← rb_child Lft victim;
  when (negb (l =? 0)) (rb_set_parent l new);;
  r ← rb_child Rgt victim;
  when (negb (r =? 0)) (rb_set_parent r new);;
  __rb_change_child victim new parent root.
Definition rb_replace_node_cached (victim new root : Z) : M unit :=
  rb_replace_node victim new root;;
  lm ← fetch (root + 8);
  when (lm =? victim) (assign (root + 8) new).

(** * Postorder walk *)

Fixpoint left_deepest (fuel : nat) (node : Z) : M Z :=
  match fuel with
  | O => out_of_fuel
  | S fuel' =>
      l ← rb_child Lft node;
      if negb (l =? 0) then left_deepest fuel' l
      else r ← rb_child Rgt node; if negb (r =? 0) then left_deepest fuel' r else mret node
  end.
Definition rb_left_deepest_node (node : Z) : M Z := fuel ← mem_words; left_deepest fuel node.
Definition rb_next_postorder (node : Z) : M Z :=
  if node =? 0 then mret 0
  else
    parent ← rb_parent node;
    if parent =? 0 then mret 0
    else
      l ← rb_child Lft parent;
      r ← rb_child Rgt parent;
      if (node =? l) && negb (r =? 0) then rb_left_deepest_node r else mret parent.
Definition rb_first_postorder (root : Z) : M Z :=
  n ← fetch root;
  if n =? 0 then mret 0 else rb_left_deepest_node n.
