(* ===== verification/RbTreeFacts.v ===== *)
(** Red-black trees as mathematical objects: the trees and paths the memory
    stands for, the invariant of the comment that opens lib/rbtree.c, and how it
    behaves under cutting a tree at a node and putting it together again. *)

From S2P Require Import Prelude Mem RbTree.

(** * Trees *)

Inductive color := Red | Black.
(** [Node c l p r] is the node at address [p]. *)
Inductive tree := Leaf | Node (c : color) (l : tree) (p : Z) (r : tree).
#[export] Instance color_eq_dec : EqDecision color.
Proof. solve_decision. Defined.
#[export] Instance tree_eq_dec : EqDecision tree.
Proof. solve_decision. Defined.

Definition ptr (t : tree) : Z := match t with Leaf => 0 | Node _ _ p _ => p end.
Fixpoint inorder (t : tree) : list Z :=
  match t with Leaf => [] | Node _ l p r => inorder l ++ p :: inorder r end.
Fixpoint postorder (t : tree) : list Z :=
  match t with Leaf => [] | Node _ l p r => postorder l ++ postorder r ++ [p] end.
Fixpoint nodes (t : tree) : nat := match t with Leaf => 0 | Node _ l _ r => S (nodes l + nodes r) end.
Fixpoint height (t : tree) : nat := match t with Leaf => 0 | Node _ l _ r => S (Nat.max (height l) (height r)) end.

(** A node by the side of its children. *)
Definition dnode (d : side) (c : color) (near : tree) (p : Z) (far : tree) : tree :=
  match d with Lft => Node c near p far | Rgt => Node c far p near end.

(** ** The invariant

    [is_rb t c n]: [t] has a root of colour [c] (leaves count as black), no red
    node has a red child, and every path down to a leaf has [n] black nodes. *)
Inductive is_rb : tree -> color -> nat -> Prop :=
  | rb_leaf : is_rb Leaf Black 0
  | rb_red l p r n : is_rb l Black n -> is_rb r Black n -> is_rb (Node Red l p r) Red n
  | rb_black l p r cl cr n : is_rb l cl n -> is_rb r cr n -> is_rb (Node Black l p r) Black (S n).
(** A whole tree: the root is black. *)
Definition rb_tree (t : tree) : Prop := exists n, is_rb t Black n.

Lemma rb_dnode_red d a p b n : is_rb a Black n -> is_rb b Black n -> is_rb (dnode d Red a p b) Red n.
Proof. destruct d; by constructor. Qed.
Lemma rb_dnode_black d a p b ca cb n : is_rb a ca n -> is_rb b cb n -> is_rb (dnode d Black a p b) Black (S n).
Proof. destruct d; by econstructor. Qed.

(** * Paths *)

(** A frame is a node with one subtree cut off: the hole is the [fd] child. *)
Record frame := F { fd : side; fc : color; fp : Z; fs : tree }.
Definition fill (f : frame) (t : tree) : tree := dnode (fd f) (fc f) t (fp f) (fs f).
(** From the hole upwards. *)
Definition plug (k : list frame) (t : tree) : tree := foldl (fun t f => fill f t) t k.

Lemma plug_app k1 k2 t : plug (k1 ++ k2) t = plug k2 (plug k1 t).
Proof. apply foldl_app. Qed.

Fixpoint befores (k : list frame) : list Z :=
  match k with
  | [] => []
  | f :: k' => befores k' ++ match fd f with Lft => [] | Rgt => inorder (fs f) ++ [fp f] end
  end.
Fixpoint afters (k : list frame) : list Z :=
  match k with
  | [] => []
  | f :: k' => match fd f with Lft => fp f :: inorder (fs f) | Rgt => [] end ++ afters k'
  end.
Lemma befores_app k1 k2 : befores (k1 ++ k2) = befores k2 ++ befores k1.
Proof. induction k1 as [|f k1 IH]; cbn [app befores]; [by rewrite app_nil_r|]. by rewrite IH, app_assoc. Qed.
Lemma afters_app k1 k2 : afters (k1 ++ k2) = afters k1 ++ afters k2.
Proof. induction k1 as [|f k1 IH]; cbn [app afters]; [done|]. by rewrite IH, app_assoc. Qed.
Lemma inorder_plug k : forall t, inorder (plug k t) = befores k ++ inorder t ++ afters k.
Proof.
  induction k as [|f k IH]; intros t; [by rewrite app_nil_r|]. change (plug (f :: k) t) with (plug k (fill f t)). rewrite IH.
  unfold fill, dnode. cbn [befores afters]. destruct (fd f); cbn [inorder]; rewrite <- ?app_assoc; cbn [app]; by rewrite ?app_nil_r, <- ?app_assoc.
Qed.

(** [accepts k c n]: any tree with root colour [c] and black height [n] put into
    the hole gives a valid tree. *)
Fixpoint accepts (k : list frame) (c : color) (n : nat) : Prop :=
  match k with
  | [] => c = Black
  | f :: k' =>
      match fc f with
      | Red => c = Black /\ is_rb (fs f) Black n /\ accepts k' Red n
      | Black => (exists cs, is_rb (fs f) cs n) /\ accepts k' Black (S n)
      end
  end.

Lemma accepts_plug k : forall t c n, is_rb t c n -> accepts k c n -> rb_tree (plug k t).
Proof.
  induction k as [|f k IH]; intros t c n Ht Ha; cbn in *; [subst; by exists n|]. unfold fill.
  destruct (fc f) eqn:Ec.
  - destruct Ha as (->&Hs&Ha). eapply IH; [|exact Ha]. by apply rb_dnode_red.
  - destruct Ha as ((cs&Hs)&Ha). eapply IH; [|exact Ha]. by eapply rb_dnode_black.
Qed.
Lemma dnode_inv d c a p b c0 n :
  is_rb (dnode d c a p b) c0 n ->
  c0 = c /\ match c with
            | Red => is_rb a Black n /\ is_rb b Black n
            | Black => exists ca cb m, n = S m /\ is_rb a ca m /\ is_rb b cb m
            end.
Proof. destruct d; inversion 1; subst; naive_solver. Qed.
Lemma plug_accepts k : forall t, rb_tree (plug k t) -> exists c n, is_rb t c n /\ accepts k c n.
Proof.
  induction k as [|f k IH]; intros t Ht; [destruct Ht as [n Ht]; by exists Black, n|].
  destruct (IH _ Ht) as (c&n&Hf&Ha). unfold fill in Hf. apply dnode_inv in Hf as [-> Hf]. cbn [accepts].
  destruct (fc f).
  - destruct Hf as [? ?]. by exists Black, n.
  - destruct Hf as (ca&cb&m&->&?&?). exists ca, m. split; [done|]. split; [by exists cb|done].
Qed.
(** A hole for a red tree takes a black one. *)
Lemma accepts_black k n : accepts k Red n -> accepts k Black n.
Proof. destruct k as [|f k]; cbn; [done|]. destruct (fc f); [naive_solver|done]. Qed.
Lemma accepts_any k c n : accepts k c n -> accepts k Black n.
Proof. destruct c; [apply accepts_black|done]. Qed.
(** Above a red node there is a black one. *)
Lemma accepts_red k n : accepts k Red n ->
  exists d p s k', k = F d Black p s :: k' /\ (exists cs, is_rb s cs n) /\ accepts k' Black (S n).
Proof.
  destruct k as [|[d c p s] k]; cbn; [done|]. destruct c; [by intros (?&_)|]. intros [? ?]. by exists d, p, s, k.
Qed.

Lemma rb_color_unique t c1 n1 c2 n2 : is_rb t c1 n1 -> is_rb t c2 n2 -> c1 = c2.
Proof. destruct 1; by inversion 1. Qed.

(** * Heights *)

Lemma rb_nodes t c n : is_rb t c n -> (2 ^ n <= S (nodes t))%nat.
Proof.
  induction 1 as [|l p r n _ IHl _ IHr|l p r cl cr n _ IHl _ IHr]; cbn [nodes]; [done|lia|].
  rewrite Nat.pow_succ_r'. lia.
Qed.
Lemma rb_height t c n : is_rb t c n -> (height t <= 2 * n + match c with Red => 1 | Black => 0 end)%nat.
Proof.
  induction 1 as [|l p r n _ IHl _ IHr|l p r cl cr n _ IHl _ IHr]; cbn [height]; [lia|lia|destruct cl, cr; lia].
Qed.
(** The O(log n) guarantee. *)
Lemma rb_height_log t : rb_tree t -> (height t <= 2 * Nat.log2 (S (nodes t)))%nat.
Proof.
  intros [n Ht]. pose proof (rb_height _ _ _ Ht) as Hh. cbn in Hh.
  assert (n <= Nat.log2 (S (nodes t)))%nat; [|lia]. apply Nat.log2_le_pow2; [lia|]. by eapply rb_nodes.
Qed.
Lemma length_height k : forall t, (length k + height t <= height (plug k t))%nat.
Proof.
  induction k as [|f k IH]; intros t; [done|]. change (plug (f :: k) t) with (plug k (fill f t)).
  specialize (IH (fill f t)). unfold fill, dnode in *. cbn [length]. destruct (fd f); cbn [height] in IH; lia.
Qed.

Lemma nodes_inorder t : nodes t = length (inorder t).
Proof. induction t as [|c l IHl p r IHr]; cbn; [done|]. rewrite length_app. cbn. lia. Qed.

(** * Parent words *)

Definition colz (c : color) : Z := match c with Red => RB_RED | Black => RB_BLACK end.
(** Pointers to nodes are aligned. *)
Definition aligned (p : Z) : Prop := 0 <= p < two64 /\ p mod 4 = 0.
Definition pc_of (par : Z) (c : color) : Z := Z.lor par (colz c).

Lemma aligned_0 : aligned 0.
Proof. done. Qed.
Lemma aligned_low p i : aligned p -> 0 <= i < 2 -> Z.testbit p i = false.
Proof.
  intros [_ Hp] Hi. rewrite <- (Z.mod_pow2_bits_low p 2) by lia. change (2 ^ 2) with 4. rewrite Hp. apply Z.bits_0.
Qed.
Lemma parent_pc par c : aligned par -> __rb_parent (pc_of par c) = par.
Proof.
  intros Hp. unfold __rb_parent, pc_of. apply Z.bits_inj'. intros i Hi. rewrite Z.land_spec, Z.lor_spec, w64_testbit by done.
  rewrite Z.lnot_spec by done. destruct (Z.ltb_spec i 64).
  - destruct (Z.ltb_spec i 2).
    + rewrite (aligned_low par i) by (done || lia). assert (i = 0 \/ i = 1) as [-> | ->] by lia; by destruct c.
    + assert (Z.testbit (colz c) i = false) as ->.
      { destruct c; [apply Z.bits_0|]. apply Z.bits_above_log2; [done|]. change (Z.log2 (colz Black)) with 0. lia. }
      assert (Z.testbit 3 i = false) as -> by (apply Z.bits_above_log2; [done|]; change (Z.log2 3) with 1; lia).
      cbn. by rewrite orb_false_r, andb_true_r.
  - destruct Hp as [Hp _]. rewrite andb_false_r.
    assert (Z.testbit par i = false) as ->; [|done]. rewrite <- (Z.mod_small par two64) by done. rewrite two64_pow. apply Z.mod_pow2_bits_high. lia.
Qed.
Lemma color_pc par c : aligned par -> __rb_color (pc_of par c) = colz c.
Proof.
  intros Hp. unfold __rb_color, pc_of. change 1 with (Z.ones 1). rewrite Z.land_ones by done.
  apply Z.bits_inj'. intros i Hi. destruct (Z.ltb_spec i 1).
  - rewrite Z.mod_pow2_bits_low, Z.lor_spec, (aligned_low par i) by (done || lia). done.
  - rewrite Z.mod_pow2_bits_high by lia. symmetry.
    destruct c; [apply Z.bits_0|]. apply Z.bits_above_log2; [done|]. change (Z.log2 (colz Black)) with 0. lia.
Qed.
Lemma is_black_pc par c : aligned par -> __rb_is_black (pc_of par c) = match c with Red => false | Black => true end.
Proof. intros Hp. unfold __rb_is_black. rewrite color_pc by done. by destruct c. Qed.
Lemma is_red_pc par c : aligned par -> __rb_is_red (pc_of par c) = match c with Red => true | Black => false end.
Proof. intros Hp. unfold __rb_is_red. rewrite color_pc by done. by destruct c. Qed.
Lemma red_pc par : pc_of par Red = par.
Proof. apply Z.lor_0_r. Qed.
Lemma set_parent_pc par par' c : aligned par -> Z.lor (__rb_color (pc_of par c)) par' = pc_of par' c.
Proof. intros Hp. rewrite color_pc by done. apply Z.lor_comm. Qed.
Lemma set_black_pc par c : Z.lor (pc_of par c) RB_BLACK = pc_of par Black.
Proof. unfold pc_of. rewrite <- Z.lor_assoc. by destruct c. Qed.
