(* ===== verification/RbTreeLogic.v ===== *)
(** Red-black trees in memory: the assertions that describe a tree and a path,
    and what each routine of lib/rbtree.c does to them. *)

From iris.proofmode Require Import proofmode.
From S2P Require Import Prelude Mem HeapLogic RbTree RbTreeFacts.

(** * Assertions *)

(** The memory of exactly the nodes of [t], whose root has the parent [par]. *)
Fixpoint treeP (par : Z) (t : tree) : hProp :=
  match t with
  | Leaf => emp
  | Node c l p r =>
      <affine> ⌜aligned p⌝ ∗ p ↦ pc_of par c ∗ slot Lft p ↦ ptr l ∗ slot Rgt p ↦ ptr r ∗ treeP p l ∗ treeP p r
  end%I.

(** The parent of the hole of a path below [top], and the pointer that [top] has
    to the upper end of the path. *)
Definition hole_parent (top : Z) (k : list frame) : Z := match k with [] => top | f :: _ => fp f end.
Fixpoint upper (k : list frame) (h : Z) : Z := match k with [] => h | f :: k' => upper k' (fp f) end.
Fixpoint pathP (top : Z) (k : list frame) (h : Z) : hProp :=
  match k with
  | [] => emp
  | f :: k' =>
      <affine> ⌜aligned (fp f)⌝ ∗ fp f ↦ pc_of (hole_parent top k') (fc f) ∗ slot (fd f) (fp f) ↦ h
      ∗ slot (opp (fd f)) (fp f) ↦ ptr (fs f) ∗ treeP (fp f) (fs f) ∗ pathP top k' (fp f)
  end%I.

(** A tree with its root pointer, and a tree with a hole. *)
Definition rbP (root : Z) (t : tree) : hProp := (root ↦ ptr t ∗ treeP 0 t)%I.
Definition ctxP (root : Z) (k : list frame) (h : Z) : hProp := (root ↦ upper k h ∗ pathP 0 k h)%I.

Lemma treeP_dnode par d c a p b :
  treeP par (dnode d c a p b) ⊣⊢
  <affine> ⌜aligned p⌝ ∗ p ↦ pc_of par c ∗ slot d p ↦ ptr a ∗ slot (opp d) p ↦ ptr b ∗ treeP p a ∗ treeP p b.
Proof. destruct d; iSplit; iIntros "(%&?&?&?&?&?)"; by iFrame. Qed.

Lemma treeP_node_ptr par c l p r : treeP par (Node c l p r) ⊢ ⌜p <> 0⌝.
Proof. iIntros "(_&H&_)". by iDestruct (pointsto_nonnull with "H") as %H. Qed.

Lemma treeP_ptr_nonnull par t : t <> Leaf -> treeP par t ⊢ ⌜ptr t <> 0⌝.
Proof. destruct t as [|c l p r]; [done|]. intros _. apply treeP_node_ptr. Qed.

Lemma ptr_plug k : forall t, ptr (plug k t) = upper k (ptr t).
Proof. induction k as [|f k IH]; intros t; [done|]. cbn [upper]. change (plug (f :: k) t) with (plug k (fill f t)). rewrite IH. unfold fill, dnode. by destruct (fd f). Qed.

Lemma treeP_plug k : forall par t,
  treeP par (plug k t) ⊣⊢ pathP par k (ptr t) ∗ treeP (hole_parent par k) t.
Proof.
  induction k as [|f k IH]; intros par t; cbn [pathP hole_parent].
  - iSplit; [iIntros "$"|iIntros "[_ $]"].
  - change (plug (f :: k) t) with (plug k (fill f t)). rewrite IH. unfold fill. rewrite treeP_dnode.
    assert (ptr (dnode (fd f) (fc f) t (fp f) (fs f)) = fp f) as -> by (by destruct (fd f)).
    iSplit.
    + iIntros "($&%&$&$&$&$&$)". done.
    + iIntros "[(%&$&$&$&$&$) $]". done.
Qed.
Lemma rbP_plug root k t : rbP root (plug k t) ⊣⊢ ctxP root k (ptr t) ∗ treeP (hole_parent 0 k) t.
Proof. unfold rbP, ctxP. rewrite ptr_plug treeP_plug. iSplit; [iIntros "($&$&$)"|iIntros "[[$ $] $]"]. Qed.

Lemma pathP_app k1 : forall top k2 h,
  pathP top (k1 ++ k2) h ⊣⊢ pathP (hole_parent top k2) k1 h ∗ pathP top k2 (upper k1 h).
Proof.
  induction k1 as [|f k1 IH]; intros top k2 h; cbn [pathP upper app].
  - iSplit; [iIntros "$"|iIntros "[_ $]"].
  - rewrite IH. assert (hole_parent top (k1 ++ k2) = hole_parent (hole_parent top k2) k1) as -> by (by destruct k1).
    iSplit; [iIntros "(%&$&$&$&$&$&$)"|iIntros "[(%&$&$&$&$&$) $]"]; done.
Qed.
Lemma upper_app k1 : forall k2 h, upper (k1 ++ k2) h = upper k2 (upper k1 h).
Proof. induction k1 as [|f k1 IH]; intros k2 h; [done|]. apply IH. Qed.

Lemma hole_parent_aligned root k h : ctxP root k h ⊢ <affine> ⌜aligned (hole_parent 0 k)⌝ ∗ ctxP root k h.
Proof.
  destruct k as [|f k]; cbn; iIntros "[Hr Hk]".
  - iFrame. iPureIntro. apply aligned_0.
  - iDestruct "Hk" as "(%&?)". iFrame. by iPureIntro.
Qed.

(** Words owned, for the loop bounds. *)
Lemma treeP_words t : forall par, treeP par t ⊢ at_least (nodes t).
Proof.
  induction t as [|c l IHl p r IHr]; intros par; [apply at_least_0|]. cbn [treeP nodes].
  rewrite IHl IHr (at_least_word p). iIntros "(_&H&_&_&Hl&Hr)".
  iApply (at_least_sep 1). iFrame. iApply at_least_sep. iFrame.
Qed.
Lemma pathP_words k : forall top h, pathP top k h ⊢ at_least (length k).
Proof.
  induction k as [|f k IH]; intros top h; [apply at_least_0|]. cbn [pathP length].
  rewrite IH (at_least_word (fp f)). iIntros "(_&H&_&_&_&Hk)". iApply (at_least_sep 1). iFrame.
Qed.

(** * The helpers *)

Section Helpers.
Implicit Types (Φ : unit -> hProp).

Lemma wp_rb_parent p par c (Φ : Z -> hProp) :
  aligned par -> p ↦ pc_of par c ⊢ (p ↦ pc_of par c -∗ Φ par) -∗ wp (rb_parent p) Φ.
Proof.
  iIntros (Ha) "H HΦ". unfold rb_parent. wp_load "H". wp_done. rewrite parent_pc; [|done]. by iApply "HΦ".
Qed.
Lemma wp_red_parent p par (Φ : Z -> hProp) :
  p ↦ pc_of par Red ⊢ (p ↦ pc_of par Red -∗ Φ par) -∗ wp (rb_red_parent p) Φ.
Proof. iIntros "H HΦ". unfold rb_red_parent. wp_load "H". iSpecialize ("HΦ" with "H"). by rewrite red_pc. Qed.
Lemma wp_rb_is_red p par c (Φ : bool -> hProp) :
  aligned par -> p ↦ pc_of par c ⊢ (p ↦ pc_of par c -∗ Φ (match c with Red => true | Black => false end)) -∗ wp (rb_is_red p) Φ.
Proof.
  iIntros (Ha) "H HΦ". unfold rb_is_red. wp_load "H". wp_done. rewrite is_red_pc; [|done]. by iApply "HΦ".
Qed.
Lemma wp_rb_is_black p par c (Φ : bool -> hProp) :
  aligned par -> p ↦ pc_of par c ⊢ (p ↦ pc_of par c -∗ Φ (match c with Red => false | Black => true end)) -∗ wp (rb_is_black p) Φ.
Proof.
  iIntros (Ha) "H HΦ". unfold rb_is_black. wp_load "H". wp_done. rewrite is_black_pc; [|done]. by iApply "HΦ".
Qed.
Lemma wp_set_parent p par par' c Φ :
  aligned par -> p ↦ pc_of par c ⊢ (p ↦ pc_of par' c -∗ Φ tt) -∗ wp (rb_set_parent p par') Φ.
Proof.
  iIntros (Ha) "H HΦ". unfold rb_set_parent. wp_load "H". wp_store "H". rewrite set_parent_pc; [|done]. by iApply "HΦ".
Qed.
Lemma wp_set_parent_color p v par c Φ :
  p ↦ v ⊢ (p ↦ pc_of par c -∗ Φ tt) -∗ wp (rb_set_parent_color p par (colz c)) Φ.
Proof. iIntros "H HΦ". unfold rb_set_parent_color. wp_store "H". by iApply "HΦ". Qed.

(** The colour of the root of a tree, leaves being black. *)
Definition root_color (t : tree) : color := match t with Leaf => Black | Node c _ _ _ => c end.
Lemma wp_red_node par t (Φ : bool -> hProp) :
  aligned par -> treeP par t ⊢ (treeP par t -∗ Φ (match root_color t with Red => true | Black => false end)) -∗ wp (red_node (ptr t)) Φ.
Proof.
  iIntros (Ha) "H HΦ". unfold red_node. destruct t as [|c l p r]; cbn [ptr root_color].
  - wp_done. by iApply "HΦ".
  - iDestruct (treeP_node_ptr with "H") as %Hp. rewrite (proj2 (Z.eqb_neq _ _) Hp).
    iDestruct "H" as "(%Hal&Hp&H)". iApply (wp_rb_is_red with "Hp"); [done|]. iIntros "Hp". iApply "HΦ". iFrame. done.
Qed.
Lemma wp_black_node par t (Φ : bool -> hProp) :
  aligned par -> treeP par t ⊢ (treeP par t -∗ Φ (match root_color t with Red => false | Black => true end)) -∗ wp (black_node (ptr t)) Φ.
Proof.
  iIntros (Ha) "H HΦ". unfold black_node. destruct t as [|c l p r]; cbn [ptr root_color].
  - wp_done. by iApply "HΦ".
  - iDestruct (treeP_node_ptr with "H") as %Hp. rewrite (proj2 (Z.eqb_neq _ _) Hp).
    iDestruct "H" as "(%Hal&Hp&H)". iApply (wp_rb_is_black with "Hp"); [done|]. iIntros "Hp". iApply "HΦ". iFrame. done.
Qed.

(** A tree under a new parent, its root painted. *)
Definition paint (c : color) (t : tree) : tree := match t with Leaf => Leaf | Node _ l p r => Node c l p r end.
Lemma wp_paint par par' c t Φ :
  treeP par t ⊢ (treeP par' (paint c t) -∗ Φ tt) -∗
  wp (when (negb (ptr t =? 0)) (rb_set_parent_color (ptr t) par' (colz c))) Φ.
Proof.
  iIntros "H HΦ". destruct t as [|c0 l p r]; cbn [ptr paint].
  - wp_done. by iApply "HΦ".
  - iDestruct (treeP_node_ptr with "H") as %Hp. rewrite (proj2 (Z.eqb_neq _ _) Hp).
    iDestruct "H" as "(%Hal&Hp&H)". iApply (wp_set_parent_color with "Hp"). iIntros "Hp". iApply "HΦ". iFrame. done.
Qed.
Lemma wp_reparent par par' t Φ :
  aligned par -> treeP par t ⊢ (treeP par' t -∗ Φ tt) -∗ wp (when (negb (ptr t =? 0)) (rb_set_parent (ptr t) par')) Φ.
Proof.
  iIntros (Ha) "H HΦ". destruct t as [|c0 l p r]; cbn [ptr].
  - wp_done. by iApply "HΦ".
  - iDestruct (treeP_node_ptr with "H") as %Hp. rewrite (proj2 (Z.eqb_neq _ _) Hp).
    iDestruct "H" as "(%Hal&Hp&H)". iApply (wp_set_parent with "Hp"); [done|]. iIntros "Hp". iApply "HΦ". iFrame. done.
Qed.

(** Redirecting the pointer to a subtree. *)
Lemma wp_change_child root k old new v Φ :
  old ↦ v ⊢ ctxP root k old -∗ (old ↦ v -∗ ctxP root k new -∗ Φ tt) -∗
  wp (__rb_change_child old new (hole_parent 0 k) root) Φ.
Proof.
  iIntros "Ho [Hr Hk] HΦ". unfold __rb_change_child. destruct k as [|[d c p s] k]; cbn [hole_parent pathP fd fc fp fs upper].
  - cbn. wp_store "Hr". iApply ("HΦ" with "Ho"). by iFrame.
  - iDestruct "Hk" as "(%Ha&Hp&Hd&Hs&Ht&Hk)". iDestruct (pointsto_nonnull with "Hp") as %Hp.
    rewrite (proj2 (Z.eqb_neq _ _) Hp). cbn [negb]. unfold rb_child, rb_set_child. destruct d; cbn [opp].
    + wp_load "Hd". rewrite Z.eqb_refl. wp_store "Hd". iApply ("HΦ" with "Ho"). unfold ctxP. cbn. by iFrame.
    + wp_load "Hs". iAssert ⌜ptr s <> old⌝%I as %Hne.
      { destruct s as [|cs sl ps sr]; cbn.
        - iDestruct (pointsto_nonnull with "Ho") as %Ho. iPureIntro. congruence.
        - iDestruct "Ht" as "(_&Hps&_)". iApply (pointsto_ne with "Hps Ho"). }
      rewrite (proj2 (Z.eqb_neq _ _) Hne). wp_store "Hd". iApply ("HΦ" with "Ho"). unfold ctxP. cbn. by iFrame.
Qed.

Lemma wp_rotate_set_parents root k old new c v c' Φ :
  old ↦ pc_of (hole_parent 0 k) c ⊢ new ↦ v -∗ ctxP root k old -∗
  (old ↦ pc_of new c' -∗ new ↦ pc_of (hole_parent 0 k) c -∗ ctxP root k new -∗ Φ tt) -∗
  wp (__rb_rotate_set_parents old new root (colz c')) Φ.
Proof.
  iIntros "Ho Hn Hk HΦ". unfold __rb_rotate_set_parents. rewrite hole_parent_aligned. iDestruct "Hk" as "[%Ha Hk]".
  iApply wp_bind. iApply (wp_rb_parent with "Ho"); [done|]. iIntros "Ho". wp_load "Ho". wp_store "Hn".
  iApply wp_bind. iApply (wp_set_parent_color with "Ho"). iIntros "Ho".
  iApply (wp_change_child with "Ho Hk"). iIntros "Ho Hk". iApply ("HΦ" with "Ho Hn Hk").
Qed.
End Helpers.

(** * Insertion *)

Lemma paint_id t : root_color t = Black -> paint Black t = t.
Proof. destruct t as [|[] ???]; done. Qed.
Lemma rb_root_color t c n : is_rb t c n -> root_color t = c.
Proof. by destruct 1. Qed.
Lemma opp_opp d : opp (opp d) = d.
Proof. by destruct d. Qed.

(** A subtree does not contain a node that is owned apart from it. *)
Lemma treeP_ptr_ne par t p v : treeP par t ⊢ p ↦ v -∗ ⌜ptr t <> p⌝.
Proof.
  iIntros "Ht Hp". destruct t as [|c l q r]; cbn.
  - iDestruct (pointsto_nonnull with "Hp") as %H. iPureIntro. congruence.
  - iDestruct "Ht" as "(_&Hq&_)". iApply (pointsto_ne with "Hq Hp").
Qed.

(** Opens the two frames above the hole. *)
Lemma ctxP_two root d1 c1 p s d2 c2 g u k h :
  ctxP root (F d1 c1 p s :: F d2 c2 g u :: k) h ⊣⊢
  <affine> ⌜aligned p /\ aligned g⌝ ∗ p ↦ pc_of g c1 ∗ slot d1 p ↦ h ∗ slot (opp d1) p ↦ ptr s ∗ treeP p s
  ∗ g ↦ pc_of (hole_parent 0 k) c2 ∗ slot d2 g ↦ p ∗ slot (opp d2) g ↦ ptr u ∗ treeP g u ∗ ctxP root k g.
Proof.
  unfold ctxP. cbn [pathP fd fc fp fs hole_parent upper]. iSplit.
  - iIntros "($&%&$&$&$&$&%&$&$&$&$&$)". done.
  - iIntros "([% %]&$&$&$&$&$&$&$&$&$&$)". done.
Qed.
Lemma ctxP_one root d c p s k h :
  ctxP root (F d c p s :: k) h ⊣⊢
  <affine> ⌜aligned p⌝ ∗ p ↦ pc_of (hole_parent 0 k) c ∗ slot d p ↦ h ∗ slot (opp d) p ↦ ptr s ∗ treeP p s ∗ ctxP root k p.
Proof.
  unfold ctxP. cbn [pathP fd fc fp fs upper]. iSplit; [iIntros "($&%&$&$&$&$&$)"|iIntros "(%&$&$&$&$&$&$)"]; done.
Qed.

Lemma ptr_dnode d c a p b : ptr (dnode d c a p b) = p.
Proof. by destruct d. Qed.

Section Insert.
Context (root : Z) (k : list frame) (d : side).
Implicit Types (Φ : unit -> hProp).

Lemma wp_insert_rotate_outer a n b p s g u Φ :
  root_color s = Black ->
  ctxP root (F d Red p s :: F d Black g u :: k) n ⊢ treeP p (dnode d Red a n b) -∗
  (rbP root (plug k (dnode d Black (dnode d Red a n b) p (dnode d Red s g u))) -∗ Φ tt) -∗
  wp (insert_rotate d n p g root) Φ.
Proof.
  intros Hs. rewrite ctxP_two treeP_dnode. iIntros "([%Hap %Hag]&Hp&Hpd&Hpo&Hts&Hg&Hgd&Hgo&Htu&Hk) (%Han&Hn&Hnd&Hno&Hta&Htb) HΦ".
  unfold insert_rotate, rb_child, rb_set_child. wp_load "Hpo".
  iDestruct (treeP_ptr_ne with "Hts Hn") as %Hne. rewrite (proj2 (Z.eqb_neq n _)); [|done].
  iApply wp_bind. wp_done. wp_store "Hgd". wp_store "Hpo".
  iApply wp_bind. iApply (wp_paint p g Black with "Hts"). iIntros "Hts". rewrite paint_id; [|done].
  iApply (wp_rotate_set_parents _ _ _ _ _ _ Red with "Hg Hp Hk"). iIntros "Hg Hp Hk". iApply "HΦ".
  rewrite rbP_plug ptr_dnode !treeP_dnode !ptr_dnode. iFrame. done.
Qed.

Lemma wp_insert_rotate_inner a n b p s g u Φ :
  root_color a = Black -> root_color b = Black ->
  ctxP root (F (opp d) Red p s :: F d Black g u :: k) n ⊢ treeP p (dnode d Red a n b) -∗
  (rbP root (plug k (dnode d Black (dnode d Red s p a) n (dnode d Red b g u))) -∗ Φ tt) -∗
  wp (insert_rotate d n p g root) Φ.
Proof.
  intros Ha Hb. rewrite ctxP_two treeP_dnode opp_opp. iIntros "([%Hap %Hag]&Hp&Hpo&Hpd&Hts&Hg&Hgd&Hgo&Htu&Hk) (%Han&Hn&Hnd&Hno&Hta&Htb) HΦ".
  unfold insert_rotate, rb_child, rb_set_child. wp_load "Hpo". rewrite Z.eqb_refl.
  iApply wp_bind. wp_load "Hnd". wp_store "Hpo". wp_store "Hnd".
  iApply wp_bind. iApply (wp_paint n p Black with "Hta"). iIntros "Hta". rewrite paint_id; [|done].
  iApply wp_bind. iApply (wp_set_parent_color _ _ _ Red with "Hp"). iIntros "Hp".
  wp_load "Hno". wp_done. wp_store "Hgd". wp_store "Hno".
  iApply wp_bind. iApply (wp_paint n g Black with "Htb"). iIntros "Htb". rewrite paint_id; [|done].
  iApply (wp_rotate_set_parents _ _ _ _ _ _ Red with "Hg Hn Hk"). iIntros "Hg Hn Hk". iApply "HΦ".
  rewrite rbP_plug ptr_dnode !treeP_dnode !ptr_dnode. iFrame. done.
Qed.
End Insert.

(** Rotations and repaintings keep the order. *)
Ltac same_order :=
  rewrite ?inorder_plug; cbn [befores afters fd fc fp fs];
  repeat match goal with d : side |- _ => destruct d end; cbn [dnode opp inorder app];
  rewrite ?app_nil_r; repeat (rewrite -?app_assoc; cbn [app inorder]); done.

(** A valid tree with the nodes of [t] in the same order. *)
Definition rebalanced (t t' : tree) : Prop := inorder t' = inorder t /\ rb_tree t'.

Lemma slot_side g d p u :
  slot d g ↦ p ∗ slot (opp d) g ↦ ptr u ⊢
  slot Rgt g ↦ (match d with Lft => ptr u | Rgt => p end) ∗ (slot Rgt g ↦ (match d with Lft => ptr u | Rgt => p end) -∗ slot d g ↦ p ∗ slot (opp d) g ↦ ptr u).
Proof. destruct d; cbn [opp]; iIntros "[H1 H2]"; iFrame; iIntros "$". Qed.

(** The focus of the loop by the side of its parent. *)
Lemma node_side d c l p r : exists a b, Node c l p r = dnode d c a p b /\ ((a = l /\ b = r) \/ (a = r /\ b = l)).
Proof. destruct d; [by exists l, r; auto|by exists r, l; auto]. Qed.

Lemma insert_fix_outer d k a n b p s g u cu m :
  is_rb a Black m -> is_rb b Black m -> is_rb s Black m -> is_rb u cu m -> cu = Black -> accepts k Black (S m) ->
  rebalanced (plug (F d Red p s :: F d Black g u :: k) (dnode d Red a n b))
    (plug k (dnode d Black (dnode d Red a n b) p (dnode d Red s g u))).
Proof.
  intros Ha Hb Hs Hu -> Hk. split; [same_order|]. eapply accepts_plug; [|exact Hk].
  eapply rb_dnode_black; by apply rb_dnode_red.
Qed.
Lemma insert_fix_inner d k a n b p s g u cu m :
  is_rb a Black m -> is_rb b Black m -> is_rb s Black m -> is_rb u cu m -> cu = Black -> accepts k Black (S m) ->
  rebalanced (plug (F (opp d) Red p s :: F d Black g u :: k) (dnode d Red a n b))
    (plug k (dnode d Black (dnode d Red s p a) n (dnode d Red b g u))).
Proof.
  intros Ha Hb Hs Hu -> Hk. split; [same_order|]. eapply accepts_plug; [|exact Hk].
  eapply rb_dnode_black; by apply rb_dnode_red.
Qed.

Lemma wp_insert_loop fuel : forall root k l n r m (Φ : unit -> hProp),
  (length k < fuel)%nat -> is_rb l Black m -> is_rb r Black m -> accepts k Black m ->
  ctxP root k n ⊢ treeP (hole_parent 0 k) (Node Red l n r) -∗
  (∀ t', <affine> ⌜rebalanced (plug k (Node Red l n r)) t'⌝ -∗ rbP root t' -∗ Φ tt) -∗
  wp (insert_loop fuel n (hole_parent 0 k) root) Φ.
Proof.
  induction fuel as [|fuel IH]; intros root k l n r m Φ Hfuel Hl Hr Hk; [lia|]. iIntros "Hk Ht HΦ". cbn [insert_loop].
  destruct k as [|[d1 c1 p s] k]; cbn [hole_parent fp].
  { (* the root *)
    iDestruct "Ht" as "(%Han&Hn&Ht)". iApply (wp_set_parent_color _ _ _ Black with "Hn"). iIntros "Hn".
    iApply ("HΦ" $! (Node Black l n r)).
    - iPureIntro. split; [done|]. exists (S m). by econstructor.
    - unfold rbP, ctxP. iDestruct "Hk" as "[$ _]". cbn. iFrame. done. }
  rewrite ctxP_one. iDestruct "Hk" as "(%Hap&Hp&Hpd&Hpo&Hts&Hk)". iDestruct (pointsto_nonnull with "Hp") as %Hp0.
  rewrite (proj2 (Z.eqb_neq p 0) Hp0). rewrite hole_parent_aligned. iDestruct "Hk" as "[%Hal Hk]".
  iApply wp_bind. iApply (wp_rb_is_black with "Hp"); [done|]. iIntros "Hp". destruct c1; cbn [accepts fc fs] in Hk.
  2: { (* a black parent *)
    wp_done. iApply ("HΦ" $! (plug (F d1 Black p s :: k) (Node Red l n r))).
    - iPureIntro. split; [done|]. eapply (accepts_plug _ _ Red m); [by constructor|done].
    - rewrite rbP_plug ctxP_one. by iFrame. }
  destruct Hk as (_&Hs&Hk). apply accepts_red in Hk as (d&g&u&k'&->&(cu&Hu)&Hk').
  rewrite ctxP_one. iDestruct "Hk" as "(%Hag&Hg&Hgd&Hgo&Htu&Hk)". cbn [hole_parent fp] in *.
  iApply wp_bind. iApply (wp_red_parent with "Hp"). iIntros "Hp".
  iDestruct (slot_side with "[$Hgd $Hgo]") as "[Hright Hback]". unfold rb_child. wp_load "Hright".
  iDestruct (treeP_ptr_ne with "Htu Hp") as %Hup.
  assert ((if negb (p =? match d with Lft => ptr u | Rgt => p end) then Lft else Rgt) = d) as ->.
  { destruct d; [rewrite (proj2 (Z.eqb_neq p _)); done|by rewrite Z.eqb_refl]. }
  iDestruct ("Hback" with "Hright") as "[Hgd Hgo]". wp_load "Hgo".
  iApply wp_bind. iApply (wp_red_node with "Htu"); [done|]. iIntros "Htu". rewrite (rb_root_color _ _ _ Hu). destruct cu.
  - (* case 1: the uncle is red *)
    inversion Hu as [|ul pu ur m' Hul Hur|]; subst. cbn [ptr treeP]. iDestruct "Htu" as "(%Hau&Hu&Htu)".
    iApply wp_bind. iApply (wp_set_parent_color _ _ _ Black with "Hu"). iIntros "Hu".
    iApply wp_bind. iApply (wp_set_parent_color _ _ _ Black with "Hp"). iIntros "Hp".
    rewrite hole_parent_aligned. iDestruct "Hk" as "[%Hak Hk]".
    iApply wp_bind. iApply (wp_rb_parent with "Hg"); [done|]. iIntros "Hg".
    iApply wp_bind. iApply (wp_set_parent_color _ _ _ Red with "Hg"). iIntros "Hg".
    set (P := dnode d1 Black (Node Red l n r) p s). set (U := Node Black ul pu ur).
    assert (HP : is_rb P Black (S m)) by (eapply rb_dnode_black; [by constructor|done]).
    assert (HU : is_rb U Black (S m)) by (by econstructor).
    iAssert (treeP (hole_parent 0 k') (Node Red (match d with Lft => P | Rgt => U end) g (match d with Lft => U | Rgt => P end)))
      with "[Hu Htu Hp Hpd Hpo Hts Hg Hgd Hgo Ht]" as "Hfocus".
    { replace (Node Red _ g _) with (dnode d Red P g U) by (by destruct d). rewrite treeP_dnode /P treeP_dnode ptr_dnode. cbn. iFrame. done. }
    iApply (IH _ _ _ _ _ (S m) with "Hk Hfocus"); [cbn in Hfuel; lia|by destruct d|by destruct d|done|].
    iIntros (t' [Ho Ht']) "H". iApply "HΦ"; [|done]. iPureIntro. split; [|done]. rewrite Ho /P /U. same_order.
  - (* cases 2 and 3 *)
    iAssert (ctxP root (F d1 Red p s :: F d Black g u :: k') n) with "[Hp Hpd Hpo Hts Hg Hgd Hgo Htu Hk]" as "Hk".
    { rewrite ctxP_two. iFrame. done. }
    destruct (node_side d Red l n r) as (a&b&E&Hab). rewrite E.
    assert (Ha : is_rb a Black m) by naive_solver. assert (Hb : is_rb b Black m) by naive_solver.
    destruct (decide (d1 = d)) as [->|Hne].
    + iApply (wp_insert_rotate_outer with "Hk Ht"); [by eapply rb_root_color|]. iIntros "H". iApply "HΦ"; [|done].
      iPureIntro. by eapply insert_fix_outer.
    + assert (d1 = opp d) as -> by (by destruct d1, d).
      iApply (wp_insert_rotate_inner with "Hk Ht"); [by eapply rb_root_color..|]. iIntros "H". iApply "HΦ"; [|done].
      iPureIntro. by eapply insert_fix_inner.
Qed.

(** A node that is in no tree. *)
Definition fresh (n : Z) : hProp := (<affine> ⌜aligned n⌝ ∗ ∃ v l r, n ↦ v ∗ slot Lft n ↦ l ∗ slot Rgt n ↦ r)%I.
(** The address of the pointer in which the hole of a path sits. *)
Definition link_of (root : Z) (k : list frame) : Z := match k with [] => root | f :: _ => slot (fd f) (fp f) end.

Lemma ctxP_link root k h :
  ctxP root k h ⊢ link_of root k ↦ h ∗ (∀ h', link_of root k ↦ h' -∗ ctxP root k h').
Proof.
  unfold ctxP. destruct k as [|f k]; cbn [link_of pathP upper].
  - iIntros "[$ _]". iIntros (h') "$".
  - iIntros "(Hr&%&Hp&$&Hs&Ht&Hk)". iIntros (h') "H". by iFrame.
Qed.

Lemma wp_rb_link_node root k n (Φ : unit -> hProp) :
  ctxP root k 0 ⊢ fresh n -∗
  (ctxP root k n -∗ treeP (hole_parent 0 k) (Node Red Leaf n Leaf) -∗ Φ tt) -∗
  wp (rb_link_node n (hole_parent 0 k) (link_of root k)) Φ.
Proof.
  iIntros "Hk (%Ha&%v&%l&%r&Hn&Hl&Hr) HΦ". unfold rb_link_node, rb_set_child.
  wp_store "Hn". wp_store "Hr". wp_store "Hl". iDestruct (ctxP_link with "Hk") as "[Hk Hback]". wp_store "Hk".
  iApply ("HΦ" with "[Hk Hback]"); [by iApply "Hback"|]. cbn. rewrite red_pc. by iFrame.
Qed.

Lemma accepts_leaf k : rb_tree (plug k Leaf) -> accepts k Black 0.
Proof. intros H. apply plug_accepts in H as (c&n&H&Ha). by inversion H; subst. Qed.

Lemma wp_rb_insert root k n (newleft : bool) leftmost lm (Φ : unit -> hProp) :
  rb_tree (plug k Leaf) ->
  ctxP root k n ⊢ treeP (hole_parent 0 k) (Node Red Leaf n Leaf) -∗ (if newleft then leftmost ↦ lm else emp) -∗
  (∀ t', <affine> ⌜rebalanced (plug k (Node Red Leaf n Leaf)) t'⌝ -∗ rbP root t' -∗
     (if newleft then leftmost ↦ n else emp) -∗ Φ tt) -∗
  wp (__rb_insert n root newleft leftmost) Φ.
Proof.
  iIntros (Hk) "Hk (%Ha&Hn&Hl&Hr&_) Hlm HΦ". unfold __rb_insert.
  iApply wp_bind. iApply (wp_red_parent with "Hn"). iIntros "Hn".
  iAssert (treeP (hole_parent 0 k) (Node Red Leaf n Leaf)) with "[Hn Hl Hr]" as "Ht"; [by iFrame|].
  iAssert (∀ Ψ : unit -> hProp, ((if newleft then leftmost ↦ n else emp) -∗ Ψ tt) -∗ wp (when newleft (assign leftmost n)) Ψ)%I
    with "[Hlm]" as "Hwhen".
  { iIntros (Ψ) "HΨ". destruct newleft; cbn [when]; [wp_store "Hlm"|wp_done]; by iApply "HΨ". }
  iApply wp_bind. iApply "Hwhen". iIntros "Hlm". iApply wp_bind.
  iStopProof. apply (wp_mem_words (length k)).
  - iIntros "(Hk&_)". unfold ctxP. rewrite pathP_words. iDestruct "Hk" as "[_ $]".
  - intros fuel Hfuel. iIntros "(Hk&HΦ&Ht&Hlm)".
    iApply (wp_insert_loop _ _ _ Leaf n Leaf 0 with "Hk Ht"); [done|constructor|constructor|by apply accepts_leaf|].
    iIntros (t') "Ht' H". iApply ("HΦ" with "Ht' H Hlm").
Qed.
