(* ===== verification/RbTreeWalk.v ===== *)
(** Walks over a red-black tree: the ends, the neighbours of a node, and the
    postorder.  None of them writes memory. *)

From iris.proofmode Require Import proofmode.
From S2P Require Import Prelude Mem HeapLogic RbTree RbTreeFacts RbTreeLogic.

(** * Order by direction *)

(** The nodes of [t], and the nodes around a hole, as met going away from side [d]. *)
Definition order_from (d : side) (t : tree) : list Z := match d with Lft => inorder t | Rgt => reverse (inorder t) end.
Definition beyond (d : side) (k : list frame) : list Z := match d with Rgt => afters k | Lft => reverse (befores k) end.
(** The first one, or NULL. *)
Definition hd0 (l : list Z) : Z := default 0 (head l).

Lemma order_from_dnode d c a p b : order_from d (dnode d c a p b) = order_from d a ++ p :: order_from d b.
Proof. destruct d; cbn [order_from dnode inorder]; [done|]. by rewrite reverse_app reverse_cons -app_assoc. Qed.
Lemma order_from_nil d t : order_from d t = [] -> t = Leaf.
Proof.
  destruct t as [|c l p r]; [done|]. destruct d; cbn [order_from inorder]; intros H; apply (f_equal length) in H; rewrite ?length_reverse ?length_app /= in H; lia.
Qed.
Lemma hd0_app l1 l2 : l1 <> [] -> hd0 (l1 ++ l2) = hd0 l1.
Proof. by destruct l1. Qed.
Lemma beyond_same d c p s k : beyond d (F d c p s :: k) = beyond d k.
Proof. destruct d; cbn [beyond befores afters fd]; by rewrite ?app_nil_r. Qed.
Lemma beyond_opp d c p s k : beyond d (F (opp d) c p s :: k) = p :: order_from (opp d) s ++ beyond d k.
Proof. destruct d; cbn [beyond befores afters fd fs fp opp order_from]; [|done]. by rewrite reverse_app reverse_app -app_assoc. Qed.

(** An element of a concatenation is in one of the two parts. *)
Lemma app_eq_mid {A} (l1 l2 xs ys : list A) n :
  l1 ++ l2 = xs ++ n :: ys ->
  (exists zs, l1 = xs ++ n :: zs /\ ys = zs ++ l2) \/ (exists zs, xs = l1 ++ zs /\ l2 = zs ++ n :: ys).
Proof.
  intros [zs [[-> H]|[-> ->]]]%app_eq_app; [|by right; exists zs].
  destruct zs as [|z zs]; [right; exists []; by rewrite !app_nil_r|]. left. injection H as -> ->. by exists zs.
Qed.

(** Any position of the in-order list is a node of the tree. *)
Lemma split_at n : forall t xs ys, inorder t = xs ++ n :: ys ->
  exists k c l r, t = plug k (Node c l n r) /\ xs = befores k ++ inorder l /\ ys = inorder r ++ afters k.
Proof.
  induction t as [|c l IHl p r IHr]; intros xs ys H; cbn [inorder] in H; [by destruct xs|].
  apply app_eq_mid in H as [(zs&El&->)|([|z zs]&->&H)].
  - destruct (IHl xs zs El) as (k&c'&l'&r'&->&->&->). exists (k ++ [F Lft c p r]), c', l', r'.
    rewrite plug_app befores_app afters_app /= app_nil_r -!app_assoc. done.
  - injection H as -> <-. exists [], c, l, r. by rewrite /= !app_nil_r.
  - injection H as -> H. destruct (IHr zs ys H) as (k&c'&l'&r'&->&->&->). exists (k ++ [F Rgt c z l]), c', l', r'.
    rewrite plug_app befores_app afters_app /= app_nil_r -!app_assoc. done.
Qed.

(** * Down *)

Lemma wp_descend d : forall t fuel par (Φ : Z -> hProp),
  t <> Leaf -> (height t <= fuel)%nat ->
  treeP par t ⊢ (treeP par t -∗ Φ (hd0 (order_from d t))) -∗ wp (descend fuel d (ptr t)) Φ.
Proof.
  assert (forall h t fuel par (Φ : Z -> hProp), (height t <= h)%nat -> t <> Leaf -> (height t <= fuel)%nat ->
    treeP par t ⊢ (treeP par t -∗ Φ (hd0 (order_from d t))) -∗ wp (descend fuel d (ptr t)) Φ) as H; [|by eauto].
  induction h as [|h IH]; intros t fuel par Φ Hh Hne Hfuel; (destruct t as [|c l p r]; [done|]); cbn [height] in *; [lia|].
  destruct fuel as [|fuel]; [lia|]. destruct (node_side d c l p r) as (a&b&E&Hab). rewrite E ptr_dnode treeP_dnode order_from_dnode.
  iIntros "(%Hp&Hp&Hd&Ho&Ha&Hb) HΦ". cbn [descend]. unfold rb_child. wp_load "Hd". destruct (decide (a = Leaf)) as [->|Hna].
  - wp_done. destruct d; cbn; (iApply "HΦ"; iFrame; done).
  - iDestruct (treeP_ptr_nonnull _ a with "[$]") as %Hnz; [done|].
    rewrite (proj2 (Z.eqb_neq _ _) Hnz). cbn [negb]. rewrite hd0_app; [|by intros ?%order_from_nil].
    iApply (IH with "Ha"); [destruct Hab as [[-> _]|[-> _]]; lia|done|destruct Hab as [[-> _]|[-> _]]; lia|].
    iIntros "Ha". iApply "HΦ". iFrame. done.
Qed.

Lemma height_nodes t : (height t <= nodes t)%nat.
Proof. induction t; cbn; lia. Qed.

Lemma wp_rb_end d root t (Φ : Z -> hProp) :
  rbP root t ⊢ (rbP root t -∗ Φ (hd0 (order_from d t))) -∗ wp (rb_end d root) Φ.
Proof.
  unfold rbP, rb_end. iIntros "[Hr Ht] HΦ". wp_load "Hr". destruct (decide (t = Leaf)) as [->|Hne].
  { wp_done. assert (hd0 (order_from d Leaf) = 0) as -> by (by destruct d). iApply "HΦ". iFrame. }
  iDestruct (treeP_ptr_nonnull _ t with "[$]") as %Hnz; [done|].
  rewrite (proj2 (Z.eqb_neq _ _) Hnz). iApply wp_bind. iStopProof. apply (wp_mem_words (nodes t)).
  - iIntros "(Ht&_)". iApply (treeP_words with "Ht").
  - intros fuel Hfuel. iIntros "(Ht&HΦ&Hr)". iApply (wp_descend with "Ht"); [done|pose proof (height_nodes t); lia|].
    iIntros "Ht". iApply "HΦ". iFrame.
Qed.

(** * Up *)

Lemma wp_ascend d : forall k fuel h c (Φ : Z -> hProp),
  (length k < fuel)%nat ->
  h ↦ pc_of (hole_parent 0 k) c ∗ pathP 0 k h ⊢
  (h ↦ pc_of (hole_parent 0 k) c ∗ pathP 0 k h -∗ Φ (hd0 (beyond d k))) -∗ wp (ascend fuel d h) Φ.
Proof.
  induction k as [|[d' c' p s] k IH]; intros fuel h c Φ Hfuel; (destruct fuel as [|fuel]; [lia|]); cbn [ascend hole_parent fp] in *.
  - iIntros "[Hh Hk] HΦ". iApply wp_bind. iApply (wp_rb_parent with "Hh"); [apply aligned_0|]. iIntros "Hh". wp_done.
    assert (hd0 (beyond d []) = 0) as -> by (by destruct d). iApply "HΦ". iFrame.
  - cbn [pathP fd fc fp fs]. iIntros "[Hh (%Hp&Hp&Hd&Ho&Hs&Hk)] HΦ". iApply wp_bind. iApply (wp_rb_parent with "Hh"); [done|]. iIntros "Hh".
    iDestruct (pointsto_nonnull with "Hp") as %Hp0. rewrite (proj2 (Z.eqb_neq p 0) Hp0). unfold rb_child.
    destruct (decide (d' = d)) as [->|Hne].
    + wp_load "Hd". rewrite Z.eqb_refl beyond_same. iApply (IH _ _ c' with "[$Hp $Hk]"); [cbn in Hfuel; lia|].
      iIntros "[Hp Hk]". iApply "HΦ". iFrame. done.
    + assert (d' = opp d) as -> by (by destruct d, d'). rewrite opp_opp. wp_load "Ho".
      iDestruct (treeP_ptr_ne with "Hs Hh") as %Hsh. rewrite (proj2 (Z.eqb_neq h _)); [|done]. wp_done. rewrite beyond_opp.
      iApply "HΦ". iFrame. done.
Qed.

(** * Neighbours *)

Lemma pc_not_self n k c root v :
  aligned n -> n ↦ v ⊢ ctxP root k n -∗ ⌜pc_of (hole_parent 0 k) c <> n⌝.
Proof.
  iIntros (Hn) "Hn Hk". rewrite hole_parent_aligned. iDestruct "Hk" as "[%Ha Hk]".
  iAssert ⌜hole_parent 0 k <> n⌝%I as %Hne.
  { destruct k as [|[d c' p s] k]; cbn.
    - iDestruct (pointsto_nonnull with "Hn") as %?. iPureIntro. congruence.
    - rewrite ctxP_one. iDestruct "Hk" as "(_&Hp&_)". iApply (pointsto_ne with "Hp Hn"). }
  iPureIntro. intros E. apply Hne. rewrite -(parent_pc (hole_parent 0 k) c); [|done]. rewrite E.
  pose proof (parent_pc n Red Hn) as H. by rewrite red_pc in H.
Qed.

Lemma wp_rb_step d root k c a n b (Φ : Z -> hProp) :
  rbP root (plug k (dnode d c a n b)) ⊢
  (rbP root (plug k (dnode d c a n b)) -∗ Φ (hd0 (order_from (opp d) a ++ beyond d k))) -∗ wp (rb_step d n) Φ.
Proof.
  rewrite rbP_plug treeP_dnode ptr_dnode. iIntros "[Hk (%Ha&Hn&Hd&Ho&Hta&Htb)] HΦ". unfold rb_step, rb_child. wp_load "Hn".
  iDestruct (pc_not_self n k c with "Hn Hk") as %Hne; [done|]. rewrite (proj2 (Z.eqb_neq _ _) Hne). wp_load "Hd".
  iApply wp_bind. iStopProof. apply (wp_mem_words (nodes a + length k)).
  { iIntros "([_ Hk]&_&Ha&_)". iApply at_least_sep. iSplitL "Ha"; [by iApply treeP_words|by iApply pathP_words]. }
  intros fuel Hfuel. iIntros "(Hk&Ho&Hta&Htb&HΦ&Hn&Hd)". destruct (decide (a = Leaf)) as [->|Hna].
  - cbn. assert (order_from (opp d) Leaf = []) as -> by (by destruct d). cbn. iDestruct "Hk" as "[Hr Hk]".
    iApply (wp_ascend with "[$Hn $Hk]"); [lia|]. iIntros "[Hn Hk]". iApply "HΦ". unfold ctxP. iFrame. done.
  - iDestruct (treeP_ptr_nonnull _ a with "[$]") as %Hnz; [done|].
    rewrite (proj2 (Z.eqb_neq _ _) Hnz). cbn [negb]. rewrite hd0_app; [|by intros ?%order_from_nil].
    iApply (wp_descend with "Hta"); [done|pose proof (height_nodes a); lia|]. iIntros "Hta". iApply "HΦ". iFrame. done.
Qed.

Lemma wp_rb_next root t xs n ys (Φ : Z -> hProp) :
  inorder t = xs ++ n :: ys -> rbP root t ⊢ (rbP root t -∗ Φ (hd0 ys)) -∗ wp (rb_next n) Φ.
Proof. intros (k&c&l&r&->&->&->)%split_at. apply (wp_rb_step Rgt). Qed.
Lemma wp_rb_prev root t xs n ys (Φ : Z -> hProp) :
  inorder t = xs ++ n :: ys -> rbP root t ⊢ (rbP root t -∗ Φ (hd0 (reverse xs))) -∗ wp (rb_prev n) Φ.
Proof. intros (k&c&l&r&->&->&->)%split_at. rewrite reverse_app. apply (wp_rb_step Lft). Qed.

(** * Postorder *)

(** The nodes that come after a subtree. *)
Fixpoint post_after (k : list frame) : list Z :=
  match k with
  | [] => []
  | f :: k' => match fd f with Lft => postorder (fs f) | Rgt => [] end ++ fp f :: post_after k'
  end.
Lemma post_after_app k1 k2 : post_after (k1 ++ k2) = post_after k1 ++ post_after k2.
Proof. induction k1 as [|f k1 IH]; cbn [app post_after]; [done|]. by rewrite IH -app_assoc. Qed.
Lemma postorder_nil t : postorder t = [] -> t = Leaf.
Proof. destruct t as [|c l p r]; [done|]. cbn. intros H. apply (f_equal length) in H. rewrite !length_app /= in H. lia. Qed.

Lemma split_postorder n : forall t xs ys, postorder t = xs ++ n :: ys ->
  exists k c l r, t = plug k (Node c l n r) /\ ys = post_after k.
Proof.
  induction t as [|c l IHl p r IHr]; intros xs ys H; cbn [postorder] in H; [by destruct xs|].
  apply app_eq_mid in H as [(zs&El&->)|(zs&->&[(zs'&Er&->)|([|z zs']&->&H)]%app_eq_mid)].
  - destruct (IHl xs zs El) as (k&c'&l'&r'&->&->). exists (k ++ [F Lft c p r]), c', l', r'. by rewrite plug_app post_after_app.
  - destruct (IHr zs zs' Er) as (k&c'&l'&r'&->&->). exists (k ++ [F Rgt c p l]), c', l', r'. by rewrite plug_app post_after_app.
  - injection H as -> <-. by exists [], c, l, r.
  - by destruct zs'.
Qed.

Lemma wp_left_deepest : forall t fuel par (Φ : Z -> hProp),
  t <> Leaf -> (height t <= fuel)%nat ->
  treeP par t ⊢ (treeP par t -∗ Φ (hd0 (postorder t))) -∗ wp (left_deepest fuel (ptr t)) Φ.
Proof.
  induction t as [|c l IHl p r IHr]; intros fuel par Φ Hne Hfuel; [done|]. cbn [height] in *. destruct fuel as [|fuel]; [lia|].
  cbn [treeP ptr left_deepest postorder]. iIntros "(%Ha&Hp&Hl&Hr&Htl&Htr) HΦ". unfold rb_child. wp_load "Hl".
  destruct (decide (l = Leaf)) as [->|Hnl].
  - cbn [ptr]. rewrite Z.eqb_refl. cbn [negb]. wp_load "Hr". destruct (decide (r = Leaf)) as [->|Hnr].
    + wp_done. cbn. iApply "HΦ". iFrame. done.
    + iDestruct (treeP_ptr_nonnull _ r with "[$]") as %Hnz; [done|]. rewrite (proj2 (Z.eqb_neq _ _) Hnz). cbn [negb postorder app].
      rewrite hd0_app; [|by intros ?%postorder_nil]. iApply (IHr with "Htr"); [done|lia|]. iIntros "Htr". iApply "HΦ". iFrame. done.
  - iDestruct (treeP_ptr_nonnull _ l with "[$]") as %Hnz; [done|]. rewrite (proj2 (Z.eqb_neq _ _) Hnz). cbn [negb].
    rewrite hd0_app; [|by intros ?%postorder_nil]. iApply (IHl with "Htl"); [done|lia|]. iIntros "Htl". iApply "HΦ". iFrame. done.
Qed.
Lemma wp_rb_left_deepest t par (Φ : Z -> hProp) :
  t <> Leaf -> treeP par t ⊢ (treeP par t -∗ Φ (hd0 (postorder t))) -∗ wp (rb_left_deepest_node (ptr t)) Φ.
Proof.
  iIntros (Hne) "Ht HΦ". unfold rb_left_deepest_node. iApply wp_bind. iStopProof. apply (wp_mem_words (nodes t)).
  - iIntros "(Ht&_)". iApply (treeP_words with "Ht").
  - intros fuel Hfuel. iIntros "(Ht&HΦ)". iApply (wp_left_deepest with "Ht HΦ"); [done|]. pose proof (height_nodes t). lia.
Qed.

Lemma wp_rb_first_postorder root t (Φ : Z -> hProp) :
  rbP root t ⊢ (rbP root t -∗ Φ (hd0 (postorder t))) -∗ wp (rb_first_postorder root) Φ.
Proof.
  unfold rbP, rb_first_postorder. iIntros "[Hr Ht] HΦ". wp_load "Hr". destruct (decide (t = Leaf)) as [->|Hne].
  { wp_done. iApply "HΦ". iFrame. }
  iDestruct (treeP_ptr_nonnull _ t with "[$]") as %Hnz; [done|]. rewrite (proj2 (Z.eqb_neq _ _) Hnz).
  iApply (wp_rb_left_deepest with "Ht"); [done|]. iIntros "Ht". iApply "HΦ". iFrame.
Qed.

Lemma wp_rb_next_postorder root t xs n ys (Φ : Z -> hProp) :
  postorder t = xs ++ n :: ys -> rbP root t ⊢ (rbP root t -∗ Φ (hd0 ys)) -∗ wp (rb_next_postorder n) Φ.
Proof.
  intros (k&c&l&r&->&->)%split_postorder. rewrite rbP_plug. iIntros "[Hk Ht] HΦ". unfold rb_next_postorder.
  iDestruct (treeP_node_ptr with "Ht") as %Hn0. rewrite (proj2 (Z.eqb_neq n 0) Hn0).
  iDestruct (hole_parent_aligned with "Hk") as "[%Hal Hk]". cbn [treeP ptr]. iDestruct "Ht" as "(%Ha&Hn&Ht)".
  iApply wp_bind. iApply (wp_rb_parent with "Hn"); [done|]. iIntros "Hn".
  destruct k as [|[d c' p s] k]; cbn [hole_parent fp].
  { wp_done. iApply "HΦ". iFrame. done. }
  rewrite ctxP_one. iDestruct "Hk" as "(%Hp&Hp&Hd&Ho&Hs&Hk)". iDestruct (pointsto_nonnull with "Hp") as %Hp0.
  rewrite (proj2 (Z.eqb_neq p 0) Hp0). unfold rb_child. cbn [post_after fd fs fp]. destruct d; cbn [opp].
  - wp_load "Hd". wp_load "Ho". rewrite Z.eqb_refl. cbn [andb]. destruct (decide (s = Leaf)) as [->|Hns].
    + wp_done. cbn [postorder app]. iApply "HΦ". iFrame. done.
    + iDestruct (treeP_ptr_nonnull _ s with "[$]") as %Hnz; [done|]. rewrite (proj2 (Z.eqb_neq _ _) Hnz). cbn [negb].
      rewrite hd0_app; [|by intros ?%postorder_nil]. iApply (wp_rb_left_deepest with "Hs"); [done|]. iIntros "Hs". iApply "HΦ". iFrame. done.
  - wp_load "Ho". wp_load "Hd". iDestruct (treeP_ptr_ne with "Hs Hn") as %Hsn. rewrite (proj2 (Z.eqb_neq n _)); [|done]. cbn [andb].
    wp_done. iApply "HΦ". iFrame. done.
Qed.
