(* ===== verification/RbTreeErase.v ===== *)
(** Removal from a red-black tree: the rebalancing loop, and the unlinking of a
    node with none, one or two children. *)

From iris.proofmode Require Import proofmode.
From S2P Require Import Prelude Mem HeapLogic RbTree RbTreeFacts RbTreeLogic RbTreeWalk.

(** * Rebalancing *)

(** What one call of the loop does: the subtree [t] has one black node too few,
    and the tree becomes valid again with its nodes in the same order. *)
Definition erases (root : Z) (k : list frame) (loop : Z -> Z -> M unit) : Prop :=
  forall t n (Φ : unit -> hProp),
    is_rb t Black n -> accepts k Black (S n) ->
    ctxP root k (ptr t) ⊢ treeP (hole_parent 0 k) t -∗
    (∀ t', <affine> ⌜rebalanced (plug k t) t'⌝ -∗ rbP root t' -∗ Φ tt) -∗
    wp (loop (ptr t) (hole_parent 0 k)) Φ.

Section Rebalance.
Context (root : Z) (k : list frame).
Implicit Types (Φ : unit -> hProp).

(** The last rotation; the parent words of the sibling and of its far child may
    be stale. *)
Lemma wp_erase_rotate d c p t v1 s v2 a q o v3 x y Φ :
  aligned p -> aligned s -> aligned o -> aligned q ->
  p ↦ pc_of (hole_parent 0 k) c ∗ slot d p ↦ ptr t ∗ slot (opp d) p ↦ v1 ∗ treeP p t
  ∗ s ↦ v2 ∗ slot d s ↦ ptr a ∗ slot (opp d) s ↦ o ∗ treeP q a
  ∗ o ↦ v3 ∗ slot d o ↦ ptr x ∗ slot (opp d) o ↦ ptr y ∗ treeP o x ∗ treeP o y ∗ ctxP root k p ⊢
  (rbP root (plug k (dnode d c (dnode d Black t p a) s (dnode d Black x o y))) -∗ Φ tt) -∗
  wp (erase_rotate d p s o root) Φ.
Proof.
  iIntros (Hp Hs Ho Hq) "(Hp&Hpd&Hpo&Ht&Hs&Hsd&Hso&Ha&Ho&Hod&Hoo&Hx&Hy&Hk) HΦ".
  unfold erase_rotate, rb_child, rb_set_child. wp_load "Hsd". wp_store "Hpo". wp_store "Hsd".
  iApply wp_bind. iApply (wp_set_parent_color _ _ _ Black with "Ho"). iIntros "Ho".
  iApply wp_bind. iApply (wp_reparent q p with "Ha"); [done|]. iIntros "Ha".
  iApply (wp_rotate_set_parents _ _ _ _ _ _ Black with "Hp Hs Hk"). iIntros "Hp Hs Hk". iApply "HΦ".
  rewrite rbP_plug ptr_dnode !treeP_dnode !ptr_dnode. iFrame. done.
Qed.

Lemma erase_fix_far d c t p a s x o y n ca :
  is_rb t Black n -> is_rb a ca n -> is_rb x Black n -> is_rb y Black n ->
  accepts (F d c p (dnode d Black a s (dnode d Red x o y)) :: k) Black (S n) ->
  rebalanced (plug (F d c p (dnode d Black a s (dnode d Red x o y)) :: k) t)
    (plug k (dnode d c (dnode d Black t p a) s (dnode d Black x o y))).
Proof.
  intros Ht Ha Hx Hy Hk. split; [same_order|]. cbn [accepts fc fs] in Hk.
  assert (H1 : is_rb (dnode d Black t p a) Black (S n)) by (by eapply rb_dnode_black).
  assert (H2 : is_rb (dnode d Black x o y) Black (S n)) by (by eapply rb_dnode_black).
  destruct c.
  - destruct Hk as (_&_&Hk). eapply accepts_plug; [by apply rb_dnode_red|done].
  - destruct Hk as (_&Hk). eapply accepts_plug; [by eapply rb_dnode_black|done].
Qed.
Lemma erase_fix_near d c t p x q y s b n :
  is_rb t Black n -> is_rb x Black n -> is_rb y Black n -> is_rb b Black n ->
  accepts (F d c p (dnode d Black (dnode d Red x q y) s b) :: k) Black (S n) ->
  rebalanced (plug (F d c p (dnode d Black (dnode d Red x q y) s b) :: k) t)
    (plug k (dnode d c (dnode d Black t p x) q (dnode d Black y s b))).
Proof.
  intros Ht Hx Hy Hb Hk. split; [same_order|]. cbn [accepts fc fs] in Hk.
  assert (H1 : is_rb (dnode d Black t p x) Black (S n)) by (by eapply rb_dnode_black).
  assert (H2 : is_rb (dnode d Black y s b) Black (S n)) by (by eapply rb_dnode_black).
  destruct c.
  - destruct Hk as (_&_&Hk). eapply accepts_plug; [by apply rb_dnode_red|done].
  - destruct Hk as (_&Hk). eapply accepts_plug; [by eapply rb_dnode_black|done].
Qed.

(** Case 2: both children of the sibling are black. *)
Lemma wp_erase_recolour d loop c p t a s b n Φ :
  (c = Black -> k <> [] -> erases root k loop) ->
  is_rb t Black n -> is_rb a Black n -> is_rb b Black n ->
  accepts (F d c p (dnode d Black a s b) :: k) Black (S n) ->
  ctxP root (F d c p (dnode d Black a s b) :: k) (ptr t) ⊢ treeP p t -∗
  (∀ t', <affine> ⌜rebalanced (plug (F d c p (dnode d Black a s b) :: k) t) t'⌝ -∗ rbP root t' -∗ Φ tt) -∗
  wp (rb_set_parent_color s p RB_RED;;
      red ← rb_is_red p;
      if (red : bool) then rb_set_black p
      else up ← rb_parent p; if negb (up =? 0) then loop p up else mret tt) Φ.
Proof.
  intros IH Ht Ha Hb Hk. rewrite ctxP_one treeP_dnode ptr_dnode. iIntros "(%Hap&Hp&Hpd&Hpo&(%Has&Hs&Hsd&Hso&Hta&Htb)&Hk) Ht HΦ".
  iApply wp_bind. iApply (wp_set_parent_color _ _ _ Red with "Hs"). iIntros "Hs".
  rewrite hole_parent_aligned. iDestruct "Hk" as "[%Hal Hk]".
  iApply wp_bind. iApply (wp_rb_is_red with "Hp"); [done|]. iIntros "Hp". cbn [accepts fc fs] in Hk.
  assert (Hs : is_rb (dnode d Red a s b) Red n) by (by apply rb_dnode_red).
  assert (HT : is_rb (dnode d Black t p (dnode d Red a s b)) Black (S n)) by (by eapply rb_dnode_black).
  assert (Horder : inorder (plug k (dnode d Black t p (dnode d Red a s b))) = inorder (plug (F d c p (dnode d Black a s b) :: k) t)) by same_order.
  iAssert (p ↦ pc_of (hole_parent 0 k) Black -∗ treeP (hole_parent 0 k) (dnode d Black t p (dnode d Red a s b)))%I
    with "[Hpd Hpo Ht Hs Hsd Hso Hta Htb]" as "Hfocus".
  { iIntros "Hp". rewrite !treeP_dnode ptr_dnode. iFrame. done. }
  destruct c.
  - unfold rb_set_black. wp_load "Hp". wp_store "Hp". rewrite set_black_pc. iSpecialize ("Hfocus" with "Hp").
    iApply ("HΦ" $! (plug k (dnode d Black t p (dnode d Red a s b)))).
    + iPureIntro. split; [done|]. destruct Hk as (_&_&Hk). eapply accepts_plug; [done|by apply accepts_black].
    + rewrite rbP_plug ptr_dnode. iFrame.
  - iApply wp_bind. iApply (wp_rb_parent with "Hp"); [done|]. iIntros "Hp". iSpecialize ("Hfocus" with "Hp").
    destruct Hk as [_ Hk]. destruct k as [|f k'] eqn:Ek.
    + wp_done. iApply ("HΦ" $! (dnode d Black t p (dnode d Red a s b))).
      * iPureIntro. split; [done|]. by exists (S n).
      * unfold rbP, ctxP. rewrite ptr_dnode. iDestruct "Hk" as "[$ _]". done.
    + rewrite -Ek in Hk IH Horder |- *. assert (Hk0 : k <> []) by (by rewrite Ek).
      iAssert ⌜hole_parent 0 k <> 0⌝%I as %Hne.
      { rewrite Ek. destruct f. rewrite ctxP_one. iDestruct "Hk" as "(_&H&_)". cbn. by iDestruct (pointsto_nonnull with "H") as %?. }
      rewrite (proj2 (Z.eqb_neq _ _) Hne). cbn [negb].
      pose proof (IH eq_refl Hk0 _ _ Φ HT Hk) as Hloop. rewrite ptr_dnode in Hloop. iApply (Hloop with "Hk Hfocus").
      iIntros (t' [Ho Ht']) "H". iApply "HΦ"; [|done]. iPureIntro. split; [by rewrite Ho|done].
Qed.

Lemma wp_erase_black d loop c p t a s b n Φ :
  (c = Black -> k <> [] -> erases root k loop) ->
  is_rb t Black n -> is_rb (dnode d Black a s b) Black (S n) ->
  accepts (F d c p (dnode d Black a s b) :: k) Black (S n) ->
  ctxP root (F d c p (dnode d Black a s b) :: k) (ptr t) ⊢ treeP p t -∗
  (∀ t', <affine> ⌜rebalanced (plug (F d c p (dnode d Black a s b) :: k) t) t'⌝ -∗ rbP root t' -∗ Φ tt) -∗
  wp (erase_black loop d p s root) Φ.
Proof.
  intros IH Ht Hs Hk. apply dnode_inv in Hs as (_&ca&cb&m&[= <-]&Ha&Hb).
  rewrite ctxP_one treeP_dnode ptr_dnode. iIntros "(%Hap&Hp&Hpd&Hpo&(%Has&Hs&Hsd&Hso&Hta&Htb)&Hk) Ht HΦ".
  unfold erase_black, rb_child, rb_set_child. wp_load "Hso".
  iApply wp_bind. iApply (wp_black_node with "Htb"); [done|]. iIntros "Htb". rewrite (rb_root_color _ _ _ Hb). destruct cb.
  - (* case 4 *)
    inversion Hb as [|x o y m Hx Hy|]; subst. cbn [ptr treeP]. iDestruct "Htb" as "(%Hao&Ho&Hol&Hor&Htl&Htr)".
    destruct (node_side d Red x o y) as (x'&y'&E&Hxy). rewrite E in Hk |- *.
    iApply (wp_erase_rotate d c p t _ s _ a s o _ x' y' with "[-HΦ]"); [done..| |].
    + iFrame. destruct Hxy as [[-> ->]|[-> ->]], d; cbn in E; simplify_eq/=; iFrame.
    + iIntros "H". iApply "HΦ"; [|done]. iPureIntro. eapply erase_fix_far; naive_solver.
  - wp_load "Hsd". iApply wp_bind. iApply (wp_black_node with "Hta"); [done|]. iIntros "Hta". rewrite (rb_root_color _ _ _ Ha). destruct ca.
    + (* case 3 *)
      inversion Ha as [|x q y m Hx Hy|]; subst. destruct (node_side d Red x q y) as (x'&y'&E&Hxy). rewrite E in Hk |- *.
      rewrite treeP_dnode ptr_dnode. iDestruct "Hta" as "(%Haq&Hq&Hqd&Hqo&Htx&Hty)".
      wp_load "Hqo". wp_store "Hsd". wp_store "Hqo". wp_store "Hpo".
      iApply wp_bind. iApply (wp_paint q s Black with "Hty"). iIntros "Hty". rewrite paint_id; [|by apply (rb_root_color _ _ n); naive_solver].
      iApply (wp_erase_rotate d c p t _ q _ x' q s _ y' b with "[-HΦ]"); [done..|iFrame|].
      iIntros "H". iApply "HΦ"; [|done]. iPureIntro. eapply erase_fix_near; naive_solver.
    + iApply (wp_erase_recolour with "[-Ht HΦ] Ht HΦ"); [done..|]. rewrite ctxP_one treeP_dnode ptr_dnode. iFrame. done.
Qed.

(** Case 1: a red sibling is rotated above the parent. *)
Lemma wp_erase_red_sibling d p t a s b h (Φ : Z -> hProp) :
  ctxP root (F d Black p (dnode d Red a s b) :: k) (ptr t) ⊢ treeP p t -∗
  <affine> ⌜is_rb a Black (S h)⌝ -∗
  (ctxP root (F d Red p a :: F d Black s b :: k) (ptr t) -∗ treeP p t -∗ Φ (ptr a)) -∗
  wp (tmp1 ← rb_child d s;
      rb_set_child (opp d) p tmp1;;
      rb_set_child d s p;;
      rb_set_parent_color tmp1 p RB_BLACK;;
      __rb_rotate_set_parents p s root RB_RED;;
      mret tmp1) Φ.
Proof.
  rewrite ctxP_one treeP_dnode ptr_dnode. iIntros "(%Hap&Hp&Hpd&Hpo&(%Has&Hs&Hsd&Hso&Hta&Htb)&Hk) Ht %Ha HΦ".
  unfold rb_child, rb_set_child. wp_load "Hsd". wp_store "Hpo". wp_store "Hsd".
  inversion Ha as [| |l q r cl cr m Hl Hr]; subst. cbn [ptr treeP]. iDestruct "Hta" as "(%Haq&Hq&Hta)".
  iApply wp_bind. iApply (wp_set_parent_color _ _ _ Black with "Hq"). iIntros "Hq".
  iApply wp_bind. iApply (wp_rotate_set_parents _ _ _ _ _ _ Red with "Hp Hs Hk"). iIntros "Hp Hs Hk".
  wp_done. iApply ("HΦ" with "[-Ht] Ht"). rewrite ctxP_two. cbn [treeP]. iFrame. done.
Qed.
End Rebalance.

Lemma wp_erase_color_loop fuel : forall root k,
  k <> [] -> (length k <= fuel)%nat -> erases root k (erase_color_loop fuel root).
Proof.
  induction fuel as [|fuel IH]; intros root k Hk0 Hfuel t n Φ Ht Hk; [destruct k; cbn in *; [done|lia]|].
  destruct k as [|[d c p s] k]; [done|]. iIntros "Hk Ht HΦ". cbn [erase_color_loop hole_parent fp].
  assert (Hrec : forall c', c' = Black -> k <> [] -> erases root k (erase_color_loop fuel root)).
  { intros c' _ Hne. apply IH; [done|]. cbn in Hfuel. lia. }
  rewrite ctxP_one. iDestruct "Hk" as "(%Hap&Hp&Hpd&Hpo&Hts&Hk)".
  assert (Hsn : exists cs, is_rb s cs (S n)) by (cbn [accepts fc fs] in Hk; destruct c; naive_solver).
  destruct Hsn as [cs Hs].
  assert (exists cs' l q r, s = Node cs' l q r) as (cs'&l&q&r&Es) by (inversion Hs; subst; eauto).
  destruct (node_side d cs' l q r) as (a&b&E&_). rewrite E in Es. clear E l r. subst s.
  iDestruct (slot_side with "[$Hpd $Hpo]") as "[Hright Hback]". unfold rb_child. wp_load "Hright".
  rewrite ptr_dnode treeP_dnode. iDestruct "Hts" as "(%Haq&Hq&Hqd&Hqo&Hta&Htb)". iDestruct (treeP_ptr_ne with "Ht Hq") as %Hne.
  assert ((if negb (ptr t =? match d with Lft => q | Rgt => ptr t end) then Lft else Rgt) = d) as ->.
  { destruct d; [by rewrite (proj2 (Z.eqb_neq (ptr t) _))|by rewrite Z.eqb_refl]. }
  iDestruct ("Hback" with "Hright") as "[Hpd Hpo]". wp_load "Hpo".
  iApply wp_bind. iApply (wp_rb_is_red with "Hq"); [done|]. iIntros "Hq".
  iAssert (ctxP root (F d c p (dnode d cs' a q b) :: k) (ptr t)) with "[-Ht HΦ]" as "Hk".
  { rewrite ctxP_one treeP_dnode ptr_dnode. iFrame. done. }
  pose proof (dnode_inv _ _ _ _ _ _ _ Hs) as [-> Hab]. destruct cs'.
  - destruct Hab as [Ha Hb]. destruct c; [cbn in Hk; destruct Hk as (_&Hk&_); by pose proof (rb_color_unique _ _ _ _ _ Hk Hs)|].
    iApply wp_bind. iApply (wp_erase_red_sibling _ _ _ _ _ _ _ _ n with "Hk Ht"); [done|]. iIntros "Hk Ht".
    assert (exists l q' r, a = Node Black l q' r) as (l&q'&r&Ea) by (inversion Ha; subst; eauto).
    destruct (node_side d Black l q' r) as (x&y&E&_). rewrite E in Ea. clear E l r. subst a. rewrite ptr_dnode.
    cbn [accepts fc fs] in Hk. destruct Hk as [_ Hk].
    iApply (wp_erase_black with "Hk Ht"); [done|done|done| |].
    + cbn. split_and!; [done|done|by exists Black|done].
    + iIntros (t' [Ho Ht']) "H". iApply "HΦ"; [|done]. iPureIntro. split; [|done]. rewrite Ho. same_order.
  - iApply wp_bind. wp_done. iApply (wp_erase_black with "Hk Ht HΦ"); [by apply Hrec|done..].
Qed.

Lemma wp_rb_erase_color root k (Φ : unit -> hProp) :
  k <> [] -> accepts k Black 1 ->
  ctxP root k 0 ⊢ (∀ t', <affine> ⌜rebalanced (plug k Leaf) t'⌝ -∗ rbP root t' -∗ Φ tt) -∗
  wp (____rb_erase_color (hole_parent 0 k) root) Φ.
Proof.
  intros Hk0 Hk. iIntros "Hk HΦ". unfold ____rb_erase_color. iApply wp_bind. iStopProof. apply (wp_mem_words (length k)).
  - unfold ctxP. rewrite pathP_words. iIntros "[[_ $] _]".
  - intros fuel Hfuel. iIntros "[Hk HΦ]".
    iApply (wp_erase_color_loop fuel root k Hk0 ltac:(lia) Leaf 0%nat with "Hk [] HΦ"); [constructor|done|done].
Qed.

(** * Unlinking *)

(** What is left when a node with at most one child goes: the child, painted
    black; or a hole that is one black node short. *)
Definition short_by (c : color) : nat := match c with Red => 0 | Black => 1 end.
Lemma remove_one_child d c p b k m :
  is_rb (dnode d c Leaf p b) c m -> accepts k c m ->
  match b with
  | Leaf => accepts k Black (short_by c)
  | Node _ _ _ _ => c = Black /\ is_rb (paint Black b) Black 1 /\ accepts k Black 1
  end.
Proof.
  intros H Hk. apply dnode_inv in H as [_ H]. destruct c.
  - destruct H as [Hl Hb]. inversion Hl; subst. inversion Hb; subst. by apply accepts_black.
  - destruct H as (ca&cb&m'&->&Hl&Hb). inversion Hl; subst. inversion Hb as [|l q r ? Hbl Hbr|]; subst; [done|].
    split_and!; [done|by econstructor|done].
Qed.
Lemma remove_one_child_node d c p b k :
  rb_tree (plug k (dnode d c Leaf p b)) ->
  match b with
  | Leaf => accepts k Black (short_by c)
  | Node _ _ _ _ => c = Black /\ is_rb (paint Black b) Black 1 /\ accepts k Black 1
  end.
Proof. intros (c'&m&H&Hk)%plug_accepts. pose proof (dnode_inv _ _ _ _ _ _ _ H) as [-> _]. by eapply remove_one_child. Qed.
Lemma accepts_rename k1 d c p q s k2 : forall c0 n,
  accepts (k1 ++ F d c p s :: k2) c0 n -> accepts (k1 ++ F d c q s :: k2) c0 n.
Proof. induction k1 as [|f k1 IH]; intros c0 n; cbn; [done|]. destruct (fc f); naive_solver. Qed.

(** The state between unlinking and rebalancing: [v] is the parent to start at. *)
Definition unlinked (root : Z) (xs : list Z) (v : Z) : hProp :=
  ((∃ t, <affine> ⌜v = 0 /\ inorder t = xs /\ rb_tree t⌝ ∗ rbP root t)
   ∨ (∃ k, <affine> ⌜v = hole_parent 0 k /\ k <> [] /\ accepts k Black 1 /\ inorder (plug k Leaf) = xs⌝ ∗ ctxP root k 0))%I.

Lemma unlinked_hole root k c :
  accepts k Black (short_by c) ->
  ctxP root k 0 ⊢ unlinked root (inorder (plug k Leaf)) (match c with Black => hole_parent 0 k | Red => 0 end).
Proof.
  iIntros (Hk) "Hk". destruct c.
  - iLeft. iExists (plug k Leaf). iSplitR.
    + iPureIntro. split_and!; [done|done|]. eapply accepts_plug; [constructor|done].
    + rewrite rbP_plug. by iFrame.
  - destruct k as [|f k].
    + iLeft. iExists Leaf. iSplitR; [|by iDestruct "Hk" as "[$ _]"]. iPureIntro. split_and!; [done|done|]. exists 0%nat. constructor.
    + iRight. iExists (f :: k). iFrame. done.
Qed.
Lemma unlinked_child root k b :
  is_rb (paint Black b) Black 1 -> accepts k Black 1 ->
  ctxP root k (ptr b) ⊢ treeP (hole_parent 0 k) (paint Black b) -∗ unlinked root (inorder (plug k b)) 0.
Proof.
  iIntros (Hb Hk) "Hk Hb". iLeft. iExists (plug k (paint Black b)). iSplitR.
  - iPureIntro. split_and!; [done| |by eapply accepts_plug]. rewrite !inorder_plug. by destruct b.
  - rewrite rbP_plug. assert (ptr (paint Black b) = ptr b) as -> by (by destruct b). iFrame.
Qed.

(** The removed node, once its words are given back. *)
Lemma fresh_intro n v l r : aligned n -> n ↦ v ⊢ slot Lft n ↦ l -∗ slot Rgt n ↦ r -∗ fresh n.
Proof. iIntros (Ha) "H1 H2 H3". unfold fresh. iFrame. done. Qed.

(** The successor: down the left spine. *)
Lemma wp_successor_loop : forall t fuel par succ (Φ : Z * Z -> hProp),
  t <> Leaf -> (height t <= fuel)%nat ->
  treeP par t ⊢
  (∀ kk cs s c2, <affine> ⌜t = plug kk (Node cs Leaf s c2) /\ befores kk = []⌝ -∗ treeP par t -∗ Φ (hole_parent succ kk, s)) -∗
  wp (successor_loop fuel succ (ptr t)) Φ.
Proof.
  induction t as [|c l IHl p r IHr]; intros fuel par succ Φ Hne Hfuel; [done|]. cbn [height] in *. destruct fuel as [|fuel]; [lia|].
  cbn [treeP ptr successor_loop]. iIntros "(%Ha&Hp&Hl&Hr&Htl&Htr) HΦ". unfold rb_child. wp_load "Hl".
  destruct (decide (l = Leaf)) as [->|Hnl].
  - wp_done. iApply ("HΦ" $! [] c p r); [done|]. cbn. iFrame. done.
  - iDestruct (treeP_ptr_nonnull _ l with "[$]") as %Hnz; [done|]. rewrite (proj2 (Z.eqb_neq _ _) Hnz). cbn [negb].
    iApply (IHl with "Htl"); [done|lia|]. iIntros (kk cs s c2 [El Hkk]) "Htl".
    assert (hole_parent p kk = hole_parent succ (kk ++ [F Lft c p r])) as -> by (by destruct kk).
    iApply ("HΦ" $! (kk ++ [F Lft c p r]) cs s c2); [|iFrame; done]. iPureIntro. by rewrite plug_app befores_app -El.
Qed.

(** The ends of a path can be changed. *)
Lemma pathP_top k : forall top h, k <> [] ->
  pathP top k h ⊢ ∃ c, upper k h ↦ pc_of top c ∗ (∀ top', upper k h ↦ pc_of top' c -∗ pathP top' k h).
Proof.
  induction k as [|f k IH]; intros top h Hne; [done|]. cbn [pathP upper]. iIntros "(%Ha&Hp&Hd&Ho&Hs&Hk)". destruct k as [|g k].
  - cbn [hole_parent upper pathP]. iExists (fc f). iFrame. iIntros (top') "$". done.
  - rewrite IH; [|done]. iDestruct "Hk" as (c) "[H Hback]". iExists c. cbn [hole_parent]. iFrame. iIntros (top') "H".
    iSplitR; [done|]. by iApply "Hback".
Qed.
Lemma pathP_hole f k top h :
  pathP top (f :: k) h ⊢ slot (fd f) (fp f) ↦ h ∗ (∀ h', slot (fd f) (fp f) ↦ h' -∗ pathP top (f :: k) h').
Proof. cbn [pathP]. iIntros "(%Ha&Hp&$&Ho&Hs&Hk)". iIntros (h') "H". iFrame. done. Qed.

(** The state after the successor [s] is cut off: the rest of the right subtree
    hangs under it. *)
Definition taken (r : tree) (res : Z * Z * Z) : hProp :=
  (∃ kk cs s c2 q, <affine> ⌜r = plug kk (Node cs Leaf s c2) /\ befores kk = [] /\ res = (hole_parent s kk, s, ptr c2) /\ aligned s /\ aligned q⌝
    ∗ s ↦ pc_of q cs ∗ slot Lft s ↦ 0 ∗ slot Rgt s ↦ upper kk (ptr c2) ∗ pathP s kk (ptr c2) ∗ treeP s c2)%I.

Lemma wp_take_successor n c l p r (Φ : Z * Z * Z -> hProp) :
  aligned n ->
  treeP n (Node c l p r) ⊢ (∀ res, taken (Node c l p r) res -∗ Φ res) -∗ wp (take_successor p (ptr l)) Φ.
Proof.
  iIntros (Hn) "Ht HΦ". unfold take_successor, rb_child, rb_set_child. destruct (decide (l = Leaf)) as [->|Hnl].
  { cbn [treeP ptr]. iDestruct "Ht" as "(%Ha&Hp&Hl&Hr&_&Htr)". rewrite Z.eqb_refl. wp_load "Hr". wp_done. iApply "HΦ".
    iExists [], c, p, r, n. cbn. iFrame. done. }
  cbn [treeP]. iDestruct "Ht" as "(%Ha&Hp&Hl&Hr&Htl&Htr)".
  iDestruct (treeP_ptr_nonnull _ l with "[$]") as %Hnz; [done|]. rewrite (proj2 (Z.eqb_neq _ _) Hnz).
  iApply wp_bind. iStopProof. apply (wp_mem_words (nodes l)).
  { iIntros "(_&_&_&Htl&_)". iApply (treeP_words with "Htl"). }
  intros fuel Hfuel. iIntros "(Hp&Hl&Hr&Htl&Htr&HΦ)". iApply wp_bind.
  iApply (wp_successor_loop with "Htl"); [done|pose proof (height_nodes l); lia|].
  iIntros (kk cs s c2 [El Hkk]) "Htl". rewrite El treeP_plug.
  assert (exists f k, kk ++ [F Lft c p r] = f :: k /\ fd f = Lft /\ hole_parent p kk = fp f) as (f&k&Ek&Hf&->).
  { destruct kk as [|f kk]; [by eexists _, []|]. eexists f, _. split; [done|]. split; [|done].
    cbn in Hkk. destruct (fd f); [done|]. by destruct (befores kk), (inorder (fs f)). }
  iDestruct "Htl" as "[Hkk (%Has&Hs&Hsl&Hsr&_&Htc)]".
  iAssert (pathP n (f :: k) s) with "[Hp Hl Hr Htr Hkk]" as "Hk".
  { rewrite -Ek pathP_app ptr_plug. cbn. iFrame. done. }
  iAssert ⌜aligned (fp f)⌝%I as %Haf; [by iDestruct "Hk" as "(%&_)"|].
  wp_load "Hsr". iDestruct (pathP_hole with "Hk") as "[Hh Hback]". rewrite Hf. wp_store "Hh". iSpecialize ("Hback" with "Hh").
  wp_store "Hsr". assert (Hu : forall h, upper (f :: k) h = p) by (intros h; by rewrite -Ek upper_app).
  iDestruct (pathP_top with "Hback") as (ct) "[Ht Hback]"; [done|]. rewrite Hu.
  iApply wp_bind. iApply (wp_set_parent with "Ht"); [done|]. iIntros "Ht". iSpecialize ("Hback" with "Ht").
  wp_done. iApply "HΦ". iExists (f :: k), cs, s, c2, (fp f). rewrite Hu. iFrame. iPureIntro. split_and!; [|by rewrite -Ek befores_app|done..].
  rewrite -Ek plug_app -El. done.
Qed.

Lemma wp_move par par' t (Φ : unit -> hProp) :
  t <> Leaf -> aligned par -> treeP par t ⊢ (treeP par' t -∗ Φ tt) -∗ wp (rb_set_parent (ptr t) par') Φ.
Proof.
  iIntros (Hne Ha) "Ht HΦ". iDestruct (treeP_ptr_nonnull _ t with "[$]") as %Hnz; [done|].
  pose proof (wp_reparent par par' t Φ Ha) as H. rewrite (proj2 (Z.eqb_neq _ _) Hnz) in H. by iApply (H with "Ht").
Qed.

(** The successor put into the place of the node. *)
Lemma ctxP_graft root kk c s l k h :
  aligned s ->
  s ↦ pc_of (hole_parent 0 k) c ∗ slot Lft s ↦ ptr l ∗ slot Rgt s ↦ upper kk h ∗ treeP s l ∗ pathP s kk h ∗ ctxP root k s ⊢
  ctxP root (kk ++ F Rgt c s l :: k) h.
Proof.
  iIntros (Hs) "(Hs&Hl&Hr&Htl&Hkk&[Hroot Hk])". unfold ctxP. rewrite upper_app pathP_app. cbn. iFrame. done.
Qed.
Lemma successor_order kk c s c2 l n k t :
  befores kk = [] ->
  inorder (plug (kk ++ F Rgt c s l :: k) t) = (befores k ++ inorder l) ++ s :: inorder t ++ afters kk ++ afters k
  /\ inorder (plug kk (Node c2 Leaf n t)) = n :: inorder t ++ afters kk.
Proof.
  intros Hkk. rewrite !inorder_plug befores_app afters_app Hkk /= app_nil_r -!app_assoc. done.
Qed.

Lemma wp_erase_successor root k c l n cr rl p rr (Φ : Z -> hProp) :
  l <> Leaf -> rb_tree (plug k (Node c l n (Node cr rl p rr))) ->
  rbP root (plug k (Node c l n (Node cr rl p rr))) ⊢
  (∀ v, unlinked root ((befores k ++ inorder l) ++ inorder (Node cr rl p rr) ++ afters k) v -∗ fresh n -∗ Φ v) -∗
  wp (erase_successor n p root) Φ.
Proof.
  intros Hl Hrb. rewrite rbP_plug. cbn [ptr treeP]. iIntros "[Hk (%Hn&Hn&Hnl&Hnr&Htl&(%Hp&Hp&Hpl&Hpr&Hrl&Hrr))] HΦ".
  unfold erase_successor, rb_child, rb_set_child. wp_load "Hpl".
  iApply wp_bind. iApply (wp_take_successor n cr rl p rr with "[Hp Hpl Hpr Hrl Hrr]"); [done|iFrame; done|].
  iIntros (res) "(%kk&%cs&%s&%c2&%q&%Hres&Hs&Hsl&Hsr&Hpath&Htc)". destruct Hres as (Er&Hkk&->&Has&Haq).
  wp_load "Hnl". wp_store "Hsl". iApply wp_bind. iApply (wp_move n s with "Htl"); [done..|]. iIntros "Htl".
  wp_load "Hn". iDestruct (hole_parent_aligned with "Hk") as "[%Hal Hk]". rewrite parent_pc; [|done].
  iApply wp_bind. iApply (wp_change_child root k n s with "Hn Hk"). iIntros "Hn Hk".
  destruct (successor_order kk c s cs l s k c2 Hkk) as [Eo1 Eo2]. rewrite Er Eo2 in Hrb |- *.
  rewrite -[(s :: inorder c2 ++ afters kk) ++ _]/(s :: (inorder c2 ++ afters kk) ++ _) -(app_assoc (inorder c2)) -Eo1.
  assert (Hrem : rb_tree (plug (kk ++ F Rgt c n l :: k) (Node cs Leaf s c2))) by (by rewrite plug_app).
  apply (remove_one_child_node Lft) in Hrem. set (K := kk ++ F Rgt c s l :: k).
  assert (Hpar : hole_parent s kk = hole_parent 0 K) by (by destruct kk). rewrite Hpar.
  iDestruct (fresh_intro with "Hn Hnl Hnr") as "Hfresh"; [done|].
  destruct c2 as [|cc cl cp cr2].
  - wp_load "Hs". wp_store "Hs". wp_done. rewrite is_black_pc; [|done]. iApply ("HΦ" with "[-Hfresh] Hfresh").
    assert ((if match cs with Red => false | Black => true end then hole_parent 0 K else 0) = match cs with Black => hole_parent 0 K | Red => 0 end) as -> by (by destruct cs).
    iApply unlinked_hole; [by eapply accepts_rename|]. iApply ctxP_graft; [done|]. iFrame.
  - destruct Hrem as (->&Hc2&Hacc). iDestruct (treeP_ptr_nonnull _ (Node cc cl cp cr2) with "[$]") as %Hnz; [done|].
    rewrite (proj2 (Z.eqb_neq _ _) Hnz). cbn [negb]. wp_store "Hs".
    iApply wp_bind. pose proof (wp_paint s (hole_parent 0 K) Black (Node cc cl cp cr2)) as Hpaint.
    rewrite (proj2 (Z.eqb_neq _ _) Hnz) in Hpaint. iApply (Hpaint with "Htc"). iIntros "Htc". wp_done.
    iApply ("HΦ" with "[-Hfresh] Hfresh"). iApply (unlinked_child with "[-Htc] Htc"); [done|by eapply accepts_rename|].
    iApply ctxP_graft; [done|]. iFrame.
Qed.

(** A cached first node moves on to the node after the removed one. *)
Definition cachedP (leftmost lm : Z) : hProp := if leftmost =? 0 then emp%I else (leftmost ↦ lm)%I.
Definition next_leftmost (n lm : Z) (ys : list Z) : Z := if n =? lm then hd0 ys else lm.

Lemma wp_erase_leftmost root t xs n ys leftmost lm (Φ : unit -> hProp) :
  inorder t = xs ++ n :: ys ->
  rbP root t ⊢ cachedP leftmost lm -∗ (rbP root t -∗ cachedP leftmost (next_leftmost n lm ys) -∗ Φ tt) -∗
  wp (if negb (leftmost =? 0) then erase_leftmost n leftmost else mret tt) Φ.
Proof.
  iIntros (Hn) "Ht Hlm HΦ". unfold cachedP, next_leftmost, erase_leftmost. destruct (leftmost =? 0); cbn [negb].
  - wp_done. iApply ("HΦ" with "Ht Hlm").
  - wp_load "Hlm". destruct (n =? lm); cbn [when].
    + iApply wp_bind. iApply (wp_rb_next with "Ht"); [done|]. iIntros "Ht". wp_store "Hlm". iApply ("HΦ" with "Ht Hlm").
    + wp_done. iApply ("HΦ" with "Ht Hlm").
Qed.

Lemma wp_rb_erase_augmented root k c l n r leftmost lm (Φ : Z -> hProp) :
  rb_tree (plug k (Node c l n r)) ->
  rbP root (plug k (Node c l n r)) ⊢ cachedP leftmost lm -∗
  (∀ v, unlinked root ((befores k ++ inorder l) ++ inorder r ++ afters k) v -∗ fresh n -∗
     cachedP leftmost (next_leftmost n lm (inorder r ++ afters k)) -∗ Φ v) -∗
  wp (__rb_erase_augmented n root leftmost) Φ.
Proof.
  intros Hrb. iIntros "Ht Hlm HΦ". unfold __rb_erase_augmented, rb_child.
  rewrite {1}rbP_plug. cbn [ptr treeP]. iDestruct "Ht" as "[Hk (%Hn&Hn&Hl&Hr&Htl&Htr)]". wp_load "Hr". wp_load "Hl".
  iApply wp_bind. iApply (wp_erase_leftmost root (plug k (Node c l n r)) (befores k ++ inorder l) n (inorder r ++ afters k) with "[-Hlm HΦ] Hlm").
  { rewrite inorder_plug /= -!app_assoc. done. }
  { rewrite rbP_plug. cbn. iFrame. done. }
  iIntros "Ht Hlm". destruct (decide (l = Leaf)) as [->|Hl0]; [|destruct (decide (r = Leaf)) as [->|Hr0]].
  - rewrite rbP_plug. cbn [ptr treeP inorder]. iDestruct "Ht" as "[Hk (_&Hn&Hl&Hr&_&Htr)]". rewrite Z.eqb_refl. wp_load "Hn".
    iDestruct (hole_parent_aligned with "Hk") as "[%Hal Hk]". rewrite parent_pc; [|done].
    iApply wp_bind. iApply (wp_change_child with "Hn Hk"). iIntros "Hn Hk".
    iDestruct (fresh_intro with "Hn Hl Hr") as "Hfresh"; [done|]. apply (remove_one_child_node Lft) in Hrb.
    rewrite app_nil_r -(inorder_plug k r). destruct r as [|cr rl p rr].
    + wp_done. rewrite is_black_pc; [|done]. iApply ("HΦ" with "[Hk] Hfresh Hlm").
      iPoseProof (unlinked_hole root k c Hrb with "Hk") as "H". by destruct c.
    + destruct Hrb as (->&Hb&Hacc). iDestruct (treeP_node_ptr with "Htr") as %Hp0. cbn [ptr]. rewrite (proj2 (Z.eqb_neq _ _) Hp0). cbn [negb].
      iDestruct "Htr" as "(%Hp&Hp&Htr)". wp_store "Hp". wp_done. iApply ("HΦ" with "[Hk Hp Htr] Hfresh Hlm").
      iApply (unlinked_child root k (Node cr rl p rr) with "Hk"); [done..|]. cbn. iFrame. done.
  - iDestruct (rbP_plug with "Ht") as "[Hk Ht]". cbn [ptr treeP inorder app]. iDestruct "Ht" as "(_&Hn&Hl&Hr&Htl&_)".
    iDestruct (treeP_ptr_nonnull _ l with "[$]") as %Hnz; [done|]. rewrite (proj2 (Z.eqb_neq _ _) Hnz) Z.eqb_refl. wp_load "Hn".
    iDestruct (hole_parent_aligned with "Hk") as "[%Hal Hk]". rewrite parent_pc; [|done]. apply (remove_one_child_node Rgt) in Hrb.
    rewrite -app_assoc -(inorder_plug k l). destruct l as [|cl ll p lr]; [done|]. destruct Hrb as (->&Hb&Hacc).
    iDestruct "Htl" as "(%Hp&Hp&Htl)". wp_store "Hp". iApply wp_bind. iApply (wp_change_child with "Hn Hk"). iIntros "Hn Hk".
    iDestruct (fresh_intro with "Hn Hl Hr") as "Hfresh"; [done|]. wp_done. iApply ("HΦ" with "[Hk Hp Htl] Hfresh Hlm").
    iApply (unlinked_child root k (Node cl ll p lr) with "Hk"); [done..|]. cbn. iFrame. done.
  - iAssert ⌜ptr l <> 0 /\ ptr r <> 0⌝%I as %[Hlz Hrz].
    { rewrite rbP_plug. iDestruct "Ht" as "[_ (_&_&_&_&Htl&Htr)]". iDestruct (treeP_ptr_nonnull with "Htl") as %?; [done|].
      by iDestruct (treeP_ptr_nonnull with "Htr") as %?. }
    rewrite (proj2 (Z.eqb_neq _ _) Hlz) (proj2 (Z.eqb_neq _ _) Hrz). destruct r as [|cr rl p rr]; [done|].
    iApply (wp_erase_successor with "Ht"); [done|done|]. iIntros (v) "H Hfresh". iApply ("HΦ" with "H Hfresh Hlm").
Qed.

Lemma wp_rb_rebalance root xs v (Φ : unit -> hProp) :
  unlinked root xs v ⊢ (∀ t', <affine> ⌜inorder t' = xs /\ rb_tree t'⌝ -∗ rbP root t' -∗ Φ tt) -∗
  wp (when (negb (v =? 0)) (____rb_erase_color v root)) Φ.
Proof.
  iIntros "[(%t&%H&Ht)|(%k&%H&Hk)] HΦ".
  - destruct H as (->&?&?). wp_done. by iApply ("HΦ" with "[] Ht").
  - destruct H as (->&Hk0&Hacc&Ho). iAssert ⌜hole_parent 0 k <> 0⌝%I as %Hne.
    { destruct k as [|[d c p s] k]; [done|]. rewrite ctxP_one. iDestruct "Hk" as "(_&H&_)". by iDestruct (pointsto_nonnull with "H") as %?. }
    rewrite (proj2 (Z.eqb_neq _ _) Hne). cbn [negb when]. iApply (wp_rb_erase_color with "Hk"); [done..|].
    iIntros (t' [Ht' Hrb]) "H". iApply ("HΦ" with "[] H"). iPureIntro. by rewrite Ht'.
Qed.

(** * The entry points *)

Lemma wp_rb_erase_gen root leftmost lm t xs n ys (Φ : unit -> hProp) :
  rb_tree t -> inorder t = xs ++ n :: ys ->
  rbP root t ⊢ cachedP leftmost lm -∗
  (∀ t', <affine> ⌜inorder t' = xs ++ ys /\ rb_tree t'⌝ -∗ rbP root t' -∗ fresh n -∗ cachedP leftmost (next_leftmost n lm ys) -∗ Φ tt) -∗
  wp (rebalance ← __rb_erase_augmented n root leftmost; when (negb (rebalance =? 0)) (____rb_erase_color rebalance root)) Φ.
Proof.
  intros Hrb (k&c&l&r&->&->&->)%split_at. iIntros "Ht Hlm HΦ". iApply wp_bind.
  iApply (wp_rb_erase_augmented with "Ht Hlm"); [done|]. iIntros (v) "H Hfresh Hlm".
  iApply (wp_rb_rebalance with "H"). iIntros (t') "Ht' H". iApply ("HΦ" with "Ht' H Hfresh Hlm").
Qed.

Lemma wp_rb_replace_node root t1 xs n ys new (Φ : unit -> hProp) :
  inorder t1 = xs ++ n :: ys -> rb_tree t1 ->
  rbP root t1 ⊢ fresh new -∗
  (∀ t', <affine> ⌜inorder t' = xs ++ new :: ys /\ rb_tree t' /\ height t' = height t1⌝ -∗ rbP root t' -∗ fresh n -∗ Φ tt) -∗
  wp (rb_replace_node n new root) Φ.
Proof.
  intros (k&c&l&r&->&->&->)%split_at Hrb. rewrite rbP_plug. cbn [ptr treeP]. iIntros "[Hk (%Hn&Hn&Hl&Hr&Htl&Htr)] (%Hnew&%v0&%l0&%r0&Hv&Hvl&Hvr) HΦ".
  unfold rb_replace_node, copy_node, rb_child, rb_set_child. iDestruct (hole_parent_aligned with "Hk") as "[%Hal Hk]".
  iApply wp_bind. iApply (wp_rb_parent with "Hn"); [done|]. iIntros "Hn".
  iApply wp_bind. wp_load "Hn". wp_store "Hv". wp_load "Hr". wp_store "Hvr". wp_load "Hl". wp_store "Hvl".
  wp_load "Hl". iApply wp_bind. iApply (wp_reparent n new with "Htl"); [done|]. iIntros "Htl".
  wp_load "Hr". iApply wp_bind. iApply (wp_reparent n new with "Htr"); [done|]. iIntros "Htr".
  iApply (wp_change_child with "Hn Hk"). iIntros "Hn Hk".
  iApply ("HΦ" $! (plug k (Node c l new r)) with "[] [-Hn Hl Hr] [-]").
  - iPureIntro. split_and!; [by rewrite inorder_plug /= -!app_assoc| |].
    + apply plug_accepts in Hrb as (c'&m&Ht&Hk). eapply accepts_plug; [|exact Hk]. inversion Ht; subst; by econstructor.
    + clear. assert (Hg : forall t t', height t = height t' -> height (plug k t) = height (plug k t')); [|by apply Hg].
      induction k as [|[[] ? ? ?] k IH]; intros t t' E; [done| |]; apply IH; cbn; by rewrite E.
  - rewrite rbP_plug. cbn. iFrame. done.
  - by iApply (fresh_intro with "Hn Hl Hr").
Qed.
