(* ===== verification/RbTreeSpec.v ===== *)
(** What lib/rbtree.c promises: insertion, removal and replacement keep the
    order of the nodes and the red-black invariant, the cached first node is
    right, walks visit the nodes in order, and every loop is logarithmic. *)

From iris.proofmode Require Import proofmode.
From S2P Require Import Prelude Mem HeapLogic RbTree RbTreeFacts RbTreeLogic RbTreeWalk RbTreeErase.

(** A valid tree at [root] whose nodes are [xs], in this order. *)
Definition ordered (root : Z) (xs : list Z) : hProp := (∃ t, <affine> ⌜rb_tree t /\ inorder t = xs⌝ ∗ rbP root t)%I.
(** The same with the cached first node. *)
Definition ordered_cached (root : Z) (xs : list Z) : hProp := (ordered root xs ∗ (root + 8) ↦ hd0 xs)%I.

(** * Lemmas *)

#[export] Instance treeP_exact t : forall par, Exact (treeP par t).
Proof. induction t; intros par; cbn; apply _. Qed.
#[export] Instance rbP_exact root t : Exact (rbP root t).
Proof. unfold rbP. apply _. Qed.

Lemma wp_insert root k n (newleft : bool) leftmost lm (Φ : unit -> hProp) :
  rb_tree (plug k Leaf) ->
  rbP root (plug k Leaf) ⊢ fresh n -∗ (if newleft then leftmost ↦ lm else emp) -∗
  (ordered root (befores k ++ n :: afters k) -∗ (if newleft then leftmost ↦ n else emp) -∗ Φ tt) -∗
  wp (rb_link_node n (hole_parent 0 k) (link_of root k);; __rb_insert n root newleft leftmost) Φ.
Proof.
  iIntros (Hrb) "Ht Hn Hlm HΦ". rewrite rbP_plug. iDestruct "Ht" as "[Hk _]". iApply wp_bind.
  iApply (wp_rb_link_node with "Hk Hn"). iIntros "Hk Hn". iApply (wp_rb_insert with "Hk Hn Hlm"); [done|].
  iIntros (t' [Ho Ht']) "H Hlm". iApply ("HΦ" with "[H] Hlm"). iExists t'. iFrame. iPureIntro. split; [done|]. by rewrite Ho inorder_plug.
Qed.

(** The first node after an insertion, as the caller has to determine it. *)
Lemma hd0_insert k n :
  hd0 (befores k ++ n :: afters k) = if bool_decide (befores k = []) then n else hd0 (inorder (plug k Leaf)).
Proof. rewrite inorder_plug. by destruct (befores k). Qed.
Lemma next_leftmost_hd xs n ys : NoDup (xs ++ n :: ys) -> next_leftmost n (hd0 (xs ++ n :: ys)) ys = hd0 (xs ++ ys).
Proof.
  intros Hnd. unfold next_leftmost. destruct xs as [|x xs]; cbn; [by rewrite Z.eqb_refl|].
  rewrite (proj2 (Z.eqb_neq n x)); [done|]. intros ->. apply NoDup_cons in Hnd as [Hx _]. apply Hx, elem_of_app. right. by left.
Qed.
(** The nodes of a tree in memory are distinct. *)
Lemma treeP_apart t : forall par p v, treeP par t ⊢ p ↦ v -∗ ⌜p ∉ inorder t⌝.
Proof.
  induction t as [|c l IHl q r IHr]; intros par p v; cbn [treeP inorder]; [iIntros "_ _"; iPureIntro; apply not_elem_of_nil|].
  iIntros "(_&Hq&_&_&Hl&Hr) Hp". iDestruct (IHl with "Hl Hp") as %Hl. iDestruct (IHr with "Hr Hp") as %Hr.
  iDestruct (pointsto_ne with "Hq Hp") as %Hq. iPureIntro. set_solver.
Qed.
Lemma treeP_sep t1 : forall t2 par1 par2, treeP par1 t1 ⊢ treeP par2 t2 -∗ ⌜forall p, p ∈ inorder t1 -> p ∉ inorder t2⌝.
Proof.
  induction t1 as [|c l IHl q r IHr]; intros t2 par1 par2; cbn [treeP inorder]; [iIntros "_ _"; iPureIntro; set_solver|].
  iIntros "(_&Hq&_&_&Hl&Hr) Ht". iDestruct (IHl with "Hl Ht") as %Hl. iDestruct (IHr with "Hr Ht") as %Hr.
  iDestruct (treeP_apart with "Ht Hq") as %Hq. iPureIntro. set_solver.
Qed.
Lemma treeP_nodup t : forall par, treeP par t ⊢ ⌜NoDup (inorder t)⌝.
Proof.
  induction t as [|c l IHl q r IHr]; intros par; cbn [treeP inorder]; [iIntros "_"; iPureIntro; apply NoDup_nil_2|].
  iIntros "(_&Hq&_&_&Hl&Hr)". iDestruct (IHl with "Hl") as %Hl. iDestruct (IHr with "Hr") as %Hr.
  iDestruct (treeP_sep with "Hl Hr") as %Hlr. iDestruct (treeP_apart with "Hl Hq") as %Hql. iDestruct (treeP_apart with "Hr Hq") as %Hqr.
  iPureIntro. apply NoDup_app. split_and!; [done| |by apply NoDup_cons].
  intros x Hx [->|Hx']%elem_of_cons; [done|]. by apply (Hlr x).
Qed.

(** The loop [for (n = first; n; n = next(n))]. *)
Fixpoint visit (fuel : nat) (next : Z -> M Z) (n : Z) : M (list Z) :=
  match fuel with
  | O => out_of_fuel
  | S fuel' =>
      if n =? 0 then mret []
      else next_n ← next n; rest ← visit fuel' next next_n; mret (n :: rest)
  end.
Lemma visit_all (next : Z -> M Z) m order :
  0 ∉ order -> (forall xs n ys, order = xs ++ n :: ys -> next n m = Ret (hd0 ys, m)) ->
  forall ys xs fuel, order = xs ++ ys -> (length ys < fuel)%nat -> visit fuel next (hd0 ys) m = Ret (ys, m).
Proof.
  intros H0 Hnext. induction ys as [|n ys IH]; intros xs fuel E Hf; (destruct fuel as [|fuel]; [cbn in Hf; lia|]); cbn [visit hd0 head default from_option]; [done|].
  assert (Hn : n <> 0). { intros ->. apply H0. rewrite E. apply elem_of_app. right. by left. }
  rewrite (proj2 (Z.eqb_neq _ _) Hn). unfold mbind, M_bind. rewrite (Hnext xs n ys E).
  rewrite (IH (xs ++ [n]) fuel); [done|by rewrite -app_assoc|cbn in Hf; lia].
Qed.

Lemma treeP_nonnull t par : treeP par t ⊢ ⌜0 ∉ inorder t⌝.
Proof.
  revert par. induction t as [|c l IHl q r IHr]; intros par; cbn [treeP inorder]; [iIntros "_"; iPureIntro; apply not_elem_of_nil|].
  iIntros "(_&Hq&_&_&Hl&Hr)". iDestruct (IHl with "Hl") as %Hl. iDestruct (IHr with "Hr") as %Hr.
  iDestruct (pointsto_nonnull with "Hq") as %Hq. iPureIntro. set_solver.
Qed.
Lemma holds_pure (P : hProp) φ m : (P ⊢ ⌜φ⌝) -> holds_on P m -> φ.
Proof. intros [H] HP. exact (H m HP). Qed.
Lemma postorder_inorder t : postorder t ≡ₚ inorder t.
Proof. induction t as [|c l IHl p r IHr]; cbn; [done|]. rewrite IHl IHr. apply Permutation_app; [done|]. symmetry. apply Permutation_cons_append. Qed.

Lemma walk_all root t m mf order (first : M Z) (next : Z -> M Z) :
  holds_on (rbP root t) m -> m ##ₘ mf -> order ≡ₚ inorder t ->
  (forall Φ : Z -> hProp, rbP root t ⊢ (rbP root t -∗ Φ (hd0 order)) -∗ wp first Φ) ->
  (forall xs n ys, order = xs ++ n :: ys -> forall Φ : Z -> hProp, rbP root t ⊢ (rbP root t -∗ Φ (hd0 ys)) -∗ wp (next n) Φ) ->
  (n ← first; visit (S (nodes t)) next n) (m ∪ mf) = Ret (order, m ∪ mf).
Proof.
  intros Hm Hd Ho Hfirst Hnext. assert (H0 : 0 ∉ order).
  { rewrite Ho. eapply holds_pure; [|exact Hm]. iIntros "[_ Ht]". by iApply treeP_nonnull. }
  unfold mbind, M_bind. rewrite (exact_run _ _ _ _ _ _ Hfirst Hm Hd).
  apply (visit_all _ _ order H0) with (xs := []); [|done|rewrite Ho nodes_inorder; lia].
  intros xs n ys E. exact (exact_run _ _ _ _ _ _ (Hnext xs n ys E) Hm Hd).
Qed.

(** * Properties *)

(** C7: Linking a new node at any free place of a valid tree, the way the
    callers do (parent and address of the NULL pointer found by their search),
    and then calling rb_insert_color, ends without a bad access in a valid tree
    with the same nodes in the same order and the new node at that place; memory
    outside the tree is untouched. *)
Theorem rb_insert_correct root k n :
  rb_tree (plug k Leaf) ->
  triple (rbP root (plug k Leaf) ∗ fresh n)
    (rb_link_node n (hole_parent 0 k) (link_of root k);; rb_insert_color n root)
    (fun _ => ordered root (befores k ++ n :: afters k)).
Proof.
  intros Hk. apply triple_wp. iIntros "[Ht Hn]". iApply (wp_insert _ _ _ false 0 0 with "Ht Hn"); [done|done|]. by iIntros "$ _".
Qed.

(** C3: rb_erase of any node of a valid tree (with none, one or two children,
    red or black, the root or not) ends in a valid tree that has the other nodes
    in the same order, and gives the words of the node back. *)
Theorem rb_erase_correct root xs n ys :
  triple (ordered root (xs ++ n :: ys)) (rb_erase n root) (fun _ => ordered root (xs ++ ys) ∗ fresh n)%I.
Proof.
  apply triple_wp. iIntros "(%t&[%Hrb %Ho]&Ht)". iApply (wp_rb_erase_gen _ 0 0 with "Ht"); [done|done|done|].
  iIntros (t' [Ho' Hrb']) "H $ _". iExists t'. iFrame. done.
Qed.

(** rb_replace_node puts the new node at the place of the victim and keeps
    the tree valid. *)
Theorem rb_replace_correct root xs victim new ys :
  triple (ordered root (xs ++ victim :: ys) ∗ fresh new) (rb_replace_node victim new root)
    (fun _ => ordered root (xs ++ new :: ys) ∗ fresh victim)%I.
Proof.
  apply triple_wp. iIntros "[(%t&[%Hrb %Ho]&Ht) Hn]". iApply (wp_rb_replace_node with "Ht Hn"); [done|done|].
  iIntros (t' (Ho'&Hrb'&_)) "H $". iExists t'. iFrame. done.
Qed.

(** With a cached root, the cached pointer is the first node of the tree
    after insertion (when the caller passes leftmost = the new node has nothing
    before it), removal and replacement. *)
Theorem rb_cached_correct root k n xs v ys :
  rb_tree (plug k Leaf) ->
  triple (rbP root (plug k Leaf) ∗ (root + 8) ↦ hd0 (inorder (plug k Leaf)) ∗ fresh n)
    (rb_link_node n (hole_parent 0 k) (link_of root k);; rb_insert_color_cached n root (bool_decide (befores k = [])))
    (fun _ => ordered_cached root (befores k ++ n :: afters k))
  /\ triple (ordered_cached root (xs ++ v :: ys)) (rb_erase_cached v root) (fun _ => ordered_cached root (xs ++ ys) ∗ fresh v)%I
  /\ triple (ordered_cached root (xs ++ v :: ys) ∗ fresh n) (rb_replace_node_cached v n root)
       (fun _ => ordered_cached root (xs ++ n :: ys) ∗ fresh v)%I.
Proof.
  intros Hk. split_and!; apply triple_wp; unfold ordered_cached.
  - iIntros "(Ht&Hlm&Hn)". rewrite hd0_insert. unfold rb_insert_color_cached. case_bool_decide.
    + iApply (wp_insert _ _ _ true with "Ht Hn Hlm"); [done|]. by iIntros "$ $".
    + iApply (wp_insert _ _ _ false 0 0 with "Ht Hn"); [done|done|]. iIntros "$ _". iFrame.
  - iIntros "[(%t&[%Hrb %Ho]&Ht) Hlm]". iDestruct (pointsto_nonnull with "Hlm") as %H8.
    iAssert ⌜NoDup (inorder t)⌝%I as %Hnd; [iDestruct "Ht" as "[_ Ht]"; iApply (treeP_nodup with "Ht")|]. rewrite Ho in Hnd.
    unfold rb_erase_cached. iApply (wp_rb_erase_gen _ (root + 8) with "Ht [Hlm]"); [done|done| |].
    { unfold cachedP. rewrite (proj2 (Z.eqb_neq _ _) H8). iFrame. }
    unfold cachedP. rewrite (proj2 (Z.eqb_neq _ _) H8). rewrite next_leftmost_hd; [|done].
    iIntros (t' [Ho' Hrb']) "H $ $". iExists t'. iFrame. done.
  - iIntros "[[(%t&[%Hrb %Ho]&Ht) Hlm] Hn]".
    iAssert ⌜NoDup (inorder t)⌝%I as %Hnd; [iDestruct "Ht" as "[_ Ht]"; iApply (treeP_nodup with "Ht")|]. rewrite Ho in Hnd.
    unfold rb_replace_node_cached. iApply wp_bind. iApply (wp_rb_replace_node with "Ht Hn"); [done|done|].
    iIntros (t' (Ho'&Hrb'&_)) "H Hv". iAssert (ordered root (xs ++ n :: ys)) with "[H]" as "H"; [iExists t'; iFrame; done|].
    wp_load "Hlm". destruct xs as [|x xs]; cbn.
    + rewrite Z.eqb_refl. wp_store "Hlm". iFrame.
    + rewrite (proj2 (Z.eqb_neq x v)); [wp_done; iFrame|]. intros ->. apply NoDup_cons in Hnd as [Hx _]. apply Hx, elem_of_app. right. by left.
Qed.

(** C34: The iteration loops over a tree visit exactly its nodes, each once, and
    change nothing: rb_first/rb_next in order, rb_last/rb_prev in reverse order,
    rb_first_postorder/rb_next_postorder children before parents. *)
Theorem rb_walks_correct root t m mf :
  holds_on (rbP root t) m -> m ##ₘ mf ->
  (n ← rb_first root; visit (S (nodes t)) rb_next n) (m ∪ mf) = Ret (inorder t, m ∪ mf)
  /\ (n ← rb_last root; visit (S (nodes t)) rb_prev n) (m ∪ mf) = Ret (reverse (inorder t), m ∪ mf)
  /\ (n ← rb_first_postorder root; visit (S (nodes t)) rb_next_postorder n) (m ∪ mf) = Ret (postorder t, m ∪ mf).
Proof.
  intros Hm Hd. split_and!; apply (walk_all root t); try done.
  - apply (wp_rb_end Lft).
  - intros xs n ys E Φ. by eapply wp_rb_next.
  - apply reverse_Permutation.
  - apply (wp_rb_end Rgt).
  - intros xs n ys E Φ. rewrite -(reverse_involutive ys). eapply wp_rb_prev.
    by rewrite -(reverse_involutive (inorder t)) E reverse_app reverse_cons -app_assoc.
  - apply postorder_inorder.
  - apply wp_rb_first_postorder.
  - intros xs n ys E Φ. by eapply wp_rb_next_postorder.
Qed.

(** C35: Every loop is logarithmic in the number of nodes: going down to either
    end, the rebalancing after an insertion and the rebalancing after a removal
    finish within 2 * log2 (nodes + 1) + 1 turns, counting the new or the removed
    node. *)
Theorem rb_loops_logarithmic root k d n :
  let turns := S (2 * Nat.log2 (S (S (nodes (plug k Leaf))))) in
  (rb_tree (plug k Leaf) -> plug k Leaf <> Leaf ->
     triple (treeP 0 (plug k Leaf)) (descend turns d (ptr (plug k Leaf)))
       (fun v => <affine> ⌜v = hd0 (order_from d (plug k Leaf))⌝ ∗ treeP 0 (plug k Leaf))%I)
  /\ (rb_tree (plug k Leaf) ->
      triple (ctxP root k n ∗ treeP (hole_parent 0 k) (Node Red Leaf n Leaf)) (insert_loop turns n (hole_parent 0 k) root)
        (fun _ => ordered root (befores k ++ n :: afters k)))
  /\ (k <> [] -> rb_tree (plug k (Node Black Leaf n Leaf)) ->
      triple (ctxP root k 0) (erase_color_loop turns root 0 (hole_parent 0 k)) (fun _ => ordered root (befores k ++ afters k))).
Proof.
  cbv zeta.
  assert (Hmono : (Nat.log2 (S (nodes (plug k Leaf))) <= Nat.log2 (S (S (nodes (plug k Leaf)))))%nat) by (apply Nat.log2_le_mono; lia).
  split_and!.
  - intros Hk Hne. pose proof (rb_height_log _ Hk). apply triple_wp. iIntros "Ht".
    iApply (wp_descend with "Ht"); [done|lia|]. iIntros "$". done.
  - intros Hk. pose proof (rb_height_log _ Hk). pose proof (length_height k Leaf). apply triple_wp. iIntros "[Hk Hn]".
    iApply (wp_insert_loop _ _ _ Leaf n Leaf 0 with "Hk Hn"); [lia|constructor|constructor|by apply accepts_leaf|].
    iIntros (t' [Ho Ht']) "H". iExists t'. iFrame. iPureIntro. split; [done|]. by rewrite Ho inorder_plug.
  - intros Hk0 Hk. pose proof (rb_height_log _ Hk) as Hh. pose proof (length_height k (Node Black Leaf n Leaf)) as Hl.
    assert (nodes (plug k (Node Black Leaf n Leaf)) = S (nodes (plug k Leaf))) as En.
    { rewrite !nodes_inorder !inorder_plug !length_app. cbn. lia. }
    rewrite En in Hh. apply plug_accepts in Hk as (c&m&Ht&Hk). inversion Ht as [| |? ? ? cl cr m' Hl0 Hr0]; subst. inversion Hl0; subst.
    apply triple_wp. iIntros "Hk".
    iApply (wp_erase_color_loop _ root k Hk0 _ Leaf 0%nat with "Hk []"); [constructor|done|done|].
    iIntros (t' [Ho Ht']) "H". iExists t'. iFrame. iPureIntro. split; [done|]. by rewrite Ho inorder_plug.
    Unshelve. cbn [height] in Hl. lia.
Qed.

(** * Witnesses *)

(** A tree of three nodes, with a free place under the last one. *)
Definition three : tree := Node Black (Node Red Leaf 256 Leaf) 128 (Node Red Leaf 512 Leaf).
Definition below_last : list frame := [F Rgt Red 512 Leaf; F Rgt Black 128 (Node Red Leaf 256 Leaf)].
Definition three_words : list (Z * Z) :=
  [(64, 128); (128, 1); (144, 256); (136, 512); (256, 128); (272, 0); (264, 0); (512, 128); (528, 0); (520, 0)].
Definition node_words (n : Z) : list (Z * Z) := [(n, 0); (n + 16, 0); (n + 8, 0)].

Lemma three_valid : rb_tree three.
Proof. exists 1%nat. repeat econstructor. Qed.
Lemma three_in_memory : words three_words ⊢ rbP 64 three.
Proof. unfold words, three_words, rbP, three. cbn. iIntros "($&$&$&$&$&$&$&$&$&$&_)". iPureIntro. split_and!; done. Qed.
Lemma node_in_memory n : bool_decide (0 <= n < two64 /\ n mod 4 = 0) = true -> words (node_words n) ⊢ fresh n.
Proof.
  intros Hn%bool_decide_eq_true. unfold words, node_words, fresh, aligned. cbn. iIntros "(H1&H2&H3&_)". iFrame. done.
Qed.
Lemma entails_holds (P Q : hProp) m : (P ⊢ Q) -> holds_on P m -> holds_on Q m.
Proof. intros [H]. apply H. Qed.
Lemma words_app ws1 ws2 : words (ws1 ++ ws2) ⊣⊢ words ws1 ∗ words ws2.
Proof. apply big_sepL_app. Qed.

Definition three_mem : mem := list_to_map three_words.
Definition four_mem : mem := list_to_map (three_words ++ node_words 1024).
Definition cached_mem : mem := list_to_map (three_words ++ [(72, 256)]).
Lemma three_holds : holds_on (rbP 64 three) three_mem.
Proof. eapply entails_holds; [apply three_in_memory|]. by apply words_hold. Qed.
Lemma three_ordered : holds_on (ordered 64 ([256] ++ 128 :: [512])) three_mem.
Proof. eapply entails_holds; [|apply three_holds]. iIntros "H". iExists three. iFrame. iPureIntro. split; [apply three_valid|done]. Qed.
Lemma four_holds : holds_on (rbP 64 three ∗ fresh 1024) four_mem.
Proof.
  eapply entails_holds; [|by apply words_hold]. rewrite words_app three_in_memory (node_in_memory 1024); [|done]. done.
Qed.
Lemma four_ordered : holds_on (ordered 64 ([256] ++ 128 :: [512]) ∗ fresh 1024) four_mem.
Proof.
  eapply entails_holds; [|apply four_holds]. iIntros "[H $]". iExists three. iFrame. iPureIntro. split; [apply three_valid|done].
Qed.
Lemma cached_ordered : holds_on (ordered_cached 64 ([] ++ 256 :: [128; 512])) cached_mem.
Proof.
  eapply entails_holds; [|by apply words_hold]. rewrite words_app three_in_memory. iIntros "[H (H8&_)]". iFrame "H8".
  iExists three. iFrame. iPureIntro. split; [apply three_valid|done].
Qed.

Lemma rb_insert_correct_witness :
  exists a m', (rb_link_node 1024 512 520;; rb_insert_color 1024 64) (four_mem ∪ ∅) = Ret (a, m' ∪ ∅)
    /\ m' ##ₘ ∅ /\ holds_on (ordered 64 [256; 128; 512; 1024]) m'.
Proof. exact (rb_insert_correct 64 below_last 1024 three_valid four_mem ∅ four_holds (map_disjoint_empty_r _)). Defined.

Lemma rb_erase_correct_witness :
  exists a m', rb_erase 128 64 (three_mem ∪ ∅) = Ret (a, m' ∪ ∅)
    /\ m' ##ₘ ∅ /\ holds_on (ordered 64 [256; 512] ∗ fresh 128) m'.
Proof. exact (rb_erase_correct 64 [256] 128 [512] three_mem ∅ three_ordered (map_disjoint_empty_r _)). Defined.

Lemma rb_replace_correct_witness :
  exists a m', rb_replace_node 128 1024 64 (four_mem ∪ ∅) = Ret (a, m' ∪ ∅)
    /\ m' ##ₘ ∅ /\ holds_on (ordered 64 [256; 1024; 512] ∗ fresh 128) m'.
Proof. exact (rb_replace_correct 64 [256] 128 1024 [512] four_mem ∅ four_ordered (map_disjoint_empty_r _)). Defined.

Lemma rb_cached_correct_witness :
  exists a m', rb_erase_cached 256 64 (cached_mem ∪ ∅) = Ret (a, m' ∪ ∅)
    /\ m' ##ₘ ∅ /\ holds_on (ordered_cached 64 [128; 512] ∗ fresh 256) m'.
Proof.
  exact (proj1 (proj2 (rb_cached_correct 64 below_last 1024 [] 256 [128; 512] three_valid)) cached_mem ∅ cached_ordered (map_disjoint_empty_r _)).
Defined.

Lemma rb_walks_correct_witness :
  (n ← rb_first 64; visit 4 rb_next n) (three_mem ∪ ∅) = Ret ([256; 128; 512], three_mem ∪ ∅).
Proof. exact (proj1 (rb_walks_correct 64 three three_mem ∅ three_holds (map_disjoint_empty_r _))). Defined.

Lemma rb_loops_logarithmic_witness :
  triple (treeP 0 three) (descend 5 Lft 128) (fun v => <affine> ⌜v = 256⌝ ∗ treeP 0 three)%I.
Proof. exact (proj1 (rb_loops_logarithmic 64 below_last Lft 1024) three_valid ltac:(done)). Defined.
