(* ===== verification/TimerQueue.v ===== *)
(** Timer queues: lib/timerqueue.c and include/linux/timerqueue.h, on top of the
    red-black trees.

    A [struct timerqueue_node] is an rb_node followed by the word [expires]; a
    [struct timerqueue_head] is the root word followed by the word [next]. *)

From S2P Require Import Prelude Mem RbTree.

Definition expires_at (node : Z) : Z := node + 24.
Definition next_at (head : Z) : Z := head + 8.

Definition RB_CLEAR_NODE (node : Z) : M unit := assign node node.
Definition RB_EMPTY_NODE (node : Z) : M bool := pc ← fetch node; mret (pc =? node).

Definition timerqueue_init (node : Z) : M unit := RB_CLEAR_NODE node.
Definition timerqueue_init_head (head : Z) : M unit :=
  assign head 0;; assign (next_at head) 0.
Definition timerqueue_getnext (head : Z) : M Z := fetch (next_at head).

(** The search for the place for a node, after the timers that expire no later. *)
Fixpoint add_loop (fuel : nat) (node parent p : Z) : M (Z * Z) :=
  match fuel with
  | O => out_of_fuel
  | S fuel' =>
      c ← fetch p;
      if c =? 0 then mret (parent, p)
      else
        e ← fetch (expires_at node);
        e' ← fetch (expires_at c);
        if s64 e <? s64 e' then add_loop fuel' node c (slot Lft c) else add_loop fuel' node c (slot Rgt c)
  end.
Definition find_place (head node : Z) : M (Z * Z) :=
  fuel ← mem_words;
  add_loop fuel node 0 head.
(** The warnings of the two operations only read. *)
Definition timerqueue_add (head node : Z) : M bool :=
  _ ← RB_EMPTY_NODE node;
  '(parent, p) ← find_place head node;
  rb_link_node node parent p;;
  rb_insert_color node head;;
  next ← fetch (next_at head);
  first ←
    (if next =? 0 then mret true
     else e ← fetch (expires_at node); e' ← fetch (expires_at next); mret (s64 e <? s64 e'));
  if (first : bool) then assign (next_at head) node;; mret true else mret false.

Definition timerqueue_del (head node : Z) : M bool :=
  _ ← RB_EMPTY_NODE node;
  next ← fetch (next_at head);
  when (next =? node) (rbn ← rb_next node; assign (next_at head) rbn);;
  rb_erase node head;;
  RB_CLEAR_NODE node;;
  next ← fetch (next_at head);
  mret (negb (next =? 0)).

Definition timerqueue_iterate_next (node : Z) : M Z :=
  if node =? 0 then mret 0 else rb_next node.
