(* ===== verification/TimerQueueSpec.v ===== *)
(** Timer queues implement a stable priority queue: the timers in the order of
    their expiry, those with the same expiry in the order in which they came. *)

From stdpp Require Import sorting.
From iris.proofmode Require Import proofmode.
From S2P Require Import Prelude Mem HeapLogic RbTree RbTreeFacts RbTreeLogic RbTreeWalk RbTreeErase RbTreeSpec TimerQueue.

(** * The abstract queue *)

(** A timer is its address with its expiry. *)
Definition timer : Type := Z * Z.
Definition key (x : timer) : Z := s64 x.2.
Definition sorted (l : list timer) : Prop := StronglySorted (fun x y => key x <= key y) l.
Fixpoint tq_insert (x : timer) (l : list timer) : list timer :=
  match l with [] => [x] | y :: l' => if key x <? key y then x :: l else y :: tq_insert x l' end.

Lemma tq_insert_at x lb la :
  Forall (fun y => key y <= key x) lb -> Forall (fun y => key x < key y) la -> tq_insert x (lb ++ la) = lb ++ x :: la.
Proof.
  intros Hb Ha. induction Hb as [|y lb Hy _ IH]; cbn.
  - destruct Ha as [|y la Hy _]; [done|]. cbn. by rewrite (proj2 (Z.ltb_lt _ _) Hy).
  - rewrite (proj2 (Z.ltb_ge _ _) Hy). by rewrite IH.
Qed.
Lemma sorted_app l1 l2 : sorted (l1 ++ l2) <-> sorted l1 /\ sorted l2 /\ forall x y, x ∈ l1 -> y ∈ l2 -> key x <= key y.
Proof. unfold sorted. rewrite StronglySorted_app. naive_solver. Qed.
Lemma sorted_around x lb la :
  sorted (lb ++ la) -> Forall (fun y => key y <= key x) lb -> Forall (fun y => key x < key y) la -> sorted (lb ++ x :: la).
Proof.
  rewrite !sorted_app. intros (Hb&Ha&Hba) Hlb Hla. rewrite Forall_forall in Hlb. split_and!; [done| |].
  - apply SSorted_cons; [done|]. eapply Forall_impl; [exact Hla|]. cbn. lia.
  - intros y z Hy [->|Hz]%elem_of_cons; [by apply Hlb|by apply Hba].
Qed.

(** * The queue in memory *)

Definition expiries (l : list timer) : hProp := ([∗ list] x ∈ l, expires_at x.1 ↦ x.2)%I.
Lemma expiries_mid l1 p e l2 : expiries (l1 ++ (p, e) :: l2) ⊣⊢ expiries l1 ∗ expires_at p ↦ e ∗ expiries l2.
Proof. unfold expiries. by rewrite big_sepL_app. Qed.
Definition queue (head : Z) (l : list timer) : hProp :=
  (<affine> ⌜sorted l⌝ ∗ ordered head l.*1 ∗ next_at head ↦ hd0 l.*1 ∗ expiries l)%I.
(** A timer that is not queued. *)
Definition idle (n e : Z) : hProp := (fresh n ∗ expires_at n ↦ e)%I.

(** * The search *)

(** Where the search ends: a free place with the timers that expire no later
    before it and the others after it. *)
Definition place (k : list frame) (e : Z) (lb la : list timer) : Prop :=
  lb.*1 = befores k /\ la.*1 = afters k /\ Forall (fun y => key y <= s64 e) lb /\ Forall (fun y => s64 e < key y) la.

(** A step to the left, to the right. *)
Lemma place_left k e lb la c p r e' l2 :
  place k e lb la -> l2.*1 = inorder r -> s64 e < s64 e' -> sorted ((p, e') :: l2) ->
  place (F Lft c p r :: k) e lb (((p, e') :: l2) ++ la).
Proof.
  intros (Hb&Ha&HFb&HFa) Hr He Hs. unfold place. cbn [befores afters fd fs fp]. rewrite app_nil_r fmap_app Ha. cbn. split_and!; [done|by rewrite Hr|done|].
  constructor; [done|]. apply Forall_app. split; [|done]. apply StronglySorted_inv in Hs as [_ Hs]. eapply Forall_impl; [exact Hs|]. unfold key. cbn. lia.
Qed.
Lemma place_right k e lb la c p l e' l1 :
  place k e lb la -> l1.*1 = inorder l -> s64 e' <= s64 e -> sorted (l1 ++ [(p, e')]) ->
  place (F Rgt c p l :: k) e (lb ++ l1 ++ [(p, e')]) la.
Proof.
  intros (Hb&Ha&HFb&HFa) Hl He Hs. unfold place. cbn [befores afters fd fs fp]. rewrite !fmap_app Hb Hl. cbn. split_and!; [done|done| |done].
  rewrite !Forall_app. split_and!; [done| |by repeat constructor]. apply sorted_app in Hs as (_&_&Hs). apply Forall_forall. intros x Hx.
  specialize (Hs x (p, e') Hx ltac:(by left)). unfold key in *. cbn in *. lia.
Qed.

Lemma fmap_app_mid (lm : list timer) a p b :
  lm.*1 = a ++ p :: b -> exists l1 e l2, lm = l1 ++ (p, e) :: l2 /\ l1.*1 = a /\ l2.*1 = b.
Proof.
  intros (l1&l2&Ha&Hb&->)%fmap_app_inv. destruct l2 as [|[q e] l2]; [done|]. cbn in Hb. injection Hb as Hq Hb. subst. by exists l1, e, l2.
Qed.

Lemma wp_add_loop head n e : forall sub k lb lm la fuel (Φ : Z * Z -> hProp),
  (height sub < fuel)%nat -> place k e lb la -> lm.*1 = inorder sub -> sorted lm ->
  ctxP head k (ptr sub) ⊢ treeP (hole_parent 0 k) sub -∗ expires_at n ↦ e -∗ expiries lm -∗
  (∀ k' lb' la', <affine> ⌜plug k' Leaf = plug k sub /\ lb' ++ la' = lb ++ lm ++ la /\ place k' e lb' la'⌝ -∗
     rbP head (plug k' Leaf) -∗ expires_at n ↦ e -∗ expiries lm -∗ Φ (hole_parent 0 k', link_of head k')) -∗
  wp (add_loop fuel n (hole_parent 0 k) (link_of head k)) Φ.
Proof.
  induction sub as [|c l IHl p r IHr]; intros k lb lm la fuel Φ Hf Hp Hlm Hs; (destruct fuel as [|fuel]; [lia|]); cbn [height] in Hf.
  - iIntros "Hk _ He Hes HΦ". cbn [add_loop ptr]. iDestruct (ctxP_link with "Hk") as "[Hh Hback]". wp_load "Hh".
    iSpecialize ("Hback" with "Hh"). wp_done. destruct lm; [|done]. iApply ("HΦ" $! k lb la with "[] [Hback] He Hes"); [done|].
    rewrite rbP_plug. by iFrame.
  - iIntros "Hk Ht He Hes HΦ". cbn [add_loop ptr]. iDestruct (ctxP_link with "Hk") as "[Hh Hback]". wp_load "Hh".
    iSpecialize ("Hback" with "Hh"). iDestruct (treeP_node_ptr with "Ht") as %Hp0. rewrite (proj2 (Z.eqb_neq _ _) Hp0). wp_load "He".
    cbn [inorder] in Hlm. apply fmap_app_mid in Hlm as (l1&e'&l2&->&Hl1&Hl2).
    iDestruct (expiries_mid with "Hes") as "(Hes1&He'&Hes2)". wp_load "He'". cbn [treeP]. iDestruct "Ht" as "(%Hap&Hp&Hl&Hr&Htl&Htr)".
    pose proof Hs as (Hs1&Hs2&Hs12)%sorted_app. destruct (Z.ltb_spec (s64 e) (s64 e')) as [He|He].
    + pose proof (place_left k e lb la c p r e' l2 Hp Hl2 He Hs2) as Hp'.
      iAssert (ctxP head (F Lft c p r :: k) (ptr l)) with "[Hp Hl Hr Htr Hback]" as "Hk"; [rewrite ctxP_one; iFrame; done|].
      iApply (IHl (F Lft c p r :: k) lb l1 (((p, e') :: l2) ++ la) with "Hk Htl He Hes1"); [lia|done|done|done|].
      iIntros (k' lb' la' (Ek&El&Hp'')) "H He Hes1". iApply ("HΦ" with "[] H He [Hes1 He' Hes2]"); [|iApply expiries_mid; iFrame].
      iPureIntro. split_and!; [done| |done]. by rewrite El -!app_assoc.
    + assert (Hs1p : sorted (l1 ++ [(p, e')])).
      { apply sorted_app. split_and!; [done|by repeat constructor|]. intros x y Hx [->|[]%elem_of_nil]%elem_of_cons. apply Hs12; [done|by left]. }
      pose proof (place_right k e lb la c p l e' l1 Hp Hl1 He Hs1p) as Hp'.
      iAssert (ctxP head (F Rgt c p l :: k) (ptr r)) with "[Hp Hl Hr Htl Hback]" as "Hk"; [rewrite ctxP_one; iFrame; done|].
      iApply (IHr (F Rgt c p l :: k) (lb ++ l1 ++ [(p, e')]) l2 la with "Hk Htr He Hes2"); [lia|done|done|by apply StronglySorted_inv in Hs2 as [? _]|].
      iIntros (k' lb' la' (Ek&El&Hp'')) "H He Hes2". iApply ("HΦ" with "[] H He [Hes1 He' Hes2]"); [|iApply expiries_mid; iFrame].
      iPureIntro. split_and!; [done| |done]. by rewrite El -!app_assoc.
Qed.

(** * The operations *)

Lemma wp_rb_empty_node n (Φ : bool -> hProp) :
  fresh n ⊢ (∀ b, fresh n -∗ Φ b) -∗ wp (RB_EMPTY_NODE n) Φ.
Proof.
  iIntros "(%Ha&%v&%l&%r&Hn&Hl&Hr) HΦ". unfold RB_EMPTY_NODE. wp_load "Hn". wp_done. iApply "HΦ".
  iApply (fresh_intro with "Hn Hl Hr"). done.
Qed.

Lemma wp_find_place head l n e (Φ : Z * Z -> hProp) :
  sorted l ->
  ordered head l.*1 ⊢ expires_at n ↦ e -∗ expiries l -∗
  (∀ k lb la, <affine> ⌜rb_tree (plug k Leaf) /\ l = lb ++ la /\ place k e lb la⌝ -∗
     rbP head (plug k Leaf) -∗ expires_at n ↦ e -∗ expiries l -∗ Φ (hole_parent 0 k, link_of head k)) -∗
  wp (find_place head n) Φ.
Proof.
  intros Hs. iIntros "(%t&[%Hrb %Ho]&Ht) He Hes HΦ". iDestruct "Ht" as "[Hr Ht]". iApply wp_bind. iStopProof.
  apply (wp_mem_words (nodes t)).
  { iIntros "(_&Ht&_)". iApply (treeP_words with "Ht"). }
  intros fuel Hf. iIntros "(Hr&Ht&He&Hes&HΦ)".
  iApply (wp_add_loop head n e t [] [] l [] with "[Hr] Ht He Hes"); [pose proof (height_nodes t); lia|done|done|done| |].
  { unfold ctxP. cbn. by iFrame. }
  iIntros (k lb la (Ek&El&Hp)) "H He Hes". iApply ("HΦ" with "[] H He Hes"). iPureIntro. rewrite Ek. cbn in El. rewrite app_nil_r in El. done.
Qed.

(** Whether a timer is the first one, as its expiry tells. *)
Lemma first_expires e lb la :
  Forall (fun y => key y <= s64 e) lb -> Forall (fun y => s64 e < key y) la ->
  match lb ++ la with [] => true | y :: _ => s64 e <? key y end = match lb with [] => true | _ => false end.
Proof.
  intros Hb Ha. destruct Hb as [|y lb Hy _]; cbn; [|by apply Z.ltb_ge].
  destruct Ha as [|y la Hy _]; [done|]. cbn. by apply Z.ltb_lt.
Qed.

Lemma ordered_nodup root xs : ordered root xs ⊢ ⌜NoDup xs /\ 0 ∉ xs⌝.
Proof.
  iIntros "(%t&[%Hrb <-]&[_ Ht])". iDestruct (treeP_nodup with "Ht") as %?. by iDestruct (treeP_nonnull with "Ht") as %?.
Qed.

Lemma wp_first_check n e l (Φ : bool -> hProp) :
  0 ∉ l.*1 ->
  expires_at n ↦ e ⊢ expiries l -∗
  (expires_at n ↦ e -∗ expiries l -∗ Φ (match l with [] => true | y :: _ => s64 e <? key y end)) -∗
  wp (if hd0 l.*1 =? 0 then mret true
      else e ← fetch (expires_at n); e' ← fetch (expires_at (hd0 l.*1)); mret (s64 e <? s64 e')) Φ.
Proof.
  iIntros (H0) "He Hes HΦ". destruct l as [|[y ey] l]; cbn; [wp_done; by iApply ("HΦ" with "He Hes")|].
  rewrite (proj2 (Z.eqb_neq y 0)); [|set_solver]. wp_load "He". iDestruct "Hes" as "[Hy Hes]". cbn. wp_load "Hy". wp_done.
  iApply ("HΦ" with "He"). iFrame.
Qed.

Lemma wp_timerqueue_add q l n e (Φ : bool -> hProp) :
  queue q l ⊢ idle n e -∗
  (queue q (tq_insert (n, e) l) -∗ Φ (bool_decide (hd0 (tq_insert (n, e) l).*1 = n))) -∗ wp (timerqueue_add q n) Φ.
Proof.
  iIntros "(%Hs&Ht&Hnext&Hes) [Hn He] HΦ". iDestruct (ordered_nodup with "Ht") as %[_ H0]. unfold timerqueue_add.
  iApply wp_bind. iApply (wp_rb_empty_node with "Hn"). iIntros (b) "Hn".
  iApply wp_bind. iApply (wp_find_place with "Ht He Hes"); [done|]. iIntros (k lb la (Hrb&El&(Hb&Ha&HFb&HFa))) "Ht He Hes".
  iApply (wp_assoc (rb_link_node _ _ _)). iApply wp_bind. iApply (wp_insert _ _ _ false 0 0 with "Ht Hn"); [done|done|]. iIntros "Ht _".
  wp_load "Hnext". pose proof (first_expires e lb la HFb HFa) as Hfirst. rewrite -El in Hfirst.
  assert (Eins : tq_insert (n, e) l = lb ++ (n, e) :: la) by (rewrite El; by apply tq_insert_at).
  assert (Hs' : sorted (lb ++ (n, e) :: la)) by (apply sorted_around; [by rewrite -El|done..]).
  assert (Ho : befores k ++ n :: afters k = (lb ++ (n, e) :: la).*1) by (by rewrite fmap_app -Hb -Ha). rewrite Eins Ho.
  iDestruct (ordered_nodup with "Ht") as %[Hnd _].
  iApply wp_bind. iApply (wp_first_check with "He Hes"); [done|]. iIntros "He Hes". rewrite Hfirst El.
  iAssert (expiries (lb ++ (n, e) :: la)) with "[He Hes]" as "Hes".
  { rewrite expiries_mid. unfold expiries. rewrite big_sepL_app. iDestruct "Hes" as "[$ $]". done. }
  destruct lb as [|[y ey] lb]; cbn [app].
  - wp_store "Hnext". wp_done. rewrite bool_decide_eq_true_2; [|done]. iApply "HΦ". iFrame. done.
  - wp_done. rewrite bool_decide_eq_false_2. { iApply "HΦ". iFrame. done. }
    cbn. intros ->. rewrite fmap_app in Hnd. cbn in Hnd. apply NoDup_cons in Hnd as [Hnd _]. set_solver.
Qed.

(** A timer after its removal: RB_EMPTY_NODE holds of it. *)
Definition cleared (n e : Z) : hProp :=
  (<affine> ⌜aligned n⌝ ∗ n ↦ n ∗ (∃ l r, slot Lft n ↦ l ∗ slot Rgt n ↦ r) ∗ expires_at n ↦ e)%I.

Lemma wp_rb_empty_node_in q xs n ys (Φ : bool -> hProp) :
  ordered q (xs ++ n :: ys) ⊢ (∀ b, ordered q (xs ++ n :: ys) -∗ Φ b) -∗ wp (RB_EMPTY_NODE n) Φ.
Proof.
  iIntros "(%t&[%Hrb %Ho]&Ht) HΦ". destruct (split_at _ _ _ _ Ho) as (k&c&l&r&->&_&_). rewrite rbP_plug. cbn [treeP].
  iDestruct "Ht" as "[Hk (%Ha&Hn&Ht)]". unfold RB_EMPTY_NODE. wp_load "Hn". wp_done. iApply "HΦ".
  iExists (plug k (Node c l n r)). iSplitR; [done|]. rewrite rbP_plug. cbn. iFrame. done.
Qed.

Lemma hd0_null xs : 0 ∉ xs -> negb (hd0 xs =? 0) = bool_decide (xs <> []).
Proof.
  destruct xs as [|x xs]; intros H0; [done|]. cbn. rewrite (proj2 (Z.eqb_neq x 0)); [done|set_solver].
Qed.
Lemma fmap_nil_iff {A B} (f : A -> B) l : f <$> l <> [] <-> l <> [].
Proof. by destruct l. Qed.

Lemma wp_timerqueue_del q l1 n e l2 (Φ : bool -> hProp) :
  queue q (l1 ++ (n, e) :: l2) ⊢
  (queue q (l1 ++ l2) -∗ cleared n e -∗ Φ (bool_decide (l1 ++ l2 <> []))) -∗ wp (timerqueue_del q n) Φ.
Proof.
  iIntros "(%Hs&Ht&Hnext&Hes) HΦ". iDestruct (ordered_nodup with "Ht") as %[Hnd H0]. unfold timerqueue_del.
  rewrite fmap_app in Hnd, H0 |- *. cbn [fmap list_fmap fst] in *.
  iApply wp_bind. iApply (wp_rb_empty_node_in with "Ht"). iIntros (b) "(%t&[%Hrb %Ho]&Ht)". wp_load "Hnext".
  iAssert (∀ Ψ : unit -> hProp, (rbP q t -∗ next_at q ↦ hd0 (l1.*1 ++ l2.*1) -∗ Ψ tt) -∗
    wp (when (hd0 (l1.*1 ++ n :: l2.*1) =? n) (rbn ← rb_next n; assign (next_at q) rbn)) Ψ)%I with "[Hnext Ht]" as "Hwhen".
  { iIntros (Ψ) "HΨ". pose proof (next_leftmost_hd _ _ _ Hnd) as Hn. unfold next_leftmost in Hn. rewrite Z.eqb_sym in Hn.
    destruct (hd0 _ =? n); rewrite -Hn; cbn [when].
    - iApply wp_bind. iApply (wp_rb_next with "Ht"); [done|]. iIntros "Ht". wp_store "Hnext". iApply ("HΨ" with "Ht Hnext").
    - wp_done. iApply ("HΨ" with "Ht Hnext"). }
  iApply wp_bind. iApply "Hwhen". iIntros "Ht Hnext". unfold rb_erase.
  iApply wp_bind. iApply (wp_rb_erase_gen q 0 0 with "Ht"); [done|done|done|]. iIntros (t' [Ho' Hrb']) "Ht (%Ha&%v&%l&%r&Hn&Hl&Hr) _".
  unfold RB_CLEAR_NODE. wp_store "Hn". wp_load "Hnext". wp_done. rewrite hd0_null; [|set_solver].
  assert (El : l1.*1 ++ l2.*1 = (l1 ++ l2).*1) by (by rewrite fmap_app). rewrite El in Ho' |- *.
  rewrite (bool_decide_ext _ _ (fmap_nil_iff fst (l1 ++ l2))).
  iDestruct (expiries_mid with "Hes") as "(Hes1&He&Hes2)". iApply ("HΦ" with "[Ht Hnext Hes1 Hes2]").
  - unfold queue, expiries. rewrite big_sepL_app. iFrame. iPureIntro. split_and!; [|done|done].
    apply sorted_app in Hs as (Hs1&Hs2&Hs12). apply sorted_app. split_and!; [done|by apply StronglySorted_inv in Hs2 as [? _]|].
    intros x y Hx Hy. apply Hs12; [done|by right].
  - iFrame. done.
Qed.

Lemma queue_first q l x : x ∈ l -> queue q l ⊢ ⌜exists e, (hd0 l.*1, e) ∈ l /\ s64 e <= key x⌝.
Proof.
  iIntros (Hx) "(%Hs&_)". iPureIntro. destruct l as [|[y ey] l]; [by apply elem_of_nil in Hx|]. exists ey. split; [by left|].
  apply elem_of_cons in Hx as [->|Hx]; [done|]. apply StronglySorted_inv in Hs as [_ Hs]. rewrite Forall_forall in Hs. by apply (Hs x).
Qed.
Lemma wp_iterate_next q l1 n e l2 (Φ : Z -> hProp) :
  queue q (l1 ++ (n, e) :: l2) ⊢ (queue q (l1 ++ (n, e) :: l2) -∗ Φ (hd0 l2.*1)) -∗ wp (timerqueue_iterate_next n) Φ.
Proof.
  iIntros "(%Hs&Ht&Hnext&Hes) HΦ". iDestruct (ordered_nodup with "Ht") as %[_ H0]. unfold timerqueue_iterate_next.
  rewrite (proj2 (Z.eqb_neq n 0)). 2: { intros ->. apply H0. rewrite fmap_app. apply elem_of_app. right. by left. }
  iDestruct "Ht" as "(%t&[%Hrb %Ho]&Ht)". iApply (wp_rb_next q t l1.*1 n l2.*1 with "Ht"); [by rewrite Ho fmap_app|].
  iIntros "Ht". iApply "HΦ". iFrame. done.
Qed.

(** * Properties *)

(** C14: A timer queue implements a stable priority queue of timers, on top of
    the red-black tree: timerqueue_add puts a timer behind those that expire no
    later and tells whether it is the first one; timerqueue_del takes out the
    timer it is given, clears its node and tells whether the queue is non-empty;
    timerqueue_getnext is the timer that expires first, or NULL; and
    timerqueue_iterate_next follows the order.  All of them terminate without a
    bad access and leave the rest of the memory alone. *)
Theorem timerqueue_refines_priority_queue q l n e l1 l2 :
  triple (∃ a b, q ↦ a ∗ next_at q ↦ b) (timerqueue_init_head q) (fun _ => queue q [])
  /\ triple (queue q l ∗ idle n e) (timerqueue_add q n)
       (fun b => <affine> ⌜b = bool_decide (hd0 (tq_insert (n, e) l).*1 = n)⌝ ∗ queue q (tq_insert (n, e) l))%I
  /\ triple (queue q (l1 ++ (n, e) :: l2)) (timerqueue_del q n)
       (fun b => <affine> ⌜b = bool_decide (l1 ++ l2 <> [])⌝ ∗ queue q (l1 ++ l2) ∗ cleared n e)%I
  /\ triple (queue q l) (timerqueue_getnext q)
       (fun v => <affine> ⌜v = hd0 l.*1 /\ forall x, x ∈ l -> exists e, (v, e) ∈ l /\ s64 e <= key x⌝ ∗ queue q l)%I
  /\ triple (queue q (l1 ++ (n, e) :: l2)) (timerqueue_iterate_next n)
       (fun v => <affine> ⌜v = hd0 l2.*1⌝ ∗ queue q (l1 ++ (n, e) :: l2))%I.
Proof.
  split_and!; apply triple_wp.
  - iIntros "(%a&%b&Ha&Hb)". unfold timerqueue_init_head. wp_store "Ha". wp_store "Hb". unfold queue. iFrame "Hb".
    iSplitR; [iPureIntro; apply SSorted_nil|]. iSplitL; [|by rewrite /expiries big_sepL_nil]. iExists Leaf. iSplitR; [|unfold rbP; cbn; by iFrame].
    iPureIntro. split; [by exists 0%nat; constructor|done].
  - iIntros "[Hq Hn]". iApply (wp_timerqueue_add with "Hq Hn"). iIntros "$". done.
  - iIntros "Hq". iApply (wp_timerqueue_del with "Hq"). iIntros "$ $". done.
  - iIntros "Hq". iAssert ⌜forall x, x ∈ l -> exists e, (hd0 l.*1, e) ∈ l /\ s64 e <= key x⌝%I as %Hfirst.
    { iIntros (x Hx). by iApply queue_first. }
    iDestruct "Hq" as "(%Hs&Ht&Hnext&Hes)". unfold timerqueue_getnext. wp_load "Hnext". iFrame. done.
  - iIntros "Hq". iApply (wp_iterate_next with "Hq"). iIntros "$". done.
Qed.

(** A queue of one timer at 256 and an idle timer at 512 that expires earlier. *)
Definition queue_words : list (Z * Z) :=
  [(64, 256); (72, 256); (256, 1); (272, 0); (264, 0); (280, 30); (512, 512); (528, 0); (520, 0); (536, 20)].
Definition queue_mem : mem := list_to_map queue_words.
Lemma queue_holds : holds_on (queue 64 [(256, 30)] ∗ idle 512 20) queue_mem.
Proof.
  eapply entails_holds; [|by apply words_hold]. unfold words, queue_words, queue, idle, fresh, expiries, ordered. cbn.
  iIntros "(Hr&Hn&H1&H2&H3&He&H4&H5&H6&He'&_)". iFrame "Hn He H4 H5 H6 He'".
  iSplitL; [|done]. iSplitR; [iPureIntro; by repeat constructor|].
  iExists (Node Black Leaf 256 Leaf). unfold rbP. cbn. iFrame.
  iPureIntro. split_and!; [by exists 1%nat; repeat econstructor|done..].
Qed.
Lemma timerqueue_refines_priority_queue_witness :
  exists b m', timerqueue_add 64 512 (queue_mem ∪ ∅) = Ret (b, m' ∪ ∅) /\ m' ##ₘ ∅
    /\ holds_on (<affine> ⌜b = true⌝ ∗ queue 64 [(512, 20); (256, 30)]) m'.
Proof.
  exact (proj1 (proj2 (timerqueue_refines_priority_queue 64 [(256, 30)] 512 20 [] [])) queue_mem ∅ queue_holds (map_disjoint_empty_r _)).
Defined.
