(* ===== verification/TimerWheel.v ===== *)
(** The timer wheel: kernel/time/timer.c, with the hash lists of
    include/linux/list.h and the time comparisons of include/linux/jiffies.h.

    The configuration is the repository's minimalconfig: one CPU, HZ=250, periodic
    ticks (CONFIG_NO_HZ_COMMON is off), so there is one base and no timer changes its
    base.  The routines under CONFIG_NO_HZ_COMMON that look for the next event
    ([next_pending_bucket], [__next_timer_interrupt] and the other version of
    [collect_expired_timers]) are modelled as well, in a section of their own.

    A timer is named by a number.  A hash list is the list of the timers on it, from
    its first node on; [pprev] says whether [entry.pprev] is not NULL, that is
    whether the timer is on a list.  [heads] is the array of lists on the stack of
    [__run_timers].  The words of the pending map and the operations on them are
    those of the bitmap component. *)

From stdpp Require Import gmap.
From S2P Require Import Prelude FindBit Hweight Bitmap.

(** * Data *)

Record timer_list := mkTimer {
  pprev : bool;
  expires : Z;
  function : Z;
  flags : Z;
}.

Record timer_base := mkBase {
  running_timer : option nat;
  clk : Z;
  pending_map : list Z;
  vectors : list (list nat);
}.

Record wheel := mkWheel {
  jiffies : Z;
  base : timer_base;
  heads : list (list nat);
  timers : gmap nat timer_list;
}.

Definition LVL_CLK_SHIFT : Z := 3.
Definition LVL_CLK_DIV : Z := Z.shiftl 1 LVL_CLK_SHIFT.
Definition LVL_CLK_MASK : Z := LVL_CLK_DIV - 1.
Definition LVL_SHIFT (n : Z) : Z := n * LVL_CLK_SHIFT.
Definition LVL_GRAN (n : Z) : Z := Z.shiftl 1 (LVL_SHIFT n).
Definition LVL_BITS : Z := 6.
Definition LVL_SIZE : Z := Z.shiftl 1 LVL_BITS.
Definition LVL_MASK : Z := LVL_SIZE - 1.
Definition LVL_START (n : Z) : Z := Z.shiftl (LVL_SIZE - 1) ((n - 1) * LVL_CLK_SHIFT).
Definition LVL_OFFS (n : Z) : Z := n * LVL_SIZE.
Definition LVL_DEPTH : Z := 9.
Definition WHEEL_TIMEOUT_CUTOFF : Z := LVL_START LVL_DEPTH.
Definition WHEEL_TIMEOUT_MAX : Z := WHEEL_TIMEOUT_CUTOFF - LVL_GRAN (LVL_DEPTH - 1).
Definition WHEEL_SIZE : Z := LVL_SIZE * LVL_DEPTH.

Definition TIMER_ARRAYSHIFT : Z := 22.
Definition TIMER_ARRAYMASK : Z := 4290772992.
Definition MOD_TIMER_PENDING_ONLY : Z := 1.
Definition MOD_TIMER_REDUCE : Z := 2.

(** * Time comparisons *)

Definition time_after (a b : Z) : bool := s64 (b - a) <? 0.
Definition time_before (a b : Z) : bool := time_after b a.
Definition time_after_eq (a b : Z) : bool := 0 <=? s64 (a - b).
Definition time_before_eq (a b : Z) : bool := time_after_eq b a.

(** * The bucket of an expiry time *)

Definition timer_get_idx (tm : timer_list) : Z := Z.shiftr (Z.land (flags tm) TIMER_ARRAYMASK) TIMER_ARRAYSHIFT.
Definition timer_set_idx (tm : timer_list) (idx : Z) : timer_list :=
  mkTimer (pprev tm) (expires tm) (function tm)
    (Z.lor (Z.land (flags tm) (w32 (Z.lnot TIMER_ARRAYMASK))) (w32 (Z.shiftl idx TIMER_ARRAYSHIFT))).

(** The argument [expires] is an unsigned int. *)
Definition calc_index (expires lvl : Z) : Z :=
  let expires := w32 expires in
  let expires := w32 (Z.shiftr (w64 (expires + LVL_GRAN lvl)) (LVL_SHIFT lvl)) in
  LVL_OFFS lvl + Z.land expires LVL_MASK.

Definition calc_wheel_index (expires clk : Z) : Z :=
  let delta := w64 (expires - clk) in
  if delta <? LVL_START 1 then calc_index expires 0
  else if delta <? LVL_START 2 then calc_index expires 1
  else if delta <? LVL_START 3 then calc_index expires 2
  else if delta <? LVL_START 4 then calc_index expires 3
  else if delta <? LVL_START 5 then calc_index expires 4
  else if delta <? LVL_START 6 then calc_index expires 5
  else if delta <? LVL_START 7 then calc_index expires 6
  else if (8 <? LVL_DEPTH) && (delta <? LVL_START 8) then calc_index expires 7
  else if s64 delta <? 0 then Z.land clk LVL_MASK
  else
    let expires := if WHEEL_TIMEOUT_CUTOFF <=? expires then WHEEL_TIMEOUT_MAX else expires in
    calc_index expires (LVL_DEPTH - 1).

(** * State updates *)

Definition set_timer (w : wheel) (t : nat) (tm : timer_list) : wheel :=
  mkWheel (jiffies w) (base w) (heads w) (<[t := tm]> (timers w)).
Definition set_clk (w : wheel) (c : Z) : wheel :=
  let b := base w in mkWheel (jiffies w) (mkBase (running_timer b) c (pending_map b) (vectors b)) (heads w) (timers w).
Definition set_running (w : wheel) (r : option nat) : wheel :=
  let b := base w in mkWheel (jiffies w) (mkBase r (clk b) (pending_map b) (vectors b)) (heads w) (timers w).
Definition set_vectors (w : wheel) (pm : list Z) (vs : list (list nat)) : wheel :=
  let b := base w in mkWheel (jiffies w) (mkBase (running_timer b) (clk b) pm vs) (heads w) (timers w).
Definition set_heads (w : wheel) (hs : list (list nat)) : wheel :=
  mkWheel (jiffies w) (base w) hs (timers w).

(** Following a pointer to a timer. *)
Definition timer_at (w : wheel) (t : nat) : res timer_list :=
  match timers w !! t with Some tm => Ret tm | None => BUG end.
(** [base->vectors + idx] *)
Definition vector_at (w : wheel) (idx : Z) : res (list nat) :=
  match vectors (base w) !! Z.to_nat idx with Some l => Ret l | None => BUG end.

(** * Hash lists *)

Definition hlist_add_head (t : nat) (l : list nat) : list nat := t :: l.
Definition hlist_is_singular_node (t : nat) (l : list nat) : bool := bool_decide (l = [t]).
(** A node is unlinked from the list it is on, wherever that is. *)
Definition unlink (t : nat) : list nat -> list nat := filter (fun u => u <> t).
Definition __hlist_del (t : nat) (w : wheel) : wheel :=
  set_heads (set_vectors w (pending_map (base w)) (unlink t <$> vectors (base w))) (unlink t <$> heads w).

Definition timer_pending (tm : timer_list) : bool := pprev tm.

(** * Arming and cancelling *)

Definition do_init_timer (t : nat) (func fl : Z) (w : wheel) : wheel :=
  set_timer w t (mkTimer false (from_option expires 0 (timers w !! t)) func fl).

Definition enqueue_timer (t : nat) (idx : Z) (w : wheel) : res wheel :=
  let* l := vector_at w idx in
  let* pm := set_bit idx (pending_map (base w)) in
  let* tm := timer_at w t in
  let w := set_vectors w pm (<[Z.to_nat idx := hlist_add_head t l]> (vectors (base w))) in
  Ret (set_timer w t (timer_set_idx (mkTimer true (expires tm) (function tm) (flags tm)) idx)).

(** [trigger_dyntick_cpu] does nothing without CONFIG_NO_HZ_COMMON. *)
Definition internal_add_timer (t : nat) (w : wheel) : res wheel :=
  let* tm := timer_at w t in
  enqueue_timer t (calc_wheel_index (expires tm) (clk (base w))) w.

Definition detach_timer (t : nat) (clear_pending : bool) (w : wheel) : res wheel :=
  let w := __hlist_del t w in
  let* tm := timer_at w t in
  Ret (if clear_pending then set_timer w t (mkTimer false (expires tm) (function tm) (flags tm)) else w).

Definition detach_if_pending (t : nat) (clear_pending : bool) (w : wheel) : res (wheel * Z) :=
  let* tm := timer_at w t in
  let idx := timer_get_idx tm in
  if negb (timer_pending tm) then Ret (w, 0)
  else
    let* l := vector_at w idx in
    let* pm := if hlist_is_singular_node t l then clear_bit idx (pending_map (base w)) else Ret (pending_map (base w)) in
    let* w := detach_timer t clear_pending (set_vectors w pm (vectors (base w))) in
    Ret (w, 1).

Definition set_expires (t : nat) (e : Z) (w : wheel) : res wheel :=
  let* tm := timer_at w t in
  Ret (set_timer w t (mkTimer (pprev tm) e (function tm) (flags tm))).

(** The optimisation for pending timers at the beginning: the result of the whole
    call when it applies, else the index to use.  Between the first test and taking
    the lock nothing happens on one CPU, so the test under the lock sees the same
    timer. *)
Definition mod_pending (t : nat) (tm : timer_list) (e options : Z) (w : wheel) : res (wheel * Z) + Z :=
  let reduce := negb (Z.land options MOD_TIMER_REDUCE =? 0) in
  let diff := s64 (expires tm - e) in
  if diff =? 0 then inl (Ret (w, 1))
  else if reduce && (diff <=? 0) then inl (Ret (w, 1))
  else if timer_pending tm && reduce && time_before_eq (expires tm) e then inl (Ret (w, 1))
  else
    let idx := calc_wheel_index e (clk (base w)) in
    if idx =? timer_get_idx tm then
      inl (let* w :=
             if negb reduce then set_expires t e w
             else if time_after (expires tm) e then set_expires t e w else Ret w in
           Ret (w, 1))
    else inr idx.

(** "ret = detach_if_pending(...)" to the end; [idx] is UINT_MAX unless it was
    calculated before.  The base and its clock have not changed since. *)
Definition mod_requeue (t : nat) (e options : Z) (idx : option Z) (w : wheel) : res (wheel * Z) :=
  let* (w, ret) := detach_if_pending t false w in
  if (ret =? 0) && negb (Z.land options MOD_TIMER_PENDING_ONLY =? 0) then Ret (w, ret)
  else
    let* w := set_expires t e w in
    let* w := match idx with Some idx => enqueue_timer t idx w | None => internal_add_timer t w end in
    Ret (w, ret).

Definition __mod_timer (t : nat) (e options : Z) (w : wheel) : res (wheel * Z) :=
  let* tm := timer_at w t in
  if function tm =? 0 then BUG
  else if timer_pending tm then
    match mod_pending t tm e options w with
    | inl r => r
    | inr idx => mod_requeue t e options (Some idx) w
    end
  else mod_requeue t e options None w.

Definition mod_timer_pending (t : nat) (e : Z) (w : wheel) := __mod_timer t e MOD_TIMER_PENDING_ONLY w.
Definition mod_timer (t : nat) (e : Z) (w : wheel) := __mod_timer t e 0 w.
Definition timer_reduce (t : nat) (e : Z) (w : wheel) := __mod_timer t e MOD_TIMER_REDUCE w.
Definition add_timer (t : nat) (w : wheel) : res wheel :=
  let* tm := timer_at w t in
  if timer_pending tm then BUG else res_map fst (mod_timer t (expires tm) w).
Definition add_timer_on (t : nat) (w : wheel) : res wheel :=
  let* tm := timer_at w t in
  if timer_pending tm || (function tm =? 0) then BUG else internal_add_timer t w.
Definition del_timer (t : nat) (w : wheel) : res (wheel * Z) :=
  let* tm := timer_at w t in
  if timer_pending tm then detach_if_pending t true w else Ret (w, 0).
Definition try_to_del_timer_sync (t : nat) (w : wheel) : res (wheel * Z) :=
  if bool_decide (running_timer (base w) = Some t) then Ret (w, -1) else detach_if_pending t true w.

(** * Expiry *)

Definition test_and_clear_bit (nr : Z) (addr : list Z) : res (bool * list Z) :=
  let* old := test_bit nr addr in
  let* addr := clear_bit nr addr in
  Ret (old, addr).

(** The loop over the levels from [i] on, [n] of them left. *)
Fixpoint collect_loop (n : nat) (i clk : Z) (w : wheel) : res wheel :=
  match n with
  | O => Ret w
  | S n' =>
      let idx := Z.land clk LVL_MASK + i * LVL_SIZE in
      let* (pending, pm) := test_and_clear_bit idx (pending_map (base w)) in
      let* l := vector_at w idx in
      let w :=
        if pending : bool then
          set_heads (set_vectors w pm (<[Z.to_nat idx := []]> (vectors (base w)))) (heads w ++ [l])
        else set_vectors w pm (vectors (base w)) in
      if negb (Z.land clk LVL_CLK_MASK =? 0) then Ret w
      else collect_loop n' (i + 1) (Z.shiftr clk LVL_CLK_SHIFT) w
  end.
(** The lists moved away are in [heads]; [levels] is its length. *)
Definition __collect_expired_timers (w : wheel) : res wheel :=
  collect_loop (Z.to_nat LVL_DEPTH) 0 (clk (base w)) (set_heads w []).
Definition collect_expired_timers (w : wheel) : res wheel := __collect_expired_timers w.

(** The body of [expire_timers] up to the call, for the list [heads + k]: the timer
    to call, if any. *)
Definition expire_first (k : nat) (w : wheel) : res (wheel * option nat) :=
  match heads w !! k with
  | None => BUG
  | Some [] => Ret (w, None)
  | Some (t :: _) =>
      let* w := detach_timer t true (set_running w (Some t)) in
      Ret (w, Some t)
  end.

(** What a timer function may do to the wheel: calls of the interface above.  Setting
    [timer->expires] before [add_timer] is part of the call. *)
Inductive op :=
| Setup (t : nat) (func fl : Z)
| Mod (t : nat) (e : Z)
| ModPending (t : nat) (e : Z)
| Reduce (t : nat) (e : Z)
| Add (t : nat) (e : Z)
| AddOn (t : nat) (e : Z)
| Del (t : nat)
| TryDel (t : nat).

Definition run_op (o : op) (w : wheel) : res wheel :=
  match o with
  | Setup t func fl => Ret (do_init_timer t func fl w)
  | Mod t e => res_map fst (mod_timer t e w)
  | ModPending t e => res_map fst (mod_timer_pending t e w)
  | Reduce t e => res_map fst (timer_reduce t e w)
  | Add t e => let* w := set_expires t e w in add_timer t w
  | AddOn t e => let* w := set_expires t e w in add_timer_on t w
  | Del t => res_map fst (del_timer t w)
  | TryDel t => res_map fst (try_to_del_timer_sync t w)
  end.
Fixpoint run_ops (os : list op) (w : wheel) : res wheel :=
  match os with
  | [] => Ret w
  | o :: os' => let* w := run_op o w in run_ops os' w
  end.

Section Run.
(** The timer functions: what the function [f] called for timer [t] does next. *)
Context (fn : Z -> nat -> wheel -> list op).

Definition call_timer_fn (t : nat) (w : wheel) : res wheel :=
  let* tm := timer_at w t in run_ops (fn (function tm) t w) w.

Fixpoint expire_timers (fuel k : nat) (w : wheel) : res wheel :=
  match fuel with
  | O => OutOfFuel
  | S fuel' =>
      let* (w, first) := expire_first k w in
      match first with
      | None => Ret w
      | Some t => let* w := call_timer_fn t w in expire_timers fuel' k w
      end
  end.
(** while (levels--) expire_timers(base, heads + levels); the fuel of a list is more
    than the number of its timers. *)
Fixpoint expire_levels (levels : nat) (w : wheel) : res wheel :=
  match levels with
  | O => Ret w
  | S k => let* w := expire_timers (S (length (default [] (heads w !! k)))) k w in expire_levels k w
  end.

Fixpoint run_timers_loop (fuel : nat) (w : wheel) : res wheel :=
  match fuel with
  | O => OutOfFuel
  | S fuel' =>
      if time_after_eq (jiffies w) (clk (base w)) then
        let* w := collect_expired_timers w in
        let w := set_clk w (w64 (clk (base w) + 1)) in
        let* w := expire_levels (length (heads w)) w in
        run_timers_loop fuel' w
      else Ret w
  end.
(** One turn per jiffy that the clock is behind. *)
Definition __run_timers (w : wheel) : res wheel :=
  if negb (time_after_eq (jiffies w) (clk (base w))) then Ret w
  else
    let* w := run_timers_loop (Z.to_nat (w64 (jiffies w - clk (base w)) + 2)) w in
    Ret (set_running w None).
End Run.

Definition init_timer_cpu (jiffies : Z) : wheel :=
  mkWheel jiffies (mkBase None jiffies (replicate (Z.to_nat (BITS_TO_LONGS WHEEL_SIZE)) 0) (replicate (Z.to_nat WHEEL_SIZE) []))
    [] ∅.

(** * Looking for the next event (CONFIG_NO_HZ_COMMON) *)

Definition NEXT_TIMER_MAX_DELTA : Z := Z.shiftl 1 30 - 1.

Definition next_pending_bucket (w : wheel) (offset clk : Z) : res Z :=
  let start := w32 (offset + clk) in
  let endp := w32 (offset + LVL_SIZE) in
  let* pos := find_next_bit (pending_map (base w)) endp start in
  if pos <? endp then Ret (s32 (pos - start))
  else
    let* pos := find_next_bit (pending_map (base w)) start offset in
    Ret (if pos <? start then s32 (pos + LVL_SIZE - start) else -1).

Fixpoint next_loop (n : nat) (lvl offset clk next : Z) (w : wheel) : res Z :=
  match n with
  | O => Ret next
  | S n' =>
      let* pos := next_pending_bucket w offset (Z.land clk LVL_MASK) in
      let next :=
        if 0 <=? pos then
          let tmp := w64 (Z.shiftl (w64 (clk + pos)) (LVL_SHIFT lvl)) in
          if time_before tmp next then tmp else next
        else next in
      let adj := if negb (Z.land clk LVL_CLK_MASK =? 0) then 1 else 0 in
      next_loop n' (lvl + 1) (offset + LVL_SIZE) (w64 (Z.shiftr clk LVL_CLK_SHIFT + adj)) next w
  end.
Definition __next_timer_interrupt (w : wheel) : res Z :=
  let c := clk (base w) in
  next_loop (Z.to_nat LVL_DEPTH) 0 0 c (w64 (c + NEXT_TIMER_MAX_DELTA)) w.

Definition collect_expired_timers_nohz (w : wheel) : res wheel :=
  if 2 <? s64 (jiffies w - clk (base w)) then
    let* next := __next_timer_interrupt w in
    if time_after next (jiffies w) then Ret (set_heads (set_clk w (jiffies w)) [])
    else __collect_expired_timers (set_clk w next)
  else __collect_expired_timers w.

(** * Rounding to full seconds *)

Definition HZ : Z := 250.
Definition round_jiffies_common (jiffies j cpu : Z) (force_up : bool) : Z :=
  let original := j in
  let j := w64 (j + cpu * 3) in
  let rem := j mod HZ in
  let j := if (rem <? HZ / 4) && negb force_up then w64 (j - rem) else w64 (j - rem + HZ) in
  let j := w64 (j - cpu * 3) in
  if time_before jiffies j then j else original.
Definition __round_jiffies_relative (jiffies j cpu : Z) : Z :=
  w64 (round_jiffies_common jiffies (w64 (j + jiffies)) cpu false - jiffies).
Definition __round_jiffies_up_relative (jiffies j cpu : Z) : Z :=
  w64 (round_jiffies_common jiffies (w64 (j + jiffies)) cpu true - jiffies).
