(* ===== verification/TimerWheelTime.v ===== *)
(** When the buckets of the timer wheel are due.

    At clock [c] the wheel looks at bucket [c mod 64] of level 0, and, for every
    level [l] with [8^l] dividing [c], at bucket [(c / 8^l) mod 64] of level [l]
    ([visits]).  [bucket_time idx c] is the first clock from [c] on that looks at
    bucket [idx].  The bucket that [calc_wheel_index] chooses is due after the expiry
    time, and at most one unit of granularity later. *)

From S2P Require Import Prelude FindBit Hweight Bitmap TimerWheel.

Definition gran (lvl : Z) : Z := 8 ^ lvl.
Definition level (idx : Z) : Z := idx / 64.
Definition visits (c idx : Z) : bool :=
  (c mod gran (level idx) =? 0) && ((c / gran (level idx)) mod 64 =? idx mod 64).
Definition bucket_time (idx c : Z) : Z :=
  let g := gran (level idx) in
  let k := (c + g - 1) / g in
  g * (k + (idx - k) mod 64).

Lemma gran_pos lvl : 0 <= lvl -> 0 < gran lvl.
Proof. intros. apply Z.pow_pos_nonneg; lia. Qed.
Lemma level_pos idx : 0 <= idx -> 0 <= level idx.
Proof. intros. apply Z.div_pos; lia. Qed.
#[local] Hint Resolve gran_pos level_pos : core.

Lemma LVL_GRAN_eq lvl : 0 <= lvl -> LVL_GRAN lvl = gran lvl.
Proof.
  intros. unfold LVL_GRAN, LVL_SHIFT, LVL_CLK_SHIFT, gran. rewrite Z.shiftl_1_l.
  change 8 with (2 ^ 3). rewrite <- Z.pow_mul_r by lia. f_equal. lia.
Qed.
Lemma gran_pow2 lvl : 0 <= lvl -> gran lvl = 2 ^ LVL_SHIFT lvl.
Proof. intros. rewrite <- LVL_GRAN_eq by done. apply Z.shiftl_1_l. Qed.
Lemma LVL_START_eq lvl : 1 <= lvl -> LVL_START lvl = 63 * gran (lvl - 1).
Proof.
  intros. unfold LVL_START. rewrite Z.shiftl_mul_pow2 by (unfold LVL_CLK_SHIFT; lia).
  rewrite gran_pow2 by lia. done.
Qed.
Lemma gran_S lvl : 0 <= lvl -> gran (lvl + 1) = 8 * gran lvl.
Proof. intros. unfold gran. rewrite Z.pow_add_r by lia. lia. Qed.

Lemma visits_true c idx :
  0 <= idx ->
  visits c idx = true <-> exists m, c = gran (level idx) * m /\ m mod 64 = idx mod 64.
Proof.
  intros Hi. unfold visits. set (g := gran (level idx)). assert (0 < g) by (unfold g; auto).
  rewrite andb_true_iff, !Z.eqb_eq. split.
  - intros [H1 H2]. exists (c / g). split; [|done]. pose proof (Z.div_mod c g ltac:(lia)). lia.
  - intros (m&->&Hm). rewrite Z.mul_comm, Z.mod_mul, Z.div_mul by lia. done.
Qed.

Lemma bucket_time_spec idx c :
  0 <= idx ->
  c <= bucket_time idx c /\ visits (bucket_time idx c) idx = true
  /\ forall d, c <= d -> visits d idx = true -> bucket_time idx c <= d.
Proof.
  intros Hi. unfold bucket_time. set (g := gran (level idx)). assert (0 < g) by (unfold g; auto).
  pose proof (Z.div_mod (c + g - 1) g ltac:(lia)). pose proof (Z.mod_pos_bound (c + g - 1) g ltac:(lia)).
  set (k := (c + g - 1) / g) in *. pose proof (Z.mod_pos_bound (idx - k) 64 eq_refl). split_and!.
  - nia.
  - apply visits_true; [done|]. eexists. split; [done|]. rewrite Z.add_mod_idemp_r by lia. f_equal. lia.
  - intros d Hd (m&->&Hm)%visits_true; [|done]. apply Z.mul_le_mono_nonneg_l; [lia|].
    assert (k <= m) by nia. pose proof (Z.mod_le (m - k) 64 ltac:(lia) eq_refl).
    replace ((idx - k) mod 64) with ((m - k) mod 64); [lia|].
    rewrite Zminus_mod, Hm, <- Zminus_mod. done.
Qed.

(** The due time is determined by being the first one. *)
Lemma bucket_time_unique idx c T :
  0 <= idx -> c <= T -> visits T idx = true -> (forall d, c <= d < T -> visits d idx = false) ->
  bucket_time idx c = T.
Proof.
  intros Hi HT Hv Hno. destruct (bucket_time_spec idx c Hi) as (H1&H2&H3).
  specialize (H3 T HT Hv). destruct (Z.lt_ge_cases (bucket_time idx c) T) as [Hlt|]; [|lia].
  rewrite Hno in H2 by lia. done.
Qed.
Lemma bucket_time_next idx c :
  0 <= idx -> visits c idx = false -> bucket_time idx (c + 1) = bucket_time idx c.
Proof.
  intros Hi Hc. destruct (bucket_time_spec idx c Hi) as (H1&H2&H3).
  apply bucket_time_unique; [done| |done|].
  - destruct (Z.eq_dec (bucket_time idx c) c) as [E|]; [|lia]. rewrite E in H2. congruence.
  - intros d Hd. destruct (visits d idx) eqn:E; [|done]. specialize (H3 d). lia.
Qed.
Lemma bucket_time_now idx c : 0 <= idx -> visits c idx = true <-> bucket_time idx c = c.
Proof.
  intros Hi. destruct (bucket_time_spec idx c Hi) as (H1&H2&H3). split.
  - intros E. specialize (H3 c ltac:(lia) E). lia.
  - intros E. by rewrite E in H2.
Qed.

(** * The index of an expiry time *)

Lemma calc_index_eq e lvl :
  0 <= e < two64 -> 0 <= lvl <= 8 -> calc_index e lvl = 64 * lvl + (e / gran lvl + 1) mod 64.
Proof.
  intros He Hl. assert (Hg : 0 < gran lvl) by auto with lia.
  assert (exists q, two32 = gran lvl * 64 * q /\ 0 < q) as (q&Hq&Hq0).
  { assert (lvl = 0 \/ lvl = 1 \/ lvl = 2 \/ lvl = 3 \/ lvl = 4 \/ lvl = 5 \/ lvl = 6 \/ lvl = 7 \/ lvl = 8) as Hc by lia.
    exists (two32 / (gran lvl * 64)). repeat (destruct Hc as [->|Hc]; [vm_compute; done|]). subst. vm_compute. done. }
  unfold calc_index. rewrite LVL_GRAN_eq by lia. pose proof (w32_range e) as Hw.
  assert (gran lvl <= two32) by nia.
  rewrite w64_small by (unfold two64, two32 in *; lia).
  rewrite Z.shiftr_div_pow2 by (unfold LVL_SHIFT, LVL_CLK_SHIFT; lia). rewrite <- gran_pow2 by lia.
  change LVL_MASK with (Z.ones 6). rewrite Z.land_ones by lia. change (2 ^ 6) with 64.
  unfold LVL_OFFS. change LVL_SIZE with 64. rewrite Z.mul_comm. f_equal.
  replace (w32 e + gran lvl) with (w32 e + 1 * gran lvl) by lia. rewrite Z.div_add by lia.
  unfold w32. rewrite (Z.mod_eq e two32) by done.
  replace (e - two32 * (e / two32)) with (e + (- (64 * q * (e / two32))) * gran lvl) by nia.
  rewrite Z.div_add by lia.
  replace (e / gran lvl + - (64 * q * (e / two32)) + 1) with (e / gran lvl + 1 + (- (q * (e / two32))) * 64) by lia.
  rewrite <- Znumtheory.Zmod_div_mod; [|done|done|by exists (two32 / 64)].
  apply Z.mod_add. lia.
Qed.

Lemma calc_index_level e lvl : 0 <= e < two64 -> 0 <= lvl <= 8 -> level (calc_index e lvl) = lvl.
Proof.
  intros He Hl. rewrite calc_index_eq by done. unfold level.
  pose proof (Z.mod_pos_bound (e / gran lvl + 1) 64 eq_refl).
  rewrite (Z.mul_comm 64), Z.div_add_l, Z.div_small by lia. lia.
Qed.
Lemma calc_index_range e lvl : 0 <= e < two64 -> 0 <= lvl <= 8 -> 0 <= calc_index e lvl < WHEEL_SIZE.
Proof.
  intros He Hl. rewrite calc_index_eq by done. change WHEEL_SIZE with 576.
  pose proof (Z.mod_pos_bound (e / gran lvl + 1) 64 eq_refl). lia.
Qed.

(** A timer at most 63 units of a level ahead is due at the end of its unit. *)
Lemma calc_index_due e c lvl :
  0 <= e < two64 -> 0 <= lvl <= 8 -> 0 <= c <= e -> e - c < 63 * gran lvl ->
  bucket_time (calc_index e lvl) c = gran lvl * (e / gran lvl + 1).
Proof.
  intros He Hl Hc Hd. assert (Hg : 0 < gran lvl) by auto with lia. set (g := gran lvl) in *.
  pose proof (Z.div_mod e g ltac:(lia)). pose proof (Z.mod_pos_bound e g ltac:(lia)).
  assert (Hi : 0 <= calc_index e lvl) by (apply calc_index_range; done).
  assert (Hm : calc_index e lvl mod 64 = (e / g + 1) mod 64).
  { rewrite calc_index_eq by done. fold g. rewrite Z.add_comm, (Z.mul_comm 64), Z.mod_add, Z.mod_mod by lia. done. }
  apply bucket_time_unique; [done|nia| |].
  - apply visits_true; [done|]. rewrite calc_index_level by done. by eexists.
  - intros d Hd'. destruct (visits d _) eqn:E; [|done]. exfalso.
    apply visits_true in E as (m&->&E); [|done]. rewrite calc_index_level in Hd' by done. fold g in Hd'.
    rewrite Hm in E. divmod m 64. divmod (e / g + 1) 64.
    assert (m < e / g + 1) by nia. assert (m + 64 <= e / g + 1) by lia. nia.
Qed.

(** * The bucket of a timer *)

(** The expiry times for which the wheel has a bucket: those that are over or less
    than [LVL_START 8] ahead (about six days at 250 Hz), and those below
    [WHEEL_TIMEOUT_CUTOFF] as absolute times. *)
Definition in_reach (e c : Z) : Prop :=
  0 <= e < 2 ^ 63 /\ 0 <= c < 2 ^ 63 /\ (e - c < LVL_START 8 \/ e < WHEEL_TIMEOUT_CUTOFF).

Lemma s64_negative z : - 2 ^ 63 <= z < 0 -> s64 (w64 z) = z.
Proof.
  intros Hz. unfold s64. rewrite w64_idemp. unfold w64, two64.
  rewrite <- (Z.mod_add z 1) by done. rewrite Z.mod_small by lia.
  destruct (Z.ltb_spec (z + 1 * 18446744073709551616) 9223372036854775808); lia.
Qed.
Lemma s64_positive z : 0 <= z < 2 ^ 63 -> s64 z = z.
Proof.
  intros Hz. unfold s64. rewrite w64_small by (unfold two64; lia).
  destruct (Z.ltb_spec z 9223372036854775808); lia.
Qed.

(** One comparison of [calc_wheel_index]: either level [n] is the answer, or the next. *)
Ltac try_level n :=
  match goal with |- context [?d <? ?b] => destruct (Z.ltb_spec d b); [exists n; cbn; auto with lia|] end.

(** The level is the lowest that reaches the expiry time. *)
Lemma calc_wheel_index_cases e c :
  in_reach e c ->
  (e < c /\ calc_wheel_index e c = c mod 64)
  \/ exists lvl, 0 <= lvl <= 8 /\ c <= e /\ calc_wheel_index e c = calc_index e lvl /\ e - c < 63 * gran lvl
       /\ (lvl = 0 \/ 63 * gran (lvl - 1) <= e - c).
Proof.
  intros (He&Hc&Hr). unfold calc_wheel_index. change (8 <? LVL_DEPTH) with true. cbn [andb].
  change LVL_MASK with (Z.ones 6). rewrite Z.land_ones by lia. change (2 ^ 6) with 64.
  destruct (Z.lt_ge_cases e c) as [Hlt|Hge].
  - left. split; [done|].
    assert (w64 (e - c) = e - c + two64) as Hd.
    { unfold w64. rewrite <- (Z.mod_add _ 1) by done. apply Z.mod_small. unfold two64. lia. }
    rewrite s64_negative by lia. rewrite Hd.
    repeat match goal with |- context [_ <? LVL_START ?n] =>
      let v := eval vm_compute in (LVL_START n) in change (LVL_START n) with v end.
    unfold two64. case_cmps; done.
  - right. rewrite w64_small by (unfold two64; lia). rewrite s64_positive by lia.
    replace (e - c <? 0) with false by lia.
    change WHEEL_TIMEOUT_CUTOFF with (63 * gran 8) in *.
    rewrite !LVL_START_eq in * by lia. cbn [Z.sub Z.add Z.opp Z.pos_sub Pos.pred_double Pos.succ] in *.
    try_level 0. try_level 1. try_level 2. try_level 3. try_level 4. try_level 5. try_level 6. try_level 7.
    exists 8. destruct (Z.leb_spec (63 * gran 8) e) as [Hle|Hle]; [lia|]. cbn. auto with lia.
Qed.

Lemma calc_wheel_index_range e c : 0 <= e < two64 -> 0 <= calc_wheel_index e c < WHEEL_SIZE.
Proof.
  intros He. unfold calc_wheel_index.
  assert (Hc : forall e lvl, 0 <= e < two64 -> 0 <= lvl <= 8 -> 0 <= calc_index e lvl < WHEEL_SIZE) by apply calc_index_range.
  repeat match goal with |- context [if ?b then _ else _] => destruct b end; try (apply Hc; done || lia).
  change LVL_MASK with (Z.ones 6). rewrite Z.land_ones by lia. change (2 ^ 6) with 64. change WHEEL_SIZE with 576.
  pose proof (Z.mod_pos_bound c 64 eq_refl). lia.
Qed.

(** A timer in reach is due after its expiry time, at most one unit of its level
    later; one that is over already is due at once. *)
Lemma calc_wheel_index_due e c :
  in_reach e c ->
  let idx := calc_wheel_index e c in
  c <= bucket_time idx c /\ e < bucket_time idx c <= Z.max (e + gran (level idx)) c.
Proof.
  intros Hr. cbn zeta. pose proof Hr as (He&Hc&_).
  destruct (calc_wheel_index_cases e c Hr) as [[Hlt ->]|(lvl&Hl&Hle&->&Hd&_)].
  - assert (bucket_time (c mod 64) c = c) as ->; [|lia].
    apply bucket_time_now; [apply Z.mod_pos_bound; done|]. pose proof (Z.mod_pos_bound c 64 eq_refl).
    apply visits_true; [lia|]. unfold level. rewrite Z.div_small by lia. exists c.
    rewrite Z.mod_mod by lia. change (gran 0) with 1. lia.
  - assert (0 <= e < two64) by (unfold two64; lia).
    rewrite calc_index_level, calc_index_due by (done || lia).
    assert (Hg : 0 < gran lvl) by auto with lia.
    pose proof (Z.div_mod e (gran lvl) ltac:(lia)). pose proof (Z.mod_pos_bound e (gran lvl) ltac:(lia)). nia.
Qed.

(** The unit is one jiffy for timers less than 63 jiffies ahead, and less than 13% of the
    distance for the others. *)
Lemma calc_wheel_index_gran e c :
  in_reach e c -> c <= e ->
  let g := gran (level (calc_wheel_index e c)) in
  (e - c < 63 -> g = 1) /\ (63 <= e - c -> 63 * g <= 8 * (e - c)).
Proof.
  intros Hr Hle. cbn zeta. pose proof Hr as (He&Hc&_).
  destruct (calc_wheel_index_cases e c Hr) as [[Hlt _]|(lvl&Hl&_&->&Hd&Hlow)]; [lia|].
  rewrite calc_index_level by (unfold two64; lia). destruct (Z.eq_dec lvl 0) as [->|Hne].
  - change (gran 0) with 1 in *. lia.
  - destruct Hlow as [|Hlow]; [lia|]. pose proof (gran_S (lvl - 1) ltac:(lia)) as E.
    replace (lvl - 1 + 1) with lvl in E by lia. pose proof (gran_pos (lvl - 1) ltac:(lia)). lia.
Qed.
