(* ===== verification/TimerWheelFacts.v ===== *)
(** The invariant of the timer wheel, and that every operation on it preserves it. *)

From stdpp Require Import gmap.
From S2P Require Import Prelude FindBit Hweight Bitmap BitmapFacts TimerWheel TimerWheelTime.

(** * Where a timer is *)

(** In bucket [i] of the wheel, or on one of the lists taken off for expiry. *)
Definition queued (w : wheel) (i t : nat) : Prop := exists l, vectors (base w) !! i = Some l /\ t ∈ l.
Definition collected (w : wheel) (t : nat) : Prop := t ∈ mjoin (heads w).

(** The pending map tells which buckets are not empty; a timer that is pending is in
    exactly one place, and knows the bucket.  The timer [ex], if any, is on no list
    although it may be marked pending. *)
Record wf_ex (ex : option nat) (w : wheel) : Prop := {
  wf_map : words (pending_map (base w)) /\ length (pending_map (base w)) = 9%nat;
  wf_size : length (vectors (base w)) = 576%nat;
  wf_heads : NoDup (mjoin (heads w));
  wf_list : forall i l, vectors (base w) !! i = Some l ->
    NoDup l /\ bit (pending_map (base w)) (Z.of_nat i) = negb (bool_decide (l = []));
  wf_queued : forall i t, queued w i t ->
    ~ collected w t /\ exists tm, timers w !! t = Some tm /\ pprev tm = true /\ timer_get_idx tm = Z.of_nat i;
  wf_collected : forall t, collected w t -> exists tm, timers w !! t = Some tm /\ pprev tm = true;
  wf_pending : forall t tm, timers w !! t = Some tm -> pprev tm = true -> ex <> Some t ->
    collected w t \/ exists i, queued w i t;
  wf_range : forall t tm, timers w !! t = Some tm -> pprev tm = true -> 0 <= timer_get_idx tm < WHEEL_SIZE;
  wf_except : forall t, ex = Some t -> ~ collected w t /\ forall i, ~ queued w i t;
}.
Notation wf := (wf_ex None).

Lemma wf_spare w t : wf w -> (forall tm, timers w !! t = Some tm -> pprev tm = false) -> wf_ex (Some t) w.
Proof.
  intros [] Ht. split; try done.
  - intros u tm Hu Hp _. by apply (wf_pending0 u tm).
  - intros u [= <-]. split.
    + intros (tm&Hu&Hp)%wf_collected0. apply Ht in Hu. congruence.
    + intros i Hq. destruct (wf_queued0 i t Hq) as (_&tm&Hu&Hp&_). apply Ht in Hu. congruence.
Qed.

(** * Reading and writing the bucket number *)

Lemma timer_get_set_idx tm idx : 0 <= idx < 1024 -> timer_get_idx (timer_set_idx tm idx) = idx.
Proof.
  intros Hi. unfold timer_get_idx, timer_set_idx. cbn [flags]. change TIMER_ARRAYMASK with (Z.shiftl (Z.ones 10) 22).
  unfold TIMER_ARRAYSHIFT, w32. change two32 with (2 ^ 32). apply Z.bits_inj'. intros j Hj.
  rewrite Z.shiftr_spec, Z.land_spec, Z.lor_spec, Z.land_spec, Z.shiftl_spec by lia.
  rewrite Z.testbit_ones_nonneg by lia. replace (j + 22 - 22) with j by lia.
  destruct (Z.ltb_spec j 10) as [Hlt|Hge].
  - rewrite !Z.mod_pow2_bits_low by lia. rewrite Z.lnot_spec, !Z.shiftl_spec by lia.
    replace (j + 22 - 22) with j by lia. rewrite Z.testbit_ones_nonneg by lia.
    replace (j <? 10) with true by lia. cbn [negb]. rewrite andb_false_r, andb_true_r. done.
  - rewrite andb_false_r. symmetry. apply Z.bits_above_log2; [lia|].
    assert (idx < 2 ^ 10) by (cbn; lia). destruct (Z.eq_dec idx 0) as [->|]; [cbn; lia|].
    pose proof (proj1 (Z.log2_lt_pow2 idx 10 ltac:(lia)) H). lia.
Qed.

(** * Taking a timer off its list *)

Lemma mjoin_unlink t ls : mjoin (unlink t <$> ls) = unlink t (mjoin ls).
Proof. apply mjoin_filter. Qed.

Lemma unlink_queued t w i u : queued (__hlist_del t w) i u <-> u <> t /\ queued w i u.
Proof.
  unfold queued, __hlist_del, set_heads, set_vectors. cbn. rewrite list_lookup_fmap. split.
  - intros (l&El&Hu). destruct (vectors (base w) !! i) as [l0|] eqn:E; [|done]. injection El as <-.
    apply list_elem_of_filter in Hu as [Hne Hu]. eauto.
  - intros (Hne&l&->&Hu). cbn. eexists. split; [done|]. by apply list_elem_of_filter.
Qed.
Lemma unlink_collected t w u : collected (__hlist_del t w) u <-> u <> t /\ collected w u.
Proof.
  unfold collected, __hlist_del, set_heads, set_vectors. cbn. rewrite mjoin_unlink. unfold unlink. by rewrite list_elem_of_filter.
Qed.

Lemma unlink_id t l : t ∉ l -> unlink t l = l.
Proof. intros H. apply filter_keep. by intros u Hu ->. Qed.
Lemma unlink_empty t l : NoDup l -> t ∈ l -> unlink t l = [] <-> l = [t].
Proof.
  intros Hnd Hin. split.
  - intros E. destruct l as [|u l]; [by apply elem_of_nil in Hin|].
    destruct l as [|v l].
    + apply list_elem_of_singleton in Hin as ->. done.
    + exfalso. apply NoDup_cons in Hnd as [Hu Hnd]. 
      assert (Hall : forall x, x ∈ u :: v :: l -> x = t).
      { intros x Hx. destruct (decide (x = t)) as [|Hne]; [done|].
        assert (x ∈ unlink t (u :: v :: l)) as Hx' by (apply list_elem_of_filter; done). rewrite E in Hx'. by apply elem_of_nil in Hx'. }
      apply Hu. rewrite (Hall u), <- (Hall v) by set_solver. set_solver.
  - intros ->. unfold unlink. rewrite filter_cons_False by congruence. done.
Qed.

(** Neither the clocks nor the running timer change. *)
Definition same_time (w w' : wheel) : Prop :=
  jiffies w' = jiffies w /\ clk (base w') = clk (base w) /\ running_timer (base w') = running_timer (base w).

Lemma vector_at_ok ex w idx : wf_ex ex w -> 0 <= idx < WHEEL_SIZE ->
  exists l, vector_at w idx = Ret l /\ vectors (base w) !! Z.to_nat idx = Some l.
Proof.
  intros Hw Hi. change WHEEL_SIZE with 576 in Hi. unfold vector_at.
  destruct (lookup_lt_is_Some_2 (vectors (base w)) (Z.to_nat idx)) as [l E]; [rewrite (wf_size _ _ Hw); lia|].
  rewrite E. eauto.
Qed.
Lemma idx_in_map ex w idx : wf_ex ex w -> 0 <= idx < WHEEL_SIZE -> 0 <= idx < 64 * Z.of_nat (length (pending_map (base w))).
Proof. intros Hw Hi. rewrite (proj2 (wf_map _ _ Hw)). change WHEEL_SIZE with 576 in Hi. lia. Qed.

(** The map after [t], whose bucket is [idx], leaves its list. *)
Lemma detach_map w t tm l idx :
  wf w -> timers w !! t = Some tm -> pprev tm = true -> idx = timer_get_idx tm -> vectors (base w) !! Z.to_nat idx = Some l ->
  exists pm, (if hlist_is_singular_node t l then clear_bit idx (pending_map (base w)) else Ret (pending_map (base w))) = Ret pm
    /\ words pm /\ length pm = 9%nat
    /\ forall i l', vectors (base w) !! i = Some l' -> bit pm (Z.of_nat i) = negb (bool_decide (unlink t l' = [])).
Proof.
  intros Hw Ht Hp -> El. destruct (wf_map _ _ Hw) as [Hpm Hlen]. pose proof (wf_range _ _ Hw t tm Ht Hp) as Hr.
  assert (Hsame : forall i l', vectors (base w) !! i = Some l' -> t ∉ l' ->
    bit (pending_map (base w)) (Z.of_nat i) = negb (bool_decide (unlink t l' = []))).
  { intros i l' E Hni. rewrite unlink_id by done. by apply (wf_list _ _ Hw). }
  assert (Hat : forall i l', vectors (base w) !! i = Some l' -> t ∈ l' -> i = Z.to_nat (timer_get_idx tm)).
  { intros i l' E Hin. destruct (wf_queued _ _ Hw i t) as (_&tm'&Ht'&_&Ei); [by exists l'|].
    rewrite Ht in Ht'. injection Ht' as <-. lia. }
  unfold hlist_is_singular_node. case_bool_decide as Hs.
  - destruct (clear_bit_spec _ _ Hpm (idx_in_map _ _ _ Hw Hr)) as (pm&->&Hpm'&Hl'&Hb). exists pm.
    split_and!; [done|done|congruence|]. intros i l' E. rewrite Hb by lia.
    destruct (Z.eqb_spec (Z.of_nat i) (timer_get_idx tm)) as [Ei|Ei]; cbn [negb andb].
    + assert (l' = l) as -> by (rewrite <- Ei, Nat2Z.id in El; congruence). subst l. unfold unlink.
      rewrite filter_cons_False by congruence. done.
    + apply Hsame; [done|]. intros Hin. apply Ei. rewrite (Hat i l' E Hin). lia.
  - exists (pending_map (base w)). split_and!; [done|done|done|]. intros i l' E.
    destruct (decide (t ∈ l')) as [Hin|Hni]; [|by apply Hsame].
    assert (l' = l) as -> by (rewrite (Hat i l' E Hin) in E; congruence).
    destruct (wf_list _ _ Hw i l E) as [Hnd ->]. f_equal. apply bool_decide_ext.
    rewrite unlink_empty by done. split; [|done]. intros ->. by apply elem_of_nil in Hin.
Qed.

(** The wheel without [t], whatever is recorded in [t] itself. *)
Lemma wf_unlink w t pm ts ex tm :
  wf w -> words pm -> length pm = 9%nat ->
  (forall i l, vectors (base w) !! i = Some l -> bit pm (Z.of_nat i) = negb (bool_decide (unlink t l = []))) ->
  (forall u, u <> t -> ts !! u = timers w !! u) -> ts !! t = Some tm ->
  (pprev tm = false /\ ex = None \/ timers w !! t = Some tm /\ ex = Some t) ->
  let w' := __hlist_del t (set_vectors w pm (vectors (base w))) in
  wf_ex ex (mkWheel (jiffies w') (base w') (heads w') ts).
Proof.
  intros Hw Hpm Hlen Hbits Hts Htm Hex. cbn zeta. set (w1 := set_vectors w pm (vectors (base w))). set (w' := mkWheel _ _ _ ts).
  assert (Hq : forall i u, queued w' i u <-> u <> t /\ queued w i u) by (intros; apply (unlink_queued t w1)).
  assert (Hc : forall u, collected w' u <-> u <> t /\ collected w u) by (intros; apply (unlink_collected t w1)).
  split; change (timers w') with ts.
  - done.
  - cbn. rewrite length_fmap. apply (wf_size _ _ Hw).
  - cbn. rewrite mjoin_unlink. apply NoDup_filter, (wf_heads _ _ Hw).
  - cbn. intros i l El. rewrite list_lookup_fmap in El. destruct (vectors (base w) !! i) as [l0|] eqn:E; [|done].
    injection El as <-. split; [|by apply Hbits]. apply NoDup_filter. by apply (wf_list _ _ Hw i).
  - intros i u [Hne Hu]%Hq. rewrite Hc, Hts by done. destruct (wf_queued _ _ Hw i u Hu) as (Hn&tm'&H). split; [tauto|eauto].
  - intros u [Hne Hu]%Hc. rewrite Hts by done. by apply (wf_collected _ _ Hw).
  - intros u tm' Hu Hp He. destruct (decide (u = t)) as [->|Hne].
    { destruct Hex as [[Hf ->]|[_ ->]]; congruence. }
    rewrite Hts in Hu by done. destruct (wf_pending _ _ Hw u tm' Hu Hp) as [H|(i&H)]; [done|left; by apply Hc|].
    right. exists i. by apply Hq.
  - intros u tm' Hu Hp. destruct (decide (u = t)) as [->|Hne].
    + destruct Hex as [[Hf _]|[Hold _]]; [congruence|]. apply (wf_range _ _ Hw t); congruence.
    + rewrite Hts in Hu by done. by apply (wf_range _ _ Hw u).
  - intros u ->. destruct Hex as [[_ ?]|[_ [= ->]]]; [done|]. split; [rewrite Hc; tauto|intros i; rewrite Hq; tauto].
Qed.

(** * What an operation on one timer leaves alone *)

Record touches (t : nat) (w w' : wheel) : Prop := {
  to_time : same_time w w';
  to_others : forall u, u <> t -> timers w' !! u = timers w !! u;
  to_queued : forall i u, u <> t -> queued w' i u -> queued w i u;
  to_heads : Forall2 sublist (heads w') (heads w);
}.

Lemma touches_refl t w : touches t w w.
Proof. by split. Qed.
Lemma touches_trans t w1 w2 w3 : touches t w1 w2 -> touches t w2 w3 -> touches t w1 w3.
Proof.
  intros [(T1&T2&T3) O1 Q1 H1] [(U1&U2&U3) O2 Q2 H2]. split.
  - split_and!; congruence.
  - intros u Hu. rewrite O2, O1 by done. done.
  - eauto.
  - by transitivity (heads w2).
Qed.
Lemma heads_sublist_elem (hs hs' : list (list nat)) u : Forall2 sublist hs' hs -> u ∈ mjoin hs' -> u ∈ mjoin hs.
Proof.
  intros H. induction H as [|l' l hs' hs Hs _ IH]; [done|].
  change (u ∈ l' ++ mjoin hs' -> u ∈ l ++ mjoin hs). rewrite !elem_of_app.
  intros [Hu|Hu]; [left; by eapply elem_of_sublist|auto].
Qed.
Lemma touches_collected t w w' u : touches t w w' -> collected w' u -> collected w u.
Proof. intros H. apply heads_sublist_elem, H. Qed.

(** * The operations *)

Definition cleared (tm : timer_list) : timer_list := mkTimer false (expires tm) (function tm) (flags tm).

Lemma unlink_heads t hs : Forall2 sublist (unlink t <$> hs) hs.
Proof. induction hs as [|l hs IH]; [constructor|]. constructor; [apply sublist_filter|done]. Qed.

Lemma detach_if_pending_spec t clear w tm :
  wf w -> timers w !! t = Some tm -> pprev tm = true ->
  exists w', detach_if_pending t clear w = Ret (w', 1) /\ wf_ex (if clear then None else Some t) w' /\ touches t w w'
    /\ (~ collected w' t /\ forall i, ~ queued w' i t) /\ timers w' !! t = Some (if clear then cleared tm else tm).
Proof.
  intros Hw Ht Hp. unfold detach_if_pending, timer_at. rewrite Ht. cbn [res_bind]. unfold timer_pending. rewrite Hp.
  destruct (vector_at_ok _ w _ Hw (wf_range _ _ Hw t tm Ht Hp)) as (l&->&El). cbn [negb res_bind].
  destruct (detach_map w t tm l _ Hw Ht Hp eq_refl El) as (pm&->&Hpm&Hlen&Hbits). cbn [res_bind].
  unfold detach_timer, timer_at. set (w1 := set_vectors w pm _).
  replace (timers (__hlist_del t w1) !! t) with (Some tm) by done. cbn [res_bind]. eexists. split; [done|].
  assert (Hoff : ~ collected (__hlist_del t w1) t /\ forall i, ~ queued (__hlist_del t w1) i t).
  { split; [rewrite unlink_collected|intros i; rewrite unlink_queued]; tauto. }
  destruct clear.
  - split; [|split_and!].
    + eapply (wf_unlink w t pm (<[t := cleared tm]> (timers w)) None); try done.
      * intros u Hu. by rewrite lookup_insert_ne by done.
      * apply lookup_insert_eq.
      * by left.
    + split; [done| | |apply unlink_heads].
      * intros u Hu. apply lookup_insert_ne. done.
      * intros i u Hu Hq. by apply (unlink_queued t w1) in Hq as [_ Hq].
    + apply Hoff.
    + intros i. apply (proj2 Hoff i).
    + apply lookup_insert_eq.
  - split; [|split_and!; [|apply Hoff|apply Hoff|done]].
    + apply (wf_unlink w t pm (timers w) (Some t) tm); try done. by right.
    + split; [done|done| |apply unlink_heads]. intros i u Hu Hq. by apply (unlink_queued t w1) in Hq as [_ Hq].
Qed.

Section Link.
Context (t : nat) (idx : Z) (w : wheel) (l : list nat) (pm : list Z) (tm' : timer_list).
Hypothesis Hw : wf_ex (Some t) w.
Hypothesis Hi : 0 <= idx < WHEEL_SIZE.
Hypothesis El : vectors (base w) !! Z.to_nat idx = Some l.
Hypothesis Hpm : words pm /\ length pm = 9%nat.
Hypothesis Hb : forall i, 0 <= i -> bit pm i = (i =? idx) || bit (pending_map (base w)) i.
Hypothesis Htm' : pprev tm' = true /\ timer_get_idx tm' = idx.
Let w' := set_timer (set_vectors w pm (<[Z.to_nat idx := hlist_add_head t l]> (vectors (base w)))) t tm'.

Lemma link_queued i u : queued w' i u <-> (i = Z.to_nat idx /\ u = t) \/ queued w i u.
Proof using El.
  assert (Hlt : (Z.to_nat idx < length (vectors (base w)))%nat) by (by apply lookup_lt_Some in El).
  unfold queued. cbn. destruct (decide (i = Z.to_nat idx)) as [->|Hne].
  - rewrite list_lookup_insert_eq by done. unfold hlist_add_head. split.
    + intros (l'&[= <-]&[->|Hu]%elem_of_cons); eauto.
    + intros [[_ ->]|(l'&E&Hu)]; (eexists; split; [done|]; apply elem_of_cons); [by left|right; congruence].
  - rewrite list_lookup_insert_ne by done. split; [by right|by intros [[-> _]|H]].
Qed.
Lemma link_others u : u <> t -> timers w' !! u = timers w !! u.
Proof using. intros. by apply lookup_insert_ne. Qed.
Lemma link_self : timers w' !! t = Some tm'.
Proof using. apply lookup_insert_eq. Qed.

Lemma link_list i l' :
  vectors (base w') !! i = Some l' -> NoDup l' /\ bit pm (Z.of_nat i) = negb (bool_decide (l' = [])).
Proof using Hw Hi El Hpm Hb Htm'.
  assert (Hlt : (Z.to_nat idx < length (vectors (base w)))%nat) by (by apply lookup_lt_Some in El).
  cbn. intros E. rewrite Hb by lia. destruct (decide (i = Z.to_nat idx)) as [->|Hne].
  - rewrite list_lookup_insert_eq in E by done. injection E as <-. rewrite Z2Nat.id by lia.
    destruct (wf_list _ _ Hw _ l El) as [Hnd _]. rewrite Z.eqb_refl. split; [|done].
    apply NoDup_cons. split; [|done]. intros Hin. apply (proj2 (wf_except _ _ Hw t eq_refl) (Z.to_nat idx)). by exists l.
  - rewrite list_lookup_insert_ne in E by done. replace (Z.of_nat i =? idx) with false by lia. by apply (wf_list _ _ Hw).
Qed.

Lemma wf_link : wf w'.
Proof using Hw Hi El Hpm Hb Htm'.
  destruct (wf_except _ _ Hw t eq_refl) as [Hnc Hnq]. split.
  - done.
  - cbn. rewrite length_insert. apply (wf_size _ _ Hw).
  - apply (wf_heads _ _ Hw).
  - apply link_list.
  - intros i u [[-> ->]|Hu]%link_queued.
    + split; [done|]. rewrite link_self. exists tm'. split_and!; [done|by apply Htm'|]. rewrite (proj2 Htm'). lia.
    + destruct (wf_queued _ _ Hw i u Hu) as (Hn&tmu&Hu'&H). split; [done|]. exists tmu.
      rewrite link_others; [done|]. intros ->. by apply (Hnq i).
  - intros u Hu. destruct (decide (u = t)) as [->|Hne]; [done|]. rewrite link_others by done. by apply (wf_collected _ _ Hw).
  - intros u tmu Hu Hp _. destruct (decide (u = t)) as [->|Hne]; [right; exists (Z.to_nat idx); apply link_queued; auto|].
    rewrite link_others in Hu by done. destruct (wf_pending _ _ Hw u tmu Hu Hp) as [H|(i&H)]; [congruence|by left|].
    right. exists i. apply link_queued. auto.
  - intros u tmu Hu Hp. destruct (decide (u = t)) as [->|Hne].
    + rewrite link_self in Hu. injection Hu as <-. rewrite (proj2 Htm'). done.
    + rewrite link_others in Hu by done. by apply (wf_range _ _ Hw u).
  - done.
Qed.
End Link.

Lemma enqueue_timer_spec t idx w tm :
  wf_ex (Some t) w -> timers w !! t = Some tm -> 0 <= idx < WHEEL_SIZE ->
  exists w' tm', enqueue_timer t idx w = Ret w' /\ wf w' /\ touches t w w'
    /\ timers w' !! t = Some tm' /\ expires tm' = expires tm /\ function tm' = function tm
    /\ pprev tm' = true /\ ~ collected w' t /\ forall i, queued w' i t -> Z.of_nat i = idx.
Proof.
  intros Hw Ht Hi. unfold enqueue_timer. destruct (vector_at_ok _ w _ Hw Hi) as (l&->&El). cbn [res_bind].
  destruct (wf_map _ _ Hw) as [Hpm Hlen]. destruct (wf_except _ _ Hw t eq_refl) as [Hnc Hnq].
  destruct (set_bit_spec _ _ Hpm (idx_in_map _ _ _ Hw Hi)) as (pm&->&Hpm'&Hl'&Hb). cbn [res_bind].
  unfold timer_at. rewrite Ht. cbn [res_bind]. set (tm' := timer_set_idx _ idx).
  assert (Hidx : timer_get_idx tm' = idx) by (apply timer_get_set_idx; change WHEEL_SIZE with 576 in Hi; lia).
  eexists _, tm'. split; [done|]. split_and!; try done.
  - apply wf_link; try done. split; [done|congruence].
  - split; [done| | |exact (to_heads _ _ _ (touches_refl t w))].
    + intros u Hu. by apply link_others.
    + intros i u Hu [[_ ->]|H]%(link_queued t idx w l pm tm' El); done.
  - apply link_self.
  - intros i [[-> _]|H]%(link_queued t idx w l pm tm' El); [lia|]. by apply Hnq in H.
Qed.

(** * Clocks and contents *)

(** [clk] is the next clock to be processed, so the lists in [heads] are those of
    clock [clk - 1]; an expiry time is an unsigned long, and a pending timer has a function. *)
Record sane (w : wheel) : Prop := {
  sa_clock : 0 <= clk (base w) <= jiffies w + 1 /\ jiffies w + 1 < 2 ^ 63;
  sa_expires : forall t tm, timers w !! t = Some tm -> 0 <= expires tm < two64;
  sa_function : forall t tm, timers w !! t = Some tm -> pprev tm = true -> function tm <> 0;
}.

Lemma sane_touch t w w' :
  sane w -> touches t w w' ->
  (forall tm, timers w' !! t = Some tm -> 0 <= expires tm < two64 /\ (pprev tm = true -> function tm <> 0)) -> sane w'.
Proof.
  intros [Hc He Hf] [(Ej&Ec&_) Ho _ _] Ht. split.
  - rewrite Ej, Ec. done.
  - intros u tm Hu. destruct (decide (u = t)) as [->|Hne]; [by apply Ht|]. rewrite Ho in Hu by done. eauto.
  - intros u tm Hu. destruct (decide (u = t)) as [->|Hne]; [by apply Ht|]. rewrite Ho in Hu by done. eauto.
Qed.

Definition with_expires (tm : timer_list) (e : Z) : timer_list := mkTimer (pprev tm) e (function tm) (flags tm).

Lemma set_expires_spec ex t e w tm :
  wf_ex ex w -> timers w !! t = Some tm ->
  let w' := set_timer w t (with_expires tm e) in
  set_expires t e w = Ret w' /\ wf_ex ex w' /\ touches t w w' /\ timers w' !! t = Some (with_expires tm e).
Proof.
  intros Hw Ht. cbn zeta. set (w' := set_timer w t _).
  assert (Hts : forall u, u <> t -> timers w' !! u = timers w !! u) by (intros; by apply lookup_insert_ne).
  assert (Htt : timers w' !! t = Some (with_expires tm e)) by apply lookup_insert_eq.
  assert (Hrec : forall u tmu, timers w' !! u = Some tmu ->
    exists tm0, timers w !! u = Some tm0 /\ pprev tm0 = pprev tmu /\ timer_get_idx tm0 = timer_get_idx tmu).
  { intros u tmu Hu. destruct (decide (u = t)) as [->|Hne]; [|rewrite Hts in Hu by done; eauto].
    rewrite Htt in Hu. injection Hu as <-. exists tm. done. }
  assert (Hrec' : forall u tm0, timers w !! u = Some tm0 ->
    exists tmu, timers w' !! u = Some tmu /\ pprev tm0 = pprev tmu /\ timer_get_idx tm0 = timer_get_idx tmu).
  { intros u tm0 Hu. destruct (decide (u = t)) as [->|Hne]; [|rewrite <- Hts in Hu by done; eauto].
    rewrite Ht in Hu. injection Hu as <-. eexists. split; [apply Htt|]. done. }
  split_and!.
  - unfold set_expires, timer_at. by rewrite Ht.
  - split; try apply Hw.
    + intros i u Hu. destruct (wf_queued _ _ Hw i u Hu) as (Hn&tm0&Hu0&Hp&Hi). split; [done|].
      destruct (Hrec' u tm0 Hu0) as (tmu&->&Ep&Ei). exists tmu. split_and!; [done|congruence|congruence].
    + intros u Hu. destruct (wf_collected _ _ Hw u Hu) as (tm0&Hu0&Hp).
      destruct (Hrec' u tm0 Hu0) as (tmu&->&Ep&Ei). exists tmu. split; [done|congruence].
    + intros u tmu Hu Hp. destruct (Hrec u tmu Hu) as (tm0&Hu0&Ep&_). apply (wf_pending _ _ Hw u tm0); [done|congruence].
    + intros u tmu Hu Hp. destruct (Hrec u tmu Hu) as (tm0&Hu0&Ep&<-). apply (wf_range _ _ Hw u tm0); [done|congruence].
  - by split.
  - done.
Qed.

(** What arming [t], whose function is [f], for [e] gives. *)
Definition armed (t : nat) (f e : Z) (w w' : wheel) : Prop :=
  wf w' /\ sane w' /\ touches t w w'
  /\ exists tm, timers w' !! t = Some tm /\ pprev tm = true /\ expires tm = e /\ function tm = f.
(** [t] expires at [e] and is in the bucket for that. *)
Definition in_bucket (t : nat) (e : Z) (w : wheel) : Prop :=
  ~ collected w t /\ (forall i, queued w i t -> Z.of_nat i = calc_wheel_index e (clk (base w)))
  /\ forall tm, timers w !! t = Some tm -> expires tm = e.

Lemma enqueue_armed t e idx w0 w tm :
  wf_ex (Some t) w -> sane w0 -> touches t w0 w -> timers w !! t = Some tm -> expires tm = e -> function tm <> 0 ->
  0 <= e < two64 -> idx = calc_wheel_index e (clk (base w)) ->
  exists w', enqueue_timer t idx w = Ret w' /\ armed t (function tm) e w0 w' /\ in_bucket t e w'.
Proof.
  intros Hw Hsa Hto Ht He Hf Hr ->.
  destruct (enqueue_timer_spec t _ w tm Hw Ht (calc_wheel_index_range e (clk (base w)) Hr))
    as (w'&tm'&E&Hw'&Hto'&Ht'&Ee&Ef&Hp&Hnc&Hq).
  pose proof (touches_trans _ _ _ _ Hto Hto') as Hto2. exists w'. split; [done|].
  assert (Hthe : forall tm2, timers w' !! t = Some tm2 -> tm2 = tm') by (intros; congruence). split.
  - split_and!; try done; [|exists tm'; split_and!; congruence].
    apply (sane_touch t w0); [done|done|]. intros tm2 ->%Hthe. rewrite Ee, Ef, He. done.
  - split_and!; [done| |intros tm2 ->%Hthe; congruence]. intros i Hi. destruct Hto' as [(_&->&_) _ _ _]. by apply Hq.
Qed.

(** An operation that leaves [t] unarmed or as it was. *)
Definition settled (t : nat) (w w' : wheel) : Prop := wf w' /\ sane w' /\ touches t w w' /\ is_Some (timers w' !! t).

Lemma settled_refl t w : wf w -> sane w -> is_Some (timers w !! t) -> settled t w w.
Proof. intros. by split_and!. Qed.
Lemma armed_settled t f e w w' : armed t f e w w' -> settled t w w'.
Proof. intros (?&?&?&tm&Ht&_). split_and!; eauto. Qed.

(** The part of [__mod_timer] after the optimisation. *)
Lemma mod_requeue_spec t e options idx w tm :
  wf w -> sane w -> timers w !! t = Some tm -> function tm <> 0 -> 0 <= e < two64 ->
  (forall i, idx = Some i -> i = calc_wheel_index e (clk (base w))) ->
  exists w', mod_requeue t e options idx w = Ret (w', if pprev tm then 1 else 0)
    /\ if negb (pprev tm) && negb (Z.land options MOD_TIMER_PENDING_ONLY =? 0) then w' = w
       else armed t (function tm) e w w' /\ in_bucket t e w'.
Proof.
  intros Hw Hsa Ht Hf Hr Hidx. unfold mod_requeue.
  assert (exists w1, detach_if_pending t false w = Ret (w1, if pprev tm then 1 else 0) /\ wf_ex (Some t) w1
            /\ touches t w w1 /\ timers w1 !! t = Some tm /\ (pprev tm = false -> w1 = w)) as (w1&->&Hw1&Hto&Ht1&Hsame).
  { destruct (pprev tm) eqn:Hp.
    - destruct (detach_if_pending_spec t false w tm Hw Ht Hp) as (w1&E&Hw1&Hto&_&Ht1). exists w1. done.
    - exists w. split_and!; [|apply wf_spare; [done|congruence]|apply touches_refl|done|done].
      unfold detach_if_pending, timer_at. rewrite Ht. cbn [res_bind]. unfold timer_pending. by rewrite Hp. }
  cbn [res_bind]. destruct (negb (pprev tm) && negb (Z.land options MOD_TIMER_PENDING_ONLY =? 0)) eqn:Eb.
  { destruct (pprev tm); [done|]. cbn [negb andb] in *. rewrite Eb. cbn. exists w1. auto. }
  replace ((if pprev tm then 1 else 0) =? 0) with (negb (pprev tm)) by by destruct (pprev tm). rewrite Eb.
  destruct (set_expires_spec _ t e w1 tm Hw1 Ht1) as (->&Hw2&Hto2&Ht2). cbn [res_bind].
  set (w2 := set_timer w1 t _) in *. pose proof (touches_trans _ _ _ _ Hto Hto2) as Hto3.
  assert (Ec : clk (base w2) = clk (base w)) by apply Hto3.
  destruct (enqueue_armed t e (calc_wheel_index e (clk (base w2))) w w2 _ Hw2 Hsa Hto3 Ht2 eq_refl Hf Hr eq_refl) as (w'&E&Ha).
  exists w'. split; [|done]. destruct idx as [i|].
  - rewrite (Hidx i eq_refl), <- Ec, E. done.
  - unfold internal_add_timer, timer_at. rewrite Ht2. cbn [res_bind expires with_expires]. rewrite E. done.
Qed.

(** The comparisons of [__mod_timer]. *)
Lemma expires_same a b : 0 <= a < two64 -> 0 <= b < two64 -> s64 (a - b) = 0 -> a = b.
Proof.
  intros Ha Hb. unfold s64, w64, two64 in *. divmod (a - b) 18446744073709551616.
  case_cmp; lia.
Qed.
Lemma later_before a b : 0 < s64 (a - b) -> s64 (b - a) < 0.
Proof.
  unfold s64, w64, two64. divmod (a - b) 18446744073709551616. divmod (b - a) 18446744073709551616.
  repeat case_cmp; lia.
Qed.

(** The expiry time that [__mod_timer] leaves: [timer_reduce] never moves it back. *)
Definition new_expires (tm : timer_list) (e options : Z) : Z :=
  if pprev tm && negb (Z.land options MOD_TIMER_REDUCE =? 0) && (s64 (expires tm - e) <=? 0) then expires tm else e.
(** Where the timer is then: where it was, in the bucket of [e], or still on its way to be
    called, because the bucket it was taken from has the number of the new one. *)
Definition placed (t : nat) (e : Z) (w w' : wheel) : Prop :=
  w' = w \/ in_bucket t e w'
  \/ (collected w t /\ forall tm, timers w !! t = Some tm -> calc_wheel_index e (clk (base w)) = timer_get_idx tm).

(** Changing the expiry time of a timer within its bucket. *)
Lemma set_expires_armed t e w tm :
  wf w -> sane w -> timers w !! t = Some tm -> pprev tm = true -> 0 <= e < two64 ->
  calc_wheel_index e (clk (base w)) = timer_get_idx tm ->
  exists w', set_expires t e w = Ret w' /\ armed t (function tm) e w w' /\ placed t e w w'.
Proof.
  intros Hw Hsa Ht Hp Hr Ei. destruct (set_expires_spec _ t e w tm Hw Ht) as (->&Hw'&Hto&Ht').
  eexists. split; [done|]. split.
  - split_and!; [done| |done|by exists (with_expires tm e)]. apply (sane_touch t w); [done|done|].
    intros tm2 H2. rewrite Ht' in H2. injection H2 as <-. split; [done|]. intros _. exact (sa_function w Hsa t tm Ht Hp).
  - right. destruct (wf_pending _ _ Hw t tm Ht Hp) as [Hc|(i&Hq)]; [done| |].
    + right. split; [done|]. congruence.
    + destruct (wf_queued _ _ Hw i t Hq) as (Hnc&tm0&Ht0&_&Ei0). left. split_and!; [done| |].
      * intros j Hj. destruct (wf_queued _ _ Hw j t Hj) as (_&tm1&Ht1&_&Ej). cbn. congruence.
      * intros tm2 H2. rewrite Ht' in H2. by injection H2 as <-.
Qed.

Lemma mod_pending_spec t tm e options w :
  wf w -> sane w -> timers w !! t = Some tm -> pprev tm = true -> 0 <= e < two64 ->
  match mod_pending t tm e options w with
  | inl r => exists w', r = Ret (w', 1) /\ armed t (function tm) (new_expires tm e options) w w' /\ placed t e w w'
  | inr idx => idx = calc_wheel_index e (clk (base w)) /\ new_expires tm e options = e
  end.
Proof.
  intros Hw Hsa Ht Hp Hr. pose proof (sa_expires w Hsa t tm Ht) as Hx.
  assert (Hkeep : forall x, x = expires tm -> armed t (function tm) x w w /\ placed t e w w).
  { intros x ->. split; [|by left]. split_and!; [done|done|apply touches_refl|by exists tm]. }
  unfold mod_pending, new_expires. rewrite Hp. cbn [andb].
  destruct (Z.eqb_spec (s64 (expires tm - e)) 0) as [Ed|Ed].
  { exists w. split; [done|]. apply Hkeep. destruct (_ && _); [done|]. symmetry. by apply expires_same. }
  assert (Hset : calc_wheel_index e (clk (base w)) = timer_get_idx tm -> exists w', (let* w := set_expires t e w in Ret (w, 1)) = Ret (w', 1)
            /\ armed t (function tm) e w w' /\ placed t e w w').
  { intros Ei. destruct (set_expires_armed t e w tm Hw Hsa Ht Hp Hr Ei) as (w'&->&Ha). by exists w'. }
  destruct (Z.land options MOD_TIMER_REDUCE =? 0); cbn [negb andb].
  - rewrite andb_false_r. cbn [andb]. case_cmp; [auto|done].
  - destruct (Z.leb_spec (s64 (expires tm - e)) 0); [exists w; split; [done|by apply Hkeep]|].
    pose proof (later_before (expires tm) e ltac:(done)). rewrite andb_true_r. unfold time_before_eq, time_after_eq, time_after.
    replace (0 <=? s64 (e - expires tm)) with false by lia. rewrite andb_false_r.
    replace (s64 (e - expires tm) <? 0) with true by lia. case_cmp; [auto|done].
Qed.

Lemma __mod_timer_spec t e options w tm :
  wf w -> sane w -> timers w !! t = Some tm -> function tm <> 0 -> 0 <= e < two64 ->
  exists w', __mod_timer t e options w = Ret (w', if pprev tm then 1 else 0) /\ placed t e w w'
    /\ if negb (pprev tm) && negb (Z.land options MOD_TIMER_PENDING_ONLY =? 0) then w' = w
       else armed t (function tm) (new_expires tm e options) w w'.
Proof.
  intros Hw Hsa Ht Hf Hr.
  assert (Hrest : forall idx, (forall i, idx = Some i -> i = calc_wheel_index e (clk (base w))) -> new_expires tm e options = e ->
    exists w', mod_requeue t e options idx w = Ret (w', if pprev tm then 1 else 0) /\ placed t e w w'
      /\ if negb (pprev tm) && negb (Z.land options MOD_TIMER_PENDING_ONLY =? 0) then w' = w
         else armed t (function tm) (new_expires tm e options) w w').
  { intros idx Hidx ->. destruct (mod_requeue_spec t e options idx w tm Hw Hsa Ht Hf Hr Hidx) as (w'&->&H). exists w'.
    split; [done|]. destruct (negb (pprev tm) && _); [split; [by left|done]|].
    destruct H as [Ha Hb]. split; [right; by left|done]. }
  unfold __mod_timer, timer_at. rewrite Ht. cbn [res_bind]. replace (function tm =? 0) with false by lia.
  unfold timer_pending. destruct (pprev tm) eqn:Hp.
  2: { apply Hrest; [done|]. unfold new_expires. by rewrite Hp. }
  pose proof (mod_pending_spec t tm e options w Hw Hsa Ht Hp Hr) as Hm.
  destruct (mod_pending t tm e options w) as [r|idx].
  - destruct Hm as (w'&->&Ha&Hpl). by exists w'.
  - destruct Hm as [-> Hn]. apply Hrest; [by intros i [= <-]|done].
Qed.

Lemma mod_settled t e options w tm w' :
  wf w -> sane w -> timers w !! t = Some tm ->
  (if negb (pprev tm) && negb (Z.land options MOD_TIMER_PENDING_ONLY =? 0) then w' = w
   else armed t (function tm) (new_expires tm e options) w w') -> settled t w w'.
Proof. intros Hw Hsa Ht. destruct (_ && _); [intros ->; apply settled_refl; eauto|apply armed_settled]. Qed.

Lemma del_spec t w tm :
  wf w -> sane w -> timers w !! t = Some tm ->
  exists w', detach_if_pending t true w = Ret (w', if pprev tm then 1 else 0) /\ settled t w w'
    /\ timers w' !! t = Some (if pprev tm then cleared tm else tm)
    /\ ~ collected w' t /\ forall i, ~ queued w' i t.
Proof.
  intros Hw Hsa Ht. destruct (pprev tm) eqn:Hp.
  - destruct (detach_if_pending_spec t true w tm Hw Ht Hp) as (w'&->&Hw'&Hto&(Hnc&Hnq)&Ht'). exists w'.
    split; [done|]. split; [|done]. split_and!; [done| |done|by eexists]. apply (sane_touch t w); try done.
    intros tm' H'. rewrite Ht' in H'. injection H' as <-. split; [exact (sa_expires w Hsa t tm Ht)|done].
  - exists w. unfold detach_if_pending, timer_at. rewrite Ht. cbn [res_bind]. unfold timer_pending. rewrite Hp.
    split; [done|]. destruct (wf_except _ _ (wf_spare w t Hw ltac:(congruence)) t eq_refl) as [Hnc Hnq].
    split; [|done]. apply settled_refl; eauto.
Qed.
Lemma del_timer_eq t w tm : timers w !! t = Some tm -> del_timer t w = detach_if_pending t true w.
Proof.
  intros Ht. unfold del_timer, detach_if_pending, timer_at. rewrite Ht. cbn [res_bind]. by destruct (timer_pending tm).
Qed.

(** * Calls of the interface *)

(** What a caller must see to, as the BUG_ONs and the types have it: timers are set up before
    they are used and not while pending, only timers with a function are armed, [add_timer]
    and [add_timer_on] are for timers that are not pending, and an expiry time is an unsigned
    long. *)
Definition idle_timer (t : nat) (w : wheel) : Prop := forall tm, timers w !! t = Some tm -> pprev tm = false.
Definition armable (t : nat) (e : Z) (w : wheel) : Prop :=
  0 <= e < two64 /\ exists tm, timers w !! t = Some tm /\ function tm <> 0.
Definition legal (o : op) (w : wheel) : Prop :=
  match o with
  | Setup t _ _ => idle_timer t w
  | Mod t e | ModPending t e | Reduce t e => armable t e w
  | Add t e | AddOn t e => armable t e w /\ idle_timer t w
  | Del t | TryDel t => is_Some (timers w !! t)
  end.
Definition op_timer (o : op) : nat :=
  match o with
  | Setup t _ _ | Mod t _ | ModPending t _ | Reduce t _ | Add t _ | AddOn t _ | Del t | TryDel t => t
  end.
(** The expiry time a call sets. *)
Definition op_expires (o : op) : option Z :=
  match o with
  | Mod _ e | ModPending _ e | Reduce _ e | Add _ e | AddOn _ e => Some e
  | _ => None
  end.

Lemma setup_spec t func fl w :
  wf w -> sane w -> idle_timer t w ->
  let w' := do_init_timer t func fl w in settled t w w' /\ ~ collected w' t /\ forall i, ~ queued w' i t.
Proof.
  intros Hw Hsa Hid. cbn zeta. set (w' := do_init_timer t func fl w).
  assert (Hto : touches t w w').
  { split; [done| |done|exact (to_heads _ _ _ (touches_refl t w))]. intros u Hu. by apply lookup_insert_ne. }
  assert (Htt : timers w' !! t = Some (mkTimer false (from_option expires 0 (timers w !! t)) func fl)) by apply lookup_insert_eq.
  destruct (wf_except _ _ (wf_spare w t Hw Hid) t eq_refl) as [Hnc Hnq].
  assert (Hw' : wf w').
  { split; try apply Hw.
    - intros i u Hu. destruct (wf_queued _ _ Hw i u Hu) as (Hn&tmu&Hu'&H). split; [done|]. exists tmu.
      rewrite (to_others _ _ _ Hto); [done|]. intros ->. by apply (Hnq i).
    - intros u Hu. rewrite (to_others _ _ _ Hto); [by apply (wf_collected _ _ Hw)|]. by intros ->.
    - intros u tmu Hu Hp. destruct (decide (u = t)) as [->|Hne]; [rewrite Htt in Hu; injection Hu as <-; done|].
      rewrite (to_others _ _ _ Hto) in Hu by done. by apply (wf_pending _ _ Hw u tmu).
    - intros u tmu Hu Hp. destruct (decide (u = t)) as [->|Hne]; [rewrite Htt in Hu; injection Hu as <-; done|].
      rewrite (to_others _ _ _ Hto) in Hu by done. by apply (wf_range _ _ Hw u). }
  split; [|done]. split_and!; [done| |done|by eexists]. apply (sane_touch t w); try done. intros tm E. rewrite Htt in E.
  injection E as <-. split; [|done]. cbn. destruct (timers w !! t) as [tm0|] eqn:E0; [exact (sa_expires w Hsa t tm0 E0)|done].
Qed.

Lemma settled_trans t w1 w2 w3 : settled t w1 w2 -> settled t w2 w3 -> settled t w1 w3.
Proof. intros (?&?&?&?) (?&?&?&?). split_and!; try done. by eapply touches_trans. Qed.

(** Setting the expiry time of a timer that is not pending. *)
Lemma set_expires_idle t e w tm :
  wf w -> sane w -> timers w !! t = Some tm -> pprev tm = false -> 0 <= e < two64 ->
  let w' := set_timer w t (with_expires tm e) in
  set_expires t e w = Ret w' /\ settled t w w' /\ timers w' !! t = Some (with_expires tm e).
Proof.
  intros Hw Hsa Ht Hp Hr. cbn zeta. destruct (set_expires_spec _ t e w tm Hw Ht) as (->&Hw'&Hto&Ht').
  split; [done|]. split; [|done]. split_and!; [done| |done|by eexists]. apply (sane_touch t w); try done.
  intros tm' E. rewrite Ht' in E. injection E as <-. split; [done|]. cbn. congruence.
Qed.

(** [add_timer] and [add_timer_on] for a timer that is not pending. *)
Lemma add_timer_spec t w tm :
  wf w -> sane w -> timers w !! t = Some tm -> pprev tm = false -> function tm <> 0 ->
  (exists w', add_timer t w = Ret w' /\ armed t (function tm) (expires tm) w w' /\ in_bucket t (expires tm) w')
  /\ (exists w', add_timer_on t w = Ret w' /\ armed t (function tm) (expires tm) w w' /\ in_bucket t (expires tm) w').
Proof.
  intros Hw Hsa Ht Hp Hf. pose proof (sa_expires w Hsa t tm Ht) as Hr. split.
  - destruct (mod_requeue_spec t (expires tm) 0 None w tm Hw Hsa Ht Hf Hr) as (w'&E&Ha); [done|].
    exists w'. rewrite Hp in Ha. split; [|done]. unfold add_timer, mod_timer, __mod_timer, timer_at, timer_pending. rewrite Ht.
    cbn [res_bind]. rewrite Hp. cbn [res_bind]. replace (function tm =? 0) with false by lia. rewrite E. by rewrite Hp.
  - assert (Hw1 : wf_ex (Some t) w) by (apply wf_spare; [done|congruence]).
    destruct (enqueue_armed t (expires tm) _ w w tm Hw1 Hsa (touches_refl t w) Ht eq_refl Hf Hr eq_refl) as (w'&E&Ha).
    exists w'. split; [|done]. unfold add_timer_on, internal_add_timer, timer_at, timer_pending. rewrite Ht. cbn [res_bind].
    rewrite Hp. replace (function tm =? 0) with false by lia. cbn [orb]. done.
Qed.

(** Where a call leaves its timer: off the lists, or as [placed] says. *)
Definition left_by (o : op) (w w' : wheel) : Prop :=
  (~ collected w' (op_timer o) /\ forall i, ~ queued w' i (op_timer o))
  \/ w' = w \/ exists e, op_expires o = Some e /\ placed (op_timer o) e w w'.

Lemma run_mod_spec t e options w :
  wf w -> sane w -> armable t e w ->
  exists w', res_map fst (__mod_timer t e options w) = Ret w' /\ settled t w w' /\ placed t e w w'.
Proof.
  intros Hw Hsa (Hr&tm&Ht&Hf). destruct (__mod_timer_spec t e options w tm Hw Hsa Ht Hf Hr) as (w'&->&Hpl&Ha).
  exists w'. split_and!; [done|by eapply mod_settled|done].
Qed.
Lemma run_add_spec t e w :
  wf w -> sane w -> armable t e w -> idle_timer t w ->
  (exists w', (let* w1 := set_expires t e w in add_timer t w1) = Ret w' /\ settled t w w' /\ in_bucket t e w')
  /\ (exists w', (let* w1 := set_expires t e w in add_timer_on t w1) = Ret w' /\ settled t w w' /\ in_bucket t e w').
Proof.
  intros Hw Hsa (Hr&tm&Ht&Hf) Hid. pose proof (Hid tm Ht) as Hp.
  destruct (set_expires_idle t e w tm Hw Hsa Ht Hp Hr) as (->&Hs&Ht1). cbn [res_bind]. pose proof Hs as (Hw1&Hsa1&_).
  destruct (add_timer_spec t _ _ Hw1 Hsa1 Ht1) as [(w1&->&Ha1&Hb1) (w2&->&Ha2&Hb2)]; [done|done|].
  split; eexists; (split; [done|]); (split; [|done]); eapply settled_trans; try done; by eapply armed_settled.
Qed.

(** No legal call faults, and each preserves the invariants. *)
Lemma run_op_spec o w :
  wf w -> sane w -> legal o w -> exists w', run_op o w = Ret w' /\ settled (op_timer o) w w' /\ left_by o w w'.
Proof.
  intros Hw Hsa Hb. unfold left_by. destruct o as [t func fl|t e|t e|t e|t e|t e|t|t]; cbn [run_op op_timer op_expires legal] in *.
  - eexists. split; [done|]. destruct (setup_spec t func fl w Hw Hsa Hb) as [? ?]. split; [done|by left].
  - destruct (run_mod_spec t e 0 w Hw Hsa Hb) as (w'&?&?&?). exists w'. split_and!; try done. right. right. by exists e.
  - destruct (run_mod_spec t e MOD_TIMER_PENDING_ONLY w Hw Hsa Hb) as (w'&?&?&?). exists w'. split_and!; try done. right. right. by exists e.
  - destruct (run_mod_spec t e MOD_TIMER_REDUCE w Hw Hsa Hb) as (w'&?&?&?). exists w'. split_and!; try done. right. right. by exists e.
  - destruct Hb as [Hok Hid]. destruct (run_add_spec t e w Hw Hsa Hok Hid) as [(w'&?&?&?) _]. exists w'.
    split_and!; try done. right. right. exists e. split; [done|]. right. by left.
  - destruct Hb as [Hok Hid]. destruct (run_add_spec t e w Hw Hsa Hok Hid) as [_ (w'&?&?&?)]. exists w'.
    split_and!; try done. right. right. exists e. split; [done|]. right. by left.
  - destruct Hb as [tm Ht]. destruct (del_spec t w tm Hw Hsa Ht) as (w'&E&Hs&_&Hoff). rewrite (del_timer_eq t w tm Ht), E.
    exists w'. split_and!; [done|done|by left].
  - destruct Hb as [tm Ht]. destruct (del_spec t w tm Hw Hsa Ht) as (w'&E&Hs&_&Hoff).
    unfold try_to_del_timer_sync. case_bool_decide.
    + exists w. split; [done|]. split; [apply settled_refl; eauto|right; by left].
    + rewrite E. exists w'. split_and!; [done|done|by left].
Qed.

(** * Being on time *)

(** At clock [c], bucket [i] is due after the timer's expiry time, and no more than a
    unit of its level later unless it is due at once. *)
Definition due (i : nat) (tm : timer_list) (c : Z) : Prop :=
  0 <= expires tm < 2 ^ 63
  /\ expires tm < bucket_time (Z.of_nat i) c <= Z.max (expires tm + gran (level (Z.of_nat i))) c.
(** Timer [t] is in a bucket that is due in time, or was taken off after its expiry time. *)
Definition on_time (t : nat) (w : wheel) : Prop :=
  forall tm, timers w !! t = Some tm ->
    (forall i, queued w i t -> due i tm (clk (base w))) /\ (collected w t -> 0 <= expires tm < clk (base w) - 1).

(** A call that arms its timer for a time in reach of the wheel, and, if the timer has been
    taken off for expiry, not for the bucket it was taken from. *)
Definition timely (o : op) (w : wheel) : Prop :=
  forall e, op_expires o = Some e ->
    in_reach e (clk (base w))
    /\ forall tm, collected w (op_timer o) -> timers w !! op_timer o = Some tm ->
         calc_wheel_index e (clk (base w)) <> timer_get_idx tm.

Lemma on_time_off t w : ~ collected w t -> (forall i, ~ queued w i t) -> on_time t w.
Proof. intros Hc Hq tm _. split; [|done]. intros i Hi. by apply Hq in Hi. Qed.
Lemma on_time_bucket t e w : in_bucket t e w -> in_reach e (clk (base w)) -> on_time t w.
Proof.
  intros (Hnc&Hq&He) Hr tm Ht. split; [|done]. intros i Hi. unfold due. rewrite (Hq i Hi), (He tm Ht).
  split; [apply Hr|apply calc_wheel_index_due, Hr].
Qed.
Lemma on_time_touch u t w w' : touches u w w' -> u <> t -> on_time t w -> on_time t w'.
Proof.
  intros Hto Hne Hot tm Ht. pose proof Hto as [(_&->&_) Ho Hq _]. rewrite Ho in Ht by done. destruct (Hot tm Ht) as [H1 H2].
  split; [intros i Hi; apply H1; by apply Hq|]. intros Hc. by apply H2, (touches_collected u w w').
Qed.
Lemma on_time_call o t w w' :
  wf w -> settled (op_timer o) w w' -> left_by o w w' -> (op_timer o = t -> timely o w) -> on_time t w -> on_time t w'.
Proof.
  intros Hw (_&_&Hto&_) Hl Hti Hot. destruct (decide (op_timer o = t)) as [<-|Hne]; [|by eapply on_time_touch].
  destruct Hl as [[Hnc Hnq]|[->|(e&He&Hpl)]]; [by apply on_time_off|done|].
  destruct (Hti eq_refl e He) as [Hr Hne]. destruct Hpl as [->|[Hb|[Hc Hidx]]]; [done| |].
  - apply (on_time_bucket _ e); [done|]. by destruct Hto as [(_&->&_) _ _ _].
  - destruct (wf_collected _ _ Hw _ Hc) as (tm&Ht&_). exfalso. apply (Hne tm Hc Ht). by apply Hidx.
Qed.
