(* ===== verification/TimerWheelRun.v ===== *)
(** Expiry: which buckets a clock takes off the wheel, the interleaving of the timer
    softirq with calls of the interface and ticks, and its invariant. *)

From Stdlib Require Import Relation_Operators Wellfounded.
From stdpp Require Import gmap.
From S2P Require Import Prelude FindBit Hweight Bitmap BitmapFacts TimerWheel TimerWheelTime TimerWheelFacts.

(** * Taking one bucket off *)

Section Take.
Context (idx : Z) (w : wheel) (l : list nat) (pm : list Z) (b : bool).
Hypothesis Hw : wf w.
Hypothesis Hi : 0 <= idx < WHEEL_SIZE.
Hypothesis El : vectors (base w) !! Z.to_nat idx = Some l.
Hypothesis Hpm : words pm /\ length pm = 9%nat.
Hypothesis Hb : forall i, 0 <= i -> bit pm i = negb (i =? idx) && bit (pending_map (base w)) i.
Hypothesis Eb : b = bit (pending_map (base w)) idx.
Let w' := if b then set_heads (set_vectors w pm (<[Z.to_nat idx := []]> (vectors (base w)))) (heads w ++ [l])
          else set_vectors w pm (vectors (base w)).

Lemma take_empty : b = false -> l = [].
Proof using Hw Hi El Hpm Hb Eb.
  intros ->. destruct (wf_list _ _ Hw _ _ El) as [_ H]. rewrite Z2Nat.id in H by lia. rewrite <- Eb in H.
  by case_bool_decide.
Qed.
Lemma take_vectors i : vectors (base w') !! i = if decide (i = Z.to_nat idx) then Some [] else vectors (base w) !! i.
Proof using Hw Hi El Hpm Hb Eb.
  assert (Hlt : (Z.to_nat idx < length (vectors (base w)))%nat) by (by apply lookup_lt_Some in El).
  pose proof take_empty as He. unfold w'. destruct b; cbn; destruct (decide _) as [->|Hne].
  - by apply list_lookup_insert_eq.
  - by apply list_lookup_insert_ne.
  - rewrite El. f_equal. by apply He.
  - done.
Qed.
Lemma take_heads : mjoin (heads w') = mjoin (heads w) ++ l.
Proof using Hw Hi El Hpm Hb Eb.
  pose proof take_empty as He. unfold w'. destruct b; cbn; [apply mjoin_snoc|]. by rewrite (He eq_refl), app_nil_r.
Qed.
Lemma take_queued i u : queued w' i u <-> queued w i u /\ i <> Z.to_nat idx.
Proof using Hw Hi El Hpm Hb Eb.
  unfold queued. rewrite take_vectors. destruct (decide _) as [->|Hne]; [|by split; [intros|intros []]].
  split; [|by intros []]. intros (l'&[= <-]&Hu). by apply elem_of_nil in Hu.
Qed.
Lemma take_collected u : collected w' u <-> collected w u \/ queued w (Z.to_nat idx) u.
Proof using Hw Hi El Hpm Hb Eb.
  unfold collected, queued. rewrite take_heads, elem_of_app, El. split; [intros [|]; eauto|].
  intros [|(l'&[= <-]&Hu)]; auto.
Qed.
Lemma take_frame : timers w' = timers w /\ jiffies w' = jiffies w /\ clk (base w') = clk (base w).
Proof using. clear Eb. unfold w'. by destruct b. Qed.
Lemma take_map : pending_map (base w') = pm.
Proof using. clear Eb. unfold w'. by destruct b. Qed.

Lemma wf_take : wf w'.
Proof using Hw Hi El Hpm Hb Eb.
  destruct take_frame as (Ets&_&_). split; rewrite ?take_map, ?Ets.
  - done.
  - unfold w'. destruct b; cbn; rewrite ?length_insert; apply (wf_size _ _ Hw).
  - rewrite take_heads. apply NoDup_app. split_and!; [apply (wf_heads _ _ Hw)| |by apply (wf_list _ _ Hw _ _ El)].
    intros u Hu Hul. by destruct (wf_queued _ _ Hw (Z.to_nat idx) u) as [Hn _]; [exists l|].
  - intros i l'. rewrite take_vectors, Hb by lia. destruct (decide _) as [->|Hne].
    + intros [= <-]. rewrite Z2Nat.id, Z.eqb_refl by lia. split; [constructor|done].
    + intros E. replace (Z.of_nat i =? idx) with false by lia. by apply (wf_list _ _ Hw).
  - intros i u [Hq Hne]%take_queued. destruct (wf_queued _ _ Hw i u Hq) as (Hn&tm&Ht&Hp&Hidx). split; [|eauto].
    intros [|Hq']%take_collected; [done|]. destruct (wf_queued _ _ Hw _ u Hq') as (_&tm'&Ht'&_&Hidx').
    apply Hne. rewrite Ht in Ht'. injection Ht' as <-. lia.
  - intros u [Hu|Hu]%take_collected; [by apply (wf_collected _ _ Hw)|].
    destruct (wf_queued _ _ Hw _ u Hu) as (_&tm&Ht&Hp&_). eauto.
  - intros u tm Hu Hp _. rewrite take_collected. destruct (wf_pending _ _ Hw u tm Hu Hp) as [|(i&Hq)]; [done|auto|].
    destruct (decide (i = Z.to_nat idx)) as [->|Hne]; [auto|]. right. exists i. by apply take_queued.
  - apply (wf_range _ _ Hw).
  - done.
Qed.
End Take.

(** * The buckets a clock looks at *)

Lemma level_gran_visits c j i :
  0 <= j -> level j = i -> c mod gran i = 0 -> visits c j = ((c / gran i) mod 64 =? j mod 64).
Proof. intros Hj <- Hc. unfold visits. rewrite Hc. done. Qed.

Definition seen (i c j : Z) : bool := visits c j && (i <=? level j).

Lemma seen_step i c j :
  0 <= i -> 0 <= j -> c mod gran i = 0 ->
  seen i c j = (j =? (c / gran i) mod 64 + i * 64) || seen (i + 1) c j.
Proof.
  intros Hi Hj Hc. unfold seen. pose proof (Z.mod_pos_bound (c / gran i) 64 eq_refl).
  assert (Hl : level j = i <-> i * 64 <= j < i * 64 + 64) by (unfold level; divmod j 64; lia).
  destruct (Z.eq_dec (level j) i) as [E|E].
  - rewrite (level_gran_visits c j i) by done. replace (i <=? level j) with true by lia.
    replace (i + 1 <=? level j) with false by lia. rewrite andb_true_r, andb_false_r, orb_false_r.
    apply Hl in E. divmod j 64. lia.
  - replace (j =? _) with false by lia. cbn [orb]. f_equal. lia.
Qed.
(** No level above the first one whose clock does not turn over. *)
Lemma seen_stop i c j : 0 <= i -> 0 <= j -> c mod gran i = 0 -> (c / gran i) mod 8 <> 0 -> seen (i + 1) c j = false.
Proof.
  intros Hi Hj Hc Hne. unfold seen. destruct (visits c j) eqn:E; [|done]. cbn [andb]. apply Z.leb_gt.
  apply visits_true in E as (m&Em&_); [|done]. destruct (Z.lt_ge_cases (level j) (i + 1)) as [|Hge]; [done|]. exfalso.
  apply Hne. replace (level j) with (i + 1 + (level j - (i + 1))) in Em by lia.
  unfold gran in Em. rewrite Z.pow_add_r in Em by lia. fold (gran (i + 1)) in Em. rewrite gran_S in Em by done.
  pose proof (gran_pos i Hi). replace c with (8 ^ (level j - (i + 1)) * m * 8 * gran i) by lia.
  rewrite Z.div_mul by lia. apply Z.mod_mul. lia.
Qed.

Lemma test_and_clear_bit_spec nr addr :
  words addr -> 0 <= nr < 64 * Z.of_nat (length addr) ->
  exists addr', test_and_clear_bit nr addr = Ret (bit addr nr, addr') /\ words addr' /\ length addr' = length addr
    /\ forall i, 0 <= i -> bit addr' i = negb (i =? nr) && bit addr i.
Proof.
  intros Hw Hn. unfold test_and_clear_bit. rewrite test_bit_spec by done. cbn [res_bind].
  destruct (clear_bit_spec nr addr Hw Hn) as (addr'&->&H). by exists addr'.
Qed.

(** Nothing but the place of some timers changes. *)
Definition moved (w w' : wheel) : Prop :=
  timers w' = timers w /\ jiffies w' = jiffies w /\ clk (base w') = clk (base w).

Lemma queued_range ex w j u : wf_ex ex w -> queued w j u -> (j < 576)%nat.
Proof. intros Hw (l&E&_). apply lookup_lt_Some in E. by rewrite (wf_size _ _ Hw) in E. Qed.

(** One bucket, whether its pending bit is set or not. *)
Lemma collect_one idx w :
  wf w -> 0 <= idx < WHEEL_SIZE ->
  exists (b : bool) pm l, test_and_clear_bit idx (pending_map (base w)) = Ret (b, pm) /\ vector_at w idx = Ret l
    /\ let w1 := if b then set_heads (set_vectors w pm (<[Z.to_nat idx := []]> (vectors (base w)))) (heads w ++ [l])
                 else set_vectors w pm (vectors (base w)) in
       wf w1 /\ moved w w1 /\ (forall j u, queued w1 j u <-> queued w j u /\ j <> Z.to_nat idx)
       /\ forall u, collected w1 u <-> collected w u \/ queued w (Z.to_nat idx) u.
Proof.
  intros Hw Hidx. destruct (wf_map _ _ Hw) as [Hpm Hlen].
  destruct (test_and_clear_bit_spec _ _ Hpm (idx_in_map _ _ _ Hw Hidx)) as (pm&->&Hpm'&Hlen'&Hb).
  destruct (vector_at_ok _ w _ Hw Hidx) as (l&->&El). rewrite Hlen in Hlen'.
  eexists _, pm, l. do 2 (split; [done|]). split_and!.
  - by apply wf_take.
  - apply take_frame.
  - by apply take_queued.
  - by apply take_collected.
Qed.

(** The first bucket and the rest of the levels together. *)
Lemma seen_compose i c idx w w1 w' :
  (forall j : nat, seen i c (Z.of_nat j) = bool_decide (j = Z.to_nat idx) || seen (i + 1) c (Z.of_nat j)) ->
  (forall j u, queued w1 j u <-> queued w j u /\ j <> Z.to_nat idx) ->
  (forall u, collected w1 u <-> collected w u \/ queued w (Z.to_nat idx) u) ->
  (forall j u, queued w' j u <-> queued w1 j u /\ seen (i + 1) c (Z.of_nat j) = false) ->
  (forall u, collected w' u <-> collected w1 u \/ exists j, queued w1 j u /\ seen (i + 1) c (Z.of_nat j) = true) ->
  (forall j u, queued w' j u <-> queued w j u /\ seen i c (Z.of_nat j) = false)
  /\ (forall u, collected w' u <-> collected w u \/ exists j, queued w j u /\ seen i c (Z.of_nat j) = true).
Proof.
  intros Hseen Hq1 Hc1 Hq Hcol. split.
  - intros j u. rewrite Hq, Hq1, Hseen. case_bool_decide; cbn; [|tauto]. split; [tauto|by intros [_ ?]].
  - intros u. rewrite Hcol, Hc1. split.
    + intros [[H|H]|(j&[Hj Hne]%Hq1&Hs)]; [by left|right..].
      * exists (Z.to_nat idx). rewrite Hseen. by rewrite bool_decide_eq_true_2.
      * exists j. rewrite Hseen, Hs. by rewrite orb_true_r.
    + intros [H|(j&Hj&Hs)]; [by do 2 left|]. rewrite Hseen in Hs. case_bool_decide as E; [subst j; left; by right|].
      right. exists j. by rewrite Hq1.
Qed.

Lemma moved_trans w1 w2 w3 : moved w1 w2 -> moved w2 w3 -> moved w1 w3.
Proof. intros (?&?&?) (?&?&?). unfold moved. split_and!; congruence. Qed.

Lemma collect_loop_spec c n : forall i w,
  Z.of_nat n = 9 - i -> 0 <= i -> 0 <= c -> c mod gran i = 0 -> wf w ->
  exists w', collect_loop n i (c / gran i) w = Ret w' /\ wf w' /\ moved w w'
    /\ (forall j u, queued w' j u <-> queued w j u /\ seen i c (Z.of_nat j) = false)
    /\ (forall u, collected w' u <-> collected w u \/ exists j, queued w j u /\ seen i c (Z.of_nat j) = true).
Proof.
  induction n as [|n IH]; intros i w Hn Hi Hc Hdiv Hw; cbn [collect_loop].
  { assert (Hno : forall j u, queued w j u -> seen i c (Z.of_nat j) = false).
    { intros j u Hq%(queued_range _ _ _ _ Hw). unfold seen. apply andb_false_intro2, Z.leb_gt. unfold level.
      apply Z.div_lt_upper_bound; lia. }
    exists w. split_and!; try done.
    - intros j u. split; [|by intros []]. eauto.
    - intros u. split; [auto|]. intros [|(j&Hq&Hs)]; [done|]. rewrite (Hno j u Hq) in Hs. done. }
  change LVL_MASK with (Z.ones 6). change LVL_CLK_MASK with (Z.ones 3). rewrite !Z.land_ones by lia.
  change (2 ^ 6) with 64. change (2 ^ 3) with 8. change LVL_SIZE with 64.
  pose proof (Z.mod_pos_bound (c / gran i) 64 eq_refl) as Hm. set (idx := (c / gran i) mod 64 + i * 64).
  assert (Hseen : forall j : nat, seen i c (Z.of_nat j) = bool_decide (j = Z.to_nat idx) || seen (i + 1) c (Z.of_nat j)).
  { intros j. rewrite seen_step by lia. f_equal. fold idx. case_bool_decide; lia. }
  destruct (collect_one idx w Hw) as (b&pm&l&->&E&Hw1&Hmv1&Hq1&Hc1); [change WHEEL_SIZE with 576; unfold idx; lia|].
  cbn [res_bind]. rewrite E. cbn [res_bind]. set (w1 := if b then _ else _) in *. clearbody w1.
  destruct (Z.eqb_spec ((c / gran i) mod 8) 0) as [E8|E8]; cbn [negb].
  - rewrite Z.shiftr_div_pow2 by done. change (2 ^ LVL_CLK_SHIFT) with 8. pose proof (gran_pos i Hi).
    rewrite Z.div_div by lia. replace (gran i * 8) with (gran (i + 1)) by (rewrite gran_S; lia).
    destruct (IH (i + 1) w1) as (w'&E'&Hw'&Hmv&Hq&Hcol); try lia; [|done|].
    { rewrite gran_S by lia. rewrite (Z.mul_comm 8), Z.rem_mul_r, Hdiv, E8 by lia. lia. }
    exists w'. rewrite E'. do 2 (split; [done|]). split; [by eapply moved_trans|]. by eapply seen_compose.
  - exists w1. do 3 (split; [done|]). eapply seen_compose; try done.
    + intros j u. rewrite seen_stop by (done || lia). tauto.
    + intros u. split; [auto|]. intros [|(j&_&Hs)]; [done|]. rewrite seen_stop in Hs by (done || lia). done.
Qed.

(** Collecting at clock [clk] takes exactly the timers of the buckets that clock looks at. *)
Lemma collect_expired_timers_spec w :
  wf w -> 0 <= clk (base w) -> (forall u, ~ collected w u) ->
  exists w', collect_expired_timers w = Ret w' /\ wf w' /\ moved w w'
    /\ (forall j u, queued w' j u <-> queued w j u /\ visits (clk (base w)) (Z.of_nat j) = false)
    /\ (forall u, collected w' u <-> exists j, queued w j u /\ visits (clk (base w)) (Z.of_nat j) = true).
Proof.
  intros Hw Hc Hnone. unfold collect_expired_timers, __collect_expired_timers. change (Z.to_nat LVL_DEPTH) with 9%nat.
  assert (Hw0 : wf (set_heads w [])).
  { split; try apply Hw; try done.
    - constructor.
    - intros i u Hq. destruct (wf_queued _ _ Hw i u Hq) as (_&H). split; [|done]. intros H0. by apply elem_of_nil in H0.
    - intros u Hu. by apply elem_of_nil in Hu.
    - intros u tm Hu Hp _. right. destruct (wf_pending _ _ Hw u tm Hu Hp) as [H|H]; [done|by apply Hnone in H|done]. }
  destruct (collect_loop_spec (clk (base w)) 9 0 (set_heads w [])) as (w'&E&Hw'&Hmv&Hq&Hcol); try done.
  { change (gran 0) with 1. apply Z.mod_1_r. }
  change (gran 0) with 1 in E. rewrite Z.div_1_r in E. exists w'.
  assert (Hs : forall j : nat, seen 0 (clk (base w)) (Z.of_nat j) = visits (clk (base w)) (Z.of_nat j)).
  { intros j. unfold seen. pose proof (level_pos (Z.of_nat j) ltac:(lia)). replace (0 <=? level (Z.of_nat j)) with true by lia.
    apply andb_true_r. }
  do 3 (split; [done|]). split.
  - intros j u. rewrite Hq, Hs. done.
  - intros u. rewrite Hcol. split.
    + intros [H|(j&H&E')]; [by apply elem_of_nil in H|]. rewrite Hs in E'. by exists j.
    + intros (j&H&E'). right. exists j. by rewrite Hs.
Qed.

(** Advancing the clock past the one just collected. *)
Lemma collect_clk w w' :
  sane w -> moved w w' -> w64 (clk (base w') + 1) = clk (base w) + 1.
Proof. intros [Hc _ _] (_&_&->). apply w64_small. unfold two64. lia. Qed.
Lemma collect_sane w w' : sane w -> clk (base w) <= jiffies w -> moved w w' -> sane (set_clk w' (w64 (clk (base w') + 1))).
Proof.
  intros Hsa Hle Hm. rewrite (collect_clk w) by done. destruct Hsa as [Hc He Hf], Hm as (Et&Ej&Ec).
  split; cbn; rewrite ?Et, ?Ej; (done || lia).
Qed.
Lemma collect_on_time t w w' :
  sane w -> moved w w' ->
  (forall j u, queued w' j u <-> queued w j u /\ visits (clk (base w)) (Z.of_nat j) = false) ->
  (forall u, collected w' u <-> exists j, queued w j u /\ visits (clk (base w)) (Z.of_nat j) = true) ->
  on_time t w -> on_time t (set_clk w' (w64 (clk (base w') + 1))).
Proof.
  intros Hsa Hm Hq' Hcol' Hot tm Ht. rewrite (collect_clk w) by done. cbn in Ht |- *. destruct Hm as (Et&_&_). rewrite Et in Ht.
  destruct (Hot tm Ht) as [Hq _]. split.
  - intros i [Hi Hv]%Hq'. destruct (Hq i Hi) as (Hr&Hdue). split; [done|]. rewrite bucket_time_next by (done || lia). lia.
  - intros (j&Hi&Hv)%Hcol'. destruct (Hq j Hi) as (Hr&Hdue). apply bucket_time_now in Hv; [|lia]. lia.
Qed.

(** * Calling one timer *)

Lemma set_running_wf r w : wf w -> wf (set_running w r).
Proof. intros Hw. split; apply Hw. Qed.

(** The first timer of a list taken off is marked as running and no longer pending. *)
Lemma expire_first_spec k w t l :
  wf w -> sane w -> heads w !! k = Some (t :: l) ->
  exists w' tm, expire_first k w = Ret (w', Some t) /\ wf w' /\ sane w' /\ running_timer (base w') = Some t
    /\ timers w !! t = Some tm /\ timers w' !! t = Some (cleared tm) /\ (pprev tm = true /\ collected w t)
    /\ jiffies w' = jiffies w /\ clk (base w') = clk (base w) /\ heads w' = unlink t <$> heads w
    /\ (forall i u, queued w' i u <-> queued w i u).
Proof.
  intros Hw Hti Ek. unfold expire_first. rewrite Ek. unfold detach_timer, timer_at.
  assert (Hcol : collected w t) by (apply list_elem_of_join; exists (t :: l); split; [by left|by eapply list_elem_of_lookup_2]).
  destruct (wf_collected _ _ Hw t Hcol) as (tm&Ht&Hp). set (w0 := set_running w (Some t)).
  assert (Hnq : forall i, ~ queued w i t) by (intros i Hq; by destruct (wf_queued _ _ Hw i t Hq) as [Hn _]).
  replace (timers (__hlist_del t w0) !! t) with (Some tm) by done. cbn [res_bind]. eexists _, tm. split; [done|].
  set (w' := set_timer _ t _).
  assert (Hq' : forall i u, queued w' i u <-> queued w i u).
  { intros i u. etrans; [apply (unlink_queued t w0)|]. split; [by intros []|]. intros H. split; [|done]. intros ->. by apply Hnq in H. }
  assert (Hw' : wf w').
  { apply (wf_unlink w0 t (pending_map (base w)) (<[t := cleared tm]> (timers w)) None (cleared tm)).
    - by apply set_running_wf.
    - apply (wf_map _ _ Hw).
    - apply (wf_map _ _ Hw).
    - intros i l' E. rewrite unlink_id; [by apply (wf_list _ _ Hw)|]. intros Hin. apply (Hnq i). by exists l'.
    - intros u Hu. by apply lookup_insert_ne.
    - apply lookup_insert_eq.
    - by left. }
  assert (Hsa' : sane w').
  { destruct Hti as [Hc He Hf]. split; [done| |]; intros u tmu Hx; cbn in Hx; (destruct (decide (u = t)) as [->|];
      [rewrite lookup_insert_eq in Hx; injection Hx as <-|rewrite lookup_insert_ne in Hx by done]).
    - exact (He t tm Ht).
    - by apply (He u).
    - done.
    - by apply (Hf u). }
  do 2 (split; [done|]). split_and!; try done. apply lookup_insert_eq.
Qed.
Lemma expire_first_on_time t k w w' u l :
  wf w -> sane w -> heads w !! k = Some (u :: l) -> expire_first k w = Ret (w', Some u) -> on_time t w -> on_time t w'.
Proof.
  intros Hw Hsa Ek E Hot. destruct (expire_first_spec k w u l Hw Hsa Ek) as (w1&tm&E1&Hw1&_&_&Ht&Ht1&_&_&Ec&Hh&Hq).
  rewrite E in E1. injection E1 as <-. destruct (decide (u = t)) as [->|Hne].
  { destruct (wf_except _ _ (wf_spare w' t Hw1 ltac:(intros ? E1; rewrite Ht1 in E1; injection E1 as <-; done)) t eq_refl).
    by apply on_time_off. }
  intros tmx Hx. assert (timers w !! t = Some tmx) as Hx0.
  { unfold expire_first, detach_timer, timer_at in E. rewrite Ek in E. cbn [res_bind] in E.
    replace (timers (__hlist_del u (set_running w (Some u))) !! u) with (Some tm) in E by done. cbn [res_bind] in E.
    injection E as <-. cbn in Hx. by rewrite lookup_insert_ne in Hx. }
  destruct (Hot tmx Hx0) as [H1 H2]. rewrite Ec. split; [intros i Hi%Hq; by apply H1|].
  intros Hc. apply H2. unfold collected in *. rewrite Hh, mjoin_unlink in Hc. by apply list_elem_of_filter in Hc as [_ Hc].
Qed.

(** * The softirq, interleaved with ticks and calls *)

(** The timer softirq is idle, between two timers with [levels] lists to go, or in the
    function of a timer of the last of these lists.  The lock is held only while it is
    between timers. *)
Inductive phase := Idle | Running (levels : nat) | Calling (levels : nat).
Definition unlocked (p : phase) : bool := match p with Running _ => false | _ => true end.
Definition levels (p : phase) : nat := match p with Idle => 0 | Running k | Calling k => k end.

Inductive label := Tick | Call (o : op) | Fire (t : nat) | Tau.

Definition tick (w : wheel) : wheel := mkWheel (w64 (jiffies w + 1)) (base w) (heads w) (timers w).

Inductive step : phase * wheel -> label -> phase * wheel -> Prop :=
| step_tick p w : step (p, w) Tick (p, tick w)
| step_call p w o w' : unlocked p = true -> run_op o w = Ret w' -> step (p, w) (Call o) (p, w')
| step_enter w : time_after_eq (jiffies w) (clk (base w)) = true -> step (Idle, w) Tau (Running 0, w)
| step_collect w w' :
    time_after_eq (jiffies w) (clk (base w)) = true -> collect_expired_timers w = Ret w' ->
    step (Running 0, w) Tau (Running (length (heads w')), set_clk w' (w64 (clk (base w') + 1)))
| step_next k w w' : expire_first k w = Ret (w', None) -> step (Running (S k), w) Tau (Running k, w')
| step_fire k w w' t : expire_first k w = Ret (w', Some t) -> step (Running (S k), w) (Fire t) (Calling (S k), w')
| step_return k w : step (Calling k, w) Tau (Running k, w)
| step_leave w :
    time_after_eq (jiffies w) (clk (base w)) = false -> step (Running 0, w) Tau (Idle, set_running w None).

(** The calls are legal, and time does not reach 2^63 jiffies (a thousand million years). *)
Definition good (w : wheel) (l : label) : Prop :=
  match l with Tick => jiffies w + 2 < 2 ^ 63 | Call o => legal o w | _ => True end.
(** Moreover the calls for timer [t] are timely. *)
Definition careful (t : nat) (w : wheel) (l : label) : Prop :=
  good w l /\ match l with Call o => op_timer o = t -> timely o w | _ => True end.

Inductive path_by (ok : wheel -> label -> Prop) : phase * wheel -> list label -> phase * wheel -> Prop :=
| path_nil s : path_by ok s [] s
| path_cons s l s' ls s'' : step s l s' -> ok s.2 l -> path_by ok s' ls s'' -> path_by ok s (l :: ls) s''.
Notation path := (path_by good).

Definition start (j : Z) : phase * wheel := (Idle, init_timer_cpu j).
Definition reachable_by (ok : wheel -> label -> Prop) (s : phase * wheel) : Prop :=
  exists j ls, 0 <= j /\ j + 1 < 2 ^ 63 /\ path_by ok (start j) ls s.
Notation reachable := (reachable_by good).

(** ** The invariant *)

(** The lists from number [n] on are empty. *)
Definition drained (n : nat) (w : wheel) : Prop :=
  (n <= length (heads w))%nat /\ forall j l, (n <= j)%nat -> heads w !! j = Some l -> l = [].
Definition inv (s : phase * wheel) : Prop := wf s.2 /\ sane s.2 /\ drained (levels s.1) s.2.

Lemma drained_collected w u : drained 0 w -> ~ collected w u.
Proof.
  intros [_ H] (l&Hu&Hl)%list_elem_of_join. apply list_elem_of_lookup_1 in Hl as (j&Hj).
  rewrite (H j l) in Hu by (done || lia). by apply elem_of_nil in Hu.
Qed.
Lemma drained_sublist n w w' : drained n w -> Forall2 sublist (heads w') (heads w) -> drained n w'.
Proof.
  intros [Hl H] Hs. split; [by rewrite (Forall2_length _ _ _ Hs)|]. intros j l' Hj E.
  destruct (Forall2_lookup_l _ _ _ _ _ Hs E) as (l&El&Hsub). rewrite (H j l Hj El) in Hsub. by apply sublist_nil_r in Hsub.
Qed.
Lemma drained_unlink n t w w' : drained n w -> heads w' = unlink t <$> heads w -> drained n w'.
Proof. intros Hd E. eapply drained_sublist; [done|]. rewrite E. apply unlink_heads. Qed.

Lemma time_after_eq_le w : sane w -> time_after_eq (jiffies w) (clk (base w)) = (clk (base w) <=? jiffies w).
Proof.
  intros [Hc _ _]. unfold time_after_eq. destruct (Z.leb_spec (clk (base w)) (jiffies w)) as [Hle|Hlt].
  - rewrite s64_positive by lia. lia.
  - replace (jiffies w - clk (base w)) with (-1) by lia. done.
Qed.

Lemma inv_start j : 0 <= j -> j + 1 < 2 ^ 63 -> inv (start j).
Proof.
  intros H0 Hj.
  assert (Hnil : forall i l, vectors (base (init_timer_cpu j)) !! i = Some l -> l = []).
  { intros i l E. cbn [vectors base init_timer_cpu] in E. by apply lookup_replicate in E as [-> _]. }
  assert (Hq : forall i u, ~ queued (init_timer_cpu j) i u).
  { intros i u (l&E&Hu). rewrite (Hnil i l E) in Hu. by apply elem_of_nil in Hu. }
  assert (Hc : forall u, ~ collected (init_timer_cpu j) u) by (intros u Hu; by apply elem_of_nil in Hu).
  split; [|split].
  - split; try done.
    + split; [|done]. apply Forall_replicate. done.
    + constructor.
    + intros i l E. rewrite (Hnil i l E). split; [constructor|]. cbn [pending_map base snd start init_timer_cpu].
      change (Z.to_nat (BITS_TO_LONGS WHEEL_SIZE)) with 9%nat. unfold bit.
      replace (nth (Z.to_nat (Z.of_nat i / 64)) (replicate 9 0) 0) with 0; [apply Z.testbit_0_l|].
      symmetry. generalize (Z.to_nat (Z.of_nat i / 64)). intros n. do 10 (destruct n as [|n]; [done|]). done.
    + intros i u Hu. by apply Hq in Hu.
    + intros u Hu. by apply Hc in Hu.
  - split; [cbn; lia|done|done].
  - split; [cbn; lia|done].
Qed.

Lemma inv_tick p w : inv (p, w) -> jiffies w + 2 < 2 ^ 63 -> inv (p, tick w).
Proof.
  intros (Hw&[Hc Hq Hcol]&Hd) Hj. cbn [fst snd] in *. split; [|split]; [split; apply Hw| |done].
  split; [|done|done]. cbn. rewrite w64_small by (unfold two64; lia). lia.
Qed.

Lemma inv_collect w w' :
  inv (Running 0, w) -> time_after_eq (jiffies w) (clk (base w)) = true -> collect_expired_timers w = Ret w' ->
  inv (Running (length (heads w')), set_clk w' (w64 (clk (base w') + 1))).
Proof.
  intros (Hw&Hti&Hd) Hle E. cbn [fst snd levels] in *. rewrite time_after_eq_le in Hle by done.
  destruct (collect_expired_timers_spec w Hw) as (w1&E1&Hw1&Hmv&Hq&Hcol); [apply Hti|by intros u; apply drained_collected|].
  rewrite E in E1. injection E1 as <-. split; [|split]; cbn [fst snd levels].
  - split; apply Hw1.
  - apply (collect_sane w); try done. lia.
  - split; [done|]. cbn. intros j l Hj El. apply lookup_lt_Some in El. lia.
Qed.

(** What [expire_first] does, in either case. *)
Lemma expire_first_inv k w w' r :
  inv (Running (S k), w) -> expire_first k w = Ret (w', r) ->
  match r with
  | None => w' = w /\ heads w !! k = Some []
  | Some t => exists l, heads w !! k = Some (t :: l)
  end /\ inv (match r with None => Running k | Some _ => Calling (S k) end, w').
Proof.
  intros (Hw&Hti&Hd) E. cbn [fst snd levels] in *. pose proof E as E0. unfold expire_first in E0.
  destruct (heads w !! k) as [[|t l]|] eqn:Ek; [| |done].
  - inv_res. split; [done|]. split; [|split]; [done|done|]. destruct Hd as [Hl Hd]. split; [cbn; lia|].
    intros j l Hj El. cbn in Hj, El. destruct (decide (j = k)) as [->|]; [congruence|]. apply (Hd j l); [lia|done].
  - destruct (expire_first_spec k w t l Hw Hti Ek) as (w1&tm&E1&Hw1&Hti1&_&_&_&_&_&_&Hh&_).
    rewrite E in E1. injection E1 as -> ->. split; [by exists l|]. split; [|split]; [done|done|]. by eapply drained_unlink.
Qed.

Lemma inv_step s l s' : inv s -> step s l s' -> good s.2 l -> inv s'.
Proof.
  intros Hi Hs Hg. destruct Hs as [p w|p w o w' Hu E|w Hle|w w' Hle E|k w w' E|k w w' t E|k w|w Hlt]; cbn [snd good] in Hg.
  - by apply inv_tick.
  - destruct Hi as (Hw&Hti&Hd). cbn [fst snd] in *. destruct (run_op_spec o w Hw Hti Hg) as (w1&E1&(Hw1&Hti1&Hto&_)&_).
    rewrite E in E1. injection E1 as <-. split; [|split]; [done|done|]. cbn. eapply drained_sublist; [done|apply Hto].
  - destruct Hi as (Hw&Hti&Hd). by split.
  - by apply (inv_collect w w').
  - by apply (expire_first_inv k w w' None).
  - by apply (expire_first_inv k w w' (Some t)).
  - done.
  - destruct Hi as (Hw&[Hc Hq Hcol]&Hd). split; [|split]; [by apply set_running_wf| |done]. by split.
Qed.
Lemma inv_path s ls s' : inv s -> path s ls s' -> inv s'.
Proof. intros Hi Hp. induction Hp as [|s l s' ls s'' Hs Hg Hp IH]; [done|]. apply IH. by eapply inv_step. Qed.
Lemma inv_reachable s : reachable s -> inv s.
Proof. intros (j&ls&H0&Hj&Hp). eapply inv_path; [|done]. by apply inv_start. Qed.

Lemma path_app ok s1 ls1 s2 ls2 s3 : path_by ok s1 ls1 s2 -> path_by ok s2 ls2 s3 -> path_by ok s1 (ls1 ++ ls2) s3.
Proof. intros H1 H2. induction H1 as [|s l s' ls s'' Hs Hg Hp IH]; [done|]. cbn. econstructor; eauto. Qed.
Lemma path_weaken (ok ok' : wheel -> label -> Prop) s ls s' :
  (forall w l, ok w l -> ok' w l) -> path_by ok s ls s' -> path_by ok' s ls s'.
Proof. intros Hok Hp. induction Hp as [|s l s' ls s'' Hs Hg Hp IH]; [constructor|]. econstructor; eauto. Qed.
Lemma reachable_path ok s ls s' : reachable_by ok s -> path_by ok s ls s' -> reachable_by ok s'.
Proof. intros (j&ls0&H0&Hj&Hp) Hp'. exists j, (ls0 ++ ls). split_and!; [done..|]. by eapply path_app. Qed.
Lemma reachable_careful t s : reachable_by (careful t) s -> reachable s.
Proof. intros (j&ls&H0&Hj&Hp). exists j, ls. split_and!; [done..|]. eapply path_weaken; [|done]. by intros w l []. Qed.

(** ** A timer that is armed in time *)

Lemma on_time_step t s l s' : inv s -> step s l s' -> careful t s.2 l -> on_time t s.2 -> on_time t s'.2.
Proof.
  intros Hi Hs [Hg Hc] Hot. destruct Hs as [p w|p w o w' Hu E|w Hle|w w' Hle E|k w w' E|k w w' u E|k w|w Hlt]; cbn [snd good] in *; try done.
  - destruct Hi as (Hw&Hsa&_). destruct (run_op_spec o w Hw Hsa Hg) as (w1&E1&Hs1&Hl1). rewrite E in E1. injection E1 as <-.
    by apply (on_time_call o t w).
  - destruct Hi as (Hw&Hsa&Hd). cbn in Hw, Hsa, Hd.
    destruct (collect_expired_timers_spec w Hw) as (w1&E1&_&Hmv&Hq&Hcol); [apply Hsa|by intros u; apply drained_collected|].
    rewrite E in E1. injection E1 as <-. by apply (collect_on_time t w).
  - destruct (expire_first_inv k w w' None Hi E) as [[-> _] _]. done.
  - destruct (expire_first_inv k w w' (Some u) Hi E) as [(l&Ek) _]. destruct Hi as (Hw&Hsa&_).
    by apply (expire_first_on_time t k w w' u l).
Qed.
Lemma on_time_path t s ls s' : inv s -> path_by (careful t) s ls s' -> on_time t s.2 -> on_time t s'.2.
Proof.
  intros Hi Hp. induction Hp as [|s l s' ls s'' Hs Hg Hp IH]; [done|]. intros Hot.
  apply IH; [by eapply inv_step; [| |apply Hg]|by eapply on_time_step].
Qed.
Lemma on_time_reachable t s : reachable_by (careful t) s -> on_time t s.2.
Proof.
  intros (j&ls&H0&Hj&Hp). eapply on_time_path; [by apply inv_start|done|]. intros tm Ht.
  change (timers (start j).2) with (∅ : gmap nat timer_list) in Ht. by rewrite lookup_empty in Ht.
Qed.

(** ** A timer that is left alone *)

Definition concerns (t : nat) (l : label) : bool :=
  match l with Call o => bool_decide (op_timer o = t) | Fire u => bool_decide (u = t) | _ => false end.

(** Where a pending timer is that nobody touches: still in its bucket with the same due
    time, or taken off. *)
Definition waits (t : nat) (idx T : Z) (w : wheel) : Prop :=
  collected w t \/ queued w (Z.to_nat idx) t /\ bucket_time idx (clk (base w)) = T.

Lemma queued_unique ex w i j t : wf_ex ex w -> queued w i t -> queued w j t -> i = j.
Proof.
  intros Hw Hi Hj. destruct (wf_queued _ _ Hw i t Hi) as (_&tm&Ht&_&Ei).
  destruct (wf_queued _ _ Hw j t Hj) as (_&tm'&Ht'&_&Ej). rewrite Ht in Ht'. injection Ht' as <-. lia.
Qed.

Lemma waits_touch u t idx T w w' : wf w -> wf w' -> touches u w w' -> u <> t -> waits t idx T w -> waits t idx T w'.
Proof.
  intros Hw Hw' Hto Hne Hwt.
  assert (exists tm, timers w !! t = Some tm /\ pprev tm = true) as (tm&Ht&Hp).
  { destruct Hwt as [H|[H _]]; [by apply (wf_collected _ _ Hw)|]. destruct (wf_queued _ _ Hw _ t H) as (_&tm&?&?&_). eauto. }
  destruct (wf_pending _ _ Hw' t tm) as [H|(i&H)]; [by rewrite (to_others _ _ _ Hto)|done|done|by left|].
  pose proof (to_queued _ _ _ Hto i t ltac:(done) H) as Hq. destruct Hwt as [Hc|[Hq' HT]].
  - by destruct (wf_queued _ _ Hw i t Hq).
  - right. rewrite (queued_unique _ _ _ _ _ Hw Hq' Hq). split; [done|]. by destruct Hto as [(_&->&_) _ _ _].
Qed.

Lemma waits_collect t idx T w w' :
  inv (Running 0, w) -> 0 <= idx -> collect_expired_timers w = Ret w' -> waits t idx T w ->
  waits t idx T (set_clk w' (w64 (clk (base w') + 1))).
Proof.
  intros (Hw&Hti&Hd) Hi E [Hc|[Hq HT]]; cbn [fst snd levels] in *; [by apply drained_collected in Hc|].
  destruct (collect_expired_timers_spec w Hw) as (w1&E1&_&(_&_&Ec)&Hq1&Hcol1); [apply Hti|by intros u; apply drained_collected|].
  rewrite E in E1. injection E1 as <-. destruct (visits (clk (base w)) idx) eqn:Hv.
  - left. apply Hcol1. exists (Z.to_nat idx). by rewrite Z2Nat.id.
  - right. split; [apply Hq1; by rewrite Z2Nat.id|]. cbn. rewrite Ec, w64_small by (pose proof (sa_clock _ Hti); unfold two64; lia).
    rewrite bucket_time_next; done.
Qed.

Lemma waits_step t idx T s l s' :
  inv s -> step s l s' -> good s.2 l -> 0 <= idx -> concerns t l = false -> waits t idx T s.2 -> waits t idx T s'.2.
Proof.
  intros Hi Hs Hg Hidx Hn Hwt.
  destruct Hs as [p w|p w o w' Hu E|w Hle|w w' Hle E|k w w' E|k w w' u E|k w|w Hlt]; cbn [snd good concerns] in *; try done.
  - destruct Hi as (Hw&Hti&Hd). destruct (run_op_spec o w Hw Hti Hg) as (w1&E1&(Hw1&Hti1&Hto&_)&_).
    rewrite E in E1. injection E1 as <-. apply bool_decide_eq_false in Hn. by apply (waits_touch (op_timer o) t idx T w w' Hw Hw1 Hto).
  - by eapply waits_collect.
  - destruct (expire_first_inv k w w' None Hi E) as [[-> _] _]. done.
  - destruct (expire_first_inv k w w' (Some u) Hi E) as [(l&Ek) _]. destruct Hi as (Hw&Hti&_).
    destruct (expire_first_spec k w u l Hw Hti Ek) as (w1&tm&E1&_&_&_&_&_&_&_&Ec&Hh&Hq).
    rewrite E in E1. injection E1 as <-. apply bool_decide_eq_false in Hn. destruct Hwt as [Hc|[Hq' HT]].
    + left. unfold collected. rewrite Hh, mjoin_unlink. by apply list_elem_of_filter.
    + right. rewrite Hq, Ec. done.
Qed.

(** If nobody touches a timer, no path to a state in which the softirq has caught up with
    the due time avoids calling it. *)
Lemma waits_path t idx T s ls s' :
  inv s -> path s ls s' -> 0 <= idx -> Forall (fun l => concerns t l = false) ls -> waits t idx T s.2 -> waits t idx T s'.2.
Proof.
  intros Hi Hp Hidx. induction Hp as [|s l s' ls s'' Hs Hg Hp IH]; [done|]. intros [Hl Hls]%Forall_cons Hwt.
  apply IH; [by eapply inv_step|done|]. by eapply waits_step.
Qed.
Lemma waits_over t idx T w :
  inv (Idle, w) -> 0 <= idx -> T < clk (base w) -> ~ waits t idx T w.
Proof.
  intros (Hw&Hti&Hd) Hi Hlt [Hc|[_ HT]]; [by apply drained_collected in Hc|].
  destruct (bucket_time_spec idx (clk (base w)) Hi) as (H&_). lia.
Qed.

(** * The softirq as a whole *)

Fixpoint legal_ops (os : list op) (w : wheel) : Prop :=
  match os with
  | [] => True
  | o :: os' => legal o w /\ forall w', run_op o w = Ret w' -> legal_ops os' w'
  end.
(** Timer functions make legal calls only: [f], called for a timer [t] that has this function. *)
Definition polite (fn : Z -> nat -> wheel -> list op) : Prop :=
  forall f t w tm, wf w -> sane w -> timers w !! t = Some tm -> function tm = f -> f <> 0 -> legal_ops (fn f t w) w.

Section Run.
Context (fn : Z -> nat -> wheel -> list op).
Hypothesis Hfn : polite fn.

Lemma run_ops_path p os : forall w,
  inv (p, w) -> unlocked p = true -> legal_ops os w ->
  exists w' ls, run_ops os w = Ret w' /\ path (p, w) ls (p, w') /\ jiffies w' = jiffies w /\ clk (base w') = clk (base w)
    /\ Forall2 sublist (heads w') (heads w).
Proof.
  induction os as [|o os IH]; intros w Hi Hu Hb; cbn [run_ops].
  { exists w, []. split_and!; try done. constructor. }
  destruct Hb as [Hb Hrest]. pose proof Hi as (Hw&Hti&Hd). destruct (run_op_spec o w Hw Hti Hb) as (w1&E&Hs&_).
  rewrite E. cbn [res_bind]. assert (Hst : step (p, w) (Call o) (p, w1)) by by constructor.
  destruct (IH w1) as (w'&ls&->&Hp&Ej&Ec&Hh); [by eapply inv_step|done|by apply Hrest|].
  destruct Hs as (_&_&[(Ej1&Ec1&_) _ _ Hh1]&_). exists w', (Call o :: ls).
  split_and!; [done|by econstructor|congruence|congruence|by transitivity (heads w1)].
Qed.

Lemma expire_timers_path k fuel : forall w,
  inv (Running (S k), w) -> (length (default [] (heads w !! k)) < fuel)%nat ->
  exists w' ls, expire_timers fn fuel k w = Ret w' /\ path (Running (S k), w) ls (Running k, w')
    /\ jiffies w' = jiffies w /\ clk (base w') = clk (base w).
Proof using Hfn.
  induction fuel as [|fuel IH]; intros w Hi Hf; [lia|]. cbn [expire_timers]. pose proof Hi as (Hw&Hti&Hl&Hd). cbn in Hw, Hti, Hl, Hd.
  destruct (lookup_lt_is_Some_2 (heads w) k) as [l Ek]; [lia|]. destruct l as [|t l].
  - assert (E : expire_first k w = Ret (w, None)) by (unfold expire_first; by rewrite Ek). rewrite E. cbn [res_bind].
    exists w, [Tau]. split_and!; try done. econstructor; [by apply step_next|done|constructor].
  - destruct (expire_first_spec k w t l Hw Hti Ek) as (w1&tm&E&Hw1&Hti1&_&Ht&Ht1&[Hpp _]&Ej&Ec&Hh&_). rewrite E. cbn [res_bind].
    assert (Hst : step (Running (S k), w) (Fire t) (Calling (S k), w1)) by by apply step_fire.
    unfold call_timer_fn, timer_at. rewrite Ht1. cbn [res_bind].
    destruct (run_ops_path (Calling (S k)) (fn (function (cleared tm)) t w1) w1) as (w2&ls&->&Hp2&Ej2&Ec2&Hh2);
      [by eapply inv_step|done|apply (Hfn _ _ _ _ Hw1 Hti1 Ht1); [done|exact (sa_function w Hti t tm Ht Hpp)]|]. cbn [res_bind].
    assert (Hi2 : inv (Running (S k), w2)).
    { eapply inv_path; [by eapply inv_step|]. eapply path_app; [done|]. econstructor; [apply step_return|done|constructor]. }
    destruct (IH w2 Hi2) as (w'&ls'&->&Hp'&Ej'&Ec').
    { rewrite Ek in Hf. cbn in Hf. destruct (heads w2 !! k) as [l2|] eqn:E2; [|cbn; lia].
      destruct (Forall2_lookup_l _ _ _ _ _ Hh2 E2) as (l1&E1&Hsub). rewrite Hh, list_lookup_fmap, Ek in E1.
      injection E1 as <-. apply sublist_length in Hsub. cbn. unfold unlink in Hsub. rewrite filter_cons_False in Hsub by congruence.
      pose proof (length_filter (fun u => u <> t) l). lia. }
    exists w', (Fire t :: ls ++ Tau :: ls'). split_and!; [done| |congruence|congruence].
    econstructor; [done|done|]. eapply path_app; [done|]. econstructor; [apply step_return|done|done].
Qed.

Lemma expire_levels_path n : forall w,
  inv (Running n, w) ->
  exists w' ls, expire_levels fn n w = Ret w' /\ path (Running n, w) ls (Running 0, w')
    /\ jiffies w' = jiffies w /\ clk (base w') = clk (base w).
Proof using Hfn.
  induction n as [|k IH]; intros w Hi; cbn [expire_levels].
  { exists w, []. split_and!; try done. constructor. }
  destruct (expire_timers_path k (S (length (default [] (heads w !! k)))) w Hi) as (w1&ls&->&Hp&Ej&Ec); [lia|]. cbn [res_bind].
  destruct (IH w1) as (w'&ls'&->&Hp'&Ej'&Ec'); [by eapply inv_path|]. exists w', (ls ++ ls').
  split_and!; [done|by eapply path_app|congruence|congruence].
Qed.

Lemma run_loop_path fuel : forall w,
  inv (Running 0, w) -> jiffies w - clk (base w) + 1 < Z.of_nat fuel -> (0 < fuel)%nat ->
  exists w' ls, run_timers_loop fn fuel w = Ret w' /\ path (Running 0, w) ls (Running 0, w')
    /\ jiffies w' = jiffies w /\ jiffies w' < clk (base w').
Proof using Hfn.
  induction fuel as [|fuel IH]; intros w Hi Hf H0; [lia|]. cbn [run_timers_loop]. pose proof Hi as (Hw&Hti&Hd). cbn in Hw, Hti.
  destruct (time_after_eq (jiffies w) (clk (base w))) eqn:Hle.
  2: { exists w, []. rewrite time_after_eq_le in Hle by done. split_and!; [done|constructor|done|lia]. }
  destruct (collect_expired_timers_spec w Hw) as (w1&E&_&(_&Ej&Ec)&_); [apply Hti|by intros u; apply drained_collected|].
  rewrite E. cbn [res_bind]. assert (Hst := step_collect w w1 Hle E). set (w2 := set_clk w1 _) in *.
  assert (Ec2 : clk (base w2) = clk (base w) + 1).
  { cbn. rewrite Ec. apply w64_small. pose proof (sa_clock _ Hti). unfold two64. lia. }
  rewrite time_after_eq_le in Hle by done.
  destruct (expire_levels_path (length (heads w1)) w2) as (w3&ls&E3&Hp3&Ej3&Ec3); [by eapply inv_step|].
  replace (length (heads w2)) with (length (heads w1)) by done. rewrite E3. cbn [res_bind].
  assert (Ej2 : jiffies w2 = jiffies w) by done.
  destruct (IH w3) as (w'&ls'&->&Hp'&Ej'&Hlt'); [|lia|lia|].
  { eapply inv_path; [by eapply inv_step|done]. }
  exists w', (Tau :: ls ++ ls'). split_and!; [done| |congruence|done]. econstructor; [done|done|]. by eapply path_app.
Qed.

(** The softirq returns, having processed every clock up to the current jiffy; it is one of
    the interleavings above. *)
Lemma __run_timers_path w :
  inv (Idle, w) ->
  exists w' ls, __run_timers fn w = Ret w' /\ path (Idle, w) ls (Idle, w')
    /\ jiffies w' = jiffies w /\ jiffies w' < clk (base w').
Proof using Hfn.
  intros Hi. pose proof Hi as (Hw&Hti&Hd). cbn in Hw, Hti. unfold __run_timers.
  destruct (time_after_eq (jiffies w) (clk (base w))) eqn:Hle; cbn [negb].
  2: { exists w, []. rewrite time_after_eq_le in Hle by done. split_and!; [done|constructor|done|lia]. }
  assert (Hst := step_enter w Hle). rewrite time_after_eq_le in Hle by done. pose proof (sa_clock _ Hti).
  destruct (run_loop_path (Z.to_nat (w64 (jiffies w - clk (base w)) + 2)) w) as (w1&ls&->&Hp&Ej&Hlt);
    [by eapply inv_step|rewrite w64_small by (unfold two64; lia); lia|pose proof (w64_range (jiffies w - clk (base w))); lia|]. cbn [res_bind].
  assert (Hi1 : inv (Running 0, w1)) by (eapply inv_path; [by eapply inv_step|done]).
  exists (set_running w1 None), (Tau :: ls ++ [Tau]). split_and!; try done.
  econstructor; [done|done|]. eapply path_app; [done|]. econstructor; [|done|constructor]. apply step_leave.
  rewrite time_after_eq_le by apply Hi1. lia.
Qed.
End Run.

(** * The softirq ends *)

Definition of_caller (l : label) : bool := match l with Call _ => true | _ => false end.
Definition of_softirq (l : label) : bool := match l with Tau | Fire _ => true | _ => false end.
(** From [s] to [s'] with one step of the softirq, after any number of legal calls. *)
Definition softirq_next (s' s : phase * wheel) : Prop :=
  reachable s /\ exists ls s1 l, path s ls s1 /\ Forall (fun l => of_caller l = true) ls /\ step s1 l s' /\ of_softirq l = true.

(** What the softirq has before it: clocks, whether it runs, lists, timers on them. *)
Definition work (s : phase * wheel) : nat * (nat * (nat * nat)) :=
  let '(p, w) := s in
  let a := Z.to_nat (jiffies w + 1 - clk (base w)) in
  (a, (match p with Idle => if (a =? 0)%nat then 0%nat else 2%nat | _ => 1%nat end,
       (levels p, (2 * length (mjoin (heads w)) + match p with Calling _ => 1 | _ => 0 end)%nat))).
Definition less_work : nat * (nat * (nat * nat)) -> nat * (nat * (nat * nat)) -> Prop :=
  slexprod _ _ lt (slexprod _ _ lt (slexprod _ _ lt lt)).
Lemma less_work_wf : well_founded less_work.
Proof. repeat apply wf_slexprod; apply lt_wf. Qed.

Lemma heads_shorter (hs hs' : list (list nat)) : Forall2 sublist hs' hs -> (length (mjoin hs') <= length (mjoin hs))%nat.
Proof.
  induction 1 as [|l' l hs' hs Hs _ IH]; [done|]. change (length (l' ++ mjoin hs') <= length (l ++ mjoin hs))%nat.
  rewrite !length_app. apply sublist_length in Hs. lia.
Qed.
(** Calls do not make work... *)
Lemma work_call p w o w' : inv (p, w) -> legal o w -> run_op o w = Ret w' -> work (p, w') = work (p, w) \/ less_work (work (p, w')) (work (p, w)).
Proof.
  intros (Hw&Hsa&_) Hl E. destruct (run_op_spec o w Hw Hsa Hl) as (w1&E1&(_&_&[(Ej&Ec&_) _ _ Hh]&_)&_).
  rewrite E in E1. injection E1 as <-. apply heads_shorter in Hh. unfold work. rewrite Ej, Ec.
  destruct (decide (length (mjoin (heads w')) = length (mjoin (heads w)))) as [->|]; [by left|right].
  do 3 apply right_slex. lia.
Qed.
(** ... and every step of the softirq does some. *)
Lemma work_step s l s' : inv s -> step s l s' -> of_softirq l = true -> less_work (work s') (work s).
Proof.
  intros Hi Hs Hl. pose proof Hi as (Hw&Hsa&Hd). pose proof (sa_clock _ Hsa) as Hc.
  destruct Hs as [p w|p w o w' Hu E|w Hle|w w' Hle E|k w w' E|k w w' t E|k w|w Hlt]; cbn [fst snd] in *; try done; unfold work.
  - rewrite time_after_eq_le in Hle by done. apply right_slex. destruct (Nat.eqb_spec (Z.to_nat (jiffies w + 1 - clk (base w))) 0); [lia|].
    apply left_slex. lia.
  - rewrite time_after_eq_le in Hle by done.
    destruct (collect_expired_timers_spec w Hw) as (w1&E1&_&Hmv&_); [lia|by intros u; apply drained_collected|].
    rewrite E in E1. injection E1 as <-. apply left_slex. cbn [set_clk jiffies base clk]. rewrite (collect_clk w w') by done.
    destruct Hmv as (_&->&_). lia.
  - destruct (expire_first_inv k w w' None Hi E) as [[-> _] _]. do 2 apply right_slex. apply left_slex. cbn. lia.
  - destruct (expire_first_inv k w w' (Some t) Hi E) as [(l&Ek) _].
    destruct (expire_first_spec k w t l Hw Hsa Ek) as (w1&tm&E1&_&_&_&_&_&[_ Hcol]&Ej&Ec&Hh&_). rewrite E in E1. injection E1 as <-.
    rewrite Ej, Ec, Hh, mjoin_unlink. do 3 apply right_slex.
    pose proof (length_filter_lt (fun u => u <> t) (mjoin (heads w)) t Hcol ltac:(congruence)). unfold unlink. lia.
  - do 3 apply right_slex. lia.
  - rewrite time_after_eq_le in Hlt by done. apply right_slex. cbn [set_running jiffies base clk].
    destruct (Nat.eqb_spec (Z.to_nat (jiffies w + 1 - clk (base w))) 0); [|lia]. apply left_slex. lia.
Qed.
Lemma work_calls s ls s1 :
  inv s -> path s ls s1 -> Forall (fun l => of_caller l = true) ls ->
  forall v, less_work v (work s1) -> clos_trans _ less_work v (work s).
Proof.
  intros Hi Hp. induction Hp as [s|s l s' ls s'' Hs Hg Hp IH]; intros Hls v Hv; [by apply t_step|].
  apply Forall_cons in Hls as [Hl Hls]. specialize (IH ltac:(by eapply inv_step) Hls v Hv).
  inversion Hs as [|p w o w' Hu E| | | | | |]; subst; try done.
  destruct (work_call p w o w' Hi Hg E) as [<-|Hlt]; [done|]. by eapply t_trans; [|apply t_step].
Qed.
Lemma softirq_next_wf : well_founded softirq_next.
Proof.
  eapply wf_incl; [|apply (wf_inverse_image _ _ (clos_trans _ less_work) work), wf_clos_trans, less_work_wf].
  intros s' s (Hr&ls&s1&l&Hp&Hls&Hs&Hl). pose proof (inv_reachable _ Hr) as Hi.
  eapply work_calls; [done|done|done|]. apply (work_step s1 l s'); [by eapply inv_path|done|done].
Qed.
