(* ===== verification/TimerWheelNext.v ===== *)
(** The search for the next event of the wheel (CONFIG_NO_HZ_COMMON): it finds the
    earliest due time of a bucket that is not empty, so the clock may be set forward to
    it without passing one by. *)

From stdpp Require Import gmap.
From S2P Require Import Prelude FindBit Hweight Bitmap BitmapFacts TimerWheel TimerWheelTime TimerWheelFacts TimerWheelRun.

(** The first pending bucket of a level, counted from bucket [c] on and around. *)
Lemma next_pending_bucket_spec w lvl c :
  wf w -> 0 <= lvl <= 8 -> 0 <= c < 64 ->
  exists p, next_pending_bucket w (64 * lvl) c = Ret p
    /\ ((p = -1 /\ forall b, 0 <= b < 64 -> bit (pending_map (base w)) (64 * lvl + b) = false)
        \/ (0 <= p < 64 /\ bit (pending_map (base w)) (64 * lvl + (c + p) mod 64) = true
            /\ forall q, 0 <= q < p -> bit (pending_map (base w)) (64 * lvl + (c + q) mod 64) = false)).
Proof.
  intros Hw Hl Hc. destruct (wf_map _ _ Hw) as [Hpm Hlen]. unfold next_pending_bucket. change LVL_SIZE with 64.
  rewrite !w32_small by (unfold two32; lia). set (pm := pending_map (base w)) in *.
  assert (Hh : forall n, 0 <= n <= 576 -> holds pm n) by (intros n Hn; split_and!; [done|lia|lia|unfold two32; lia]).
  assert (Hmod : forall b, 0 <= b < 64 -> (c + (if c <=? b then b - c else b - c + 64)) mod 64 = b).
  { intros b Hb. destruct (Z.leb_spec c b); [replace (c + (b - c)) with b by lia|replace (c + (b - c + 64)) with (b + 1 * 64) by lia];
      rewrite ?Z.mod_add by lia; by apply Z.mod_small. }
  destruct (find_next_bit_spec pm (64 * lvl + 64) (64 * lvl + c)) as (r&->&Hr); [apply Hh; lia|lia|]. cbn [res_bind].
  destruct Hr as [[-> Hno]|(Hr1&Hr2&Hr3)].
  - replace (64 * lvl + 64 <? 64 * lvl + 64) with false by lia.
    destruct (find_next_bit_spec pm (64 * lvl + c) (64 * lvl)) as (r&->&Hr); [apply Hh; lia|lia|]. cbn [res_bind].
    eexists. split; [done|]. destruct Hr as [[-> Hno']|(Hr1&Hr2&Hr3)].
    + rewrite Z.ltb_irrefl. left. split; [done|]. intros b Hb. destruct (Z.lt_ge_cases b c); [apply Hno'|apply Hno]; lia.
    + replace (r <? 64 * lvl + c) with true by lia. rewrite s32_small by lia. right. split; [lia|].
      replace ((c + (r + 64 - (64 * lvl + c))) mod 64) with (r - 64 * lvl).
      2: { rewrite <- (Hmod (r - 64 * lvl)) by lia. replace (c <=? r - 64 * lvl) with false by lia. f_equal. lia. }
      split; [by replace (64 * lvl + (r - 64 * lvl)) with r by lia|]. intros q Hq.
      destruct (Z.lt_ge_cases (c + q) 64); [rewrite Z.mod_small by lia; apply Hno; lia|].
      replace (c + q) with (c + q - 64 + 1 * 64) by lia. rewrite Z.mod_add, Z.mod_small by lia. apply Hr3. lia.
  - replace (r <? 64 * lvl + 64) with true by lia. eexists. split; [done|]. rewrite s32_small by lia. right. split; [lia|].
    rewrite Z.mod_small by lia. split; [by replace (64 * lvl + (c + (r - (64 * lvl + c)))) with r by lia|].
    intros q Hq. rewrite Z.mod_small by lia. apply Hr3. lia.
Qed.

Lemma pending_bit w i : wf w -> bit (pending_map (base w)) (Z.of_nat i) = true -> (i < 576)%nat -> exists u, queued w i u.
Proof.
  intros Hw Hb Hi. destruct (lookup_lt_is_Some_2 (vectors (base w)) i) as [l El]; [by rewrite (wf_size _ _ Hw)|].
  destruct (wf_list _ _ Hw i l El) as [_ H]. rewrite Hb in H. destruct l as [|u l]; [done|]. exists u, (u :: l).
  split; [done|by left].
Qed.
Lemma queued_bit w i u : wf w -> queued w i u -> bit (pending_map (base w)) (Z.of_nat i) = true.
Proof. intros Hw (l&El&Hu). destruct (wf_list _ _ Hw i l El) as [_ ->]. destruct l; [by apply elem_of_nil in Hu|done]. Qed.

(** The clock of a level, rounded up. *)
Definition level_clk (c lvl : Z) : Z := (c + gran lvl - 1) / gran lvl.
Lemma level_clk_next c lvl : 0 <= lvl -> level_clk c (lvl + 1) = (level_clk c lvl + 7) / 8.
Proof.
  intros Hl. unfold level_clk. rewrite gran_S by done. pose proof (gran_pos lvl Hl).
  rewrite (Z.mul_comm 8), <- Z.div_div by lia. f_equal.
  replace (c + gran lvl * 8 - 1) with (c + gran lvl - 1 + 7 * gran lvl) by lia. rewrite Z.div_add by lia. lia.
Qed.

(** [next] is the least of its bound and the due times of the buckets below [lim]. *)
Definition earliest (w : wheel) (lim next : Z) : Prop :=
  let c := clk (base w) in
  next <= c + NEXT_TIMER_MAX_DELTA
  /\ (forall i u, queued w i u -> Z.of_nat i < lim -> next <= bucket_time (Z.of_nat i) c)
  /\ (next = c + NEXT_TIMER_MAX_DELTA \/ exists i u, queued w i u /\ bucket_time (Z.of_nat i) c = next).

Lemma bucket_time_level c lvl b :
  0 <= lvl -> 0 <= b < 64 -> bucket_time (64 * lvl + b) c = gran lvl * (level_clk c lvl + (b - level_clk c lvl) mod 64).
Proof.
  intros Hl Hb. unfold bucket_time, level_clk.
  assert (level (64 * lvl + b) = lvl) as -> by (unfold level; rewrite (Z.mul_comm 64), Z.div_add_l, Z.div_small by lia; lia).
  do 2 f_equal. rewrite <- (Z.mod_add (b - _) lvl) by lia. f_equal. lia.
Qed.
Lemma bucket_time_bound c lvl b : 0 <= lvl <= 8 -> 0 <= b < 64 -> c <= bucket_time (64 * lvl + b) c < c + 2 ^ 31.
Proof.
  intros Hl Hb. rewrite bucket_time_level by lia. unfold level_clk. pose proof (gran_pos lvl ltac:(lia)).
  assert (gran lvl <= 2 ^ 24) by (change (2 ^ 24) with (gran 8); apply Z.pow_le_mono_r; lia).
  pose proof (Z.div_mod (c + gran lvl - 1) (gran lvl) ltac:(lia)). pose proof (Z.mod_pos_bound (c + gran lvl - 1) (gran lvl) ltac:(lia)).
  set (k := (c + gran lvl - 1) / gran lvl) in *. pose proof (Z.mod_pos_bound (b - k) 64 eq_refl). nia.
Qed.

Lemma time_before_lt a b : - 2 ^ 63 < a - b < 2 ^ 63 -> time_before a b = (a <? b).
Proof.
  intros H. unfold time_before, time_after. destruct (Z.ltb_spec a b).
  - assert (s64 (w64 (a - b)) = s64 (a - b)) as <- by (unfold s64; by rewrite w64_idemp). rewrite s64_negative by lia. lia.
  - rewrite s64_positive by lia. lia.
Qed.

(** No bucket of a level is due before the first one pending. *)
Lemma level_first w lvl pos i u :
  let ck := level_clk (clk (base w)) lvl in
  wf w -> 0 <= lvl -> 0 <= pos < 64 ->
  (forall q, 0 <= q < pos -> bit (pending_map (base w)) (64 * lvl + (ck + q) mod 64) = false) ->
  queued w i u -> 64 * lvl <= Z.of_nat i < 64 * (lvl + 1) -> gran lvl * (ck + pos) <= bucket_time (Z.of_nat i) (clk (base w)).
Proof.
  intros ck Hw Hl Hp Hno Hq Hi. replace (Z.of_nat i) with (64 * lvl + (Z.of_nat i - 64 * lvl)) by lia.
  rewrite bucket_time_level by lia. fold ck. set (bi := Z.of_nat i - 64 * lvl). pose proof (gran_pos lvl Hl).
  pose proof (Z.mod_pos_bound (bi - ck) 64 eq_refl). apply Z.mul_le_mono_nonneg_l; [lia|].
  destruct (Z.lt_ge_cases ((bi - ck) mod 64) pos) as [Hlt|]; [|lia]. exfalso.
  specialize (Hno ((bi - ck) mod 64) ltac:(lia)). rewrite Z.add_mod_idemp_r in Hno by lia.
  replace (ck + (bi - ck)) with bi in Hno by lia. rewrite Z.mod_small in Hno by lia.
  replace (64 * lvl + bi) with (Z.of_nat i) in Hno by lia. rewrite (queued_bit w i u Hw Hq) in Hno. done.
Qed.

(** One level of the search. *)
Lemma earliest_level w lvl next pos :
  wf w -> 0 <= clk (base w) < 2 ^ 63 -> 0 <= lvl <= 8 -> earliest w (64 * lvl) next -> clk (base w) <= next ->
  let ck := level_clk (clk (base w)) lvl in
  ((pos = -1 /\ forall b, 0 <= b < 64 -> bit (pending_map (base w)) (64 * lvl + b) = false)
   \/ (0 <= pos < 64 /\ bit (pending_map (base w)) (64 * lvl + (ck + pos) mod 64) = true
       /\ forall q, 0 <= q < pos -> bit (pending_map (base w)) (64 * lvl + (ck + q) mod 64) = false)) ->
  let next' := if 0 <=? pos then
                 let tmp := w64 (Z.shiftl (w64 (ck + pos)) (LVL_SHIFT lvl)) in
                 if time_before tmp next then tmp else next
               else next in
  earliest w (64 * (lvl + 1)) next' /\ clk (base w) <= next'.
Proof.
  intros Hw Hc Hl (H1&H2&H3) Hn. cbn zeta. set (c := clk (base w)) in *. set (ck := level_clk c lvl).
  pose proof (gran_pos lvl ltac:(lia)) as Hg. intros [[-> Hno]|(Hp&Hb&Hno)].
  - replace (0 <=? -1) with false by done. split; [|done]. split_and!; [done| |done]. intros i u Hq Hi.
    destruct (Z.lt_ge_cases (Z.of_nat i) (64 * lvl)); [eauto|]. pose proof (queued_bit w i u Hw Hq) as E.
    replace (Z.of_nat i) with (64 * lvl + (Z.of_nat i - 64 * lvl)) in E by lia. rewrite Hno in E by lia. done.
  - replace (0 <=? pos) with true by lia. pose proof (Z.mod_pos_bound (ck + pos) 64 eq_refl) as Hm.
    set (b := (ck + pos) mod 64) in *.
    assert (Hmod : forall q, 0 <= q < 64 -> ((ck + q) mod 64 - ck) mod 64 = q).
    { intros q Hq. rewrite Zminus_mod_idemp_l. replace (ck + q - ck) with q by lia. by apply Z.mod_small. }
    assert (HT : bucket_time (64 * lvl + b) c = gran lvl * (ck + pos)).
    { rewrite bucket_time_level by lia. fold ck. unfold b. by rewrite Hmod. }
    pose proof (bucket_time_bound c lvl b Hl Hm) as HB. rewrite HT in HB.
    assert (0 <= ck) by (apply Z.div_pos; lia).
    assert (Etmp : w64 (Z.shiftl (w64 (ck + pos)) (LVL_SHIFT lvl)) = gran lvl * (ck + pos)).
    { rewrite (w64_small (ck + pos)) by (unfold two64; nia). rewrite Z.shiftl_mul_pow2 by (unfold LVL_SHIFT, LVL_CLK_SHIFT; lia).
      rewrite <- gran_pow2 by lia. rewrite Z.mul_comm. apply w64_small. unfold two64. lia. }
    rewrite Etmp. change NEXT_TIMER_MAX_DELTA with (2 ^ 30 - 1) in *.
    rewrite time_before_lt by lia. destruct (pending_bit w (Z.to_nat (64 * lvl + b)) Hw) as [u0 Hu0].
    { rewrite Z2Nat.id by lia. done. } { lia. }
    assert (Hlow := fun i u => level_first w lvl pos i u Hw ltac:(lia) ltac:(lia) Hno). fold c ck in Hlow.
    unfold earliest. cbn zeta. fold c. change NEXT_TIMER_MAX_DELTA with (2 ^ 30 - 1).
    destruct (Z.ltb_spec (gran lvl * (ck + pos)) next).
    + split; [|lia]. split_and!; [lia| |].
      * intros i u Hq Hi. destruct (Z.lt_ge_cases (Z.of_nat i) (64 * lvl)) as [Hlt|]; [specialize (H2 i u Hq Hlt); lia|]. eauto.
      * right. exists (Z.to_nat (64 * lvl + b)), u0. rewrite Z2Nat.id by lia. fold c. by rewrite HT.
    + split; [|done]. split_and!; [done| |done]. intros i u Hq Hi.
      destruct (Z.lt_ge_cases (Z.of_nat i) (64 * lvl)); [eauto|]. specialize (Hlow i u Hq ltac:(lia)). fold c. lia.
Qed.

Lemma next_loop_spec w n : forall lvl next,
  wf w -> 0 <= clk (base w) < 2 ^ 63 -> lvl + Z.of_nat n = 9 -> 0 <= lvl -> earliest w (64 * lvl) next -> clk (base w) <= next ->
  exists next', next_loop n lvl (64 * lvl) (level_clk (clk (base w)) lvl) next w = Ret next'
    /\ earliest w 576 next' /\ clk (base w) <= next'.
Proof.
  induction n as [|n IH]; intros lvl next Hw Hc Hn Hl He Hle; cbn [next_loop].
  { exists next. split; [done|]. replace 576 with (64 * lvl) by lia. done. }
  set (ck := level_clk (clk (base w)) lvl). change LVL_MASK with (Z.ones 6). change LVL_CLK_MASK with (Z.ones 3).
  rewrite !Z.land_ones by lia. change (2 ^ 6) with 64. change (2 ^ 3) with 8. pose proof (gran_pos lvl Hl).
  assert (0 <= ck) by (apply Z.div_pos; lia).
  destruct (next_pending_bucket_spec w lvl (ck mod 64) Hw ltac:(lia) (Z.mod_pos_bound ck 64 eq_refl)) as (pos&->&Hpos).
  cbn [res_bind]. setoid_rewrite Z.add_mod_idemp_l in Hpos; [|lia|lia].
  destruct (earliest_level w lvl next pos Hw Hc ltac:(lia) He Hle Hpos) as [He' Hle'].
  rewrite Z.shiftr_div_pow2 by done. change (2 ^ LVL_CLK_SHIFT) with 8. change LVL_SIZE with 64.
  assert (ck <= clk (base w)).
  { unfold ck, level_clk. apply Z.lt_succ_r, Z.div_lt_upper_bound; [lia|]. nia. }
  replace (w64 (ck / 8 + (if negb (ck mod 8 =? 0) then 1 else 0))) with (level_clk (clk (base w)) (lvl + 1)).
  2: { rewrite level_clk_next by done. fold ck. pose proof (Z.div_mod ck 8 ltac:(lia)). pose proof (Z.mod_pos_bound ck 8 eq_refl).
       assert (Ed : (ck + 7) / 8 = ck / 8 + (if negb (ck mod 8 =? 0) then 1 else 0)).
       { symmetry. apply (Z.div_unique_pos _ _ _ (if ck mod 8 =? 0 then 7 else ck mod 8 - 1)).
         - destruct (Z.eqb_spec (ck mod 8) 0); lia.
         - destruct (Z.eqb_spec (ck mod 8) 0); cbn; lia. }
       rewrite <- Ed. symmetry. apply w64_small. split; [apply Z.div_pos; lia|]. apply Z.div_lt_upper_bound; unfold two64; lia. }
  replace (64 * lvl + 64) with (64 * (lvl + 1)) by lia. apply IH; try done; lia.
Qed.

Lemma __next_timer_interrupt_spec w :
  wf w -> 0 <= clk (base w) < 2 ^ 63 ->
  exists next, __next_timer_interrupt w = Ret next /\ earliest w 576 next /\ clk (base w) <= next.
Proof.
  intros Hw Hc. unfold __next_timer_interrupt. change (Z.to_nat LVL_DEPTH) with 9%nat.
  change NEXT_TIMER_MAX_DELTA with (2 ^ 30 - 1). rewrite w64_small by (unfold two64; lia).
  destruct (next_loop_spec w 9 0 (clk (base w) + (2 ^ 30 - 1)) Hw Hc) as (next&E&He); try lia.
  { split_and!; [done| |by left]. intros i u Hq Hi. lia. }
  exists next. split; [|done]. rewrite <- E. f_equal. unfold level_clk. change (gran 0) with 1. rewrite Z.div_1_r. lia.
Qed.

(** Setting the clock forward to the next event passes no bucket by. *)
Lemma earliest_skip w next c i u :
  earliest w 576 next -> wf w -> clk (base w) <= c <= next -> queued w i u ->
  bucket_time (Z.of_nat i) c = bucket_time (Z.of_nat i) (clk (base w)).
Proof.
  intros (_&H&_) Hw Hc Hq. specialize (H i u Hq). pose proof (queued_range _ _ _ _ Hw Hq).
  destruct (bucket_time_spec (Z.of_nat i) (clk (base w)) ltac:(lia)) as (B1&B2&B3).
  apply bucket_time_unique; [lia|lia|done|]. intros d Hd. destruct (visits d (Z.of_nat i)) eqn:E; [|done].
  specialize (B3 d ltac:(lia) E). lia.
Qed.
