(* ===== verification/TimerWheelSpec.v ===== *)
(** What the timer wheel promises: timers are not called before they expire, and they are
    called in time. *)

From stdpp Require Import gmap.
From S2P Require Import Prelude FindBit Hweight Bitmap BitmapFacts TimerWheel TimerWheelTime TimerWheelFacts TimerWheelRun TimerWheelNext.

(** * A run to look at *)

Definition ret {A} (d : A) (r : res A) : A := match r with Ret a => a | _ => d end.

(** Timer 7 is set up at jiffy 1000, armed for that jiffy, and called at jiffy 1001. *)
Definition ex_new : wheel := init_timer_cpu 1000.
Definition ex_setup : wheel := ret ex_new (run_op (Setup 7 1 0) ex_new).
Definition ex_armed : wheel := ret ex_new (run_op (Mod 7 1000) ex_setup).
Definition ex_ticked : wheel := tick ex_armed.
Definition ex_turn (w : wheel) : wheel := let w := ret w (collect_expired_timers w) in set_clk w (w64 (clk (base w) + 1)).
Definition ex_taken : wheel := ex_turn (ex_turn ex_ticked).
Definition ex_called : wheel := fst (ret (ex_taken, None) (expire_first 0 ex_taken)).
Definition ex_done : wheel := set_running ex_called None.

Lemma ex_reach_e : in_reach 1000 1000.
Proof. unfold in_reach. split; [lia|]. split; [lia|]. left. reflexivity. Qed.
Lemma ex_armable : armable 7 1000 ex_setup.
Proof. split; [unfold two64; lia|]. exists (mkTimer false 0 1 0). split; [reflexivity|done]. Qed.
Lemma ex_timely : timely (Mod 7 1000) ex_setup.
Proof. intros e [= <-]. split; [apply ex_reach_e|]. intros tm H. by apply elem_of_nil in H. Qed.
Lemma ex_path_armed : path_by (careful 7) (start 1000) [Call (Setup 7 1 0); Call (Mod 7 1000)] (Idle, ex_armed).
Proof.
  eapply path_cons; [apply (step_call Idle ex_new _ ex_setup); reflexivity|split; [intros tm Htm; discriminate Htm|done]|].
  eapply path_cons; [apply (step_call Idle ex_setup _ ex_armed); [reflexivity|vm_compute; reflexivity]
                    |split; [apply ex_armable|intros _; apply ex_timely]|].
  apply path_nil.
Qed.
Lemma ex_path_taken : path_by (careful 7) (Idle, ex_armed) [Tick; Tau; Tau; Tau] (Running 1, ex_taken).
Proof.
  eapply path_cons; [apply (step_tick Idle ex_armed)|split; [vm_compute; reflexivity|done]|]. fold ex_ticked.
  eapply path_cons; [apply step_enter; vm_compute; reflexivity|done|].
  eapply path_cons; [apply (step_collect ex_ticked (ret ex_ticked (collect_expired_timers ex_ticked))); vm_compute; reflexivity|done|].
  change (path_by (careful 7) (Running 0, ex_turn ex_ticked) [Tau] (Running 1, ex_taken)).
  eapply path_cons; [|done|apply path_nil].
  apply (step_collect (ex_turn ex_ticked) (ret (ex_turn ex_ticked) (collect_expired_timers (ex_turn ex_ticked)))); vm_compute; reflexivity.
Qed.
Lemma ex_step_fire : step (Running 1, ex_taken) (Fire 7) (Calling 1, ex_called).
Proof. apply step_fire. vm_compute. reflexivity. Qed.
Lemma ex_path_done : path (Idle, ex_armed) ([Tick; Tau; Tau; Tau] ++ [Fire 7; Tau; Tau; Tau]) (Idle, ex_done).
Proof.
  eapply path_app; [eapply path_weaken; [|apply ex_path_taken]; by intros w l []|]. eapply path_cons; [apply ex_step_fire|done|].
  eapply path_cons; [apply step_return|done|].
  eapply path_cons; [apply (step_next 0 ex_called ex_called); vm_compute; reflexivity|done|].
  eapply path_cons; [apply step_leave; vm_compute; reflexivity|done|]. apply path_nil.
Qed.
Lemma ex_careful_armed : reachable_by (careful 7) (Idle, ex_armed).
Proof. eexists 1000, _. split; [lia|]. split; [lia|]. apply ex_path_armed. Qed.
Lemma ex_careful_taken : reachable_by (careful 7) (Running 1, ex_taken).
Proof. eapply reachable_path; [apply ex_careful_armed|apply ex_path_taken]. Qed.
Lemma ex_reachable_armed : reachable (Idle, ex_armed).
Proof. exact (reachable_careful 7 _ ex_careful_armed). Qed.
Lemma ex_reachable_taken : reachable (Running 1, ex_taken).
Proof. exact (reachable_careful 7 _ ex_careful_taken). Qed.

(** * The bucket of a timer *)

(** For an expiry time in reach of the wheel, [calc_wheel_index] gives a bucket of the
    wheel.  The first clock from now on that looks at it is after the expiry time, and at most
    one unit of the bucket's level later, or now if the time is over.  The unit is one
    jiffy for timers less than 63 jiffies ahead and at most 8/63 of the distance otherwise. *)
Theorem calc_wheel_index_correct e c :
  in_reach e c ->
  let idx := calc_wheel_index e c in
  let g := gran (level idx) in
  0 <= idx < WHEEL_SIZE
  /\ (exists T, c <= T /\ e < T <= Z.max (e + g) c /\ visits T idx = true /\ forall d, c <= d < T -> visits d idx = false)
  /\ (c <= e < c + 63 -> g = 1) /\ (c + 63 <= e -> 63 * g <= 8 * (e - c)).
Proof.
  intros Hr. cbn zeta. pose proof Hr as (He&Hc&_).
  pose proof (calc_wheel_index_range e c ltac:(unfold two64; lia)) as Hi. split; [done|]. split.
  - destruct (calc_wheel_index_due e c Hr) as [H1 H2].
    destruct (bucket_time_spec (calc_wheel_index e c) c ltac:(lia)) as (_&B2&B3).
    exists (bucket_time (calc_wheel_index e c) c). split_and!; try lia.
    intros d Hd. destruct (visits d _) eqn:E; [|done]. specialize (B3 d ltac:(lia) E). lia.
  - split; intros H; destruct (calc_wheel_index_gran e c Hr ltac:(lia)) as [G1 G2]; [apply G1|apply G2]; lia.
Qed.
Lemma calc_wheel_index_correct_witness : in_reach 5000 1000 /\ 0 <= calc_wheel_index 5000 1000 < WHEEL_SIZE.
Proof.
  assert (H : in_reach 5000 1000) by (split; [lia|]; split; [lia|]; left; reflexivity).
  split; [exact H|]. apply (calc_wheel_index_correct 5000 1000 H).
Defined.

(** * Consistency *)

(** C24: However ticks, legal calls of the timer interface and the steps of the softirq are
    interleaved, whatever expiry times are asked for, the wheel stays consistent: the pending map has exactly the bits of
    the buckets that are not empty, a pending timer is on exactly one list and knows its bucket.
    No legal call faults, and the softirq always has a next step until it is idle.  Legal is
    what the code's BUG_ONs and types ask for. *)
Theorem timer_wheel_consistent p w :
  reachable (p, w) ->
  wf w /\ (forall o, legal o w -> exists w', run_op o w = Ret w')
  /\ (p <> Idle -> exists l s', step (p, w) l s' /\ l <> Tick).
Proof.
  intros Hr. pose proof (inv_reachable _ Hr) as (Hw&Hti&Hl&Hd). cbn [fst snd] in *. split; [done|]. split.
  { intros o Hb. destruct (run_op_spec o w Hw Hti Hb) as (w'&E&_). eauto. }
  intros Hp. destruct p as [|[|k]|k]; [done| | |].
  - destruct (time_after_eq (jiffies w) (clk (base w))) eqn:E.
    + destruct (collect_expired_timers_spec w Hw) as (w'&Ew&_); [apply Hti|by intros u; apply drained_collected|].
      eexists Tau, _. split; [by apply (step_collect w w')|done].
    + eexists Tau, _. split; [by apply step_leave|done].
  - cbn in Hl. destruct (lookup_lt_is_Some_2 (heads w) k) as [l Ek]; [lia|]. destruct l as [|t l].
    + eexists Tau, _. split; [|done]. apply (step_next k w w). unfold expire_first. by rewrite Ek.
    + destruct (expire_first_spec k w t l Hw Hti Ek) as (w'&tm&E&_). eexists (Fire t), _. split; [by apply step_fire|done].
  - eexists Tau, _. split; [apply step_return|done].
Qed.
Lemma timer_wheel_consistent_witness : reachable (Running 1, ex_taken) /\ wf ex_taken.
Proof. split; [exact ex_reachable_taken|]. apply (timer_wheel_consistent (Running 1) ex_taken ex_reachable_taken). Defined.

(** * Safety *)

(** C9: A timer function is called only for a timer that was pending and whose expiry time
    lies before the current jiffy; the timer is no longer pending then.  This holds for a
    timer [t] whose arming calls are timely: for a time in reach of the wheel (less than
    [LVL_START 8] jiffies ahead, or below [WHEEL_TIMEOUT_CUTOFF] as an absolute time), and, if the
    softirq has the timer on its list already, not for the bucket it was taken from.  The calls for other
    timers are any legal ones. *)
Theorem timers_not_early s t s' :
  reachable_by (careful t) s -> step s (Fire t) s' ->
  exists tm, timers s.2 !! t = Some tm /\ pprev tm = true /\ expires tm < jiffies s.2 /\ timers s'.2 !! t = Some (cleared tm).
Proof.
  intros Hr Hs. pose proof (inv_reachable _ (reachable_careful t s Hr)) as Hi. pose proof (on_time_reachable t s Hr) as Hot.
  inversion Hs as [| | | | |k w w' t' E| |]; subst. cbn [snd] in *.
  destruct (expire_first_inv k w w' (Some t) Hi E) as [(l&Ek) _]. destruct Hi as (Hw&Hsa&_). cbn in Hw, Hsa.
  destruct (expire_first_spec k w t l Hw Hsa Ek) as (w1&tm&E1&_&_&_&Ht&Ht1&[Hp Hc]&_). rewrite E in E1. injection E1 as <-.
  exists tm. destruct (Hot tm Ht) as [_ He]. specialize (He Hc). pose proof (sa_clock _ Hsa). split_and!; (done || lia).
Qed.
Lemma timers_not_early_witness :
  reachable_by (careful 7) (Running 1, ex_taken) /\ step (Running 1, ex_taken) (Fire 7) (Calling 1, ex_called)
  /\ exists tm, timers ex_taken !! 7%nat = Some tm /\ expires tm < jiffies ex_taken.
Proof.
  split; [exact ex_careful_taken|]. split; [exact ex_step_fire|].
  destruct (timers_not_early (Running 1, ex_taken) 7 (Calling 1, ex_called) ex_careful_taken ex_step_fire) as (tm&H1&_&H2&_).
  exists tm. split; [exact H1|exact H2].
Defined.

(** * Liveness *)

(** C4: A pending timer that was armed by timely calls (as in the property above) and that nobody
    changes or cancels is called: every run that leads to a
    state in which the softirq is idle and has caught up with a time one unit after the
    expiry time (or with the clock, if that was later) has called it. *)
Theorem timers_fire s t tm ls w' :
  reachable_by (careful t) s -> timers s.2 !! t = Some tm -> pprev tm = true -> path s ls (Idle, w') ->
  jiffies w' < clk (base w') ->
  Z.max (expires tm + gran (level (timer_get_idx tm))) (clk (base s.2)) <= jiffies w' ->
  Forall (fun l => match l with Call o => op_timer o <> t | _ => True end) ls ->
  Fire t ∈ ls.
Proof.
  intros Hr0 Ht Hp Hpath Hup Hlate Hno. pose proof (reachable_careful t s Hr0) as Hr. destruct (decide (Forall (fun l => concerns t l = false) ls)) as [Hn|Hn].
  2: { apply not_Forall_Exists in Hn; [|tc_solve]. apply Exists_exists in Hn as (l&Hl&Hc). rewrite Forall_forall in Hno.
       specialize (Hno l Hl). destruct l as [|o|u|]; cbn in Hc; try done; case_bool_decide; try done. by subst. }
  exfalso. pose proof (inv_reachable _ Hr) as Hi. pose proof (inv_path _ _ _ Hi Hpath) as Hi'.
  destruct Hi as (Hw&Hti&_). set (idx := timer_get_idx tm) in *.
  assert (Hidx : 0 <= idx < WHEEL_SIZE) by by apply (wf_range _ _ Hw t tm).
  destruct (wf_pending _ _ Hw t tm Ht Hp) as [Hc|(i&Hq)]; [done| |].
  - apply (waits_over t idx (jiffies w') w' Hi'); [lia|lia|].
    apply (waits_path t idx (jiffies w') s ls (Idle, w')); [by apply inv_reachable|done|lia|done|by left].
  - destruct (wf_queued _ _ Hw i t Hq) as (_&tm'&Ht'&_&Ei). rewrite Ht in Ht'. injection Ht' as <-. fold idx in Ei.
    destruct (proj1 (on_time_reachable t s Hr0 tm Ht) i Hq) as (_&Hdue). rewrite <- Ei in Hdue.
    apply (waits_over t idx (bucket_time idx (clk (base s.2))) w' Hi'); [lia|lia|].
    apply (waits_path t idx _ s ls (Idle, w')); [by apply inv_reachable|done|lia|done|]. right.
    rewrite Ei, Nat2Z.id. done.
Qed.
Lemma timers_fire_witness :
  reachable_by (careful 7) (Idle, ex_armed) /\ Fire 7 ∈ [Tick; Tau; Tau; Tau] ++ [Fire 7; Tau; Tau; Tau].
Proof.
  split; [exact ex_careful_armed|].
  apply (timers_fire (Idle, ex_armed) 7 (ret (mkTimer false 0 0 0) (timer_at ex_armed 7)) _ ex_done ex_careful_armed);
    [vm_compute; reflexivity|vm_compute; reflexivity|exact ex_path_done|vm_compute; reflexivity|vm_compute; discriminate|].
  repeat constructor.
Defined.

(** * Termination *)

(** C37: With timer functions that make legal calls only, re-arming their own timer included,
    one run of the softirq returns.  It is one of the interleavings above, with time standing
    still, and it ends with all clocks up to the current jiffy processed.  And in general, however calls
    of other code come in between, the softirq can take only finitely many steps without a tick. *)
Theorem run_timers_terminates fn w :
  reachable (Idle, w) -> polite fn ->
  (exists w' ls, __run_timers fn w = Ret w' /\ path (Idle, w) ls (Idle, w') /\ reachable (Idle, w')
    /\ jiffies w' = jiffies w /\ jiffies w' < clk (base w'))
  /\ well_founded softirq_next.
Proof.
  intros Hr Hfn. split; [|apply softirq_next_wf]. destruct (__run_timers_path fn Hfn w (inv_reachable _ Hr)) as (w'&ls&E&Hp&Hj&Hc).
  exists w', ls. split_and!; try done. by eapply reachable_path.
Qed.
(** A timer function that arms its timer again for the next jiffy. *)
Definition rearm (f : Z) (t : nat) (w : wheel) : list op := [Mod t (w64 (jiffies w + 1))].
Lemma rearm_polite : polite rearm.
Proof. intros f t w tm Hw Hsa Ht <- Hf. split; [|done]. split; [apply w64_range|by exists tm]. Qed.
Lemma run_timers_terminates_witness :
  reachable (Idle, ex_ticked) /\ polite rearm
  /\ exists w' tm, __run_timers rearm ex_ticked = Ret w' /\ timers w' !! 7%nat = Some tm /\ pprev tm = true /\ expires tm = 1002.
Proof.
  assert (Hr : reachable (Idle, ex_ticked)).
  { eapply reachable_path; [apply ex_reachable_armed|]. eapply path_cons; [apply (step_tick Idle ex_armed)|vm_compute; reflexivity|apply path_nil]. }
  split; [exact Hr|]. split; [exact rearm_polite|].
  destruct (run_timers_terminates rearm ex_ticked Hr rearm_polite) as [(w'&ls&E&_) _].
  exists w', (ret (mkTimer false 0 0 0) (timer_at w' 7)). split; [exact E|].
  assert (w' = ret ex_ticked (__run_timers rearm ex_ticked)) as -> by (rewrite E; reflexivity).
  split; [vm_compute; reflexivity|]. split; vm_compute; reflexivity.
Defined.

(** * The calls *)

(** C38: What each call does to a timer [t], in any state that can be reached: whether it was pending
    is what it returns.  [mod_timer] leaves it pending with the new expiry time and,
    unless it was on the softirq's list or had that time already, in the bucket for it;
    [mod_timer_pending] does so only if it was pending, else nothing; [timer_reduce] keeps the old time
    of a pending timer if that is not later.  [add_timer] and [add_timer_on] do it with the time that is in the
    timer, and are refused for a pending one; none of them takes a timer without a function.  [del_timer] and
    [try_to_del_timer_sync] leave it off all lists, the latter unless its function is
    running, where it returns -1 and does nothing.  No other timer and no clock changes,
    and the wheel stays consistent. *)
Theorem timer_calls_correct p w t e tm :
  reachable (p, w) -> timers w !! t = Some tm -> 0 <= e < two64 ->
  let was := if pprev tm then 1 else 0 in
  let off w' := touches t w w' /\ wf w' /\ timers w' !! t = Some (cleared tm) /\ ~ collected w' t /\ (forall i, ~ queued w' i t) in
  (function tm <> 0 ->
   (exists w', mod_timer t e w = Ret (w', was) /\ armed t (function tm) e w w' /\ placed t e w w')
   /\ (exists w', mod_timer_pending t e w = Ret (w', was)
         /\ if pprev tm then armed t (function tm) e w w' /\ placed t e w w' else w' = w)
   /\ (exists w', timer_reduce t e w = Ret (w', was)
         /\ armed t (function tm) (if pprev tm && (s64 (expires tm - e) <=? 0) then expires tm else e) w w' /\ placed t e w w')
   /\ (pprev tm = false ->
       (exists w', add_timer t w = Ret w' /\ armed t (function tm) (expires tm) w w' /\ in_bucket t (expires tm) w')
       /\ (exists w', add_timer_on t w = Ret w' /\ armed t (function tm) (expires tm) w w' /\ in_bucket t (expires tm) w')))
  /\ (function tm = 0 ->
      mod_timer t e w = BUG /\ mod_timer_pending t e w = BUG /\ timer_reduce t e w = BUG /\ add_timer t w = BUG /\ add_timer_on t w = BUG)
  /\ (pprev tm = true -> add_timer t w = BUG /\ add_timer_on t w = BUG)
  /\ (exists w', del_timer t w = Ret (w', was) /\ off w')
  /\ (if bool_decide (running_timer (base w) = Some t) then try_to_del_timer_sync t w = Ret (w, -1)
      else exists w', try_to_del_timer_sync t w = Ret (w', was) /\ off w').
Proof.
  intros Hr Ht He was off. pose proof (inv_reachable _ Hr) as (Hw&Hsa&_). cbn in Hw, Hsa.
  assert (Hdel : exists w', detach_if_pending t true w = Ret (w', was) /\ off w').
  { destruct (del_spec t w tm Hw Hsa Ht) as (w'&E&(Hw'&_&Hto&_)&Ht'&Hoff). exists w'. split; [done|]. split_and!; try done; [|apply Hoff..].
    rewrite Ht'. destruct (pprev tm) eqn:Hp; [done|]. destruct tm. cbn in Hp. by subst. }
  split_and!.
  - intros Hf. split; [|split; [|split; [|intros Hp; by apply add_timer_spec]]].
    + destruct (__mod_timer_spec t e 0 w tm Hw Hsa Ht Hf He) as (w'&E&Hpl&Ha). exists w'. rewrite andb_false_r in Ha.
      unfold new_expires in Ha. change (Z.land 0 MOD_TIMER_REDUCE =? 0) with true in Ha. cbn [negb] in Ha. rewrite andb_false_r in Ha. done.
    + destruct (__mod_timer_spec t e MOD_TIMER_PENDING_ONLY w tm Hw Hsa Ht Hf He) as (w'&E&Hpl&Ha). exists w'. split; [done|].
      destruct (pprev tm) eqn:Hp; cbn in Ha; [|done]. split; [|done]. unfold new_expires in Ha. rewrite Hp in Ha. done.
    + destruct (__mod_timer_spec t e MOD_TIMER_REDUCE w tm Hw Hsa Ht Hf He) as (w'&E&Hpl&Ha). exists w'. split; [done|]. split; [|done].
      rewrite andb_false_r in Ha. unfold new_expires in Ha. cbn in Ha. by rewrite andb_true_r in Ha.
  - intros Hf. unfold mod_timer, mod_timer_pending, timer_reduce, add_timer, add_timer_on, mod_timer, __mod_timer, timer_at.
    rewrite !Ht. cbn [res_bind]. rewrite Hf. cbn. split_and!; try done; destruct (timer_pending tm); done.
  - intros Hp. unfold add_timer, add_timer_on, timer_at. rewrite !Ht. cbn [res_bind]. unfold timer_pending. rewrite Hp. done.
  - by rewrite (del_timer_eq t w tm Ht).
  - unfold try_to_del_timer_sync. by case_bool_decide.
Qed.
Lemma timer_calls_correct_witness :
  reachable (Idle, ex_armed) /\ (exists w', del_timer 7 ex_armed = Ret (w', 1)) /\ exists w', timer_reduce 7 1200 ex_armed = Ret (w', 1).
Proof.
  split; [exact ex_reachable_armed|].
  destruct (timer_calls_correct Idle ex_armed 7 1200 (ret (mkTimer false 0 0 0) (timer_at ex_armed 7)) ex_reachable_armed)
    as (Harm&_&_&(w'&E&_)&_); [vm_compute; reflexivity|unfold two64; lia|].
  destruct Harm as (_&_&(w2&E2&_)&_); [vm_compute; discriminate|].
  split; [exists w'; exact E|exists w2; exact E2].
Defined.

(** * The next event *)

(** C39: [__next_timer_interrupt] returns the earliest due time of the buckets that are not
    empty, or the given maximum if there is none before it; the clock may be set to any
    time up to it without changing when a timer is due. *)
Theorem next_timer_interrupt_correct p w :
  reachable (p, w) ->
  exists next, __next_timer_interrupt w = Ret next /\ clk (base w) <= next <= clk (base w) + NEXT_TIMER_MAX_DELTA
    /\ (forall i t, queued w i t -> next <= bucket_time (Z.of_nat i) (clk (base w)))
    /\ (next < clk (base w) + NEXT_TIMER_MAX_DELTA -> exists i t, queued w i t /\ bucket_time (Z.of_nat i) (clk (base w)) = next)
    /\ (forall c i t, clk (base w) <= c <= next -> queued w i t ->
          bucket_time (Z.of_nat i) c = bucket_time (Z.of_nat i) (clk (base w))).
Proof.
  intros Hr. pose proof (inv_reachable _ Hr) as (Hw&Hti&_). cbn in Hw, Hti. pose proof (sa_clock _ Hti).
  destruct (__next_timer_interrupt_spec w Hw ltac:(lia)) as (next&E&He&Hle). exists next.
  pose proof He as (H1&H2&H3). split_and!; try done.
  - intros i t Hq. pose proof (queued_range _ _ _ _ Hw Hq). apply (H2 i t); [done|lia].
  - intros Hlt. destruct H3; [lia|done].
  - intros c i t Hc Hq. by apply (earliest_skip w next c i t).
Qed.
Lemma next_timer_interrupt_correct_witness :
  reachable (Idle, ex_armed) /\ exists next, __next_timer_interrupt ex_armed = Ret next /\ next = 1001.
Proof.
  split; [exact ex_reachable_armed|].
  destruct (next_timer_interrupt_correct Idle ex_armed ex_reachable_armed) as (next&E&_). exists next. split; [exact E|].
  assert (Ret next = Ret 1001) as H by (rewrite <- E; vm_compute; reflexivity). injection H. auto.
Defined.

(** * What goes wrong outside these conditions *)

(** The last branch of [calc_wheel_index] compares the expiry time itself with the capacity
    of the wheel, instead of its distance: a timeout of a week can be due at once... *)
Example long_timeout_due_at_once :
  let c := 319 * 2 ^ 24 in
  let week := 7 * 24 * 3600 * HZ in
  bucket_time (calc_wheel_index (c + week) c) c = c.
Proof. vm_compute. reflexivity. Qed.
(** ... and one armed right after boot, at INITIAL_JIFFIES, almost seven weeks from then. *)
Example long_timeout_due_late :
  let c := 2 ^ 32 - 300 * HZ in
  let week := 7 * 24 * 3600 * HZ in
  6 * week < bucket_time (calc_wheel_index (c + week) c) c - c.
Proof. vm_compute. reflexivity. Qed.

(** Two timers that expire together: the function of the first one moves the second 63
    jiffies into the future.  The second is on the list of the softirq already, still counts
    as pending, and its new bucket has the number of the one it came from, so only the expiry
    time is changed; it is called at once. *)
Definition ex_fn (f : Z) (t : nat) (w : wheel) : list op := if f =? 1 then [Mod 2 (jiffies w + 63)] else [].
Definition ex_pair : wheel :=
  tick (tick (ret ex_new (run_ops [Setup 2 2 0; Add 2 1001; Setup 1 1 0; Add 1 1001] ex_new))).
Example mod_timer_of_collected_timer_lost :
  exists w' tm, __run_timers ex_fn ex_pair = Ret w' /\ timers w' !! 2%nat = Some tm
    /\ pprev tm = false /\ expires tm = jiffies w' + 63.
Proof.
  exists (ret ex_pair (__run_timers ex_fn ex_pair)), (mkTimer false 1065 2 (42 * 2 ^ 22)).
  split_and!; vm_compute; reflexivity.
Qed.
