(* ===== verification/Buddy.v ===== *)
(** The buddy allocator: the part of mm/page_alloc.c that manages the free blocks of a
    zone, with [__find_buddy_pfn] of mm/internal.h.

    The configuration is the repository's minimalconfig: no CMA, no memory isolation, no
    guard pages, no holes in zones, and [pageblock_order = MAX_ORDER - 1].  Then
    [max_order] in [__free_one_page] is [MAX_ORDER], the code for merging beyond a page
    block is not reached, and [__rmqueue_cma_fallback] returns NULL.

    A page is named by its frame number.  [pages] is the memory map; a page of another
    zone may be in it.  A free list is the list of the pages on it, from its first one
    on.  The migrate type of a page block is kept in [pageblocks], by number of the block;
    it stands for the bits that [get_pageblock_migratetype] and
    [set_pageblock_migratetype] read and write. *)

From stdpp Require Import gmap.
From S2P Require Import Prelude.

(** * Data *)

Definition MAX_ORDER : nat := 11.
Definition pageblock_order : nat := MAX_ORDER - 1.
Definition pageblock_nr_pages : Z := Z.shiftl 1 (Z.of_nat pageblock_order).

Definition MIGRATE_UNMOVABLE : nat := 0.
Definition MIGRATE_MOVABLE : nat := 1.
Definition MIGRATE_RECLAIMABLE : nat := 2.
Definition MIGRATE_PCPTYPES : nat := 3.
Definition MIGRATE_HIGHATOMIC : nat := MIGRATE_PCPTYPES.
Definition MIGRATE_TYPES : nat := 4.

(** The fields of [struct page] the allocator uses; the zone is part of [page->flags] in the
    code, [mapping] and [compound_head] are pointers with flags in their low bits. *)
Record page := mkPage {
  zone_id : Z;
  _mapcount : Z;
  private : nat;
  index : nat;
  mapping : Z;
  _refcount : Z;
  flags : Z;
  compound_head : Z;
  _compound_dtor : nat;
  _compound_order : nat;
}.

Definition with_mapcount (v : Z) (pg : page) : page :=
  mkPage (zone_id pg) v (private pg) (index pg) (mapping pg) (_refcount pg) (flags pg) (compound_head pg) (_compound_dtor pg) (_compound_order pg).
Definition with_private (v : nat) (pg : page) : page :=
  mkPage (zone_id pg) (_mapcount pg) v (index pg) (mapping pg) (_refcount pg) (flags pg) (compound_head pg) (_compound_dtor pg) (_compound_order pg).
Definition with_index (v : nat) (pg : page) : page :=
  mkPage (zone_id pg) (_mapcount pg) (private pg) v (mapping pg) (_refcount pg) (flags pg) (compound_head pg) (_compound_dtor pg) (_compound_order pg).
Definition with_mapping (v : Z) (pg : page) : page :=
  mkPage (zone_id pg) (_mapcount pg) (private pg) (index pg) v (_refcount pg) (flags pg) (compound_head pg) (_compound_dtor pg) (_compound_order pg).
Definition with_refcount (v : Z) (pg : page) : page :=
  mkPage (zone_id pg) (_mapcount pg) (private pg) (index pg) (mapping pg) v (flags pg) (compound_head pg) (_compound_dtor pg) (_compound_order pg).
Definition with_flags (v : Z) (pg : page) : page :=
  mkPage (zone_id pg) (_mapcount pg) (private pg) (index pg) (mapping pg) (_refcount pg) v (compound_head pg) (_compound_dtor pg) (_compound_order pg).
Definition with_compound_head (v : Z) (pg : page) : page :=
  mkPage (zone_id pg) (_mapcount pg) (private pg) (index pg) (mapping pg) (_refcount pg) (flags pg) v (_compound_dtor pg) (_compound_order pg).

Definition PG_lru : Z := 5.
Definition PAGE_BUDDY_MAPCOUNT_VALUE : Z := -128.
Definition PAGE_MAPPING_MOVABLE : Z := 2.
Definition PAGE_MAPPING_FLAGS : Z := 3.

Definition PageBuddy (pg : page) : bool := _mapcount pg =? PAGE_BUDDY_MAPCOUNT_VALUE.
Definition PageLRU (pg : page) : bool := Z.testbit (flags pg) PG_lru.
Definition __PageMovable (pg : page) : bool := Z.land (mapping pg) PAGE_MAPPING_FLAGS =? PAGE_MAPPING_MOVABLE.

Record free_area_t := mkArea {
  free_list : list (list Z);
  nr_free : Z;
}.

Record zone := mkZone {
  zone_start_pfn : Z;
  spanned_pages : Z;
  nr_free_pages : Z;
  nr_reserved_highatomic : Z;
  managed_pages : Z;
  page_group_by_mobility_disabled : bool;
  lowmem_reserve : list Z;
  free_area : list free_area_t;
  pages : gmap Z page;
  pageblocks : gmap Z nat;
}.

Definition set_pages (z : zone) (ps : gmap Z page) : zone :=
  mkZone (zone_start_pfn z) (spanned_pages z) (nr_free_pages z) (nr_reserved_highatomic z) (managed_pages z)
    (page_group_by_mobility_disabled z) (lowmem_reserve z) (free_area z) ps (pageblocks z).
Definition set_areas (z : zone) (fa : list free_area_t) : zone :=
  mkZone (zone_start_pfn z) (spanned_pages z) (nr_free_pages z) (nr_reserved_highatomic z) (managed_pages z)
    (page_group_by_mobility_disabled z) (lowmem_reserve z) fa (pages z) (pageblocks z).
Definition set_pageblocks (z : zone) (pb : gmap Z nat) : zone :=
  mkZone (zone_start_pfn z) (spanned_pages z) (nr_free_pages z) (nr_reserved_highatomic z) (managed_pages z)
    (page_group_by_mobility_disabled z) (lowmem_reserve z) (free_area z) (pages z) pb.
Definition set_nr_free_pages (z : zone) (n : Z) : zone :=
  mkZone (zone_start_pfn z) (spanned_pages z) n (nr_reserved_highatomic z) (managed_pages z)
    (page_group_by_mobility_disabled z) (lowmem_reserve z) (free_area z) (pages z) (pageblocks z).
Definition set_highatomic (z : zone) (n : Z) : zone :=
  mkZone (zone_start_pfn z) (spanned_pages z) (nr_free_pages z) n (managed_pages z)
    (page_group_by_mobility_disabled z) (lowmem_reserve z) (free_area z) (pages z) (pageblocks z).

(** * Pages and lists *)

Definition page_at (z : zone) (p : Z) : res page := match pages z !! p with Some pg => Ret pg | None => BUG end.
Definition area_at (z : zone) (o : nat) : res free_area_t := match free_area z !! o with Some a => Ret a | None => BUG end.
Definition list_at (a : free_area_t) (m : nat) : res (list Z) := match free_list a !! m with Some l => Ret l | None => BUG end.

Definition __find_buddy_pfn (page_pfn : Z) (order : nat) : Z := Z.lxor page_pfn (Z.shiftl 1 (Z.of_nat order)).

Definition set_page_order (p : Z) (order : nat) (z : zone) : res zone :=
  let* pg := page_at z p in
  Ret (set_pages z (<[p := with_mapcount PAGE_BUDDY_MAPCOUNT_VALUE (with_private order pg)]> (pages z))).
Definition rmv_page_order (p : Z) (z : zone) : res zone :=
  let* pg := page_at z p in
  Ret (set_pages z (<[p := with_private 0 (with_mapcount (-1) pg)]> (pages z))).
Definition set_pcppage_migratetype (p : Z) (mt : nat) (z : zone) : res zone :=
  let* pg := page_at z p in
  Ret (set_pages z (<[p := with_index mt pg]> (pages z))).

(** A page is taken off the list it is on. *)
Definition area_del (p : Z) (a : free_area_t) : free_area_t := mkArea (filter (fun q => q <> p) <$> free_list a) (nr_free a).
Definition list_del (p : Z) (z : zone) : zone := set_areas z (area_del p <$> free_area z).
(** Onto [zone->free_area[order].free_list[mt]]. *)
Definition list_link (tail : bool) (p : Z) (order mt : nat) (z : zone) : res zone :=
  let* a := area_at z order in
  let* l := list_at a mt in
  Ret (set_areas z (<[order := mkArea (<[mt := if tail then l ++ [p] else p :: l]> (free_list a)) (nr_free a)]> (free_area z))).
Definition list_add := list_link false.
Definition list_add_tail := list_link true.
Definition list_move (p : Z) (order mt : nat) (z : zone) : res zone := list_add p order mt (list_del p z).
Definition nr_free_add (order : nat) (n : Z) (z : zone) : res zone :=
  let* a := area_at z order in
  Ret (set_areas z (<[order := mkArea (free_list a) (w64 (nr_free a + n))]> (free_area z))).

Definition get_pageblock_migratetype (z : zone) (p : Z) : res nat :=
  match pageblocks z !! (p / pageblock_nr_pages) with Some mt => Ret mt | None => BUG end.
Definition set_pageblock_migratetype (p : Z) (mt : nat) (z : zone) : zone :=
  let mt := if page_group_by_mobility_disabled z && (mt <? MIGRATE_PCPTYPES)%nat then MIGRATE_UNMOVABLE else mt in
  set_pageblocks z (<[p / pageblock_nr_pages := mt]> (pageblocks z)).

Definition __mod_zone_freepage_state (nr : Z) (z : zone) : zone := set_nr_free_pages z (s64 (nr_free_pages z + nr)).

(** * Freeing *)

Definition page_is_buddy (z : zone) (p b : Z) (order : nat) : res bool :=
  let* pb := page_at z b in
  if PageBuddy pb && (private pb =? order)%nat then
    let* pp := page_at z p in
    Ret (zone_id pp =? zone_id pb)
  else Ret false.

(** The loop from [continue_merging] on: the zone, the page, its order and the last
    [buddy_pfn]. *)
Fixpoint merge_buddies (fuel : nat) (p : Z) (order : nat) (buddy_pfn : Z) (z : zone) : res (zone * Z * nat * Z) :=
  match fuel with
  | O => OutOfFuel
  | S fuel' =>
      if (order <? MAX_ORDER - 1)%nat then
        let buddy_pfn := __find_buddy_pfn p order in
        let* merge := page_is_buddy z p buddy_pfn order in
        if negb merge then Ret (z, p, order, buddy_pfn)
        else
          let z := list_del buddy_pfn z in
          let* z := nr_free_add order (-1) z in
          let* z := rmv_page_order buddy_pfn z in
          let combined_pfn := Z.land buddy_pfn p in
          merge_buddies fuel' combined_pfn (S order) buddy_pfn z
      else Ret (z, p, order, buddy_pfn)
  end.

(** "it's possible that pages are being freed that will coalesce soon" *)
Definition coalesces_soon (p : Z) (order : nat) (buddy_pfn : Z) (z : zone) : res bool :=
  if (order <? MAX_ORDER - 2)%nat then
    let combined_pfn := Z.land buddy_pfn p in
    page_is_buddy z combined_pfn (__find_buddy_pfn combined_pfn (S order)) (S order)
  else Ret false.

Definition __free_one_page (p : Z) (order mt : nat) (z : zone) : res zone :=
  let z := __mod_zone_freepage_state (Z.shiftl 1 (Z.of_nat order)) z in
  let* (z, p, order, buddy_pfn) := merge_buddies MAX_ORDER p order 0 z in
  let* z := set_page_order p order z in
  let* soon := coalesces_soon p order buddy_pfn z in
  let* z := if soon : bool then list_add_tail p order mt z else list_add p order mt z in
  nr_free_add order 1 z.

(** * Allocating *)

(** while (high > low); [size] is [1 << high]. *)
Fixpoint expand (p : Z) (low high mt : nat) (z : zone) : res zone :=
  match high with
  | O => Ret z
  | S h =>
      if (low <? S h)%nat then
        let size := Z.shiftl 1 (Z.of_nat h) in
        let* z := list_add (p + size) h mt z in
        let* z := nr_free_add h 1 z in
        let* z := set_page_order (p + size) h z in
        expand p low h mt z
      else Ret z
  end.

(** The loop of [__rmqueue_smallest] over [n] more orders. *)
Fixpoint smallest_loop (n current_order order mt : nat) (z : zone) : res (zone * option Z) :=
  match n with
  | O => Ret (z, None)
  | S n' =>
      let* a := area_at z current_order in
      let* l := list_at a mt in
      match l with
      | [] => smallest_loop n' (S current_order) order mt z
      | p :: _ =>
          let z := list_del p z in
          let* z := rmv_page_order p z in
          let* z := nr_free_add current_order (-1) z in
          let* z := expand p order current_order mt z in
          let* z := set_pcppage_migratetype p mt z in
          Ret (z, Some p)
      end
  end.
Definition __rmqueue_smallest (order mt : nat) (z : zone) : res (zone * option Z) :=
  smallest_loop (MAX_ORDER - order) order order mt z.

(** * Falling back to other migrate types *)

(** The row of the type that is not listed is zero. *)
Definition fallbacks : list (list nat) :=
  [[MIGRATE_RECLAIMABLE; MIGRATE_MOVABLE; MIGRATE_TYPES; 0];
   [MIGRATE_RECLAIMABLE; MIGRATE_UNMOVABLE; MIGRATE_TYPES; 0];
   [MIGRATE_UNMOVABLE; MIGRATE_MOVABLE; MIGRATE_TYPES; 0];
   [0; 0; 0; 0]]%nat.

Definition can_steal_fallback (z : zone) (order start_mt : nat) : bool :=
  if (pageblock_order <=? order)%nat then true
  else (pageblock_order / 2 <=? order)%nat || (start_mt =? MIGRATE_RECLAIMABLE)%nat
       || (start_mt =? MIGRATE_UNMOVABLE)%nat || page_group_by_mobility_disabled z.

(** The migrate type, or [None] for -1, and [*can_steal]. *)
Fixpoint fallback_loop (z : zone) (a : free_area_t) (order mt : nat) (only_stealable can_steal : bool) (fs : list nat)
    : res (option nat * bool) :=
  match fs with
  | [] => BUG
  | f :: fs' =>
      if (f =? MIGRATE_TYPES)%nat then Ret (None, can_steal)
      else
        let* l := list_at a f in
        match l with
        | [] => fallback_loop z a order mt only_stealable can_steal fs'
        | _ :: _ =>
            let can_steal := can_steal || can_steal_fallback z order mt in
            if negb only_stealable || can_steal then Ret (Some f, can_steal)
            else fallback_loop z a order mt only_stealable can_steal fs'
        end
  end.
Definition find_suitable_fallback (z : zone) (a : free_area_t) (order mt : nat) (only_stealable can_steal : bool)
    : res (option nat * bool) :=
  if nr_free a =? 0 then Ret (None, can_steal)
  else fallback_loop z a order mt only_stealable false (default [] (fallbacks !! mt)).

(** for (page = start_page; page <= end_page;): the zone, [pages_moved] and [*num_movable]. *)
Fixpoint move_loop (fuel : nat) (p end_page : Z) (mt : nat) (moved num_movable : Z) (z : zone) : res (zone * Z * Z) :=
  match fuel with
  | O => OutOfFuel
  | S fuel' =>
      if p <=? end_page then
        let* pg := page_at z p in
        if negb (PageBuddy pg) then
          move_loop fuel' (p + 1) end_page mt moved (if PageLRU pg || __PageMovable pg then num_movable + 1 else num_movable) z
        else
          let order := private pg in
          let* z := list_move p order mt z in
          let size := Z.shiftl 1 (Z.of_nat order) in
          move_loop fuel' (p + size) end_page mt (moved + size) num_movable z
      else Ret (z, moved, num_movable)
  end.
Definition move_freepages (start_page end_page : Z) (mt : nat) (z : zone) : res (zone * Z * Z) :=
  move_loop (S (Z.to_nat (end_page + 1 - start_page))) start_page end_page mt 0 0 z.

Definition zone_spans_pfn (z : zone) (pfn : Z) : bool :=
  (zone_start_pfn z <=? pfn) && (pfn <? zone_start_pfn z + spanned_pages z).

(** The second result is [*num_movable], [None] if it is not written. *)
Definition move_freepages_block (p : Z) (mt : nat) (z : zone) : res (zone * Z * option Z) :=
  let start_pfn := Z.land p (w64 (Z.lnot (pageblock_nr_pages - 1))) in
  let end_pfn := start_pfn + pageblock_nr_pages - 1 in
  let start_page := if negb (zone_spans_pfn z start_pfn) then p else start_pfn in
  if negb (zone_spans_pfn z end_pfn) then Ret (z, 0, None)
  else
    let* (z, moved, num_movable) := move_freepages start_page end_pfn mt z in
    Ret (z, moved, Some num_movable).

Fixpoint change_pageblock_range (nr_pageblocks : nat) (p : Z) (mt : nat) (z : zone) : zone :=
  match nr_pageblocks with
  | O => z
  | S n => change_pageblock_range n (p + pageblock_nr_pages) mt (set_pageblock_migratetype p mt z)
  end.

(** From the count of pages moved on: whether the whole block changes its type. *)
Definition claim_block (p : Z) (start_type old_type : nat) (free_pages movable_pages : Z) (z : zone) : zone :=
  let alike_pages :=
    if (start_type =? MIGRATE_MOVABLE)%nat then movable_pages
    else if (old_type =? MIGRATE_MOVABLE)%nat then pageblock_nr_pages - (free_pages + movable_pages) else 0 in
  if (Z.shiftl 1 (Z.of_nat (pageblock_order - 1)) <=? free_pages + alike_pages) || page_group_by_mobility_disabled z
  then set_pageblock_migratetype p start_type z else z.

(** When the block crosses the boundary of the zone, [movable_pages] is used without having
    been written; its value only matters once [free_pages] is not zero, so any will do. *)
Definition steal_suitable_fallback (p : Z) (start_type : nat) (whole_block : bool) (z : zone) : res zone :=
  let* pg := page_at z p in
  let current_order := private pg in
  let* old_type := get_pageblock_migratetype z p in
  if (old_type =? MIGRATE_HIGHATOMIC)%nat then list_move p current_order start_type z
  else if (pageblock_order <=? current_order)%nat then
    list_move p current_order start_type
      (change_pageblock_range (2 ^ (current_order - pageblock_order)) p start_type z)
  else if negb whole_block then list_move p current_order start_type z
  else
    let* (z, free_pages, num_movable) := move_freepages_block p start_type z in
    if free_pages =? 0 then list_move p current_order start_type z
    else Ret (claim_block p start_type old_type free_pages (default 0 num_movable) z).

(** The first loop of [__rmqueue_fallback], from the largest order down to [order]. *)
Fixpoint largest_fallback (n : nat) (z : zone) (order mt : nat) (can_steal : bool) : res (option (nat * nat * bool)) :=
  match n with
  | O => Ret None
  | S current_order =>
      if (current_order <? order)%nat then Ret None
      else
        let* a := area_at z current_order in
        let* (f, can_steal) := find_suitable_fallback z a current_order mt false can_steal in
        match f with
        | None => largest_fallback current_order z order mt can_steal
        | Some f => Ret (Some (current_order, f, can_steal))
        end
  end.
(** The loop at [find_smallest]. *)
Fixpoint smallest_fallback (n current_order : nat) (z : zone) (mt : nat) (can_steal : bool) : res (option (nat * nat * bool)) :=
  match n with
  | O => Ret None
  | S n' =>
      let* a := area_at z current_order in
      let* (f, can_steal) := find_suitable_fallback z a current_order mt false can_steal in
      match f with
      | None => smallest_fallback n' (S current_order) z mt can_steal
      | Some f => Ret (Some (current_order, f, can_steal))
      end
  end.

Definition do_steal (current_order fallback_mt start_mt : nat) (can_steal : bool) (z : zone) : res (zone * bool) :=
  let* a := area_at z current_order in
  let* l := list_at a fallback_mt in
  match l with
  | [] => BUG
  | p :: _ => let* z := steal_suitable_fallback p start_mt can_steal z in Ret (z, true)
  end.
Definition __rmqueue_fallback (order start_mt : nat) (z : zone) : res (zone * bool) :=
  let* found := largest_fallback MAX_ORDER z order start_mt false in
  match found with
  | None => Ret (z, false)
  | Some (current_order, f, can_steal) =>
      if negb can_steal && (start_mt =? MIGRATE_MOVABLE)%nat && (order <? current_order)%nat then
        let* found := smallest_fallback (MAX_ORDER - order) order z start_mt can_steal in
        match found with
        | None => BUG
        | Some (current_order, f, can_steal) => do_steal current_order f start_mt can_steal z
        end
      else do_steal current_order f start_mt can_steal z
  end.

(** The retry after a successful fallback. *)
Fixpoint rmqueue_loop (fuel : nat) (order mt : nat) (z : zone) : res (zone * option Z) :=
  match fuel with
  | O => OutOfFuel
  | S fuel' =>
      let* (z, r) := __rmqueue_smallest order mt z in
      match r with
      | Some p => Ret (z, Some p)
      | None =>
          let* (z, again) := __rmqueue_fallback order mt z in
          if again : bool then rmqueue_loop fuel' order mt z else Ret (z, None)
      end
  end.
Definition __rmqueue (order mt : nat) (z : zone) : res (zone * option Z) := rmqueue_loop 2 order mt z.

(** * Reserving blocks for atomic allocations *)

Definition reserve_highatomic_pageblock (p : Z) (z : zone) : res zone :=
  let max_managed := managed_pages z / 100 + pageblock_nr_pages in
  if max_managed <=? nr_reserved_highatomic z then Ret z
  else
    let* mt := get_pageblock_migratetype z p in
    if negb (mt =? MIGRATE_HIGHATOMIC)%nat then
      let z := set_highatomic z (w64 (nr_reserved_highatomic z + pageblock_nr_pages)) in
      let z := set_pageblock_migratetype p MIGRATE_HIGHATOMIC z in
      let* (z, _, _) := move_freepages_block p MIGRATE_HIGHATOMIC z in
      Ret z
    else Ret z.
