(* ===== verification/BuddyBlocks.v ===== *)
(** Sets of free blocks, apart from how the allocator represents them.

    A block is the first page and the order.  [blocks_ok] says that the free blocks are
    aligned, lie in the zone, do not overlap, and that no two of them are buddies that
    could be merged. *)

From stdpp Require Import gmap.
From S2P Require Import Prelude Buddy.

Definition size (o : nat) : Z := 2 ^ Z.of_nat o.
Definition inside (p : Z) (o : nat) (x : Z) : Prop := p <= x < p + size o.
Definition apart (p : Z) (o : nat) (q : Z) (o' : nat) : Prop := p + size o <= q \/ q + size o' <= p.
Definition aligned (p : Z) (o : nat) : Prop := 0 <= p /\ (size o | p).

#[export] Instance inside_dec p o x : Decision (inside p o x).
Proof. unfold inside. apply _. Defined.

Lemma size_pos o : 0 < size o.
Proof. apply Z.pow_pos_nonneg; lia. Qed.
#[export] Hint Resolve size_pos : core.
Lemma size_S o : size (S o) = 2 * size o.
Proof. unfold size. rewrite Nat2Z.inj_succ, Z.pow_succ_r by lia. done. Qed.
Lemma size_shiftl o : Z.shiftl 1 (Z.of_nat o) = size o.
Proof. rewrite Z.shiftl_1_l. done. Qed.
Lemma size_10 : size 10 = 1024.
Proof. done. Qed.
Lemma size_le o o' : (o <= o')%nat -> (size o | size o').
Proof.
  intros H. exists (size (o' - o)). unfold size. rewrite <- Z.pow_add_r by lia. f_equal. lia.
Qed.

Lemma apart_sym p o q o' : apart p o q o' -> apart q o' p o.
Proof. unfold apart. tauto. Qed.
Lemma apart_outside p o q o' x : apart p o q o' -> inside p o x -> ~ inside q o' x.
Proof. unfold apart, inside. lia. Qed.

(** * Buddies *)

Lemma even_land k o : Z.land (size o * (2 * k)) (size o) = 0.
Proof.
  apply Z.bits_inj'. intros i Hi. rewrite Z.land_spec, Z.bits_0. unfold size. rewrite Z.pow2_bits_eqb by lia.
  destruct (Z.eqb_spec (Z.of_nat o) i) as [E|]; [|by rewrite andb_false_r]. rewrite andb_true_r, <- E.
  rewrite Z.mul_comm, Z.mul_pow2_bits by lia. rewrite Z.sub_diag. apply Z.testbit_even_0.
Qed.

(** The two halves of a block of the next order. *)
Lemma buddy_lower p o : aligned p (S o) -> __find_buddy_pfn p o = p + size o /\ Z.land (p + size o) p = p.
Proof.
  intros [H0 [k ->]]. unfold __find_buddy_pfn. rewrite size_shiftl, size_S.
  replace (k * (2 * size o)) with (size o * (2 * k)) by lia. pose proof (even_land k o) as E.
  rewrite <- Z.add_nocarry_lxor by done. split; [done|]. rewrite Z.add_nocarry_lxor by done.
  rewrite Z.lxor_lor by done. apply Z.bits_inj'. intros i Hi. rewrite Z.land_spec, Z.lor_spec. by destruct (Z.testbit _ i), (Z.testbit _ i).
Qed.
Lemma buddy_upper p o : aligned p (S o) -> __find_buddy_pfn (p + size o) o = p /\ Z.land p (p + size o) = p.
Proof.
  intros Hp. destruct (buddy_lower p o Hp) as [E1 E2]. split; [|by rewrite Z.land_comm].
  rewrite <- E1. unfold __find_buddy_pfn. by rewrite Z.lxor_assoc, Z.lxor_nilpotent, Z.lxor_0_r.
Qed.
Lemma aligned_half p o : aligned p o -> aligned p (S o) \/ aligned (p - size o) (S o).
Proof.
  intros [H0 [k ->]]. pose proof (size_pos o). destruct (Z.Even_or_Odd k) as [[j ->]|[j ->]].
  - left. split; [done|]. exists j. rewrite size_S. lia.
  - right. assert (0 <= j) by nia. split; [nia|]. exists j. rewrite size_S. lia.
Qed.
(** The buddy is the other half. *)
Lemma buddy_cases p o :
  aligned p o ->
  (aligned p (S o) /\ __find_buddy_pfn p o = p + size o /\ Z.land (__find_buddy_pfn p o) p = p)
  \/ (aligned (p - size o) (S o) /\ __find_buddy_pfn p o = p - size o /\ Z.land (__find_buddy_pfn p o) p = p - size o).
Proof.
  intros Hp. destruct (aligned_half p o Hp) as [H|H]; [left|right].
  - destruct (buddy_lower p o H) as [-> E]. done.
  - destruct (buddy_upper (p - size o) o H) as [E1 E2]. replace (p - size o + size o) with p in * by lia.
    by rewrite E1, E2.
Qed.
Lemma aligned_mono p o o' : (o' <= o)%nat -> aligned p o -> aligned p o'.
Proof. intros H [H0 Hd]. split; [done|]. etrans; [by apply size_le|done]. Qed.
Lemma buddy_aligned p o : aligned p o -> aligned (__find_buddy_pfn p o) o.
Proof.
  intros Hp. destruct (buddy_cases p o Hp) as [(H&->&_)|(H&->&_)].
  - destruct Hp as [H0 [k ->]]. split; [pose proof (size_pos o); lia|]. exists (k + 1). lia.
  - eapply aligned_mono; [|done]. lia.
Qed.
Lemma buddy_involutive p o : __find_buddy_pfn (__find_buddy_pfn p o) o = p.
Proof. unfold __find_buddy_pfn. by rewrite Z.lxor_assoc, Z.lxor_nilpotent, Z.lxor_0_r. Qed.
Lemma buddy_ne p o : aligned p o -> __find_buddy_pfn p o <> p.
Proof. intros Hp. pose proof (size_pos o). destruct (buddy_cases p o Hp) as [(_&->&_)|(_&->&_)]; lia. Qed.

(** An aligned block does not cross the boundary of a block of higher order. *)
Lemma aligned_div p o n x : aligned p o -> (o <= n)%nat -> inside p o x -> x / size n = p / size n.
Proof.
  intros [H0 [k Hk]] Hn [Hx1 Hx2]. destruct (size_le o n Hn) as [j Hj]. pose proof (size_pos o). pose proof (size_pos n).
  assert (0 < j) by nia. symmetry. pose proof (Z.div_mod p (size n) ltac:(lia)). pose proof (Z.mod_pos_bound p (size n) ltac:(lia)).
  apply (Z.div_unique_pos x (size n) (p / size n) (x - size n * (p / size n))); [|lia].
  set (d := p / size n) in *. split; [lia|]. subst p. rewrite Hj in *.
  assert (k < j * (d + 1)) by nia. nia.
Qed.
Lemma buddy_div p o : (o < 10)%nat -> aligned p o -> __find_buddy_pfn p o / 1024 = p / 1024.
Proof.
  intros Ho Hp. rewrite <- size_10. pose proof (size_pos o). pose proof (size_S o).
  destruct (buddy_cases p o Hp) as [(H'&->&_)|(H'&->&_)].
  - apply (aligned_div p (S o)); [done|lia|unfold inside; lia].
  - symmetry. apply (aligned_div (p - size o) (S o)); [done|lia|unfold inside; lia].
Qed.

(** * Sets of blocks *)

Record blocks_ok (mine : Z -> Prop) (B : Z -> nat -> Prop) : Prop := {
  b_order : forall p o, B p o -> (o < MAX_ORDER)%nat;
  b_fun : forall p o o', B p o -> B p o' -> o = o';
  b_align : forall p o, B p o -> aligned p o;
  b_mine : forall p o x, B p o -> inside p o x -> mine x;
  b_apart : forall p o q o', B p o -> B q o' -> p <> q -> apart p o q o';
  b_merged : forall p o, B p o -> (o < MAX_ORDER - 1)%nat -> ~ B (__find_buddy_pfn p o) o;
}.
(** The pages of the free blocks. *)
Definition covers (B : Z -> nat -> Prop) (x : Z) : Prop := exists p o, B p o /\ inside p o x.

Definition without (p : Z) (B : Z -> nat -> Prop) : Z -> nat -> Prop := fun q o => q <> p /\ B q o.
Definition plus (p : Z) (o : nat) (B : Z -> nat -> Prop) : Z -> nat -> Prop :=
  fun q o' => (q = p /\ o' = o) \/ (q <> p /\ B q o').

(** A block that may be added: it overlaps none. *)
Record spare (mine : Z -> Prop) (B : Z -> nat -> Prop) (p : Z) (o : nat) : Prop := {
  s_order : (o < MAX_ORDER)%nat;
  s_align : aligned p o;
  s_mine : forall x, inside p o x -> mine x;
  s_apart : forall q o', B q o' -> apart p o q o';
}.

Lemma covers_ext B1 B2 x : (forall q o, B1 q o <-> B2 q o) -> covers B1 x <-> covers B2 x.
Proof. intros H. unfold covers. by setoid_rewrite H. Qed.
Lemma spare_ext mine1 mine2 B1 B2 p o :
  spare mine1 B1 p o -> (forall x, mine1 x -> mine2 x) -> (forall q o', B2 q o' -> B1 q o') -> spare mine2 B2 p o.
Proof. intros [] Hm HB. split; auto. Qed.

Lemma inside_self p o : inside p o p.
Proof. pose proof (size_pos o). unfold inside. lia. Qed.
#[export] Hint Resolve inside_self : core.
Lemma spare_not mine B p o o' : spare mine B p o -> ~ B p o'.
Proof. intros [_ _ _ Ha] H. specialize (Ha p o' H). unfold apart in Ha. pose proof (size_pos o). pose proof (size_pos o'). lia. Qed.

Lemma blocks_without mine B p : blocks_ok mine B -> blocks_ok mine (without p B).
Proof. intros []. split; unfold without; naive_solver. Qed.
Lemma blocks_plus mine B p o :
  blocks_ok mine B -> spare mine B p o -> ((o < MAX_ORDER - 1)%nat -> ~ B (__find_buddy_pfn p o) o) ->
  blocks_ok mine (plus p o B).
Proof.
  intros [] [] Hb. split; unfold plus.
  - naive_solver.
  - naive_solver.
  - naive_solver.
  - naive_solver.
  - intros q1 o1 q2 o2 [[-> ->]|[Hn1 H1]] [[-> ->]|[Hn2 H2]] Hne; [done|auto|apply apart_sym; auto|eauto].
  - intros q o' [[-> ->]|[Hn H]] Hlt [[E Eo]|[_ H']].
    + by apply (buddy_ne p o).
    + by apply Hb.
    + subst o'. rewrite <- E, buddy_involutive in Hb. by apply Hb.
    + by apply (b_merged0 q o').
Qed.

Lemma covers_without mine B p o x :
  blocks_ok mine B -> B p o -> covers (without p B) x <-> covers B x /\ ~ inside p o x.
Proof.
  intros Hok Hp. split.
  - intros (q&o'&[Hne Hq]&Hx). split; [by exists q, o'|]. eapply apart_outside; [|done]. by apply (b_apart _ _ Hok).
  - intros [(q&o'&Hq&Hx) Hn]. exists q, o'. split; [|done]. split; [|done]. intros ->.
    by rewrite (b_fun _ _ Hok p o' o Hq Hp) in Hx.
Qed.
Lemma covers_plus mine B p o x : spare mine B p o -> covers (plus p o B) x <-> covers B x \/ inside p o x.
Proof.
  intros Hs. split.
  - intros (q&o'&[[-> ->]|[_ Hq]]&Hx); [by right|left; by exists q, o'].
  - intros [(q&o'&Hq&Hx)|Hx].
    + exists q, o'. split; [right; split; [|done]|done]. intros ->. by eapply spare_not.
    + exists p, o. split; [by left|done].
Qed.

(** Merging with a free buddy gives a spare block of the next order. *)
Lemma spare_merge mine B p o :
  blocks_ok mine B -> spare mine B p o -> (o < MAX_ORDER - 1)%nat -> B (__find_buddy_pfn p o) o ->
  let b := __find_buddy_pfn p o in
  spare mine (without b B) (Z.land b p) (S o)
  /\ forall x, inside (Z.land b p) (S o) x <-> inside p o x \/ inside b o x.
Proof.
  intros Hok Hs Ho Hb. cbn zeta. pose proof Hs as [Hs1 Hs2 Hs3 Hs4]. pose proof (size_pos o). pose proof (size_S o) as ES.
  assert (Hin : forall x, inside (Z.land (__find_buddy_pfn p o) p) (S o) x
            <-> inside p o x \/ inside (__find_buddy_pfn p o) o x).
  { intros x. unfold inside. destruct (buddy_cases p o Hs2) as [(_&->&->)|(_&->&->)]; lia. }
  split; [|done]. split.
  - unfold MAX_ORDER in *. lia.
  - destruct (buddy_cases p o Hs2) as [(H1&_&->)|(H1&_&->)]; done.
  - intros x [Hx|Hx]%Hin; [by apply Hs3|by apply (b_mine _ _ Hok _ _ x Hb)].
  - intros q o' [Hne Hq]. pose proof (Hs4 q o' Hq) as A1. pose proof (b_apart _ _ Hok _ _ _ _ Hb Hq ltac:(congruence)) as A2.
    pose proof (b_align _ _ Hok q o' Hq) as Aq. pose proof (size_pos o').
    destruct (buddy_cases p o Hs2) as [(_&Eb&->)|(_&Eb&->)]; rewrite Eb in A2; unfold apart in *; lia.
Qed.

(** Splitting a spare block: the upper half can be freed, and its buddy, the lower half, is not
    free. *)
Lemma spare_split mine B p h :
  spare mine B p (S h) ->
  spare mine B p h /\ spare mine B (p + size h) h /\ ~ B (__find_buddy_pfn (p + size h) h) h
  /\ spare mine (plus (p + size h) h B) p h.
Proof.
  intros Hs. pose proof Hs as [H1 H2 H3 H4]. pose proof (size_pos h). pose proof (size_S h) as ES.
  assert (Hlow : spare mine B p h).
  { split; [lia|eapply aligned_mono; [|done]; lia| |].
    - intros x Hx. apply H3. unfold inside in *. lia.
    - intros q o' Hq. specialize (H4 q o' Hq). pose proof (size_pos o'). unfold apart in *. lia. }
  split; [done|]. split_and!.
  - split; [lia| | |].
    + destruct H2 as [H0 [k Hk]]. split; [lia|]. exists (2 * k + 1). lia.
    + intros x Hx. apply H3. unfold inside in *. lia.
    + intros q o' Hq. specialize (H4 q o' Hq). pose proof (size_pos o'). unfold apart in *. lia.
  - destruct (buddy_upper p h H2) as [-> _]. by eapply spare_not.
  - destruct Hlow as [L1 L2 L3 L4]. split; [done|done|done|]. intros q o' [[-> ->]|[_ Hq]]; [unfold apart; lia|by apply L4].
Qed.

(** * The free blocks are determined by the free pages *)

(** Of two aligned blocks that meet, the smaller lies in the larger. *)
Lemma aligned_nested p o q o' x :
  aligned p o -> aligned q o' -> inside p o x -> inside q o' x -> (o <= o')%nat -> q <= p /\ p + size o <= q + size o'.
Proof.
  intros [_ [k ->]] [_ [j ->]] Hx1 Hx2 Ho. destruct (size_le o o' Ho) as [c Hc]. unfold inside in *. pose proof (size_pos o).
  rewrite Hc in *. assert (j * c <= k) by nia. assert (k < j * c + c) by nia. nia.
Qed.

(** An aligned block of free pages lies in a free block. *)
Lemma block_inside mine B : blocks_ok mine B -> forall o p,
  (o < MAX_ORDER)%nat -> aligned p o -> (forall x, inside p o x -> covers B x) ->
  exists q o', B q o' /\ (o <= o')%nat /\ q <= p /\ p + size o <= q + size o'.
Proof.
  intros Hok. induction o as [|o IH]; intros p Ho Ha Hc.
  - destruct (Hc p (inside_self p 0)) as (q&o'&Hq&Hx). exists q, o'. split_and!; [done|lia| |];
      unfold inside in Hx; change (size 0) with 1; lia.
  - pose proof (size_S o) as ES. pose proof (size_pos o). destruct Ha as [H0 [k Hk]].
    assert (A1 : aligned p o) by (split; [done|exists (2 * k); lia]).
    assert (A2 : aligned (p + size o) o) by (split; [lia|exists (2 * k + 1); lia]).
    destruct (IH p) as (q1&o1&B1&L1&I1); [lia|done|intros x Hx; apply Hc; unfold inside in *; lia|].
    destruct (IH (p + size o)) as (q2&o2&B2&L2&I2); [lia|done|intros x Hx; apply Hc; unfold inside in *; lia|].
    assert (Hp : aligned p (S o)) by (split; [done|by exists k]).
    destruct (decide (S o <= o1)%nat) as [H1|H1].
    { exists q1, o1. split; [done|]. split; [done|]. apply (aligned_nested p (S o) q1 o1 p); try done; [by eapply b_align|unfold inside; lia]. }
    destruct (decide (S o <= o2)%nat) as [H2|H2].
    { exists q2, o2. split; [done|]. split; [done|].
      apply (aligned_nested p (S o) q2 o2 (p + size o)); try done; [by eapply b_align|unfold inside; lia|unfold inside; lia]. }
    replace o1 with o in * by lia. replace o2 with o in * by lia. replace q1 with p in * by lia. replace q2 with (p + size o) in * by lia.
    exfalso. apply (b_merged _ _ Hok p o B1); [lia|]. by destruct (buddy_lower p o Hp) as [-> _].
Qed.

(** The largest aligned blocks of a set of pages, up to the largest order. *)
Definition maximal (F : Z -> Prop) (p : Z) (o : nat) : Prop :=
  (o < MAX_ORDER)%nat /\ aligned p o /\ (forall x, inside p o x -> F x)
  /\ ((o < MAX_ORDER - 1)%nat -> forall q, aligned q (S o) -> inside q (S o) p -> ~ forall x, inside q (S o) x -> F x).

Lemma blocks_maximal mine B p o : blocks_ok mine B -> B p o <-> maximal (covers B) p o.
Proof.
  intros Hok. split.
  - intros Hp. pose proof (b_align _ _ Hok p o Hp) as Ha. split_and!; [by eapply b_order|done|intros x Hx; by exists p, o|].
    intros Ho q Hq Hin Hall. destruct (block_inside mine B Hok (S o) q) as (q'&o'&Hq'&Ho'&H1&H2); [lia|done|done|].
    assert (Hx : inside q' o' p) by (unfold inside in *; lia).
    destruct (decide (p = q')) as [<-|Hne]; [rewrite (b_fun _ _ Hok p o o' Hp Hq') in Ho'; lia|].
    by apply (apart_outside p o q' o' p (b_apart _ _ Hok p o q' o' Hp Hq' Hne) (inside_self p o)).
  - intros (Ho&Ha&Hc&Hmax). destruct (block_inside mine B Hok o p Ho Ha Hc) as (q&o'&Hq&Hle&H1&H2).
    destruct (decide (o' = o)) as [->|Hne]; [by replace p with q by lia|]. exfalso.
    pose proof (b_order _ _ Hok q o' Hq) as Ho'. pose proof (size_pos o). pose proof (size_S o) as ES.
    destruct (aligned_half p o Ha) as [Hh|Hh]; eapply (Hmax ltac:(lia) _ Hh); [unfold inside; lia| |unfold inside; lia|].
    + intros x Hx. exists q, o'. split; [done|].
      pose proof (aligned_nested p (S o) q o' p Hh (b_align _ _ Hok q o' Hq) ltac:(done) ltac:(unfold inside; lia) ltac:(lia)).
      unfold inside in *. lia.
    + intros x Hx. exists q, o'. split; [done|].
      pose proof (aligned_nested (p - size o) (S o) q o' p Hh (b_align _ _ Hok q o' Hq) ltac:(unfold inside; lia) ltac:(unfold inside; lia) ltac:(lia)).
      unfold inside in *. lia.
Qed.
Lemma maximal_ext F G p o : (forall x, F x <-> G x) -> maximal F p o <-> maximal G p o.
Proof. intros H. unfold maximal. by setoid_rewrite H. Qed.
Lemma blocks_determined mine B mine' B' p o :
  blocks_ok mine B -> blocks_ok mine' B' -> (forall x, covers B x <-> covers B' x) -> B p o <-> B' p o.
Proof.
  intros H1 H2 Hc. rewrite (blocks_maximal mine B), (blocks_maximal mine' B') by done. by apply maximal_ext.
Qed.
