(* ===== verification/BuddyFacts.v ===== *)
(** The representation of the free blocks of a zone, and the steps of the allocator on it. *)

From stdpp Require Import gmap.
From S2P Require Import Prelude Buddy BuddyBlocks.

(** * Representation *)

Section Zone.
(** The number of the zone in the pages. *)
Context (id : Z).

Definition mine (z : zone) (p : Z) : Prop := exists pg, pages z !! p = Some pg /\ zone_id pg = id.
(** Page [p] is the head of a free block of order [o]. *)
Definition free (z : zone) (p : Z) (o : nat) : Prop :=
  exists pg, pages z !! p = Some pg /\ zone_id pg = id /\ PageBuddy pg = true /\ private pg = o.

(** The zone has no holes, the memory map is contiguous up to blocks of the largest order,
    and every page block has a migrate type. *)
Record zone_ok (z : zone) : Prop := {
  z_spans : forall p, zone_spans_pfn z p = true <-> mine z p;
  z_map : forall p q, mine z p -> q / 1024 = p / 1024 -> is_Some (pages z !! q);
  z_types : forall p, mine z p -> exists mt, pageblocks z !! (p / 1024) = Some mt /\ (mt < MIGRATE_TYPES)%nat;
  z_bottom : 0 <= zone_start_pfn z;
  z_top : zone_start_pfn z + spanned_pages z <= two64;
  z_count : Z.of_nat (base.size (pages z)) < 2147483648;
}.

(** The lists of each order hold the heads of the free blocks of that order, each
    once, and [nr_free] counts them. *)
Definition area_ok (z : zone) (o : nat) (a : free_area_t) : Prop :=
  length (free_list a) = MIGRATE_TYPES /\ NoDup (mjoin (free_list a))
  /\ nr_free a = Z.of_nat (length (mjoin (free_list a)))
  /\ forall p, p ∈ mjoin (free_list a) <-> free z p o.
Record lists_ok (z : zone) : Prop := {
  l_size : length (free_area z) = MAX_ORDER;
  l_areas : forall o a, free_area z !! o = Some a -> area_ok z o a;
}.

Definition inv (z : zone) : Prop := zone_ok z /\ lists_ok z /\ blocks_ok (mine z) (free z).

Definition types_kept (z z' : zone) : Prop :=
  forall b mt, pageblocks z !! b = Some mt -> (mt < MIGRATE_TYPES)%nat ->
    exists mt', pageblocks z' !! b = Some mt' /\ (mt' < MIGRATE_TYPES)%nat.

(** The zone is the same one: its span, its pages and its page blocks. *)
Definition same_span (z z' : zone) : Prop :=
  zone_start_pfn z' = zone_start_pfn z /\ spanned_pages z' = spanned_pages z
  /\ (forall p, zone_id <$> pages z' !! p = zone_id <$> pages z !! p)
  /\ types_kept z z' /\ lowmem_reserve z' = lowmem_reserve z.

(** What the allocator leaves alone in a page: of the fields others use it changes only
    [_mapcount], between the value of a page that is not mapped and that of PageBuddy. *)
Definition kept (pg pg' : page) : Prop :=
  zone_id pg' = zone_id pg /\ mapping pg' = mapping pg /\ _refcount pg' = _refcount pg /\ flags pg' = flags pg
  /\ compound_head pg' = compound_head pg
  /\ (_mapcount pg' = _mapcount pg \/ _mapcount pg' = -1 \/ _mapcount pg' = PAGE_BUDDY_MAPCOUNT_VALUE).
Definition kept_pages (z z' : zone) : Prop :=
  forall p pg, pages z !! p = Some pg -> exists pg', pages z' !! p = Some pg' /\ kept pg pg'.

Record same_zone (z z' : zone) : Prop := {
  sz_span : same_span z z';
  sz_kept : kept_pages z z';
  sz_reserve : lowmem_reserve z' = lowmem_reserve z;
}.

Lemma types_kept_eq z z' : pageblocks z' = pageblocks z -> types_kept z z'.
Proof. intros E b mt Eb H. exists mt. by rewrite E. Qed.
Hint Resolve types_kept_eq : core.
Lemma kept_refl pg : kept pg pg.
Proof. split_and!; try done. by left. Qed.
Lemma kept_trans pg1 pg2 pg3 : kept pg1 pg2 -> kept pg2 pg3 -> kept pg1 pg3.
Proof. intros (?&?&?&?&?&M1) (?&?&?&?&?&M2). split_and!; try congruence. destruct M2 as [->|]; [done|by right]. Qed.
Lemma kept_pages_trans z1 z2 z3 : kept_pages z1 z2 -> kept_pages z2 z3 -> kept_pages z1 z3.
Proof.
  intros K1 K2 p pg E. destruct (K1 p pg E) as (pg1&E1&?). destruct (K2 p pg1 E1) as (pg2&E2&?). exists pg2. split; [done|].
  by eapply kept_trans.
Qed.
Lemma same_zone_refl z : same_zone z z.
Proof. split; [split_and!; auto| |done]. intros p pg E. exists pg. split; [done|apply kept_refl]. Qed.
Lemma same_span_refl z : same_span z z.
Proof. apply sz_span, same_zone_refl. Qed.
Lemma same_span_trans z1 z2 z3 : same_span z1 z2 -> same_span z2 z3 -> same_span z1 z3.
Proof.
  intros (?&?&E1&T1&?) (?&?&E2&T2&?). split_and!; try congruence. intros b mt Eb Hb.
  destruct (T1 b mt Eb Hb) as (mt1&Eb1&Hb1). by apply (T2 b mt1).
Qed.
Lemma same_zone_trans z1 z2 z3 : same_zone z1 z2 -> same_zone z2 z3 -> same_zone z1 z3.
Proof.
  intros [H1 K1 L1] [H2 K2 L2]. split; [by eapply same_span_trans|by eapply kept_pages_trans|congruence].
Qed.

Lemma same_span_mine z z' p : same_span z z' -> mine z' p <-> mine z p.
Proof.
  intros (_&_&H&_). unfold mine. specialize (H p).
  destruct (pages z !! p), (pages z' !! p); cbn in H; try done; naive_solver congruence.
Qed.
Lemma same_zone_span z z' : same_zone z z' -> same_span z z'.
Proof. by intros []. Qed.
Lemma same_zone_mine z z' p : same_zone z z' -> mine z' p <-> mine z p.
Proof. intros [H _ _]. by apply same_span_mine. Qed.
Lemma same_zone_ok z z' : same_span z z' -> zone_ok z -> zone_ok z'.
Proof.
  intros Hs [Z1 Z2 Z3 Z4 Z5 Z6]. pose proof Hs as (E1&E2&E3&E4&_).
  assert (Hd : forall q, is_Some (pages z' !! q) <-> is_Some (pages z !! q)).
  { intros q. rewrite <- (fmap_is_Some zone_id (pages z' !! q)), E3. apply fmap_is_Some. }
  split.
  - intros p. rewrite (same_span_mine z z') by done. unfold zone_spans_pfn. rewrite E1, E2. apply Z1.
  - intros p q Hp Hq. apply Hd. apply (Z2 p); [|done]. by apply (same_span_mine z z').
  - intros p Hp. apply (same_span_mine z z') in Hp; [|done]. destruct (Z3 p Hp) as (mt&E&H). by apply (E4 _ mt).
  - by rewrite E1.
  - by rewrite E1, E2.
  - replace (base.size (pages z')) with (base.size (pages z)); [done|]. rewrite <- !size_dom. f_equal.
    apply set_eq. intros q. rewrite !elem_of_dom. symmetry. apply Hd.
Qed.

Lemma mine_range_pos z p : zone_ok z -> mine z p -> 0 <= p < two64.
Proof.
  intros Hz Hp. apply (z_spans _ Hz) in Hp. unfold zone_spans_pfn in Hp. rewrite andb_true_iff, Z.leb_le, Z.ltb_lt in Hp.
  pose proof (z_bottom _ Hz). pose proof (z_top _ Hz). lia.
Qed.

(** The order of a free block is unique. *)
Lemma free_fun z p o o' : free z p o -> free z p o' -> o = o'.
Proof. intros (pg&E&_&_&<-) (pg'&E'&_&_&<-). congruence. Qed.
Lemma free_mine z p o : free z p o -> mine z p.
Proof. intros (pg&E&Hi&_). by exists pg. Qed.

Lemma nodup_bound (l : list Z) (m : gmap Z page) :
  NoDup l -> (forall p, p ∈ l -> is_Some (m !! p)) -> (length l <= base.size m)%nat.
Proof.
  intros Hnd Hin. rewrite <- (size_list_to_set (C := gset Z) l) by done. rewrite <- size_dom. apply subseteq_size.
  intros p. rewrite elem_of_list_to_set, elem_of_dom. apply Hin.
Qed.

Lemma area_exists z o : lists_ok z -> (o < MAX_ORDER)%nat -> exists a, free_area z !! o = Some a /\ area_ok z o a.
Proof.
  intros [Hl Ha] Ho. destruct (lookup_lt_is_Some_2 (free_area z) o) as [a E]; [by rewrite Hl|]. exists a. auto.
Qed.
Lemma mine_bound z l :
  zone_ok z -> NoDup l -> (forall p, p ∈ l -> mine z p) -> Z.of_nat (length l) < 2147483648.
Proof.
  intros Hz Hnd Hl. pose proof (z_count _ Hz). pose proof (nodup_bound l (pages z) Hnd) as Hb.
  eapply Z.le_lt_trans; [|done]. apply Nat2Z.inj_le, Hb. intros p Hp. destruct (Hl p Hp) as (pg&->&_). done.
Qed.

Lemma blocks_ext mine1 mine2 B1 B2 :
  blocks_ok mine1 B1 -> (forall q, mine2 q <-> mine1 q) -> (forall q o, B2 q o <-> B1 q o) -> blocks_ok mine2 B2.
Proof.
  intros [C1 C2 C3 C4 C5 C6] Hm HB. split; setoid_rewrite HB; eauto. intros q o' x Hq Hx. apply Hm. eauto.
Qed.

(** Steps that do not touch the free blocks. *)
Lemma inv_frame z z' :
  same_span z z' -> free_area z' = free_area z -> (forall q o, free z' q o <-> free z q o) -> inv z -> inv z'.
Proof.
  intros Hs Ea Hf (Hz&[L1 L2]&Hb). split_and!.
  - by apply (same_zone_ok z).
  - split; rewrite Ea; [done|]. intros o a E. destruct (L2 o a E) as (A1&A2&A3&A4). split_and!; try done.
    intros p. by rewrite Hf.
  - apply (blocks_ext _ _ _ _ Hb); [|done]. intros q. by apply same_span_mine.
Qed.

(** * Taking a block off its list *)

Definition cleared (pg : page) : page := with_private 0 (with_mapcount (-1) pg).
Definition freed (pg : page) (o : nat) : page := with_mapcount PAGE_BUDDY_MAPCOUNT_VALUE (with_private o pg).

Lemma kept_cleared pg : kept pg (cleared pg).
Proof. split_and!; try done. by right; left. Qed.
Lemma kept_freed pg o : kept pg (freed pg o).
Proof. split_and!; try done. by right; right. Qed.
Lemma kept_index pg m : kept pg (with_index m pg).
Proof. split_and!; try done. by left. Qed.

(** A step that changes one page. *)
Lemma insert_page_span z z' p pg pg' :
  pages z !! p = Some pg -> zone_id pg' = zone_id pg -> pages z' = <[p := pg']> (pages z) ->
  zone_start_pfn z' = zone_start_pfn z -> spanned_pages z' = spanned_pages z -> pageblocks z' = pageblocks z ->
  lowmem_reserve z' = lowmem_reserve z -> same_span z z'.
Proof.
  intros E Ei Ep E1 E2 E3 E4. split_and!; try done; [|by apply types_kept_eq].
  intros q. rewrite Ep. destruct (decide (q = p)) as [->|Hne]; [|by rewrite lookup_insert_ne].
  rewrite lookup_insert_eq, E. cbn. by rewrite Ei.
Qed.
Lemma insert_page_same z z' p pg pg' :
  pages z !! p = Some pg -> kept pg pg' -> pages z' = <[p := pg']> (pages z) ->
  zone_start_pfn z' = zone_start_pfn z -> spanned_pages z' = spanned_pages z -> pageblocks z' = pageblocks z ->
  lowmem_reserve z' = lowmem_reserve z -> same_zone z z'.
Proof.
  intros E Hk Ep E1 E2 E3 E4. split; [by apply (insert_page_span z z' p pg pg' E (proj1 Hk))| |done].
  intros q pg0 Eq. rewrite Ep. destruct (decide (q = p)) as [->|Hne].
  - rewrite lookup_insert_eq. exists pg'. split; [done|]. congruence.
  - rewrite lookup_insert_ne by done. exists pg0. split; [done|apply kept_refl].
Qed.

(** A step that changes none. *)
Lemma same_pages_same z z' :
  pages z' = pages z -> zone_start_pfn z' = zone_start_pfn z -> spanned_pages z' = spanned_pages z ->
  types_kept z z' -> lowmem_reserve z' = lowmem_reserve z -> same_zone z z'.
Proof.
  intros Ep E1 E2 E3 E4. split; [split_and!; try done; by rewrite Ep| |done].
  intros p pg E. exists pg. rewrite Ep. split; [done|apply kept_refl].
Qed.

(** The zone after [list_del], [nr_free--] and [rmv_page_order] of the free block [p]. *)
Definition del_state (z : zone) (p : Z) (o : nat) (a : free_area_t) (pg : page) : zone :=
  set_pages (set_areas z (<[o := mkArea (free_list (area_del p a)) (w64 (nr_free a - 1))]> (area_del p <$> free_area z)))
    (<[p := cleared pg]> (pages z)).

Lemma filter_out_length (l : list Z) p : NoDup l -> p ∈ l -> S (length (filter (fun q => q <> p) l)) = length l.
Proof.
  intros Hnd Hin. apply list_elem_of_split in Hin as (l1&l2&->). apply NoDup_app in Hnd as (H1&H12&H2).
  apply NoDup_cons in H2 as [Hn2 H2]. rewrite filter_app, filter_cons_False by congruence.
  rewrite !filter_keep.
  - rewrite !length_app. cbn. lia.
  - by intros q Hq ->.
  - intros q Hq ->. apply (H12 p Hq). by left.
Qed.

Lemma del_block z p o :
  inv z -> free z p o ->
  exists a pg, free_area z !! o = Some a /\ pages z !! p = Some pg /\
    let z' := del_state z p o a pg in
    inv z' /\ same_zone z z' /\ (forall q o', free z' q o' <-> without p (free z) q o').
Proof.
  intros (Hz&Hl&Hb) Hp. pose proof Hp as (pg&Epg&Hi&Hbd&Ho). destruct (area_exists z o Hl (b_order _ _ Hb p o Hp)) as (a&Ea&Ha).
  exists a, pg. do 2 (split; [done|]). cbn zeta. set (z' := del_state z p o a pg).
  assert (Hs : same_zone z z') by (by apply (insert_page_same z z' p pg (cleared pg) Epg (kept_cleared pg))).
  assert (Hf : forall q o', free z' q o' <-> without p (free z) q o').
  { intros q o'. unfold free, without. cbn. destruct (decide (q = p)) as [->|Hne].
    - rewrite lookup_insert_eq. split; [|by intros []]. intros (pg'&[= <-]&_&H&_). done.
    - rewrite lookup_insert_ne by done. naive_solver. }
  split; [|done]. split_and!.
  - apply (same_zone_ok z); [|done]. by apply same_zone_span.
  - split; [cbn; rewrite length_insert, length_fmap; apply Hl|]. cbn. intros o1 a1 E1.
    assert (exists a0 n, free_area z !! o1 = Some a0 /\ a1 = mkArea (free_list (area_del p a0)) n
                    /\ (o1 = o -> n = w64 (nr_free a0 - 1)) /\ (o1 <> o -> n = nr_free a0)) as (a0&n&E0&->&Hn1&Hn2).
    { destruct (decide (o1 = o)) as [->|Hne].
      - rewrite list_lookup_insert_eq in E1 by (rewrite length_fmap; by eapply lookup_lt_Some). injection E1 as <-.
        eexists _, _. split; [done|]. split; [done|]. split; done.
      - rewrite list_lookup_insert_ne, list_lookup_fmap in E1 by done.
        destruct (free_area z !! o1) as [a0|] eqn:E; [|done]. injection E1 as <-. exists a0, (nr_free a0). done. }
    destruct (l_areas _ Hl o1 a0 E0) as (A1&A2&A3&A4).
    assert (Hj : mjoin (free_list (area_del p a0)) = filter (fun q => q <> p) (mjoin (free_list a0))) by apply mjoin_filter.
    split_and!; cbn [free_list nr_free]; rewrite ?Hj.
    + cbn. by rewrite length_fmap.
    + by apply NoDup_filter.
    + destruct (decide (o1 = o)) as [->|Hne].
      * assert (Hin : p ∈ mjoin (free_list a0)) by by apply A4.
        pose proof (filter_out_length _ p A2 Hin). rewrite (Hn1 eq_refl), A3. 
        assert (Z.of_nat (length (mjoin (free_list a0))) < 2147483648).
        { apply (mine_bound z); [done|done|]. intros q Hq. apply A4 in Hq. by eapply free_mine. }
        rewrite w64_small; [lia|]. unfold two64 in *. lia.
      * rewrite (Hn2 Hne), A3. do 2 f_equal. symmetry. apply filter_keep. intros q Hq ->.
        apply A4 in Hq. apply Hne. by eapply free_fun.
    + intros q. rewrite list_elem_of_filter, Hf, A4. done.
  - apply (blocks_ext _ _ _ _ (blocks_without _ _ p Hb)); [|done]. intros q. by apply same_zone_mine.
Qed.

(** * Putting a block on a list *)

(** The zone after [list_link], [nr_free++] and [set_page_order]. *)
Definition add_state (z : zone) (tail : bool) (p : Z) (o m : nat) (a : free_area_t) (l : list Z) (pg : page) : zone :=
  set_pages
    (set_areas z (<[o := mkArea (<[m := if tail then l ++ [p] else p :: l]> (free_list a)) (w64 (nr_free a + 1))]> (free_area z)))
    (<[p := freed pg o]> (pages z)).

Lemma link_permutation (tail : bool) (l : list Z) p : (if tail then l ++ [p] else p :: l) ≡ₚ p :: l.
Proof. destruct tail; [|done]. symmetry. apply Permutation_cons_append. Qed.

Lemma add_block z tail p o m :
  inv z -> spare (mine z) (free z) p o -> ((o < MAX_ORDER - 1)%nat -> ~ free z (__find_buddy_pfn p o) o) -> (m < MIGRATE_TYPES)%nat ->
  exists a l pg, free_area z !! o = Some a /\ free_list a !! m = Some l /\ pages z !! p = Some pg /\
    let z' := add_state z tail p o m a l pg in
    inv z' /\ same_zone z z' /\ (forall q o', free z' q o' <-> plus p o (free z) q o').
Proof.
  intros (Hz&Hl&Hb) Hs Hnb Hm. destruct (area_exists z o Hl (s_order _ _ _ _ Hs)) as (a&Ea&Ha).
  pose proof Ha as (A1&A2&A3&A4). destruct (lookup_lt_is_Some_2 (free_list a) m) as [l El]; [by rewrite A1|].
  destruct (s_mine _ _ _ _ Hs p (inside_self p o)) as (pg&Epg&Hi). exists a, l, pg. do 3 (split; [done|]). cbn zeta.
  set (z' := add_state z tail p o m a l pg).
  assert (Hsame : same_zone z z') by (by apply (insert_page_same z z' p pg (freed pg o) Epg (kept_freed pg o))).
  assert (Hf : forall q o', free z' q o' <-> plus p o (free z) q o').
  { intros q o'. unfold free, plus. cbn. destruct (decide (q = p)) as [->|Hne].
    - rewrite lookup_insert_eq. split; [|intros [[_ ->]|[]]; [|done]; exists (freed pg o); done].
      intros (pg'&[= <-]&_&_&<-). by left.
    - rewrite lookup_insert_ne by done. naive_solver. }
  assert (Hold : forall o1, p ∉ default [] ((mjoin ∘ free_list) <$> free_area z !! o1)).
  { intros o1. destruct (free_area z !! o1) as [a1|] eqn:E; [|apply not_elem_of_nil]. cbn. intros H.
    apply (l_areas _ Hl o1 a1 E) in H. by eapply spare_not. }
  split; [|done]. split_and!.
  - apply (same_zone_ok z); [|done]. by apply same_zone_span.
  - split; [cbn; rewrite length_insert; apply Hl|]. cbn. intros o1 a1 E1. destruct (decide (o1 = o)) as [->|Hne].
    + rewrite list_lookup_insert_eq in E1 by (by eapply lookup_lt_Some). injection E1 as <-. cbn [free_list nr_free].
      pose proof (mjoin_insert _ m l _ p El (link_permutation tail l p)) as Hj. specialize (Hold o). rewrite Ea in Hold. cbn in Hold.
      assert (Hnd : NoDup (p :: mjoin (free_list a))) by by apply NoDup_cons.
      split_and!; cbn [free_list nr_free].
      * by rewrite length_insert.
      * by rewrite Hj.
      * rewrite Hj, A3. cbn [length]. pose proof (mine_bound z _ Hz Hnd) as Hlen. cbn [length] in Hlen.
        assert (Z.of_nat (S (length (mjoin (free_list a)))) < 2147483648).
        { apply Hlen. intros q [->|Hq]%elem_of_cons; [by exists pg|]. apply A4 in Hq. by eapply free_mine. }
        rewrite w64_small; [lia|]. unfold two64 in *. lia.
      * intros q. rewrite Hj, elem_of_cons, Hf, A4. unfold plus. split; [|naive_solver].
        intros [->|Hq]; [by left|]. right. split; [|done]. intros ->. by apply Hold, A4.
    + rewrite list_lookup_insert_ne in E1 by done. destruct (l_areas _ Hl o1 a1 E1) as (C1&C2&C3&C4). split_and!; try done.
      intros q. rewrite C4, Hf. unfold plus. split; [|naive_solver]. intros Hq. right. split; [|done]. intros ->. by eapply spare_not.
  - apply (blocks_ext _ _ _ _ (blocks_plus _ _ p o Hb Hs Hnb)); [|done]. intros q. by apply same_zone_mine.
Qed.

(** * Moving a block to another list of its order *)

Definition on_list (z : zone) (p : Z) (o m : nat) : Prop :=
  exists a l, free_area z !! o = Some a /\ free_list a !! m = Some l /\ p ∈ l.

Lemma on_list_free z p o m : lists_ok z -> on_list z p o m -> free z p o.
Proof.
  intros Hl (a&l&Ea&El&Hp). apply (l_areas _ Hl o a Ea). apply list_elem_of_join. exists l. split; [done|].
  by eapply list_elem_of_lookup_2.
Qed.

Definition move_state (z : zone) (p : Z) (o m : nat) (a : free_area_t) (l : list Z) : zone :=
  set_areas z (<[o := mkArea (<[m := p :: filter (fun q => q <> p) l]> (free_list (area_del p a))) (nr_free a)]>
                 (area_del p <$> free_area z)).

Lemma area_del_join p a : mjoin (free_list (area_del p a)) = filter (fun q => q <> p) (mjoin (free_list a)).
Proof. apply mjoin_filter. Qed.

Lemma move_state_lists z p o m a l :
  lists_ok z -> free z p o -> free_area z !! o = Some a -> free_list a !! m = Some l -> lists_ok (move_state z p o m a l).
Proof.
  intros Hl Hp Ea El. split; [cbn; rewrite length_insert, length_fmap; apply Hl|]. cbn. intros o1 a1 E1.
  destruct (decide (o1 = o)) as [->|Hne].
  - rewrite list_lookup_insert_eq in E1 by (rewrite length_fmap; by eapply lookup_lt_Some). injection E1 as <-.
    destruct (l_areas _ Hl o a Ea) as (A1&A2&A3&A4).
    assert (Hj := mjoin_insert (free_list (area_del p a)) m (filter (fun q => q <> p) l) _ p
      ltac:(cbn; by rewrite list_lookup_fmap, El) (Permutation_refl _)).
    rewrite area_del_join in Hj. assert (Hin : p ∈ mjoin (free_list a)) by by apply A4.
    split_and!; cbn [free_list nr_free].
    + rewrite length_insert. cbn. by rewrite length_fmap.
    + rewrite Hj. apply NoDup_cons. split; [|by apply NoDup_filter]. rewrite list_elem_of_filter. naive_solver.
    + rewrite Hj. cbn [length]. by rewrite filter_out_length.
    + intros q. rewrite Hj, elem_of_cons, list_elem_of_filter. rewrite <- A4 in Hp. change (free (move_state z p o m a l) q o) with (free z q o).
      rewrite <- A4. destruct (decide (q = p)) as [->|]; naive_solver.
  - rewrite list_lookup_insert_ne, list_lookup_fmap in E1 by done. destruct (free_area z !! o1) as [a0|] eqn:E; [|done].
    injection E1 as <-. destruct (l_areas _ Hl o1 a0 E) as (A1&A2&A3&A4).
    assert (Hk : mjoin (free_list (area_del p a0)) = mjoin (free_list a0)).
    { rewrite area_del_join. apply filter_keep. intros q Hq ->. apply A4 in Hq. apply Hne. by eapply free_fun. }
    split_and!; rewrite ?Hk; try done. cbn. by rewrite length_fmap.
Qed.

Lemma move_state_on_list z p o m a l q o' m' :
  lists_ok z -> free_area z !! o = Some a -> free_list a !! m = Some l ->
  on_list (move_state z p o m a l) q o' m' <-> (q = p /\ o' = o /\ m' = m) \/ (q <> p /\ on_list z q o' m').
Proof.
  intros Hl Ea El. unfold on_list. cbn. destruct (decide (o' = o)) as [->|Hne].
  - rewrite list_lookup_insert_eq by (rewrite length_fmap; by eapply lookup_lt_Some). rewrite Ea.
    destruct (decide (m' = m)) as [->|Hm].
    + split.
      * intros (a1&l1&[= <-]&E1&Hq). cbn in E1. rewrite list_lookup_insert_eq in E1 by (rewrite length_fmap; by eapply lookup_lt_Some).
        injection E1 as <-. apply elem_of_cons in Hq as [->|[Hne Hq]%list_elem_of_filter]; [by left|right].
        split; [done|]. by exists a, l.
      * intros H. eexists _, _. split; [done|]. cbn. rewrite list_lookup_insert_eq by (rewrite length_fmap; by eapply lookup_lt_Some).
        split; [done|]. apply elem_of_cons. destruct H as [(->&_)|(Hne&a1&l1&[= <-]&E1&Hq)]; [by left|right].
        apply list_elem_of_filter. replace l with l1 by congruence. done.
    + split.
      * intros (a1&l1&[= <-]&E1&Hq). cbn in E1. rewrite list_lookup_insert_ne, list_lookup_fmap in E1 by done.
        destruct (free_list a !! m') as [l0|] eqn:E0; [|done]. injection E1 as <-. apply list_elem_of_filter in Hq as [Hne Hq].
        right. split; [done|]. by exists a, l0.
      * intros [(_&_&->)|(Hne&a1&l1&[= <-]&E1&Hq)]; [done|]. eexists _, _. split; [done|]. cbn.
        rewrite list_lookup_insert_ne, list_lookup_fmap, E1 by done. split; [done|]. by apply list_elem_of_filter.
  - rewrite list_lookup_insert_ne, list_lookup_fmap by done. split.
    + intros (a1&l1&E1&E2&Hq). destruct (free_area z !! o') as [a0|]; [|done]. injection E1 as <-. cbn in E2.
      rewrite list_lookup_fmap in E2. destruct (free_list a0 !! m') as [l0|] eqn:E0; [|done]. injection E2 as <-.
      apply list_elem_of_filter in Hq as [Hq1 Hq]. right. split; [done|]. by exists a0, l0.
    + intros [(_&->&_)|(Hq1&a1&l1&E1&E2&Hq)]; [done|]. rewrite E1. eexists _, _. split; [done|]. cbn.
      rewrite list_lookup_fmap, E2. split; [done|]. by apply list_elem_of_filter.
Qed.

Lemma list_move_ok z p o m :
  inv z -> free z p o -> (m < MIGRATE_TYPES)%nat ->
  exists z', list_move p o m z = Ret z' /\ inv z' /\ same_zone z z' /\ pages z' = pages z /\ nr_free_pages z' = nr_free_pages z
    /\ forall q o' m', on_list z' q o' m' <-> (q = p /\ o' = o /\ m' = m) \/ (q <> p /\ on_list z q o' m').
Proof.
  intros (Hz&Hl&Hb) Hp Hm. destruct (area_exists z o Hl (b_order _ _ Hb p o Hp)) as (a&Ea&Ha).
  destruct (lookup_lt_is_Some_2 (free_list a) m) as [l El]; [by destruct Ha as [-> _]|].
  exists (move_state z p o m a l). split_and!; try done.
  - unfold list_move, list_add, list_link, area_at, list_at, list_del. cbn [free_area set_areas].
    rewrite list_lookup_fmap, Ea. cbn [fmap option_fmap option_map res_bind area_del free_list].
    rewrite list_lookup_fmap, El. done.
  - split; [|split; [by apply move_state_lists|done]]. apply (same_zone_ok z); [|done]. split_and!; auto.
  - apply same_pages_same; auto.
  - intros. by apply move_state_on_list.
Qed.
End Zone.
#[export] Hint Resolve same_zone_refl same_span_refl types_kept_eq : core.
