(* ===== verification/BuddyOps.v ===== *)
(** What freeing and allocating do to the set of free blocks. *)

From stdpp Require Import gmap.
From S2P Require Import Prelude Buddy BuddyBlocks BuddyFacts.

Section Ops.
Context (id : Z).
#[local] Notation mine := (mine id).
#[local] Notation free := (free id).
#[local] Notation zone_ok := (zone_ok id).
#[local] Notation inv := (inv id).
#[local] Notation spare_in z := (spare (mine z) (free z)).

(** * Freeing *)

Lemma page_is_buddy_total z p b o :
  is_Some (pages z !! p) -> is_Some (pages z !! b) -> exists r, page_is_buddy z p b o = Ret r.
Proof.
  intros [pp Ep] [pb Eb]. unfold page_is_buddy, page_at. rewrite Ep, Eb. cbn. destruct (_ && _); eauto.
Qed.
Lemma page_is_buddy_ok z p o :
  zone_ok z -> mine z p -> aligned p o -> (o < MAX_ORDER - 1)%nat ->
  exists r, page_is_buddy z p (__find_buddy_pfn p o) o = Ret r /\ (r = true <-> free z (__find_buddy_pfn p o) o).
Proof.
  intros Hz Hp Ha Ho. pose proof Hp as (pp&Ep&Hi). destruct (z_map _ _ Hz p (__find_buddy_pfn p o) Hp) as [pb Eb].
  { by apply buddy_div. }
  unfold page_is_buddy, page_at, BuddyFacts.free. rewrite Ep, Eb. cbn [res_bind].
  destruct (PageBuddy pb) eqn:E1; cbn [andb].
  - destruct (Nat.eqb_spec (private pb) o) as [E2|E2].
    + eexists. split; [done|]. rewrite Z.eqb_eq, Hi. naive_solver.
    + eexists. split; [done|]. naive_solver.
  - eexists. split; [done|]. naive_solver.
Qed.

(** One round of the loop takes the buddy off its list. *)
Lemma merge_step z b o :
  inv z -> free z b o ->
  exists z', (let* z1 := nr_free_add o (-1) (list_del b z) in rmv_page_order b z1) = Ret z' /\ inv z' /\ same_zone z z'
    /\ nr_free_pages z' = nr_free_pages z /\ (forall q o', free z' q o' <-> without b (free z) q o')
    /\ (forall x, x <> b -> pages z' !! x = pages z !! x).
Proof.
  intros Hinv Hb. destruct (del_block id z b o Hinv Hb) as (a&pg&Ea&Epg&Hi&Hs&Hf). 
  eexists. split; [|split_and!; [exact Hi|done|done|done|intros x Hx; by apply lookup_insert_ne]].
  unfold nr_free_add, area_at, list_del, rmv_page_order, page_at. cbn. rewrite list_lookup_fmap, Ea. cbn. rewrite Epg. done.
Qed.

Lemma merge_buddies_ok fuel : forall p o bp z,
  inv z -> spare_in z p o -> (MAX_ORDER - o <= fuel)%nat ->
  exists z' p' o' bp', merge_buddies fuel p o bp z = Ret (z', p', o', bp') /\ inv z' /\ same_zone z z'
    /\ nr_free_pages z' = nr_free_pages z /\ spare_in z' p' o'
    /\ (forall x, ~ covers (free z) x -> ~ inside p o x -> pages z' !! x = pages z !! x)
    /\ ((o' < MAX_ORDER - 1)%nat -> bp' = __find_buddy_pfn p' o' /\ ~ free z' (__find_buddy_pfn p' o') o')
    /\ forall x, covers (free z') x \/ inside p' o' x <-> covers (free z) x \/ inside p o x.
Proof.
  induction fuel as [|fuel IH]; intros p o bp z Hinv Hs Hfuel.
  - pose proof (s_order _ _ _ _ Hs). lia.
  - cbn [merge_buddies]. pose proof Hinv as (Hz&_&Hb). destruct (Nat.ltb_spec o (MAX_ORDER - 1)) as [Ho|Ho].
    2: { exists z, p, o, bp. split_and!; try done. lia. }
    destruct (page_is_buddy_ok z p o Hz (s_mine _ _ _ _ Hs p (inside_self p o)) (s_align _ _ _ _ Hs) Ho) as (r&->&Hr).
    cbn [res_bind]. destruct r; cbn [negb].
    2: { exists z, p, o, (__find_buddy_pfn p o). split_and!; try done. intros _. split; [done|]. by rewrite <- Hr. }
    set (b := __find_buddy_pfn p o) in *. assert (Hfb : free z b o) by by apply Hr.
    destruct (merge_step z b o Hinv Hfb) as (z1&E1&Hi1&Hs1&Hn1&Hf1&Ht1).
    destruct (spare_merge _ _ p o Hb Hs Ho Hfb) as [Hsm Hin]. fold b in Hsm, Hin.
    assert (Hs2 : spare_in z1 (Z.land b p) (S o)).
    { eapply spare_ext; [exact Hsm| |]; [intros x; by apply (same_zone_mine id z)|intros; by apply Hf1]. }
    destruct (IH (Z.land b p) (S o) b z1 Hi1 Hs2 ltac:(lia)) as (z'&p'&o'&bp'&E&Hi'&Hs'&Hn'&Hsp&Ht'&Hbp&Hcov).
    exists z', p', o', bp'. split_and!; try done.
    + destruct (nr_free_add o (-1) (list_del b z)); cbn [res_bind] in E1 |- *; try done. by rewrite E1.
    + by eapply same_zone_trans.
    + congruence.
    + intros x Hx1 Hx2. rewrite Ht', Ht1; [done| | |].
      * intros ->. apply Hx1. by exists b, o.
      * rewrite (covers_ext _ _ x Hf1). intros (q&o1&[_ Hq]&Hx). apply Hx1. by exists q, o1.
      * rewrite Hin. intros [?|Hx]; [done|]. apply Hx1. by exists b, o.
    + intros x. rewrite Hcov, Hin.
      assert (Hc : covers (free z1) x <-> covers (free z) x /\ ~ inside b o x).
      { rewrite <- (covers_without _ _ b o x Hb Hfb). by apply covers_ext. }
      assert (Hcb : inside b o x -> covers (free z) x) by (intros H; by exists b, o).
      rewrite Hc. split; [tauto|]. destruct (decide (b <= x < b + size o)) as [H'|H']; fold (inside b o x) in H'; tauto.
Qed.

(** The two lists on which a block of the order can be put, and the counter. *)
Lemma link_count tail p o m z a l :
  free_area z !! o = Some a -> free_list a !! m = Some l ->
  (let* z1 := list_link tail p o m z in nr_free_add o 1 z1)
  = Ret (set_areas z (<[o := mkArea (<[m := if tail then l ++ [p] else p :: l]> (free_list a)) (w64 (nr_free a + 1))]> (free_area z))).
Proof.
  intros Ea El. unfold list_link, area_at, list_at. rewrite Ea. cbn [res_bind]. rewrite El. cbn [res_bind].
  unfold nr_free_add, area_at, set_areas. cbn [free_area]. rewrite list_lookup_insert_eq by (by eapply lookup_lt_Some).
  cbn [res_bind free_list nr_free]. by rewrite list_insert_insert_eq.
Qed.

Lemma coalesces_soon_total p o bp z :
  (forall q, q / 1024 = p / 1024 -> is_Some (pages z !! q)) -> aligned p o -> ((o < MAX_ORDER - 1)%nat -> bp = __find_buddy_pfn p o) ->
  exists r, coalesces_soon p o bp z = Ret r.
Proof.
  intros Hmap Ha Hbp. unfold coalesces_soon. destruct (Nat.ltb_spec o (MAX_ORDER - 2)) as [Ho|Ho]; [|eauto].
  unfold MAX_ORDER in *. cbn in *. rewrite Hbp by lia. clear Hbp.
  assert (Hc : aligned (Z.land (__find_buddy_pfn p o) p) (S o) /\ Z.land (__find_buddy_pfn p o) p / 1024 = p / 1024).
  { destruct (buddy_cases p o Ha) as [(H1&_&->)|(H1&H2&->)]; [done|]. split; [done|]. rewrite <- H2. apply buddy_div; [lia|done]. }
  destruct Hc as [Hc1 Hc2]. apply page_is_buddy_total; apply Hmap; [done|]. rewrite buddy_div; [done|lia|done].
Qed.

(** Freeing adds the pages of the block to the free pages. *)
Lemma free_one_page_ok z p o m :
  inv z -> spare_in z p o -> (m < MIGRATE_TYPES)%nat ->
  exists z', __free_one_page p o m z = Ret z' /\ inv z' /\ same_zone z z' /\ nr_free_pages z' = s64 (nr_free_pages z + size o)
    /\ (forall x, ~ covers (free z') x -> pages z' !! x = pages z !! x)
    /\ forall x, covers (free z') x <-> covers (free z) x \/ inside p o x.
Proof.
  intros Hinv Hs Hm. unfold __free_one_page. rewrite size_shiftl. set (z0 := __mod_zone_freepage_state (size o) z).
  assert (Hs0 : same_zone z z0) by (apply same_pages_same; auto).
  assert (Hi0 : inv z0) by (apply (inv_frame id z); try done; by apply same_zone_span).
  destruct (merge_buddies_ok MAX_ORDER p o 0 z0 Hi0 Hs ltac:(lia)) as (z1&p1&o1&bp&->&Hi1&Hs1&Hn1&Hsp&Ht1&Hbp&Hcov). cbn [res_bind].
  destruct (s_mine _ _ _ _ Hsp p1 (inside_self p1 o1)) as (pg&Epg&Hid).
  unfold set_page_order, page_at. rewrite Epg. cbn [res_bind]. fold (freed pg o1). set (z2 := set_pages z1 _).
  destruct (coalesces_soon_total p1 o1 bp z2) as (soon&->).
  { intros q Hq. unfold z2. cbn. destruct (decide (q = p1)) as [->|]; [by rewrite lookup_insert_eq|]. rewrite lookup_insert_ne by done.
    destruct Hi1 as (Hz1&_). apply (z_map _ _ Hz1 p1); [by exists pg|done]. }
  { by apply Hsp. }
  { intros H. by apply Hbp. }
  cbn [res_bind]. destruct (add_block id z1 soon p1 o1 m Hi1 Hsp ltac:(intros H; by apply Hbp) Hm) as (a&l&pg'&Ea&El&Epg'&Hi'&Hs'&Hf').
  replace pg' with pg in * by congruence. eexists. split.
  { transitivity (let* z1 := list_link soon p1 o1 m z2 in nr_free_add o1 1 z1); [by destruct soon|]. by apply link_count. }
  match goal with |- inv ?z' /\ _ => assert (Hc : forall x, covers (free z') x <-> covers (free z) x \/ inside p o x) end.
  { intros x. rewrite <- (Hcov x : _ <-> covers (free z) x \/ _), <- (covers_plus _ _ p1 o1 x Hsp). by apply covers_ext. }
  split_and!; [exact Hi'|eapply same_zone_trans; [exact Hs0|by eapply same_zone_trans]|by cbn; rewrite Hn1| |done].
  intros x Hx. rewrite Hc in Hx. cbn. rewrite lookup_insert_ne; [apply (Ht1 x); tauto|]. intros <-. apply Hx, (Hcov p1). by right.
Qed.

(** * Allocating *)

Lemma expand_ok p low m : forall high z,
  inv z -> spare_in z p high -> (low <= high)%nat -> (m < MIGRATE_TYPES)%nat ->
  exists z', expand p low high m z = Ret z' /\ inv z' /\ same_zone z z' /\ nr_free_pages z' = nr_free_pages z
    /\ spare_in z' p low /\ pages z' !! p = pages z !! p
    /\ (forall x, ~ inside p high x -> pages z' !! x = pages z !! x)
    /\ forall x, covers (free z') x \/ inside p low x <-> covers (free z) x \/ inside p high x.
Proof.
  induction high as [|h IH]; intros z Hinv Hs Hle Hm; cbn [expand].
  - replace low with 0%nat by lia. exists z. split_and!; done.
  - destruct (Nat.ltb_spec low (S h)) as [Hlt|]; [|replace low with (S h) by lia; exists z; split_and!; done].
    rewrite size_shiftl. destruct (spare_split _ _ p h Hs) as (_&Hup&Hnb&Hlow).
    destruct (add_block id z false (p + size h) h m Hinv Hup ltac:(done) Hm) as (a&l&pg&Ea&El&Epg&Hi1&Hs1&Hf1).
    set (z1 := add_state _ _ _ _ _ _ _ _) in *.
    assert (Hs2 : spare_in z1 p h).
    { eapply spare_ext; [exact Hlow| |]; [intros x; by apply (same_zone_mine id z)|intros; by apply Hf1]. }
    destruct (IH z1 Hi1 Hs2 ltac:(lia) Hm) as (z'&E&Hi'&Hs'&Hn'&Hsp&Epp&Ht&Hcov).
    exists z'. split_and!; try done.
    + pose proof (link_count false (p + size h) h m z a l Ea El) as E1. fold list_add in E1.
      destruct (list_add (p + size h) h m z) as [z0| |]; cbn [res_bind] in E1 |- *; try done. rewrite E1. cbn [res_bind].
      unfold set_page_order, page_at. cbn [pages set_areas]. rewrite Epg. cbn [res_bind]. exact E.
    + by eapply same_zone_trans.
    + rewrite Epp. cbn. apply lookup_insert_ne. pose proof (size_pos h). lia.
    + intros x Hx. pose proof (size_pos h). unfold inside in *. rewrite size_S in Hx. rewrite Ht by lia. cbn.
      apply lookup_insert_ne. lia.
    + intros x. rewrite Hcov, (covers_ext _ _ x Hf1), (covers_plus _ _ (p + size h) h x Hup).
      unfold inside. rewrite size_S. pose proof (size_pos h). split; intros; intuition lia.
Qed.

(** A block was taken out of the free pages of [z]. *)
Record taken (z z' : zone) (p : Z) (o m : nat) : Prop := {
  t_inv : inv z';
  t_zone : same_zone z z';
  t_count : nr_free_pages z' = nr_free_pages z;
  t_spare : spare_in z' p o;
  t_page : exists pg, pages z' !! p = Some pg /\ PageBuddy pg = false /\ private pg = 0%nat /\ index pg = m;
  t_touch : forall x, ~ covers (free z) x -> pages z' !! x = pages z !! x;
  t_pages : forall x, covers (free z') x \/ inside p o x <-> covers (free z) x;
}.

(** The [index] of a page plays no part. *)
Lemma set_migratetype_ok z p m :
  inv z -> mine z p ->
  exists z', set_pcppage_migratetype p m z = Ret z' /\ inv z' /\ same_zone z z' /\ nr_free_pages z' = nr_free_pages z
    /\ (forall q o, free z' q o <-> free z q o)
    /\ (forall pg, pages z !! p = Some pg -> pages z' !! p = Some (with_index m pg))
    /\ (forall x, x <> p -> pages z' !! x = pages z !! x).
Proof.
  intros Hinv (pg&Epg&Hid). unfold set_pcppage_migratetype, page_at. rewrite Epg. cbn [res_bind]. eexists. split; [done|].
  set (z' := set_pages z _).
  assert (Hs : same_zone z z') by (by apply (insert_page_same z z' p pg (with_index m pg) Epg (kept_index pg m))).
  assert (Hf : forall q o, free z' q o <-> free z q o).
  { intros q o. unfold BuddyFacts.free. cbn. destruct (decide (q = p)) as [->|]; [|by rewrite lookup_insert_ne].
    rewrite lookup_insert_eq, Epg. split; intros (pg'&[= <-]&H); by eexists. }
  split_and!; try done.
  - apply (inv_frame id z); try done. by apply same_zone_span.
  - intros pg' E'. cbn. rewrite lookup_insert_eq. congruence.
  - intros x Hx. by apply lookup_insert_ne.
Qed.

(** Taking the first block of a list that is not empty. *)
Lemma take_ok z p l a co order m :
  inv z -> free_area z !! co = Some a -> free_list a !! m = Some (p :: l) -> (order <= co)%nat ->
  exists z', (let z := list_del p z in let* z := rmv_page_order p z in let* z := nr_free_add co (-1) z in
              let* z := expand p order co m z in set_pcppage_migratetype p m z) = Ret z' /\ taken z z' p order m.
Proof.
  intros Hinv Ea El Hle. pose proof Hinv as (Hz&Hl&Hb).
  assert (Hf : free z p co) by (apply (on_list_free id z p co m Hl); exists a, (p :: l); split_and!; [done|done|by left]).
  assert (Hm : (m < MIGRATE_TYPES)%nat) by (destruct (l_areas _ _ Hl co a Ea) as [<- _]; by eapply lookup_lt_Some).
  destruct (del_block id z p co Hinv Hf) as (a'&pg&Ea'&Epg&Hi1&Hs1&Hf1). replace a' with a in * by congruence.
  set (z1 := del_state z p co a pg) in *.
  assert (Hsp : spare_in z1 p co).
  { split; [by eapply b_order|by eapply b_align| |].
    - intros x Hx. apply (same_zone_mine id z z1 _ Hs1). by eapply b_mine.
    - intros q o' [Hne Hq]%Hf1. by apply (b_apart _ _ Hb). }
  destruct (expand_ok p order m co z1 Hi1 Hsp Hle Hm) as (z2&E2&Hi2&Hs2&Hn2&Hsp2&Epp&Ht2&Hcov).
  pose proof (s_mine _ _ _ _ Hsp2 p (inside_self p order)) as Hp2.
  destruct (set_migratetype_ok z2 p m Hi2 Hp2) as (z3&E3&Hi3&Hs3&Hn3&Hf3&Hpg3&Ht3).
  exists z3. split; [|split].
  - cbn zeta. unfold rmv_page_order, page_at, list_del. cbn [pages set_areas]. rewrite Epg. cbn [res_bind].
    unfold nr_free_add, area_at. cbn [free_area set_pages set_areas]. rewrite list_lookup_fmap, Ea. cbn [res_bind fmap option_fmap option_map].
    change (res_bind (expand p order co m z1) (set_pcppage_migratetype p m) = Ret z3). by rewrite E2.
  - done.
  - eapply same_zone_trans; [exact Hs1|]. by eapply same_zone_trans.
  - by rewrite Hn3, Hn2.
  - eapply spare_ext; [exact Hsp2| |]; [intros x; by apply (same_zone_mine id z2)|intros; by apply Hf3].
  - rewrite (Hpg3 (cleared pg)); [by eexists|]. rewrite Epp. cbn. apply lookup_insert_eq.
  - intros x Hx. assert (Hx' : ~ inside p co x) by (intros ?; apply Hx; by exists p, co).
    assert (x <> p) by (intros ->; by apply Hx'). rewrite Ht3, Ht2 by done. by apply lookup_insert_ne.
  - intros x. rewrite (covers_ext _ _ x Hf3), Hcov, (covers_ext _ _ x Hf1), (covers_without _ _ p co x Hb Hf).
    assert (inside p co x -> covers (free z) x) by (intros; by exists p, co).
    destruct (decide (p <= x < p + size co)) as [H'|H']; fold (inside p co x) in H'; tauto.
Qed.

Lemma smallest_loop_ok order m n : forall co z,
  inv z -> (order <= co)%nat -> (co + n <= MAX_ORDER)%nat -> (m < MIGRATE_TYPES)%nat ->
  exists z' r, smallest_loop n co order m z = Ret (z', r) /\
    match r with
    | None => z' = z /\ forall q o, (co <= o < co + n)%nat -> ~ on_list z q o m
    | Some p => taken z z' p order m
    end.
Proof.
  induction n as [|n IH]; intros co z Hinv Hle Hn Hm; cbn [smallest_loop].
  - exists z, None. split; [done|]. split; [done|]. lia.
  - pose proof Hinv as (_&Hl&_). destruct (area_exists id z co Hl ltac:(lia)) as (a&Ea&Ha).
    destruct (lookup_lt_is_Some_2 (free_list a) m) as [l El]; [by destruct Ha as [-> _]|].
    unfold area_at, list_at. rewrite Ea. cbn [res_bind]. rewrite El. cbn [res_bind]. destruct l as [|p l].
    + destruct (IH (S co) z Hinv ltac:(lia) ltac:(lia) Hm) as (z'&r&E&Hr). exists z', r. split; [done|].
      destruct r; [done|]. destruct Hr as [-> Hr]. split; [done|]. intros q o Ho.
      destruct (decide (o = co)) as [->|]; [|apply Hr; lia]. intros (a1&l1&E1&E2&Hq). simplify_eq. by apply elem_of_nil in Hq.
    + destruct (take_ok z p l a co order m Hinv Ea El Hle) as (z'&E&Ht). exists z', (Some p). split; [|done].
      cbn zeta in E. destruct (rmv_page_order p (list_del p z)) as [z1| |]; cbn [res_bind] in E |- *; try done.
      destruct (nr_free_add co (-1) z1) as [z2| |]; cbn [res_bind] in E |- *; try done.
      destruct (expand p order co m z2) as [z3| |]; cbn [res_bind] in E |- *; try done. by rewrite E.
Qed.
Lemma rmqueue_smallest_ok order m z :
  inv z -> (m < MIGRATE_TYPES)%nat ->
  exists z' r, __rmqueue_smallest order m z = Ret (z', r) /\
    match r with
    | None => z' = z /\ forall q o, (order <= o)%nat -> ~ on_list z q o m
    | Some p => taken z z' p order m
    end.
Proof.
  intros Hinv Hm. pose proof Hinv as (_&[Hlen _]&_). unfold __rmqueue_smallest. destruct (decide (order <= MAX_ORDER)%nat) as [Ho|Ho].
  - destruct (smallest_loop_ok order m (MAX_ORDER - order) order z Hinv ltac:(lia) ltac:(lia) Hm) as (z'&r&E&Hr).
    exists z', r. split; [done|]. destruct r; [done|]. destruct Hr as [-> Hr]. split; [done|]. intros q o Ho'.
    destruct (decide (o < MAX_ORDER)%nat); [apply Hr; lia|]. intros (a&l&Ea&_). apply lookup_lt_Some in Ea. lia.
  - replace (MAX_ORDER - order)%nat with 0%nat by lia. exists z, None. split_and!; [done|done|].
    intros q o Ho' (a&l&Ea&_). apply lookup_lt_Some in Ea. lia.
Qed.
End Ops.
