(* ===== verification/BuddyFallback.v ===== *)
(** Falling back to the lists of other migrate types, and the allocation loop. *)

From stdpp Require Import gmap.
From S2P Require Import Prelude Buddy BuddyBlocks BuddyFacts BuddyOps.

Section Fallback.
Context (id : Z).
#[local] Notation mine := (mine id).
#[local] Notation free := (free id).
#[local] Notation zone_ok := (zone_ok id).
#[local] Notation inv := (inv id).
#[local] Notation taken := (taken id).

(** * Searching *)

Definition head (z : zone) (o m : nat) (p : Z) : Prop :=
  exists a l, free_area z !! o = Some a /\ free_list a !! m = Some (p :: l).
Lemma head_on_list z o m p : head z o m p -> on_list z p o m.
Proof. intros (a&l&Ea&El). exists a, (p :: l). split_and!; [done|done|by left]. Qed.

(** One of the other two types that has a block of the order, unless none has. *)
Lemma find_suitable_fallback_ok z o a m cs :
  area_ok id z o a -> (m < MIGRATE_PCPTYPES)%nat ->
  exists r cs', find_suitable_fallback z a o m false cs = Ret (r, cs') /\
    match r with
    | Some f => (f < MIGRATE_PCPTYPES)%nat /\ f <> m /\ exists p l, free_list a !! f = Some (p :: l)
    | None => forall f, (f < MIGRATE_PCPTYPES)%nat -> f <> m -> free_list a !! f = Some []
    end.
Proof.
  intros (A1&A2&A3&A4) Hm. destruct (free_list a) as [|l0 [|l1 [|l2 [|l3 [|]]]]] eqn:El; try done.
  unfold find_suitable_fallback. destruct (Z.eqb_spec (nr_free a) 0) as [E|E].
  - exists None, cs. split; [done|]. rewrite A3 in E. cbn in E. rewrite !length_app in E.
    destruct l0, l1, l2; cbn in E; try lia. intros f Hf _. unfold MIGRATE_PCPTYPES in Hf.
    destruct f as [|[|[|]]]; try done. lia.
  - assert (Hlast : forall f, (f < 3)%nat -> f = 0%nat \/ f = 1%nat \/ f = 2%nat) by lia.
    unfold MIGRATE_PCPTYPES in *. destruct (Hlast m Hm) as [-> |[-> | ->]]; cbn; unfold list_at; rewrite El; cbn;
      destruct l0, l1, l2; cbn; eexists _, _; (split; [done|]); cbn;
      first [intros f Hf Hne; destruct (Hlast f Hf) as [-> |[-> | ->]]; done
            |split; [unfold MIGRATE_RECLAIMABLE, MIGRATE_MOVABLE, MIGRATE_UNMOVABLE; lia|]; split; [done|by eexists _, _]].
Qed.

(** What a search over the orders [lo, hi) finds. *)
Definition found (z : zone) (m lo hi : nat) (r : option (nat * nat * bool)) : Prop :=
  match r with
  | Some (o, f, _) => (lo <= o < hi)%nat /\ (f < MIGRATE_PCPTYPES)%nat /\ f <> m /\ exists p, head z o f p
  | None => forall o f q, (lo <= o < hi)%nat -> (f < MIGRATE_PCPTYPES)%nat -> f <> m -> ~ on_list z q o f
  end.
Lemma not_on_empty z q o f a : free_area z !! o = Some a -> free_list a !! f = Some [] -> ~ on_list z q o f.
Proof. intros Ea El (a'&l&Ea'&El'&Hq). simplify_eq. by apply elem_of_nil in Hq. Qed.

Lemma largest_fallback_ok z m order : forall n cs,
  lists_ok id z -> (m < MIGRATE_PCPTYPES)%nat -> (n <= MAX_ORDER)%nat ->
  exists r, largest_fallback n z order m cs = Ret r /\ found z m order n r.
Proof.
  induction n as [|n IH]; intros cs Hl Hm Hn; cbn [largest_fallback].
  - exists None. split; [done|]. cbn. lia.
  - destruct (Nat.ltb_spec n order) as [Ho|Ho]; [exists None; split; [done|]; cbn; lia|].
    destruct (area_exists id z n Hl ltac:(lia)) as (a&Ea&Ha). unfold area_at. rewrite Ea. cbn [res_bind].
    destruct (find_suitable_fallback_ok z n a m cs Ha Hm) as (r&cs'&->&Hr). cbn [res_bind]. destruct r as [f|].
    + exists (Some (n, f, cs')). split; [done|]. destruct Hr as (H1&H2&p&l&El). split_and!; [lia|lia|done|done|].
      exists p. by exists a, l.
    + destruct (IH cs' Hl Hm ltac:(lia)) as (r&E&Hf). exists r. split; [done|]. destruct r as [[[o f] c]|]; cbn in *.
      * destruct Hf as (?&?&?&?). split_and!; (done || lia).
      * intros o f q Ho' Hf' Hne. destruct (decide (o = n)) as [->|]; [|apply Hf; (done || lia)].
        apply (not_on_empty z q n f a Ea). by apply Hr.
Qed.

Lemma smallest_fallback_ok z m : forall n co cs,
  lists_ok id z -> (m < MIGRATE_PCPTYPES)%nat -> (co + n <= MAX_ORDER)%nat ->
  exists r, smallest_fallback n co z m cs = Ret r /\ found z m co (co + n) r.
Proof.
  induction n as [|n IH]; intros co cs Hl Hm Hn; cbn [smallest_fallback].
  - exists None. split; [done|]. cbn. lia.
  - destruct (area_exists id z co Hl ltac:(lia)) as (a&Ea&Ha). unfold area_at. rewrite Ea. cbn [res_bind].
    destruct (find_suitable_fallback_ok z co a m cs Ha Hm) as (r&cs'&->&Hr). cbn [res_bind]. destruct r as [f|].
    + exists (Some (co, f, cs')). split; [done|]. destruct Hr as (H1&H2&p&l&El). split_and!; [lia|lia|done|done|].
      exists p. by exists a, l.
    + destruct (IH (S co) cs' Hl Hm ltac:(lia)) as (r&E&Hf). exists r. split; [done|]. destruct r as [[[o f] c]|]; cbn in *.
      * destruct Hf as (?&?&?&?). split_and!; (done || lia).
      * intros o f q Ho' Hf' Hne. destruct (decide (o = co)) as [->|]; [|apply Hf; (done || lia)].
        apply (not_on_empty z q co f a Ea). by apply Hr.
Qed.

(** * Moving the blocks of a page block *)

(** The blocks that begin in a range go to the lists of one type; the others stay. *)
Lemma move_loop_ok e m : forall fuel p moved nm z,
  inv z -> (m < MIGRATE_TYPES)%nat -> (forall q, p <= q <= e -> mine z q) -> (Z.to_nat (e + 1 - p) < fuel)%nat ->
  exists z' mv nm', move_loop fuel p e m moved nm z = Ret (z', mv, nm') /\ inv z' /\ same_zone z z' /\ pages z' = pages z
    /\ nr_free_pages z' = nr_free_pages z
    /\ forall q o m', on_list z' q o m' <-> if decide (p <= q <= e) then m' = m /\ free z q o else on_list z q o m'.
Proof.
  induction fuel as [|fuel IH]; intros p moved nm z Hinv Hm Hmine Hfuel; [lia|cbn [move_loop]].
  destruct (Z.leb_spec p e) as [Hpe|Hpe].
  2: { exists z, moved, nm. split_and!; try done. intros q o m'. by rewrite decide_False by lia. }
  pose proof Hinv as (Hz&Hl&Hb). destruct (Hmine p ltac:(lia)) as (pg&Epg&Hid). unfold page_at. rewrite Epg. cbn [res_bind].
  destruct (PageBuddy pg) eqn:Eb; cbn [negb].
  - assert (Hf : free z p (private pg)) by by exists pg. set (o := private pg) in *. pose proof (size_pos o).
    destruct (list_move_ok id z p o m Hinv Hf Hm) as (z1&->&Hi1&Hs1&Ep1&Hn1&Hon1). cbn [res_bind]. rewrite size_shiftl.
    assert (Hf1 : forall q o', free z1 q o' <-> free z q o') by (intros; unfold BuddyFacts.free; by rewrite Ep1).
    destruct (IH (p + size o) (moved + size o) nm z1 Hi1 Hm) as (z'&mv&nm'&E&Hi'&Hs'&Ep'&Hn'&Hon'); [|lia|].
    { intros q Hq. apply (same_zone_mine id z z1 q Hs1), Hmine. lia. }
    exists z', mv, nm'. split_and!; try done; [by eapply same_zone_trans|congruence|congruence|]. intros q o' m'. rewrite Hon'.
    destruct (decide (p + size o <= q <= e)) as [H1|H1]; [rewrite decide_True by lia; by rewrite Hf1|].
    rewrite Hon1. destruct (decide (p <= q <= e)) as [H2|H2]; [|naive_solver lia].
    destruct (decide (q = p)) as [->|Hne].
    + pose proof (free_fun id z p o' o) as Hfun. naive_solver.
    + assert (Hno : ~ free z q o').
      { intros Hq. pose proof (b_apart _ _ Hb p o q o' Hf Hq ltac:(done)) as Ha. pose proof (size_pos o'). unfold apart in Ha. lia. }
      pose proof (on_list_free id z q o' m' Hl). tauto.
  - set (nm1 := if PageLRU pg || __PageMovable pg then nm + 1 else nm).
    destruct (IH (p + 1) moved nm1 z Hinv Hm) as (z'&mv&nm'&E&Hi'&Hs'&Ep'&Hn'&Hon'); [intros; apply Hmine; lia|lia|].
    exists z', mv, nm'. split_and!; try done. intros q o' m'. rewrite Hon'.
    destruct (decide (p + 1 <= q <= e)) as [H1|H1]; [by rewrite decide_True by lia|].
    destruct (decide (p <= q <= e)) as [H2|H2]; [|done]. replace q with p by lia.
    assert (Hno : ~ free z p o') by (intros (pg'&E'&_&Hb'&_); congruence). pose proof (on_list_free id z p o' m' Hl). tauto.
Qed.

Lemma block_start p : 0 <= p < two64 -> Z.land p (w64 (Z.lnot (pageblock_nr_pages - 1))) = 1024 * (p / 1024).
Proof.
  intros Hp. replace (w64 (Z.lnot (pageblock_nr_pages - 1))) with (Z.shiftl (Z.ones 54) 10) by reflexivity.
  apply Z.bits_inj'. intros i Hi. rewrite Z.land_spec. change 1024 with (2 ^ 10). rewrite (Z.mul_comm (2 ^ 10)), <- Z.shiftl_mul_pow2 by lia.
  rewrite <- Z.shiftr_div_pow2 by lia. destruct (Z.lt_ge_cases i 10).
  - rewrite !Z.shiftl_spec_low by lia. by rewrite andb_false_r.
  - rewrite !Z.shiftl_spec, Z.shiftr_spec by lia. replace (i - 10 + 10) with i by lia.
    destruct (Z.lt_ge_cases i 64).
    + rewrite Z.ones_spec_low by lia. by rewrite andb_true_r.
    + assert (Z.testbit p i = false) as ->; [|done]. apply (Z.testbit_false p i); [lia|]. rewrite Z.div_small; [done|].
      split; [lia|]. apply Z.lt_le_trans with two64; [lia|]. apply (Z.pow_le_mono_r 2 64 i); lia.
Qed.

Lemma mine_range z p q x : zone_ok z -> mine z p -> mine z q -> p <= x <= q -> mine z x.
Proof.
  intros Hz Hp Hq Hx. apply (z_spans _ _ Hz) in Hp, Hq. apply (z_spans _ _ Hz). unfold zone_spans_pfn in *.
  rewrite andb_true_iff, Z.leb_le, Z.ltb_lt in *. lia.
Qed.
(** The free blocks of a page block are moved, unless it crosses the end of the zone. *)
Lemma move_freepages_block_ok p m z :
  inv z -> mine z p -> (m < MIGRATE_TYPES)%nat ->
  exists z' mv nm, move_freepages_block p m z = Ret (z', mv, nm) /\ inv z' /\ same_zone z z' /\ pages z' = pages z
    /\ nr_free_pages z' = nr_free_pages z
    /\ (mv = 0 \/ forall o, free z p o -> on_list z' p o m)
    /\ forall q o, on_list z q o m -> on_list z' q o m.
Proof.
  intros Hinv Hp Hm. pose proof Hinv as (Hz&Hl&_). pose proof (mine_range_pos id z p Hz Hp). pose proof (proj2 (z_spans _ _ Hz p) Hp) as Hsp. pose proof (z_top _ _ Hz) as Htop.
  unfold zone_spans_pfn in Hsp. rewrite andb_true_iff, Z.leb_le, Z.ltb_lt in Hsp.
  unfold move_freepages_block. rewrite block_start by lia. change pageblock_nr_pages with 1024. divmod p 1024.
  destruct (zone_spans_pfn z (1024 * (p / 1024) + 1024 - 1)) eqn:Ee; cbn [negb].
  2: { exists z, 0, None. split_and!; try done. by left. }
  set (s := if negb (zone_spans_pfn z (1024 * (p / 1024))) then p else 1024 * (p / 1024)). set (e := _ - 1) in *.
  assert (Hs : mine z s /\ s <= p).
  { unfold s. destruct (zone_spans_pfn z (1024 * (p / 1024))) eqn:E; cbn [negb]; [|split; [done|lia]]. split; [by apply (z_spans _ _ Hz)|lia]. }
  apply (z_spans _ _ Hz) in Ee. destruct Hs as [Hs Hsp'].
  destruct (move_loop_ok e m (S (Z.to_nat (e + 1 - s))) s 0 0 z Hinv Hm) as (z'&mv&nm&E&Hi&Hsm&Epp&Hn&Hon); [|lia|].
  { intros q Hq. by apply (mine_range z s e). }
  unfold move_freepages. rewrite E. cbn [res_bind]. exists z', mv, (Some nm). split_and!; try done.
  - right. intros o Hf. apply Hon. rewrite decide_True by lia. done.
  - intros q o Hq. apply Hon. case_decide; [|done]. split; [done|]. by eapply on_list_free.
Qed.

(** * Stealing *)

(** The parts of the zone that stealing does not change. *)
Definition relisted (z z' : zone) : Prop :=
  inv z' /\ same_zone z z' /\ pages z' = pages z /\ nr_free_pages z' = nr_free_pages z.
Lemma relisted_refl z : inv z -> relisted z z.
Proof. done. Qed.
Lemma relisted_trans z1 z2 z3 : relisted z1 z2 -> relisted z2 z3 -> relisted z1 z3.
Proof. intros (?&?&?&?) (?&?&?&?). split_and!; [done|by eapply same_zone_trans|congruence|congruence]. Qed.
Lemma relisted_free z z' q o : relisted z z' -> free z' q o <-> free z q o.
Proof. intros (_&_&E&_). unfold BuddyFacts.free. by rewrite E. Qed.

Lemma set_pageblock_ok p m z :
  inv z -> (m < MIGRATE_TYPES)%nat -> relisted z (set_pageblock_migratetype p m z)
  /\ free_area (set_pageblock_migratetype p m z) = free_area z.
Proof.
  intros Hinv Hm. split; [|done]. set (z' := set_pageblock_migratetype p m z).
  assert (Hs : same_zone z z').
  { apply same_pages_same; try done. intros b mt Hb Hlt. unfold z'. cbn. destruct (decide (b = p / pageblock_nr_pages)) as [->|].
    - rewrite lookup_insert_eq. eexists. split; [done|]. destruct (_ && _); [unfold MIGRATE_UNMOVABLE, MIGRATE_TYPES; lia|done].
    - rewrite lookup_insert_ne by done. by exists mt. }
  split_and!; try done. apply (inv_frame id z); try done. by apply same_zone_span.
Qed.
Lemma change_range_ok n m : forall p z,
  inv z -> (m < MIGRATE_TYPES)%nat -> relisted z (change_pageblock_range n p m z) /\ free_area (change_pageblock_range n p m z) = free_area z.
Proof.
  induction n as [|n IH]; intros p z Hinv Hm; cbn [change_pageblock_range]; [done|].
  destruct (set_pageblock_ok p m z Hinv Hm) as [H1 E1]. destruct (IH (p + pageblock_nr_pages) _ (proj1 H1) Hm) as [H2 E2].
  split; [by eapply relisted_trans|congruence].
Qed.
Lemma list_move_relisted z p o m :
  inv z -> free z p o -> (m < MIGRATE_TYPES)%nat ->
  exists z', list_move p o m z = Ret z' /\ relisted z z' /\ on_list z' p o m.
Proof.
  intros Hinv Hf Hm. destruct (list_move_ok id z p o m Hinv Hf Hm) as (z'&E&Hi&Hs&Ep&Hn&Hon). exists z'. split_and!; try done.
  apply Hon. by left.
Qed.
Lemma claim_block_ok p m old fp mp z :
  inv z -> (m < MIGRATE_TYPES)%nat -> relisted z (claim_block p m old fp mp z) /\ free_area (claim_block p m old fp mp z) = free_area z.
Proof. intros Hinv Hm. unfold claim_block. destruct (_ || _); [by apply set_pageblock_ok|done]. Qed.

(** The block ends up on the list of the type that steals it. *)
Lemma steal_ok z p o m whole :
  inv z -> free z p o -> (m < MIGRATE_TYPES)%nat ->
  exists z', steal_suitable_fallback p m whole z = Ret z' /\ relisted z z' /\ on_list z' p o m.
Proof.
  intros Hinv Hf Hm. pose proof Hinv as (Hz&Hl&Hb). pose proof Hf as (pg&Epg&Hid&Hbd&Ho). pose proof (free_mine id z p o Hf) as Hp.
  destruct (z_types _ _ Hz p Hp) as (old&Eold&_).
  unfold steal_suitable_fallback, page_at, get_pageblock_migratetype. rewrite Epg. cbn [res_bind]. rewrite Ho.
  change pageblock_nr_pages with 1024. rewrite Eold. cbn [res_bind].
  pose proof (list_move_relisted z p o m Hinv Hf Hm) as Hmove.
  destruct (old =? MIGRATE_HIGHATOMIC)%nat; [done|]. destruct (pageblock_order <=? o)%nat.
  { destruct (change_range_ok (2 ^ (o - pageblock_order)) m p z Hinv Hm) as [Hc _]. pose proof (proj1 Hc) as Hic.
    destruct (list_move_relisted _ p o m Hic) as (z'&E&Hr&Hon); [by apply (relisted_free z)|done|].
    exists z'. split_and!; try done. by eapply relisted_trans. }
  destruct whole; cbn [negb]; [|done].
  destruct (move_freepages_block_ok p m z Hinv Hp Hm) as (z1&mv&nm&->&Hi1&Hs1&Ep1&Hn1&Hp1&_). cbn [res_bind].
  assert (Hr1 : relisted z z1) by done. destruct (Z.eqb_spec mv 0) as [->|Hmv].
  - destruct (list_move_relisted z1 p o m Hi1) as (z'&E&Hr&Hon); [by apply (relisted_free z)|done|].
    exists z'. split_and!; try done. by eapply relisted_trans.
  - destruct (claim_block_ok p m old mv (default 0 nm) z1 Hi1 Hm) as [Hr2 Ea2]. eexists. split; [done|].
    split; [by eapply relisted_trans|]. destruct Hp1 as [?|Hp1]; [done|]. unfold on_list. rewrite Ea2. by apply Hp1.
Qed.

(** * [__rmqueue] *)

Lemma do_steal_ok o f m cs z p :
  inv z -> head z o f p -> (m < MIGRATE_TYPES)%nat ->
  exists z', do_steal o f m cs z = Ret (z', true) /\ relisted z z' /\ on_list z' p o m.
Proof.
  intros Hinv Hh Hm. pose proof Hinv as (_&Hl&_). pose proof (on_list_free id z p o f Hl (head_on_list _ _ _ _ Hh)) as Hf.
  destruct Hh as (a&l&Ea&El). unfold do_steal, area_at, list_at. rewrite Ea. cbn [res_bind]. rewrite El. cbn [res_bind].
  destruct (steal_ok z p o m cs Hinv Hf Hm) as (z'&->&Hr&Hon). cbn [res_bind]. by exists z'.
Qed.
Lemma rmqueue_fallback_ok order m z :
  inv z -> (m < MIGRATE_PCPTYPES)%nat ->
  exists z' b, __rmqueue_fallback order m z = Ret (z', b) /\
    if b : bool then relisted z z' /\ exists p o, (order <= o)%nat /\ on_list z' p o m
    else z' = z /\ forall o f q, (order <= o)%nat -> (f < MIGRATE_PCPTYPES)%nat -> f <> m -> ~ on_list z q o f.
Proof.
  intros Hinv Hm. pose proof Hinv as (_&Hl&_). assert (Hm4 : (m < MIGRATE_TYPES)%nat) by (unfold MIGRATE_PCPTYPES, MIGRATE_TYPES in *; lia).
  unfold __rmqueue_fallback. destruct (largest_fallback_ok z m order MAX_ORDER false Hl Hm ltac:(lia)) as (r&->&Hr). cbn [res_bind].
  destruct r as [[[co f] cs]|]; cbn in Hr.
  2: { exists z, false. split_and!; [done|done|]. intros o f q Ho. destruct (decide (o < MAX_ORDER)%nat); [apply Hr; lia|].
       intros _ _ (a&l&Ea&_). apply lookup_lt_Some in Ea. rewrite (l_size _ _ Hl) in Ea. lia. }
  destruct Hr as (Hco&Hf&Hfm&p&Hp). destruct (_ && _ && _).
  - destruct (smallest_fallback_ok z m (MAX_ORDER - order) order cs Hl Hm ltac:(unfold MAX_ORDER in *; lia)) as (r&->&Hr'). cbn [res_bind].
    destruct r as [[[co' f'] cs']|]; cbn in Hr'.
    + destruct Hr' as (Hco'&_&_&p'&Hp'). destruct (do_steal_ok co' f' m cs' z p' Hinv Hp' Hm4) as (z'&->&Hrl&Hon).
      exists z', true. split_and!; [done|done|]. exists p', co'. split; [lia|done].
    + exfalso. apply (Hr' co f p); [unfold MAX_ORDER in *; lia|done|done|by apply head_on_list].
  - destruct (do_steal_ok co f m cs z p Hinv Hp Hm4) as (z'&->&Hrl&Hon). exists z', true. split_and!; [done|done|].
    exists p, co. split; [lia|done].
Qed.

Lemma taken_relisted z z1 z' p o m : relisted z z1 -> taken z1 z' p o m -> taken z z' p o m.
Proof.
  intros Hr [T1 T2 T3 T4 T5 T6 T7]. pose proof Hr as (_&Hs&Ep&Hn). split; try done.
  - by eapply same_zone_trans.
  - congruence.
  - intros x Hx. rewrite T6, Ep; [done|]. rewrite (covers_ext _ (free z)); [done|]. intros. by apply relisted_free.
  - intros x. rewrite T7. apply covers_ext. intros. by apply relisted_free.
Qed.
(** It fails only if no block of the order or a larger one is on the lists of the three types
    that allocations share. *)
Lemma rmqueue_ok order m z :
  inv z -> (m < MIGRATE_PCPTYPES)%nat ->
  exists z' r, __rmqueue order m z = Ret (z', r) /\
    match r with
    | Some p => taken z z' p order m
    | None => z' = z /\ forall o f q, (order <= o)%nat -> (f < MIGRATE_PCPTYPES)%nat -> ~ on_list z q o f
    end.
Proof.
  intros Hinv Hm. assert (Hm4 : (m < MIGRATE_TYPES)%nat) by (unfold MIGRATE_PCPTYPES, MIGRATE_TYPES in *; lia).
  unfold __rmqueue. cbn [rmqueue_loop]. destruct (rmqueue_smallest_ok id order m z Hinv Hm4) as (z1&r&->&Hr). cbn [res_bind].
  destruct r as [p|]; [by exists z1, (Some p)|]. destruct Hr as [-> Hno].
  destruct (rmqueue_fallback_ok order m z Hinv Hm) as (z1&b&->&Hb). cbn [res_bind]. destruct b.
  - destruct Hb as (Hrl&p&o&Ho&Hon). destruct (rmqueue_smallest_ok id order m z1 (proj1 Hrl) Hm4) as (z2&r&->&Hr). cbn [res_bind].
    destruct r as [p'|]; [|exfalso; by eapply Hr]. exists z2, (Some p'). split; [done|]. by eapply taken_relisted.
  - destruct Hb as [-> Hno']. exists z, None. split_and!; [done|done|]. intros o f q Ho Hf.
    destruct (decide (f = m)) as [->|]; [by apply Hno|by apply Hno'].
Qed.

(** Reserving a page block for atomic allocations moves free blocks and changes its type. *)
Lemma reserve_ok p z : inv z -> mine z p -> exists z', reserve_highatomic_pageblock p z = Ret z' /\ relisted z z'.
Proof.
  intros Hinv Hp. unfold reserve_highatomic_pageblock. destruct (_ <=? _); [by exists z|].
  pose proof Hinv as (Hz&_). destruct (z_types _ _ Hz p Hp) as (old&Eold&_). unfold get_pageblock_migratetype.
  change pageblock_nr_pages with 1024. rewrite Eold. cbn [res_bind]. destruct (negb _); [|by exists z].
  set (z1 := set_highatomic _ _). assert (Hs1 : same_zone z z1) by (apply same_pages_same; auto).
  assert (H1 : relisted z z1) by (split_and!; [apply (inv_frame id z); try done; by apply same_zone_span|done|done|done]).
  destruct (set_pageblock_ok p MIGRATE_HIGHATOMIC z1 (proj1 H1) ltac:(unfold MIGRATE_HIGHATOMIC, MIGRATE_PCPTYPES, MIGRATE_TYPES; lia)) as [H2 _]. set (z2 := set_pageblock_migratetype _ _ z1) in *.
  destruct (move_freepages_block_ok p MIGRATE_HIGHATOMIC z2 (proj1 H2)) as (z'&mv&nm&->&Hi&Hs&Ep&Hn&_);
    [exact Hp|unfold MIGRATE_HIGHATOMIC, MIGRATE_PCPTYPES, MIGRATE_TYPES; lia|].
  cbn [res_bind]. exists z'. split; [done|]. eapply relisted_trans; [exact H1|]. by eapply relisted_trans.
Qed.
End Fallback.
