(* ===== verification/PageAlloc.v ===== *)
(** The page allocator above the free lists (mm/page_alloc.c): the checks of a page's state
    on allocation and on freeing, the per-CPU lists of single pages, [rmqueue],
    [__free_pages] and the watermark checks.

    The configuration is the repository's minimalconfig: one CPU, one node, no CMA, no memory
    isolation, no control groups, no hardware poisoning, no transparent huge pages, no
    DEBUG_VM.  Statistics and traces are left out, and of [bad_page] only what it does to the
    page is kept. *)

From stdpp Require Import gmap.
From S2P Require Import Prelude Buddy.

(** * The state of a page *)

Definition PG_locked : Z := 0.
Definition PG_active : Z := 6.
Definition PG_slab : Z := 8.
Definition PG_reserved : Z := 11.
Definition PG_private : Z := 12.
Definition PG_private_2 : Z := 13.
Definition PG_writeback : Z := 14.
Definition PG_head : Z := 15.
Definition PG_unevictable : Z := 19.
Definition PG_mlocked : Z := 20.
Definition NR_PAGEFLAGS : Z := 21.

Definition PAGE_FLAGS_CHECK_AT_FREE : Z :=
  fold_right Z.lor 0 (Z.shiftl 1 <$> [PG_lru; PG_locked; PG_private; PG_private_2; PG_writeback; PG_reserved; PG_slab;
                                       PG_active; PG_unevictable; PG_mlocked]).
Definition PAGE_FLAGS_CHECK_AT_PREP : Z := Z.shiftl 1 NR_PAGEFLAGS - 1.

Definition PageTail (pg : page) : bool := Z.testbit (compound_head pg) 0.
Definition PageCompound (pg : page) : bool := Z.testbit (flags pg) PG_head || PageTail pg.
Definition PageMappingFlags (pg : page) : bool := negb (Z.land (mapping pg) PAGE_MAPPING_FLAGS =? 0).

Definition page_expected_state (pg : page) (check_flags : Z) : bool :=
  if negb (_mapcount pg =? -1) then false
  else if negb (Z.lor (Z.lor (mapping pg) (w64 (_refcount pg))) (Z.land (flags pg) check_flags) =? 0) then false
  else true.

Definition update_page (f : page -> page) (p : Z) (z : zone) : res zone :=
  let* pg := page_at z p in Ret (set_pages z (<[p := f pg]> (pages z))).

(** page_mapcount_reset *)
Definition bad_page (p : Z) (z : zone) : res zone := update_page (with_mapcount (-1)) p z.

Definition free_pages_check (p : Z) (z : zone) : res (zone * bool) :=
  let* pg := page_at z p in
  if page_expected_state pg PAGE_FLAGS_CHECK_AT_FREE then Ret (z, false)
  else let* z := bad_page p z in Ret (z, true).

Definition check_new_page (p : Z) (z : zone) : res (zone * bool) :=
  let* pg := page_at z p in
  if page_expected_state pg PAGE_FLAGS_CHECK_AT_PREP then Ret (z, false)
  else let* z := bad_page p z in Ret (z, true).

(** for (i = 0; i < (1 << order); i++), over the [n] pages from [p] on *)
Fixpoint check_new_loop (n : nat) (p : Z) (z : zone) : res (zone * bool) :=
  match n with
  | O => Ret (z, false)
  | S n' =>
      let* (z, bad) := check_new_page p z in
      if bad : bool then Ret (z, true) else check_new_loop n' (p + 1) z
  end.
Definition check_new_pages (p : Z) (order : nat) (z : zone) : res (zone * bool) := check_new_loop (2 ^ order) p z.

Definition free_tail_pages_check (p : Z) (z : zone) : res zone :=
  update_page (fun pg => with_compound_head 0 (with_mapping 0 pg)) p z.

(** for (i = 1; i < (1 << order); i++): the [n] pages from [p] on, and the count of bad pages *)
Fixpoint prepare_tails (n : nat) (p : Z) (compound : bool) (bad : Z) (z : zone) : res (zone * Z) :=
  match n with
  | O => Ret (z, bad)
  | S n' =>
      let* z := if compound then free_tail_pages_check p z else Ret z in
      let* (z, is_bad) := free_pages_check p z in
      if is_bad : bool then prepare_tails n' (p + 1) compound (bad + 1) z
      else
        let* z := update_page (fun pg => with_flags (Z.ldiff (flags pg) PAGE_FLAGS_CHECK_AT_PREP) pg) p z in
        prepare_tails n' (p + 1) compound bad z
  end.

Definition free_pages_prepare (p : Z) (order : nat) (check_free : bool) (z : zone) : res (zone * bool) :=
  let* (z, bad) :=
    if negb (order =? 0)%nat then
      let* pg := page_at z p in
      prepare_tails (2 ^ order - 1) (p + 1) (PageCompound pg) 0 z
    else Ret (z, 0) in
  let* pg := page_at z p in
  let* z := if PageMappingFlags pg then update_page (with_mapping 0) p z else Ret z in
  let* (z, bad) :=
    if check_free then
      let* (z, is_bad) := free_pages_check p z in
      Ret (z, if is_bad : bool then bad + 1 else bad)
    else Ret (z, bad) in
  if negb (bad =? 0) then Ret (z, false)
  else
    let* z := update_page (fun pg => with_flags (Z.ldiff (flags pg) PAGE_FLAGS_CHECK_AT_PREP) pg) p z in
    Ret (z, true).

Definition free_pcp_prepare (p : Z) (z : zone) : res (zone * bool) := free_pages_prepare p 0 false z.
Definition bulkfree_pcp_prepare (p : Z) (z : zone) : res (zone * bool) := free_pages_check p z.
Definition check_pcp_refill (p : Z) (z : zone) : res (zone * bool) := check_new_page p z.

(** * The lists of a CPU *)

Record per_cpu_pages := mkPcp {
  count : Z;
  high : Z;
  batch : Z;
  lists : list (list Z);
}.
Definition set_count (c : Z) (pcp : per_cpu_pages) : per_cpu_pages := mkPcp c (high pcp) (batch pcp) (lists pcp).
Definition set_lists (ls : list (list Z)) (pcp : per_cpu_pages) : per_cpu_pages := mkPcp (count pcp) (high pcp) (batch pcp) ls.
Definition pcp_list (ls : list (list Z)) (mt : nat) : res (list Z) :=
  match ls !! mt with Some l => Ret l | None => BUG end.

(** for (i = 0; i < count; ++i): the zone, the list with the pages at its end, [i] and [alloced] *)
Fixpoint bulk_loop (n : nat) (order mt : nat) (l : list Z) (i alloced : Z) (z : zone) : res (zone * list Z * Z * Z) :=
  match n with
  | O => Ret (z, l, i, alloced)
  | S n' =>
      let* (z, r) := __rmqueue order mt z in
      match r with
      | None => Ret (z, l, i, alloced)
      | Some p =>
          let* (z, bad) := check_pcp_refill p z in
          if bad : bool then bulk_loop n' order mt l (i + 1) alloced z
          else bulk_loop n' order mt (l ++ [p]) (i + 1) (alloced + 1) z
      end
  end.
Definition rmqueue_bulk (order : nat) (count : Z) (l : list Z) (mt : nat) (z : zone) : res (zone * list Z * Z) :=
  let* (z, l, i, alloced) := bulk_loop (Z.to_nat count) order mt l 0 0 z in
  Ret (__mod_zone_freepage_state (- Z.shiftl i (Z.of_nat order)) z, l, alloced).

(** [check_new_pcp] is false, so the loop ends after one round. *)
Definition __rmqueue_pcplist (mt : nat) (pcp : per_cpu_pages) (z : zone) : res (zone * per_cpu_pages * option Z) :=
  let* l := pcp_list (lists pcp) mt in
  let* (z, l, pcp) :=
    match l with
    | [] =>
        let* (z, l, alloced) := rmqueue_bulk 0 (w64 (batch pcp)) l mt z in
        Ret (z, l, set_count (s32 (count pcp + alloced)) pcp)
    | _ :: _ => Ret (z, l, pcp)
    end in
  match l with
  | [] => Ret (z, pcp, None)
  | p :: l => Ret (z, set_lists (<[mt := l]> (lists pcp)) (set_count (s32 (count pcp - 1)) pcp), Some p)
  end.
Definition rmqueue_pcplist := __rmqueue_pcplist.

(** do { batch_free++; ... } while (list_empty(list)): the type and [batch_free] *)
Fixpoint next_list (fuel : nat) (mt : nat) (batch_free : Z) (ls : list (list Z)) : res (nat * Z) :=
  match fuel with
  | O => OutOfFuel
  | S fuel' =>
      let batch_free := batch_free + 1 in
      let mt := if (S mt =? MIGRATE_PCPTYPES)%nat then 0%nat else S mt in
      let* l := pcp_list ls mt in
      match l with
      | [] => next_list fuel' mt batch_free ls
      | _ :: _ => Ret (mt, batch_free)
      end
  end.

(** do { ... } while (--count && --batch_free && !list_empty(list)): the zone, the lists, [count]
    and [batch_free] *)
Fixpoint drain_list (fuel : nat) (mt : nat) (count batch_free : Z) (ls : list (list Z)) (z : zone)
    : res (zone * list (list Z) * Z * Z) :=
  match fuel with
  | O => OutOfFuel
  | S fuel' =>
      let* l := pcp_list ls mt in
      match last l with
      | None => BUG
      | Some p =>
          let l := removelast l in
          let ls := <[mt := l]> ls in
          let* pg := page_at z p in
          let pmt := index pg in
          let* (z, bad) := bulkfree_pcp_prepare p z in
          let* z := if bad : bool then Ret z else __free_one_page p 0 pmt z in
          let count := count - 1 in
          if count =? 0 then Ret (z, ls, count, batch_free)
          else
            let batch_free := batch_free - 1 in
            if batch_free =? 0 then Ret (z, ls, count, batch_free)
            else match l with [] => Ret (z, ls, count, batch_free) | _ :: _ => drain_list fuel' mt count batch_free ls z end
      end
  end.

(** while (count) *)
Fixpoint bulk_free_loop (fuel : nat) (mt : nat) (batch_free count : Z) (ls : list (list Z)) (z : zone) : res (zone * list (list Z)) :=
  match fuel with
  | O => OutOfFuel
  | S fuel' =>
      if count =? 0 then Ret (z, ls)
      else
        let* (mt, batch_free) := next_list MIGRATE_PCPTYPES mt batch_free ls in
        let batch_free := if batch_free =? Z.of_nat MIGRATE_PCPTYPES then count else batch_free in
        let* (z, ls, count, batch_free) := drain_list (Z.to_nat count) mt count batch_free ls z in
        bulk_free_loop fuel' mt batch_free count ls z
  end.
Definition free_pcppages_bulk (count : Z) (pcp : per_cpu_pages) (z : zone) : res (zone * per_cpu_pages) :=
  let* (z, ls) := bulk_free_loop (S (Z.to_nat count)) 0 0 count (lists pcp) z in
  Ret (z, set_lists ls pcp).

Definition free_unref_page_prepare (p : Z) (z : zone) : res (zone * bool) :=
  let* (z, ok) := free_pcp_prepare p z in
  if negb ok then Ret (z, false)
  else
    let* mt := get_pageblock_migratetype z p in
    let* z := set_pcppage_migratetype p mt z in
    Ret (z, true).

Definition free_unref_page_commit (p : Z) (pcp : per_cpu_pages) (z : zone) : res (zone * per_cpu_pages) :=
  let* pg := page_at z p in
  let mt := if (MIGRATE_PCPTYPES <=? index pg)%nat then MIGRATE_MOVABLE else index pg in
  let* l := pcp_list (lists pcp) mt in
  let pcp := set_count (s32 (count pcp + 1)) (set_lists (<[mt := p :: l]> (lists pcp)) pcp) in
  if high pcp <=? count pcp then
    let* (z, pcp') := free_pcppages_bulk (batch pcp) pcp z in
    Ret (z, set_count (s32 (count pcp' - batch pcp)) pcp')
  else Ret (z, pcp).

Definition free_unref_page (p : Z) (pcp : per_cpu_pages) (z : zone) : res (zone * per_cpu_pages) :=
  let* (z, ok) := free_unref_page_prepare p z in
  if negb ok then Ret (z, pcp) else free_unref_page_commit p pcp z.

Definition drain_pages_zone (pcp : per_cpu_pages) (z : zone) : res (zone * per_cpu_pages) :=
  if negb (count pcp =? 0) then
    let* (z, pcp) := free_pcppages_bulk (count pcp) pcp z in
    Ret (z, set_count 0 pcp)
  else Ret (z, pcp).

(** * Allocating and freeing *)

Definition ALLOC_OOM : Z := 0x08.
Definition ALLOC_HARDER : Z := 0x10.
Definition ALLOC_HIGH : Z := 0x20.

(** do { ... } while (page && check_new_pages(page, order)) *)
Fixpoint rmqueue_retry (fuel : nat) (order mt : nat) (alloc_flags : Z) (z : zone) : res (zone * option Z) :=
  match fuel with
  | O => OutOfFuel
  | S fuel' =>
      let* (z, r) :=
        if negb (Z.land alloc_flags ALLOC_HARDER =? 0) then __rmqueue_smallest order MIGRATE_HIGHATOMIC z else Ret (z, None) in
      let* (z, r) := match r with Some p => Ret (z, Some p) | None => __rmqueue order mt z end in
      match r with
      | None => Ret (z, None)
      | Some p =>
          let* (z, bad) := check_new_pages p order z in
          if bad : bool then rmqueue_retry fuel' order mt alloc_flags z else Ret (z, Some p)
      end
  end.
Definition rmqueue (order mt : nat) (alloc_flags : Z) (pcp : per_cpu_pages) (z : zone) : res (zone * per_cpu_pages * option Z) :=
  if (order =? 0)%nat then rmqueue_pcplist mt pcp z
  else
    let* (z, r) := rmqueue_retry (S (size (pages z))) order mt alloc_flags z in
    match r with
    | None => Ret (z, pcp, None)
    | Some p => Ret (__mod_zone_freepage_state (- Z.shiftl 1 (Z.of_nat order)) z, pcp, Some p)
    end.

Definition post_alloc_hook (p : Z) (z : zone) : res zone := update_page (fun pg => with_refcount 1 (with_private 0 pg)) p z.

Definition free_one_page (p : Z) (order mt : nat) (z : zone) : res zone := __free_one_page p order mt z.
Definition __free_pages_ok (p : Z) (order : nat) (z : zone) : res zone :=
  let* (z, ok) := free_pages_prepare p order true z in
  if negb ok then Ret z
  else
    let* mt := get_pageblock_migratetype z p in
    free_one_page p order mt z.

Definition put_page_testzero (p : Z) (z : zone) : res (zone * bool) :=
  let* pg := page_at z p in
  let* z := update_page (with_refcount (s32 (_refcount pg - 1))) p z in
  Ret (z, s32 (_refcount pg - 1) =? 0).
Definition __free_pages (p : Z) (order : nat) (pcp : per_cpu_pages) (z : zone) : res (zone * per_cpu_pages) :=
  let* (z, zero) := put_page_testzero p z in
  if zero : bool then
    if (order =? 0)%nat then free_unref_page p pcp z
    else let* z := __free_pages_ok p order z in Ret (z, pcp)
  else Ret (z, pcp).

(** for (i = 1; i < (1 << order); i++) set_page_refcounted(page + i) *)
Fixpoint split_loop (n : nat) (p : Z) (z : zone) : res zone :=
  match n with
  | O => Ret z
  | S n' => let* z := update_page (with_refcount 1) p z in split_loop n' (p + 1) z
  end.
Definition split_page (p : Z) (order : nat) (z : zone) : res zone := split_loop (2 ^ order - 1) (p + 1) z.

(** * Watermarks *)

(** if one of the lists [mts] is not empty *)
Fixpoint any_list (a : free_area_t) (mts : list nat) : res bool :=
  match mts with
  | [] => Ret false
  | mt :: mts' =>
      let* l := list_at a mt in
      match l with [] => any_list a mts' | _ :: _ => Ret true end
  end.
(** for (o = order; o < MAX_ORDER; o++), over [n] orders from [o] on *)
Fixpoint suitable_loop (n o : nat) (alloc_harder : bool) (z : zone) : res bool :=
  match n with
  | O => Ret false
  | S n' =>
      let* a := area_at z o in
      if nr_free a =? 0 then suitable_loop n' (S o) alloc_harder z
      else
        let* found := any_list a (seq 0 MIGRATE_PCPTYPES) in
        if found : bool then Ret true
        else if alloc_harder then
          let* l := list_at a MIGRATE_HIGHATOMIC in
          match l with [] => suitable_loop n' (S o) alloc_harder z | _ :: _ => Ret true end
        else suitable_loop n' (S o) alloc_harder z
  end.

Definition reserve_at (z : zone) (classzone_idx : nat) : res Z :=
  match lowmem_reserve z !! classzone_idx with Some r => Ret r | None => BUG end.

Definition __zone_watermark_ok (z : zone) (order : nat) (mark : Z) (classzone_idx : nat) (alloc_flags free_pages : Z) : res bool :=
  let min := s64 mark in
  let alloc_harder := negb (Z.land alloc_flags (Z.lor ALLOC_HARDER ALLOC_OOM) =? 0) in
  let free_pages := s64 (free_pages - (Z.shiftl 1 (Z.of_nat order) - 1)) in
  let min := if negb (Z.land alloc_flags ALLOC_HIGH =? 0) then min - Z.quot min 2 else min in
  let '(free_pages, min) :=
    if negb alloc_harder then (s64 (free_pages - nr_reserved_highatomic z), min)
    else (free_pages, if negb (Z.land alloc_flags ALLOC_OOM =? 0) then min - Z.quot min 2 else min - Z.quot min 4) in
  let* reserve := reserve_at z classzone_idx in
  if free_pages <=? s64 (min + reserve) then Ret false
  else if (order =? 0)%nat then Ret true
  else suitable_loop (MAX_ORDER - order) order alloc_harder z.

Definition zone_watermark_ok (z : zone) (order : nat) (mark : Z) (classzone_idx : nat) (alloc_flags : Z) : res bool :=
  __zone_watermark_ok z order mark classzone_idx alloc_flags (nr_free_pages z).
Definition zone_watermark_fast (z : zone) (order : nat) (mark : Z) (classzone_idx : nat) (alloc_flags : Z) : res bool :=
  let* reserve := reserve_at z classzone_idx in
  if (order =? 0)%nat && (w64 (mark + reserve) <? w64 (nr_free_pages z)) then Ret true
  else __zone_watermark_ok z order mark classzone_idx alloc_flags (nr_free_pages z).
