(* ===== verification/PageAllocFacts.v ===== *)
(** Steps of the page allocator: the checks of pages, and taking blocks out of the free
    memory, with the blocks that are lost because a page is in a bad state. *)

From stdpp Require Import gmap numbers list_numbers.
From S2P Require Import Prelude Buddy BuddyBlocks BuddyFacts BuddyOps BuddyFallback PageAlloc.

Section Pages.
Context (id : Z).
#[local] Notation mine := (mine id).
#[local] Notation free := (free id).
#[local] Notation inv := (inv id).
#[local] Notation taken := (taken id).
#[local] Notation spare_in z := (spare (mine z) (free z)).
#[local] Notation free_page z := (covers (free z)).

(** * Steps on pages that are not free *)

(** Only pages of [P] change, and the free blocks and the counters stay. *)
Record quiet (P : Z -> Prop) (z z' : zone) : Prop := {
  q_inv : inv z';
  q_span : same_span z z';
  q_free : forall q o, free z' q o <-> free z q o;
  q_areas : free_area z' = free_area z;
  q_count : nr_free_pages z' = nr_free_pages z;
  q_types : pageblocks z' = pageblocks z;
  q_reserve : lowmem_reserve z' = lowmem_reserve z;
  q_pages : forall x, ~ P x -> pages z' !! x = pages z !! x;
}.
Lemma quiet_refl P z : inv z -> quiet P z z.
Proof. done. Qed.
Lemma quiet_trans P z1 z2 z3 : quiet P z1 z2 -> quiet P z2 z3 -> quiet P z1 z3.
Proof.
  intros [A1 A2 A3 A4 A5 A6 A7 A8] [B1 B2 B3 B4 B5 B6 B7 B8]. split; try congruence; try done.
  - by eapply same_span_trans.
  - intros q o. by rewrite B3.
  - intros x Hx. by rewrite B8, A8.
Qed.
Lemma quiet_weaken (P Q : Z -> Prop) z z' : (forall x, P x -> Q x) -> quiet P z z' -> quiet Q z z'.
Proof. intros HPQ [A1 A2 A3 A4 A5 A6 A7 A8]. split; try done. intros x Hx. apply A8. naive_solver. Qed.
Lemma quiet_covers P z z' x : quiet P z z' -> free_page z' x <-> free_page z x.
Proof. intros [_ _ Hf _ _ _ _ _]. by apply covers_ext. Qed.
Lemma quiet_on_list P z z' q o m : quiet P z z' -> on_list z' q o m <-> on_list z q o m.
Proof. intros [_ _ _ Ha _ _ _ _]. unfold on_list. by rewrite Ha. Qed.

(** A page of the zone that is not free can be written. *)
Definition idle (z : zone) (x : Z) : Prop := mine z x /\ ~ free_page z x.
Lemma idle_not_buddy z x pg : idle z x -> pages z !! x = Some pg -> PageBuddy pg = false.
Proof.
  intros [(pg'&E'&Hi) Hn] E. replace pg' with pg in * by congruence. destruct (PageBuddy pg) eqn:Hb; [|done]. exfalso. apply Hn.
  exists x, (private pg). split; [by exists pg|apply inside_self].
Qed.
Lemma quiet_idle P z z' x : quiet P z z' -> idle z' x <-> idle z x.
Proof. intros Hq. unfold idle. rewrite (quiet_covers P z z' x Hq), (same_span_mine id z z' x (q_span _ _ _ Hq)). done. Qed.

Lemma update_page_ok f p z :
  inv z -> idle z p -> (forall pg, zone_id (f pg) = zone_id pg) -> (forall pg, PageBuddy pg = false -> PageBuddy (f pg) = false) ->
  exists z', update_page f p z = Ret z' /\ quiet (eq p) z z' /\ pages z' !! p = f <$> pages z !! p.
Proof.
  intros Hinv Hp Hid Hf. pose proof Hp as [(pg&Epg&Hi) Hn]. pose proof (idle_not_buddy z p pg Hp Epg) as Hnb.
  unfold update_page, page_at. rewrite Epg. cbn [res_bind]. eexists. split; [done|]. set (z' := set_pages z _).
  assert (Hs : same_span z z') by (by apply (insert_page_span z z' p pg (f pg))).
  assert (Hfr : forall q o, free z' q o <-> free z q o).
  { intros q o. unfold BuddyFacts.free. cbn. destruct (decide (q = p)) as [->|]; [|by rewrite lookup_insert_ne].
    rewrite lookup_insert_eq, Epg. specialize (Hf pg Hnb). naive_solver congruence. }
  split; [|cbn; by rewrite lookup_insert_eq]. split; try done.
  - by apply (inv_frame id z).
  - intros x Hx. cbn. by apply lookup_insert_ne.
Qed.

(** * Checks *)

(** In the state in which a page is handed out; the first page of a free block has the mark of
    the allocator. *)
Definition good (z : zone) (x : Z) : Prop :=
  exists pg, pages z !! x = Some pg /\ (_mapcount pg = -1 \/ PageBuddy pg = true) /\ mapping pg = 0 /\ w64 (_refcount pg) = 0
    /\ Z.land (flags pg) PAGE_FLAGS_CHECK_AT_PREP = 0.
Lemma good_kept z z' x : kept_pages z z' -> good z x -> good z' x.
Proof.
  intros Hk (pg&E&Hm&E1&E2&E3). destruct (Hk x pg E) as (pg'&E'&_&K1&K2&K3&_&K4). exists pg'. split_and!; try congruence.
  unfold PageBuddy in *. rewrite Z.eqb_eq in *. destruct K4 as [->|[->| ->]]; [done|by left|by right].
Qed.
Lemma good_expected z x pg :
  idle z x -> good z x -> pages z !! x = Some pg -> page_expected_state pg PAGE_FLAGS_CHECK_AT_PREP = true.
Proof.
  intros Hx (pg'&E'&Hm&E1&E2&E3) E. replace pg' with pg in * by congruence. pose proof (idle_not_buddy z x pg Hx E) as Hb.
  destruct Hm as [Hm|Hm]; [|congruence]. unfold page_expected_state. rewrite Hm, E1, E2, E3. done.
Qed.

(** The page is checked; one that fails is left without the mark of the allocator. *)
Lemma check_ok fl p z :
  inv z -> idle z p ->
  exists z' pg, (let* pg := page_at z p in
      if page_expected_state pg fl then Ret (z, false) else let* z := bad_page p z in Ret (z, true))
    = Ret (z', negb (page_expected_state pg fl)) /\ pages z !! p = Some pg
    /\ quiet (eq p) z z' /\ kept_pages z z' /\ (page_expected_state pg fl = true -> z' = z).
Proof.
  intros Hinv Hp. pose proof Hp as [(pg&Epg&Hi) Hn]. unfold page_at at 1. rewrite Epg. cbn [res_bind].
  destruct (page_expected_state pg fl) eqn:He.
  - exists z, pg. rewrite He. split_and!; try done. by apply sz_kept.
  - destruct (update_page_ok (with_mapcount (-1)) p z Hinv Hp) as (z'&E&Hq&Epp); [done|done|].
    exists z', pg. rewrite He. unfold bad_page. rewrite E. split_and!; try done.
    intros x pg0 E0. destruct (decide (p = x)) as [<-|Hne].
    + rewrite Epp, E0. eexists. split; [done|]. split_and!; try done. by right; left.
    + rewrite (q_pages _ _ _ Hq x Hne). exists pg0. split; [done|apply kept_refl].
Qed.

Definition range (p : Z) (n : nat) (x : Z) : Prop := p <= x < p + Z.of_nat n.
Lemma range_inside p o x : range p (2 ^ o) x <-> inside p o x.
Proof. unfold range, inside, size. rewrite Nat2Z.inj_pow. done. Qed.

Lemma check_new_loop_ok n : forall p z,
  inv z -> (forall x, range p n x -> idle z x) ->
  exists z' bad, check_new_loop n p z = Ret (z', bad) /\ quiet (range p n) z z' /\ kept_pages z z'
    /\ (bad = false -> z' = z) /\ ((forall x, range p n x -> good z x) -> bad = false).
Proof.
  induction n as [|n IH]; intros p z Hinv Hx; cbn [check_new_loop].
  - exists z, false. split_and!; try done. by apply sz_kept.
  - assert (Hp : idle z p) by (apply Hx; unfold range; lia).
    destruct (check_ok PAGE_FLAGS_CHECK_AT_PREP p z Hinv Hp) as (z1&pg&E&Epg&Hq&Hk&Hz). unfold check_new_page. rewrite E. cbn [res_bind].
    destruct (page_expected_state pg PAGE_FLAGS_CHECK_AT_PREP) eqn:He; cbn [negb].
    + rewrite (Hz eq_refl). destruct (IH (p + 1) z Hinv) as (z'&bad&E'&Hq'&Hk'&Hb&Hg).
      { intros x Hr. apply Hx. unfold range in *. lia. }
      exists z', bad. split_and!; try done.
      * eapply quiet_weaken; [|exact Hq']. intros x. unfold range. lia.
      * intros Hall. apply Hg. intros x Hr. apply Hall. unfold range in *. lia.
    + exists z1, true. split_and!; try done.
      * eapply quiet_weaken; [|exact Hq]. intros x <-. unfold range. lia.
      * intros Hall. specialize (Hall p ltac:(unfold range; lia)). by rewrite (good_expected z p pg Hp Hall Epg) in He.
Qed.

(** * Blocks taken out of the free memory *)

Lemma apart_disjoint p o q o' : (forall x, inside p o x -> ~ inside q o' x) -> apart p o q o'.
Proof.
  intros H. pose proof (size_pos o). pose proof (size_pos o'). pose proof (H p). pose proof (H q). unfold inside, apart in *. lia.
Qed.
Lemma spare_disjoint z p o x : spare_in z p o -> inside p o x -> ~ free_page z x.
Proof. intros Hs Hx (q&o'&Hq&Hx'). by apply (apart_outside p o q o' x (s_apart _ _ _ _ Hs q o' Hq) Hx). Qed.
Lemma spare_idle z p o x : spare_in z p o -> inside p o x -> idle z x.
Proof. intros Hs Hx. split; [by apply (s_mine _ _ _ _ Hs)|by eapply spare_disjoint]. Qed.
Lemma spare_of z p o : (o < MAX_ORDER)%nat -> aligned p o -> (forall x, inside p o x -> idle z x) -> spare_in z p o.
Proof.
  intros Ho Ha Hx. split; [done|done|intros x H; by apply Hx|]. intros q o' Hq. apply apart_disjoint. intros x H1 H2.
  destruct (Hx x H1) as [_ Hn]. apply Hn. by exists q, o'.
Qed.

(** The blocks [ps] of order [o] have been taken. *)
Record removed (z z' : zone) (o : nat) (ps : list Z) : Prop := {
  r_inv : inv z';
  r_span : same_span z z';
  r_kept : kept_pages z z';
  r_count : nr_free_pages z' = nr_free_pages z;
  r_reserve : lowmem_reserve z' = lowmem_reserve z;
  r_spare : forall p, p ∈ ps -> spare_in z' p o;
  r_nodup : NoDup ps;
  r_apart : forall p q, p ∈ ps -> q ∈ ps -> p <> q -> apart p o q o;
  r_touch : forall x, ~ free_page z x -> pages z' !! x = pages z !! x;
  r_pages : forall x, free_page z x <-> free_page z' x \/ exists p, p ∈ ps /\ inside p o x;
}.

Lemma removed_nil z o : inv z -> removed z z o [].
Proof.
  intros Hinv. destruct (same_zone_refl z) as [S1 S2 S3]. split; try done.
  - intros p Hp. by apply elem_of_nil in Hp.
  - apply NoDup_nil_2.
  - intros p q Hp. by apply elem_of_nil in Hp.
  - intros x. split; [by left|]. intros [?|(p&Hp&_)]; [done|by apply elem_of_nil in Hp].
Qed.
Lemma removed_taken z z' p o m : taken z z' p o m -> removed z z' o [p].
Proof.
  intros [T1 [S1 S2 S3] T3 T4 T5 T6 T7]. split; try done.
  - by intros q ->%list_elem_of_singleton.
  - apply NoDup_singleton.
  - by intros q q' ->%list_elem_of_singleton ->%list_elem_of_singleton.
  - intros x. rewrite <- T7. split; [intros [?|?]; [by left|right; exists p; split; [by left|done]]|].
    intros [?|(q&->%list_elem_of_singleton&?)]; [by left|by right].
Qed.
Lemma removed_trans z1 z2 z3 o ps qs : removed z1 z2 o ps -> removed z2 z3 o qs -> removed z1 z3 o (ps ++ qs).
Proof.
  intros [A1 A2 A3 A4 A5 A6 A7 A8 A9 A10] [B1 B2 B3 B4 B5 B6 B7 B8 B9 B10].
  assert (Hsub : forall x, free_page z3 x -> free_page z2 x) by (intros x Hx; apply B10; by left).
  assert (Hq : forall q x, q ∈ qs -> inside q o x -> free_page z2 x) by (intros q x Hq Hx; apply B10; right; by exists q).
  assert (Hdis : forall p q, p ∈ ps -> q ∈ qs -> apart p o q o).
  { intros p q Hp Hq'. apply apart_disjoint. intros x Hx1 Hx2. by apply (spare_disjoint z2 p o x (A6 p Hp) Hx1), (Hq q). }
  split; try congruence; try done.
  - by eapply same_span_trans.
  - by eapply kept_pages_trans.
  - intros p [Hp|Hp]%elem_of_app; [|by apply B6]. pose proof (A6 p Hp) as Hs. apply spare_of; [by apply Hs|by apply Hs|].
    intros x Hx. destruct (spare_idle z2 p o x Hs Hx) as [Hm Hn]. split; [by apply (same_span_mine id z2)|]. intros H. by apply Hn, Hsub.
  - apply NoDup_app. split_and!; [done| |done]. intros p Hp Hp'. pose proof (Hdis p p Hp Hp') as Ha. unfold apart in Ha. pose proof (size_pos o). lia.
  - intros p q [Hp|Hp]%elem_of_app [Hq'|Hq']%elem_of_app Hne; [by apply A8|by apply Hdis|apply apart_sym; by apply Hdis|by apply B8].
  - intros x Hx. rewrite B9, A9; [done|done|]. intros H. apply Hx, A10. by left.
  - intros x. rewrite A10, B10. setoid_rewrite elem_of_app. split; [|naive_solver].
    intros [[?|(p&?&?)]|(p&?&?)]; [by left|right; exists p; by auto|right; exists p; by auto].
Qed.
(** Pages that were free may be written once their block has been taken. *)
Lemma removed_quiet P z z1 z2 o ps :
  removed z z1 o ps -> quiet P z1 z2 -> kept_pages z1 z2 -> (forall x, P x -> free_page z x) -> removed z z2 o ps.
Proof.
  intros [A1 A2 A3 A4 A5 A6 A7 A8 A9 A10] Hq Hk HP. pose proof Hq as [B1 B2 B3 B4 B5 B6 B7 B8]. split; try congruence; try done.
  - by eapply same_span_trans.
  - by eapply kept_pages_trans.
  - intros p Hp. eapply spare_ext; [by apply A6| |]; [intros x; by apply (same_span_mine id z1)|intros; by apply B3].
  - intros x Hx. rewrite B8, A9; [done|done|]. intros H. by apply Hx, HP.
  - intros x. by rewrite A10, (quiet_covers P z1 z2 x Hq).
Qed.
Lemma removed_length z z' o ps : removed z z' o ps -> (length ps <= base.size (pages z))%nat.
Proof.
  intros [A1 A2 A3 A4 A5 A6 A7 A8 A9 A10]. apply nodup_bound; [done|]. intros p Hp. destruct A2 as (_&_&E&_).
  destruct (s_mine _ _ _ _ (A6 p Hp) p (inside_self p o)) as (pg&Epg&_). specialize (E p). rewrite Epg in E.
  destruct (pages z !! p); [done|]. done.
Qed.
Lemma removed_good z z' o ps x : removed z z' o ps -> good z x -> good z' x.
Proof. intros Hr. apply good_kept, Hr. Qed.
(** Pages outside of the free memory are left alone, and stay outside. *)
Lemma removed_idle z z' o ps x : removed z z' o ps -> idle z x -> idle z' x /\ pages z' !! x = pages z !! x.
Proof.
  intros [A1 A2 A3 A4 A5 A6 A7 A8 A9 A10] [Hm Hn]. split; [|by apply A9]. split; [by apply (same_span_mine id z)|].
  intros H. apply Hn, A10. by left.
Qed.

(** * The number of free pages *)

Definition head_pages (e : Z * page) : list Z :=
  if (zone_id e.2 =? id) && PageBuddy e.2 then seqZ e.1 (size (private e.2)) else [].
Definition free_set (z : zone) : gset Z := list_to_set (mjoin (head_pages <$> map_to_list (pages z))).
Lemma elem_of_free_set z x : x ∈ free_set z <-> free_page z x.
Proof.
  unfold free_set. rewrite elem_of_list_to_set, list_elem_of_join. setoid_rewrite list_elem_of_fmap. split.
  - intros (l&Hx&[p pg]&->&E%elem_of_map_to_list). unfold head_pages in Hx. cbn in Hx.
    destruct (zone_id pg =? id) eqn:E1, (PageBuddy pg) eqn:E2; cbn in Hx; try by apply elem_of_nil in Hx.
    apply elem_of_seqZ in Hx. apply Z.eqb_eq in E1. exists p, (private pg). split; [by exists pg|done].
  - intros (p&o&(pg&E&E1&E2&<-)&Hx). eexists. split; [|exists (p, pg); split; [done|by apply elem_of_map_to_list]].
    unfold head_pages. cbn. rewrite E2, (proj2 (Z.eqb_eq _ _) E1). cbn. by apply elem_of_seqZ.
Qed.
Definition nr_free_set (z : zone) : Z := Z.of_nat (base.size (free_set z)).
(** The counter [NR_FREE_PAGES] is right. *)
Definition counted (z : zone) : Prop := nr_free_pages z = nr_free_set z.

Lemma nr_free_set_bound z : inv z -> 0 <= nr_free_set z < 2147483648.
Proof.
  intros (Hz&_&Hb). split; [unfold nr_free_set; lia|]. eapply Z.le_lt_trans; [|apply (z_count _ _ Hz)].
  apply Nat2Z.inj_le. rewrite <- size_dom. apply subseteq_size. intros x Hx%elem_of_free_set. apply elem_of_dom.
  destruct Hx as (p&o&Hp&Hx). destruct (b_mine _ _ Hb p o x Hp Hx) as (pg&->&_). done.
Qed.
(** Adding pages that were not free. *)
Lemma nr_free_set_add z z' (l : list Z) :
  NoDup l -> (forall x, x ∈ l -> ~ free_page z x) -> (forall x, free_page z' x <-> free_page z x \/ x ∈ l) ->
  nr_free_set z' = nr_free_set z + Z.of_nat (length l).
Proof.
  intros Hnd Hno Hx. unfold nr_free_set. rewrite <- (size_list_to_set (C := gset Z) l), <- Nat2Z.inj_add by done.
  rewrite <- size_union.
  - do 2 f_equal. apply set_eq. intros x. by rewrite elem_of_union, !elem_of_free_set, elem_of_list_to_set.
  - intros x. rewrite elem_of_free_set, elem_of_list_to_set. intros H1 H2. by apply (Hno x).
Qed.
Lemma counted_mod z z' k :
  inv z' -> counted z -> nr_free_pages z' = s64 (nr_free_pages z + k) -> nr_free_set z' = nr_free_set z + k -> counted z'.
Proof.
  intros Hinv Hc E1 E2. unfold counted in *. rewrite E1, E2, Hc. pose proof (nr_free_set_bound z' Hinv) as Hb. rewrite E2 in Hb.
  rewrite s64_small; lia.
Qed.

(** The pages of blocks of one order. *)
Definition block_pages (o : nat) (ps : list Z) : list Z := mjoin ((fun p => seqZ p (size o)) <$> ps).
Lemma elem_of_block_pages o ps x : x ∈ block_pages o ps <-> exists p, p ∈ ps /\ inside p o x.
Proof.
  unfold block_pages. rewrite list_elem_of_join. setoid_rewrite list_elem_of_fmap. split.
  - intros (l&Hx&p&->&Hp). exists p. split; [done|]. by apply elem_of_seqZ in Hx.
  - intros (p&Hp&Hx). eexists. split; [|exists p; done]. by apply elem_of_seqZ.
Qed.
Lemma length_block_pages o ps : Z.of_nat (length (block_pages o ps)) = Z.of_nat (length ps) * size o.
Proof.
  unfold block_pages. pose proof (size_pos o). induction ps as [|p ps IH]; [done|]. rewrite fmap_cons, mjoin_cons, length_app, length_seqZ. cbn [length]. lia.
Qed.
Lemma NoDup_block_pages o ps :
  NoDup ps -> (forall p q, p ∈ ps -> q ∈ ps -> p <> q -> apart p o q o) -> NoDup (block_pages o ps).
Proof.
  induction ps as [|p ps IH]; intros Hnd Ha; [apply NoDup_nil_2|]. apply NoDup_cons in Hnd as [Hp Hnd].
  change (block_pages o (p :: ps)) with (seqZ p (size o) ++ block_pages o ps). apply NoDup_app. split_and!.
  - apply NoDup_seqZ.
  - intros x Hx%elem_of_seqZ (q&Hq&Hx')%elem_of_block_pages. apply (apart_outside p o q o x); [|done|done].
    apply Ha; [by left|by right|]. by intros ->.
  - apply IH; [done|]. intros q q' Hq Hq'. apply Ha; by right.
Qed.
Lemma removed_count z z' o ps : removed z z' o ps -> nr_free_set z = nr_free_set z' + Z.of_nat (length ps) * size o.
Proof.
  intros Hr. rewrite <- length_block_pages. apply nr_free_set_add.
  - apply NoDup_block_pages; apply Hr.
  - intros x (p&Hp&Hx)%elem_of_block_pages. by apply (spare_disjoint z' p o x (r_spare _ _ _ _ Hr p Hp)).
  - intros x. rewrite (r_pages _ _ _ _ Hr x). by rewrite elem_of_block_pages.
Qed.
(** Taking blocks and subtracting their pages from the counter keeps it right. *)
Lemma removed_counted z z' o ps :
  removed z z' o ps -> counted z -> counted (__mod_zone_freepage_state (- (Z.of_nat (length ps) * size o)) z').
Proof.
  intros Hr Hc. assert (Hi : inv (__mod_zone_freepage_state (- (Z.of_nat (length ps) * size o)) z')).
  { apply (inv_frame id z'); try done; [exact (same_span_refl z')|apply Hr]. }
  apply (counted_mod z _ (- (Z.of_nat (length ps) * size o)) Hi Hc).
  - cbn. by rewrite (r_count _ _ _ _ Hr).
  - change (nr_free_set (__mod_zone_freepage_state (- (Z.of_nat (length ps) * size o)) z')) with (nr_free_set z'). rewrite (removed_count z z' o ps Hr). lia.
Qed.

(** * Allocation of blocks *)

Definition all_good (z : zone) : Prop := forall x, free_page z x -> good z x.
Lemma removed_all_good z z' o ps : removed z z' o ps -> all_good z -> all_good z'.
Proof. intros Hr Hg x Hx. apply (removed_good z z' o ps x Hr), Hg, (r_pages _ _ _ _ Hr). by left. Qed.

(** No free block of the order or a larger one can be found. *)
Definition exhausted (z : zone) (order : nat) (harder : bool) : Prop :=
  forall o f q, (order <= o)%nat -> (f < MIGRATE_PCPTYPES)%nat \/ (harder = true /\ f = MIGRATE_HIGHATOMIC) -> ~ on_list z q o f.

Lemma rmqueue_attempt_ok order mt harder z :
  inv z -> (mt < MIGRATE_PCPTYPES)%nat ->
  exists z' r, (let* (z, r) := if harder : bool then __rmqueue_smallest order MIGRATE_HIGHATOMIC z else Ret (z, None) in
                match r with Some p => Ret (z, Some p) | None => __rmqueue order mt z end) = Ret (z', r)
    /\ match r with
       | Some p => exists m, taken z z' p order m
       | None => z' = z /\ exhausted z order harder
       end.
Proof.
  intros Hinv Hm. destruct harder.
  - destruct (rmqueue_smallest_ok id order MIGRATE_HIGHATOMIC z Hinv) as (z1&r&->&Hr); [unfold MIGRATE_HIGHATOMIC, MIGRATE_TYPES, MIGRATE_PCPTYPES; lia|].
    cbn [res_bind]. destruct r as [p|]; [exists z1, (Some p); by eauto|]. destruct Hr as [-> Hno].
    destruct (rmqueue_ok id order mt z Hinv Hm) as (z'&r&->&Hr'). exists z', r. split; [done|]. destruct r; [by eauto|].
    destruct Hr' as [-> Hno']. split; [done|]. intros o f q Ho [Hf|[_ ->]]; [by apply Hno'|by apply Hno].
  - cbn [res_bind]. destruct (rmqueue_ok id order mt z Hinv Hm) as (z'&r&->&Hr'). exists z', r. split; [done|]. destruct r; [by eauto|].
    destruct Hr' as [-> Hno']. split; [done|]. intros o f q Ho [Hf|[? _]]; [by apply Hno'|done].
Qed.

(** The loop of [rmqueue] ends: every round that does not return takes a block, and a block
    that is taken does not come back. *)
Lemma rmqueue_retry_ok order mt af z0 : (mt < MIGRATE_PCPTYPES)%nat -> forall fuel z leaked,
  removed z0 z order leaked -> (base.size (pages z0) < fuel + length leaked)%nat ->
  exists z' r more, rmqueue_retry fuel order mt af z = Ret (z', r)
    /\ removed z0 z' order (leaked ++ more)
    /\ match r with
       | Some p => exists bad, more = bad ++ [p] /\ (all_good z -> bad = [])
       | None => exhausted z' order (negb (Z.land af ALLOC_HARDER =? 0)) /\ (all_good z -> more = []) /\ (more = [] -> z' = z)
       end.
Proof.
  intros Hm. induction fuel as [|fuel IH]; intros z leaked Hr Hfuel; cbn [rmqueue_retry].
  - pose proof (removed_length _ _ _ _ Hr). lia.
  - destruct (rmqueue_attempt_ok order mt (negb (Z.land af ALLOC_HARDER =? 0)) z (r_inv _ _ _ _ Hr) Hm) as (z1&r&E&Hres).
    destruct (if negb _ then _ else _) as [[z' r']| |] in E |- *; cbn [res_bind] in E |- *; try done. rewrite E. clear E z' r'.
    cbn [res_bind]. destruct r as [p|].
    2: { destruct Hres as [-> Hex]. exists z, None, []. rewrite app_nil_r. done. }
    destruct Hres as [m Ht]. pose proof (removed_trans _ _ _ _ _ _ Hr (removed_taken _ _ _ _ _ Ht)) as Hr1.
    destruct (check_new_loop_ok (2 ^ order) p z1 (t_inv _ _ _ _ _ _ Ht)) as (z2&bad&E&Hq&Hk&Hb&Hg).
    { intros x Hx%range_inside. eapply spare_idle; [|exact Hx]. apply Ht. }
    unfold check_new_pages. rewrite E. cbn [res_bind].
    assert (Hr2 : removed z0 z2 order (leaked ++ [p])).
    { eapply removed_quiet; [exact Hr1|exact Hq|exact Hk|]. intros x Hx%range_inside. apply (r_pages _ _ _ _ Hr1). right.
      exists p. split; [|done]. apply elem_of_app. right. by left. }
    destruct bad.
    + destruct (IH z2 (leaked ++ [p]) Hr2) as (z'&r&more&E'&Hr'&Hres'); [rewrite length_app; cbn; lia|].
      exists z', r, (p :: more). split; [done|]. rewrite <- app_assoc in Hr'. split; [done|].
      assert (Hng : all_good z -> False).
      { intros Hall. enough (true = false) by done. apply Hg. intros x Hx%range_inside. eapply good_kept; [apply sz_kept, Ht|].
        apply Hall, (t_pages _ _ _ _ _ _ Ht). by right. }
      destruct r as [q|]; [|destruct Hres'; split_and!; [done|by intros ?%Hng|done]].
      destruct Hres' as (bad&->&_). exists (p :: bad). split; [done|]. by intros ?%Hng.
    + exists z2, (Some p), [p]. split; [done|]. split; [done|]. by exists [].
Qed.
End Pages.
