(* ===== verification/PageAllocPcp.v ===== *)
(** The per-CPU lists: refilling them, taking pages from them and draining them. *)

From stdpp Require Import gmap.
From S2P Require Import Prelude Buddy BuddyBlocks BuddyFacts BuddyOps BuddyFallback PageAlloc PageAllocFacts.

Section Pcp.
Context (id : Z).
#[local] Notation mine := (mine id).
#[local] Notation free := (free id).
#[local] Notation inv := (inv id).
#[local] Notation idle := (idle id).
#[local] Notation removed := (removed id).
#[local] Notation spare_in z := (spare (mine z) (free z)).
#[local] Notation free_page z := (covers (free z)).
#[local] Notation all_good := (all_good id).
#[local] Notation counted := (counted id).

(** * Refilling *)

Lemma removed_perm z z' o ps qs : ps ≡ₚ qs -> removed z z' o ps -> removed z z' o qs.
Proof.
  intros Hp [A1 A2 A3 A4 A5 A6 A7 A8 A9 A10]. split; try done.
  - intros p Hq. apply A6. by rewrite Hp.
  - by rewrite <- Hp.
  - intros p q Hq1 Hq2. apply A8; by rewrite Hp.
  - intros x. rewrite A10. by setoid_rewrite Hp.
Qed.

(** Up to [n] blocks are taken, fewer only when there are no more; those in a bad state are
    lost, the others go to the end of the list. *)
Lemma bulk_loop_ok order mt : (mt < MIGRATE_PCPTYPES)%nat -> forall n l i al z,
  inv z ->
  exists z' new lost, bulk_loop n order mt l i al z
      = Ret (z', l ++ new, i + Z.of_nat (length new + length lost), al + Z.of_nat (length new))
    /\ removed z z' order (new ++ lost) /\ (length new + length lost <= n)%nat
    /\ ((length new + length lost < n)%nat -> exhausted z' order false) /\ (all_good z -> lost = [])
    /\ forall p, p ∈ new -> exists pg, pages z' !! p = Some pg /\ index pg = mt.
Proof.
  intros Hm. induction n as [|n IH]; intros l i al z Hinv; cbn [bulk_loop].
  - exists z, [], []. rewrite app_nil_r, !Z.add_0_r. split_and!; try done; [by apply removed_nil|cbn; lia|].
    intros p Hp. by apply elem_of_nil in Hp.
  - destruct (rmqueue_ok id order mt z Hinv Hm) as (z1&r&->&Hr). cbn [res_bind]. destruct r as [p|].
    2: { destruct Hr as [-> Hno]. exists z, [], []. rewrite app_nil_r, !Z.add_0_r. split_and!; try done; [by apply removed_nil|cbn; lia| |].
         - intros _ o f q Ho [Hf|[? _]]; [by apply Hno|done].
         - intros p Hp. by apply elem_of_nil in Hp. }
    pose proof (s_mine _ _ _ _ (t_spare _ _ _ _ _ _ Hr)) as Hmine.
    assert (Hp : idle z1 p) by (apply (spare_idle id z1 p order); [apply Hr|apply inside_self]).
    destruct (check_ok id PAGE_FLAGS_CHECK_AT_PREP p z1 (t_inv _ _ _ _ _ _ Hr) Hp) as (z2&pg&E&Epg&Hq&Hk&Hz).
    unfold check_pcp_refill, check_new_page. rewrite E. cbn [res_bind]. clear E.
    assert (Hr2 : removed z z2 order [p]).
    { eapply removed_quiet; [by eapply removed_taken|exact Hq|exact Hk|]. intros x <-. apply (t_pages _ _ _ _ _ _ Hr). right. apply inside_self. }
    assert (Hgood : all_good z -> page_expected_state pg PAGE_FLAGS_CHECK_AT_PREP = true).
    { intros Hall. eapply (good_expected id z1 p pg Hp); [|done]. eapply good_kept; [apply sz_kept, Hr|]. apply Hall.
      apply (t_pages _ _ _ _ _ _ Hr). right. apply inside_self. }
    destruct (page_expected_state pg PAGE_FLAGS_CHECK_AT_PREP) eqn:He; cbn [negb].
    + rewrite (Hz eq_refl) in *. destruct (IH (l ++ [p]) (i + 1) (al + 1) z1 (t_inv _ _ _ _ _ _ Hr)) as (z'&new&lost&E&Hr'&Hn&Hex&Hg&Hidx).
      exists z', (p :: new), lost. rewrite E. cbn [length]. rewrite <- app_assoc. split; [do 2 f_equal; [f_equal|]; lia|].
      split; [exact (removed_trans id z z1 z' order [p] (new ++ lost) Hr2 Hr')|].
      split_and!; [lia|intros; apply Hex; lia|intros Hall; by apply Hg, (removed_all_good id z z1 order [p])|].
      intros q [->|Hq']%elem_of_cons; [|by apply Hidx].
      destruct (t_page _ _ _ _ _ _ Hr) as (pg'&Epg'&_&_&Hix). exists pg'. split; [|done].
      rewrite <- Epg'. apply (removed_idle id z1 z' order (new ++ lost) p Hr' Hp).
    + destruct (IH l (i + 1) al z2 (q_inv _ _ _ _ Hq)) as (z'&new&lost&E&Hr'&Hn&Hex&Hg&Hidx).
      exists z', new, (p :: lost). rewrite E. cbn [length]. split; [do 2 f_equal; f_equal; lia|].
      split; [apply (removed_perm _ _ _ ([p] ++ (new ++ lost))); [exact (Permutation_middle new lost p)|by apply (removed_trans id z z2)]|].
      split_and!; [lia|intros; apply Hex; lia|by intros ?%Hgood|done].
Qed.

(** * The pages on the lists *)

Definition cached (pcp : per_cpu_pages) (x : Z) : Prop := x ∈ mjoin (lists pcp).
(** Each page is on the lists once, is not free, and remembers a migrate type; [count] counts
    them, and a batch can be drained when the lists are full. *)
Record pcp_ok (z : zone) (pcp : per_cpu_pages) : Prop := {
  c_lists : length (lists pcp) = MIGRATE_PCPTYPES;
  c_nodup : NoDup (mjoin (lists pcp));
  c_count : count pcp = Z.of_nat (length (mjoin (lists pcp)));
  c_idle : forall p, cached pcp p -> idle z p;
  c_type : forall p pg, cached pcp p -> pages z !! p = Some pg -> (index pg < MIGRATE_TYPES)%nat;
  c_batch : 1 <= batch pcp <= Z.max 1 (high pcp);
  c_high : high pcp < 2147483648;
}.
(** Neither free nor on the lists: in use, or lost. *)
Definition outside (z : zone) (pcp : per_cpu_pages) (x : Z) : Prop := idle z x /\ ~ cached pcp x.

(** All pages that are free or cached can be handed out. *)
Definition healthy (z : zone) (pcp : per_cpu_pages) : Prop := forall x, free_page z x \/ cached pcp x -> good z x.

Lemma healthy_good z pcp : healthy z pcp -> all_good z.
Proof. intros Hh x Hx. apply Hh. by left. Qed.

Lemma pcp_list_ok z pcp mt : pcp_ok z pcp -> (mt < MIGRATE_PCPTYPES)%nat -> exists l, lists pcp !! mt = Some l /\ pcp_list (lists pcp) mt = Ret l.
Proof.
  intros Hok Hm. destruct (lookup_lt_is_Some_2 (lists pcp) mt) as [l E]; [by rewrite (c_lists _ _ Hok)|].
  exists l. split; [done|]. unfold pcp_list. by rewrite E.
Qed.
Lemma cached_bound z pcp : inv z -> pcp_ok z pcp -> Z.of_nat (length (mjoin (lists pcp))) < 2147483648.
Proof. intros (Hz&_) Hok. apply (mine_bound id z); [done|apply Hok|]. intros p Hp. by apply (c_idle _ _ Hok). Qed.

(** A zone in which the cached pages have not changed. *)
Lemma pcp_ok_frame z z' pcp :
  pcp_ok z pcp -> (forall x, cached pcp x -> idle z' x /\ pages z' !! x = pages z !! x) -> pcp_ok z' pcp.
Proof.
  intros [C1 C2 C3 C4 C5 C6 C7] H. split; try done; [intros p Hp; by apply H|].
  intros p pg Hp. rewrite (proj2 (H p Hp)). by apply C5.
Qed.

(** What an allocation does: block [p] of order [o] is handed out, and the blocks [lost] of the
    same order, in a bad state, are left outside. *)
Record allocated (z z' : zone) (pcp pcp' : per_cpu_pages) (o : nat) (p : option Z) (lost : list Z) : Prop := {
  al_inv : inv z';
  al_pcp : pcp_ok z' pcp';
  al_span : same_span z z';
  al_block : forall q, p = Some q -> (o < MAX_ORDER)%nat /\ aligned q o /\ forall x, inside q o x -> mine z x;
  al_new : forall q x, p = Some q \/ q ∈ lost -> inside q o x -> ~ outside z pcp x;
  al_out : forall x, mine z x ->
    outside z' pcp' x <-> outside z pcp x \/ (exists q, p = Some q /\ inside q o x) \/ exists q, q ∈ lost /\ inside q o x;
  al_apart : forall q q', p = Some q -> q' ∈ lost -> apart q o q' o;
  al_touch : forall x, outside z pcp x -> pages z' !! x = pages z !! x;
  al_kept : kept_pages z z';
}.

(** * Taking a page from the lists *)

Lemma inside_0 p x : inside p 0 x <-> x = p.
Proof. unfold inside. change (size 0) with 1. lia. Qed.

Lemma mod_freepage_quiet n z : inv z -> inv (__mod_zone_freepage_state n z).
Proof. intros Hinv. apply (inv_frame id z); try done. exact (same_span_refl z). Qed.
Lemma mod_freepage_idle n z x : idle (__mod_zone_freepage_state n z) x <-> idle z x.
Proof. done. Qed.

Lemma rmqueue_bulk_ok order cnt l mt z :
  inv z -> (mt < MIGRATE_PCPTYPES)%nat ->
  exists z' new lost, rmqueue_bulk order cnt l mt z
      = Ret (__mod_zone_freepage_state (- (Z.of_nat (length new + length lost) * size order)) z', l ++ new, Z.of_nat (length new))
    /\ removed z z' order (new ++ lost) /\ (all_good z -> lost = [])
    /\ ((length new + length lost < Z.to_nat cnt)%nat -> exhausted z' order false)
    /\ forall p, p ∈ new -> exists pg, pages z' !! p = Some pg /\ index pg = mt.
Proof.
  intros Hinv Hm. destruct (bulk_loop_ok order mt Hm (Z.to_nat cnt) l 0 0 z Hinv) as (z'&new&lost&E&Hr&Hn&Hex&Hg&Hi).
  exists z', new, lost. unfold rmqueue_bulk. rewrite E. cbn [res_bind]. rewrite !Z.add_0_l, Z.shiftl_mul_pow2 by lia. done.
Qed.

(** The pages [given] of a refill are handed out, the pages [rest] are cached. *)
Lemma refilled z z1 pcp pcp1 new lost given rest :
  inv z -> pcp_ok z pcp -> removed z z1 0 (new ++ lost) -> new ≡ₚ given ++ rest -> mjoin (lists pcp1) ≡ₚ rest ++ mjoin (lists pcp) ->
  (forall x, mine z x -> outside z1 pcp1 x <-> outside z pcp x \/ x ∈ given \/ x ∈ lost)
  /\ (forall x, x ∈ given \/ x ∈ lost -> ~ outside z pcp x) /\ NoDup (mjoin (lists pcp1))
  /\ (forall x, cached pcp1 x -> idle z1 x) /\ (forall x y, x ∈ given -> y ∈ lost -> x <> y).
Proof.
  intros Hinv Hok Hr Hnew Hj. pose proof (r_nodup _ _ _ _ _ Hr) as Hnd. rewrite Hnew in Hnd.
  apply NoDup_app in Hnd as (Hnd1&Hd1&_). apply NoDup_app in Hnd1 as (_&Hd2&Hnd2).
  assert (Hfree : forall x, free_page z x <-> free_page z1 x \/ x ∈ given \/ x ∈ rest \/ x ∈ lost).
  { intros x. rewrite (r_pages _ _ _ _ _ Hr x). setoid_rewrite inside_0. setoid_rewrite elem_of_app. setoid_rewrite Hnew.
    setoid_rewrite elem_of_app. naive_solver. }
  assert (Hsp : forall x, x ∈ given \/ x ∈ rest \/ x ∈ lost -> ~ free_page z1 x).
  { intros x Hx. apply (spare_disjoint id z1 x 0); [|by apply inside_0]. apply (r_spare _ _ _ _ _ Hr). rewrite elem_of_app, Hnew, elem_of_app. naive_solver. }
  assert (Hpcp : forall x, cached pcp x -> ~ free_page z x) by (intros x Hx; by apply (c_idle _ _ Hok)).
  assert (Hmine : forall x, mine z1 x <-> mine z x) by (intros x; by apply same_span_mine, Hr).
  assert (Hc1 : forall x, cached pcp1 x <-> x ∈ rest \/ cached pcp x) by (intros x; unfold cached; by rewrite Hj, elem_of_app).
  split_and!.
  - intros x Hx. unfold outside, PageAllocFacts.idle. rewrite Hc1, Hmine, (Hfree x). specialize (Hsp x). specialize (Hpcp x).
    rewrite Hfree in Hpcp. specialize (Hd1 x). rewrite elem_of_app in Hd1. specialize (Hd2 x).
    destruct (decide (x ∈ given)), (decide (x ∈ lost)); tauto.
  - intros x Hx [[_ Hn] _]. apply Hn, Hfree. tauto.
  - rewrite Hj. apply NoDup_app. split_and!; [done| |apply Hok]. intros x Hx Hx'. apply (Hpcp x Hx'), Hfree. tauto.
  - intros x [Hx|Hx]%Hc1.
    + split; [|apply Hsp; tauto]. apply Hmine. destruct (r_spare _ _ _ _ _ Hr x) as [_ _ Hs _].
      * rewrite elem_of_app, Hnew, elem_of_app. tauto.
      * apply Hmine, Hs, inside_self.
    + pose proof (c_idle _ _ Hok x Hx) as [Hm Hn]. split; [by apply Hmine|]. rewrite Hfree in Hn. tauto.
  - intros x y Hx Hy ->. apply (Hd1 y); [apply elem_of_app; by left|done].
Qed.

Lemma pcp_pop (ls : list (list Z)) mt p l : ls !! mt = Some (p :: l) -> mjoin ls ≡ₚ p :: mjoin (<[mt := l]> ls).
Proof.
  intros E. rewrite <- (mjoin_insert (<[mt := l]> ls) mt l (p :: l) p); [|by apply list_lookup_insert_eq; eapply lookup_lt_Some|done].
  rewrite list_insert_insert_eq. by rewrite list_insert_id.
Qed.
Lemma mine_pos z p : inv z -> mine z p -> aligned p 0.
Proof. intros (Hz&_) Hp. split; [by eapply mine_range_pos|]. by exists p; change (size 0) with 1; lia. Qed.

Lemma allocated_mod z z1 k pcp pcp1 o r lost :
  allocated z z1 pcp pcp1 o r lost -> allocated z (__mod_zone_freepage_state k z1) pcp pcp1 o r lost.
Proof.
  intros [A1 A2 A3 A4 A5 A6 A7 A8 A9]. split; try done; [by apply mod_freepage_quiet|].
  apply (pcp_ok_frame z1); [done|]. intros x Hx. split; [by apply (c_idle _ _ A2)|done].
Qed.

(** Without a refill the first page of the list is handed out. *)
Lemma allocated_pop z pcp pcp1 p l mt :
  inv z -> pcp_ok z pcp -> lists pcp !! mt = Some (p :: l) -> lists pcp1 = <[mt := l]> (lists pcp) ->
  count pcp1 = count pcp - 1 -> high pcp1 = high pcp -> batch pcp1 = batch pcp -> allocated z z pcp pcp1 0 (Some p) [].
Proof.
  intros Hinv Hok El E1 E2 E3 E4. pose proof (pcp_pop _ mt p l El) as Hj. rewrite <- E1 in Hj. pose proof Hok as [C1 C2 C3 C4 C5 C6 C7].
  assert (Hc : forall x, cached pcp x <-> x = p \/ cached pcp1 x) by (intros x; unfold cached; by rewrite Hj, elem_of_cons).
  assert (Hnd : p ∉ mjoin (lists pcp1) /\ NoDup (mjoin (lists pcp1))) by (rewrite Hj in C2; by apply NoDup_cons in C2).
  split; try done.
  - split; [by rewrite E1, length_insert|apply Hnd| |intros x Hx; apply C4, Hc; by right|intros x pg Hx; apply C5, Hc; by right|by rewrite E3, E4|by rewrite E3].
    rewrite E2, C3, Hj. cbn [length]. lia.
  - assert (Hp : mine z p) by (apply C4, Hc; by left). intros q [= <-]. split_and!; [unfold MAX_ORDER; lia|apply (mine_pos z p Hinv), Hp|].
    by intros x ->%inside_0.
  - intros q x [[= <-]|Hq] Hx; [|by apply elem_of_nil in Hq]. apply inside_0 in Hx as ->. intros [_ Hn]. apply Hn, Hc. by left.
  - intros x Hx. unfold outside. rewrite (Hc x). setoid_rewrite elem_of_nil. pose proof (C4 x) as Hi. rewrite (Hc x) in Hi. split.
    + intros [Hi1 Hn]. destruct (decide (x = p)) as [->|]; [right; left; exists p; split; [done|by apply inside_0]|left; tauto].
    + intros [?|[(q&[= <-]&->%inside_0)|(q&[]&_)]]; [tauto|]. split; [tauto|apply Hnd].
  - intros q q' _ Hq. by apply elem_of_nil in Hq.
  - apply sz_kept, same_zone_refl.
Qed.

(** After a refill. *)
Lemma allocated_refill z z1 pcp pcp1 new lost given rest r mt :
  inv z -> pcp_ok z pcp -> removed z z1 0 (new ++ lost) -> new ≡ₚ given ++ rest -> mjoin (lists pcp1) ≡ₚ rest ++ mjoin (lists pcp) ->
  given = match r with Some p => [p] | None => [] end -> (forall p, p ∈ new -> exists pg, pages z1 !! p = Some pg /\ index pg = mt) ->
  (mt < MIGRATE_PCPTYPES)%nat -> length (lists pcp1) = MIGRATE_PCPTYPES -> count pcp1 = count pcp + Z.of_nat (length rest) ->
  high pcp1 = high pcp -> batch pcp1 = batch pcp ->
  allocated z z1 pcp pcp1 0 r lost.
Proof.
  intros Hinv Hok Hr Hnew Hj Hgiven Hidx Hm El Ec Eh Eb.
  destruct (refilled z z1 pcp pcp1 new lost given rest Hinv Hok Hr Hnew Hj) as (Hout&Hno&Hnd&Hidle&Hne).
  assert (Hgv : forall q, r = Some q <-> q ∈ given).
  { intros q. subst given. destruct r; [rewrite list_elem_of_singleton; naive_solver|]. split; [done|]. intros H. by apply elem_of_nil in H. }
  split.
  - apply Hr.
  - split; [done|done| |done| |rewrite Eh, Eb; apply Hok|rewrite Eh; apply Hok].
    + rewrite Ec, (c_count _ _ Hok), Hj, length_app. lia.
    + intros p pg Hp Epg. unfold cached in Hp. rewrite Hj, elem_of_app in Hp. destruct Hp as [Hp|Hp].
      * destruct (Hidx p) as (pg'&E'&Hi); [rewrite Hnew, elem_of_app; by right|]. cbn in Epg. simplify_eq. unfold MIGRATE_PCPTYPES, MIGRATE_TYPES in *. lia.
      * apply (c_type _ _ Hok p); [done|]. rewrite <- Epg. symmetry. apply (r_touch _ _ _ _ _ Hr). by apply (c_idle _ _ Hok).
  - apply (r_span _ _ _ _ _ Hr).
  - intros q Hq. apply Hgv in Hq. assert (Hs : spare_in z1 q 0) by (apply (r_spare _ _ _ _ _ Hr); rewrite elem_of_app, Hnew, elem_of_app; tauto).
    split_and!; [apply Hs|apply Hs|]. intros x Hx. apply (same_span_mine id z z1 x (r_span _ _ _ _ _ Hr)). by apply Hs.
  - intros q x Hq ->%inside_0. apply Hno. rewrite <- Hgv. done.
  - intros x Hx. setoid_rewrite inside_0. setoid_rewrite Hgv. etransitivity; [exact (Hout x Hx)|]. naive_solver.
  - intros q q' Hq Hq'. apply Hgv in Hq. apply apart_disjoint. intros x ->%inside_0 ->%inside_0. by apply (Hne q' q').
  - intros x [[_ Hn] _]. by apply (r_touch _ _ _ _ _ Hr).
  - apply (r_kept _ _ _ _ _ Hr).
Qed.

Lemma rmqueue_pcplist_ok mt pcp z :
  inv z -> pcp_ok z pcp -> (mt < MIGRATE_PCPTYPES)%nat ->
  exists z' pcp' r lost, rmqueue_pcplist mt pcp z = Ret (z', pcp', r) /\ allocated z z' pcp pcp' 0 r lost
    /\ (counted z -> counted z') /\ (healthy z pcp -> lost = [] /\ healthy z' pcp') /\ (r = None -> lost = [] -> exhausted z' 0 false).
Proof.
  intros Hinv Hok Hm. destruct (pcp_list_ok z pcp mt Hok Hm) as (l&El&Epl). unfold rmqueue_pcplist, __rmqueue_pcplist.
  rewrite Epl. cbn [res_bind]. pose proof (cached_bound z pcp Hinv Hok) as Hbound. pose proof (c_count _ _ Hok) as Hcount.
  destruct l as [|p l].
  - destruct (rmqueue_bulk_ok 0 (w64 (batch pcp)) [] mt z Hinv Hm) as (z1&new&lost&E&Hr&Hg&Hex&Hidx). rewrite E. cbn [res_bind app].
    assert (Hcnt : counted z -> counted (__mod_zone_freepage_state (- (Z.of_nat (length new + length lost) * size 0)) z1)).
    { intros Hc. rewrite <- length_app. by apply (removed_counted id z). }
    assert (Hgood : forall pcp1, (forall x, cached pcp1 x -> x ∈ new \/ cached pcp x) -> healthy z pcp ->
              lost = [] /\ healthy (__mod_zone_freepage_state (- (Z.of_nat (length new + length lost) * size 0)) z1) pcp1).
    { intros pcp1 Hsub Hh. split; [by apply Hg, (healthy_good z pcp)|]. intros x Hx. apply (removed_good id z z1 0 _ x Hr), Hh.
      rewrite (r_pages _ _ _ _ _ Hr x). destruct Hx as [Hx|[Hx|Hx]%Hsub]; [by left; left| |by right].
      left. right. exists x. split; [apply elem_of_app; by left|apply inside_self]. }
    assert (Hlen : Z.of_nat (length new) + Z.of_nat (length (mjoin (lists pcp))) < 2147483648).
    { set (pcp2 := set_lists (<[mt := new]> (lists pcp)) pcp).
      assert (Hj : mjoin (lists pcp2) ≡ₚ new ++ mjoin (lists pcp)) by (apply (mjoin_insert_app _ mt []); [done|by rewrite app_nil_r]).
      destruct (refilled z z1 pcp pcp2 new lost [] new Hinv Hok Hr (Permutation_refl _) Hj) as (_&_&Hnd&Hidle&_).
      pose proof (mine_bound id z1 _ (proj1 (r_inv _ _ _ _ _ Hr)) Hnd (fun x Hx => proj1 (Hidle x Hx))) as Hb.
      rewrite Hj, length_app in Hb. lia. }
    destruct new as [|p new].
    + eexists _, _, None, lost. split; [done|]. split; [|split_and!; [exact Hcnt|apply Hgood; by right|]].
      * apply allocated_mod, (allocated_refill z z1 pcp _ [] lost [] [] None mt); try done; [apply Hok|]. cbn in *. rewrite s32_small; lia.
      * intros _ ->. apply Hex. pose proof (c_batch _ _ Hok). pose proof (c_high _ _ Hok). rewrite w64_small by (unfold two64; lia). cbn. lia.
    + eexists _, _, (Some p), lost. split; [done|]. split; [|split_and!; [exact Hcnt| |done]].
      2: { apply Hgood. intros x Hx. unfold cached in *. cbn in Hx. rewrite (mjoin_insert_app _ mt [] new new El) in Hx by (by rewrite app_nil_r).
           apply elem_of_app in Hx as [Hx|Hx]; [left; by right|by right]. }
      apply allocated_mod, (allocated_refill z z1 pcp _ (p :: new) lost [p] new (Some p) mt); try done.
      * cbn. apply (mjoin_insert_app _ mt []); [done|by rewrite app_nil_r].
      * cbn. rewrite length_insert. apply Hok.
      * cbn [count set_lists set_count length] in *. rewrite (s32_small (count pcp + _)) by lia. rewrite s32_small; lia.
  - cbn [res_bind]. eexists _, _, (Some p), []. split; [done|]. split; [|split_and!; [done| |done]].
    2: { intros Hh. split; [done|]. intros x [Hx|Hx]; apply Hh; [by left|right]. unfold cached in *. cbn in Hx.
         rewrite (pcp_pop _ mt p l El). by right. }
    apply (allocated_pop z pcp _ p l mt); try done. cbn. apply s32_small. rewrite (pcp_pop _ mt p l El) in Hcount, Hbound.
    cbn [length] in *. lia.
Qed.

(** * [rmqueue] *)

Lemma allocated_removed z z1 pcp o ps r lost :
  inv z -> pcp_ok z pcp -> removed z z1 o ps -> ps ≡ₚ match r with Some p => [p] | None => [] end ++ lost ->
  allocated z z1 pcp pcp o r lost.
Proof.
  intros Hinv Hok Hr Hps. pose proof (removed_perm _ _ _ _ _ Hps Hr) as Hr'. clear ps Hps Hr. rename Hr' into Hr.
  assert (Hin : forall q, q ∈ match r with Some p => [p] | None => [] end ++ lost <-> r = Some q \/ q ∈ lost).
  { intros q. rewrite elem_of_app. destruct r; [rewrite list_elem_of_singleton; naive_solver|]. rewrite elem_of_nil. naive_solver. }
  assert (Hmine : forall x, mine z1 x <-> mine z x) by (intros x; by apply same_span_mine, Hr).
  split.
  - apply Hr.
  - apply (pcp_ok_frame z); [done|]. intros x Hx. apply (removed_idle id z z1 o _ x Hr), (c_idle _ _ Hok x Hx).
  - apply (r_span _ _ _ _ _ Hr).
  - intros q Hq. assert (Hs : spare_in z1 q o) by (apply (r_spare _ _ _ _ _ Hr), Hin; by left).
    split_and!; [apply Hs|apply Hs|]. intros x Hx. apply Hmine. by apply Hs.
  - intros q x Hq Hx [[_ Hn] _]. apply Hn, (r_pages _ _ _ _ _ Hr). right. exists q. split; [by apply Hin|done].
  - intros x Hx. transitivity (outside z pcp x \/ exists q, (r = Some q \/ q ∈ lost) /\ inside q o x); [|naive_solver].
    unfold outside, PageAllocFacts.idle. rewrite Hmine, (r_pages _ _ _ _ _ Hr x).
    setoid_rewrite Hin. split.
    + intros [[_ Hn] Hc]. destruct (decide (Exists (fun q => inside q o x) (match r with Some p => [p] | None => [] end ++ lost))) as [He|He].
      * apply Exists_exists in He as (q&Hq&Hx'). right. exists q. split; [by apply Hin|done].
      * left. split; [|done]. split; [done|]. intros [?|(q&Hq&Hx')]; [done|]. apply He, Exists_exists. exists q. split; [by apply Hin|done].
    + intros [H|(q&Hq&Hin')]; [tauto|]. assert (Hs : spare_in z1 q o) by (by apply (r_spare _ _ _ _ _ Hr), Hin).
      split; [split; [done|by eapply spare_disjoint]|]. intros Hc. apply (c_idle _ _ Hok x Hc), (r_pages _ _ _ _ _ Hr).
      right. exists q. split; [by apply Hin|done].
  - intros q q' Hq Hq'. apply (r_apart _ _ _ _ _ Hr); [by apply Hin; left|by apply Hin; right|]. intros ->.
    pose proof (r_nodup _ _ _ _ _ Hr) as Hnd. rewrite Hq in Hnd. apply NoDup_app in Hnd as (_&Hd&_). apply (Hd q'); [by left|done].
  - intros x [[_ Hn] _]. by apply (r_touch _ _ _ _ _ Hr).
  - apply (r_kept _ _ _ _ _ Hr).
Qed.

Lemma rmqueue_alloc_ok order mt af pcp z :
  inv z -> pcp_ok z pcp -> (mt < MIGRATE_PCPTYPES)%nat ->
  exists z' pcp' r lost, rmqueue order mt af pcp z = Ret (z', pcp', r) /\ allocated z z' pcp pcp' order r lost
    /\ (order = 0%nat \/ lost = [] -> counted z -> counted z') /\ (healthy z pcp -> lost = [] /\ healthy z' pcp') /\ (r = None -> lost = [] \/ (0 < order)%nat -> exhausted z' order ((0 <? order)%nat && negb (Z.land af ALLOC_HARDER =? 0)))
    /\ (r = None -> lost = [] -> (0 < order)%nat -> z' = z).
Proof.
  intros Hinv Hok Hm. unfold rmqueue. destruct (Nat.eqb_spec order 0) as [->|Ho].
  { destruct (rmqueue_pcplist_ok mt pcp z Hinv Hok Hm) as (z'&pcp'&r&lost&E&Ha&Hc&Hg&Hex).
    exists z', pcp', r, lost. split_and!; try done; [|lia]. intros Er [El|?]; [by apply Hex|lia]. }
  destruct (rmqueue_retry_ok id order mt af z Hm (S (base.size (pages z))) z [] (removed_nil id z order Hinv)) as (z1&r&more&->&Hr&Hres); [cbn; lia|].
  cbn [res_bind app] in *.
  assert (Hgood : healthy z pcp -> healthy z1 pcp).
  { intros Hh x Hx. apply (removed_good id z z1 order _ x Hr), Hh. rewrite (r_pages _ _ _ _ _ Hr x). tauto. }
  destruct r as [p|].
  - destruct Hres as (bad&->&Hg). eexists _, _, (Some p), bad. split; [by rewrite size_shiftl|]. split_and!; [| | |done|done].
    + apply allocated_mod, (allocated_removed z z1 pcp order (bad ++ [p])); try done. apply Permutation_app_comm.
    + intros [?| ->] Hc; [done|]. pose proof (removed_counted id z z1 order [p] Hr Hc) as H. cbn [length] in H. by rewrite Z.mul_1_l in H.
    + intros Hh. split; [by apply Hg, (healthy_good z pcp)|]. by apply Hgood.
  - destruct Hres as (Hex&Hg&Hsame). exists z1, pcp, None, more. split; [done|]. split_and!.
    + by apply (allocated_removed z z1 pcp order more).
    + intros [?| ->] Hc; [done|]. pose proof (removed_count id z z1 order [] Hr) as H. unfold PageAllocFacts.counted in *.
      rewrite (r_count _ _ _ _ _ Hr), Hc, H. cbn [length]. lia.
    + intros Hh. split; [by apply Hg, (healthy_good z pcp)|]. by apply Hgood.
    + intros _ _. replace (0 <? order)%nat with true; [done|]. symmetry. apply Nat.ltb_lt. lia.
    + auto.
Qed.
End Pcp.
