(* ===== verification/PageAllocFree.v ===== *)
(** Freeing: draining the per-CPU lists and [__free_pages], with the count of free pages. *)

From stdpp Require Import gmap numbers list_numbers.
From S2P Require Import Prelude Buddy BuddyBlocks BuddyFacts BuddyOps BuddyFallback PageAlloc PageAllocFacts PageAllocPcp.

Section Free.
Context (id : Z).
#[local] Notation mine := (mine id).
#[local] Notation free := (free id).
#[local] Notation inv := (inv id).
#[local] Notation idle := (idle id).
#[local] Notation removed := (removed id).
#[local] Notation quiet := (quiet id).
#[local] Notation pcp_ok := (pcp_ok id).
#[local] Notation outside := (outside id).
#[local] Notation counted := (counted id).
#[local] Notation spare_in z := (spare (mine z) (free z)).
#[local] Notation free_page z := (covers (free z)).

(** * Draining a list *)

Lemma pcp_pop_perm (ls : list (list Z)) mt l0 p l : ls !! mt = Some l0 -> l0 ≡ₚ p :: l -> mjoin ls ≡ₚ p :: mjoin (<[mt := l]> ls).
Proof.
  intros E Hp. rewrite <- (mjoin_insert (<[mt := l]> ls) mt l l0 p); [|by apply list_lookup_insert_eq; eapply lookup_lt_Some|done].
  rewrite list_insert_insert_eq. by rewrite list_insert_id.
Qed.

(** The lists can be drained. *)
Record lists_idle (z : zone) (ls : list (list Z)) : Prop := {
  i_len : length ls = MIGRATE_PCPTYPES;
  i_nodup : NoDup (mjoin ls);
  i_idle : forall p, p ∈ mjoin ls -> idle z p;
  i_type : forall p pg, p ∈ mjoin ls -> pages z !! p = Some pg -> (index pg < MIGRATE_TYPES)%nat;
}.
Definition clean (z : zone) (p : Z) : Prop :=
  exists pg, pages z !! p = Some pg /\ page_expected_state pg PAGE_FLAGS_CHECK_AT_FREE = true.

(** The pages [back] have become free, the pages [lost] were in a bad state. *)
Record drained (z z' : zone) (ls ls' : list (list Z)) (back lost : list Z) : Prop := {
  d_inv : inv z';
  d_span : same_span z z';
  d_lists : mjoin ls ≡ₚ (back ++ lost) ++ mjoin ls';
  d_len : length ls' = length ls;
  d_pages : forall x, free_page z' x <-> free_page z x \/ x ∈ back;
  d_counted : counted z -> counted z';
  d_touch : forall x, idle z x -> x ∉ back ++ lost -> pages z' !! x = pages z !! x;
  d_kept : kept_pages z z';
  d_lost : (forall p, p ∈ mjoin ls -> clean z p) -> lost = [];
}.
Lemma drained_nil z ls : inv z -> drained z z ls ls [] [].
Proof. intros Hinv. split; try done; [intros x; rewrite elem_of_nil; tauto|]. apply sz_kept, same_zone_refl. Qed.
Lemma drained_idle z z' ls ls' back lost : lists_idle z ls -> drained z z' ls ls' back lost -> lists_idle z' ls'.
Proof.
  intros [L1 L2 L3 L4] [D1 D2 D3 D4 D5 D6 D7 _ D8]. rewrite D3 in L2. apply NoDup_app in L2 as (L2&L2'&L2'').
  assert (Hin : forall p, p ∈ mjoin ls' -> p ∈ mjoin ls) by (intros p Hp; rewrite D3; apply elem_of_app; by right).
  assert (Hout : forall p, p ∈ mjoin ls' -> p ∉ back ++ lost) by (intros p Hp Hp'; by apply (L2' p)).
  split; [congruence|done| |].
  - intros p Hp. destruct (L3 p (Hin p Hp)) as [Hm Hn]. split; [by apply (same_span_mine id z)|]. rewrite D5. intros [?|?]; [done|].
    apply (Hout p Hp). apply elem_of_app. by left.
  - intros p pg Hp. rewrite D7; [|by apply L3, Hin|by apply Hout]. apply L4. by apply Hin.
Qed.
Lemma drained_trans z1 z2 z3 ls1 ls2 ls3 back1 back2 lost1 lost2 :
  lists_idle z1 ls1 -> drained z1 z2 ls1 ls2 back1 lost1 -> drained z2 z3 ls2 ls3 back2 lost2 ->
  drained z1 z3 ls1 ls3 (back1 ++ back2) (lost1 ++ lost2).
Proof.
  intros HL H1 H2. pose proof (drained_idle _ _ _ _ _ _ HL H1) as HL2.
  destruct H1 as [A1 A2 A3 A4 A5 A6 A7 AK A8]. destruct H2 as [B1 B2 B3 B4 B5 B6 B7 BK B8].
  pose proof (i_nodup _ _ HL) as Hnd. rewrite A3, NoDup_app in Hnd. destruct Hnd as (_&Hd&_).
  split; try done.
  - by eapply same_span_trans.
  - rewrite A3, B3. rewrite <- !app_assoc. f_equiv. rewrite !app_assoc. f_equiv. f_equiv. apply Permutation_app_comm.
  - congruence.
  - intros x. rewrite B5, A5, elem_of_app. tauto.
  - intros x. auto.
  - intros x Hx Hn. rewrite !elem_of_app in Hn. rewrite B7, A7; [done|done|rewrite elem_of_app; tauto| |rewrite elem_of_app; tauto].
    destruct Hx as [Hm Hf]. split; [by apply (same_span_mine id z1)|]. rewrite A5. tauto.
  - by eapply kept_pages_trans.
  - intros Hc. rewrite (A8 Hc), B8; [done|]. intros p Hp.
    assert (Hp1 : p ∈ mjoin ls1) by (rewrite A3; apply elem_of_app; by right).
    destruct (Hc p Hp1) as (pg&E&He). exists pg. split; [|done]. rewrite A7; [done|by apply (i_idle _ _ HL)|].
    intros H. by apply (Hd p H).
Qed.

(** One page: it is taken off its list, checked and freed. *)
Lemma drain_page_ok z ls mt l p :
  inv z -> lists_idle z ls -> ls !! mt = Some (l ++ [p]) ->
  exists pg z', page_at z p = Ret pg /\
    (let* (z, bad) := bulkfree_pcp_prepare p z in if bad : bool then Ret z else __free_one_page p 0 (index pg) z) = Ret z'
    /\ exists back lost, drained z z' ls (<[mt := l]> ls) back lost /\ length (back ++ lost) = 1%nat.
Proof.
  intros Hinv HL El. assert (Hj := pcp_pop_perm ls mt _ p l El (symmetry (Permutation_cons_append l p))).
  assert (Hp : p ∈ mjoin ls) by (rewrite Hj; by left). pose proof (i_idle _ _ HL p Hp) as Hi.
  destruct (check_ok id PAGE_FLAGS_CHECK_AT_FREE p z Hinv Hi) as (z1&pg&E&Epg&Hq&Hk&Hz).
  exists pg. unfold bulkfree_pcp_prepare, free_pages_check. rewrite E. cbn [res_bind]. unfold page_at. rewrite Epg.
  destruct (page_expected_state pg PAGE_FLAGS_CHECK_AT_FREE) eqn:He; cbn [negb].
  - rewrite (Hz eq_refl). assert (Hs : spare_in z p 0).
    { apply spare_of; [unfold MAX_ORDER; lia|apply (mine_pos id z p Hinv), Hi|]. intros x ->%inside_0. done. }
    destruct (free_one_page_ok id z p 0 (index pg) Hinv Hs (i_type _ _ HL p pg Hp Epg)) as (z'&E'&Hi'&Hs'&Hn&Ht&Hc).
    exists z'. split_and!; [done|done|]. exists [p], []. split; [|done].
    assert (Hc' : forall x, free_page z' x <-> free_page z x \/ x ∈ [p]) by (intros x; by rewrite Hc, inside_0, list_elem_of_singleton).
    split; try done.
    + by apply same_zone_span.
    + by rewrite length_insert.
    + intros Hcnt. apply (counted_mod id z z' 1 Hi' Hcnt); [by rewrite Hn|]. apply (nr_free_set_add id z z' [p]); [apply NoDup_singleton| |done].
      intros x ->%list_elem_of_singleton. apply Hi.
    + intros x [_ Hx] Hne. rewrite app_nil_r, list_elem_of_singleton in Hne. apply Ht. rewrite Hc, inside_0. tauto.
    + by apply sz_kept.
  - exists z1. split_and!; [done|done|]. exists [], [p]. split; [|done]. split.
    + apply Hq.
    + apply Hq.
    + done.
    + by rewrite length_insert.
    + intros x. rewrite (quiet_covers id _ z z1 x Hq), elem_of_nil. tauto.
    + unfold counted. intros Hcnt. rewrite (q_count _ _ _ _ Hq), Hcnt. unfold nr_free_set. do 2 f_equal. apply set_eq. intros x.
      by rewrite !elem_of_free_set, (quiet_covers id _ z z1 x Hq).
    + intros x _ Hne. apply (q_pages _ _ _ _ Hq). intros <-. apply Hne. by left.
    + done.
    + intros Hcl. destruct (Hcl p Hp) as (pg'&E'&He'). congruence.
Qed.

(** The inner loop frees at least one page, and at most [count]. *)
Lemma drain_list_ok mt : forall fuel cnt bf ls z,
  inv z -> lists_idle z ls -> (exists l p, ls !! mt = Some (l ++ [p])) -> 0 < cnt -> (Z.to_nat cnt <= fuel)%nat ->
  exists z' ls' cnt' bf' back lost, drain_list fuel mt cnt bf ls z = Ret (z', ls', cnt', bf')
    /\ drained z z' ls ls' back lost /\ cnt' = cnt - Z.of_nat (length (back ++ lost)) /\ 0 <= cnt' < cnt.
Proof.
  induction fuel as [|fuel IH]; intros cnt bf ls z Hinv HL (l&p&El) Hcnt Hfuel; [lia|]. cbn [drain_list]. unfold pcp_list. rewrite El.
  cbn [res_bind]. rewrite last_snoc, removelast_last.
  destruct (drain_page_ok z ls mt l p Hinv HL El) as (pg&z1&->&E&back&lost&Hd&Hlen). cbn [res_bind].
  destruct (bulkfree_pcp_prepare p z) as [[z2 bad]| |]; cbn [res_bind] in E |- *; try done. rewrite E. cbn [res_bind]. clear E.
  destruct (Z.eqb_spec (cnt - 1) 0) as [E0|E0]; [by eexists _, _, _, _, back, lost; split_and!; [done|done|lia|lia|lia]|].
  destruct (Z.eqb_spec (bf - 1) 0) as [E1|E1]; [by eexists _, _, _, _, back, lost; split_and!; [done|done|lia|lia|lia]|].
  destruct l as [|q l]; [by eexists _, _, _, _, back, lost; split_and!; [done|done|lia|lia|lia]|].
  assert (HL1 : lists_idle z1 (<[mt := q :: l]> ls)) by by eapply drained_idle.
  destruct (IH (cnt - 1) (bf - 1) (<[mt := q :: l]> ls) z1 (d_inv _ _ _ _ _ _ Hd) HL1) as (z'&ls'&cnt'&bf'&back'&lost'&E&Hd'&Hc'&Hb'); [|lia|lia|].
  { destruct (exists_last (l := q :: l)) as (l'&p'&El'); [done|]. exists l', p'. rewrite list_lookup_insert_eq by (by eapply lookup_lt_Some). by rewrite El'. }
  eexists _, _, _, _, (back ++ back'), (lost ++ lost'). split; [exact E|]. split; [by eapply drained_trans|].
  rewrite !length_app in *. lia.
Qed.

Lemma next_list_ok (ls : list (list Z)) mt bf :
  length ls = MIGRATE_PCPTYPES -> mjoin ls <> [] -> (mt < MIGRATE_PCPTYPES)%nat ->
  exists mt' bf', next_list MIGRATE_PCPTYPES mt bf ls = Ret (mt', bf') /\ (mt' < MIGRATE_PCPTYPES)%nat
    /\ exists l p, ls !! mt' = Some (l ++ [p]).
Proof.
  intros Hlen Hne Hmt. destruct ls as [|l0 [|l1 [|l2 [|]]]]; try done. clear Hlen. unfold MIGRATE_PCPTYPES in *.
  assert (Hcase : forall l : list Z, l <> [] -> exists l' p, Some l = Some (l' ++ [p])).
  { intros l Hl. destruct (exists_last Hl) as (l'&p&->). by exists l', p. }
  assert (mt = 0 \/ mt = 1 \/ mt = 2)%nat as [->|[->| ->]] by lia; cbn;
    destruct l0, l1, l2; cbn in *; try done; eexists _, _; (split; [done|]); (split; [lia|]); cbn; by apply Hcase.
Qed.

(** The outer loop frees or loses exactly [count] pages, if the lists hold as many. *)
Lemma bulk_free_loop_ok : forall fuel mt bf cnt ls z,
  inv z -> lists_idle z ls -> (mt < MIGRATE_PCPTYPES)%nat -> 0 <= cnt <= Z.of_nat (length (mjoin ls)) -> (Z.to_nat cnt < fuel)%nat ->
  exists z' ls' back lost, bulk_free_loop fuel mt bf cnt ls z = Ret (z', ls') /\ drained z z' ls ls' back lost
    /\ Z.of_nat (length (back ++ lost)) = cnt.
Proof.
  induction fuel as [|fuel IH]; intros mt bf cnt ls z Hinv HL Hmt Hcnt Hfuel; [lia|]. cbn [bulk_free_loop].
  destruct (Z.eqb_spec cnt 0) as [->|Hne]; [exists z, ls, [], []; split_and!; [done|by apply drained_nil|done]|].
  destruct (next_list_ok ls mt bf (i_len _ _ HL)) as (mt1&bf1&->&Hmt1&Hl); [|done|].
  { intros E. rewrite E in Hcnt. cbn in Hcnt. lia. }
  cbn [res_bind]. set (bf2 := if bf1 =? _ then cnt else bf1).
  destruct (drain_list_ok mt1 (Z.to_nat cnt) cnt bf2 ls z Hinv HL Hl) as (z1&ls1&cnt1&bf3&back&lost&->&Hd&Hc1&Hb1); [lia|lia|]. cbn [res_bind].
  assert (HL1 : lists_idle z1 ls1) by by eapply drained_idle.
  destruct (IH mt1 bf3 cnt1 ls1 z1 (d_inv _ _ _ _ _ _ Hd) HL1 Hmt1) as (z'&ls'&back'&lost'&->&Hd'&Hc'); [|lia|].
  { rewrite (d_lists _ _ _ _ _ _ Hd), length_app in Hcnt. lia. }
  eexists _, _, (back ++ back'), (lost ++ lost'). split; [done|]. split; [by eapply drained_trans|]. rewrite !length_app in *. lia.
Qed.
End Free.
