(* ===== verification/PageAllocOps.v ===== *)
(** [__free_pages]: the checks on freeing, single pages and larger blocks. *)

From stdpp Require Import gmap numbers list_numbers.
From S2P Require Import Prelude Buddy BuddyBlocks BuddyFacts BuddyOps BuddyFallback PageAlloc PageAllocFacts PageAllocPcp PageAllocFree.

Section Free.
Context (id : Z).
#[local] Notation mine := (mine id).
#[local] Notation free := (free id).
#[local] Notation inv := (inv id).
#[local] Notation idle := (idle id).
#[local] Notation quiet := (quiet id).
#[local] Notation pcp_ok := (pcp_ok id).
#[local] Notation outside := (outside id).
#[local] Notation healthy := (healthy id).
#[local] Notation counted := (counted id).
#[local] Notation spare_in z := (spare (mine z) (free z)).
#[local] Notation free_page z := (covers (free z)).

(** * Checking the pages of a block *)

Lemma expected_fields pg fl :
  page_expected_state pg fl = true <-> _mapcount pg = -1 /\ mapping pg = 0 /\ w64 (_refcount pg) = 0 /\ Z.land (flags pg) fl = 0.
Proof.
  unfold page_expected_state. destruct (Z.eqb_spec (_mapcount pg) (-1)) as [E|E]; cbn [negb]; [|split; [done|tauto]].
  destruct (Z.eqb_spec (Z.lor (Z.lor (mapping pg) (w64 (_refcount pg))) (Z.land (flags pg) fl)) 0) as [E0|E0]; cbn [negb].
  - apply Z.lor_eq_0_iff in E0 as [[E1 E2]%Z.lor_eq_0_iff E3]. done.
  - split; [done|]. intros (_&E1&E2&E3). rewrite E1, E2, E3 in E0. done.
Qed.
(** A page that passes the check on freeing is good once its flags are cleared. *)
Lemma expected_good z p pg :
  page_expected_state pg PAGE_FLAGS_CHECK_AT_FREE = true ->
  pages z !! p = Some (with_flags (Z.ldiff (flags pg) PAGE_FLAGS_CHECK_AT_PREP) pg) -> good z p.
Proof.
  intros (E1&E2&E3&E4)%expected_fields E. eexists. split; [exact E|]. split_and!; try done; [by left|]. cbn [flags with_flags].
  apply Z.bits_inj'. intros i Hi. rewrite Z.land_spec, Z.ldiff_spec, Z.bits_0.
  by destruct (Z.testbit (flags pg) i), (Z.testbit PAGE_FLAGS_CHECK_AT_PREP i).
Qed.
Lemma good_clean z p : idle z p -> good z p -> clean z p.
Proof.
  intros Hi (pg&E&Hm&E1&E2&E3). exists pg. split; [done|]. pose proof (idle_not_buddy id z p pg Hi E) as Hb.
  apply expected_fields. destruct Hm as [Hm|Hm]; [|congruence]. split_and!; try done.
  replace PAGE_FLAGS_CHECK_AT_FREE with (Z.land PAGE_FLAGS_CHECK_AT_PREP PAGE_FLAGS_CHECK_AT_FREE) by reflexivity.
  by rewrite Z.land_assoc, E3.
Qed.

Lemma clear_flags_ok p z :
  inv z -> idle z p ->
  exists z' pg, update_page (fun pg => with_flags (Z.ldiff (flags pg) PAGE_FLAGS_CHECK_AT_PREP) pg) p z = Ret z' /\ quiet (eq p) z z'
    /\ pages z !! p = Some pg /\ pages z' !! p = Some (with_flags (Z.ldiff (flags pg) PAGE_FLAGS_CHECK_AT_PREP) pg).
Proof.
  intros Hinv Hi. destruct (update_page_ok id (fun pg => with_flags (Z.ldiff (flags pg) PAGE_FLAGS_CHECK_AT_PREP) pg) p z Hinv Hi) as (z'&E&Hq&Ep); [done|done|].
  pose proof Hi as [(pg&Epg&_) _]. exists z', pg. rewrite Epg in Ep. done.
Qed.
(** A tail page as an owner has to leave it; of a compound page two fields are reset. *)
Definition clean_tail (compound : bool) (z : zone) (p : Z) : Prop :=
  exists pg, pages z !! p = Some pg
    /\ page_expected_state (if compound then with_compound_head 0 (with_mapping 0 pg) else pg) PAGE_FLAGS_CHECK_AT_FREE = true.
Definition clean_rest (z : zone) (p : Z) (o : nat) : Prop :=
  forall pg x, pages z !! p = Some pg -> inside p o x -> x <> p -> clean_tail (PageCompound pg) z x.
Lemma tail_check_ok (compound : bool) p z :
  inv z -> idle z p ->
  exists z', (if compound then free_tail_pages_check p z else Ret z) = Ret z' /\ quiet (eq p) z z' /\ (clean_tail compound z p -> clean z' p).
Proof.
  intros Hinv Hi. destruct compound; [|exists z; split_and!; [done|by apply quiet_refl|done]].
  destruct (update_page_ok id (fun pg => with_compound_head 0 (with_mapping 0 pg)) p z Hinv Hi) as (z'&E&Hq&Ep); [done|done|].
  exists z'. split_and!; try done. intros (pg&Epg&He). rewrite Epg in Ep. eexists. split; [exact Ep|]. done.
Qed.

Lemma prepare_tails_ok compound n : forall p bad z,
  inv z -> (forall x, range p n x -> idle z x) ->
  exists z' bad', prepare_tails n p compound bad z = Ret (z', bad') /\ quiet (range p n) z z' /\ bad <= bad'
    /\ (bad' = bad -> forall x, range p n x -> good z' x) /\ ((forall x, range p n x -> clean_tail compound z x) -> bad' = bad).
Proof.
  induction n as [|n IH]; intros p bad z Hinv Hx; cbn [prepare_tails].
  { exists z, bad. split_and!; [done|by apply quiet_refl|lia|unfold range; lia|done]. }
  assert (Hp : range p (S n) p) by (unfold range; lia). pose proof (Hx p Hp) as Hi.
  destruct (tail_check_ok compound p z Hinv Hi) as (z1&->&Hq1&Hc1). cbn [res_bind].
  pose proof (proj2 (quiet_idle id _ z z1 p Hq1) Hi) as Hi1.
  destruct (check_ok id PAGE_FLAGS_CHECK_AT_FREE p z1 (q_inv _ _ _ _ Hq1) Hi1) as (z2&pg&E&Epg&Hq2&_&Hz). unfold free_pages_check. rewrite E.
  cbn [res_bind]. clear E.
  assert (Hsub : forall x, range (p + 1) n x -> range p (S n) x) by (intros x; unfold range; lia).
  assert (Hself : forall x, p = x -> range p (S n) x) by (by intros x <-).
  assert (Hstep : forall z3, quiet (eq p) z z3 -> forall x, range (p + 1) n x -> idle z3 x /\ (clean_tail compound z x -> clean_tail compound z3 x)).
  { intros z3 Hq3 x Hr. split; [apply (quiet_idle id _ z z3 x Hq3), Hx; by apply Hsub|]. intros (pg'&E'&He'). exists pg'. split; [|done].
    rewrite (q_pages _ _ _ _ Hq3); [done|]. unfold range in Hr. lia. }
  destruct (page_expected_state pg PAGE_FLAGS_CHECK_AT_FREE) eqn:He; cbn [negb].
  - rewrite (Hz eq_refl). destruct (clear_flags_ok p z1 (q_inv _ _ _ _ Hq1) Hi1) as (z3&pg'&->&Hq3&Epg'&Ep3). cbn [res_bind].
    replace pg' with pg in * by congruence. pose proof (quiet_trans id _ _ _ _ Hq1 Hq3) as Hq13.
    destruct (IH (p + 1) bad z3 (q_inv _ _ _ _ Hq3)) as (z'&bad'&E&Hq'&Hb'&Hg'&Hc'); [intros x Hr; by apply (Hstep z3)|].
    exists z', bad'. split_and!; [done| |done| |].
    + eapply quiet_trans; [by eapply quiet_weaken; [exact Hself|]|by eapply quiet_weaken; [exact Hsub|]].
    + intros Eb x Hr. destruct (decide (x = p)) as [->|Hne]; [|apply Hg'; [done|unfold range in *; lia]].
      apply (expected_good z' p pg He). rewrite (q_pages _ _ _ _ Hq'); [done|unfold range; lia].
    + intros Hall. apply Hc'. intros x Hr. by apply (Hstep z3), Hall, Hsub.
  - pose proof (quiet_trans id _ _ _ _ Hq1 Hq2) as Hq12.
    destruct (IH (p + 1) (bad + 1) z2 (q_inv _ _ _ _ Hq2)) as (z'&bad'&E&Hq'&Hb'&Hg'&Hc'); [intros x Hr; by apply (Hstep z2)|].
    exists z', bad'. split_and!; [done| |lia|lia|].
    + eapply quiet_trans; [by eapply quiet_weaken; [exact Hself|]|by eapply quiet_weaken; [exact Hsub|]].
    + intros Hall. destruct (Hc1 (Hall p Hp)) as (pg'&E'&He'). congruence.
Qed.

(** The mark of an anonymous mapping is taken off the first page before it is checked. *)
Definition clean_head (z : zone) (p : Z) : Prop :=
  exists pg, pages z !! p = Some pg /\
    page_expected_state (if PageMappingFlags pg then with_mapping 0 pg else pg) PAGE_FLAGS_CHECK_AT_FREE = true.
Lemma head_prepare_ok p chk bad z :
  inv z -> idle z p -> 0 <= bad ->
  exists z' ok, (let* pg := page_at z p in
      let* z := if PageMappingFlags pg then update_page (with_mapping 0) p z else Ret z in
      let* (z, bad) :=
        if chk : bool then let* (z, is_bad) := free_pages_check p z in Ret (z, if is_bad : bool then bad + 1 else bad) else Ret (z, bad) in
      if negb (bad =? 0) then Ret (z, false)
      else
        let* z := update_page (fun pg => with_flags (Z.ldiff (flags pg) PAGE_FLAGS_CHECK_AT_PREP) pg) p z in
        Ret (z, true)) = Ret (z', ok)
    /\ quiet (eq p) z z' /\ (ok = true -> bad = 0) /\ (ok = true -> chk = true -> good z' p)
    /\ (bad = 0 -> clean_head z p -> ok = true /\ good z' p) /\ (bad = 0 -> chk = false -> ok = true).
Proof.
  intros Hinv Hi Hbad. pose proof Hi as [(pg&Epg&_) _]. unfold page_at at 1. rewrite Epg. cbn [res_bind].
  assert (exists z1 pg1, (if PageMappingFlags pg then update_page (with_mapping 0) p z else Ret z) = Ret z1 /\ quiet (eq p) z z1
            /\ pages z1 !! p = Some pg1 /\ (clean_head z p -> page_expected_state pg1 PAGE_FLAGS_CHECK_AT_FREE = true)) as (z1&pg1&->&Hq1&Epg1&Hc1).
  { destruct (PageMappingFlags pg) eqn:Em.
    - destruct (update_page_ok id (with_mapping 0) p z Hinv Hi) as (z1&E&Hq&Ep); [done|done|]. exists z1, (with_mapping 0 pg). rewrite Epg in Ep.
      split_and!; try done. intros (pg'&E'&He). replace pg' with pg in * by congruence. by rewrite Em in He.
    - exists z, pg. split_and!; try done. intros (pg'&E'&He). replace pg' with pg in * by congruence. by rewrite Em in He. }
  cbn [res_bind]. pose proof (proj2 (quiet_idle id _ z z1 p Hq1) Hi) as Hi1.
  assert (exists z2 bad2, (if chk then let* (z, is_bad) := free_pages_check p z1 in Ret (z, if is_bad : bool then bad + 1 else bad) else Ret (z1, bad)) = Ret (z2, bad2)
            /\ quiet (eq p) z1 z2 /\ bad <= bad2
            /\ (bad2 = bad -> z2 = z1 /\ (chk = true -> page_expected_state pg1 PAGE_FLAGS_CHECK_AT_FREE = true))
            /\ (chk = false \/ page_expected_state pg1 PAGE_FLAGS_CHECK_AT_FREE = true -> bad2 = bad)) as (z2&bad2&->&Hq2&Hb2&Hz2&He2).
  { destruct chk; [|exists z1, bad; split_and!; first [done|lia|by apply quiet_refl, Hq1]].
    destruct (check_ok id PAGE_FLAGS_CHECK_AT_FREE p z1 (q_inv _ _ _ _ Hq1) Hi1) as (z2&pg2&E&Epg2&Hq2&_&Hz). unfold free_pages_check. rewrite E.
    replace pg2 with pg1 in * by congruence. cbn [res_bind]. destruct (page_expected_state pg1 PAGE_FLAGS_CHECK_AT_FREE); cbn [negb].
    - exists z2, bad. split_and!; try done. intros _. split; [by apply Hz|done].
    - exists z2, (bad + 1). split_and!; [done|done|lia|lia|]. intros [?|?]; done. }
  cbn [res_bind]. pose proof (quiet_trans id _ _ _ _ Hq1 Hq2) as Hq12. pose proof (proj2 (quiet_idle id _ z z2 p Hq12) Hi) as Hi2.
  destruct (Z.eqb_spec bad2 0) as [->|Hne]; cbn [negb].
  - assert (bad = 0) as -> by lia. destruct (Hz2 eq_refl) as [-> Hchk].
    destruct (clear_flags_ok p z1 (q_inv _ _ _ _ Hq1) Hi1) as (z3&pg'&->&Hq3&Epg'&Ep3). cbn [res_bind]. replace pg' with pg1 in * by congruence.
    exists z3, true. split_and!; try done; [by eapply quiet_trans| |].
    + intros _ Hc. by apply (expected_good z3 p pg1 (Hchk Hc)).
    + intros _ Hcl. split; [done|]. by apply (expected_good z3 p pg1 (Hc1 Hcl)).
  - exists z2, false. split_and!; try done.
    + intros -> Hcl. exfalso. apply Hne, He2. right. by apply Hc1.
    + intros -> Hcl. exfalso. apply Hne, He2. by left.
Qed.

(** If it succeeds, and the first page is checked, all pages are good. *)
Lemma free_pages_prepare_ok p order chk z :
  inv z -> (forall x, inside p order x -> idle z x) ->
  exists z' ok, free_pages_prepare p order chk z = Ret (z', ok) /\ quiet (inside p order) z z'
    /\ (ok = true -> chk = true -> forall x, inside p order x -> good z' x)
    /\ (clean_head z p -> clean_rest z p order -> ok = true /\ forall x, inside p order x -> good z' x)
    /\ (order = 0%nat -> chk = false -> ok = true).
Proof.
  intros Hinv Hx. unfold free_pages_prepare. pose proof (size_pos order) as Hpos.
  assert (Hr : forall x, inside p order x <-> x = p \/ range (p + 1) (2 ^ order - 1) x).
  { intros x. rewrite <- range_inside. unfold range. pose proof (Nat.pow_nonzero 2 order). lia. }
  assert (Hnr : ~ range (p + 1) (2 ^ order - 1) p) by (unfold range; lia).
  assert (exists z1 bad, (if negb (order =? 0)%nat then let* pg := page_at z p in prepare_tails (2 ^ order - 1) (p + 1) (PageCompound pg) 0 z else Ret (z, 0))
             = Ret (z1, bad) /\ quiet (range (p + 1) (2 ^ order - 1)) z z1 /\ 0 <= bad
           /\ (bad = 0 -> forall x, range (p + 1) (2 ^ order - 1) x -> good z1 x)
           /\ (clean_rest z p order -> bad = 0) /\ (order = 0%nat -> bad = 0)) as (z1&bad&->&Hq1&Hb&Hg&Hc&H0).
  { destruct (Nat.eqb_spec order 0) as [->|Ho]; cbn [negb].
    - exists z, 0. split_and!; try done. cbn. unfold range. lia.
    - pose proof (Hx p (inside_self p order)) as [(pg&Epg&_) _]. unfold page_at. rewrite Epg. cbn [res_bind].
      destruct (prepare_tails_ok (PageCompound pg) (2 ^ order - 1) (p + 1) 0 z Hinv) as (z1&bad&->&Hq&Hb&Hg&Hc); [intros x H; apply Hx, Hr; by right|].
      exists z1, bad. split_and!; try done. intros Hcl. apply Hc. intros x Hx'. apply (Hcl pg x Epg); [apply Hr; by right|]. by intros ->. }
  cbn [res_bind]. pose proof (proj2 (quiet_idle id _ z z1 p Hq1) (Hx p (inside_self p order))) as Hi1.
  destruct (head_prepare_ok p chk bad z1 (q_inv _ _ _ _ Hq1) Hi1 Hb) as (z'&ok&->&Hq2&Hok&Hgp&Hcp&Hfp).
  exists z', ok. assert (Hgood : forall x, range (p + 1) (2 ^ order - 1) x -> good z1 x -> good z' x).
  { intros x Hx' (pg&E&Hpg). exists pg. split; [|done]. rewrite (q_pages _ _ _ _ Hq2); [done|]. intros ->. done. }
  split_and!; [done| | | |auto].
  - eapply quiet_trans; [eapply quiet_weaken; [|exact Hq1]; intros x H; apply Hr; by right|eapply quiet_weaken; [|exact Hq2]; by intros x <-].
  - intros E1 E2 x [->|Hx']%Hr; [by apply Hgp|]. apply Hgood; [done|]. apply Hg; auto.
  - intros Hcl Hcl'. assert (Eb : bad = 0) by (by apply Hc).
    assert (Hcp1 : clean_head z1 p).
    { destruct Hcl as (pg&E&He). exists pg. split; [|done]. by rewrite (q_pages _ _ _ _ Hq1). }
    destruct (Hcp Eb Hcp1) as [E1 E2]. split; [done|]. intros x [->|Hx']%Hr; [done|]. apply Hgood; [done|]. by apply Hg.
Qed.

(** * Freeing to the lists of the CPU *)

(** The pages of [P] were outside and have been given back; the pages [lost] were in a bad
    state.  Of the pages outside, those of [T] may have been written. *)
Record released (z z' : zone) (pcp pcp' : per_cpu_pages) (T P : Z -> Prop) (lost : list Z) : Prop := {
  f_inv : inv z';
  f_pcp : pcp_ok z' pcp';
  f_span : same_span z z';
  f_counted : counted z -> counted z';
  f_out : forall x, mine z x -> outside z' pcp' x <-> (outside z pcp x /\ ~ P x) \/ x ∈ lost;
  f_lost : forall x, x ∈ lost -> ~ (outside z pcp x /\ ~ P x);
  f_touch : forall x, outside z pcp x -> ~ T x -> pages z' !! x = pages z !! x;
}.
Lemma pcp_lists_idle z pcp : pcp_ok z pcp -> lists_idle id z (lists pcp).
Proof. intros [C1 C2 C3 C4 C5 C6 C7]. by split. Qed.

Lemma pcp_drained z z' pcp ls' back lost n :
  inv z -> pcp_ok z pcp -> drained id z z' (lists pcp) ls' back lost -> n = Z.of_nat (length (back ++ lost)) ->
  let pcp' := set_count (s32 (count pcp - n)) (set_lists ls' pcp) in
  released z z' pcp pcp' (fun _ => False) (fun _ => False) lost /\ (healthy z pcp -> lost = [] /\ healthy z' pcp').
Proof.
  intros Hinv Hok Hd Hn pcp'. pose proof (drained_idle id _ _ _ _ _ _ (pcp_lists_idle z pcp Hok) Hd) as [L1 L2 L3 L4].
  pose proof Hok as [C1 C2 C3 C4 C5 C6 C7]. pose proof (cached_bound id z pcp Hinv Hok) as Hb.
  destruct Hd as [D1 D2 D3 D4 D5 D6 D7 DK D8]. rewrite D3 in C2. apply NoDup_app in C2 as (C2&Hdis&_). apply NoDup_app in C2 as (_&Hdis2&_).
  assert (Hc : forall x, cached pcp x <-> (x ∈ back \/ x ∈ lost) \/ cached pcp' x) by (intros x; unfold cached; by rewrite D3, !elem_of_app).
  assert (Hd' : forall x, x ∈ back \/ x ∈ lost -> ~ cached pcp' x) by (intros x Hx; apply (Hdis x); by apply elem_of_app).
  split; [split|].
  - done.
  - split; try done. cbn. rewrite C3, D3, length_app, Hn. rewrite D3, length_app in Hb. rewrite s32_small; lia.
  - done.
  - done.
  - intros x Hx. unfold PageAllocPcp.outside, PageAllocFacts.idle. rewrite (Hc x), D5, (same_span_mine id z z' x D2).
    pose proof (C4 x) as Hix. rewrite (Hc x) in Hix. unfold PageAllocFacts.idle in Hix. specialize (Hd' x). specialize (Hdis2 x).
    destruct (decide (x ∈ back)), (decide (x ∈ lost)); tauto.
  - intros x Hx [[_ Hn'] _]. apply Hn', Hc. tauto.
  - intros x [Hi Hn'] _. apply D7; [done|]. rewrite elem_of_app. intros H. apply Hn', Hc. tauto.
  - intros Hh. assert (Hl : lost = []).
    { apply D8. intros p Hp. apply good_clean; [by apply C4|]. apply Hh. by right. }
    split; [done|]. intros x Hx. apply (good_kept z z' x DK), Hh. rewrite D5 in Hx. rewrite (Hc x). tauto.
Qed.

Lemma free_pcppages_bulk_ok n pcp z :
  inv z -> pcp_ok z pcp -> 0 <= n <= count pcp ->
  exists z' ls' lost, free_pcppages_bulk n pcp z = Ret (z', set_lists ls' pcp)
    /\ let pcp' := set_count (s32 (count pcp - n)) (set_lists ls' pcp) in
       released z z' pcp pcp' (fun _ => False) (fun _ => False) lost /\ (healthy z pcp -> lost = [] /\ healthy z' pcp').
Proof.
  intros Hinv Hok Hn. rewrite (c_count _ _ _ Hok) in Hn.
  destruct (bulk_free_loop_ok id (S (Z.to_nat n)) 0 0 n (lists pcp) z Hinv (pcp_lists_idle z pcp Hok)) as (z'&ls'&back&lost&E&Hd&Hl);
    [unfold MIGRATE_PCPTYPES; lia|done|lia|].
  exists z', ls', lost. split; [unfold free_pcppages_bulk; by rewrite E|]. by apply (pcp_drained z z' pcp ls' back lost n).
Qed.

Lemma quiet_counted P z z' : quiet P z z' -> counted z -> counted z'.
Proof.
  intros Hq Hc. unfold PageAllocFacts.counted. rewrite (q_count _ _ _ _ Hq), Hc. unfold nr_free_set. do 2 f_equal. apply set_eq. intros x.
  by rewrite !elem_of_free_set, (quiet_covers id P z z' x Hq).
Qed.
Lemma quiet_pcp P z z' pcp : pcp_ok z pcp -> quiet P z z' -> (forall x, P x -> ~ cached pcp x) -> pcp_ok z' pcp.
Proof.
  intros Hok Hq HP. apply (pcp_ok_frame id z); [done|]. intros x Hx.
  split; [apply (quiet_idle id P z z' x Hq), (c_idle _ _ _ Hok), Hx|]. apply (q_pages _ _ _ _ Hq). intros H. by apply (HP x).
Qed.
Lemma quiet_outside P z z' pcp x : quiet P z z' -> outside z' pcp x <-> outside z pcp x.
Proof. intros Hq. unfold PageAllocPcp.outside. by rewrite (quiet_idle id P z z' x Hq). Qed.
(** Pages that are outside may be written. *)
Lemma released_quiet T P z z1 z' pcp pcp' lost :
  quiet T z z1 -> released z1 z' pcp pcp' T P lost -> released z z' pcp pcp' T P lost.
Proof.
  intros Hq [F1 F2 F3 F4 F5 F6 F7]. split; try done.
  - eapply same_span_trans; [apply Hq|done].
  - intros Hc. by apply F4, (quiet_counted T z z1).
  - intros x Hx. rewrite F5 by (by apply (same_span_mine id z), Hx; apply Hq). by rewrite (quiet_outside T z z1 pcp x Hq).
  - intros x Hx. rewrite <- (quiet_outside T z z1 pcp x Hq). by apply F6.
  - intros x Hx HT. rewrite F7; [|by apply (quiet_outside T z z1)|done]. by apply (q_pages _ _ _ _ Hq).
Qed.
Lemma released_trans z1 z2 z3 pcp1 pcp2 pcp3 (T P : Z -> Prop) lost :
  (forall x, P x -> T x) ->
  released z1 z2 pcp1 pcp2 T P [] -> released z2 z3 pcp2 pcp3 (fun _ => False) (fun _ => False) lost -> released z1 z3 pcp1 pcp3 T P lost.
Proof.
  intros HPT [A1 A2 A3 A4 A5 A6 A7] [B1 B2 B3 B4 B5 B6 B7]. split; try done.
  - by eapply same_span_trans.
  - auto.
  - intros x Hx. rewrite B5 by (by apply (same_span_mine id z1)). rewrite (A5 x Hx), elem_of_nil. tauto.
  - intros x Hx Ho. apply (B6 x Hx). split; [|tauto]. apply A5; [apply Ho|by left].
  - intros x Hx HT. rewrite B7, A7; [done|done|done| |tauto]. apply A5; [apply Hx|]. left. split; [done|]. by intros ?%HPT.
Qed.
Lemma released_none T z z' pcp : pcp_ok z pcp -> quiet T z z' -> (forall x, T x -> outside z pcp x) -> released z z' pcp pcp T (fun _ => False) [].
Proof.
  intros Hok Hq HT. split; [apply Hq| |apply Hq|by apply (quiet_counted T)| | |].
  - apply (quiet_pcp T z); [done|done|]. intros x Hx. by apply HT.
  - intros x Hx. rewrite (quiet_outside T z z' pcp x Hq), elem_of_nil. tauto.
  - intros x Hx. by apply elem_of_nil in Hx.
  - intros x _ Hx. by apply (q_pages _ _ _ _ Hq).
Qed.
Lemma healthy_quiet T z z' pcp : pcp_ok z pcp -> quiet T z z' -> (forall x, T x -> outside z pcp x) -> healthy z pcp -> healthy z' pcp.
Proof.
  intros Hok Hq HT Hh x Hx. rewrite (quiet_covers id T z z' x Hq) in Hx. destruct (Hh x Hx) as (pg&E&Hg). exists pg.
  split; [|done]. rewrite (q_pages _ _ _ _ Hq); [done|]. intros [[_ Hn] Hn']%HT. tauto.
Qed.

(** A page is put on a list. *)
Lemma pcp_add_ok z pcp mt l p pg :
  inv z -> pcp_ok z pcp -> outside z pcp p -> lists pcp !! mt = Some l -> pages z !! p = Some pg -> (index pg < MIGRATE_TYPES)%nat ->
  let pcp1 := set_count (s32 (count pcp + 1)) (set_lists (<[mt := p :: l]> (lists pcp)) pcp) in
  released z z pcp pcp1 (eq p) (eq p) [] /\ count pcp1 = count pcp + 1 /\ (good z p -> healthy z pcp -> healthy z pcp1).
Proof.
  intros Hinv Hok [Hi Hn] El Epg Hidx pcp1. pose proof Hok as [C1 C2 C3 C4 C5 C6 C7].
  pose proof (mjoin_insert _ mt l (p :: l) p El (Permutation_refl _)) as Hj.
  assert (Hc : forall x, cached pcp1 x <-> x = p \/ cached pcp x) by (intros x; unfold cached; cbn; by rewrite Hj, elem_of_cons).
  assert (Hnd : NoDup (p :: mjoin (lists pcp))) by by apply NoDup_cons.
  pose proof (mine_bound id z _ (proj1 Hinv) Hnd) as Hb. cbn [length] in Hb.
  assert (Hcnt : s32 (count pcp + 1) = count pcp + 1).
  { apply s32_small. rewrite C3. split; [lia|]. eapply Z.le_lt_trans; [|apply Hb]; [lia|].
    intros q [->|Hq]%elem_of_cons; [apply Hi|by apply C4]. }
  split_and!; [|done|].
  - split; try done.
    + split; try done; cbn [lists set_count set_lists count].
      * cbn. by rewrite length_insert.
      * cbn. by rewrite Hj.
      * cbn. rewrite Hcnt, C3, Hj. cbn [length]. lia.
      * intros x [->|Hx]%Hc; [done|by apply C4].
      * intros x pg' [->|Hx]%Hc E; [congruence|by apply (C5 x)].
    + intros x Hx. unfold PageAllocPcp.outside. rewrite (Hc x), elem_of_nil. intuition congruence.
    + intros x Hx. by apply elem_of_nil in Hx.
  - intros Hg Hh x Hx. rewrite (Hc x) in Hx. destruct Hx as [Hx|[->|Hx]]; [by apply Hh; left|done|by apply Hh; right].
Qed.

Lemma free_unref_page_commit_ok p pcp z pg :
  inv z -> pcp_ok z pcp -> outside z pcp p -> pages z !! p = Some pg -> (index pg < MIGRATE_TYPES)%nat ->
  exists z' pcp' lost, free_unref_page_commit p pcp z = Ret (z', pcp') /\ released z z' pcp pcp' (eq p) (eq p) lost
    /\ (good z p -> healthy z pcp -> lost = [] /\ healthy z' pcp').
Proof.
  intros Hinv Hok Ho Epg Hidx. unfold free_unref_page_commit, page_at. rewrite Epg. cbn [res_bind].
  set (mt := if (MIGRATE_PCPTYPES <=? index pg)%nat then MIGRATE_MOVABLE else index pg).
  assert (Hmt : (mt < MIGRATE_PCPTYPES)%nat).
  { unfold mt. destruct (Nat.leb_spec MIGRATE_PCPTYPES (index pg)); [unfold MIGRATE_MOVABLE, MIGRATE_PCPTYPES; lia|done]. }
  destruct (pcp_list_ok id z pcp mt Hok Hmt) as (l&El&->). cbn [res_bind].
  destruct (pcp_add_ok z pcp mt l p pg Hinv Hok Ho El Epg Hidx) as (Hr1&Ec1&Hh1). set (pcp1 := set_count _ _) in *.
  destruct (Z.leb_spec (high pcp1) (count pcp1)) as [Hle|Hlt]; [|by exists z, pcp1, []; auto].
  destruct (free_pcppages_bulk_ok (batch pcp1) pcp1 z Hinv (f_pcp _ _ _ _ _ _ _ Hr1)) as (z'&ls'&lost&->&Hr2&Hh2).
  { pose proof (c_batch _ _ _ Hok). rewrite Ec1, (c_count _ _ _ Hok) in *. change (batch pcp1) with (batch pcp). change (high pcp1) with (high pcp) in *. lia. }
  cbn [res_bind]. eexists _, _, lost. split; [done|]. split; [by eapply released_trans; [|exact Hr1|exact Hr2]|]. auto.
Qed.

(** * [__free_pages] *)

Lemma single_eq p x : inside p 0 x <-> p = x.
Proof. rewrite inside_0. split; by intros ->. Qed.
Lemma quiet_single p z z' : quiet (inside p 0) z z' <-> quiet (eq p) z z'.
Proof. split; apply quiet_weaken; intros x; by apply single_eq. Qed.

Lemma free_unref_page_ok p pcp z :
  inv z -> pcp_ok z pcp -> outside z pcp p ->
  exists z' pcp' lost, free_unref_page p pcp z = Ret (z', pcp') /\ released z z' pcp pcp' (eq p) (eq p) lost
    /\ (clean_head z p -> healthy z pcp -> lost = [] /\ healthy z' pcp').
Proof.
  intros Hinv Hok Ho. pose proof Ho as [Hi Hnc]. unfold free_unref_page, free_unref_page_prepare, free_pcp_prepare.
  destruct (free_pages_prepare_ok p 0 false z Hinv) as (z1&ok&->&Hq1&_&Hcl&Hyes); [by intros x ->%inside_0|].
  rewrite (Hyes eq_refl eq_refl). cbn [res_bind negb]. apply quiet_single in Hq1.
  pose proof (proj2 (quiet_idle id _ z z1 p Hq1) Hi) as Hi1. pose proof (q_inv _ _ _ _ Hq1) as Hinv1.
  destruct (z_types _ _ (proj1 Hinv1) p (proj1 Hi1)) as (mt&Emt&Hmt). unfold get_pageblock_migratetype. change pageblock_nr_pages with 1024.
  rewrite Emt. cbn [res_bind].
  destruct (update_page_ok id (with_index mt) p z1 Hinv1 Hi1) as (z2&E2&Hq2&Ep2); [done|done|].
  change (set_pcppage_migratetype p mt z1) with (update_page (with_index mt) p z1). rewrite E2. cbn [res_bind negb].
  pose proof (quiet_trans id _ _ _ _ Hq1 Hq2) as Hq. pose proof Hi1 as [(pg&Epg&_) _]. rewrite Epg in Ep2. cbn in Ep2.
  assert (HT : forall x, p = x -> outside z pcp x) by (by intros x <-).
  destruct (free_unref_page_commit_ok p pcp z2 (with_index mt pg) (q_inv _ _ _ _ Hq2)) as (z'&pcp'&lost&E'&Hr&Hh); [| |done|done|].
  { apply (quiet_pcp (eq p) z); [done|done|]. by intros x <-. }
  { by apply (quiet_outside (eq p) z z2 pcp p Hq). }
  exists z', pcp', lost. split; [done|]. split; [by eapply released_quiet|]. intros Hch Hhe. apply Hh.
  - destruct (Hcl Hch) as [_ Hg]; [by intros ? x _ ->%inside_0|]. destruct (Hg p (inside_self p 0)) as (pg'&E1&Hg'). replace pg' with pg in * by congruence.
    exists (with_index mt pg). done.
  - by apply (healthy_quiet (eq p) z).
Qed.

Lemma free_block_ok p o pcp z :
  inv z -> pcp_ok z pcp -> (o < MAX_ORDER)%nat -> aligned p o -> (forall x, inside p o x -> outside z pcp x) ->
  exists z' back, __free_pages_ok p o z = Ret z' /\ released z z' pcp pcp (inside p o) (fun x => back = true /\ inside p o x) []
    /\ (clean_head z p -> clean_rest z p o -> healthy z pcp -> back = true /\ healthy z' pcp).
Proof.
  intros Hinv Hok Ho Ha Hout. unfold __free_pages_ok.
  destruct (free_pages_prepare_ok p o true z Hinv) as (z1&ok&->&Hq1&Hg&Hcl&_); [intros x Hx; by apply Hout|]. cbn [res_bind].
  destruct ok; cbn [negb].
  2: { exists z1, false. split; [done|]. split; [|intros H1 H2; by destruct (Hcl H1 H2)].
       pose proof (released_none (inside p o) z z1 pcp Hok Hq1 Hout) as [F1 F2 F3 F4 F5 F6 F7]. split; try done.
       - intros x Hx. rewrite (F5 x Hx). intuition congruence.
       - intros x Hx. by apply elem_of_nil in Hx. }
  pose proof (q_inv _ _ _ _ Hq1) as Hinv1.
  assert (Hs : spare_in z1 p o).
  { apply spare_of; [done|done|]. intros x Hx. by apply (quiet_idle id _ z z1 x Hq1), Hout. }
  destruct (z_types _ _ (proj1 Hinv1) p (s_mine _ _ _ _ Hs p (inside_self p o))) as (mt&Emt&Hmt). unfold get_pageblock_migratetype.
  change pageblock_nr_pages with 1024. rewrite Emt. cbn [res_bind]. unfold free_one_page.
  destruct (free_one_page_ok id z1 p o mt Hinv1 Hs Hmt) as (z'&E&Hi'&Hs'&Hn&Ht&Hc). exists z', true. split; [done|].
  assert (Hok1 : pcp_ok z1 pcp) by (apply (quiet_pcp _ z _ _ Hok Hq1); intros x Hx; by apply Hout).
  assert (Hcached : forall x, cached pcp x -> ~ inside p o x /\ ~ free_page z' x).
  { intros x Hx. pose proof (c_idle _ _ _ Hok1 x Hx) as [_ Hn1]. assert (Hni : ~ inside p o x) by (intros H; by apply (Hout x H)).
    split; [done|]. rewrite Hc. tauto. }
  assert (Hmine : forall x, mine z' x <-> mine z1 x) by (intros x; by apply same_zone_mine).
  split; [apply (released_quiet _ _ z z1 z' _ _ _ Hq1); split|].
  - done.
  - apply (pcp_ok_frame id z1); [done|]. intros x Hx. destruct (Hcached x Hx) as [H1 H2].
    split; [split; [apply Hmine; by apply (c_idle _ _ _ Hok1)|done]|]. by apply Ht.
  - by apply same_zone_span.
  - intros Hcnt. assert (Hnb : forall x, inside p o x <-> x ∈ seqZ p (size o)) by (intros x; rewrite elem_of_seqZ; done).
    apply (counted_mod id z1 z' (size o) Hi' Hcnt Hn). rewrite (nr_free_set_add id z1 z' (seqZ p (size o))).
    + rewrite length_seqZ. pose proof (size_pos o). lia.
    + apply NoDup_seqZ.
    + intros x Hx%Hnb. by eapply spare_disjoint.
    + intros x. by rewrite Hc, <- Hnb.
  - intros x Hx. unfold PageAllocPcp.outside, PageAllocFacts.idle. rewrite Hmine, Hc, elem_of_nil. tauto.
  - intros x Hx. by apply elem_of_nil in Hx.
  - intros x [[Hm Hnf] _] Hni. apply Ht. rewrite Hc. tauto.
  - intros H1 H2 Hh. split; [done|]. intros x Hx. apply (good_kept z1 z' x (sz_kept _ _ Hs')).
    destruct (decide (inside p o x)) as [Hin|Hin]; [by apply Hg|]. apply (healthy_quiet _ z z1 pcp Hok Hq1 Hout Hh). rewrite Hc in Hx. tauto.
Qed.

Lemma released_ext (T T' P P' : Z -> Prop) z z' pcp pcp' lost :
  (forall x, T x <-> T' x) -> (forall x, P x <-> P' x) -> released z z' pcp pcp' T P lost -> released z z' pcp pcp' T' P' lost.
Proof.
  intros HT HP [F1 F2 F3 F4 F5 F6 F7]. split; try done.
  - intros x Hx. by rewrite (F5 x Hx), HP.
  - intros x Hx. rewrite <- HP. by apply F6.
  - intros x Hx. rewrite <- HT. by apply F7.
Qed.

(** The block has one reference left and its pages are as an owner has to leave them. *)
Definition returnable (z : zone) (p : Z) (o : nat) : Prop :=
  (exists pg, pages z !! p = Some pg /\ _refcount pg = 1 /\
     page_expected_state (with_refcount 0 (if PageMappingFlags pg then with_mapping 0 pg else pg)) PAGE_FLAGS_CHECK_AT_FREE = true)
  /\ clean_rest z p o.

(** A reference is dropped; with the last one the block goes back, unless a page is in a bad
    state. *)
Lemma free_pages_ok p o pcp z pg :
  inv z -> pcp_ok z pcp -> (o < MAX_ORDER)%nat -> aligned p o -> (forall x, inside p o x -> outside z pcp x) -> pages z !! p = Some pg ->
  exists z' pcp' back lost, __free_pages p o pcp z = Ret (z', pcp')
    /\ released z z' pcp pcp' (inside p o) (fun x => back = true /\ inside p o x) lost
    /\ (back = true -> s32 (_refcount pg - 1) = 0)
    /\ (s32 (_refcount pg - 1) <> 0 -> lost = [] /\ (healthy z pcp -> healthy z' pcp'))
    /\ (returnable z p o -> healthy z pcp -> back = true /\ lost = [] /\ healthy z' pcp').
Proof.
  intros Hinv Hok Ho Ha Hout Epg. pose proof (Hout p (inside_self p o)) as [Hi Hnc]. unfold __free_pages, put_page_testzero, page_at. rewrite Epg.
  cbn [res_bind]. set (r := s32 (_refcount pg - 1)).
  destruct (update_page_ok id (with_refcount r) p z Hinv Hi) as (z1&->&Hq&Ep); [done|done|]. cbn [res_bind]. rewrite Epg in Ep. cbn in Ep.
  assert (Hq1 : quiet (inside p o) z z1) by (eapply quiet_weaken; [|exact Hq]; intros x <-; apply inside_self).
  pose proof (q_inv _ _ _ _ Hq) as Hinv1. assert (Hok1 : pcp_ok z1 pcp) by (apply (quiet_pcp _ z _ _ Hok Hq1); intros x Hx; by apply Hout).
  assert (Hout1 : forall x, inside p o x -> outside z1 pcp x) by (intros x Hx; by apply (quiet_outside _ z z1 pcp x Hq1), Hout).
  pose proof (healthy_quiet _ z z1 pcp Hok Hq1 Hout) as Hhq.
  assert (Hret : returnable z p o -> r = 0 /\ clean_head z1 p /\ clean_rest z1 p o).
  { intros [(pg'&E'&Hr&He) Ht]. replace pg' with pg in * by congruence. assert (Er : r = 0) by (unfold r; by rewrite Hr). split_and!; [done| |].
    - exists (with_refcount r pg). split; [done|]. rewrite Er. revert He. unfold PageMappingFlags. cbn [mapping with_refcount].
      destruct (negb _); done.
    - intros pg1 x E1 Hx Hne. replace pg1 with (with_refcount r pg) in * by congruence. destruct (Ht pg x Epg Hx Hne) as (pgx&Ex&Hex).
      exists pgx. split; [|done]. rewrite (q_pages _ _ _ _ Hq); [done|congruence]. }
  destruct (Z.eqb_spec r 0) as [Er|Er].
  2: { exists z1, pcp, false, []. split; [done|]. split_and!; try done.
       - eapply released_ext; [done| |by apply (released_none _ z z1 pcp Hok Hq1)]. intros x. cbn. intuition congruence.
       - by intros (?&_)%Hret. }
  destruct (Nat.eqb_spec o 0) as [->|Hne].
  - destruct (free_unref_page_ok p pcp z1 Hinv1 Hok1 (Hout1 p (inside_self p 0))) as (z'&pcp'&lost&->&Hr&Hh). exists z', pcp', true, lost.
    split; [done|]. split_and!; try done.
    + apply (released_quiet _ _ z z1); [done|]. eapply released_ext; [| |exact Hr]; intros x; rewrite single_eq; naive_solver.
    + intros (_&Hch&_)%Hret Hhe. destruct (Hh Hch (Hhq Hhe)). done.
  - destruct (free_block_ok p o pcp z1 Hinv1 Hok1 Ho Ha Hout1) as (z'&back&->&Hr&Hh). cbn [res_bind]. exists z', pcp, back, [].
    split; [done|]. split_and!; try done.
    + by apply (released_quiet _ _ z z1).
    + intros (_&Hch&Htl)%Hret Hhe. destruct (Hh Hch Htl (Hhq Hhe)). done.
Qed.
End Free.
