(* ===== verification/PageAllocSystem.v ===== *)
(** The allocator and its users: any sequence of allocations, frees, writes of the owners,
    drains and reservations. *)

From stdpp Require Import gmap relations.
From S2P Require Import Prelude Buddy BuddyBlocks BuddyFacts BuddyOps BuddyFallback PageAlloc PageAllocFacts PageAllocPcp PageAllocFree PageAllocOps.

(** The zone, the lists of the CPU, and the blocks that have been handed out. *)
Record system := mkSystem {
  sys_zone : zone;
  sys_pcp : per_cpu_pages;
  sys_own : list (Z * nat);
}.

Section System.
Context (id : Z).
#[local] Notation mine := (mine id).
#[local] Notation free := (free id).
#[local] Notation inv := (inv id).
#[local] Notation idle := (idle id).
#[local] Notation quiet := (quiet id).
#[local] Notation pcp_ok := (pcp_ok id).
#[local] Notation outside := (outside id).
#[local] Notation healthy := (healthy id).
#[local] Notation counted := (counted id).
#[local] Notation allocated := (allocated id).
#[local] Notation released := (released id).
#[local] Notation free_page z := (covers (free z)).

(** * Watermarks *)

Lemma any_list_ok z o a mts :
  area_ok id z o a -> (forall m, m ∈ mts -> (m < MIGRATE_TYPES)%nat) ->
  exists b, any_list a mts = Ret b /\ (b = true <-> exists m l p, m ∈ mts /\ free_list a !! m = Some l /\ p ∈ l).
Proof.
  intros (A1&_) Hm. induction mts as [|m mts IH]; cbn [any_list].
  - exists false. split; [done|]. split; [done|]. intros (m&_&_&Hm'&_). by apply elem_of_nil in Hm'.
  - destruct (lookup_lt_is_Some_2 (free_list a) m) as [l El]; [rewrite A1; apply Hm; by left|]. unfold list_at. rewrite El. cbn [res_bind].
    destruct l as [|p l].
    + destruct IH as (b&E&Hb); [intros m' Hm'; apply Hm; by right|]. exists b. split; [done|]. rewrite Hb. split.
      * intros (m'&l&p&H1&H2). exists m', l, p. split; [by right|done].
      * intros (m'&l&p&[->|H1]%elem_of_cons&H2&H3); [|by exists m', l, p]. simplify_eq. by apply elem_of_nil in H3.
    + exists true. split; [done|]. split; [|done]. intros _. exists m, (p :: l), p. split_and!; [by left|done|by left].
Qed.

(** The lists an allocation may use. *)
Definition usable (harder : bool) (f : nat) : Prop := (f < MIGRATE_PCPTYPES)%nat \/ (harder = true /\ f = MIGRATE_HIGHATOMIC).

Lemma suitable_loop_ok harder z : lists_ok id z -> forall n o,
  (o + n <= MAX_ORDER)%nat ->
  exists b, suitable_loop n o harder z = Ret b
    /\ (b = true -> exists o' f q, (o <= o')%nat /\ usable harder f /\ on_list z q o' f).
Proof.
  intros Hl. induction n as [|n IH]; intros o Ho; cbn [suitable_loop]; [by exists false|].
  destruct (area_exists id z o Hl ltac:(lia)) as (a&Ea&Ha). unfold area_at. rewrite Ea. cbn [res_bind].
  destruct (IH (S o) ltac:(lia)) as (b&Eb&Hb).
  assert (Hnext : exists b, suitable_loop n (S o) harder z = Ret b
            /\ (b = true -> exists o' f q, (o <= o')%nat /\ usable harder f /\ on_list z q o' f)).
  { exists b. split; [done|]. intros H. destruct (Hb H) as (o'&f&q&H1&H2). exists o', f, q. split; [lia|done]. }
  destruct (nr_free a =? 0); [done|].
  destruct (any_list_ok z o a (seq 0 MIGRATE_PCPTYPES) Ha) as (found&->&Hf).
  { intros m Hm%elem_of_seq. unfold MIGRATE_PCPTYPES, MIGRATE_TYPES in *. lia. }
  cbn [res_bind]. destruct found.
  { exists true. split; [done|]. intros _. destruct (proj1 Hf eq_refl) as (m&l&q&Hm%elem_of_seq&El&Hq). exists o, m, q.
    split_and!; [lia|left; lia|by exists a, l]. }
  destruct harder; [|done].
  destruct (lookup_lt_is_Some_2 (free_list a) MIGRATE_HIGHATOMIC) as [l El]; [destruct Ha as [-> _]; unfold MIGRATE_HIGHATOMIC, MIGRATE_TYPES, MIGRATE_PCPTYPES; lia|].
  unfold list_at. rewrite El. cbn [res_bind]. destruct l as [|q l]; [done|]. exists true. split; [done|]. intros _.
  exists o, MIGRATE_HIGHATOMIC, q. split_and!; [lia|by right|]. exists a, (q :: l). split_and!; [done|done|by left].
Qed.

(** Above order 0 the check looks at the lists. *)
Lemma watermark_suitable z order mark ci af fp :
  lists_ok id z -> (0 < order)%nat -> __zone_watermark_ok z order mark ci af fp = Ret true ->
  exists o f q, (order <= o)%nat /\ usable (negb (Z.land af (Z.lor ALLOC_HARDER ALLOC_OOM) =? 0)) f /\ on_list z q o f.
Proof.
  intros Hl Ho. unfold __zone_watermark_ok. destruct (if negb _ then (_, _) else _) as [fp' min']. destruct (reserve_at z ci); cbn [res_bind]; try done.
  destruct (_ <=? _); [done|]. destruct (Nat.eqb_spec order 0) as [|_]; [lia|]. intros E. destruct (decide (order <= MAX_ORDER)%nat) as [Hle|Hle].
  - destruct (suitable_loop_ok (negb (Z.land af (Z.lor ALLOC_HARDER ALLOC_OOM) =? 0)) z Hl (MAX_ORDER - order) order ltac:(lia)) as (b&E'&Hb).
    rewrite E' in E. apply Hb. congruence.
  - replace (MAX_ORDER - order)%nat with 0%nat in E by lia. done.
Qed.

(** * States and steps *)

(** The blocks that were handed out are aligned, are neither free nor cached, and do not
    overlap. *)
Record sys_ok (s : system) : Prop := {
  so_inv : inv (sys_zone s);
  so_pcp : pcp_ok (sys_zone s) (sys_pcp s);
  so_nodup : NoDup (sys_own s);
  so_block : forall p o, (p, o) ∈ sys_own s -> (o < MAX_ORDER)%nat /\ aligned p o;
  so_out : forall p o x, (p, o) ∈ sys_own s -> inside p o x -> outside (sys_zone s) (sys_pcp s) x;
  so_apart : forall p o q o', (p, o) ∈ sys_own s -> (q, o') ∈ sys_own s -> (p, o) <> (q, o') -> apart p o q o';
}.

(** A step of the allocator, or of an owner who writes the page structure of a page it owns; a
    block is freed by its owner, and is gone with its last reference.  If [polite], owners
    leave the pages of a block as they should before they drop the last reference. *)
Inductive sys_step (polite : bool) : system -> system -> Prop :=
| step_alloc order mt af z pcp own z1 pcp1 p z2 :
    (mt < MIGRATE_PCPTYPES)%nat -> rmqueue order mt af pcp z = Ret (z1, pcp1, Some p) -> post_alloc_hook p z1 = Ret z2 ->
    sys_step polite (mkSystem z pcp own) (mkSystem z2 pcp1 ((p, order) :: own))
| step_fail order mt af z pcp own z1 pcp1 :
    (mt < MIGRATE_PCPTYPES)%nat -> rmqueue order mt af pcp z = Ret (z1, pcp1, None) ->
    sys_step polite (mkSystem z pcp own) (mkSystem z1 pcp1 own)
| step_free p o pg z pcp own z1 pcp1 :
    (p, o) ∈ own -> pages z !! p = Some pg -> __free_pages p o pcp z = Ret (z1, pcp1) ->
    (polite = true -> s32 (_refcount pg - 1) = 0 -> returnable z p o) ->
    sys_step polite (mkSystem z pcp own)
      (mkSystem z1 pcp1 (if s32 (_refcount pg - 1) =? 0 then filter (fun b => b <> (p, o)) own else own))
| step_use p o x f z pcp own z1 :
    (p, o) ∈ own -> inside p o x -> update_page f x z = Ret z1 ->
    (forall pg, zone_id (f pg) = zone_id pg) -> (forall pg, PageBuddy pg = false -> PageBuddy (f pg) = false) ->
    sys_step polite (mkSystem z pcp own) (mkSystem z1 pcp own)
| step_drain z pcp own z1 pcp1 :
    drain_pages_zone pcp z = Ret (z1, pcp1) -> sys_step polite (mkSystem z pcp own) (mkSystem z1 pcp1 own)
| step_reserve p z pcp own z1 :
    mine z p -> reserve_highatomic_pageblock p z = Ret z1 -> sys_step polite (mkSystem z pcp own) (mkSystem z1 pcp own).

Lemma relisted_outside z z' pcp x : relisted id z z' -> outside z' pcp x <-> outside z pcp x.
Proof.
  intros Hr. pose proof Hr as (_&Hs&_). unfold PageAllocPcp.outside, PageAllocFacts.idle.
  rewrite (same_zone_mine id z z' x Hs), (covers_ext (free z') (free z) x); [done|]. intros. by apply relisted_free.
Qed.
Lemma relisted_pcp z z' pcp : relisted id z z' -> pcp_ok z pcp -> pcp_ok z' pcp.
Proof.
  intros Hr Hok. pose proof Hr as (_&Hs&Ep&_). apply (pcp_ok_frame id z); [done|]. intros x Hx. rewrite Ep. split; [|done].
  destruct (c_idle _ _ _ Hok x Hx) as [Hm Hn]. split; [by apply (same_zone_mine id z)|].
  rewrite (covers_ext (free z') (free z) x); [done|]. intros. by apply relisted_free.
Qed.

(** The blocks stay outside if their pages do. *)
Lemma sys_ok_frame z pcp own z' pcp' :
  sys_ok (mkSystem z pcp own) -> inv z' -> pcp_ok z' pcp' -> (forall x, outside z pcp x -> outside z' pcp' x) -> sys_ok (mkSystem z' pcp' own).
Proof. intros [S1 S2 S3 S4 S5 S6] Hi Hok Hx. split; try done. intros p o x Hp Hin. eapply Hx, S5; done. Qed.

Lemma hook_ok p z : inv z -> idle z p -> exists z', post_alloc_hook p z = Ret z' /\ quiet (eq p) z z'.
Proof.
  intros Hinv Hi. destruct (update_page_ok id (fun pg => with_refcount 1 (with_private 0 pg)) p z Hinv Hi) as (z'&E&Hq&_); [done|done|]. by exists z'.
Qed.

(** The pages of a new block are neither free nor cached. *)
Lemma allocated_outside z z1 pcp pcp1 p order lost x : allocated z z1 pcp pcp1 order (Some p) lost -> inside p order x -> outside z1 pcp1 x.
Proof.
  intros [A1 A2 A3 A4 A5 A6 A7 A8 _] Hx. destruct (A4 p eq_refl) as (_&_&Hmine). apply A6; [by apply Hmine|]. right. left. by exists p.
Qed.
Lemma hook_quiet z z1 pcp pcp1 p order lost z2 :
  allocated z z1 pcp pcp1 order (Some p) lost -> post_alloc_hook p z1 = Ret z2 -> quiet (inside p order) z1 z2.
Proof.
  intros Ha E. destruct (hook_ok p z1 (al_inv _ _ _ _ _ _ _ _ Ha)) as (z2'&E'&Hq); [by apply (allocated_outside _ _ _ _ _ _ _ _ Ha), inside_self|].
  replace z2 with z2' by congruence. eapply quiet_weaken; [|exact Hq]. intros x <-. apply inside_self.
Qed.

Lemma alloc_step_ok z pcp own z1 pcp1 p order lost z2 :
  sys_ok (mkSystem z pcp own) -> allocated z z1 pcp pcp1 order (Some p) lost -> quiet (inside p order) z1 z2 ->
  sys_ok (mkSystem z2 pcp1 ((p, order) :: own)).
Proof.
  intros [S1 S2 S3 S4 S5 S6] Ha Hq. pose proof (fun x => allocated_outside _ _ _ _ _ _ _ x Ha) as Hnew. destruct Ha as [A1 A2 A3 A4 A5 A6 A7 A8 _]. destruct (A4 p eq_refl) as (Ho&Hal&Hmine).
  assert (Hpcp : pcp_ok z2 pcp1) by (apply (quiet_pcp id (inside p order) z1); try done; intros x Hx; by apply Hnew).
  assert (Hout : forall x, outside z2 pcp1 x <-> outside z1 pcp1 x) by (intros x; by apply (quiet_outside id (inside p order))).
  assert (Hold : forall x, outside z pcp x -> outside z2 pcp1 x) by (intros x Hx; apply Hout, A6; [apply Hx|by left]).
  assert (Hap : forall q o', (q, o') ∈ own -> apart p order q o').
  { intros q o' Hq'. apply apart_disjoint. intros x Hx1 Hx2. apply (A5 p x); [by left|done|]. by apply (S5 q o'). }
  split; cbn [sys_zone sys_pcp sys_own].
  - apply Hq.
  - done.
  - apply NoDup_cons. split; [|done]. intros Hin. pose proof (Hap p order Hin) as Hap'. unfold apart in Hap'. pose proof (size_pos order). lia.
  - intros q o' [[= -> ->]|Hin]%elem_of_cons; [done|by apply S4].
  - intros q o' x [[= -> ->]|Hin]%elem_of_cons Hx; [by apply Hout, Hnew|]. by apply Hold, (S5 q o').
  - intros q o1 q' o2 [[= -> ->]|H1]%elem_of_cons [[= -> ->]|H2]%elem_of_cons Hne; [done|by apply Hap|apply apart_sym; by apply Hap|by apply S6].
Qed.

Lemma release_ok z pcp own z1 pcp1 p o back lost :
  sys_ok (mkSystem z pcp own) -> (p, o) ∈ own ->
  released z z1 pcp pcp1 (inside p o) (fun x => back = true /\ inside p o x) lost ->
  sys_ok (mkSystem z1 pcp1 (filter (fun b => b <> (p, o)) own)) /\ (back = false -> sys_ok (mkSystem z1 pcp1 own)).
Proof.
  intros [S1 S2 S3 S4 S5 S6] Hp Hr. pose proof Hr as [F1 F2 F3 F4 F5 F6 F7]. split.
  - split; cbn [sys_zone sys_pcp sys_own]; try done.
    + by apply NoDup_filter.
    + intros q o' [_ Hq]%list_elem_of_filter. by apply S4.
    + intros q o' x [Hne Hq]%list_elem_of_filter Hx. pose proof (S5 q o' x Hq Hx) as Hox. apply F5; [apply Hox|]. left. split; [done|].
      intros [_ Hin]. by apply (apart_outside q o' p o x (S6 q o' p o Hq Hp Hne)).
    + intros q o1 q' o2 [_ H1]%list_elem_of_filter [_ H2]%list_elem_of_filter. by apply S6.
  - intros ->. split; cbn [sys_zone sys_pcp sys_own]; try done. intros q o' x Hq Hx. pose proof (S5 q o' x Hq Hx) as Hox.
    apply F5; [apply Hox|]. left. split; [done|]. by intros [? _].
Qed.

Lemma drain_ok pcp z :
  inv z -> pcp_ok z pcp ->
  exists z1 pcp1 lost, drain_pages_zone pcp z = Ret (z1, pcp1) /\ released z z1 pcp pcp1 (fun _ => False) (fun _ => False) lost
    /\ (healthy z pcp -> lost = [] /\ healthy z1 pcp1) /\ count pcp1 = 0.
Proof.
  intros Hinv Hok. unfold drain_pages_zone. pose proof (c_count _ _ _ Hok) as Hc. destruct (Z.eqb_spec (count pcp) 0) as [E|E]; cbn [negb].
  - exists z, pcp, []. split_and!; try done. apply (released_none id); [done|by apply quiet_refl|done].
  - destruct (free_pcppages_bulk_ok id (count pcp) pcp z Hinv Hok) as (z1&ls&lost&->&Hr&Hh); [lia|]. cbn [res_bind].
    rewrite Z.sub_diag in Hr, Hh. by exists z1, (set_count 0 (set_lists ls pcp)), lost.
Qed.

Lemma sys_step_ok polite s s' : sys_step polite s s' -> sys_ok s -> sys_ok s'.
Proof.
  intros Hstep Hok. destruct Hstep as [order mt af z pcp own z1 pcp1 p z2 Hmt E1 E2|order mt af z pcp own z1 pcp1 Hmt E
    |p o pg z pcp own z1 pcp1 Hp Epg E _|p o x f z pcp own z1 Hp Hx E Hf1 Hf2|z pcp own z1 pcp1 E|p z pcp own z1 Hp E];
    pose proof (so_inv _ Hok) as Hinv; pose proof (so_pcp _ Hok) as Hpcp; cbn [sys_zone sys_pcp] in Hinv, Hpcp.
  - destruct (rmqueue_alloc_ok id order mt af pcp z Hinv Hpcp Hmt) as (z1'&pcp1'&r&lost&E'&Ha&_). rewrite E1 in E'. injection E' as <- <- <-.
    apply (alloc_step_ok z pcp own z1 pcp1 p order lost z2); [done|done|by eapply hook_quiet].
  - destruct (rmqueue_alloc_ok id order mt af pcp z Hinv Hpcp Hmt) as (z1'&pcp1'&r&lost&E'&Ha&_). rewrite E in E'. injection E' as <- <- <-.
    apply (sys_ok_frame z pcp own); [done|apply Ha|apply Ha|]. intros x Hx. apply (al_out _ _ _ _ _ _ _ _ Ha); [apply Hx|by left].
  - destruct (so_block _ Hok p o Hp) as [Ho Hal].
    destruct (free_pages_ok id p o pcp z pg Hinv Hpcp Ho Hal) as (z1'&pcp1'&back&lost&E'&Hr&Hb&_); [intros x Hx; by apply (so_out _ Hok p o)|done|].
    rewrite E in E'. injection E' as <- <-. destruct (release_ok z pcp own z1 pcp1 p o back lost Hok Hp Hr) as [H1 H2].
    destruct (Z.eqb_spec (s32 (_refcount pg - 1)) 0) as [E0|E0]; [done|]. apply H2. destruct back; [|done]. by destruct E0; apply Hb.
  - pose proof (so_out _ Hok p o x Hp Hx) as [Hi Hn]. destruct (update_page_ok id f x z Hinv Hi Hf1 Hf2) as (z1'&E'&Hq&_).
    replace z1' with z1 in * by congruence. apply (sys_ok_frame z pcp own); [done|apply Hq| |].
    + apply (quiet_pcp id (eq x) z); try done. by intros y <-.
    + intros y Hy. by apply (quiet_outside id (eq x) z z1).
  - destruct (drain_ok pcp z Hinv Hpcp) as (z1'&pcp1'&lost&E'&Hr&_). rewrite E in E'. injection E' as <- <-.
    apply (sys_ok_frame z pcp own); [done|apply Hr|apply Hr|]. intros x Hx. apply (f_out _ _ _ _ _ _ _ _ Hr); [apply Hx|]. left. tauto.
  - destruct (reserve_ok id p z Hinv Hp) as (z1'&E'&Hr). replace z1' with z1 in * by congruence.
    apply (sys_ok_frame z pcp own); [done|apply Hr|by apply (relisted_pcp z)|]. intros x Hx. by apply (relisted_outside z z1).
Qed.

(** * Nothing is lost *)

(** The counter of free pages is right, all free and cached pages can be handed out, and every
    page of the zone is free, cached or owned. *)
Record sys_full (s : system) : Prop := {
  sf_ok : sys_ok s;
  sf_counted : counted (sys_zone s);
  sf_healthy : healthy (sys_zone s) (sys_pcp s);
  sf_owned : forall x, mine (sys_zone s) x ->
    outside (sys_zone s) (sys_pcp s) x <-> exists p o, (p, o) ∈ sys_own s /\ inside p o x;
}.
Lemma sys_full_frame z pcp own z' pcp' :
  sys_full (mkSystem z pcp own) -> sys_ok (mkSystem z' pcp' own) -> same_span z z' -> counted z' -> healthy z' pcp' ->
  (forall x, mine z x -> outside z' pcp' x <-> outside z pcp x) -> sys_full (mkSystem z' pcp' own).
Proof.
  intros [F1 F2 F3 F4] Hok Hs Hc Hh Ho. split; try done. cbn [sys_zone sys_pcp sys_own] in *. intros x Hx.
  apply (same_span_mine id z z') in Hx; [|done]. by rewrite (Ho x Hx), (F4 x Hx).
Qed.
Lemma relisted_counted z z' : relisted id z z' -> counted z -> counted z'.
Proof. intros (_&_&Ep&En) Hc. unfold PageAllocFacts.counted, nr_free_set, free_set in *. by rewrite En, Ep. Qed.
Lemma relisted_healthy z z' pcp : relisted id z z' -> healthy z pcp -> healthy z' pcp.
Proof.
  intros Hr Hh x Hx. pose proof Hr as (_&_&Ep&_). rewrite (covers_ext (free z') (free z) x) in Hx by (intros; by apply relisted_free).
  destruct (Hh x Hx) as (pg&E&Hg). exists pg. by rewrite Ep.
Qed.

Lemma alloc_full z pcp own z1 pcp1 p order z2 :
  sys_full (mkSystem z pcp own) -> sys_ok (mkSystem z2 pcp1 ((p, order) :: own)) -> allocated z z1 pcp pcp1 order (Some p) [] ->
  counted z1 -> healthy z1 pcp1 -> quiet (inside p order) z1 z2 -> sys_full (mkSystem z2 pcp1 ((p, order) :: own)).
Proof.
  intros [F1 F2 F3 F4] Hok Ha Hc Hh Hq. cbn [sys_zone sys_pcp sys_own] in *. pose proof (fun x => allocated_outside _ _ _ _ _ _ _ x Ha) as Hp.
  destruct Ha as [A1 A2 A3 A4 A5 A6 A7 A8 _]. destruct (A4 p eq_refl) as (_&_&Hmine).
  split; [done|by apply (quiet_counted id (inside p order) z1)|by apply (healthy_quiet id (inside p order) z1)|].
  cbn [sys_zone sys_pcp sys_own]. intros x Hx. assert (Hx1 : mine z x).
  { apply (same_span_mine id z z1 x A3), (same_span_mine id z1 z2 x); [apply Hq|done]. }
  rewrite (quiet_outside id (inside p order) z1 z2 pcp1 x Hq), (A6 x Hx1), (F4 x Hx1). setoid_rewrite elem_of_cons. split.
  - intros [(q&o&H1&H2)|[(q&[= <-]&H2)|(q&H1&_)]]; [exists q, o; auto|exists p, order; auto|by apply elem_of_nil in H1].
  - intros (q&o&[[= -> ->]|H1]&H2); [right; left; by exists p|left; by exists q, o].
Qed.

Lemma free_full z pcp own z1 pcp1 p o :
  sys_full (mkSystem z pcp own) -> (p, o) ∈ own -> healthy z1 pcp1 ->
  released z z1 pcp pcp1 (inside p o) (fun x => true = true /\ inside p o x) [] ->
  sys_full (mkSystem z1 pcp1 (filter (fun b => b <> (p, o)) own)).
Proof.
  intros [F1 F2 F3 F4] Hp Hh Hr. destruct (release_ok z pcp own z1 pcp1 p o true [] F1 Hp Hr) as [Hok _].
  split; [done|by apply Hr|done|]. cbn [sys_zone sys_pcp sys_own] in *. intros x Hx.
  apply (same_span_mine id z z1) in Hx; [|apply Hr]. rewrite (f_out _ _ _ _ _ _ _ _ Hr x Hx), (F4 x Hx), elem_of_nil.
  setoid_rewrite list_elem_of_filter. split.
  - intros [[(q&o'&H1&H2) Hn]|[]]. exists q, o'. split; [split; [|done]|done]. intros [= -> ->]. by apply Hn.
  - intros (q&o'&[Hne H1]&H2). left. split; [by exists q, o'|]. intros [_ Hin].
    by apply (apart_outside q o' p o x (so_apart _ F1 q o' p o H1 Hp Hne)).
Qed.

Lemma sys_step_full s s' : sys_step true s s' -> sys_full s -> sys_full s'.
Proof.
  intros Hstep Hfull. pose proof (sys_step_ok true s s' Hstep (sf_ok _ Hfull)) as Hok'. revert Hok'.
  destruct Hstep as [order mt af z pcp own z1 pcp1 p z2 Hmt E1 E2|order mt af z pcp own z1 pcp1 Hmt E
    |p o pg z pcp own z1 pcp1 Hp Epg E Hpol|p o x f z pcp own z1 Hp Hx E Hf1 Hf2|z pcp own z1 pcp1 E|p z pcp own z1 Hp E]; intros Hok';
    pose proof Hfull as [Hok Hc Hh Hown]; pose proof (so_inv _ Hok) as Hinv; pose proof (so_pcp _ Hok) as Hpcp; cbn [sys_zone sys_pcp] in Hinv, Hpcp, Hc, Hh.
  - destruct (rmqueue_alloc_ok id order mt af pcp z Hinv Hpcp Hmt) as (z1'&pcp1'&r&lost&E'&Ha&Hcnt&Hhe&_). rewrite E1 in E'. injection E' as <- <- <-.
    destruct (Hhe Hh) as [-> Hh1]. apply (alloc_full z pcp own z1); try done; [apply Hcnt; [by right|done]|by eapply hook_quiet].
  - destruct (rmqueue_alloc_ok id order mt af pcp z Hinv Hpcp Hmt) as (z1'&pcp1'&r&lost&E'&Ha&Hcnt&Hhe&_). rewrite E in E'. injection E' as <- <- <-.
    destruct (Hhe Hh) as [-> Hh1]. apply (sys_full_frame z pcp own); try done; [apply Ha|apply Hcnt; [by right|done]|].
    intros x Hx. rewrite (al_out _ _ _ _ _ _ _ _ Ha x Hx). setoid_rewrite elem_of_nil. naive_solver.
  - destruct (so_block _ Hok p o Hp) as [Ho Hal].
    destruct (free_pages_ok id p o pcp z pg Hinv Hpcp Ho Hal) as (z1'&pcp1'&back&lost&E'&Hr&Hb&Hn&Hy); [intros x Hx; by apply (so_out _ Hok p o)|done|].
    rewrite E in E'. injection E' as <- <-. destruct (Z.eqb_spec (s32 (_refcount pg - 1)) 0) as [E0|E0].
    + destruct (Hy (Hpol eq_refl E0) Hh) as (->&->&Hh1). by apply (free_full z pcp own).
    + destruct (Hn E0) as [-> Hh1]. assert (back = false) as -> by (destruct back; [by destruct E0; apply Hb|done]).
      apply (sys_full_frame z pcp own); try done; [apply Hr|by apply Hr|by apply Hh1|]. intros x Hx.
      rewrite (f_out _ _ _ _ _ _ _ _ Hr x Hx), elem_of_nil. intuition congruence.
  - pose proof (so_out _ Hok p o x Hp Hx) as Hox. destruct (update_page_ok id f x z Hinv (proj1 Hox) Hf1 Hf2) as (z1'&E'&Hq&_).
    replace z1' with z1 in * by congruence.
    apply (sys_full_frame z pcp own); try done; [apply Hq|by apply (quiet_counted id (eq x) z)|apply (healthy_quiet id (eq x) z); try done; by intros y <-|].
    intros y Hy. by apply (quiet_outside id (eq x)).
  - destruct (drain_ok pcp z Hinv Hpcp) as (z1'&pcp1'&lost&E'&Hr&Hhe&_). rewrite E in E'. injection E' as <- <-. destruct (Hhe Hh) as [-> Hh1].
    apply (sys_full_frame z pcp own); try done; [apply Hr|by apply Hr|]. intros x Hx.
    rewrite (f_out _ _ _ _ _ _ _ _ Hr x Hx), elem_of_nil. tauto.
  - destruct (reserve_ok id p z Hinv Hp) as (z1'&E'&Hr). replace z1' with z1 in * by congruence. pose proof Hr as (_&Hs&_).
    apply (sys_full_frame z pcp own); try done; [apply Hs|by apply (relisted_counted z)|by apply (relisted_healthy z)|].
    intros x _. by apply (relisted_outside z z1).
Qed.
End System.
