(* ===== verification/PageAllocSpec.v ===== *)
(** Correctness of the page allocator. *)

From stdpp Require Import gmap numbers list_numbers relations.
From S2P Require Import Prelude Buddy BuddyBlocks BuddyFacts BuddyOps BuddyFallback PageAlloc PageAllocFacts PageAllocPcp PageAllocFree PageAllocOps PageAllocSystem.

(** * A zone before memory is released to it *)

(** One block of the largest order, all of it handed out. *)
Definition boot_page : page := mkPage 0 (-1) 0 0 0 0 0 0 0 0.
Definition boot_pages : gmap Z page :=
  <[0 := with_refcount 1 boot_page]> (list_to_map ((fun p => (p, boot_page)) <$> seqZ 0 1024)).
Definition boot_zone : zone :=
  mkZone 0 1024 0 0 1024 false [0; 0; 0] (replicate MAX_ORDER (mkArea (replicate MIGRATE_TYPES []) 0)) boot_pages
    {[0 := MIGRATE_MOVABLE]}.
Definition boot_pcp : per_cpu_pages := mkPcp 0 6 1 [[]; []; []].
Definition boot_system : system := mkSystem boot_zone boot_pcp [(0, 10%nat)].

Lemma boot_lookup p :
  boot_pages !! p = if decide (0 <= p < 1024) then Some (if decide (p = 0) then with_refcount 1 boot_page else boot_page) else None.
Proof.
  unfold boot_pages. destruct (decide (p = 0)) as [->|Hne]; [by rewrite lookup_insert_eq, decide_True by lia|].
  rewrite lookup_insert_ne by done. case_decide as Hp.
  - apply elem_of_list_to_map_1.
    + rewrite <- list_fmap_compose. cbn. rewrite list_fmap_id. apply NoDup_seqZ.
    + apply list_elem_of_fmap. exists p. split; [done|]. by apply elem_of_seqZ.
  - apply not_elem_of_list_to_map_1. rewrite <- list_fmap_compose. cbn. rewrite list_fmap_id, elem_of_seqZ. lia.
Qed.
#[local] Opaque boot_pages.
Lemma boot_mine p : mine 0 boot_zone p <-> 0 <= p < 1024.
Proof.
  unfold mine. cbn [pages boot_zone]. rewrite boot_lookup. split.
  - intros (pg&E&_). by case_decide.
  - intros Hp. rewrite decide_True by done. eexists. split; [done|]. by case_decide.
Qed.
Lemma boot_not_free p o : ~ free 0 boot_zone p o.
Proof.
  intros (pg&E&_&Hb&_). cbn [pages boot_zone] in E. rewrite boot_lookup in E. case_decide; [|done]. injection E as <-. by case_decide.
Qed.
Lemma boot_inv : inv 0 boot_zone.
Proof.
  split_and!.
  - split.
    + intros p. rewrite boot_mine. unfold zone_spans_pfn. cbn. rewrite andb_true_iff, Z.leb_le, Z.ltb_lt. lia.
    + intros p q Hp%boot_mine Hq. cbn [pages boot_zone]. rewrite boot_lookup, decide_True; [done|]. divmod p 1024. divmod q 1024. lia.
    + intros p Hp%boot_mine. exists MIGRATE_MOVABLE. rewrite Z.div_small by lia. split; [done|unfold MIGRATE_MOVABLE, MIGRATE_TYPES; lia].
    + done.
    + done.
    + by vm_compute.
  - split; [done|]. intros o a Ha. apply lookup_replicate in Ha as [-> Ho]. split_and!; try done; [apply NoDup_nil_2|].
    intros p. split; [intros H; by apply elem_of_nil in H|intros H; by apply boot_not_free in H].
  - split; intros; exfalso; eapply boot_not_free; eassumption.
Qed.
Lemma boot_uncovered x : ~ covers (free 0 boot_zone) x.
Proof. intros (p&o&H&_). by apply boot_not_free in H. Qed.
Lemma boot_outside x : outside 0 boot_zone boot_pcp x <-> 0 <= x < 1024.
Proof.
  unfold outside, idle. rewrite boot_mine. split; [tauto|]. intros Hx. split; [split; [done|apply boot_uncovered]|]. intros H. by apply elem_of_nil in H.
Qed.
Lemma boot_full : sys_full 0 boot_system.
Proof.
  split; [split|..]; cbn [sys_zone sys_pcp sys_own boot_system].
  - apply boot_inv.
  - split; [done|apply NoDup_nil_2|done|intros p H; by apply elem_of_nil in H|intros p pg H _; by apply elem_of_nil in H|done|done].
  - apply NoDup_singleton.
  - intros p o [= -> ->]%list_elem_of_singleton. split; [unfold MAX_ORDER; lia|]. split; [lia|]. by exists 0.
  - intros p o x [= -> ->]%list_elem_of_singleton Hx. apply boot_outside. unfold inside in Hx. rewrite size_10 in Hx. lia.
  - by intros p o q o' [= -> ->]%list_elem_of_singleton [= -> ->]%list_elem_of_singleton.
  - unfold counted, nr_free_set. replace (free_set 0 boot_zone) with (∅ : gset Z); [done|]. apply set_eq. intros x.
    rewrite elem_of_free_set. split; [by intros H%elem_of_empty|intros H; by apply boot_uncovered in H].
  - intros x [H|H]; [by apply boot_uncovered in H|by apply elem_of_nil in H].
  - intros x Hx%boot_mine. rewrite boot_outside. split.
    + intros _. exists 0, 10%nat. split; [by left|]. unfold inside. rewrite size_10. lia.
    + intros (p&o&[= -> ->]%list_elem_of_singleton&H). done.
Qed.
Lemma boot_returnable : returnable boot_zone 0 10.
Proof.
  split.
  - exists (with_refcount 1 boot_page). done.
  - intros pg x _ Hx Hne. exists boot_page. split; [|by destruct (PageCompound pg)]. cbn [pages boot_zone]. rewrite boot_lookup.
    unfold inside in Hx. rewrite size_10 in Hx. rewrite decide_True by lia. by rewrite decide_False.
Qed.

(** * Free blocks *)

Section Blocks.
Context (id : Z).

(** C6: [__free_one_page] frees a block: given a block in the zone that overlaps no free block,
    it returns (the merge loop ends), the free pages grow by exactly the pages of the block,
    [NR_FREE_PAGES] grows by their number, and the free blocks afterwards are the maximal
    aligned blocks of the free pages, so that all merging with buddies has been done; the lists
    and their counters agree with the page structures again ([inv]). *)
Theorem free_one_page_correct z p o m :
  inv id z -> spare (mine id z) (free id z) p o -> (m < MIGRATE_TYPES)%nat ->
  exists z', __free_one_page p o m z = Ret z' /\ inv id z'
    /\ (forall x, covers (free id z') x <-> covers (free id z) x \/ inside p o x)
    /\ (forall q o', free id z' q o' <-> maximal (fun x => covers (free id z) x \/ inside p o x) q o')
    /\ nr_free_pages z' = s64 (nr_free_pages z + size o)
    /\ (forall x, ~ covers (free id z') x -> pages z' !! x = pages z !! x).
Proof.
  intros Hinv Hs Hm. destruct (free_one_page_ok id z p o m Hinv Hs Hm) as (z'&E&Hi&_&Hn&Ht&Hc). exists z'. split_and!; try done.
  intros q o'. rewrite (blocks_maximal (mine id z') (free id z') q o') by apply Hi. by apply maximal_ext.
Qed.

(** C8: [__rmqueue] allocates a block: for the three migrate types of allocations it always
    returns (the retry after a fallback happens at most once).  Either it takes an aligned
    block out of the free pages, which are otherwise unchanged, and the free blocks that
    remain are the maximal ones; or it fails, leaves the zone as it was, and no block of the
    order or a larger one was on the lists of the three types. *)
Theorem rmqueue_correct order mt z :
  inv id z -> (mt < MIGRATE_PCPTYPES)%nat ->
  exists z' r, __rmqueue order mt z = Ret (z', r) /\
    match r with
    | Some p =>
        inv id z' /\ aligned p order /\ (forall x, inside p order x -> covers (free id z) x)
        /\ (forall x, covers (free id z') x <-> covers (free id z) x /\ ~ inside p order x)
        /\ (forall q o, free id z' q o <-> maximal (fun x => covers (free id z) x /\ ~ inside p order x) q o)
        /\ (forall x, ~ covers (free id z) x -> pages z' !! x = pages z !! x)
    | None => z' = z /\ forall o f q, (order <= o)%nat -> (f < MIGRATE_PCPTYPES)%nat -> ~ on_list z q o f
    end.
Proof.
  intros Hinv Hm. destruct (rmqueue_ok id order mt z Hinv Hm) as (z'&r&E&Hr). exists z', r. split; [done|]. destruct r as [p|]; [|done].
  destruct Hr as [T1 T2 T3 T4 T5 T6 T7].
  assert (Hc : forall x, covers (free id z') x <-> covers (free id z) x /\ ~ inside p order x).
  { intros x. rewrite <- T7. pose proof (spare_disjoint id z' p order x T4). tauto. }
  split_and!; try done; [apply T4|intros x Hx; apply T7; by right|]. intros q o.
  rewrite (blocks_maximal (mine id z') (free id z') q o) by apply T1. by apply maximal_ext.
Qed.

(** Freeing a block that was just allocated restores the free blocks exactly, whatever
    splitting, stealing and merging the two calls did. *)
Theorem rmqueue_free_roundtrip order mt z z' p m :
  inv id z -> (mt < MIGRATE_PCPTYPES)%nat -> (m < MIGRATE_TYPES)%nat -> __rmqueue order mt z = Ret (z', Some p) ->
  exists z'', __free_one_page p order m z' = Ret z'' /\ inv id z'' /\ forall q o, free id z'' q o <-> free id z q o.
Proof.
  intros Hinv Hmt Hm E. destruct (rmqueue_ok id order mt z Hinv Hmt) as (z1&r&E1&Hr). rewrite E in E1. injection E1 as <- <-.
  destruct (free_one_page_ok id z' p order m (t_inv _ _ _ _ _ _ Hr) (t_spare _ _ _ _ _ _ Hr) Hm) as (z''&E''&Hi&_&_&_&Hc).
  exists z''. split_and!; try done. intros q o. apply (blocks_determined (mine id z'') _ (mine id z) _ q o); [apply Hi|apply Hinv|].
  intros x. rewrite Hc. apply Hr.
Qed.

(** [free_pcppages_bulk] with a count that the lists can satisfy ends, its two nested loops
    included, and takes exactly that many pages off the lists, round robin; those in the
    expected state become free, and no page is lost if all are. *)
Theorem free_pcppages_bulk_correct n pcp z :
  inv id z -> pcp_ok id z pcp -> 0 <= n <= count pcp ->
  exists z' ls back lost, free_pcppages_bulk n pcp z = Ret (z', set_lists ls pcp) /\ inv id z'
    /\ mjoin (lists pcp) ≡ₚ (back ++ lost) ++ mjoin ls /\ Z.of_nat (length (back ++ lost)) = n
    /\ (forall x, covers (free id z') x <-> covers (free id z) x \/ x ∈ back)
    /\ (counted id z -> counted id z') /\ ((forall p, cached pcp p -> clean z p) -> lost = []).
Proof.
  intros Hinv Hok Hn. rewrite (c_count _ _ _ Hok) in Hn.
  destruct (bulk_free_loop_ok id (S (Z.to_nat n)) 0 0 n (lists pcp) z Hinv (pcp_lists_idle id z pcp Hok)) as (z'&ls'&back&lost&E&Hd&Hl);
    [unfold MIGRATE_PCPTYPES; lia|done|lia|].
  exists z', ls', back, lost. destruct Hd as [D1 D2 D3 D4 D5 D6 D7 DK D8]. unfold free_pcppages_bulk. by rewrite E.
Qed.
End Blocks.

(** * Allocator and users *)

Section Runs.
Context (id : Z).

(** C2: No page is handed out twice: in every run of allocations, frees, writes of owners, drains
    and reservations the blocks in use do not overlap each other, the free pages or the
    pages on the lists of the CPU, whatever state the pages are freed in. *)
Theorem page_alloc_safe polite s s' : sys_ok id s -> rtc (sys_step id polite) s s' -> sys_ok id s'.
Proof. intros Hok Hrun. induction Hrun as [|s s1 s' Hstep _ IH]; [done|]. by apply IH, (sys_step_ok id polite s s1). Qed.

(** C10: Nothing is lost: if owners return their blocks in the expected state, then in every run
    [NR_FREE_PAGES] is exactly the number of free pages, and every page of the zone is free,
    cached or in a block in use. *)
Theorem page_alloc_conserves s s' : sys_full id s -> rtc (sys_step id true) s s' -> sys_full id s'.
Proof. intros Hok Hrun. induction Hrun as [|s s1 s' Hstep _ IH]; [done|]. by apply IH, (sys_step_full id s s1). Qed.

(** C40: In every state the allocator can reach, each operation returns: no list operation fails
    and no loop runs forever, also when pages in a bad state make [rmqueue] retry.  An
    allocation of more than one page fails only if no block of the order or a larger one is
    left on the lists it may use; so does one of a single page if the zone has no bad pages
    (otherwise the batch that refills the per-CPU list may be all bad).  A caller of
    [__free_pages] returns a block it has, one of [reserve_highatomic_pageblock] names a page
    of the zone. *)
Theorem page_alloc_total z pcp own :
  sys_ok id (mkSystem z pcp own) ->
  (forall order mt af, (mt < MIGRATE_PCPTYPES)%nat ->
     exists z1 pcp1 r, rmqueue order mt af pcp z = Ret (z1, pcp1, r)
       /\ match r with
          | Some p => exists z2, post_alloc_hook p z1 = Ret z2
          | None => healthy id z pcp \/ (0 < order)%nat -> exhausted z1 order ((0 <? order)%nat && negb (Z.land af ALLOC_HARDER =? 0))
          end)
  /\ (forall p o, (p, o) ∈ own -> exists z1 pcp1, __free_pages p o pcp z = Ret (z1, pcp1))
  /\ (exists z1 pcp1, drain_pages_zone pcp z = Ret (z1, pcp1) /\ count pcp1 = 0)
  /\ (forall p, mine id z p -> exists z1, reserve_highatomic_pageblock p z = Ret z1).
Proof.
  intros [S1 S2 S3 S4 S5 S6]. cbn [sys_zone sys_pcp sys_own] in *. split_and!.
  - intros order mt af Hmt. destruct (rmqueue_alloc_ok id order mt af pcp z S1 S2 Hmt) as (z1&pcp1&r&lost&E&Ha&_&Hh&Hex&_).
    exists z1, pcp1, r. split; [done|]. destruct r as [p|]; [|intros [Hhe|?]; (apply Hex; [done|]); [left; by apply Hh|by right]].
    destruct (al_block _ _ _ _ _ _ _ _ Ha p eq_refl) as (_&_&Hm). destruct (hook_ok id p z1) as (z2&E2&_); [apply Ha| |by exists z2].
    apply (al_out _ _ _ _ _ _ _ _ Ha p); [by apply Hm, inside_self|]. right. left. exists p. split; [done|apply inside_self].
  - intros p o Hp. destruct (S4 p o Hp) as [Ho Hal]. destruct (S5 p o p Hp (inside_self p o)) as [[(pg&Epg&_) _] _].
    destruct (free_pages_ok id p o pcp z pg S1 S2 Ho Hal) as (z1&pcp1&_&_&E&_); [intros x Hx; by apply (S5 p o)|done|by exists z1, pcp1].
  - destruct (drain_ok id pcp z S1 S2) as (z1&pcp1&_&E&_&_&Hc). by exists z1, pcp1.
  - intros p Hp. destruct (reserve_ok id p z S1 Hp) as (z1&E&_). by exists z1.
Qed.

(** C25: The watermark check for a block of more than one page is sound: in a zone without bad
    pages, if it says that the allocation can go ahead, then [rmqueue] with the same flags
    returns a block; the flags must not have ALLOC_OOM without ALLOC_HARDER. *)
Theorem watermark_sound z pcp order mark ci af fp mt :
  inv id z -> pcp_ok id z pcp -> healthy id z pcp -> (mt < MIGRATE_PCPTYPES)%nat -> (0 < order)%nat ->
  (Z.land af ALLOC_OOM <> 0 -> Z.land af ALLOC_HARDER <> 0) ->
  __zone_watermark_ok z order mark ci af fp = Ret true ->
  exists z1 pcp1 p, rmqueue order mt af pcp z = Ret (z1, pcp1, Some p).
Proof.
  intros Hinv Hok Hh Hmt Ho Hfl E. destruct (watermark_suitable id z order mark ci af fp (proj1 (proj2 Hinv)) Ho E) as (o&f&q&Hle&Hf&Hon).
  destruct (rmqueue_alloc_ok id order mt af pcp z Hinv Hok Hmt) as (z1&pcp1&r&lost&E1&_&_&Hhe&Hex&Hsame).
  exists z1, pcp1. destruct r as [p|]; [by exists p|]. destruct (Hhe Hh) as [-> _]. specialize (Hex eq_refl (or_introl eq_refl)). rewrite (Hsame eq_refl eq_refl Ho) in Hex.
  exfalso. apply (Hex o f q Hle); [|done]. destruct Hf as [Hf|[Hf ->]]; [by left|right]. split; [|done].
  rewrite (proj2 (Nat.ltb_lt 0 order) Ho). cbn [andb]. rewrite negb_true_iff, Z.eqb_neq in *. intros E0. rewrite Z.land_lor_distr_r, E0, Z.lor_0_l in Hf.
  by apply Hfl in Hf.
Qed.
End Runs.

(** * Instances *)

Definition freed_zone : zone := match __free_pages 0 10 boot_pcp boot_zone with Ret (z, _) => z | _ => boot_zone end.
Lemma freed_eq : __free_pages 0 10 boot_pcp boot_zone = Ret (freed_zone, boot_pcp).
Proof.
  assert (E : match __free_pages 0 10 boot_pcp boot_zone with Ret (_, pcp) => Some pcp | _ => None end = Some boot_pcp) by by vm_compute.
  unfold freed_zone. destruct (__free_pages 0 10 boot_pcp boot_zone) as [[z pcp]| |]; try done. congruence.
Qed.
Lemma freed_step polite : sys_step 0 polite boot_system (mkSystem freed_zone boot_pcp []).
Proof.
  apply (step_free 0 polite 0 10 (with_refcount 1 boot_page) boot_zone boot_pcp [(0, 10%nat)] freed_zone boot_pcp); [by left|done|apply freed_eq|].
  intros _ _. apply boot_returnable.
Qed.
Lemma freed_full : sys_full 0 (mkSystem freed_zone boot_pcp []).
Proof. apply (sys_step_full 0 boot_system); [apply freed_step|apply boot_full]. Qed.
Lemma freed_inv : inv 0 freed_zone.
Proof. exact (so_inv _ _ (sf_ok _ _ freed_full)). Qed.

Lemma boot_spare : spare (mine 0 boot_zone) (free 0 boot_zone) 0 10.
Proof.
  apply spare_of; [unfold MAX_ORDER; lia|split; [lia|by exists 0]|]. intros x Hx. apply (boot_outside x). unfold inside in Hx. rewrite size_10 in Hx. lia.
Qed.

Lemma free_one_page_correct_witness : exists z', __free_one_page 0 10 1 boot_zone = Ret z' /\ nr_free_pages z' = 1024.
Proof.
  destruct (free_one_page_correct 0 boot_zone 0 10 1 boot_inv boot_spare) as (z'&E&_&_&_&Hn&_); [unfold MIGRATE_TYPES; lia|].
  exists z'. split; [exact E|exact Hn].
Defined.

Lemma freed_rmqueue : match __rmqueue 3 1 freed_zone with Ret (_, r) => r | _ => None end = Some 0.
Proof. by vm_compute. Qed.
Lemma rmqueue_correct_witness : exists z', __rmqueue 3 1 freed_zone = Ret (z', Some 0) /\ inv 0 z'.
Proof.
  destruct (rmqueue_correct 0 3 1 freed_zone freed_inv) as (z'&r&E&Hr); [unfold MIGRATE_PCPTYPES; lia|].
  pose proof freed_rmqueue as Er. rewrite E in Er. cbn in Er. subst r. exists z'. split; [exact E|apply Hr].
Defined.

Lemma rmqueue_free_roundtrip_witness :
  exists z' z'', __rmqueue 3 1 freed_zone = Ret (z', Some 0) /\ __free_one_page 0 3 1 z' = Ret z''
    /\ forall q o, free 0 z'' q o <-> free 0 freed_zone q o.
Proof.
  pose proof freed_rmqueue as Er. destruct (__rmqueue 3 1 freed_zone) as [[z' r]| |] eqn:E; [|discriminate|discriminate]. cbn in Er. subst r.
  destruct (rmqueue_free_roundtrip 0 3 1 freed_zone z' 0 1 freed_inv) as (z''&E''&_&Hf); [unfold MIGRATE_PCPTYPES; lia|unfold MIGRATE_TYPES; lia|exact E|].
  exists z', z''. split; [reflexivity|]. split; [exact E''|exact Hf].
Defined.

Definition some_pcp : per_cpu_pages := mkPcp 3 6 1 [[1]; [2; 3]; []].
Lemma some_pcp_ok : pcp_ok 0 boot_zone some_pcp.
Proof.
  assert (Hc : forall p, cached some_pcp p -> p = 1 \/ p = 2 \/ p = 3).
  { intros p Hp. unfold cached in Hp. cbn in Hp. rewrite !elem_of_cons, elem_of_nil in Hp. tauto. }
  split; [done| |done| | |done|done].
  - cbn. repeat (apply NoDup_cons; split; [rewrite ?elem_of_cons, ?elem_of_nil; intuition congruence|]). apply NoDup_nil_2.
  - intros p Hp. apply (boot_outside p). apply Hc in Hp. lia.
  - intros p pg Hp. cbn [pages boot_zone]. rewrite boot_lookup. apply Hc in Hp. rewrite decide_True by lia. rewrite decide_False by lia.
    intros [= <-]. cbn. unfold MIGRATE_TYPES. lia.
Qed.
Lemma free_pcppages_bulk_correct_witness : exists z' ls, free_pcppages_bulk 2 some_pcp boot_zone = Ret (z', set_lists ls some_pcp) /\ inv 0 z'.
Proof.
  destruct (free_pcppages_bulk_correct 0 2 some_pcp boot_zone boot_inv some_pcp_ok) as (z'&ls&back&lost&E&Hi&_); [cbn; lia|].
  exists z', ls. split; [exact E|exact Hi].
Defined.

Lemma page_alloc_safe_witness : sys_ok 0 (mkSystem freed_zone boot_pcp []).
Proof. apply (page_alloc_safe 0 false boot_system); [exact (sf_ok _ _ boot_full)|]. apply rtc_once, freed_step. Defined.
Lemma page_alloc_conserves_witness : sys_full 0 (mkSystem freed_zone boot_pcp []).
Proof. apply (page_alloc_conserves 0 boot_system); [exact boot_full|]. apply rtc_once, freed_step. Defined.
Lemma page_alloc_total_witness : exists z1 pcp1, __free_pages 0 10 boot_pcp boot_zone = Ret (z1, pcp1).
Proof.
  destruct (page_alloc_total 0 boot_zone boot_pcp [(0, 10%nat)] (sf_ok _ _ boot_full)) as (_&Hfree&_). apply (Hfree 0 10%nat). by left.
Defined.
Lemma watermark_sound_witness : exists z1 pcp1 p, rmqueue 3 1 0 boot_pcp freed_zone = Ret (z1, pcp1, Some p).
Proof.
  apply (watermark_sound 0 freed_zone boot_pcp 3 100 0 0 1024 1).
  - exact freed_inv.
  - exact (so_pcp _ _ (sf_ok _ _ freed_full)).
  - exact (sf_healthy _ _ freed_full).
  - unfold MIGRATE_PCPTYPES. lia.
  - lia.
  - intros H. exact H.
  - vm_compute. reflexivity.
Defined.

(** * What the counters and the watermark check miss *)

(** Two blocks of order 1 are free, and a page of the one that is tried first has a flag that it
    should not have.  [rmqueue] takes both blocks and returns the second, but subtracts only
    one of them from [NR_FREE_PAGES]. *)
Example rmqueue_bad_block_not_subtracted :
  (let* z := __free_one_page 0 1 MIGRATE_MOVABLE boot_zone in
   let* z := __free_one_page 4 1 MIGRATE_MOVABLE z in
   let* z := update_page (with_flags 1) 5 z in
   let* z := update_page (with_refcount 0) 0 z in
   let* (z, _, r) := rmqueue 1 MIGRATE_MOVABLE 0 boot_pcp z in
   Ret (nr_free_pages z, nr_free_set 0 z, r)) = Ret (2, 0, Some 0).
Proof. by vm_compute. Qed.

(** The only free block is reserved for atomic allocations.  With ALLOC_OOM the watermark check
    accepts it, but [rmqueue] looks at such blocks only with ALLOC_HARDER. *)
Example watermark_oom_mismatch :
  (let* z := __free_one_page 0 3 MIGRATE_HIGHATOMIC boot_zone in
   let* ok := __zone_watermark_ok z 3 0 0 ALLOC_OOM (nr_free_pages z) in
   let* (_, _, r) := rmqueue 3 MIGRATE_MOVABLE ALLOC_OOM boot_pcp z in
   Ret (ok, r)) = Ret (true, None).
Proof. by vm_compute. Qed.
