(* ===== verification/PageGet.v ===== *)
(** Allocation of pages from the zone: get_page_from_freelist, and compound pages.

    The zonelist has one zone.  The watermarks of the zone and the addresses of the page
    structures are arguments.  Without CONFIG_NUMA and CONFIG_CPUSETS the checks for cpusets
    and node_reclaim are constant, and a zone below its watermark is skipped.  The request is not
    one of the page cache for writing, so [spread_dirty_pages] is not set.  The contents of pages
    are not part of a zone: clearing them for __GFP_ZERO is in [Slob.slob_new_pages]. *)

From S2P Require Import Prelude Buddy PageAlloc.

Definition ALLOC_WMARK_LOW : Z := 1.
Definition ALLOC_NO_WATERMARKS : Z := 0x04.
Definition ALLOC_WMARK_MASK : Z := ALLOC_NO_WATERMARKS - 1.
Definition COMPOUND_PAGE_DTOR : nat := 1.
Definition TAIL_MAPPING : Z := 0xdead000000000400.

(** * Compound pages *)

Definition set_compound_page_dtor (p : Z) (dtor : nat) (z : zone) : res zone :=
  update_page (fun pg => mkPage (zone_id pg) (_mapcount pg) (private pg) (index pg) (mapping pg) (_refcount pg) (flags pg) (compound_head pg)
    dtor (_compound_order pg)) (p + 1) z.
Definition set_compound_order (p : Z) (order : nat) (z : zone) : res zone :=
  update_page (fun pg => mkPage (zone_id pg) (_mapcount pg) (private pg) (index pg) (mapping pg) (_refcount pg) (flags pg) (compound_head pg)
    (_compound_dtor pg) order) (p + 1) z.
Definition PageHead (pg : page) : bool := Z.testbit (flags pg) PG_head.
Definition compound_order (p : Z) (z : zone) : res nat :=
  let* pg := page_at z p in
  if negb (PageHead pg) then Ret 0%nat
  else
    let* tail := page_at z (p + 1) in
    Ret (_compound_order tail).
Definition __SetPageHead (p : Z) (z : zone) : res zone := update_page (fun pg => with_flags (Z.setbit (flags pg) PG_head) pg) p z.
(** compound_mapcount is the low half of mapping. *)
Definition set_compound_mapcount (v : Z) (pg : page) : page :=
  with_mapping (Z.lor (Z.shiftl (Z.shiftr (mapping pg) 32) 32) (w32 v)) pg.

Section PageGet.
Context (mem_map : Z -> Z) (watermark : list Z).

(** for (i = 1; i < nr_pages; i++): the [n] pages from [q] on *)
Fixpoint prep_tails (n : nat) (p q : Z) (z : zone) : res zone :=
  match n with
  | O => Ret z
  | S n' =>
      let* z := update_page (fun pg => with_compound_head (mem_map p + 1) (with_mapping TAIL_MAPPING (with_refcount 0 pg))) q z in
      prep_tails n' p (q + 1) z
  end.
Definition prep_compound_page (p : Z) (order : nat) (z : zone) : res zone :=
  let* z := set_compound_page_dtor p COMPOUND_PAGE_DTOR z in
  let* z := set_compound_order p order z in
  let* z := __SetPageHead p z in
  let* z := prep_tails (2 ^ order - 1) p (p + 1) z in
  update_page (set_compound_mapcount (-1)) (p + 1) z.

(** * Allocation *)

Definition set_page_pfmemalloc (p : Z) (z : zone) : res zone := update_page (with_index (Z.to_nat (w64 (-1)))) p z.
Definition clear_page_pfmemalloc (p : Z) (z : zone) : res zone := update_page (with_index 0) p z.
(** [comp] is __GFP_COMP. *)
Definition prep_new_page (p : Z) (order : nat) (comp : bool) (alloc_flags : Z) (z : zone) : res zone :=
  let* z := post_alloc_hook p z in
  let* z := if negb (order =? 0)%nat && comp then prep_compound_page p order z else Ret z in
  if negb (Z.land alloc_flags ALLOC_NO_WATERMARKS =? 0) then set_page_pfmemalloc p z else clear_page_pfmemalloc p z.

Definition mark_at (alloc_flags : Z) : res Z :=
  match watermark !! Z.to_nat (Z.land alloc_flags ALLOC_WMARK_MASK) with Some m => Ret m | None => BUG end.
Definition get_page_from_freelist (order : nat) (comp : bool) (alloc_flags : Z) (classzone_idx mt : nat) (pcp : per_cpu_pages) (z : zone) :
    res (zone * per_cpu_pages * option Z) :=
  let* mark := mark_at alloc_flags in
  let* ok := zone_watermark_fast z order mark classzone_idx alloc_flags in
  if negb ok && (Z.land alloc_flags ALLOC_NO_WATERMARKS =? 0) then Ret (z, pcp, None)
  else
    let* (z, pcp, r) := rmqueue order mt alloc_flags pcp z in
    match r with
    | None => Ret (z, pcp, None)
    | Some p =>
        let* z := prep_new_page p order comp alloc_flags z in
        let* z := if negb (order =? 0)%nat && negb (Z.land alloc_flags ALLOC_HARDER =? 0) then reserve_highatomic_pageblock p z else Ret z in
        Ret (z, pcp, Some p)
    end.
End PageGet.
