(* ===== verification/PageGetFacts.v ===== *)
(** Allocating pages keeps the state of the allocator, and the block can be freed again. *)

From stdpp Require Import gmap relations.
From S2P Require Import Prelude Buddy BuddyBlocks BuddyFacts BuddyOps BuddyFallback PageAlloc PageAllocFacts PageAllocPcp PageAllocFree PageAllocOps PageAllocSystem PageGet.

Section Get.
Context (id : Z) (mem_map : Z -> Z) (watermark : list Z).
#[local] Notation mine := (mine id).
#[local] Notation inv := (inv id).
#[local] Notation idle := (idle id).
#[local] Notation quiet := (quiet id).
#[local] Notation outside := (outside id).
#[local] Notation sys_full := (sys_full id).

(** * Compound pages *)

(** What a tail page needs to be freed; the other fields are reset then. *)
Definition plain (pg : page) : Prop := _mapcount pg = -1 /\ w64 (_refcount pg) = 0 /\ Z.land (flags pg) PAGE_FLAGS_CHECK_AT_PREP = 0.
Definition plain_at (z : zone) (x : Z) : Prop := exists pg, pages z !! x = Some pg /\ plain pg.
(** A step that writes pages of the block only. *)
Record wrote (p : Z) (o : nat) (z z' : zone) : Prop := {
  w_quiet : quiet (inside p o) z z';
  w_plain : forall x, x <> p -> plain_at z x -> plain_at z' x;
}.
Lemma wrote_refl p o z : inv z -> wrote p o z z.
Proof. intros Hinv. split; [by apply quiet_refl|done]. Qed.
Lemma wrote_twice p o z1 z2 z3 : wrote p o z1 z2 -> wrote p o z2 z3 -> wrote p o z1 z3.
Proof. intros [A1 A2] [B1 B2]. split; [by eapply quiet_trans|auto]. Qed.
Lemma wrote_idle p o z z' x : wrote p o z z' -> idle z x -> idle z' x.
Proof. intros [Hq _] Hx. by apply (quiet_idle id _ z z' x Hq). Qed.
Lemma wrote_inv p o z z' : wrote p o z z' -> inv z'.
Proof. intros [Hq _]. apply Hq. Qed.
(** One page of the block is updated; its head may also get fields that a free page has not. *)
Lemma write_ok f p o q z :
  inv z -> inside p o q -> idle z q ->
  (forall pg, zone_id (f pg) = zone_id pg /\ _mapcount (f pg) = _mapcount pg) -> (q <> p -> forall pg, plain pg -> plain (f pg)) ->
  exists z', update_page f q z = Ret z' /\ wrote p o z z' /\ pages z' !! q = f <$> pages z !! q /\ forall x, x <> q -> pages z' !! x = pages z !! x.
Proof.
  intros Hinv Hin Hq Hf Hp. destruct (update_page_ok id f q z Hinv Hq) as (z'&E&Hqu&Ep).
  { intros pg. apply Hf. }
  { intros pg. unfold PageBuddy. by rewrite (proj2 (Hf pg)). }
  exists z'. assert (Ho : forall x, x <> q -> pages z' !! x = pages z !! x) by (intros x Hx; apply (q_pages _ _ _ _ Hqu); congruence).
  split_and!; try done. split; [eapply quiet_weaken; [|exact Hqu]; by intros x <-|].
  intros x Hx (pg&Ex&Hpl). destruct (decide (x = q)) as [->|Hne].
  - exists (f pg). rewrite Ep, Ex. split; [done|]. by apply Hp.
  - exists pg. by rewrite Ho.
Qed.

Lemma prep_tails_ok p o n : forall q z,
  inv z -> (forall x, range q n x -> inside p o x /\ x <> p /\ idle z x) ->
  exists z', prep_tails mem_map n p q z = Ret z' /\ wrote p o z z' /\ (forall x, ~ range q n x -> pages z' !! x = pages z !! x)
    /\ forall x, _compound_order <$> pages z' !! x = _compound_order <$> pages z !! x.
Proof.
  induction n as [|n IH]; intros q z Hinv Hx; cbn [prep_tails]; [exists z; split_and!; [done|by apply wrote_refl|done|done]|].
  destruct (Hx q) as (Hin&Hne&Hi); [unfold range; lia|].
  destruct (write_ok (fun pg => with_compound_head (mem_map p + 1) (with_mapping TAIL_MAPPING (with_refcount 0 pg))) p o q z Hinv Hin Hi) as (z1&->&Hw&E1&E2);
    [done|unfold plain; cbn; tauto|]. cbn [res_bind].
  destruct (IH (q + 1) z1 (wrote_inv _ _ _ _ Hw)) as (z'&->&Hw'&E3&E4).
  { intros x Hr. destruct (Hx x) as (?&?&?); [unfold range in *; lia|]. split_and!; try done. by apply (wrote_idle p o z). }
  exists z'. split_and!; [done|by eapply wrote_twice| |].
  - intros x Hr. rewrite E3; [apply E2; unfold range in Hr; lia|unfold range in *; lia].
  - intros x. rewrite E4. destruct (decide (x = q)) as [->|]; [|by rewrite E2]. rewrite E1. by destruct (pages z !! q).
Qed.

Lemma size_two o : (0 < o)%nat -> 2 <= size o.
Proof. intros Ho. destruct o as [|o]; [lia|]. rewrite size_S. pose proof (size_pos o). lia. Qed.
Lemma prep_compound_page_ok p o z :
  inv z -> (0 < o)%nat -> (forall x, inside p o x -> idle z x) ->
  exists z' t, prep_compound_page mem_map p o z = Ret z' /\ wrote p o z z'
    /\ pages z' !! p = (fun pg => with_flags (Z.setbit (flags pg) PG_head) pg) <$> pages z !! p
    /\ pages z' !! (p + 1) = Some t /\ _compound_order t = o.
Proof.
  intros Hinv Ho Hx. pose proof (size_two o Ho) as Hn.
  assert (Hp1 : inside p o (p + 1)) by (unfold inside; lia). pose proof (inside_self p o) as Hp0. unfold prep_compound_page.
  destruct (write_ok (fun pg => mkPage (zone_id pg) (_mapcount pg) (private pg) (index pg) (mapping pg) (_refcount pg) (flags pg) (compound_head pg)
    COMPOUND_PAGE_DTOR (_compound_order pg)) p o (p + 1) z Hinv Hp1 (Hx _ Hp1)) as (z1&Ez1&W1&A1&B1); [done|by intros _ pg|].
  unfold set_compound_page_dtor. rewrite Ez1. cbn [res_bind]. pose proof (wrote_idle _ _ _ _ _ W1 (Hx _ Hp1)) as Hi1.
  destruct (write_ok (fun pg => mkPage (zone_id pg) (_mapcount pg) (private pg) (index pg) (mapping pg) (_refcount pg) (flags pg) (compound_head pg)
    (_compound_dtor pg) o) p o (p + 1) z1 (wrote_inv _ _ _ _ W1) Hp1 Hi1) as (z2&Ez2&W2&A2&B2); [done|by intros _ pg|].
  unfold set_compound_order. rewrite Ez2. cbn [res_bind]. pose proof (wrote_twice _ _ _ _ _ W1 W2) as W12.
  destruct (write_ok (fun pg => with_flags (Z.setbit (flags pg) PG_head) pg) p o p z2 (wrote_inv _ _ _ _ W2) Hp0 (wrote_idle _ _ _ _ _ W12 (Hx _ Hp0))) as (z3&Ez3&W3&A3&B3);
    [done|done|]. unfold __SetPageHead. rewrite Ez3. cbn [res_bind]. pose proof (wrote_twice _ _ _ _ _ W12 W3) as W13.
  destruct (prep_tails_ok p o (2 ^ o - 1) (p + 1) z3 (wrote_inv _ _ _ _ W3)) as (z4&Ez4&W4&A4&B4).
  { intros x Hr. assert (Hin : inside p o x) by (apply range_inside; unfold range in *; lia). split_and!; [done|unfold range in Hr; lia|].
    by apply (wrote_idle p o z), Hx. }
  rewrite Ez4. cbn [res_bind]. pose proof (wrote_twice _ _ _ _ _ W13 W4) as W14.
  destruct (write_ok (set_compound_mapcount (-1)) p o (p + 1) z4 (wrote_inv _ _ _ _ W4) Hp1 (wrote_idle _ _ _ _ _ W14 (Hx _ Hp1))) as (z5&Ez5&W5&A5&B5); [done|by intros _ pg|].
  rewrite Ez5. exists z5. destruct (Hx _ Hp1) as [(t0&Et0&_) _].
  assert (Et : _compound_order <$> pages z5 !! (p + 1) = Some o).
  { rewrite A5. rewrite <- option_fmap_compose. change (_compound_order ∘ set_compound_mapcount (-1)) with _compound_order.
    rewrite B4, B3, A2, A1, Et0 by lia. done. }
  destruct (pages z5 !! (p + 1)) as [t|] eqn:E5; [|done]. injection Et as Et. exists t. split_and!; try done.
  - by eapply wrote_twice.
  - rewrite B5, A4, A3, B2, B1 by (unfold range; lia). done.
Qed.

(** * New pages *)

Lemma good_plain z x pg : idle z x -> good z x -> pages z !! x = Some pg -> plain pg /\ mapping pg = 0.
Proof.
  intros Hi (pg'&E'&Hm&E1&E2&E3) E. replace pg' with pg in * by congruence. pose proof (idle_not_buddy id z x pg Hi E) as Hb.
  destruct Hm as [Hm|Hm]; [done|congruence].
Qed.
Lemma prep_free fl : Z.land fl PAGE_FLAGS_CHECK_AT_PREP = 0 -> Z.land fl PAGE_FLAGS_CHECK_AT_FREE = 0 /\ Z.testbit fl PG_head = false.
Proof.
  intros E. split.
  - replace PAGE_FLAGS_CHECK_AT_FREE with (Z.land PAGE_FLAGS_CHECK_AT_PREP PAGE_FLAGS_CHECK_AT_FREE) by reflexivity. by rewrite Z.land_assoc, E.
  - assert (H : Z.testbit (Z.land fl PAGE_FLAGS_CHECK_AT_PREP) PG_head = false) by (by rewrite E, Z.testbit_0_l).
    rewrite Z.land_spec in H. change (Z.testbit PAGE_FLAGS_CHECK_AT_PREP PG_head) with true in H. by rewrite andb_true_r in H.
Qed.
Lemma head_flag fl : Z.land (Z.setbit fl PG_head) PAGE_FLAGS_CHECK_AT_FREE = Z.land fl PAGE_FLAGS_CHECK_AT_FREE /\ Z.testbit (Z.setbit fl PG_head) PG_head = true.
Proof.
  split; [|by rewrite Z.setbit_eq]. unfold Z.setbit. rewrite Z.land_lor_distr_l.
  change (Z.land (Z.shiftl 1 PG_head) PAGE_FLAGS_CHECK_AT_FREE) with 0. by rewrite Z.lor_0_r.
Qed.

(** The head of a new block: one reference, and the mark of a compound page. *)
Lemma head_returnable z p o pg comp :
  plain pg -> mapping pg = 0 -> forall pr ix, 
  let pg' := with_index ix (if comp : bool then with_flags (Z.setbit (flags pg) PG_head) (with_refcount 1 (with_private pr pg)) else with_refcount 1 (with_private pr pg)) in
  pages z !! p = Some pg' ->
  (forall x, inside p o x -> x <> p -> if comp then plain_at z x else exists pgx, pages z !! x = Some pgx /\ plain pgx /\ mapping pgx = 0) ->
  returnable z p o /\ PageHead pg' = comp.
Proof.
  intros (P1&P2&P3) Hm pr ix pg' Epg Ht. destruct (prep_free _ P3) as [F1 F2]. destruct (head_flag (flags pg)) as [F3 F4].
  assert (Hh : PageHead pg' = comp) by (unfold pg', PageHead; by destruct comp). split; [|done]. split.
  - exists pg'. split; [done|]. split; [by unfold pg'; destruct comp|].
    assert (PageMappingFlags pg' = false) as -> by (unfold pg', PageMappingFlags; destruct comp; cbn; by rewrite Hm).
    apply expected_fields. unfold pg'. destruct comp; (split_and!; [exact P1|exact Hm|reflexivity|]); [exact (eq_trans F3 F1)|exact F1].
  - intros pg1 x E1 Hx Hne. replace pg1 with pg' in * by congruence. unfold clean_tail. specialize (Ht x Hx Hne). destruct comp.
    + destruct Ht as (pgx&Ex&Q1&Q2&Q3). exists pgx. split; [done|]. unfold PageCompound. unfold PageHead in Hh. rewrite Hh. cbn [orb].
      apply expected_fields. split_and!; [exact Q1|reflexivity|exact Q2|]. by destruct (prep_free _ Q3).
    + destruct Ht as (pgx&Ex&(Q1&Q2&Q3)&Q4). exists pgx. split; [done|]. destruct (prep_free _ Q3).
      by destruct (PageCompound pg'); apply expected_fields.
Qed.

Lemma prep_new_page_ok p o comp af z :
  inv z -> (forall x, inside p o x -> idle z x /\ good z x) ->
  exists z', prep_new_page mem_map p o comp af z = Ret z' /\ wrote p o z z' /\ returnable z' p o
    /\ (forall pg, pages z' !! p = Some pg -> PageHead pg = negb (o =? 0)%nat && comp) /\ compound_order p z' = Ret (if comp then o else 0%nat).
Proof.
  intros Hinv Hx. pose proof (inside_self p o) as Hp0. destruct (Hx p Hp0) as [Hi Hg]. pose proof Hi as [(pg&Epg&_) _].
  destruct (good_plain z p pg Hi Hg Epg) as [Hpl Hm]. unfold prep_new_page, post_alloc_hook.
  destruct (write_ok (fun pg => with_refcount 1 (with_private 0 pg)) p o p z Hinv Hp0 Hi) as (z1&->&W1&A1&B1); [done|done|]. cbn [res_bind].
  rewrite Epg in A1. cbn [fmap option_fmap option_map] in A1. set (c := negb (o =? 0)%nat && comp).
  assert (exists z2, (if c then prep_compound_page mem_map p o z1 else Ret z1) = Ret z2 /\ wrote p o z1 z2
    /\ pages z2 !! p = Some (if c then with_flags (Z.setbit (flags pg) PG_head) (with_refcount 1 (with_private 0 pg)) else with_refcount 1 (with_private 0 pg))
    /\ (c = false -> z2 = z1) /\ (c = true -> exists t, pages z2 !! (p + 1) = Some t /\ _compound_order t = o)) as (z2&->&W2&A2&B2&C2).
  { destruct c eqn:Ec; [|exists z1; split_and!; [done|apply wrote_refl, W1|done|done|done]].
    apply andb_true_iff in Ec as [Ho _]. destruct (Nat.eqb_spec o 0); [done|].
    destruct (prep_compound_page_ok p o z1 (wrote_inv _ _ _ _ W1)) as (z2&t&E&W&A&B); [lia|intros x Hin; apply (wrote_idle p o z); [done|by apply Hx]|].
    exists z2. rewrite A1 in A. split_and!; try done. intros _. by exists t. }
  cbn [res_bind]. pose proof (wrote_twice _ _ _ _ _ W1 W2) as W12. pose proof (wrote_idle _ _ _ _ _ W12 Hi) as Hi2.
  set (ix := if negb (Z.land af ALLOC_NO_WATERMARKS =? 0) then Z.to_nat (w64 (-1)) else 0%nat).
  destruct (write_ok (with_index ix) p o p z2 (wrote_inv _ _ _ _ W2) Hp0 Hi2) as (z3&E3&W3&A3&B3); [done|done|].
  exists z3. split; [rewrite <- E3; unfold set_page_pfmemalloc, clear_page_pfmemalloc, ix; by destruct (negb (Z.land af ALLOC_NO_WATERMARKS =? 0))|]. split; [by eapply wrote_twice|].
  rewrite A2 in A3. destruct (head_returnable z3 p o pg c Hpl Hm 0%nat ix A3) as [Hr Hh].
  { intros x Hin Hne. destruct (Hx x Hin) as [Hix Hgx]. pose proof Hix as [(pgx&Ex&_) _]. destruct (good_plain z x pgx Hix Hgx Ex) as [Hpx Hmx].
    destruct c.
    - apply (w_plain _ _ _ _ W3), (w_plain _ _ _ _ W12); [done|done|]. by exists pgx.
    - exists pgx. rewrite B3, (B2 eq_refl), B1 by done. done. }
  split; [done|]. split; [intros pg' E'; rewrite A3 in E'; by injection E' as <-|]. unfold compound_order, page_at. rewrite A3. cbn [res_bind fmap option_fmap option_map]. unfold fmap, option_fmap, option_map. 
  rewrite Hh. unfold c in *. destruct (Nat.eqb_spec o 0) as [->|Ho]; cbn [negb andb] in *; [by destruct comp|]. destruct comp; [|done].
  destruct (C2 eq_refl) as (t&Et&Eo). cbn [negb]. rewrite B3, Et by lia. cbn [res_bind]. by rewrite Eo.
Qed.

(** * Allocation *)

Lemma watermark_total z order mark ci af :
  inv z -> (ci < length (lowmem_reserve z))%nat -> exists b, zone_watermark_fast z order mark ci af = Ret b.
Proof.
  intros (_&Hl&_) Hci. destruct (lookup_lt_is_Some_2 _ _ Hci) as [rv Er]. unfold zone_watermark_fast, __zone_watermark_ok, reserve_at. rewrite Er.
  cbn [res_bind]. destruct (_ && _); [by exists true|]. destruct (if negb _ then _ else _) as [fp mn]. destruct (_ <=? _); [by exists false|].
  destruct (order =? 0)%nat; [by exists true|]. destruct (decide (order <= MAX_ORDER)%nat) as [Ho|Ho].
  - destruct (suitable_loop_ok id (negb (Z.land af (Z.lor ALLOC_HARDER ALLOC_OOM) =? 0)) z Hl (MAX_ORDER - order) order ltac:(lia)) as (b&E&_). by exists b.
  - replace (MAX_ORDER - order)%nat with 0%nat by lia. by exists false.
Qed.

Lemma relisted_full z z' pcp own : relisted id z z' -> sys_full (mkSystem z pcp own) -> sys_full (mkSystem z' pcp own).
Proof.
  intros Hr Hf. pose proof Hf as [Hok Hc Hh _]. pose proof Hr as (Hi&Hs&_). cbn [sys_zone sys_pcp] in *.
  apply (sys_full_frame id z pcp own); try done.
  - apply (sys_ok_frame id z pcp own); [done|done|by apply (relisted_pcp id z), (so_pcp _ _ Hok)|]. intros x Hx. by apply (relisted_outside id z z').
  - apply Hs.
  - by apply (relisted_counted id z).
  - by apply (relisted_healthy id z).
  - intros x _. by apply (relisted_outside id z z').
Qed.

(** The blocks that were handed out keep their page structures. *)
Definition spared (z : zone) (pcp : per_cpu_pages) (z' : zone) : Prop := forall x, outside z pcp x -> pages z' !! x = pages z !! x.
Definition new_block (own : list (Z * nat)) (order : nat) (comp : bool) (z : zone) (pcp : per_cpu_pages) (p : Z) : Prop :=
  sys_full (mkSystem z pcp ((p, order) :: own)) /\ (p, order) ∉ own /\ returnable z p order
  /\ (forall pg, pages z !! p = Some pg -> PageHead pg = negb (order =? 0)%nat && comp) /\ compound_order p z = Ret (if comp then order else 0%nat).

Lemma new_block_ok z pcp own z1 pcp1 p order comp af :
  sys_full (mkSystem z pcp own) -> allocated id z z1 pcp pcp1 order (Some p) [] -> counted id z1 -> healthy id z1 pcp1 ->
  exists z2, prep_new_page mem_map p order comp af z1 = Ret z2 /\ new_block own order comp z2 pcp1 p /\ spared z pcp z2 /\ same_span z z2.
Proof.
  intros Hf Ha Hc Hh. pose proof Hf as [Hok Hc0 Hh0 _]. cbn [sys_zone sys_pcp] in *. pose proof (fun x => allocated_outside id _ _ _ _ _ _ _ x Ha) as Hout.
  assert (Hg : forall x, inside p order x -> good z1 x).
  { intros x Hx. apply (good_kept z z1 x (al_kept _ _ _ _ _ _ _ _ Ha)), Hh0.
    destruct (al_block _ _ _ _ _ _ _ _ Ha p eq_refl) as (_&_&Hm). specialize (Hm x Hx).
    pose proof (al_new _ _ _ _ _ _ _ _ Ha p x (or_introl eq_refl) Hx) as Hn.
    destruct (decide (x ∈ free_set id z)) as [Hfr|Hfr]; rewrite elem_of_free_set in Hfr; [by left|right].
    destruct (decide (x ∈ mjoin (lists pcp))) as [|Hnc]; [done|]. destruct Hn. split; [by split|done]. }
  destruct (prep_new_page_ok p order comp af z1 (al_inv _ _ _ _ _ _ _ _ Ha)) as (z2&E&Hw&Hr&Hhd&Hco); [intros x Hx; split; [by apply Hout|by apply Hg]|].
  pose proof (w_quiet _ _ _ _ Hw) as Hq. pose proof (alloc_step_ok id z pcp own z1 pcp1 p order [] z2 Hok Ha Hq) as Hok2.
  exists z2. split; [done|]. split_and!.
  - split_and!; [by apply (alloc_full id z pcp own z1)| |done|done|done]. pose proof (so_nodup _ _ Hok2) as Hnd. by apply NoDup_cons in Hnd as [? _].
  - intros x Hx. rewrite (q_pages _ _ _ _ Hq); [by apply (al_touch _ _ _ _ _ _ _ _ Ha)|]. intros Hin.
    by apply (al_new _ _ _ _ _ _ _ _ Ha p x (or_introl eq_refl) Hin).
  - eapply same_span_trans; [apply Ha|apply Hq].
Qed.

Lemma get_page_ok order comp af ci mt pcp z own mark :
  sys_full (mkSystem z pcp own) -> (mt < MIGRATE_PCPTYPES)%nat -> (ci < length (lowmem_reserve z))%nat -> mark_at watermark af = Ret mark ->
  exists z' pcp' r, get_page_from_freelist mem_map watermark order comp af ci mt pcp z = Ret (z', pcp', r) /\ spared z pcp z' /\ same_span z z'
    /\ match r with None => sys_full (mkSystem z' pcp' own) | Some p => new_block own order comp z' pcp' p end.
Proof.
  intros Hf Hmt Hci Hmk. pose proof Hf as [Hok Hc Hh _]. pose proof (so_inv _ _ Hok) as Hinv. pose proof (so_pcp _ _ Hok) as Hpcp. cbn [sys_zone sys_pcp] in *.
  unfold get_page_from_freelist. rewrite Hmk. cbn [res_bind]. destruct (watermark_total z order mark ci af Hinv Hci) as (b&->). cbn [res_bind].
  destruct (negb b && _); [exists z, pcp, None; split_and!; [done|by intros x _|apply same_span_refl|done]|].
  destruct (rmqueue_alloc_ok id order mt af pcp z Hinv Hpcp Hmt) as (z1&pcp1&r&lost&->&Ha&Hcnt&Hhe&_). cbn [res_bind].
  destruct (Hhe Hh) as [-> Hh1]. specialize (Hcnt (or_intror eq_refl) Hc). destruct r as [p|].
  - destruct (new_block_ok z pcp own z1 pcp1 p order comp af Hf Ha Hcnt Hh1) as (z2&->&(N1&N2&N3&N4&N5)&Hs&Hsp). cbn [res_bind].
    destruct (negb _ && negb _).
    + destruct (al_block _ _ _ _ _ _ _ _ Ha p eq_refl) as (_&_&Hm).
      assert (Hm2 : mine z2 p) by (apply (same_span_mine id z z2 p Hsp), Hm, inside_self).
      destruct (reserve_ok id p z2 (so_inv _ _ (sf_ok _ _ N1)) Hm2) as (z3&->&Hr). cbn [res_bind]. pose proof Hr as (_&Hz&Ep&_).
      exists z3, pcp1, (Some p). split; [done|]. split; [intros x Hx; rewrite Ep; by apply Hs|]. split; [eapply same_span_trans; [done|apply Hz]|].
      split_and!; [by apply (relisted_full z2)|done| |by rewrite Ep|].
      * destruct N3 as [(pg&E&H1) H2]. split; [exists pg; by rewrite Ep|]. intros pg' x E' Hx Hne. rewrite Ep in E'.
        destruct (H2 pg' x E' Hx Hne) as (pgx&Ex&Hex). exists pgx. by rewrite Ep.
      * unfold compound_order, page_at in *. by rewrite Ep.
    + cbn [res_bind]. by exists z2, pcp1, (Some p).
  - exists z1, pcp1, None. split; [done|]. split; [intros x Hx; by apply (al_touch _ _ _ _ _ _ _ _ Ha)|]. split; [apply Ha|].
    apply (sys_full_frame id z pcp own); try done; [|apply Ha|].
    + apply (sys_ok_frame id z pcp own); [done|apply Ha|apply Ha|]. intros x Hx. apply (al_out _ _ _ _ _ _ _ _ Ha); [apply Hx|by left].
    + intros x Hx. rewrite (al_out _ _ _ _ _ _ _ _ Ha x Hx). setoid_rewrite elem_of_nil. naive_solver.
Qed.

(** * Freeing *)

Lemma free_pages_full z pcp own p o :
  sys_full (mkSystem z pcp own) -> (p, o) ∈ own -> returnable z p o ->
  exists z' pcp', __free_pages p o pcp z = Ret (z', pcp') /\ sys_full (mkSystem z' pcp' (filter (fun b => b <> (p, o)) own)) /\ same_span z z'
    /\ forall x, outside z pcp x -> ~ inside p o x -> pages z' !! x = pages z !! x.
Proof.
  intros Hf Hp Hr. pose proof Hf as [Hok Hc Hh _]. pose proof (so_inv _ _ Hok) as Hinv. pose proof (so_pcp _ _ Hok) as Hpcp. cbn [sys_zone sys_pcp] in *.
  destruct (so_block _ _ Hok p o Hp) as [Ho Hal]. pose proof Hr as [(pg&Epg&_) _].
  destruct (free_pages_ok id p o pcp z pg Hinv Hpcp Ho Hal) as (z'&pcp'&back&lost&E&Hrel&_&_&Hy); [intros x Hx; by apply (so_out _ _ Hok p o)|done|].
  destruct (Hy Hr Hh) as (->&->&Hh'). exists z', pcp'. split; [done|]. split_and!; [by apply (free_full id z pcp own)|apply Hrel|].
  intros x Hx Hni. by apply (f_touch _ _ _ _ _ _ _ _ Hrel).
Qed.
End Get.
