(* ===== verification/PageGetSpec.v ===== *)
(** Properties of get_page_from_freelist, with their witnesses. *)

From stdpp Require Import gmap relations.
From S2P Require Import Prelude Buddy BuddyBlocks BuddyFacts PageAlloc PageAllocFacts PageAllocPcp PageAllocOps PageAllocSystem PageAllocSpec PageGet PageGetFacts.

(** C13: an allocation of [2 ^ order] pages, compound or not, in a zone where every page is free,
    cached or handed out and the counters are right: get_page_from_freelist returns, leaves the
    page structures of all blocks in use as they were, and either fails or hands out an aligned
    block that overlaps nothing in use, with one reference, whose compound_order is [order] for
    a compound block and 0 otherwise.  Freeing the block gives all of it back: the zone is again
    one where nothing but the old blocks is in use, with exact counters. *)
Theorem get_page_free_roundtrip id mem_map watermark order comp af ci mt pcp z own mark :
  sys_full id (mkSystem z pcp own) -> (mt < MIGRATE_PCPTYPES)%nat -> (ci < length (lowmem_reserve z))%nat -> mark_at watermark af = Ret mark ->
  exists z1 pcp1 r, get_page_from_freelist mem_map watermark order comp af ci mt pcp z = Ret (z1, pcp1, r)
    /\ (forall x, outside id z pcp x -> pages z1 !! x = pages z !! x)
    /\ match r with
       | None => sys_full id (mkSystem z1 pcp1 own)
       | Some p =>
           sys_full id (mkSystem z1 pcp1 ((p, order) :: own)) /\ (p, order) ∉ own /\ compound_order p z1 = Ret (if comp then order else 0%nat)
           /\ exists z2 pcp2, __free_pages p order pcp1 z1 = Ret (z2, pcp2) /\ sys_full id (mkSystem z2 pcp2 own)
       end.
Proof.
  intros Hf Hmt Hci Hmk. destruct (get_page_ok id mem_map watermark order comp af ci mt pcp z own mark Hf Hmt Hci Hmk) as (z1&pcp1&r&E&Hs&_&Hr).
  exists z1, pcp1, r. split; [done|]. split; [done|]. destruct r as [p|]; [|done]. destruct Hr as (R1&R2&R3&_&R5). split_and!; try done.
  destruct (free_pages_full id z1 pcp1 ((p, order) :: own) p order R1) as (z2&pcp2&E2&Hf2&_); [by left|done|]. exists z2, pcp2. split; [done|].
  by rewrite filter_cons_False, filter_keep in Hf2 by (intros; congruence).
Qed.

Lemma get_page_free_roundtrip_witness :
  exists z1 pcp1 z2 pcp2 p, get_page_from_freelist (fun p => 64 * p) [0; 0; 0] 3 true ALLOC_WMARK_LOW 0 0 boot_pcp freed_zone = Ret (z1, pcp1, Some p)
    /\ compound_order p z1 = Ret 3%nat /\ __free_pages p 3 pcp1 z1 = Ret (z2, pcp2) /\ sys_full 0 (mkSystem z2 pcp2 []).
Proof.
  assert (E : match get_page_from_freelist (fun p => 64 * p) [0; 0; 0] 3 true ALLOC_WMARK_LOW 0 0 boot_pcp freed_zone with
              | Ret (_, _, Some _) => true | _ => false end = true) by (vm_compute; reflexivity).
  destruct (get_page_free_roundtrip 0 (fun p => 64 * p) [0; 0; 0] 3 true ALLOC_WMARK_LOW 0 0 boot_pcp freed_zone [] 0 freed_full) as (z1&pcp1&r&Eg&_&Hr).
  - vm_compute. lia.
  - vm_compute. lia.
  - reflexivity.
  - rewrite Eg in E. destruct r as [p|]; [|discriminate E]. destruct Hr as (_&_&Hc&z2&pcp2&Ef&Hf). exists z1, pcp1, z2, pcp2, p.
    exact (conj Eg (conj Hc (conj Ef Hf))).
Defined.
