(* ===== verification/Slob.v ===== *)
(** The SLOB allocator, mm/slob.c: kmalloc and the kmem caches of the configuration of
    minimalconfig (CONFIG_SLOB, one node).

    Memory is made of 16-bit units ([slob_t]), each named by its byte address; the kmalloc
    header, an unsigned int, is two of them.  Code that reads or writes memory runs in the
    monad [M] and stops with [BUG] at a unit that is not there.

    A page is named by its address.  [pgs] holds the fields of [struct page] that the file
    uses; [units] shares its word with [_mapcount], which is -1 in a page nobody uses.  A list
    of pages is the list of their addresses from its first entry on.

    The page allocator is what the class [PageSource] describes.  call_rcu of kernel/rcu/tiny.c is modelled
    as far as it writes to the objects that are freed.  The accounting for reclaim
    in [slob_free_pages], leak detection and traces are left out. *)

From stdpp Require Import gmap.
From S2P Require Import Prelude Mem FindBit Kfifo.

(** * Constants *)

Definition PAGE_SHIFT : Z := 12.
Definition PAGE_SIZE : Z := Z.shiftl 1 PAGE_SHIFT.
Definition PAGE_MASK : Z := w64 (Z.lnot (PAGE_SIZE - 1)).
(** Where the kernel sees the first page frame. *)
Definition PAGE_OFFSET : Z := 0xffff880000000000.
Definition page_address (frame : Z) : Z := w64 (Z.shiftl frame PAGE_SHIFT + PAGE_OFFSET).
Definition page_to_pfn (page : Z) : Z := Z.shiftr (page - PAGE_OFFSET) PAGE_SHIFT.
Definition virt_to_page (p : Z) : Z := Z.land p PAGE_MASK.

Definition SLOB_UNIT : Z := 2.
Definition SLOB_UNITS (size : Z) : Z := w64 (size + (SLOB_UNIT - 1)) / SLOB_UNIT.
Definition SLOB_BREAK1 : Z := 256.
Definition SLOB_BREAK2 : Z := 1024.
Definition ARCH_KMALLOC_MINALIGN : Z := 8.
Definition ZERO_SIZE_PTR : Z := 16.
Definition ZERO_OR_NULL_PTR (x : Z) : bool := x <=? ZERO_SIZE_PTR.
Definition ALIGN (x a : Z) : Z := Z.land (w64 (x + (a - 1))) (w64 (Z.lnot (a - 1))).
Definition s16 (z : Z) : Z := let u := z mod 65536 in if u <? 32768 then u else u - 65536.

(** * Free blocks within a page *)

Definition set_slob (s size next : Z) : M unit :=
  let base := Z.land s PAGE_MASK in
  let offset := s16 ((next - base) / SLOB_UNIT) in
  if 1 <? size then assign s (s16 size);; assign (s + SLOB_UNIT) offset
  else assign s (s16 (- offset)).
Definition slob_units (s : Z) : M Z :=
  u ← fetch s;
  mret (if 0 <? u then u else 1).
Definition slob_next (s : Z) : M Z :=
  let base := Z.land s PAGE_MASK in
  u ← fetch s;
  next ← (if u <? 0 then mret (- u) else fetch (s + SLOB_UNIT));
  mret (base + SLOB_UNIT * next).
Definition slob_last (s : Z) : M bool :=
  next ← slob_next s;
  mret (Z.land next (w64 (Z.lnot PAGE_MASK)) =? 0).

(** * The heap *)

Record slob_page := mkSlobPage {
  units : Z;
  freelist : Z;
  PageSlab : bool;
  PageSlobFree : bool;
}.
Definition unused_page : slob_page := mkSlobPage (-1) 0 false false.

(** What the page allocator does for SLOB: blocks of [2 ^ order] frames, named by the first;
    a block that was allocated with __GFP_COMP knows its order. *)
Class PageSource (S : Type) := {
  alloc_pages : bool -> nat -> S -> res (S * option Z);
  release_pages : Z -> nat -> S -> res S;
  compound_order : Z -> S -> res nat;
}.

(** The address of the code of [kmem_rcu_free], for the pointer to it in an rcu_head. *)
Class KernelText := { text_kmem_rcu_free : Z }.

Inductive slob_list := free_slob_small | free_slob_medium | free_slob_large.

Record heap (S : Type) := mkHeap {
  source : S;
  pgs : gmap Z slob_page;
  small : list Z;
  medium : list Z;
  large : list Z;
}.
#[global] Arguments mkHeap {S}.
#[global] Arguments source {S}.
#[global] Arguments pgs {S}.
#[global] Arguments small {S}.
#[global] Arguments medium {S}.
#[global] Arguments large {S}.

Section Slob.
Context {S : Type} `{PageSource S}.
Implicit Types h : heap S.

Definition page_at h (sp : Z) : slob_page := default unused_page (pgs h !! sp).
Definition update (sp : Z) (f : slob_page -> slob_page) h : heap S :=
  mkHeap (source h) (<[sp := f (page_at h sp)]> (pgs h)) (small h) (medium h) (large h).
Definition with_source (s : S) h : heap S := mkHeap s (pgs h) (small h) (medium h) (large h).
Definition set_units (v : Z) (p : slob_page) : slob_page :=
  mkSlobPage v (freelist p) (PageSlab p) (PageSlobFree p).
Definition set_freelist (v : Z) (p : slob_page) : slob_page :=
  mkSlobPage (units p) v (PageSlab p) (PageSlobFree p).
Definition set_slab (v : bool) (p : slob_page) : slob_page :=
  mkSlobPage (units p) (freelist p) v (PageSlobFree p).
Definition set_free (v : bool) (p : slob_page) : slob_page :=
  mkSlobPage (units p) (freelist p) (PageSlab p) v.

Definition get_list (l : slob_list) h : list Z :=
  match l with free_slob_small => small h | free_slob_medium => medium h | free_slob_large => large h end.
Definition set_list (l : slob_list) (xs : list Z) h : heap S :=
  match l with
  | free_slob_small => mkHeap (source h) (pgs h) xs (medium h) (large h)
  | free_slob_medium => mkHeap (source h) (pgs h) (small h) xs (large h)
  | free_slob_large => mkHeap (source h) (pgs h) (small h) (medium h) xs
  end.
(** list_del: the page is on one list at most. *)
Definition unlist (sp : Z) h : heap S :=
  mkHeap (source h) (pgs h) (filter (fun q => q <> sp) (small h)) (filter (fun q => q <> sp) (medium h))
    (filter (fun q => q <> sp) (large h)).

Definition slob_page_free (sp : Z) h : bool := PageSlobFree (page_at h sp).
Definition set_slob_page_free (sp : Z) (l : slob_list) h : heap S :=
  update sp (set_free true) (set_list l (sp :: get_list l h) h).
Definition clear_slob_page_free (sp : Z) h : heap S := update sp (set_free false) (unlist sp h).

Definition lift {A} (r : res A) : M A := fun m =>
  match r with Ret a => Ret (a, m) | BUG => BUG | OutOfFuel => OutOfFuel end.

Fixpoint clear_units (b : Z) (n : nat) : M unit :=
  match n with
  | O => mret tt
  | Datatypes.S n' => assign b 0;; clear_units (b + SLOB_UNIT) n'
  end.
(** Pages come with their fields unused; [comp] is __GFP_COMP, with which the page allocator
    records the order of the block, and [zero] is __GFP_ZERO, with which it clears the pages. *)
Definition slob_new_pages (zero comp : bool) (order : nat) h : M (heap S * option Z) :=
  '(s, r) ← lift (alloc_pages comp order (source h));
  let h := with_source s h in
  match r with
  | None => mret (h, None)
  | Some frame =>
      let b := page_address frame in
      (if zero then clear_units b (Z.to_nat (Z.shiftl (SLOB_UNITS PAGE_SIZE) (Z.of_nat order))) else mret tt);;
      mret (h, Some b)
  end.
Definition slob_free_pages (b : Z) (order : nat) h : M (heap S) :=
  let sp := virt_to_page b in
  s ← lift (release_pages (page_to_pfn sp) order (source h));
  mret (with_source s h).

(** ** Allocation *)

(** Whatever points to the block, the previous one or the page, points to [next]. *)
Definition link_to (sp : Z) (prev : option Z) (next : Z) h : M (heap S) :=
  match prev with
  | Some p => u ← slob_units p; set_slob p u next;; mret h
  | None => mret (update sp (set_freelist next) h)
  end.
(** The second half of the body of the loop of [slob_page_alloc]: [cur] has room. *)
Definition page_take (sp n : Z) (prev : option Z) (cur avail : Z) h : M (heap S * option Z) :=
  next ← slob_next cur;
  h ← (if avail =? n then link_to sp prev next h
       else
         h ← link_to sp prev (cur + SLOB_UNIT * n) h;
         set_slob (cur + SLOB_UNIT * n) (s16 (avail - n)) next;;
         mret h);
  let h := update sp (fun pg => set_units (s32 (units pg - n)) pg) h in
  let h := if units (page_at h sp) =? 0 then clear_slob_page_free sp h else h in
  mret (h, Some cur).

Fixpoint page_alloc_loop (fuel : nat) (sp n align : Z) (prev : option Z) (cur : Z) h : M (heap S * option Z) :=
  match fuel with
  | O => out_of_fuel
  | Datatypes.S fuel' =>
      avail ← slob_units cur;
      let aligned := if align =? 0 then cur else ALIGN cur align in
      let delta := s32 ((aligned - cur) / SLOB_UNIT) in
      if n + delta <=? avail then
        if delta =? 0 then page_take sp n prev cur avail h
        else
          next ← slob_next cur;
          set_slob aligned (s16 (avail - delta)) next;;
          set_slob cur (s16 delta) aligned;;
          avail ← slob_units aligned;
          page_take sp n (Some cur) aligned avail h
      else
        last ← slob_last cur;
        if last : bool then mret (h, None)
        else
          next ← slob_next cur;
          page_alloc_loop fuel' sp n align (Some cur) next h
  end.
(** A page has at most [SLOB_UNITS PAGE_SIZE] blocks. *)
Definition slob_page_alloc (sp size align : Z) h : M (heap S * option Z) :=
  page_alloc_loop (Z.to_nat (SLOB_UNITS PAGE_SIZE)) sp (s32 (SLOB_UNITS size)) align None (freelist (page_at h sp)) h.

Definition list_for (size : Z) : slob_list :=
  if size <? SLOB_BREAK1 then free_slob_small
  else if size <? SLOB_BREAK2 then free_slob_medium
  else free_slob_large.

(** if (prev != slob_list->prev && slob_list->next != prev->next)
      list_move_tail(slob_list, prev->next);
    [before] are the pages in front of the one that was taken, so [prev] is the last of them, or
    the head of the list. *)
Definition rotate (l : slob_list) (before : list Z) h : heap S :=
  let after := drop (length before) (get_list l h) in
  match before, after with
  | [], _ => h
  | _, [] => h
  | _, _ => set_list l (after ++ before) h
  end.

(** list_for_each_entry(sp, slob_list, lru) *)
Fixpoint try_pages (l : slob_list) (size align : Z) (before rest : list Z) h : M (heap S * option Z) :=
  match rest with
  | [] => mret (h, None)
  | sp :: rest' =>
      if w64 (units (page_at h sp)) <? SLOB_UNITS size then try_pages l size align (before ++ [sp]) rest' h
      else
        '(h, b) ← slob_page_alloc sp size align h;
        match b with
        | None => try_pages l size align (before ++ [sp]) rest' h
        | Some b => mret (rotate l before h, Some b)
        end
  end.

(** memset(b, 0, size); the last byte of an odd size is the low half of its unit. *)
Definition memset0 (b size : Z) : M unit :=
  clear_units b (Z.to_nat (size / SLOB_UNIT));;
  if Z.odd size then
    u ← fetch (b + (size - 1));
    assign (b + (size - 1)) (s16 (Z.land u (Z.lnot 255)))
  else mret tt.

(** Setting up a page that was just allocated. *)
Definition slob_new_page (l : slob_list) (size align b : Z) h : M (heap S * Z) :=
  let sp := virt_to_page b in
  let h := update sp (fun pg => set_freelist b (set_units (SLOB_UNITS PAGE_SIZE) (set_slab true pg))) h in
  set_slob b (s16 (SLOB_UNITS PAGE_SIZE)) (b + SLOB_UNIT * SLOB_UNITS PAGE_SIZE);;
  let h := set_slob_page_free sp l h in
  '(h, r) ← slob_page_alloc sp size align h;
  match r with
  | None => crash
  | Some b => mret (h, b)
  end.

(** [zero] is __GFP_ZERO. *)
Definition slob_alloc (size : Z) (zero : bool) (align : Z) h : M (heap S * option Z) :=
  let l := list_for size in
  '(h, b) ← try_pages l size align [] (get_list l h) h;
  '(h, b) ← (match b with
             | Some b => mret (h, Some b)
             | None =>
                 '(h, r) ← slob_new_pages false false 0 h;
                 match r with
                 | None => mret (h, None)
                 | Some b => '(h, b) ← slob_new_page l size align b h; mret (h, Some b)
                 end
             end);
  match b with
  | None => mret (h, None)
  | Some b => (if zero then memset0 b size else mret tt);; mret (h, Some b)
  end.

(** ** Freeing *)

(** while (b > next) *)
Fixpoint free_loop (fuel : nat) (b prev next : Z) : M (Z * Z) :=
  match fuel with
  | O => out_of_fuel
  | Datatypes.S fuel' =>
      if next <? b then
        next' ← slob_next next;
        free_loop fuel' b next next'
      else mret (prev, next)
  end.

(** The block goes in front of the first free block. *)
Definition free_front (sp b n : Z) h : M (heap S) :=
  let fl := freelist (page_at h sp) in
  '(n, h) ← (if b + SLOB_UNIT * n =? fl then
               u ← slob_units fl;
               next ← slob_next fl;
               mret (s16 (n + u), update sp (set_freelist next) h)
             else mret (n, h));
  set_slob b n (freelist (page_at h sp));;
  mret (update sp (set_freelist b) h).

(** The block goes behind the free block [prev]. *)
Definition free_behind (b n prev next : Z) : M unit :=
  last ← slob_last prev;
  (if negb last && (b + SLOB_UNIT * n =? next) then
     u ← slob_units next;
     next' ← slob_next next;
     set_slob b (s16 (n + u)) next'
   else set_slob b n next);;
  up ← slob_units prev;
  if prev + SLOB_UNIT * up =? b then
    u ← slob_units b;
    next' ← slob_next b;
    set_slob prev (s16 (u + up)) next'
  else set_slob prev up b.

Definition slob_free (block size : Z) h : M (heap S) :=
  if ZERO_OR_NULL_PTR block then mret h
  else if size =? 0 then crash
  else
    let b := block in
    let sp := virt_to_page block in
    let n := s16 (SLOB_UNITS size) in
    if w64 (units (page_at h sp) + n) =? SLOB_UNITS PAGE_SIZE then
      let h := if slob_page_free sp h then clear_slob_page_free sp h else h in
      let h := update sp (fun pg => set_units (-1) (set_slab false pg)) h in
      slob_free_pages b 0 h
    else if negb (slob_page_free sp h) then
      let h := update sp (fun pg => set_freelist b (set_units n pg)) h in
      set_slob b n (Z.land (b + SLOB_UNIT * SLOB_UNITS PAGE_SIZE) PAGE_MASK);;
      mret (set_slob_page_free sp (list_for size) h)
    else
      let h := update sp (fun pg => set_units (s32 (units pg + n)) pg) h in
      let fl := freelist (page_at h sp) in
      if b <? fl then free_front sp b n h
      else
        next ← slob_next fl;
        '(prev, next) ← free_loop (Z.to_nat (SLOB_UNITS PAGE_SIZE)) b fl next;
        free_behind b n prev next;;
        mret h.

(** * kmalloc *)

(** An unsigned int in memory. *)
Definition store32 (p v : Z) : M unit := assign p (s16 v);; assign (p + SLOB_UNIT) (s16 (Z.shiftr v 16)).
Definition store64 (p v : Z) : M unit := store32 p v;; store32 (p + 2 * SLOB_UNIT) (Z.shiftr v 32).
Definition load32 (p : Z) : M Z :=
  lo ← fetch p;
  hi ← fetch (p + SLOB_UNIT);
  mret (w32 (lo mod 65536 + Z.shiftl (hi mod 65536) 16)).

Definition get_order (size : Z) : nat := Z.to_nat (fls64 (Z.shiftr (w64 (size - 1)) PAGE_SHIFT)).

Definition __do_kmalloc_node (size : Z) (zero : bool) h : M (heap S * Z) :=
  let align := ARCH_KMALLOC_MINALIGN in
  if size <? PAGE_SIZE - align then
    if size =? 0 then mret (h, ZERO_SIZE_PTR)
    else
      '(h, m) ← slob_alloc (size + align) zero align h;
      match m with
      | None => mret (h, 0)
      | Some m => store32 m (w32 size);; mret (h, m + align)
      end
  else
    let order := get_order size in
    '(h, r) ← slob_new_pages zero (negb (order =? 0)%nat) order h;
    mret (h, default 0 r).
Definition __kmalloc (size : Z) (zero : bool) h : M (heap S * Z) := __do_kmalloc_node size zero h.

Definition kfree (block : Z) h : M (heap S) :=
  if ZERO_OR_NULL_PTR block then mret h
  else
    let sp := virt_to_page block in
    if PageSlab (page_at h sp) then
      let m := block - ARCH_KMALLOC_MINALIGN in
      size ← load32 m;
      slob_free m (s32 (w32 (size + ARCH_KMALLOC_MINALIGN))) h
    else
      order ← lift (compound_order (page_to_pfn sp) (source h));
      slob_free_pages sp order h.

Definition ksize (block : Z) h : M Z :=
  if block =? 0 then crash
  else if block =? ZERO_SIZE_PTR then mret 0
  else
    let sp := virt_to_page block in
    if negb (PageSlab (page_at h sp)) then
      order ← lift (compound_order (page_to_pfn sp) (source h));
      mret (w64 (Z.shiftl PAGE_SIZE (Z.of_nat order)))
    else
      size ← load32 (block - ARCH_KMALLOC_MINALIGN);
      mret (SLOB_UNITS size * SLOB_UNIT).

(** * Caches *)

Record kmem_cache := mkCache {
  c_size : Z;
  c_align : Z;
  typesafe_by_rcu : bool;
  ctor : option (Z -> M unit);
}.
Definition sizeof_slob_rcu : Z := 24.
Definition slob_rcu_size : Z := 16.
Definition rcu_head_func : Z := 8.

Definition __kmem_cache_create (c : kmem_cache) : kmem_cache :=
  if typesafe_by_rcu c then mkCache (w32 (c_size c + sizeof_slob_rcu)) (c_align c) true (ctor c) else c.

Definition slob_alloc_node (c : kmem_cache) (zero : bool) h : M (heap S * option Z) :=
  '(h, b) ← (if c_size c <? PAGE_SIZE then slob_alloc (c_size c) zero (c_align c) h
             else slob_new_pages zero false (get_order (c_size c)) h);
  match b, ctor c with
  | Some b, Some f => f b;; mret (h, Some b)
  | b, _ => mret (h, b)
  end.
Definition kmem_cache_alloc (c : kmem_cache) (zero : bool) h : M (heap S * option Z) := slob_alloc_node c zero h.

Definition __kmem_cache_free (b size : Z) h : M (heap S) :=
  if size <? PAGE_SIZE then slob_free b size h else slob_free_pages b (get_order size) h.

Definition kmem_rcu_free (head : Z) h : M (heap S) :=
  size ← load32 (head + slob_rcu_size);
  __kmem_cache_free (head - (s32 size - sizeof_slob_rcu)) (s32 size) h.

(** call_rcu, kernel/rcu/tiny.c.  [rcu] are the callbacks that wait for a grace period, oldest
    first, by the address of their rcu_head: [rcp->curtail] is the address of the [next] field
    of the last one, or of [rcp->rcucblist] itself, which is not in this memory. *)
Definition __call_rcu (head func : Z) (rcu : list Z) : M (list Z) :=
  store64 (head + rcu_head_func) func;;
  store64 head 0;;
  match last rcu with Some prev => store64 prev head | None => mret tt end;;
  mret (rcu ++ [head]).

Context `{KernelText}.
Definition kmem_cache_free (c : kmem_cache) (b : Z) (rcu : list Z) h : M (heap S * list Z) :=
  if typesafe_by_rcu c then
    let head := b + (c_size c - sizeof_slob_rcu) in
    store32 (head + slob_rcu_size) (w32 (c_size c));;
    rcu ← __call_rcu head text_kmem_rcu_free rcu;
    mret (h, rcu)
  else h ← __kmem_cache_free b (c_size c) h; mret (h, rcu).
End Slob.
