(* ===== verification/SlobLogic.v ===== *)
(** Free blocks in memory: the list of free blocks of a page as an assertion, and what the
    routines of mm/slob.c that read and write blocks do to it. *)

From iris.proofmode Require Import proofmode.
From S2P Require Import Prelude Mem HeapLogic FindBit Kfifo Slob.

(** * Units *)

(** The units from [a] on, with their contents, and some [n] units. *)
Fixpoint cells (a : Z) (vs : list Z) : hProp :=
  match vs with
  | [] => emp
  | v :: vs' => a ↦ v ∗ cells (a + 2) vs'
  end%I.
Definition raw (a n : Z) : hProp := (∃ vs, <affine> ⌜Z.of_nat (length vs) = n⌝ ∗ cells a vs)%I.

Lemma cells_app xs : forall a ys, cells a (xs ++ ys) ⊣⊢ cells a xs ∗ cells (a + 2 * Z.of_nat (length xs)) ys.
Proof.
  induction xs as [|x xs IH]; intros a ys; cbn [cells app length].
  - rewrite left_id. by replace (a + 2 * Z.of_nat 0) with a by lia.
  - rewrite IH assoc. by replace (a + 2 + 2 * Z.of_nat (length xs)) with (a + 2 * Z.of_nat (S (length xs))) by lia.
Qed.

Lemma raw_cells a vs : cells a vs ⊢ raw a (Z.of_nat (length vs)).
Proof. iIntros "H". iExists vs. by iFrame. Qed.
Lemma raw_split a n k : 0 <= n -> 0 <= k -> raw a (n + k) ⊣⊢ raw a n ∗ raw (a + 2 * n) k.
Proof.
  intros Hn Hk. iSplit.
  - iIntros "(%vs&%Hl&H)". rewrite -{1}(take_drop (Z.to_nat n) vs) cells_app length_take.
    replace (2 * Z.of_nat (Z.to_nat n `min` length vs)) with (2 * n) by lia. iDestruct "H" as "[H1 H2]".
    iSplitL "H1"; [iExists (take (Z.to_nat n) vs)|iExists (drop (Z.to_nat n) vs)]; iFrame; iPureIntro; rewrite ?length_take ?length_drop; lia.
  - iIntros "[(%vs&%Hl&H1) (%ws&%Hl'&H2)]". iExists (vs ++ ws). rewrite cells_app Hl. iFrame. iPureIntro. rewrite length_app. lia.
Qed.
Lemma raw_cut a n k : 0 <= k <= n -> raw a n ⊣⊢ raw a k ∗ raw (a + 2 * k) (n - k).
Proof. intros Hk. rewrite -raw_split; [|lia..]. by replace (k + (n - k)) with n by lia. Qed.
Lemma raw_0 a : raw a 0 ⊣⊢ emp.
Proof. iSplit; [iIntros "(%vs&%Hl&H)"; by destruct vs|iIntros "_"; by iExists []]. Qed.
Lemma raw_1 a : raw a 1 ⊣⊢ ∃ v, a ↦ v.
Proof.
  iSplit.
  - iIntros "(%vs&%Hl&H)". destruct vs as [|v [|w vs]]; cbn in *; try lia. iDestruct "H" as "[H _]". by iExists v.
  - iIntros "[%v H]". iExists [v]. cbn. by iFrame.
Qed.
Lemma raw_cons a n : 1 <= n -> raw a n ⊣⊢ (∃ v, a ↦ v) ∗ raw (a + 2) (n - 1).
Proof. intros Hn. rewrite -raw_1. replace n with (1 + (n - 1)) at 1 by lia. by rewrite raw_split; [|lia..]. Qed.
Lemma raw_at a n i : 0 <= i < n -> raw a n ⊢ (∃ v, (a + 2 * i) ↦ v) ∗ True.
Proof.
  intros Hi. replace n with (i + (n - i)) by lia. rewrite raw_split; [|lia..]. rewrite (raw_cons (a + 2 * i)); [|lia].
  iIntros "(_&$&_)".
Qed.
(** Two pieces of memory do not overlap. *)
Lemma raw_apart b i n j k : 1 <= n -> 1 <= k -> raw (b + 2 * i) n ⊢ raw (b + 2 * j) k -∗ ⌜i + n <= j \/ j + k <= i⌝.
Proof.
  intros Hn Hk. iIntros "H1 H2". destruct (decide (i + n <= j \/ j + k <= i)) as [|Hno]; [by iPureIntro|].
  iDestruct (raw_at _ _ (Z.max i j - i) with "H1") as "[[%v H1] _]"; [lia|].
  iDestruct (raw_at _ _ (Z.max i j - j) with "H2") as "[[%w H2] _]"; [lia|].
  replace (b + 2 * i + 2 * (Z.max i j - i)) with (b + 2 * j + 2 * (Z.max i j - j)) by lia.
  by iDestruct (pointsto_ne with "H1 H2") as %[].
Qed.

(** * Pages *)

Definition page_ok (b : Z) : Prop := b mod 4096 = 0 /\ 4096 <= b /\ b + 8192 <= two64.

Lemma page_mask_eq b i : b mod 4096 = 0 -> 0 <= b < two64 -> 0 <= i < 4096 -> Z.land (b + i) PAGE_MASK = b.
Proof.
  intros Hb H1 Hi. change PAGE_MASK with (w64 (Z.lnot (Z.ones 12))). unfold w64. change two64 with (2 ^ 64) in *.
  rewrite -Z.land_ones; [|done]. rewrite Z.land_assoc -Z.ldiff_land Z.ldiff_ones_r; [|done].
  rewrite Z.shiftl_mul_pow2; [|done]. rewrite Z.shiftr_div_pow2; [|done]. rewrite Z.land_ones; [|done].
  change (2 ^ 12) with 4096. change (2 ^ 64) with 18446744073709551616 in *. divmod b 4096.
  replace (b + i) with (i + b / 4096 * 4096) by lia. rewrite Z.div_add; [|lia]. rewrite (Z.div_small i); [|lia].
  rewrite Z.mod_small; lia.
Qed.
Lemma page_mask b i : page_ok b -> 0 <= i < 4096 -> Z.land (b + i) PAGE_MASK = b.
Proof. intros (Hb&H0&H1). apply page_mask_eq; [done|lia]. Qed.
Lemma page_mask_next b i : page_ok b -> 0 <= i < 4096 -> Z.land (b + i + 4096) PAGE_MASK = b + 4096.
Proof.
  intros (Hb&H0&H1) Hi. replace (b + i + 4096) with (b + 4096 + i) by lia. apply page_mask_eq; [|lia|done].
  replace (b + 4096) with (b + 1 * 4096) by lia. rewrite Z.mod_add; [done|lia].
Qed.
Lemma page_mask_unit b i : page_ok b -> 0 <= i < 2048 -> Z.land (b + 2 * i) PAGE_MASK = b.
Proof. intros Hb Hi. apply page_mask; [done|lia]. Qed.
Lemma page_offset b i : page_ok b -> 0 <= i <= 2048 -> (Z.land (b + 2 * i) (w64 (Z.lnot PAGE_MASK)) =? 0) = (i =? 0) || (i =? 2048).
Proof.
  intros (Hb&H0&_) Hi. change (w64 (Z.lnot PAGE_MASK)) with (Z.ones 12). rewrite Z.land_ones; [|done].
  change (2 ^ 12) with 4096. rewrite -Z.add_mod_idemp_l; [|lia]. rewrite Hb. divmod (0 + 2 * i) 4096.
  apply eq_true_iff_eq. rewrite orb_true_iff !Z.eqb_eq. lia.
Qed.
Lemma s16_small v : -32768 <= v < 32768 -> s16 v = v.
Proof. intros Hv. unfold s16. divmod v 65536. case_cmp; lia. Qed.

Lemma addr_eqb b x y : (b + 2 * x =? b + 2 * y) = (x =? y).
Proof. destruct (Z.eqb_spec x y), (Z.eqb_spec (b + 2 * x) (b + 2 * y)); (done || lia). Qed.

(** * Free blocks *)

(** The free block of [n] units at index [i] of the page [b], whose successor is at index [j]. *)
Definition block (b i n j : Z) : hProp :=
  if n =? 1 then ((b + 2 * i) ↦ - j)%I
  else ((b + 2 * i) ↦ n ∗ (b + 2 * (i + 1)) ↦ j ∗ raw (b + 2 * (i + 2)) (n - 2))%I.

Lemma block_raw b i n j : 1 <= n -> block b i n j ⊢ raw (b + 2 * i) n.
Proof.
  intros Hn. unfold block. destruct (Z.eqb_spec n 1) as [->|]; [rewrite raw_1; by iIntros "$"|].
  rewrite (raw_cons (b + 2 * i) n); [|lia]. rewrite (raw_cons (b + 2 * i + 2)); [|lia]. iIntros "($&H&?)".
  replace (b + 2 * i + 2) with (b + 2 * (i + 1)) by lia. iFrame. replace (b + 2 * (i + 1) + 2) with (b + 2 * (i + 2)) by lia.
  by replace (n - 1 - 1) with (n - 2) by lia.
Qed.

Section Blocks.
Context (b : Z) (Hb : page_ok b).

Lemma wp_set_slob i n j (Φ : unit -> hProp) :
  0 <= i -> 1 <= n -> i + n <= 2048 -> i < j <= 2048 ->
  raw (b + 2 * i) n ⊢ (block b i n j -∗ Φ tt) -∗ wp (set_slob (b + 2 * i) n (b + 2 * j)) Φ.
Proof using Hb.
  iIntros (Hi Hn Hin Hj) "H HΦ". unfold set_slob, block. rewrite page_mask_unit; [|done|lia].
  assert ((b + 2 * j - b) / SLOB_UNIT = j) as -> by (unfold SLOB_UNIT; divmod (b + 2 * j - b) 2; lia).
  rewrite (s16_small j); [|lia]. rewrite (raw_cons _ n); [|lia]. iDestruct "H" as "[[%v H] Hr]".
  destruct (Z.ltb_spec 1 n); destruct (Z.eqb_spec n 1); try lia.
  - rewrite s16_small; [|lia]. wp_store "H". rewrite raw_cons; [|lia]. iDestruct "Hr" as "[[%w H1] Hr]".
    change SLOB_UNIT with 2. wp_store "H1". iApply "HΦ". replace (b + 2 * i + 2) with (b + 2 * (i + 1)) by lia.
    replace (b + 2 * (i + 1) + 2) with (b + 2 * (i + 2)) by lia. replace (n - 1 - 1) with (n - 2) by lia. iFrame.
  - subst. rewrite s16_small; [|lia]. wp_store "H". rewrite raw_0. iApply "HΦ". by iFrame.
Qed.

Lemma wp_slob_units i n j (Φ : Z -> hProp) :
  1 <= n -> 0 < j -> block b i n j ⊢ (block b i n j -∗ Φ n) -∗ wp (slob_units (b + 2 * i)) Φ.
Proof.
  iIntros (Hn Hj) "H HΦ". unfold slob_units, block. destruct (Z.eqb_spec n 1) as [->|].
  - wp_load "H". wp_done. destruct (Z.ltb_spec 0 (- j)); [lia|]. by iApply "HΦ".
  - iDestruct "H" as "[H Hr]". wp_load "H". wp_done. destruct (Z.ltb_spec 0 n); [|lia]. iApply "HΦ". iFrame.
Qed.

Lemma wp_slob_next i n j (Φ : Z -> hProp) :
  0 <= i -> 1 <= n -> i + n <= 2048 -> 0 < j ->
  block b i n j ⊢ (block b i n j -∗ Φ (b + 2 * j)) -∗ wp (slob_next (b + 2 * i)) Φ.
Proof using Hb.
  iIntros (Hi Hn Hin Hj) "H HΦ". unfold slob_next, block. rewrite page_mask_unit; [|done|lia].
  destruct (Z.eqb_spec n 1) as [->|].
  - wp_load "H". destruct (Z.ltb_spec (- j) 0); [|lia]. iApply wp_bind. wp_done. wp_done. rewrite Z.opp_involutive. by iApply "HΦ".
  - iDestruct "H" as "(H&H1&Hr)". wp_load "H". destruct (Z.ltb_spec n 0); [lia|]. change SLOB_UNIT with 2.
    replace (b + 2 * i + 2) with (b + 2 * (i + 1)) by lia. wp_load "H1". wp_done. iApply "HΦ". iFrame.
Qed.

Lemma wp_slob_last i n j (Φ : bool -> hProp) :
  0 <= i -> 1 <= n -> i + n <= 2048 -> i < j <= 2048 ->
  block b i n j ⊢ (block b i n j -∗ Φ (j =? 2048)) -∗ wp (slob_last (b + 2 * i)) Φ.
Proof using Hb.
  iIntros (Hi Hn Hin Hj) "H HΦ". unfold slob_last. iApply wp_bind. iApply (wp_slob_next with "H"); [lia..|].
  iIntros "H". wp_done. rewrite page_offset; [|done|lia]. destruct (Z.eqb_spec j 0); [lia|]. by iApply "HΦ".
Qed.
End Blocks.

(** * The list of free blocks of a page *)

(** Blocks by index and size, in the order of addresses, not adjacent: free neighbours have
    been merged. *)
Fixpoint spaced (lo : Z) (bs : list (Z * Z)) : Prop :=
  match bs with
  | [] => True
  | (i, n) :: bs' => lo <= i /\ 1 <= n /\ i + n <= 2048 /\ spaced (i + n + 1) bs'
  end.
Fixpoint total (bs : list (Z * Z)) : Z :=
  match bs with [] => 0 | (_, n) :: bs' => n + total bs' end.
Definition first (bs : list (Z * Z)) (e : Z) : Z := match bs with [] => e | (i, _) :: _ => i end.
Fixpoint chain (b : Z) (bs : list (Z * Z)) (e : Z) : hProp :=
  match bs with
  | [] => emp
  | (i, n) :: bs' => block b i n (first bs' e) ∗ chain b bs' e
  end%I.
(** The first index that may follow. *)
Fixpoint above (lo : Z) (bs : list (Z * Z)) : Z :=
  match bs with [] => lo | (i, n) :: bs' => above (i + n + 1) bs' end.

Lemma first_app xs ys e : first (xs ++ ys) e = first xs (first ys e).
Proof. by destruct xs as [|[]]. Qed.
Lemma chain_app b xs : forall ys e, chain b (xs ++ ys) e ⊣⊢ chain b xs (first ys e) ∗ chain b ys e.
Proof.
  induction xs as [|[i n] xs IH]; intros ys e; cbn [chain app]; [by rewrite left_id|].
  by rewrite IH first_app assoc.
Qed.
Lemma chain_cons b i n bs e : chain b ((i, n) :: bs) e ⊣⊢ block b i n (first bs e) ∗ chain b bs e.
Proof. done. Qed.
Lemma chain_snoc b xs i n e : chain b xs i ∗ block b i n e ⊣⊢ chain b (xs ++ [(i, n)]) e.
Proof. rewrite chain_app. cbn [chain first]. by rewrite right_id. Qed.
Lemma above_app lo xs ys : above lo (xs ++ ys) = above (above lo xs) ys.
Proof. revert lo. induction xs as [|[i n] xs IH]; intros lo; [done|]. apply IH. Qed.
Lemma spaced_app lo xs ys : spaced lo (xs ++ ys) <-> spaced lo xs /\ spaced (above lo xs) ys.
Proof.
  revert lo. induction xs as [|[i n] xs IH]; intros lo; cbn [spaced app above]; [tauto|]. rewrite IH. tauto.
Qed.
Lemma spaced_le lo lo' bs : lo' <= lo -> spaced lo bs -> spaced lo' bs.
Proof. destruct bs as [|[i n] bs]; cbn; [done|]. intros ? (?&?&?&?). split_and!; (done || lia). Qed.
Lemma spaced_first lo bs : spaced lo bs -> first bs 2048 <= 2048 /\ (lo <= 2048 -> lo <= first bs 2048).
Proof. destruct bs as [|[i n] bs]; cbn; [lia|]. intros (?&?&?&_). lia. Qed.
Lemma spaced_next lo i n bs : spaced lo ((i, n) :: bs) -> i + n <= first bs 2048 <= 2048.
Proof. cbn. intros (?&?&?&Hs). destruct bs as [|[j k] bs]; cbn in *; lia. Qed.
Lemma above_ge lo bs : spaced lo bs -> lo <= above lo bs.
Proof. revert lo. induction bs as [|[i n] bs IH]; intros lo; cbn; [lia|]. intros (?&?&?&Hs). apply IH in Hs. lia. Qed.
Lemma above_le lo bs : spaced lo bs -> lo <= 2049 -> above lo bs <= 2049.
Proof. revert lo. induction bs as [|[i n] bs IH]; intros lo; cbn; [lia|]. intros (?&?&?&Hs) _. apply IH; [done|lia]. Qed.
Lemma total_app xs ys : total (xs ++ ys) = total xs + total ys.
Proof. induction xs as [|[i n] xs IH]; cbn; lia. Qed.
(** The sizes and the gaps make up the page. *)
Lemma blocks_bound lo bs : spaced lo bs -> 0 <= total bs /\ lo + total bs + Z.of_nat (length bs) <= above lo bs.
Proof. revert lo. induction bs as [|[i n] bs IH]; intros lo; cbn [spaced total above length]; [lia|]. intros (?&?&?&Hs). apply IH in Hs. lia. Qed.
Lemma total_0 lo bs : spaced lo bs -> total bs = 0 -> bs = [].
Proof. destruct bs as [|[i n] bs]; [done|]. cbn. intros (?&?&?&Hs) ?. pose proof (blocks_bound _ _ Hs). lia. Qed.

(** * Allocating in a page *)

(** The block before the blocks that follow [xs]. *)
Definition prev_of (b : Z) (xs : list (Z * Z)) : option Z := (fun p => b + 2 * p.1) <$> last xs.

Section PageAlloc.
Context {S : Type} `{PageSource S} (b : Z) (Hb : page_ok b).
Implicit Types h : heap S.

Definition linked (xs : list (Z * Z)) (j : Z) h : heap S :=
  match xs with [] => update b (set_freelist (b + 2 * j)) h | _ => h end.

Lemma wp_link_to xs j j' h (Φ : heap S -> hProp) :
  spaced 0 xs -> above 0 xs <= j' + 1 -> (xs <> [] -> 0 < j) -> j' <= 2048 ->
  chain b xs j ⊢ (chain b xs j' -∗ Φ (linked xs j' h)) -∗ wp (link_to b (prev_of b xs) (b + 2 * j') h) Φ.
Proof using Hb.
  intros Hs Ha Hj Hj'. destruct xs as [|x xs _] using rev_ind; cbn [link_to prev_of]; iIntros "H HΦ".
  - wp_done. by iApply "HΦ".
  - destruct x as [i n]. unfold prev_of. rewrite last_snoc. cbn [fmap option_fmap option_map fst link_to].
    rewrite above_app in Ha. apply spaced_app in Hs as [Hs (H0&Hn&Hin&_)]. cbn in Ha.
    pose proof (above_ge _ _ Hs).
    rewrite !chain_app. cbn [chain first]. iDestruct "H" as "(Hx&H&_)". specialize (Hj ltac:(by destruct xs)).
    iApply wp_bind. iApply (wp_slob_units with "H"); [lia..|]. iIntros "H". iApply wp_bind.
    iApply (wp_set_slob with "[H]"); [done|lia..|by iApply block_raw|]. iIntros "H". wp_done.
    assert (linked (xs ++ [(i, n)]) j' h = h) as -> by (by destruct xs). iApply "HΦ". iFrame.
Qed.

(** What is left of a block of [n] units at [i] after taking the first [k]. *)
Definition leftover (i n k : Z) : list (Z * Z) := if n =? k then [] else [(i + k, n - k)].
Definition charge (k : Z) h : heap S :=
  let h := update b (fun pg => set_units (s32 (units pg - k)) pg) h in
  if units (page_at h b) =? 0 then clear_slob_page_free b h else h.

Lemma leftover_total i n k : total (leftover i n k) = n - k.
Proof. unfold leftover. destruct (Z.eqb_spec n k); cbn; lia. Qed.

Lemma wp_page_take xs i n ys k h (Φ : heap S * option Z -> hProp) :
  spaced 0 xs -> above 0 xs <= i + 1 -> 0 <= i -> i + n <= 2048 -> spaced (i + n + 1) ys -> 1 <= k <= n ->
  chain b xs i ∗ chain b ((i, n) :: ys) 2048
  ⊢ (raw (b + 2 * i) k ∗ chain b (xs ++ leftover i n k ++ ys) 2048
     -∗ Φ (charge k (linked xs (first (leftover i n k ++ ys) 2048) h), Some (b + 2 * i)))
    -∗ wp (page_take b k (prev_of b xs) (b + 2 * i) n h) Φ.
Proof using Hb.
  intros Hx Hlo Hi0 Hin Hy Hk. assert (i + n <= first ys 2048 <= 2048) as Hnext.
  { apply (spaced_next i). by cbn; split_and!; [lia..|]. }
  rewrite chain_cons. iIntros "(Hx&Hi&Hy) HΦ". unfold page_take. iApply wp_bind.
  iApply (wp_slob_next with "Hi"); [done|lia..|]. iIntros "Hi".
  assert (xs <> [] -> 0 < i) as Hpos.
  { intros Hne. destruct xs as [|[p q] xs]; [done|]. cbn in Hx, Hlo. destruct Hx as (?&?&?&Hx). pose proof (above_ge _ _ Hx). lia. }
  iApply wp_bind. unfold leftover in *. destruct (Z.eqb_spec n k) as [->|Hne]; cbn [app] in *.
  - iApply (wp_link_to with "Hx"); [done|lia|done|lia|]. iIntros "Hx". wp_done.
    iApply "HΦ". rewrite (block_raw b i); [|lia]. rewrite chain_app. iFrame.
  - change SLOB_UNIT with 2. replace (b + 2 * i + 2 * k) with (b + 2 * (i + k)) by lia.
    iApply wp_bind. iApply (wp_link_to with "Hx"); [done|lia|done|lia|]. iIntros "Hx".
    rewrite block_raw; [|lia]. rewrite (raw_cut _ n k); [|lia].
    iDestruct "Hi" as "[Hi Hr]". replace (b + 2 * i + 2 * k) with (b + 2 * (i + k)) by lia.
    rewrite s16_small; [|lia]. iApply wp_bind. iApply (wp_set_slob with "Hr"); [done|lia..|]. iIntros "Hr". wp_done. wp_done.
    iApply "HΦ". iFrame. rewrite chain_app. cbn [chain first app]. iFrame.
Qed.

(** ** Alignment *)

Definition align_ok (align : Z) : Prop := align = 0 \/ exists k, 0 <= k <= 12 /\ align = 2 ^ k.
(** The units before the first aligned one at or after index [i]. *)
Definition delta (align i : Z) : Z := ((if align =? 0%Z then b + 2 * i else ALIGN (b + 2 * i) align) - (b + 2 * i)) / SLOB_UNIT.

Lemma ALIGN_pow2 x k : 0 <= k <= 12 -> 0 <= x -> x + 4096 <= two64 -> ALIGN x (2 ^ k) = (x + (2 ^ k - 1)) / 2 ^ k * 2 ^ k.
Proof.
  intros Hk Hx Hx'. unfold ALIGN. assert (0 < 2 ^ k <= 2 ^ 12) as Hp by (split; [apply Z.pow_pos_nonneg; lia|apply Z.pow_le_mono_r; lia]).
  change (2 ^ 12) with 4096 in Hp. rewrite (w64_small (x + _)); [|lia]. replace (Z.lnot (2 ^ k - 1)) with (Z.lnot (Z.ones k)) by (by rewrite Z.ones_equiv).
  unfold w64. change two64 with (2 ^ 64) in *. rewrite -Z.land_ones; [|done]. rewrite Z.land_assoc -Z.ldiff_land Z.ldiff_ones_r; [|lia].
  rewrite Z.shiftl_mul_pow2; [|lia]. rewrite Z.shiftr_div_pow2; [|lia]. rewrite Z.land_ones; [|done]. apply Z.mod_small.
  divmod (x + (2 ^ k - 1)) (2 ^ k). nia.
Qed.

Lemma delta_spec align i :
  align_ok align -> 0 <= i < 2048 ->
  0 <= delta align i <= 2048 /\ (if align =? 0%Z then b + 2 * i else ALIGN (b + 2 * i) align) = b + 2 * (i + delta align i)
  /\ (align <> 0 -> (b + 2 * (i + delta align i)) mod align = 0) /\ (i = 0 -> delta align i = 0).
Proof using Hb.
  intros Ha Hi. destruct Hb as (Hm&H0&H1). unfold delta, SLOB_UNIT. destruct Ha as [->|(k&Hk&->)].
  { cbn [Z.eqb]. rewrite Z.sub_diag. change (0 / 2) with 0. split_and!; (done || lia). }
  assert (0 < 2 ^ k <= 2 ^ 12) as Hp by (split; [apply Z.pow_pos_nonneg; lia|apply Z.pow_le_mono_r; lia]). change (2 ^ 12) with 4096 in Hp.
  destruct (Z.eqb_spec (2 ^ k) 0); [lia|]. rewrite ALIGN_pow2; [|done|lia|lia].
  assert (exists q, b = q * 2 ^ k) as [q Hq].
  { exists (b / 4096 * 2 ^ (12 - k)). rewrite -Z.mul_assoc -Z.pow_add_r; [|lia..]. replace (12 - k + k) with 12 by lia.
    change (2 ^ 12) with 4096. divmod b 4096. lia. }
  set (y := (b + 2 * i + (2 ^ k - 1)) / 2 ^ k). pose proof (Z.div_mod (b + 2 * i + (2 ^ k - 1)) (2 ^ k) ltac:(lia)) as Hd.
  pose proof (Z.mod_pos_bound (b + 2 * i + (2 ^ k - 1)) (2 ^ k) ltac:(lia)) as Hr. fold y in Hd.
  assert (exists d, y * 2 ^ k = b + 2 * (i + d)) as [d Ed].
  { destruct (decide (k = 0)) as [->|Hk0]; [exists 0; change (2 ^ 0) with 1 in *; lia|].
    exists ((y - q) * 2 ^ (k - 1) - i). replace k with (1 + (k - 1)) in Hq at 1 by lia. replace (y * 2 ^ k) with (y * 2 ^ (1 + (k - 1))) by (do 2 f_equal; lia).
    rewrite Z.pow_add_r in Hq; [|lia..]. rewrite Z.pow_add_r; [|lia..]. lia. }
  rewrite Ed. replace ((b + 2 * (i + d) - (b + 2 * i)) / 2) with d by (divmod (b + 2 * (i + d) - (b + 2 * i)) 2; lia).
  split_and!; [lia|lia|done| |].
  - intros _. rewrite -Ed. apply Z.mod_mul. lia.
  - intros ->. rewrite Z.mul_0_r Z.add_0_r in Ed, Hd, Hr. assert (y = q) by nia. lia.
Qed.

(** ** The search *)

Definition fits (align k : Z) (x : Z * Z) : Prop := k + delta align x.1 <= x.2.
(** The unaligned units before the part that is taken stay a block. *)
Definition head (align i : Z) : list (Z * Z) := if delta align i =? 0 then [] else [(i, delta align i)].

Lemma head_spaced align i n k xs ys :
  align_ok align -> fits align k (i, n) -> 1 <= k -> spaced 0 (xs ++ (i, n) :: ys) ->
  let d := delta align i in
  spaced 0 (xs ++ head align i) /\ above 0 (xs ++ head align i) <= i + d + 1 /\ 0 <= i /\ 0 <= d
  /\ spaced 0 ((xs ++ head align i) ++ leftover (i + d) (n - d) k ++ ys) /\ spaced (i + d + (n - d) + 1) ys /\ i + d + (n - d) <= 2048.
Proof using Hb.
  intros Ha Hf Hk Hs d. pose proof Hs as [Hx (?&?&?&Hy)]%spaced_app. pose proof (above_ge _ _ Hx).
  destruct (delta_spec align i Ha ltac:(lia)) as (Hd&_). unfold fits in Hf. cbn in Hf. fold d in Hd, Hf.
  replace (i + d + (n - d)) with (i + n) by lia.
  assert (spaced 0 (xs ++ head align i) /\ above 0 (xs ++ head align i) <= i + d + 1) as [Hh Hab].
  { unfold head. fold d. destruct (Z.eqb_spec d 0); [rewrite app_nil_r; split; [done|lia]|].
    rewrite spaced_app above_app. cbn. split_and!; (done || lia). }
  split_and!; try (done || lia). apply spaced_app. split; [done|]. unfold leftover.
  destruct (Z.eqb_spec (n - d) k); cbn; [eapply spaced_le; [|done]; lia|].
  replace (i + d + k + (n - d - k) + 1) with (i + n + 1) by lia. split_and!; (done || lia).
Qed.

(** What a search from the blocks [ys] on does, where [xs] has been passed. *)
Definition page_alloc_post (align k : Z) (xs ys : list (Z * Z)) h (hr : heap S * option Z) : hProp :=
  match hr.2 with
  | None => <affine> ⌜hr.1 = h /\ Forall (fun x => ~ fits align k x) ys⌝ ∗ chain b (xs ++ ys) 2048
  | Some a =>
      ∃ pre i n post,
        let d := delta align i in
        let before := xs ++ pre ++ head align i in
        let after := leftover (i + d) (n - d) k ++ post in
        <affine> ⌜ys = pre ++ (i, n) :: post /\ fits align k (i, n) /\ a = (b + 2 * (i + d))%Z
                  /\ hr.1 = charge k (linked before (first after 2048) h)⌝
        ∗ raw a k ∗ chain b (before ++ after) 2048
  end%I.

Lemma page_alloc_post_skip align k xs i n ys h hr :
  ~ fits align k (i, n) -> page_alloc_post align k (xs ++ [(i, n)]) ys h hr ⊢ page_alloc_post align k xs ((i, n) :: ys) h hr.
Proof.
  intros Hno. unfold page_alloc_post. destruct (hr.2) as [a|].
  - iIntros "(%pre&%i'&%n'&%post&%Hp&H)". iExists ((i, n) :: pre), i', n', post. destruct Hp as (->&?&?&?).
    rewrite -!assoc_L. cbn [app]. iFrame. iPureIntro. rewrite -!assoc_L in H2. done.
  - iIntros "[%Hf H]". destruct Hf as [-> Hf]. rewrite -assoc_L. iFrame. iPureIntro. split; [done|]. by constructor.
Qed.

Lemma wp_page_alloc_loop align k : align_ok align -> 1 <= k < 32768 -> forall fuel xs ys h,
  ys <> [] -> spaced 0 (xs ++ ys) -> (length ys <= fuel)%nat ->
  chain b xs (first ys 2048) ∗ chain b ys 2048
  ⊢ wp (page_alloc_loop fuel b k align (prev_of b xs) (b + 2 * first ys 2048) h) (page_alloc_post align k xs ys h).
Proof using Hb.
  intros Ha Hk. induction fuel as [|fuel IH]; intros xs ys h Hne Hs Hf.
  { destruct ys; [done|cbn in Hf; lia]. }
  destruct ys as [|[i n] ys]; [done|]. cbn [page_alloc_loop first].
  pose proof Hs as [Hx Hi]%spaced_app. pose proof (spaced_next _ _ _ _ Hi) as Hnext. pose proof Hi as (Hlo&Hn&Hin&Hy). pose proof (above_ge _ _ Hx).
  destruct (delta_spec align i Ha ltac:(lia)) as (Hd&Ed&_&_).
  rewrite chain_cons. iIntros "(Hx&Hi&Hy)". iApply wp_bind. iApply (wp_slob_units with "Hi"); [lia..|]. iIntros "Hi".
  fold (delta align i). rewrite (s32_small (delta align i)); [|lia]. rewrite Ed.
  destruct (Z.leb_spec (k + delta align i) n) as [Hfit|Hfit].
  - destruct (head_spaced align i n k xs ys Ha Hfit ltac:(lia) Hs) as (Hh&Hab&_&_&_&Hy'&Hin').
    iAssert (∀ h', <affine> ⌜h' = charge k (linked (xs ++ head align i) (first (leftover (i + delta align i) (n - delta align i) k ++ ys) 2048) h)⌝
       -∗ raw (b + 2 * (i + delta align i)) k ∗ chain b ((xs ++ head align i) ++ leftover (i + delta align i) (n - delta align i) k ++ ys) 2048
       -∗ page_alloc_post align k xs ((i, n) :: ys) h (h', Some (b + 2 * (i + delta align i))))%I as "Hpost".
    { iIntros (h' ->) "[Hr Hc]". unfold page_alloc_post. cbn [fst snd]. iExists [], i, n, ys. cbn [app]. by iFrame. }
    destruct (Z.eqb_spec (delta align i) 0) as [E0|E0].
    + assert (head align i = []) as Eh by (unfold head; by rewrite E0). rewrite Eh app_nil_r in Hh, Hab |- *.
      rewrite E0 Z.add_0_r Z.sub_0_r.
      iApply (wp_page_take with "[Hx Hi Hy]"); [done|lia|lia|lia|done|lia|iFrame|]. iIntros "H". by iApply "Hpost".
    + assert (head align i = [(i, delta align i)]) as Eh by (unfold head; destruct (Z.eqb_spec (delta align i) 0); done). rewrite Eh in Hh, Hab |- *.
      iApply wp_bind. iApply (wp_slob_next with "Hi"); [done|lia..|]. iIntros "Hi".
      rewrite block_raw; [|lia]. rewrite (raw_cut _ n (delta align i)); [|lia]. iDestruct "Hi" as "[Hi Hr]".
      replace (b + 2 * i + 2 * delta align i) with (b + 2 * (i + delta align i)) by lia.
      rewrite !s16_small; [|lia..]. iApply wp_bind. iApply (wp_set_slob with "Hr"); [done|lia..|]. iIntros "Hr".
      iApply wp_bind. iApply (wp_set_slob with "Hi"); [done|lia..|]. iIntros "Hi".
      iApply wp_bind. iApply (wp_slob_units with "Hr"); [lia..|]. iIntros "Hr".
      assert (Some (b + 2 * i) = prev_of b (xs ++ [(i, delta align i)])) as -> by (unfold prev_of; by rewrite last_snoc).
      iApply (wp_page_take with "[Hx Hi Hr Hy]"); [done|lia|lia|lia|done|lia| |].
      { iSplitL "Hx Hi"; [iApply chain_snoc|rewrite chain_cons]; iFrame. }
      iIntros "H". by iApply "Hpost".
  - assert (~ fits align k (i, n)) as Hno by (unfold fits; cbn; lia).
    iApply wp_bind. iApply (wp_slob_last with "Hi"); [done|lia..|]. iIntros "Hi".
    destruct (Z.eqb_spec (first ys 2048) 2048) as [E|E].
    + assert (ys = []) as ->. { destruct ys as [|[j q] ys]; [done|]. cbn in *. lia. }
      wp_done. unfold page_alloc_post. cbn [fst snd]. rewrite chain_app. cbn [chain first]. iFrame. iPureIntro. split; [done|]. by constructor.
    + iApply wp_bind. iApply (wp_slob_next with "Hi"); [done|lia..|]. iIntros "Hi".
      assert (Some (b + 2 * i) = prev_of b (xs ++ [(i, n)])) as -> by (unfold prev_of; by rewrite last_snoc).
      iApply (wp_wand with "[Hx Hi Hy]").
      * iApply IH; [by intros ->| by rewrite -assoc_L|cbn in Hf; lia|]. iSplitL "Hx Hi"; [iApply chain_snoc|]; iFrame.
      * iIntros (hr) "H". by iApply page_alloc_post_skip.
Qed.
End PageAlloc.

(** * Freeing in a page *)

(** The free blocks around a piece of memory that is not free. *)
Lemma chain_apart b i n e : 1 <= n -> forall bs lo, spaced lo bs ->
  chain b bs e ⊢ raw (b + 2 * i) n -∗ ⌜Forall (fun x => x.1 + x.2 <= i \/ i + n <= x.1) bs⌝.
Proof.
  intros Hn. induction bs as [|[j m] bs IH]; intros lo Hs; [iIntros "_ _"; iPureIntro; constructor|].
  destruct Hs as (?&?&?&Hs). rewrite chain_cons. iIntros "[Hj Hc] Hr". rewrite block_raw; [|done].
  iAssert ⌜j + m <= i \/ i + n <= j⌝%I as %Ho.
  { iDestruct (raw_apart with "Hj Hr") as %Ho; [done|done|]. iPureIntro. lia. }
  iDestruct (IH with "Hc Hr") as %Hf; [done|]. iPureIntro. by constructor.
Qed.
Lemma split_around i n lo bs :
  spaced lo bs -> lo <= i + 1 -> i + n <= 2048 -> 1 <= n -> Forall (fun x => x.1 + x.2 <= i \/ i + n <= x.1) bs ->
  exists xs ys, bs = xs ++ ys /\ above lo xs <= i + 1 /\ i + n <= first ys 2048 /\ Forall (fun x => x.1 < i) xs.
Proof.
  revert lo. induction bs as [|[j m] bs IH]; intros lo Hs Hlo Hin Hn Hf; [by exists [], []|].
  destruct Hs as (?&?&?&Hs). apply Forall_cons in Hf as [[Hj|Hj] Hf]; cbn in Hj.
  - destruct (IH (j + m + 1) Hs ltac:(lia) Hin Hn Hf) as (xs&ys&->&?&?&?). exists ((j, m) :: xs), ys.
    split_and!; try done. constructor; [cbn; lia|done].
  - exists [], ((j, m) :: bs). by split_and!.
Qed.

(** How much there can be on either side. *)
Lemma total_around i n xs ys :
  spaced 0 (xs ++ ys) -> above 0 xs <= i + 1 -> i + n <= first ys 2048 -> 0 <= i -> i + n <= 2048 ->
  spaced (i + n) ys /\ total xs <= i /\ total ys <= 2048 - (i + n).
Proof.
  intros Hs Hab Hfi Hi Hin. apply spaced_app in Hs as [Hx Hy]. pose proof (blocks_bound _ _ Hx) as [_ Hlx].
  assert (Hy' : spaced (i + n) ys) by (destruct ys as [|[j m] ys]; [done|]; destruct Hy as (?&?&?&Hy); cbn in Hfi; by split_and!).
  pose proof (blocks_bound _ _ Hy') as [_ Hly]. pose proof (above_le _ _ Hy' ltac:(lia)). split_and!; [done|..].
  - destruct xs; cbn [length total] in *; lia.
  - destruct ys; cbn [length total] in *; lia.
Qed.

(** A block of [n] units at [i] in front of the free blocks [ys], merged with the first of them if
    they touch; and behind the free block of [q] units at [p]. *)
Definition join_next (i n : Z) (ys : list (Z * Z)) : list (Z * Z) :=
  match ys with
  | (j, m) :: ys' => if i + n =? j then (i, n + m) :: ys' else (i, n) :: ys
  | [] => [(i, n)]
  end.
Definition join_prev (p q i : Z) (zs : list (Z * Z)) : list (Z * Z) :=
  match zs with
  | (j, m) :: zs' => if p + q =? i then (p, q + m) :: zs' else (p, q) :: zs
  | [] => [(p, q)]
  end.

Lemma join_next_spec lo i n ys :
  lo <= i -> 1 <= n -> i + n <= 2048 -> i + n <= first ys 2048 -> spaced (i + n) ys ->
  spaced lo (join_next i n ys) /\ total (join_next i n ys) = n + total ys
  /\ (exists n' ys', join_next i n ys = (i, n') :: ys' /\ n <= n').
Proof.
  intros Hlo Hn Hin Hf Hs. destruct ys as [|[j m] ys]; cbn in *; [split_and!; try (done || lia); by eexists _, _|].
  destruct Hs as (?&?&?&Hs). destruct (Z.eqb_spec (i + n) j) as [<-|]; cbn.
  - replace (i + (n + m) + 1) with (i + n + m + 1) by lia. split_and!; try (done || lia). eexists _, _. split; [done|lia].
  - split_and!; try (done || lia). eexists _, _. split; [done|lia].
Qed.

Lemma join_prev_spec xs p q i n' ys' :
  spaced 0 (xs ++ [(p, q)]) -> p + q <= i -> spaced i ((i, n') :: ys') ->
  spaced 0 (xs ++ join_prev p q i ((i, n') :: ys')) /\ total (join_prev p q i ((i, n') :: ys')) = q + n' + total ys'
  /\ forall e, first (xs ++ join_prev p q i ((i, n') :: ys')) e = first (xs ++ [(p, q)]) e.
Proof.
  intros Hs Hpq (?&?&?&Hy). apply spaced_app in Hs as [Hx (?&?&?&_)]. cbn [join_prev]. rewrite !spaced_app.
  destruct (Z.eqb_spec (p + q) i) as [<-|]; cbn.
  - replace (p + (q + n') + 1) with (p + q + n' + 1) by lia. split_and!; try (done || lia). intros e. by rewrite !first_app.
  - split_and!; try (done || lia). intros e. by rewrite !first_app.
Qed.

(** The free blocks and the piece that is freed fill the page. *)
Lemma chain_fill b i n bs :
  spaced 0 bs -> 0 <= i -> i + n <= 2048 -> 1 <= n -> total bs + n = 2048 -> chain b bs 2048 ∗ raw (b + 2 * i) n ⊢ raw b 2048.
Proof.
  intros Hs Hi Hin Hn Ht. iIntros "[Hc Hr]". iDestruct (chain_apart with "Hc Hr") as %Hf; [done|done|].
  destruct (split_around i n 0 bs Hs ltac:(lia) Hin Hn Hf) as (xs&ys&->&Hab&Hfi&_).
  destruct (total_around i n xs ys Hs Hab Hfi Hi Hin) as (Hy'&?&?).
  apply spaced_app in Hs as [Hx _]. rewrite total_app in Ht. pose proof (blocks_bound _ _ Hx) as [_ Hlx].
  pose proof (blocks_bound _ _ Hy') as [_ Hly]. pose proof (above_le _ _ Hy' ltac:(lia)). rewrite chain_app. iDestruct "Hc" as "[Hx Hy]".
  rewrite (raw_cut b 2048 i); [|lia]. rewrite (raw_cut (b + 2 * i) (2048 - i) n); [|lia]. iFrame "Hr". iSplitL "Hx".
  - destruct xs as [|[p q] [|[p' q'] xs]]; cbn [length total] in *; [|destruct Hx as (?&?&?&_); cbn in Hab|lia].
    + assert (i = 0) as -> by lia. by rewrite raw_0.
    + rewrite chain_cons block_raw; [|done]. assert (p = 0) as -> by lia. assert (q = i) as -> by lia.
      replace (b + 2 * 0) with b by lia. iDestruct "Hx" as "[$ _]".
  - destruct ys as [|[j m] [|[j' m'] ys]]; cbn [length total] in *; [|destruct Hy' as (?&?&?&_)|lia].
    + replace (2048 - i - n) with 0 by lia. by rewrite raw_0.
    + rewrite chain_cons block_raw; [|done]. assert (j = i + n) as -> by lia. replace (b + 2 * i + 2 * n) with (b + 2 * (i + n)) by lia.
      replace (2048 - i - n) with m by lia. iDestruct "Hy" as "[$ _]".
Qed.

Section PageFree.
Context {S : Type} `{PageSource S} (b : Z) (Hb : page_ok b).
Implicit Types h : heap S.

Lemma page_at_update f h c : page_at (update b f h) c = if decide (c = b) then f (page_at h b) else page_at h c.
Proof. unfold page_at, update. cbn. case_decide as E; [subst; by rewrite lookup_insert_eq|by rewrite lookup_insert_ne]. Qed.
Lemma page_at_same f h : page_at (update b f h) b = f (page_at h b).
Proof. rewrite page_at_update. by rewrite decide_True. Qed.

Lemma wp_free_front i n j m ys h (Φ : heap S -> hProp) :
  spaced 0 ((j, m) :: ys) -> 0 <= i -> 1 <= n -> i + n <= j -> freelist (page_at h b) = b + 2 * j ->
  raw (b + 2 * i) n ∗ chain b ((j, m) :: ys) 2048
  ⊢ (∀ h', <affine> ⌜page_at h' b = set_freelist (b + 2 * i) (page_at h b) /\ (forall c, c <> b -> page_at h' c = page_at h c)
                    /\ source h' = source h /\ small h' = small h /\ medium h' = medium h /\ large h' = large h⌝
      -∗ chain b (join_next i n ((j, m) :: ys)) 2048 -∗ Φ h')
    -∗ wp (free_front b (b + 2 * i) n h) Φ.
Proof using Hb.
  intros Hs Hi Hn Hin Hfl. pose proof (spaced_next _ _ _ _ Hs) as Hnext. destruct Hs as (?&?&?&Hs).
  rewrite chain_cons. iIntros "(Hr&Hj&Hc) HΦ". unfold free_front. rewrite Hfl. change SLOB_UNIT with 2.
  replace (b + 2 * i + 2 * n) with (b + 2 * (i + n)) by lia. cbn [join_next]. iApply wp_bind.
  rewrite addr_eqb. destruct (Z.eqb_spec (i + n) j) as [<-|Hne].
  - iApply wp_bind. iApply (wp_slob_units with "Hj"); [lia..|]. iIntros "Hj".
    iApply wp_bind. iApply (wp_slob_next with "Hj"); [done|lia..|]. iIntros "Hj". wp_done.
    rewrite page_at_same. cbn [set_freelist freelist]. rewrite s16_small; [|lia].
    iApply wp_bind. iApply (wp_set_slob with "[Hr Hj]"); [done|lia..| |].
    { rewrite (raw_cut _ (n + m) n); [|lia]. rewrite block_raw; [|lia]. replace (b + 2 * i + 2 * n) with (b + 2 * (i + n)) by lia.
      replace (n + m - n) with m by lia. iFrame. }
    iIntros "Hi". wp_done. iApply "HΦ"; [|rewrite chain_cons; iFrame]. iPureIntro. rewrite page_at_same page_at_same.
    split_and!; try done. intros c Hc. rewrite !page_at_update. by rewrite !decide_False.
  - wp_done. rewrite Hfl.
    iApply wp_bind. iApply (wp_set_slob with "Hr"); [done|lia..|]. iIntros "Hi". wp_done.
    iApply "HΦ"; [|rewrite !chain_cons; iFrame]. iPureIntro. rewrite page_at_same.
    split_and!; try done. intros c Hc. rewrite !page_at_update. by rewrite !decide_False.
Qed.

Fixpoint last_index (p : Z) (xs : list (Z * Z)) : Z := match xs with [] => p | x :: xs' => last_index x.1 xs' end.
Lemma last_index_snoc xs : forall p x, last_index p (xs ++ [x]) = x.1.
Proof. induction xs as [|y xs IH]; intros p x; [done|]. apply IH. Qed.

Lemma wp_free_loop i ys (Φ : Z * Z -> hProp) : forall xs p fuel lo,
  Forall (fun x => x.1 < i) xs -> i <= first ys 2048 -> spaced lo (xs ++ ys) -> 0 <= lo -> (length xs < fuel)%nat ->
  chain b (xs ++ ys) 2048
  ⊢ (chain b (xs ++ ys) 2048 -∗ Φ (b + 2 * last_index p xs, b + 2 * first ys 2048))
    -∗ wp (free_loop fuel (b + 2 * i) (b + 2 * p) (b + 2 * first (xs ++ ys) 2048)) Φ.
Proof using Hb.
  induction xs as [|[j m] xs IH]; intros p fuel lo Hf Hi Hs Hlo Hfuel; destruct fuel as [|fuel]; try (cbn in Hfuel; lia); cbn [app free_loop].
  - iIntros "H HΦ". destruct (Z.ltb_spec (b + 2 * first ys 2048) (b + 2 * i)); [lia|]. wp_done. by iApply "HΦ".
  - change (((j, m) :: xs) ++ ys) with ((j, m) :: (xs ++ ys)) in Hs.
    apply Forall_cons in Hf as [Hj Hf]. cbn in Hj. pose proof (spaced_next _ _ _ _ Hs) as Hnext. destruct Hs as (?&?&?&Hs).
    rewrite chain_cons. iIntros "[Hj Hc] HΦ". cbn [first]. destruct (Z.ltb_spec (b + 2 * j) (b + 2 * i)); [|lia].
    iApply wp_bind. iApply (wp_slob_next with "Hj"); [done|lia..|]. iIntros "Hj".
    iApply (IH j fuel _ Hf Hi Hs with "Hc"); [lia|cbn in Hfuel; lia|]. iIntros "Hc".
    iApply "HΦ". iFrame.
Qed.

Lemma wp_free_behind xs p q i n ys (Φ : unit -> hProp) :
  spaced 0 (xs ++ [(p, q)]) -> p + q <= i -> 1 <= n -> i + n <= first ys 2048 -> spaced (i + n) ys ->
  chain b (xs ++ [(p, q)]) (first ys 2048) ∗ raw (b + 2 * i) n ∗ chain b ys 2048
  ⊢ (chain b (xs ++ join_prev p q i (join_next i n ys)) 2048 -∗ Φ tt)
    -∗ wp (free_behind (b + 2 * i) n (b + 2 * p) (b + 2 * first ys 2048)) Φ.
Proof using Hb.
  intros Hs Hpq Hn Hin Hys. apply spaced_app in Hs as [Hx (Hp&Hq&Hpq'&_)]. pose proof (above_ge _ _ Hx).
  pose proof (spaced_first _ _ Hys) as [Hf _]. rewrite -chain_snoc.
  iIntros "([Hx Hp]&Hi&Hy) HΦ". unfold free_behind. change SLOB_UNIT with 2.
  iApply wp_bind. iApply (wp_slob_last with "Hp"); [done|lia..|]. iIntros "Hp".
  replace (b + 2 * i + 2 * n) with (b + 2 * (i + n)) by lia. iApply wp_bind.
  iApply (wp_wand _ (fun _ => chain b (join_next i n ys) 2048) with "[Hi Hy]").
  - destruct ys as [|[j m] ys]; cbn [first join_next] in *.
    + cbn [negb andb Z.eqb]. iApply (wp_set_slob with "Hi"); [done|lia..|]. iIntros "Hi". rewrite chain_cons. iFrame.
    + pose proof (spaced_next _ _ _ _ Hys) as Hnext. destruct Hys as (?&?&?&Hys).
      destruct (Z.eqb_spec j 2048); [lia|]. cbn [negb andb]. rewrite chain_cons. iDestruct "Hy" as "[Hj Hy]".
      rewrite addr_eqb. destruct (Z.eqb_spec (i + n) j) as [<-|Hne].
      * iApply wp_bind. iApply (wp_slob_units with "Hj"); [lia..|]. iIntros "Hj".
        iApply wp_bind. iApply (wp_slob_next with "Hj"); [done|lia..|]. iIntros "Hj". rewrite s16_small; [|lia].
        iApply (wp_set_slob with "[Hi Hj]"); [done|lia..| |].
        { rewrite (raw_cut _ (n + m) n); [|lia]. rewrite block_raw; [|lia]. replace (b + 2 * i + 2 * n) with (b + 2 * (i + n)) by lia.
          replace (n + m - n) with m by lia. iFrame. }
        iIntros "Hi". rewrite chain_cons. iFrame.
      * iApply (wp_set_slob with "Hi"); [done|lia..|]. iIntros "Hi". rewrite !chain_cons. iFrame.
  - iIntros (_) "Hc". destruct (join_next_spec (p + q) i n ys Hpq Hn ltac:(lia) Hin Hys) as (Hj&_&n'&ys'&Ej&_). rewrite Ej in Hj |- *.
    pose proof (spaced_next _ _ _ _ Hj) as Hnext. destruct Hj as (?&?&?&Hj). rewrite chain_cons. iDestruct "Hc" as "[Hi Hc]".
    iApply wp_bind. iApply (wp_slob_units with "Hp"); [lia..|]. iIntros "Hp". cbn [join_prev].
    replace (b + 2 * p + 2 * q) with (b + 2 * (p + q)) by lia. rewrite addr_eqb. destruct (Z.eqb_spec (p + q) i) as [<-|Hne].
    + iApply wp_bind. iApply (wp_slob_units with "Hi"); [lia..|]. iIntros "Hi".
      iApply wp_bind. iApply (wp_slob_next with "Hi"); [done|lia..|]. iIntros "Hi". rewrite s16_small; [|lia].
      replace (n' + q) with (q + n') by lia. iApply (wp_set_slob with "[Hp Hi]"); [done|lia..| |].
      { rewrite (raw_cut _ (q + n') q); [|lia]. rewrite !block_raw; [|lia..]. replace (b + 2 * p + 2 * q) with (b + 2 * (p + q)) by lia.
        replace (q + n' - q) with n' by lia. iFrame. }
      iIntros "Hp". iApply "HΦ". rewrite chain_app chain_cons. iFrame.
    + iApply (wp_set_slob with "[Hp]"); [done|lia..|by iApply block_raw|]. iIntros "Hp". iApply "HΦ".
      rewrite chain_app !chain_cons. iFrame.
Qed.
End PageFree.
