(* ===== verification/SlobHeap.v ===== *)
(** The SLOB heap: what it asks of the page allocator, its invariant, and what allocating and
    freeing a block do. *)

From iris.proofmode Require Import proofmode.
From S2P Require Import Prelude Mem HeapLogic FindBit Kfifo Slob SlobLogic.

(** * The page allocator *)

Definition frames_of (p : Z) (o : nat) : gset Z := list_to_set (seqZ p (2 ^ Z.of_nat o)).
Lemma elem_of_frames p o x : x ∈ frames_of p o <-> p <= x < p + 2 ^ Z.of_nat o.
Proof. unfold frames_of. rewrite elem_of_list_to_set elem_of_seqZ. done. Qed.

(** What SLOB relies on: blocks that are handed out consist of frames of the allocator and do not
    overlap, both operations return, and a block can be given back. *)
Class PageSourceLaws (S : Type) `{PageSource S} := {
  ps_ok : S -> gset (Z * nat) -> Prop;
  ps_frames : S -> gset Z;
  ps_range s O x : ps_ok s O -> x ∈ ps_frames s -> 0 <= x < 17179869184;
  ps_block s O p o : ps_ok s O -> (p, o) ∈ O -> frames_of p o ⊆ ps_frames s;
  ps_apart s O p o q o' : ps_ok s O -> (p, o) ∈ O -> (q, o') ∈ O -> (p, o) <> (q, o') -> frames_of p o ## frames_of q o';
  ps_alloc s O c o : ps_ok s O ->
    exists s' r, alloc_pages c o s = Ret (s', r) /\ ps_frames s' = ps_frames s
      /\ (forall q o', (q, o') ∈ O -> compound_order q s' = compound_order q s)
      /\ match r with
         | None => ps_ok s' O
         | Some p => (p, o) ∉ O /\ ps_ok s' ({[(p, o)]} ∪ O) /\ compound_order p s' = Ret (if c then o else 0%nat)
         end;
  ps_release s O p o : ps_ok s O -> (p, o) ∈ O ->
    exists s', release_pages p o s = Ret s' /\ ps_frames s' = ps_frames s /\ ps_ok s' (O ∖ {[(p, o)]})
      /\ forall q o', (q, o') ∈ O ∖ {[(p, o)]} -> compound_order q s' = compound_order q s;
}.
(** The frames that the source started with. *)
Class Frames := frames : gset Z.

(** * Addresses of pages *)

Lemma page_address_eq x : 0 <= x <= 17179869184 -> page_address x = x * 4096 + PAGE_OFFSET.
Proof.
  intros Hx. unfold page_address. change (Z.shiftl x PAGE_SHIFT) with (Z.shiftl x 12). rewrite Z.shiftl_mul_pow2; [|done].
  change (2 ^ 12) with 4096. apply w64_small. unfold PAGE_OFFSET, two64. lia.
Qed.
Lemma page_address_ok x : 0 <= x <= 17179869184 -> page_ok (page_address x).
Proof.
  intros Hx. rewrite page_address_eq; [|done]. unfold page_ok, PAGE_OFFSET, two64. split_and!; [|lia..].
  rewrite Z.add_comm Z.mod_add; [done|lia].
Qed.
Lemma page_to_pfn_address x : 0 <= x <= 17179869184 -> page_to_pfn (page_address x) = x.
Proof.
  intros Hx. rewrite page_address_eq; [|done]. unfold page_to_pfn. change PAGE_SHIFT with 12. rewrite Z.shiftr_div_pow2; [|done].
  change (2 ^ 12) with 4096. divmod (x * 4096 + PAGE_OFFSET - PAGE_OFFSET) 4096. lia.
Qed.
Lemma page_address_add x k : 0 <= x -> 0 <= k -> x + k <= 17179869184 -> page_address (x + k) = page_address x + 2 * (2048 * k).
Proof. intros. rewrite !page_address_eq; [|lia..]. lia. Qed.

(** A block of frames is one piece of memory. *)
Lemma raw_pages n : forall p, 0 <= p -> p + Z.of_nat n <= 17179869184 ->
  ([∗ list] x ∈ seqZ p (Z.of_nat n), raw (page_address x) 2048) ⊣⊢ raw (page_address p) (2048 * Z.of_nat n).
Proof.
  induction n as [|n IH]; intros p Hp Hn.
  - rewrite seqZ_nil; [|lia]. cbn [big_opL]. by rewrite raw_0.
  - rewrite seqZ_cons; [|lia]. rewrite big_sepL_cons. replace (Z.pred (Z.of_nat (S n))) with (Z.of_nat n) by lia.
    replace (Z.succ p) with (p + 1) by lia. rewrite IH; [|lia..]. rewrite (raw_cut _ (2048 * Z.of_nat (S n)) 2048); [|lia].
    rewrite (page_address_add p 1); [|lia..]. by replace (2048 * Z.of_nat (S n) - 2048) with (2048 * Z.of_nat n) by lia.
Qed.

Section Heap.
Context {S : Type} `{PageSourceLaws S} {Fr : Frames}.
Implicit Types (h : heap S) (F : gmap Z (list (Z * Z))) (B : gmap (Z * nat) bool).

(** * The invariant *)

(** [F] gives the free blocks of each page of the heap, [B] the blocks of pages that were handed
    out whole, and whether the page allocator recorded their order. *)
Definition owned F B : gset (Z * nat) := set_map (fun b => (page_to_pfn b, 0%nat)) (dom F) ∪ dom B.
Definition lists h : list Z := small h ++ medium h ++ large h.

Record describes (pg : slob_page) (b : Z) (bs : list (Z * Z)) : Prop := {
  d_units : units pg = total bs;
  d_slab : PageSlab pg = true;
  d_free : PageSlobFree pg = bool_decide (bs <> []);
  d_list : bs <> [] -> freelist pg = b + 2 * first bs 2048;
}.
Record heap_wf h F B : Prop := {
  hw_source : ps_ok (source h) (owned F B);
  hw_address b : b ∈ dom F -> exists x, x ∈ ps_frames (source h) /\ b = page_address x;
  hw_page b bs : F !! b = Some bs -> spaced 0 bs /\ describes (page_at h b) b bs;
  hw_other b : F !! b = None -> PageSlab (page_at h b) = false /\ PageSlobFree (page_at h b) = false /\ units (page_at h b) = -1;
  hw_nodup : NoDup (lists h);
  hw_lists b : b ∈ lists h <-> exists bs, F !! b = Some bs /\ bs <> [];
  hw_whole (p : Z) (o : nat) (c : bool) : B !! (p, o) = Some c -> compound_order p (source h) = Ret (if c then o else 0%nat);
  hw_distinct b : b ∈ dom F -> B !! (page_to_pfn b, 0%nat) = None;
  hw_frames : ps_frames (source h) = frames;
}.

Lemma hw_page_ok h F B b : heap_wf h F B -> b ∈ dom F -> page_ok b /\ page_address (page_to_pfn b) = b /\ page_to_pfn b ∈ ps_frames (source h).
Proof.
  intros Hwf Hb. destruct (hw_address _ _ _ Hwf b Hb) as (x&Hx&->). pose proof (ps_range _ _ _ (hw_source _ _ _ Hwf) Hx).
  rewrite page_to_pfn_address; [|lia]. split; [apply page_address_ok; lia|done].
Qed.

(** The memory of the frames that nobody has. *)
Definition used (O : gset (Z * nat)) : gset Z := ⋃ ((fun po => frames_of po.1 po.2) <$> elements O).
Definition avail (s : S) (O : gset (Z * nat)) : hProp := ([∗ set] x ∈ ps_frames s ∖ used O, raw (page_address x) 2048)%I.
Definition chains F : hProp := ([∗ map] b ↦ bs ∈ F, chain b bs 2048)%I.
Definition slobP h F B : hProp := (<affine> ⌜heap_wf h F B⌝ ∗ chains F ∗ avail (source h) (owned F B))%I.

Lemma elem_of_used O x : x ∈ used O <-> exists p o, (p, o) ∈ O /\ x ∈ frames_of p o.
Proof.
  unfold used. rewrite elem_of_union_list. split.
  - intros (X&HX&Hx). apply list_elem_of_fmap in HX as ([p o]&->&Hp). exists p, o. by rewrite -elem_of_elements.
  - intros (p&o&Hp&Hx). exists (frames_of p o). split; [|done]. apply list_elem_of_fmap. exists (p, o). by rewrite elem_of_elements.
Qed.

(** ** The memory of a block of pages *)

Lemma avail_take s O p o :
  ps_ok s ({[(p, o)]} ∪ O) -> (p, o) ∉ O ->
  avail s O ⊣⊢ avail s ({[(p, o)]} ∪ O) ∗ raw (page_address p) (2048 * 2 ^ Z.of_nat o).
Proof.
  intros Hok Hno. assert (Hin : (p, o) ∈ {[(p, o)]} ∪ O) by set_solver.
  assert (Hfr : frames_of p o ⊆ ps_frames s ∖ used O).
  { intros x Hx. apply elem_of_difference. split; [by eapply ps_block|]. intros (q&o'&Hq&Hx')%elem_of_used.
    eapply (ps_apart s _ p o q o' Hok); [done|set_solver|intros [= -> ->]; done|done|done]. }
  unfold avail. assert (ps_frames s ∖ used O = frames_of p o ∪ ps_frames s ∖ used ({[(p, o)]} ∪ O)) as ->.
  { apply set_eq. intros x. rewrite elem_of_union !elem_of_difference !elem_of_used. split.
    - intros [Hx Hu]. destruct (decide (x ∈ frames_of p o)) as [|Hn]; [by left|right]. split; [done|].
      intros (q&o'&Hq&Hx'). apply elem_of_union in Hq as [Hq|Hq]; [|by eauto]. set_solver.
    - intros [Hx|[Hx Hu]]; [apply Hfr in Hx; by rewrite elem_of_difference elem_of_used in Hx|]. split; [done|].
      intros (q&o'&Hq&Hx'). apply Hu. exists q, o'. set_solver. }
  rewrite big_sepS_union.
  2: { intros x Hx Hx'. rewrite elem_of_difference elem_of_used in Hx'. apply Hx'. exists p, o. done. }
  rewrite comm. f_equiv. unfold frames_of. rewrite big_sepS_list_to_set; [|apply NoDup_seqZ].
  assert (0 < 2 ^ Z.of_nat o) by (apply Z.pow_pos_nonneg; lia).
  assert (Hlo : p ∈ ps_frames s) by (eapply ps_block; [done..|]; apply elem_of_frames; lia).
  assert (Hhi : p + 2 ^ Z.of_nat o - 1 ∈ ps_frames s) by (eapply ps_block; [done..|]; apply elem_of_frames; lia).
  pose proof (ps_range _ _ _ Hok Hlo). pose proof (ps_range _ _ _ Hok Hhi).
  rewrite -(Z2Nat.id (2 ^ Z.of_nat o)); [|lia]. apply raw_pages; lia.
Qed.

(** ** Changing one page *)

Lemma owned_insert F B b bs : b ∈ dom F -> owned (<[b := bs]> F) B = owned F B.
Proof. intros Hb. unfold owned. by rewrite dom_insert_lookup_L; [|by apply elem_of_dom]. Qed.

Lemma heap_wf_page h F B h' b bs bs' :
  heap_wf h F B -> F !! b = Some bs -> source h' = source h -> (forall c, c <> b -> page_at h' c = page_at h c) ->
  spaced 0 bs' -> describes (page_at h' b) b bs' -> NoDup (lists h') ->
  (forall c, c ∈ lists h' <-> (c = b /\ bs' <> []) \/ (c <> b /\ c ∈ lists h)) ->
  heap_wf h' (<[b := bs']> F) B.
Proof.
  intros [W1 W2 W3 W4 W5 W6 W7 W8 W9] Hb Es Ep Hs Hd Hnd Hl. assert (b ∈ dom F) by (by apply elem_of_dom).
  assert (Hdom : dom (<[b := bs']> F) = dom F) by (by apply dom_insert_lookup_L).
  split; rewrite ?Es ?owned_insert ?Hdom; try done.
  - intros c cs. rewrite lookup_insert. case_decide as E; [by intros [= <-]; subst|]. intros Hc. rewrite Ep; [|done]. by apply W3.
  - intros c. rewrite lookup_insert. case_decide as E; [done|]. intros Hc. rewrite Ep; [|done]. by apply W4.
  - intros c. rewrite Hl lookup_insert. case_decide as E; [subst; naive_solver|]. rewrite W6. naive_solver.
Qed.
(** The order of the lists does not matter. *)
Lemma heap_wf_lists h F B h' :
  heap_wf h F B -> source h' = source h -> pgs h' = pgs h -> lists h' ≡ₚ lists h -> heap_wf h' F B.
Proof.
  intros [W1 W2 W3 W4 W5 W6 W7 W8 W9] Es Ep El. assert (forall c, page_at h' c = page_at h c) as Ea by (intros c; unfold page_at; by rewrite Ep).
  split; rewrite ?Es; try done.
  - intros c cs Hc. rewrite Ea. by apply W3.
  - intros c Hc. rewrite Ea. by apply W4.
  - by rewrite El.
  - intros c. rewrite El. apply W6.
Qed.

Lemma lists_unlist b h : lists (unlist b h) = filter (fun q => q <> b) (lists h).
Proof. unfold lists. by rewrite !filter_app. Qed.
Lemma lists_update b f h : lists (update b f h) = lists h.
Proof. done. Qed.
Lemma lists_set_free b l h : lists (set_slob_page_free b l h) ≡ₚ b :: lists h.
Proof.
  unfold set_slob_page_free. rewrite lists_update. unfold lists. destruct l; cbn [set_list get_list small medium large app]; [done|..].
  - by rewrite -Permutation_middle.
  - by rewrite !app_assoc -Permutation_middle.
Qed.

Lemma page_at_unlist b h c : page_at (unlist b h) c = page_at h c.
Proof. done. Qed.

(** What charging a page for a block does to its fields and to the lists. *)
Definition relisted (b : Z) (keep : bool) h h' : Prop :=
  forall l, get_list l h' = if keep then get_list l h else filter (fun q => q <> b) (get_list l h).
Lemma relisted_lists b keep h h' :
  relisted b keep h h' -> NoDup (lists h) ->
  NoDup (lists h') /\ forall c, c ∈ lists h' <-> c ∈ lists h /\ (keep = false -> c <> b).
Proof.
  intros Hr Hnd. assert (lists h' = if keep then lists h else filter (fun q => q <> b) (lists h)) as ->.
  { unfold lists. pose proof (Hr free_slob_small) as E1. pose proof (Hr free_slob_medium) as E2. pose proof (Hr free_slob_large) as E3.
    cbn in E1, E2, E3. rewrite E1 E2 E3. destruct keep; [done|]. by rewrite !filter_app. }
  destruct keep; [naive_solver|]. split; [by apply NoDup_filter|]. intros c. rewrite list_elem_of_filter. naive_solver.
Qed.

Lemma charge_spec b k xs j h :
  0 <= units (page_at h b) - k < 32768 ->
  let h' := charge b k (linked b xs j h) in
  source h' = source h /\ (forall c, c <> b -> page_at h' c = page_at h c)
  /\ units (page_at h' b) = units (page_at h b) - k /\ PageSlab (page_at h' b) = PageSlab (page_at h b)
  /\ freelist (page_at h' b) = (match xs with [] => b + 2 * j | _ => freelist (page_at h b) end)
  /\ PageSlobFree (page_at h' b) = (if units (page_at h b) =? k then false else PageSlobFree (page_at h b))
  /\ relisted b (negb (units (page_at h b) =? k)) h h'.
Proof.
  intros Hu. cbv zeta. unfold charge. set (g := linked b xs j h).
  assert (Hl : page_at g b = (match xs with [] => set_freelist (b + 2 * j) (page_at h b) | _ => page_at h b end)).
  { subst g. destruct xs; [|done]. apply page_at_same. }
  assert (Hc : forall c, c <> b -> page_at g c = page_at h c).
  { intros c Hc. subst g. destruct xs; [|done]. cbn. rewrite page_at_update. by rewrite decide_False. }
  assert (Hg : source g = source h /\ forall l, get_list l g = get_list l h) by (subst g; split; [|intros []]; by destruct xs).
  clearbody g. destruct Hg as [Hs Hgl]. rewrite page_at_same. cbn [set_units units].
  assert (Hlu : units (page_at g b) = units (page_at h b)) by (rewrite Hl; by destruct xs).
  rewrite Hlu (s32_small (_ - k)); [|lia].
  assert ((units (page_at h b) - k =? 0) = (units (page_at h b) =? k)) as -> by (destruct (Z.eqb_spec (units (page_at h b)) k), (Z.eqb_spec (units (page_at h b) - k) 0); (done || lia)).
  destruct (Z.eqb_spec (units (page_at h b)) k) as [Ek|Ek]; cbn [negb]; unfold clear_slob_page_free.
  - rewrite !page_at_same !page_at_unlist !page_at_same. cbn [set_free set_units units PageSlab freelist PageSlobFree].
    rewrite Hlu (s32_small (_ - k)); [|lia]. rewrite Hl. split_and!; try (done || by destruct xs).
    + intros c Hne. rewrite page_at_update decide_False; [|done]. rewrite page_at_unlist page_at_update decide_False; [|done]. by apply Hc.
    + intros l. rewrite -Hgl. by destruct l.
  - rewrite !page_at_same. cbn [set_units units PageSlab freelist PageSlobFree].
    rewrite Hlu (s32_small (_ - k)); [|lia]. rewrite Hl. split_and!; try (done || by destruct xs).
    intros c Hne. rewrite page_at_update decide_False; [|done]. by apply Hc.
Qed.

(** * Allocating in a page *)

Lemma SLOB_UNITS_eq size : 0 <= size <= 4096 -> size <= 2 * SLOB_UNITS size <= size + 1 /\ s32 (SLOB_UNITS size) = SLOB_UNITS size
  /\ s16 (SLOB_UNITS size) = SLOB_UNITS size.
Proof.
  intros Hs. unfold SLOB_UNITS, SLOB_UNIT. rewrite w64_small; [|unfold two64; lia]. divmod (size + (2 - 1)) 2.
  rewrite s32_small; [|lia]. rewrite s16_small; [|lia]. lia.
Qed.
Lemma slob_units_page : SLOB_UNITS PAGE_SIZE = 2048.
Proof. done. Qed.

Lemma spaced_length bs : spaced 0 bs -> bs <> [] -> (length bs <= 2048)%nat /\ 0 < total bs <= 2048.
Proof.
  intros Hs Hne. pose proof (blocks_bound _ _ Hs) as [Ht Hl]. pose proof (above_le _ _ Hs ltac:(lia)).
  assert (total bs <> 0) by (intros E; by apply Hne, (total_0 0)). destruct bs; [done|]. cbn [length] in *. lia.
Qed.

Lemma head_total b align i : total (head b align i) = delta b align i.
Proof. unfold head. destruct (Z.eqb_spec (delta b align i) 0) as [->|]; cbn; lia. Qed.
(** The page after the allocation. *)
Lemma page_alloc_describes h b align k pre i n post :
  page_ok b -> align_ok align -> 1 <= k -> fits b align k (i, n) -> spaced 0 (pre ++ (i, n) :: post) ->
  describes (page_at h b) b (pre ++ (i, n) :: post) ->
  let d := delta b align i in
  let before := pre ++ head b align i in
  let after := leftover (i + d) (n - d) k ++ post in
  let h' := charge b k (linked b before (first after 2048) h) in
  spaced 0 (before ++ after) /\ total (before ++ after) = total (pre ++ (i, n) :: post) - k
  /\ describes (page_at h' b) b (before ++ after)
  /\ source h' = source h /\ (forall c, c <> b -> page_at h' c = page_at h c)
  /\ relisted b (bool_decide (before ++ after <> [])) h h'.
Proof.
  intros Hb Ha Hk Hf Hs Hd d before after.
  destruct (head_spaced b Hb align i n k pre post Ha Hf Hk Hs) as (_&_&_&_&Hs'&_&_). fold d before after in Hs'.
  assert (Ht : total (before ++ after) = total (pre ++ (i, n) :: post) - k).
  { unfold before, after. rewrite !total_app leftover_total head_total. cbn. fold d. lia. }
  destruct (spaced_length _ Hs) as [_ Htot]; [by destruct pre|]. pose proof (blocks_bound _ _ Hs') as [Ht' _]. destruct Hd as [D1 D2 D3 D4].
  destruct (charge_spec b k before (first after 2048) h) as (C1&C2&C3&C4&C6&C7&C8); [lia|]. cbv zeta.
  assert ((units (page_at h b) =? k) = bool_decide (before ++ after = [])) as Hz.
  { destruct (Z.eqb_spec (units (page_at h b)) k) as [E|E]; [rewrite bool_decide_true; [done|]; apply (total_0 0); [done|lia]|].
    rewrite bool_decide_false; [done|]. intros E'. rewrite E' in Ht. cbn in Ht. lia. }
  assert (Hz' : negb (units (page_at h b) =? k) = bool_decide (before ++ after <> [])).
  { rewrite Hz. destruct (decide (before ++ after = [])); [rewrite bool_decide_true; [|done]; by rewrite bool_decide_false; [|tauto]|].
    rewrite bool_decide_false; [|done]. by rewrite bool_decide_true. }
  split_and!; try done; [|by rewrite -Hz'].
  split; [lia|by rewrite C4| |].
  - rewrite C7 Hz -Hz'. rewrite Hz. destruct (bool_decide (before ++ after = [])); [done|]. rewrite D3. by apply bool_decide_true; destruct pre.
  - intros Hne. rewrite C6 D4; [|by destruct pre]. destruct pre as [|[j m] pre]; [|done]. unfold before, head in *. fold d. cbn [app].
    destruct (d =? 0); [done|]. done.
Qed.

(** A block that was taken from the page [b]: [n] units at an aligned address. *)
Definition block_in (b align n a : Z) : Prop := (exists i, 0 <= i /\ i + n <= 2048 /\ a = b + 2 * i) /\ (align <> 0 -> a mod align = 0).

(** The page [b], all of it free if it is new, has [n] free units less. *)
Definition charged F (b n : Z) (bs' : list (Z * Z)) : Prop := total bs' = total (default [(0, 2048)] (F !! b)) - n.
Definition alloc_in_page (b size align : Z) h F B (hr : heap S * option Z) : hProp :=
  match hr.2 with
  | None => <affine> ⌜hr.1 = h⌝ ∗ slobP h F B
  | Some a => ∃ bs' keep, <affine> ⌜block_in b align (SLOB_UNITS size) a /\ relisted b keep h hr.1 /\ charged F b (SLOB_UNITS size) bs'⌝
                ∗ raw a (SLOB_UNITS size) ∗ slobP hr.1 (<[b := bs']> F) B
  end%I.

Lemma wp_slob_page_alloc h F B b bs size align :
  F !! b = Some bs -> bs <> [] -> align_ok align -> 1 <= size <= 4096 ->
  slobP h F B ⊢ wp (slob_page_alloc b size align h)
    (fun hr => alloc_in_page b size align h F B hr ∗ <affine> ⌜hr.2 = None -> Forall (fun x => ~ fits b align (SLOB_UNITS size) x) bs⌝).
Proof.
  intros Hb Hne Ha Hsz. iIntros "(%Hwf&Hc&Hav)". destruct (SLOB_UNITS_eq size) as (Hn&E32&_); [lia|].
  assert (Hbd : b ∈ dom F) by (by apply elem_of_dom). destruct (hw_page_ok _ _ _ _ Hwf Hbd) as (Hok&_).
  destruct (hw_page _ _ _ Hwf b bs Hb) as [Hs Hd]. destruct (spaced_length _ Hs Hne) as [Hlen _].
  unfold slob_page_alloc. rewrite E32 (d_list _ _ _ Hd Hne) slob_units_page.
  unfold chains. rewrite (big_sepM_delete _ F b bs Hb). iDestruct "Hc" as "[Hb Hc]".
  iApply (wp_wand with "[Hb]").
  { iApply (wp_page_alloc_loop b Hok align (SLOB_UNITS size) Ha ltac:(lia) (Z.to_nat 2048) [] bs h Hne Hs); [lia|]. cbn [chain]. by iFrame. }
  iIntros ([h' r]) "Hpost". unfold page_alloc_post, alloc_in_page. cbn [fst snd]. destruct r as [a|].
  - iDestruct "Hpost" as "(%pre&%i&%n&%post&%Hp&Hr&Hb)". destruct Hp as (->&Hf&->&->). cbn [app].
    destruct (page_alloc_describes h b align (SLOB_UNITS size) pre i n post Hok Ha ltac:(lia) Hf Hs Hd) as (Hs'&Ht&Hd'&Es&Ep&Hr).
    destruct (relisted_lists _ _ _ _ Hr (hw_nodup _ _ _ Hwf)) as [Hnd Hl].
    iSplitL; [|iPureIntro; done]. iExists _, _. iFrame "Hr". iSplitR; [iPureIntro; split; [|split; [exact Hr|unfold charged; by rewrite Hb]]|].
    + apply spaced_app in Hs as [Hx (?&?&?&_)]. pose proof (above_ge _ _ Hx). destruct (delta_spec b Hok align i Ha ltac:(lia)) as (?&_&Hmod&_).
      unfold fits in Hf. cbn in Hf. split; [|by apply Hmod]. exists (i + delta b align i). split_and!; (done || lia).
    + unfold slobP. rewrite Es owned_insert; [|done]. iFrame "Hav". iSplitR.
      * iPureIntro. eapply heap_wf_page; try done. intros c. rewrite Hl (hw_lists _ _ _ Hwf c).
        destruct (decide (c = b)) as [->|]; [|naive_solver]. case_bool_decide; naive_solver.
      * unfold chains. rewrite big_sepM_insert_delete. iFrame.
  - iDestruct "Hpost" as "[%Hp Hb]". destruct Hp as [-> Hp]. iSplitL; [|iPureIntro; done]. iSplitR; [done|]. unfold slobP, chains.
    rewrite (big_sepM_delete _ F b bs Hb). iFrame. by iPureIntro.
Qed.

(** * Searching the pages of a list *)

Lemma rotate_perm l before after h :
  get_list l h = before ++ after -> source (rotate l before h) = source h /\ pgs (rotate l before h) = pgs h /\ lists (rotate l before h) ≡ₚ lists h.
Proof.
  intros E. unfold rotate. rewrite E drop_app_length. destruct before as [|x before]; [done|]. destruct after as [|y after]; [done|].
  assert (Hp : (y :: after) ++ x :: before ≡ₚ get_list l h) by (rewrite E; apply Permutation_app_comm).
  destruct l; cbn [set_list source pgs]; (split; [done|split; [done|]]); unfold lists; cbn [small medium large get_list] in *; by rewrite Hp.
Qed.
Lemma slobP_lists h F B h' : source h' = source h -> pgs h' = pgs h -> lists h' ≡ₚ lists h -> slobP h F B ⊢ slobP h' F B.
Proof. intros Es Ep El. iIntros "(%Hwf&Hc&Ha)". unfold slobP. rewrite Es. iFrame. iPureIntro. by eapply heap_wf_lists. Qed.

Lemma elem_of_get_list l b h : b ∈ get_list l h -> b ∈ lists h.
Proof. unfold lists. destruct l; set_solver. Qed.
Lemma nodup_get_list l h : NoDup (lists h) -> NoDup (get_list l h).
Proof. unfold lists. rewrite !NoDup_app. destruct l; tauto. Qed.

(** A block of [n] units was taken from a page of the heap. *)
Definition allocated (n align : Z) h F B (hr : heap S * option Z) : hProp :=
  match hr.2 with
  | None => <affine> ⌜hr.1 = h⌝ ∗ slobP h F B
  | Some a => ∃ b bs', <affine> ⌜b ∈ dom F /\ block_in b align n a /\ charged F b n bs'⌝ ∗ raw a n ∗ slobP hr.1 (<[b := bs']> F) B
  end%I.

Lemma wp_try_pages l size align h F B : align_ok align -> 1 <= size <= 4096 ->
  forall rest before, get_list l h = before ++ rest ->
  slobP h F B ⊢ wp (try_pages l size align before rest h) (allocated (SLOB_UNITS size) align h F B).
Proof.
  intros Ha Hsz. induction rest as [|sp rest IH]; intros before El; cbn [try_pages]; iIntros "H".
  { wp_done. unfold allocated. cbn. by iFrame. }
  assert (El' : get_list l h = (before ++ [sp]) ++ rest) by (by rewrite -assoc_L).
  destruct (_ <? _); [by iApply IH|]. iAssert ⌜heap_wf h F B⌝%I as %Hwf; [by iDestruct "H" as "[%Hwf _]"|].
  destruct (proj1 (hw_lists _ _ _ Hwf sp)) as (bs&Hb&Hne); [apply (elem_of_get_list l); rewrite El; set_solver|].
  iApply wp_bind. iApply (wp_wand with "[H]"); [by iApply (wp_slob_page_alloc h F B sp bs size align)|].
  iIntros ([h' [a|]]) "[Hp _]"; unfold alloc_in_page; cbn [fst snd].
  - iDestruct "Hp" as "(%bs'&%keep&%Hp&Hr&H)". destruct Hp as (Hin&Hre&Hch). wp_done. unfold allocated. cbn [fst snd]. iExists sp, bs'. iFrame "Hr".
    iSplitR; [iPureIntro; split; [by apply elem_of_dom|done]|].
    assert (exists after, get_list l h' = before ++ after) as [after Ea].
    { rewrite (Hre l) El. destruct keep; [by eexists|]. exists (filter (fun q => q <> sp) rest). rewrite filter_app filter_cons_False; [|tauto].
      f_equal. pose proof (nodup_get_list l h (hw_nodup _ _ _ Hwf)) as Hnd. rewrite El in Hnd. apply NoDup_app in Hnd as (_&Hx&_).
      apply filter_keep. intros x Hx' ->. apply (Hx sp Hx'). by left. }
    destruct (rotate_perm l before after h' Ea) as (?&?&?). by iApply (slobP_lists with "H").
  - iDestruct "Hp" as "[-> H]". by iApply IH.
Qed.

(** * New pages *)

Lemma wp_lift {A} (r : res A) a (Φ : A -> hProp) : r = Ret a -> Φ a ⊢ wp (lift r) Φ.
Proof. intros ->. constructor. intros m Hm mf Hd. by exists a, m. Qed.

Lemma frames_first p o : p ∈ frames_of p o.
Proof. apply elem_of_frames. assert (0 < 2 ^ Z.of_nat o) by (apply Z.pow_pos_nonneg; lia). lia. Qed.
(** Blocks that were handed out start at different addresses. *)
Lemma owned_address s O p o q o' :
  ps_ok s O -> (p, o) ∈ O -> (q, o') ∈ O -> page_address p = page_address q -> (p, o) = (q, o').
Proof.
  intros Hok Hp Hq E. assert (forall p o, (p, o) ∈ O -> 0 <= p < 17179869184) as Hr.
  { intros p1 o1 H1. eapply (ps_range s O); [done|]. by eapply ps_block; [done..|apply frames_first]. }
  pose proof (Hr _ _ Hp). pose proof (Hr _ _ Hq). rewrite !page_address_eq in E; [|lia..]. assert (p = q) as -> by lia.
  destruct (decide ((q, o) = (q, o'))) as [|Hne]; [done|]. exfalso. by eapply (ps_apart s O q o q o' Hok Hp Hq Hne); apply frames_first.
Qed.
Lemma owned_page F B b : b ∈ dom F -> (page_to_pfn b, 0%nat) ∈ owned F B.
Proof. intros Hb. unfold owned. apply elem_of_union_l, elem_of_map. eauto. Qed.
Lemma owned_whole F B p o c : B !! (p, o) = Some c -> (p, o) ∈ owned F B.
Proof. intros Hp. unfold owned. apply elem_of_union_r, elem_of_dom. eauto. Qed.

Lemma new_pages_wf h F B s p o (comp : bool) :
  heap_wf h F B -> ps_frames s = ps_frames (source h) -> (p, o) ∉ owned F B -> ps_ok s ({[(p, o)]} ∪ owned F B) ->
  (forall q o', (q, o') ∈ owned F B -> compound_order q s = compound_order q (source h)) -> compound_order p s = Ret (if comp then o else 0%nat) ->
  heap_wf (with_source s h) F (<[(p, o) := comp]> B).
Proof.
  intros Hwf Ef Hno Hok Hco Hcn. pose proof Hwf as [W1 W2 W3 W4 W5 W6 W7 W8 W9].
  assert (Ho : owned F (<[(p, o) := comp]> B) = {[(p, o)]} ∪ owned F B) by (unfold owned; rewrite dom_insert_L; set_solver).
  assert (Hp : F !! page_address p = None).
  { apply not_elem_of_dom. intros Hb. destruct (hw_page_ok _ _ _ _ Hwf Hb) as (_&Ep&_). pose proof (owned_page F B _ Hb) as Hin.
    assert ((p, o) = (page_to_pfn (page_address p), 0%nat)) as E by (eapply owned_address; [exact Hok|set_solver|set_solver|by rewrite Ep]).
    rewrite E in Hno. done. }
  split; cbn [update source with_source]; rewrite ?Ho ?Ef; try done.
  - intros q o' c. rewrite lookup_insert. case_decide as E; [by intros [= ->]; simplify_eq|]. intros Hq.
    rewrite (Hco q o'); [by apply (W7 q o' c)|by eapply owned_whole].
  - intros b Hb. rewrite lookup_insert_ne; [by apply W8|]. intros E. apply Hno. rewrite E. by apply owned_page.
Qed.

Lemma wp_clear_units ys : forall xs a k (Hk : length xs = k) (Φ : unit -> hProp),
  cells a (xs ++ ys) ⊢ (cells a (replicate k 0 ++ ys) -∗ Φ tt) -∗ wp (clear_units a k) Φ.
Proof.
  induction xs as [|x xs IH]; intros a k <- Φ; cbn [length app cells clear_units replicate]; iIntros "H HΦ".
  - wp_done. by iApply "HΦ".
  - iDestruct "H" as "[Hx H]". wp_store "Hx". change SLOB_UNIT with 2. iApply (IH _ _ eq_refl with "H"). iIntros "H". iApply "HΦ". iFrame.
Qed.

Lemma wp_clear_pages (zero : bool) b (order : nat) :
  raw b (2048 * 2 ^ Z.of_nat order)
  ⊢ wp (if zero then clear_units b (Z.to_nat (Z.shiftl (SLOB_UNITS PAGE_SIZE) (Z.of_nat order))) else mret tt)
      (fun _ => ∃ vs, <affine> ⌜Z.of_nat (length vs) = (2048 * 2 ^ Z.of_nat order)%Z /\ (zero = true -> vs = replicate (length vs) 0)⌝ ∗ cells b vs).
Proof.
  iIntros "(%vs&%Hl&H)". destruct zero; [|wp_done; iExists vs; by iFrame].
  change (SLOB_UNITS PAGE_SIZE) with 2048. rewrite Z.shiftl_mul_pow2; [|lia]. rewrite -Hl Nat2Z.id -{1}(app_nil_r vs).
  iApply (wp_clear_units [] vs b _ eq_refl with "H"). iIntros "H". rewrite app_nil_r. iExists _. iFrame. iPureIntro. by rewrite length_replicate.
Qed.

(** The page allocator has no block of the order. *)
Definition no_pages (comp : bool) (order : nat) h : Prop := exists s, alloc_pages comp order (source h) = Ret (s, None).
Definition got_pages (zero comp : bool) (order : nat) h F B (hr : heap S * option Z) : hProp :=
  match hr.2 with
  | None => <affine> ⌜no_pages comp order h⌝ ∗ slobP hr.1 F B
  | Some b => ∃ p vs, <affine> ⌜b = page_address p /\ 0 <= p < 17179869184 /\ B !! (p, order) = None /\ page_address p ∉ dom F
                                 /\ Z.of_nat (length vs) = (2048 * 2 ^ Z.of_nat order)%Z /\ (zero = true -> vs = replicate (length vs) 0)⌝
                ∗ cells b vs ∗ slobP hr.1 F (<[(p, order) := comp]> B)
  end%I.
Lemma wp_slob_new_pages zero comp order h F B :
  slobP h F B ⊢ wp (slob_new_pages zero comp order h) (got_pages zero comp order h F B).
Proof.
  iIntros "(%Hwf&Hc&Ha)". unfold slob_new_pages. destruct (ps_alloc _ _ comp order (hw_source _ _ _ Hwf)) as (s&r&E&Ef&Hco&Hr).
  iApply wp_bind. iApply (wp_lift _ _ _ E). unfold avail. rewrite -Ef. fold (avail s (owned F B)). destruct r as [p|].
  - destruct Hr as (Hno&Hok&Hcn). rewrite (avail_take s _ p order Hok Hno). iDestruct "Ha" as "[Ha Hr]".
    iApply wp_bind. iApply (wp_wand with "[Hr]"); [by iApply (wp_clear_pages zero)|]. iIntros ([]) "(%vs&%Hvs&Hr)".
    wp_done. unfold got_pages. cbn [fst snd].
    pose proof (new_pages_wf h F B s p order comp Hwf Ef Hno Hok Hco Hcn) as Hwf'.
    iExists p, vs. iFrame "Hr". iSplitR.
    + iPureIntro. destruct Hvs as [Hvs1 Hvs2]. assert (Hfr : p ∈ ps_frames s) by (eapply (ps_block _ _ p order Hok); [set_solver|apply frames_first]).
      split_and!; try (eapply ps_range; [exact Hok|exact Hfr]); try done.
      * destruct (B !! (p, order)) eqn:EB; [|done]. by destruct Hno; eapply owned_whole.
      * intros Hb. destruct (hw_page_ok _ _ _ _ Hwf Hb) as (_&Ep&_). apply Hno. pose proof (owned_page F B _ Hb) as Hin.
        assert ((p, order) = (page_to_pfn (page_address p), 0%nat)) as ->; [|done].
        eapply owned_address; [exact Hok|set_solver|set_solver|by rewrite Ep].
    + unfold slobP. iFrame "Hc". iSplitR; [by iPureIntro|]. cbn [update source with_source].
      assert (owned F (<[(p, order) := comp]> B) = {[(p, order)]} ∪ owned F B) as -> by (unfold owned; rewrite dom_insert_L; set_solver). done.
  - wp_done. unfold got_pages. cbn [fst snd]. iSplitR; [iPureIntro; by exists s|]. unfold slobP. iFrame. iPureIntro. destruct Hwf as [W1 W2 W3 W4 W5 W6 W7 W8 W9].
    split; cbn [with_source source]; rewrite ?Ef; try done. intros q o c Hq. rewrite (Hco q o); [by apply (W7 q o c)|by eapply owned_whole].
Qed.

(** A page that was handed out becomes a page of the heap. *)
Definition fresh_page (b : Z) (l : slob_list) h : heap S :=
  set_slob_page_free b l (update b (fun pg => set_freelist b (set_units (SLOB_UNITS PAGE_SIZE) (set_slab true pg))) h).

Lemma fresh_page_at b l h c : page_at (fresh_page b l h) c
  = if decide (c = b) then set_free true (set_freelist b (set_units 2048 (set_slab true (page_at h b)))) else page_at h c.
Proof.
  unfold fresh_page, set_slob_page_free. rewrite page_at_update. case_decide as E.
  - subst. destruct l; cbn [set_list]; unfold page_at at 1; cbn [pgs update]; by rewrite lookup_insert_eq.
  - destruct l; cbn [set_list]; unfold page_at at 1; cbn [pgs update]; by rewrite lookup_insert_ne.
Qed.
Lemma fresh_page_source b l h : source (fresh_page b l h) = source h.
Proof. by destruct l. Qed.
Lemma fresh_page_lists b l h : lists (fresh_page b l h) ≡ₚ b :: lists h.
Proof. unfold fresh_page. by rewrite lists_set_free lists_update. Qed.

Lemma owned_fresh F B p bs :
  0 <= p < 17179869184 -> is_Some (B !! (p, 0%nat)) -> owned (<[page_address p := bs]> F) (delete (p, 0%nat) B) = owned F B.
Proof.
  intros Hp [c Hc]. unfold owned. rewrite dom_insert_L dom_delete_L set_map_union_L set_map_singleton_L. rewrite page_to_pfn_address; [|lia].
  assert ((p, 0%nat) ∈ dom B) by (by apply elem_of_dom). apply set_eq. intros x. destruct (decide (x = (p, 0%nat))); set_solver.
Qed.

Lemma fresh_page_wf h F B p l :
  heap_wf h F B -> B !! (p, 0%nat) = Some false -> page_address p ∉ dom F ->
  heap_wf (fresh_page (page_address p) l h) (<[page_address p := [(0, 2048)]]> F) (delete (p, 0%nat) B).
Proof.
  intros Hwf HB Hp. pose proof Hwf as [W1 W2 W3 W4 W5 W6 W7 W8 W9]. set (b := page_address p) in *.
  pose proof (owned_whole F B p 0 false HB) as Hin.
  assert (Hfr : p ∈ ps_frames (source h)) by (eapply ps_block; [exact W1|exact Hin|apply frames_first]).
  pose proof (ps_range _ _ _ W1 Hfr) as Hr.
  assert (Hnl : b ∉ lists h) by (rewrite W6; intros (bs&E&_); apply Hp, elem_of_dom; eauto).
  split; rewrite ?fresh_page_source; try done.
  - by rewrite owned_fresh; [| |eexists].
  - intros c. rewrite dom_insert_L elem_of_union elem_of_singleton. intros [->|Hc]; [by exists p|by apply W2].
  - intros c bs. rewrite lookup_insert fresh_page_at. case_decide as E.
    + rewrite decide_True; [|done]. intros [= <-]. subst c. split; [cbn; lia|]. split; cbn; try done. intros _. lia.
    + rewrite decide_False; [|congruence]. apply W3.
  - intros c. rewrite lookup_insert fresh_page_at. case_decide as E; [done|]. rewrite decide_False; [|congruence]. apply W4.
  - rewrite fresh_page_lists. by apply NoDup_cons.
  - intros c. rewrite fresh_page_lists elem_of_cons lookup_insert. case_decide as E; [subst; naive_solver|]. rewrite W6. naive_solver.
  - intros q o c. rewrite lookup_delete. case_decide as E; [done|]. apply W7.
  - intros c. rewrite dom_insert_L elem_of_union elem_of_singleton. intros [->|Hc]; [unfold b; rewrite page_to_pfn_address; [by rewrite lookup_delete_eq|lia]|].
    rewrite lookup_delete. case_decide; [done|]. by apply W8.
Qed.

Lemma wp_slob_new_page l size align p h F B :
  align_ok align -> 1 <= size <= 4096 -> B !! (p, 0%nat) = Some false -> page_address p ∉ dom F -> 0 <= p < 17179869184 ->
  raw (page_address p) 2048 ∗ slobP h F B
  ⊢ wp (slob_new_page l size align (page_address p) h)
      (fun ha => ∃ bs', <affine> ⌜block_in (page_address p) align (SLOB_UNITS size) ha.2 /\ charged F (page_address p) (SLOB_UNITS size) bs'⌝
         ∗ raw ha.2 (SLOB_UNITS size) ∗ slobP ha.1 (<[page_address p := bs']> F) (delete (p, 0%nat) B)).
Proof.
  intros Ha Hsz HB Hp Hr. iIntros "(Hr&%Hwf&Hc&Hav)". set (b := page_address p) in *.
  assert (Hok : page_ok b) by (apply page_address_ok; lia).
  unfold slob_new_page. assert (virt_to_page b = b) as -> by (unfold virt_to_page; rewrite -{1}(Z.add_0_r b); apply page_mask; [done|lia]).
  change SLOB_UNIT with 2. rewrite slob_units_page s16_small; [|lia].
  replace (set_slob b 2048 (b + 2 * 2048)) with (set_slob (b + 2 * 0) 2048 (b + 2 * 2048)) by (f_equal; lia).
  iAssert (raw (b + 2 * 0) 2048) with "[Hr]" as "Hr"; [by replace (b + 2 * 0) with b by lia|].
  iApply wp_bind. iApply (wp_set_slob b Hok 0 2048 2048 with "Hr"); [lia..|]. iIntros "Hb".
  rewrite -slob_units_page. fold (fresh_page b l h).
  pose proof (fresh_page_wf h F B p l Hwf HB Hp) as Hwf'. fold b in Hwf'.
  iApply wp_bind. iApply (wp_wand with "[Hb Hc Hav]").
  { iApply (wp_slob_page_alloc _ (<[b := [(0, 2048)]]> F) (delete (p, 0%nat) B) b [(0, 2048)]); [by rewrite lookup_insert_eq|done|done|done|].
    unfold slobP. rewrite fresh_page_source owned_fresh; [|done|by eexists]. iFrame "Hav". iSplitR; [by iPureIntro|].
    unfold chains. rewrite big_sepM_insert; [|by apply not_elem_of_dom]. iFrame. }
  iIntros ([h' [a|]]) "[H %Hno]"; unfold alloc_in_page; cbn [fst snd].
  - iDestruct "H" as "(%bs'&%keep&%Hx&Hr&H)". wp_done. iExists bs'. cbn [fst snd]. rewrite insert_insert_eq. iFrame. iPureIntro.
    destruct Hx as (?&_&Hch). split; [done|]. unfold charged in *. rewrite lookup_insert_eq in Hch. apply not_elem_of_dom in Hp. by rewrite Hp.
  - exfalso. specialize (Hno eq_refl). apply Forall_cons in Hno as [Hno _]. apply Hno. unfold fits. cbn.
    destruct (delta_spec b Hok align 0 Ha ltac:(lia)) as (_&_&_&->); [|done]. destruct (SLOB_UNITS_eq size) as (?&_); lia.
Qed.

(** * Allocation *)

(** The bytes of the first [size] bytes are zero. *)
Definition zeroed (size : Z) (vs : list Z) : Prop :=
  (forall i, Z.of_nat i < size / 2 -> vs !! i = Some 0) /\ (Z.odd size = true -> exists v, vs !! Z.to_nat (size / 2) = Some v /\ v mod 256 = 0).

Lemma s16_low u : s16 (Z.land u (Z.lnot 255)) mod 256 = 0.
Proof.
  change (Z.lnot 255) with (Z.lnot (Z.ones 8)). rewrite -Z.ldiff_land Z.ldiff_ones_r; [|done]. rewrite Z.shiftl_mul_pow2; [|done].
  change (2 ^ 8) with 256. unfold s16. set (x := Z.shiftr u 8). divmod (x * 256) 65536.
  assert ((x * 256) mod 65536 = (x - 256 * (x * 256 / 65536)) * 256) as E by lia.
  case_cmp; rewrite E; [apply Z.mod_mul; lia|]. replace ((x - 256 * (x * 256 / 65536)) * 256 - 65536) with ((x - 256 * (x * 256 / 65536) - 256) * 256) by lia.
  apply Z.mod_mul. lia.
Qed.

Lemma wp_memset0 a size vs (Φ : unit -> hProp) :
  1 <= size <= 4096 -> Z.of_nat (length vs) = SLOB_UNITS size ->
  cells a vs ⊢ (∀ ws, <affine> ⌜length ws = length vs /\ zeroed size ws⌝ -∗ cells a ws -∗ Φ tt) -∗ wp (memset0 a size) Φ.
Proof.
  intros Hsz Hl. destruct (SLOB_UNITS_eq size) as (Hn&_); [lia|]. unfold memset0. change SLOB_UNIT with 2.
  assert (Hodd : size = 2 * (size / 2) + if Z.odd size then 1 else 0) by (rewrite -Z.div2_div; apply Z.div2_odd).
  set (k := Z.to_nat (size / 2)). assert (Hk : Z.of_nat k = size / 2) by (unfold k; destruct (Z.odd size); lia).
  assert (Hlk : length (take k vs) = k) by (rewrite length_take; destruct (Z.odd size); lia).
  rewrite -{1}(take_drop k vs). iIntros "H HΦ". iApply wp_bind. iApply (wp_clear_units _ _ _ k Hlk with "H"). iIntros "H".
  assert (Hz : forall (ys : list Z) i, Z.of_nat i < size / 2 -> (replicate k 0 ++ ys) !! i = Some 0).
  { intros ys i Hi. rewrite lookup_app_l; [|rewrite length_replicate; lia]. apply lookup_replicate_2. lia. }
  destruct (Z.odd size) eqn:Eo.
  - assert (Hld : length (drop k vs) = (length vs - k)%nat) by apply length_drop.
    destruct (drop k vs) as [|v ys]; cbn [length] in Hld; [lia|].
    rewrite cells_app length_replicate. cbn [cells]. iDestruct "H" as "(H1&H&H2)".
    replace (a + (size - 1)) with (a + 2 * Z.of_nat k) by lia. wp_load "H". wp_store "H".
    iApply ("HΦ" $! (replicate k 0 ++ s16 (Z.land v (Z.lnot 255)) :: ys)).
    + iPureIntro. split; [rewrite length_app length_replicate; cbn [length]; lia|]. split; [apply Hz|].
      intros _. exists (s16 (Z.land v (Z.lnot 255))). fold k. split; [|apply s16_low]. rewrite lookup_app_r; [|by rewrite length_replicate].
      by rewrite length_replicate Nat.sub_diag.
    + rewrite cells_app length_replicate. cbn [cells]. iFrame.
  - wp_done. iApply ("HΦ" with "[] H"). iPureIntro. split; [|split; [apply Hz|congruence]]. rewrite length_app length_replicate length_drop. lia.
Qed.

Definition slob_allocated (size : Z) (zero : bool) (align : Z) h F B (hr : heap S * option Z) : hProp :=
  match hr.2 with
  | None => <affine> ⌜no_pages false 0 h⌝ ∗ slobP hr.1 F B
  | Some a =>
      ∃ b bs' vs, <affine> ⌜block_in b align (SLOB_UNITS size) a /\ charged F b (SLOB_UNITS size) bs' /\ Z.of_nat (length vs) = SLOB_UNITS size /\ (zero = true -> zeroed size vs)⌝
        ∗ cells a vs ∗ slobP hr.1 (<[b := bs']> F) B
  end%I.
Lemma wp_slob_alloc size zero align h F B :
  align_ok align -> 1 <= size <= 4096 -> slobP h F B ⊢ wp (slob_alloc size zero align h) (slob_allocated size zero align h F B).
Proof.
  intros Ha Hsz. iIntros "H". unfold slob_alloc. iApply wp_bind. iApply (wp_wand with "[H]"); [by iApply (wp_try_pages _ _ _ _ _ _ Ha Hsz _ [])|].
  iIntros ([h1 r1]) "H". iApply wp_bind.
  iApply (wp_wand _ (fun hr => match hr.2 with
    | None => <affine> ⌜no_pages false 0 h⌝ ∗ slobP hr.1 F B
    | Some a => ∃ b bs', <affine> ⌜block_in b align (SLOB_UNITS size) a /\ charged F b (SLOB_UNITS size) bs'⌝ ∗ raw a (SLOB_UNITS size) ∗ slobP hr.1 (<[b := bs']> F) B
    end)%I with "[H]").
  - unfold allocated. cbn [fst snd]. destruct r1 as [a|].
    + iDestruct "H" as "(%b&%bs'&%Hx&Hr&H)". destruct Hx as [_ Hx]. wp_done. cbn [fst snd]. iExists b, bs'. by iFrame.
    + iDestruct "H" as "[-> H]". iApply wp_bind. iApply (wp_wand with "[H]"); [by iApply (wp_slob_new_pages false)|].
      iIntros ([h2 [b|]]) "H"; unfold got_pages; cbn [fst snd]; [|by wp_done].
      iDestruct "H" as "(%p&%vs0&%Hp&Hr&H)". destruct Hp as (->&Hp&HB&HF&Hl&_). rewrite raw_cells Hl. iApply wp_bind. iApply (wp_wand with "[Hr H]").
      { iApply (wp_slob_new_page _ _ _ p h2 F (<[(p, 0%nat) := false]> B) Ha Hsz); [by rewrite lookup_insert_eq|done|done|].
        cbn. iFrame. }
      iIntros ([h3 a]) "(%bs'&%Hx&Hr&H)". cbn [fst snd]. wp_done. cbn [fst snd]. iExists _, bs'. rewrite delete_insert_id; [|done]. by iFrame.
  - iIntros ([h2 [a|]]) "H"; cbn [fst snd]; [|by wp_done]. iDestruct "H" as "(%b&%bs'&%Hx&Hr&H)". iDestruct "Hr" as "(%vs&%Hl&Hr)". destruct Hx as [Hx Hch].
    iApply wp_bind. unfold slob_allocated. cbn [fst snd]. destruct zero.
    + iApply (wp_memset0 with "Hr"); [done|done|]. iIntros (ws [Hw Hz]) "Hr". wp_done. cbn [fst snd]. iExists b, bs', ws. iFrame. iPureIntro.
      split_and!; (done || lia).
    + wp_done. wp_done. cbn [fst snd]. iExists b, bs', vs. iFrame. iPureIntro. by split_and!.
Qed.

(** * Freeing *)

(** ** A page goes back to the page allocator *)

Lemma owned_delete h F B b : heap_wf h F B -> b ∈ dom F -> owned (delete b F) B = owned F B ∖ {[(page_to_pfn b, 0%nat)]}.
Proof.
  intros Hwf Hb. pose proof (hw_distinct _ _ _ Hwf b Hb) as Hd. unfold owned. rewrite dom_delete_L. apply set_eq. intros [q o].
  rewrite elem_of_difference !elem_of_union !elem_of_map elem_of_singleton. split.
  - intros [(c&E&Hc)|Hq]; (split; [|intros E']).
    + left. exists c. set_solver.
    + simplify_eq. apply elem_of_difference in Hc as [Hc Hne]. apply Hne, elem_of_singleton.
      destruct (hw_page_ok _ _ _ _ Hwf Hb) as (_&E1&_). destruct (hw_page_ok _ _ _ _ Hwf Hc) as (_&E2&_). congruence.
    + by right.
    + simplify_eq. apply elem_of_dom in Hq as [x Hx]. congruence.
  - intros [[(c&E&Hc)|Hq] Hne]; [|by right]. left. exists c. split; [done|]. set_solver.
Qed.

Lemma release_wf h F B s' b h' :
  heap_wf h F B -> b ∈ dom F -> ps_frames s' = ps_frames (source h) -> ps_ok s' (owned (delete b F) B) -> source h' = s' ->
  (forall q o, (q, o) ∈ owned (delete b F) B -> compound_order q s' = compound_order q (source h)) ->
  (forall c, c <> b -> page_at h' c = page_at h c) ->
  PageSlab (page_at h' b) = false -> PageSlobFree (page_at h' b) = false -> units (page_at h' b) = -1 ->
  NoDup (lists h') -> (forall c, c ∈ lists h' <-> c <> b /\ c ∈ lists h) -> heap_wf h' (delete b F) B.
Proof.
  intros Hwf Hb Ef Hok Es Hco Ep E1 E2 E3 Hnd Hl. pose proof Hwf as [W1 W2 W3 W4 W5 W6 W7 W8 W9].
  assert (Hd : forall c, c ∈ dom (delete b F) -> c ∈ dom F) by (intros c; rewrite dom_delete_L; set_solver).
  split; rewrite ?Es ?Ef; try done; [by eauto| | | | |by eauto].
  - intros c bs. rewrite lookup_delete. case_decide as E; [done|]. intros Hc. rewrite Ep; [|done]. by apply W3.
  - intros c. rewrite lookup_delete. case_decide as E; [by subst|]. intros Hc. rewrite Ep; [|done]. by apply W4.
  - intros c. rewrite Hl W6 lookup_delete. case_decide; naive_solver.
  - intros q o c Hq. rewrite (Hco q o); [by apply (W7 q o c)|]. by eapply owned_whole.
Qed.

(** Everything the page was used for has been undone when it is released. *)
Definition page_reset (b : Z) h : Prop :=
  PageSlab (page_at h b) = false /\ PageSlobFree (page_at h b) = false /\ units (page_at h b) = -1.

Lemma clear_spec b h :
  PageSlobFree (page_at h b) = bool_decide (b ∈ lists h) -> NoDup (lists h) ->
  let h' := update b (fun pg => set_units (-1) (set_slab false pg)) (if slob_page_free b h then clear_slob_page_free b h else h) in
  source h' = source h /\ (forall c, c <> b -> page_at h' c = page_at h c)
  /\ PageSlab (page_at h' b) = false /\ PageSlobFree (page_at h' b) = false /\ units (page_at h' b) = -1
  /\ NoDup (lists h') /\ forall c, c ∈ lists h' <-> c <> b /\ c ∈ lists h.
Proof.
  intros Hf Hnd. cbv zeta. unfold slob_page_free. rewrite Hf. case_bool_decide as Hb; rewrite !page_at_same.
  - unfold clear_slob_page_free. rewrite ?page_at_same. split_and!; try done.
    + intros c Hc. rewrite !page_at_update !decide_False; done.
    + rewrite !lists_update lists_unlist. by apply NoDup_filter.
    + intros c. rewrite !lists_update lists_unlist list_elem_of_filter. done.
  - split_and!; try done.
    + intros c Hc. rewrite !page_at_update !decide_False; done.
    + intros c. rewrite lists_update. split; [|tauto]. intros Hc. split; [by intros ->|done].
Qed.

Lemma wp_release h F B b bs i n a :
  F !! b = Some bs -> a = b + 2 * i -> 0 <= i -> i + n <= 2048 -> 1 <= n -> total bs + n = 2048 ->
  raw a n ∗ slobP h F B
  ⊢ wp (slob_free_pages a 0 (update b (fun pg => set_units (-1) (set_slab false pg)) (if slob_page_free b h then clear_slob_page_free b h else h)))
      (fun h' => <affine> ⌜page_reset b h' /\ ps_frames (source h') = ps_frames (source h)⌝ ∗ slobP h' (delete b F) B).
Proof.
  intros Hb -> Hi Hin Hn Ht. iIntros "(Hr&%Hwf&Hc&Ha)". assert (Hbd : b ∈ dom F) by (by apply elem_of_dom).
  destruct (hw_page_ok _ _ _ _ Hwf Hbd) as (Hok&Eb&_). destruct (hw_page _ _ _ Hwf b bs Hb) as [Hs Hd].
  destruct (clear_spec b h) as (C1&C2&C3&C4&C5&C6&C7); [|apply (hw_nodup _ _ _ Hwf)|].
  { rewrite (d_free _ _ _ Hd). apply bool_decide_ext. rewrite (hw_lists _ _ _ Hwf). naive_solver. }
  set (h2 := update b _ _) in *. clearbody h2. unfold slob_free_pages, virt_to_page. rewrite page_mask_unit; [|done|lia].
  destruct (ps_release _ _ (page_to_pfn b) 0 (hw_source _ _ _ Hwf) (owned_page F B b Hbd)) as (s'&E&Ef&Hps&Hco).
  rewrite -(owned_delete h F B b Hwf Hbd) in Hps, Hco. rewrite C1. iApply wp_bind. iApply (wp_lift _ _ _ E). wp_done.
  iSplitR; [by iPureIntro|]. unfold slobP. iSplitR.
  { iPureIntro. by eapply release_wf. }
  unfold chains. rewrite (big_sepM_delete _ F b bs Hb). iDestruct "Hc" as "[Hb $]". cbn [update source with_source].
  assert (Ho : {[(page_to_pfn b, 0%nat)]} ∪ owned (delete b F) B = owned F B).
  { rewrite (owned_delete h F B b Hwf Hbd). pose proof (owned_page F B b Hbd). apply set_eq. intros x.
    destruct (decide (x = (page_to_pfn b, 0%nat))); set_solver. }
  unfold avail. rewrite Ef. fold (avail (source h) (owned (delete b F) B)). rewrite (avail_take _ _ (page_to_pfn b) 0).
  - rewrite Ho Eb. iFrame "Ha". iApply chain_fill; [done..|]. iFrame.
  - rewrite Ho. apply (hw_source _ _ _ Hwf).
  - rewrite (owned_delete h F B b Hwf Hbd). set_solver.
Qed.

(** ** A block goes back to its page *)

(** The free blocks of the page [b] have become [bs']. *)
Lemma slobP_page h F B b bs h' bs' :
  heap_wf h F B -> F !! b = Some bs -> source h' = source h -> (forall c, c <> b -> page_at h' c = page_at h c) ->
  spaced 0 bs' -> bs' <> [] -> describes (page_at h' b) b bs' ->
  NoDup (lists h') -> (forall c, c ∈ lists h' <-> c = b \/ c ∈ lists h) ->
  chain b bs' 2048 ∗ ([∗ map] b ↦ bs ∈ delete b F, chain b bs 2048) ∗ avail (source h) (owned F B) ⊢ slobP h' (<[b := bs']> F) B.
Proof.
  intros Hwf Hb Es Ep Hs Hne Hd Hnd Hl. iIntros "(Hb&Hc&Ha)". unfold slobP. rewrite Es owned_insert; [|by apply elem_of_dom].
  iFrame "Ha". iSplitR; [|unfold chains; rewrite big_sepM_insert_delete; iFrame]. iPureIntro.
  eapply heap_wf_page; try done. intros c. rewrite Hl. destruct (decide (c = b)); naive_solver.
Qed.

Definition freed (b : Z) (bs : list (Z * Z)) (n : Z) F B (h' : heap S) : hProp :=
  (∃ bs', <affine> ⌜spaced 0 bs' /\ total bs' = (total bs + n)%Z⌝ ∗ slobP h' (<[b := bs']> F) B)%I.

(** The page had no free block. *)
Lemma wp_free_first h F B b i n l :
  F !! b = Some [] -> 0 <= i -> i + n <= 2048 -> 1 <= n ->
  raw (b + 2 * i) n ∗ slobP h F B
  ⊢ wp (set_slob (b + 2 * i) n (Z.land (b + 2 * i + SLOB_UNIT * SLOB_UNITS PAGE_SIZE) PAGE_MASK);;
        mret (set_slob_page_free b l (update b (fun pg => set_freelist (b + 2 * i) (set_units n pg)) h)))
      (freed b [] n F B).
Proof.
  intros Hb Hi Hin Hn. iIntros "(Hr&%Hwf&Hc&Ha)". destruct (hw_page_ok _ _ _ b Hwf ltac:(by apply elem_of_dom)) as (Hok&_).
  destruct (hw_page _ _ _ Hwf b [] Hb) as [_ Hd]. change (SLOB_UNIT * SLOB_UNITS PAGE_SIZE) with 4096. rewrite page_mask_next; [|done|lia].
  replace (b + 4096) with (b + 2 * 2048) by lia. iApply wp_bind. iApply (wp_set_slob with "Hr"); [done|lia..|]. iIntros "Hr". wp_done.
  iExists [(i, n)]. iSplitR; [iPureIntro; cbn; split_and!; (done || lia)|]. unfold chains. rewrite (big_sepM_delete _ F b [] Hb). iDestruct "Hc" as "[_ Hc]".
  assert (Hnl : b ∉ lists h) by (rewrite (hw_lists _ _ _ Hwf); intros (bs&E&?); congruence).
  set (h' := set_slob_page_free _ _ _).
  assert (Hpa : forall c, page_at h' c = if decide (c = b) then set_free true (set_freelist (b + 2 * i) (set_units n (page_at h b))) else page_at h c).
  { intros c. subst h'. unfold set_slob_page_free. rewrite page_at_update. case_decide as E.
    - destruct l; cbn [set_list]; unfold page_at at 1; cbn [pgs update]; by rewrite lookup_insert_eq.
    - destruct l; cbn [set_list]; unfold page_at at 1; cbn [pgs update]; by rewrite lookup_insert_ne. }
  iApply (slobP_page h F B b [] h' [(i, n)]); try done.
  - by destruct l.
  - intros c Hc. by rewrite Hpa decide_False.
  - rewrite Hpa decide_True; [|done]. split; cbn; [lia|apply Hd|done|done].
  - subst h'. rewrite lists_set_free lists_update. apply NoDup_cons. split; [done|apply (hw_nodup _ _ _ Hwf)].
  - intros c. subst h'. by rewrite lists_set_free lists_update elem_of_cons.
  - iFrame.
Qed.

(** The block goes behind the free blocks [xs]. *)
Lemma wp_free_later b i n p0 q0 X ys h (Φ : heap S -> hProp) :
  page_ok b -> spaced 0 (((p0, q0) :: X) ++ ys) -> above 0 ((p0, q0) :: X) <= i + 1 -> i + n <= first ys 2048 -> Forall (fun x => x.1 < i) X ->
  0 <= i -> 1 <= n -> i + n <= 2048 ->
  raw (b + 2 * i) n ∗ chain b (((p0, q0) :: X) ++ ys) 2048
  ⊢ (∀ bs', <affine> ⌜bs' <> [] /\ spaced 0 bs' /\ total bs' = (total (((p0, q0) :: X) ++ ys) + n)%Z /\ first bs' 2048 = p0⌝ -∗ chain b bs' 2048 -∗ Φ h)
    -∗ wp (next ← slob_next (b + 2 * p0);
           '(prev, next) ← free_loop (Z.to_nat (SLOB_UNITS PAGE_SIZE)) (b + 2 * i) (b + 2 * p0) next;
           free_behind (b + 2 * i) n prev next;;
           mret h) Φ.
Proof.
  intros Hok Hs Hab Hfi HX Hi Hn Hin. destruct (total_around i n _ ys Hs Hab Hfi Hi Hin) as (Hy'&_&_). destruct (spaced_length _ Hs ltac:(done)) as [Hlen _].
  pose proof (proj1 (proj1 (spaced_app _ _ _) Hs)) as Hx. destruct (exists_last (l := (p0, q0) :: X) ltac:(done)) as (xs0&[p q]&EX).
  assert (Hlast : last_index p0 X = p) by (change (last_index p0 X) with (last_index 0 ((p0, q0) :: X)); rewrite EX; apply last_index_snoc).
  assert (Hpi : p + q <= i) by (rewrite EX above_app in Hab; cbn in Hab; lia).
  cbn [app first] in *. pose proof (spaced_next _ _ _ _ Hs) as Hnext. rewrite chain_cons. iIntros "(Hr&H0&Hb) HΦ". destruct Hs as (?&?&?&Hs).
  iApply wp_bind. iApply (wp_slob_next with "H0"); [done|lia..|]. iIntros "H0". rewrite slob_units_page.
  iApply wp_bind. iApply (wp_free_loop b Hok i ys _ X p0 (Z.to_nat 2048) _ HX ltac:(lia) Hs with "Hb"); [lia|cbn [length] in Hlen; rewrite length_app in Hlen; lia|].
  iIntros "Hb". rewrite Hlast. iApply wp_bind.
  iAssert (chain b (xs0 ++ [(p, q)]) (first ys 2048) ∗ chain b ys 2048)%I with "[H0 Hb]" as "[Hx Hy]".
  { rewrite -EX -chain_app. cbn [app]. rewrite chain_cons. iFrame. }
  assert (Hx0 : spaced 0 (xs0 ++ [(p, q)])) by (by rewrite -EX).
  iApply (wp_free_behind b Hok xs0 p q i n ys with "[Hx Hy Hr]"); [done|done|done|done|done|iFrame|]. iIntros "Hb". wp_done.
  destruct (join_next_spec i i n ys ltac:(lia) Hn Hin Hfi Hy') as (Hj&Htj&n'&ys'&Ej&_). rewrite Ej in Hj, Htj |- *.
  destruct (join_prev_spec xs0 p q i n' ys' Hx0 Hpi Hj) as (Hs'&Ht'&Hfst). iApply ("HΦ" with "[] Hb"). iPureIntro. split_and!; [|done| |].
  - destruct xs0; [|done]. cbn. by destruct (_ =? _).
  - rewrite total_app Ht'. cbn in Htj. assert (total ((p0, q0) :: X) = total (xs0 ++ [(p, q)])) as Ex by (by rewrite EX).
    rewrite total_app in Ex. cbn in Ex. cbn [total]. rewrite total_app. lia.
  - by rewrite Hfst -EX.
Qed.

(** The page had free blocks; its count of units has been raised. *)
Lemma wp_free_more h F B b bs i n :
  F !! b = Some bs -> bs <> [] -> 0 <= i -> i + n <= 2048 -> 1 <= n -> total bs + n < 2048 ->
  let h1 := update b (fun pg => set_units (s32 (units pg + n)) pg) h in
  raw (b + 2 * i) n ∗ slobP h F B
  ⊢ wp (let fl := freelist (page_at h1 b) in
        if b + 2 * i <? fl then free_front b (b + 2 * i) n h1
        else
          next ← slob_next fl;
          '(prev, next) ← free_loop (Z.to_nat (SLOB_UNITS PAGE_SIZE)) (b + 2 * i) fl next;
          free_behind (b + 2 * i) n prev next;;
          mret h1)
      (freed b bs n F B).
Proof.
  intros Hb Hne Hi Hin Hn Ht h1. iIntros "(Hr&%Hwf&Hc&Ha)". destruct (hw_page_ok _ _ _ b Hwf ltac:(by apply elem_of_dom)) as (Hok&_).
  destruct (hw_page _ _ _ Hwf b bs Hb) as [Hs Hd]. pose proof Hd as [D1 D2 D3 D4]. specialize (D4 Hne).
  destruct (spaced_length _ Hs Hne) as [Hlen Htb].
  assert (Hp1 : page_at h1 b = set_units (total bs + n) (page_at h b)) by (subst h1; rewrite page_at_same D1 s32_small; [done|lia]).
  assert (Hpc : forall c, c <> b -> page_at h1 c = page_at h c) by (intros c Hc; subst h1; by rewrite page_at_update decide_False).
  assert (Hbl : b ∈ lists h) by (rewrite (hw_lists _ _ _ Hwf); eauto).
  unfold chains. rewrite (big_sepM_delete _ F b bs Hb). iDestruct "Hc" as "[Hb Hc]".
  iDestruct (chain_apart with "Hb Hr") as %Hf; [done|done|]. rewrite Hp1. cbn [set_units freelist]. rewrite D4.
  destruct (split_around i n 0 bs Hs ltac:(lia) Hin Hn Hf) as (xs&ys&->&Hab&Hfi&Hxs).
  destruct (total_around i n xs ys Hs Hab Hfi Hi Hin) as (Hy'&_&_). destruct (decide (xs = [])) as [->|Hxne].
  - cbn [app] in *. destruct ys as [|[j m] ys]; [done|]. cbn [first] in *. destruct (Z.ltb_spec (b + 2 * i) (b + 2 * j)); [|lia].
    iApply (wp_free_front b Hok i n j m ys h1 with "[Hr Hb]"); [done|done|done|done|by rewrite Hp1|iFrame|].
    iIntros (h' (E1&E2&E3&E4&E5&E6)) "Hb". destruct (join_next_spec 0 i n ((j, m) :: ys) Hi Hn Hin Hfi Hy') as (Hs'&Ht'&n'&ys'&Ej&_).
    iExists (join_next i n ((j, m) :: ys)). iSplitR; [iPureIntro; split; [done|lia]|].
    assert (El : lists h' = lists h) by (unfold lists; by rewrite E4 E5 E6).
    iApply (slobP_page h F B b _ h' _ Hwf Hb); try done.
    + intros c Hc. rewrite E2; [|done]. by apply Hpc.
    + by rewrite Ej.
    + rewrite E1 Hp1 Ej. rewrite Ej in Ht'. split; cbn [set_freelist set_units units PageSlab PageSlobFree freelist first]; [lia|done|by rewrite D3|done].
    + by rewrite El; apply (hw_nodup _ _ _ Hwf).
    + intros c. rewrite El. split; [by right|]. by intros [->|].
    + iFrame.
  - destruct xs as [|[p0 q0] X]; [done|]. apply Forall_cons in Hxs as [Hp0 HX]. cbn in Hp0.
    change (first (((p0, q0) :: X) ++ ys) 2048) with p0 in *. destruct (Z.ltb_spec (b + 2 * i) (b + 2 * p0)); [lia|].
    iApply (wp_free_later b i n p0 q0 X ys h1 with "[Hr Hb]"); [done..|iFrame|]. iIntros (bs' (Hne'&Hs'&Ht'&Hf')) "Hb".
    iExists bs'. iSplitR; [done|]. iApply (slobP_page h F B b _ h1 _ Hwf Hb); try done.
    + rewrite Hp1. split; cbn [set_units units PageSlab PageSlobFree freelist]; [lia|done|by rewrite D3 !bool_decide_true|]. intros _. by rewrite D4 Hf'.
    + apply (hw_nodup _ _ _ Hwf).
    + intros c. split; [by right|]. by intros [->|].
    + iFrame.
Qed.

(** A block of the heap: [n] units in a page of the heap. *)
Definition in_heap F (a n : Z) : Prop := exists b i, b ∈ dom F /\ a = b + 2 * i /\ 0 <= i /\ i + n <= 2048.

Lemma wp_slob_free h F B a size b bs i :
  F !! b = Some bs -> a = b + 2 * i -> 0 <= i -> i + SLOB_UNITS size <= 2048 -> 1 <= size <= 4096 ->
  raw a (SLOB_UNITS size) ∗ slobP h F B
  ⊢ wp (slob_free a size h) (fun h' =>
      if total bs + SLOB_UNITS size =? 2048 then <affine> ⌜page_reset b h' /\ ps_frames (source h') = ps_frames (source h)⌝ ∗ slobP h' (delete b F) B
      else freed b bs (SLOB_UNITS size) F B h').
Proof.
  intros Hb -> Hi Hin Hsz. iIntros "H". iAssert ⌜heap_wf h F B⌝%I as %Hwf; [by iDestruct "H" as "(_&%Hwf&_)"|].
  destruct (SLOB_UNITS_eq size) as (Hn&_&E16); [lia|]. destruct (hw_page_ok _ _ _ b Hwf ltac:(by apply elem_of_dom)) as (Hok&_).
  destruct (hw_page _ _ _ Hwf b bs Hb) as [Hs [D1 D2 D3 D4]]. unfold slob_free, ZERO_OR_NULL_PTR, ZERO_SIZE_PTR.
  pose proof Hok as (_&?&_). destruct (Z.leb_spec (b + 2 * i) 16); [lia|]. destruct (Z.eqb_spec size 0); [lia|]. cbv zeta.
  unfold virt_to_page. rewrite page_mask_unit; [|done|lia]. rewrite E16 D1 slob_units_page.
  pose proof (blocks_bound _ _ Hs) as [Ht0 Htb]. pose proof (above_le _ _ Hs ltac:(lia)). rewrite w64_small; [|unfold two64; lia].
  destruct (Z.eqb_spec (total bs + SLOB_UNITS size) 2048) as [Et|Et].
  { iApply (wp_release with "H"); (done || lia). }
  iAssert ⌜total bs + SLOB_UNITS size <= 2048⌝%I as %Hle.
  { iDestruct "H" as "(Hr&_&Hc&_)". unfold chains. rewrite (big_sepM_delete _ F b bs Hb). iDestruct "Hc" as "[Hc _]".
    iDestruct (chain_apart with "Hc Hr") as %Hf; [lia|done|]. iPureIntro.
    destruct (split_around i (SLOB_UNITS size) 0 bs Hs ltac:(lia) Hin ltac:(lia) Hf) as (xs&ys&->&Hab&Hfi&_).
    destruct (total_around i (SLOB_UNITS size) xs ys Hs Hab Hfi Hi Hin) as (_&?&?). rewrite total_app. lia. }
  unfold slob_page_free. rewrite D3. case_bool_decide as Hne; cbn [negb].
  - iApply (wp_free_more h F B b bs i (SLOB_UNITS size) Hb Hne with "H"); lia.
  - assert (bs = []) as -> by (destruct (decide (bs = [])); [done|by destruct Hne]). iApply (wp_free_first with "H"); (done || lia).
Qed.
End Heap.
