(* ===== verification/SlobKmalloc.v ===== *)
(** Objects from kmalloc and from caches, on top of the SLOB heap. *)

From iris.proofmode Require Import proofmode.
From S2P Require Import Prelude Mem HeapLogic FindBit Kfifo KfifoFacts Slob SlobLogic SlobHeap.

(** * Objects *)

(** An object that is in use: its address, the size that was asked for, whether it came from
    kmalloc or from a cache, and the units of its memory. *)
Record obj := mkObj {
  o_ptr : Z;
  o_size : Z;
  o_kmalloc : bool;
  o_data : list Z;
}.
(** Objects that come from the heap, not as whole pages. *)
Definition small_obj (o : obj) : bool :=
  if o_kmalloc o then o_size o <? PAGE_SIZE - ARCH_KMALLOC_MINALIGN else o_size o <? PAGE_SIZE.
(** The units in front of a kmalloc object. *)
Definition header (size : Z) (x y : Z) : list Z := [s16 (w32 size); s16 (Z.shiftr (w32 size) 16); x; y].

Section Objects.
Context {S : Type} `{PageSourceLaws S} {Fr : Frames}.
Implicit Types (h : heap S) (F : gmap Z (list (Z * Z))) (B : gmap (Z * nat) bool) (o : obj) (L : list obj).

Definition small_kmalloc F o : hProp :=
  (∃ x y, <affine> ⌜1 <= o_size o /\ in_heap F (o_ptr o - 8) (SLOB_UNITS (o_size o + 8)) /\ o_ptr o mod 8 = 0
                    /\ Z.of_nat (length (o_data o)) = SLOB_UNITS (o_size o)⌝
     ∗ cells (o_ptr o - 8) (header (o_size o) x y ++ o_data o))%I.
Definition small_cached F o : hProp :=
  (<affine> ⌜1 <= o_size o /\ in_heap F (o_ptr o) (SLOB_UNITS (o_size o)) /\ Z.of_nat (length (o_data o)) = SLOB_UNITS (o_size o)⌝
   ∗ cells (o_ptr o) (o_data o))%I.
Definition whole_pages B o : hProp :=
  (∃ p, let order := get_order (o_size o) in
     <affine> ⌜o_ptr o = page_address p /\ B !! (p, order) = Some (o_kmalloc o && negb (order =? 0)%nat)
               /\ Z.of_nat (length (o_data o)) = (2048 * 2 ^ Z.of_nat order)%Z⌝
     ∗ cells (o_ptr o) (o_data o))%I.
Definition objP F B o : hProp :=
  if small_obj o then (if o_kmalloc o then small_kmalloc F o else small_cached F o) else whole_pages B o.

(** No page of the heap is free as a whole. *)
Definition partial F : Prop := forall b bs, F !! b = Some bs -> total bs < 2048.
(** The heap with the objects [L] in use. *)
Definition heapP h L : hProp := (∃ F B, <affine> ⌜partial F⌝ ∗ slobP h F B ∗ [∗ list] o ∈ L, objP F B o)%I.

(** ** Objects stay objects *)

Lemma in_heap_mono F F' a n : dom F ⊆ dom F' -> in_heap F a n -> in_heap F' a n.
Proof. intros Hd (b&i&Hb&Hi). exists b, i. split; [by apply Hd|done]. Qed.
Lemma objP_mono F B F' B' o : dom F ⊆ dom F' -> B ⊆ B' -> objP F B o ⊢ objP F' B' o.
Proof.
  intros HF HB. unfold objP. destruct (small_obj o); [destruct (o_kmalloc o)|].
  - iIntros "(%x&%y&%Hx&H)". iExists x, y. iFrame. iPureIntro. destruct Hx as (?&?&?&?). split_and!; try done. by eapply in_heap_mono.
  - iIntros "[%Hx H]". unfold small_cached. iFrame. iPureIntro. destruct Hx as (?&?&?). split_and!; try done. by eapply in_heap_mono.
  - iIntros "(%p&%Hx&H)". iExists p. iFrame. iPureIntro. destruct Hx as (?&?&?). split_and!; try done. by eapply lookup_weaken.
Qed.
Lemma objsP_mono F B F' B' L : dom F ⊆ dom F' -> B ⊆ B' -> ([∗ list] o ∈ L, objP F B o) ⊢ [∗ list] o ∈ L, objP F' B' o.
Proof. intros HF HB. apply big_sepL_mono. intros k o _. by apply objP_mono. Qed.

(** Memory that the page allocator has is not in an object. *)
Lemma avail_excl s O x i n :
  x ∈ ps_frames s ∖ used O -> 0 <= i < 2048 -> 1 <= n -> avail s O ⊢ raw (page_address x + 2 * i) n -∗ False.
Proof.
  intros Hx Hi Hn. unfold avail. rewrite (big_sepS_delete _ _ x Hx). iIntros "[Hx _] Hr".
  iDestruct (raw_at _ _ i with "Hx") as "[[%v Hx] _]"; [done|]. iDestruct (raw_at _ _ 0 with "Hr") as "[[%w Hr] _]"; [lia|].
  replace (page_address x + 2 * i + 2 * 0) with (page_address x + 2 * i) by lia. by iDestruct (pointsto_ne with "Hx Hr") as %[].
Qed.
Lemma not_used h F B (O' : gset (Z * nat)) p (o : nat) :
  heap_wf h F B -> (p, o) ∈ owned F B -> O' ⊆ owned F B ∖ {[(p, o)]} -> p ∈ ps_frames (source h) ∖ used O'.
Proof.
  intros Hwf Hp HO. pose proof (hw_source _ _ _ Hwf) as Hok. apply elem_of_difference.
  split; [eapply ps_block; [exact Hok|exact Hp|apply frames_first]|]. intros (q&o'&Hq&Hx)%elem_of_used. apply HO in Hq.
  apply elem_of_difference in Hq as [Hq Hne]. eapply (ps_apart _ _ p o q o' Hok Hp Hq); [set_solver|apply frames_first|done].
Qed.

(** What is not lost when a page or a block of pages is given back. *)
Lemma in_heap_delete h0 h F B b a n :
  heap_wf h0 F B -> ps_frames (source h) = ps_frames (source h0) -> b ∈ dom F -> in_heap F a n -> 1 <= n ->
  slobP h (delete b F) B ⊢ raw a n -∗ ⌜in_heap (delete b F) a n⌝.
Proof.
  intros Hwf Ef Hb (c&i&Hc&->&Hi&Hin) Hn. destruct (decide (c = b)) as [->|Hne].
  - iIntros "(_&_&Ha) Hr". destruct (hw_page_ok _ _ _ _ Hwf Hb) as (_&Eb&_).
    iAssert (raw (page_address (page_to_pfn b) + 2 * i) n) with "[Hr]" as "Hr"; [by rewrite Eb|].
    iDestruct (avail_excl with "Ha Hr") as %[]; [|lia|done]. rewrite Ef. eapply not_used; [exact Hwf|by apply owned_page|].
    by rewrite (owned_delete _ _ _ _ Hwf Hb).
  - iIntros "_ _". iPureIntro. exists c, i. split_and!; try done. rewrite dom_delete_L. set_solver.
Qed.
Lemma objP_delete_page h0 h F B b o :
  heap_wf h0 F B -> ps_frames (source h) = ps_frames (source h0) -> b ∈ dom F ->
  slobP h (delete b F) B ⊢ objP F B o -∗ slobP h (delete b F) B ∗ objP (delete b F) B o.
Proof.
  intros Hwf Ef Hb. unfold objP. destruct (small_obj o) eqn:Es; [destruct (o_kmalloc o) eqn:Ek|iIntros "$ $"].
  - iIntros "Hs (%x&%y&%Hx&H)". destruct Hx as (Hsz&Hin&?&Hl). unfold small_obj in Es. rewrite Ek in Es. apply Z.ltb_lt in Es.
    change (PAGE_SIZE - ARCH_KMALLOC_MINALIGN) with 4088 in Es.
    destruct (SLOB_UNITS_eq (o_size o)) as (Hu&_); [lia|]. destruct (SLOB_UNITS_eq (o_size o + 8)) as (Hu'&_); [lia|].
    assert (Z.of_nat (length (header (o_size o) x y ++ o_data o)) = SLOB_UNITS (o_size o + 8)) as El by (rewrite length_app; cbn; lia).
    iAssert ⌜in_heap (delete b F) (o_ptr o - 8) (SLOB_UNITS (o_size o + 8))⌝%I as %Hin'.
    { iApply (in_heap_delete with "Hs [H]"); [done..|lia|]. rewrite -El. by iApply raw_cells. }
    iFrame "Hs". iExists x, y. iFrame. iPureIntro. by split_and!.
  - iIntros "Hs [%Hx H]". destruct Hx as (Hsz&Hin&Hl). unfold small_obj in Es. rewrite Ek in Es. apply Z.ltb_lt in Es.
    change PAGE_SIZE with 4096 in Es. destruct (SLOB_UNITS_eq (o_size o)) as (Hu&_); [lia|].
    iAssert ⌜in_heap (delete b F) (o_ptr o) (SLOB_UNITS (o_size o))⌝%I as %Hin'.
    { iApply (in_heap_delete with "Hs [H]"); [done..|lia|]. rewrite -Hl. by iApply raw_cells. }
    iFrame. by iPureIntro.
Qed.
Lemma objP_delete_whole h0 h F B p order o :
  heap_wf h0 F B -> ps_frames (source h) = ps_frames (source h0) -> is_Some (B !! (p, order)) ->
  slobP h F (delete (p, order) B) ⊢ objP F B o -∗ slobP h F (delete (p, order) B) ∗ objP F (delete (p, order) B) o.
Proof.
  intros Hwf Ef Hp. unfold objP. destruct (small_obj o); [iIntros "$ $"|].
  iIntros "Hs (%q&%Hx&H)". destruct Hx as (Eq&HB&Hl). destruct (decide ((q, get_order (o_size o)) = (p, order))) as [[= -> Eo]|Hne].
  - rewrite Eo in HB, Hl. iExFalso. iDestruct "Hs" as "(_&_&Ha)". iAssert (raw (page_address p + 2 * 0) (2048 * 2 ^ Z.of_nat order)) with "[H]" as "Hr".
    { replace (page_address p + 2 * 0) with (page_address p) by lia. rewrite -Hl -Eq. by iApply raw_cells. }
    assert (0 < 2 ^ Z.of_nat order) by (apply Z.pow_pos_nonneg; lia).
    iDestruct (avail_excl with "Ha Hr") as %[]; [|lia|lia]. rewrite Ef. eapply (not_used h0 F B _ p order Hwf); [by eapply owned_whole|].
    unfold owned. rewrite dom_delete_L. intros x Hx. apply elem_of_difference. split; [set_solver|]. intros ->%elem_of_singleton.
    apply elem_of_union in Hx as [Hx|Hx]; [|set_solver]. apply elem_of_map in Hx as (c&E&Hc). injection E as Ep ->.
    destruct Hp as [cc Hp]. rewrite Ep (hw_distinct _ _ _ Hwf c Hc) in Hp. done.
  - iFrame "Hs". iExists q. iFrame. iPureIntro. split_and!; try done. rewrite lookup_delete_ne; [done|congruence].
Qed.

(** The same for all objects that remain. *)
Lemma objsP_step (P : hProp) F B F' B' L :
  (forall o, P ⊢ objP F B o -∗ P ∗ objP F' B' o) -> P ⊢ ([∗ list] o ∈ L, objP F B o) -∗ P ∗ [∗ list] o ∈ L, objP F' B' o.
Proof.
  intros Hstep. induction L as [|o L IH]; cbn [big_opL]; iIntros "HP"; [iIntros "_"; by iFrame|].
  iIntros "[Ho HL]". iDestruct (Hstep with "HP Ho") as "[HP $]". iApply (IH with "HP HL").
Qed.

(** * Whole pages *)

Lemma get_order_spec size : 1 <= size < two64 -> size <= 4096 * 2 ^ Z.of_nat (get_order size).
Proof.
  intros Hs. unfold get_order. rewrite w64_small; [|lia]. change PAGE_SHIFT with 12. rewrite Z.shiftr_div_pow2; [|done].
  change (2 ^ 12) with 4096. set (x := (size - 1) / 4096). divmod (size - 1) 4096. fold x in H1. assert (0 <= x) by lia.
  unfold fls64. destruct (Z.eqb_spec x 0) as [E|E].
  - rewrite E in H1. change (2 ^ Z.of_nat (Z.to_nat 0)) with 1. lia.
  - rewrite __fls_log2; [|lia]. pose proof (Z.log2_spec x ltac:(lia)) as [_ Hl]. pose proof (Z.log2_nonneg x).
    rewrite Z2Nat.id; [|lia]. replace (Z.succ (Z.log2 x)) with (Z.log2 x + 1) in Hl by lia. lia.
Qed.

Lemma wp_free_whole h F B p order c :
  B !! (p, order) = Some c ->
  raw (page_address p) (2048 * 2 ^ Z.of_nat order) ∗ slobP h F B
  ⊢ wp (slob_free_pages (page_address p) order h)
      (fun h' => <affine> ⌜page_reset (page_address p) h' /\ ps_frames (source h') = ps_frames (source h)⌝ ∗ slobP h' F (delete (p, order) B)).
Proof.
  intros HB. iIntros "(Hr&%Hwf&Hc&Ha)". pose proof (owned_whole F B p order c HB) as Hin. pose proof Hwf as [W1 W2 W3 W4 W5 W6 W7 W8 W9].
  assert (Hfr : p ∈ ps_frames (source h)) by (eapply ps_block; [exact W1|exact Hin|apply frames_first]).
  pose proof (ps_range _ _ _ W1 Hfr) as Hr.
  assert (HpF : F !! page_address p = None).
  { apply not_elem_of_dom. intros Hb. destruct (hw_page_ok _ _ _ _ Hwf Hb) as (_&Ep&_).
    assert ((p, order) = (page_to_pfn (page_address p), 0%nat)) as E by (eapply owned_address; [exact W1|exact Hin|by apply owned_page|by rewrite Ep]).
    pose proof (W8 _ Hb) as Hn. rewrite -E HB in Hn. done. }
  assert (Ho : owned F (delete (p, order) B) = owned F B ∖ {[(p, order)]}).
  { unfold owned. rewrite dom_delete_L. apply set_eq. intros x. rewrite elem_of_difference !elem_of_union elem_of_difference elem_of_singleton elem_of_map.
    split; [|tauto]. intros [(b&->&Hb)|?]; [|tauto]. split; [left; by exists b|]. intros E. rewrite -E (W8 b Hb) in HB. done. }
  unfold slob_free_pages. assert (virt_to_page (page_address p) = page_address p) as ->.
  { unfold virt_to_page. rewrite -{1}(Z.add_0_r (page_address p)). apply page_mask; [apply page_address_ok; lia|lia]. }
  rewrite page_to_pfn_address; [|lia]. destruct (ps_release _ _ p order W1 Hin) as (s'&E&Ef&Hps&Hco). rewrite -Ho in Hps, Hco.
  iApply wp_bind. iApply (wp_lift _ _ _ E). wp_done. destruct (W4 _ HpF) as (?&?&?).
  iSplitR; [by iPureIntro|]. unfold slobP. iFrame "Hc". iSplitR.
  - iPureIntro. split; cbn [update source with_source]; rewrite ?Ef; try done.
    + intros q o c' Hq. rewrite (Hco q o); [|by eapply owned_whole]. apply lookup_delete_Some in Hq as [_ Hq]. by apply (W7 q o c').
    + intros b Hb. rewrite lookup_delete. case_decide; [done|by apply W8].
  - cbn [update source with_source]. unfold avail. rewrite Ef. fold (avail (source h) (owned F (delete (p, order) B))).
    assert (Hu : {[(p, order)]} ∪ owned F (delete (p, order) B) = owned F B).
    { rewrite Ho. apply set_eq. intros x. destruct (decide (x = (p, order))); set_solver. }
    rewrite (avail_take _ _ p order); [|by rewrite Hu|rewrite Ho; set_solver]. rewrite Hu. iFrame.
Qed.

(** * kmalloc and kfree *)

Lemma w32_size size : 0 <= size < 4088 -> w32 size = size /\ s16 size = size /\ Z.shiftr size 16 = 0.
Proof.
  intros Hs. split; [apply w32_small; unfold two32; lia|]. split; [apply s16_small; lia|]. rewrite Z.shiftr_div_pow2; [|done].
  apply Z.div_small. change (2 ^ 16) with 65536. lia.
Qed.
Lemma header_eq size x y : 0 <= size < 4088 -> header size x y = [size; 0; x; y].
Proof. intros Hs. destruct (w32_size size Hs) as (E1&E2&E3). unfold header. rewrite E1 E2 E3. done. Qed.

Lemma page_ok_pow b k : page_ok b -> 0 <= k <= 12 -> b mod 2 ^ k = 0.
Proof.
  intros (Hb&_&_) Hk. assert (E : 2 ^ (12 - k) * 2 ^ k = 4096) by (rewrite -Z.pow_add_r; [|lia..]; by replace (12 - k + k) with 12 by lia).
  divmod b 4096. assert (E' : b = 2 ^ (12 - k) * (b / 4096) * 2 ^ k) by (transitivity (2 ^ (12 - k) * 2 ^ k * (b / 4096)); [rewrite E; lia|ring]). rewrite {1}E'. apply Z.mod_mul. pose proof (Z.pow_pos_nonneg 2 k). lia.
Qed.
Lemma wp_store_header m size v0 v1 vs (Φ : unit -> hProp) :
  0 <= size < 4088 ->
  cells m (v0 :: v1 :: vs) ⊢ (cells m (size :: 0 :: vs) -∗ Φ tt) -∗ wp (store32 m (w32 size)) Φ.
Proof.
  intros Hs. destruct (w32_size size Hs) as (E1&E2&E3). unfold store32. change SLOB_UNIT with 2. rewrite E1 E2 E3. cbn [cells].
  iIntros "(H0&H1&Hr) HΦ". wp_store "H0". wp_store "H1". iApply "HΦ". iFrame.
Qed.
Lemma wp_load_header m size vs (Φ : Z -> hProp) :
  0 <= size < 4088 ->
  cells m (size :: 0 :: vs) ⊢ (cells m (size :: 0 :: vs) -∗ Φ size) -∗ wp (load32 m) Φ.
Proof.
  intros Hs. unfold load32. change SLOB_UNIT with 2. cbn [cells]. iIntros "(H0&H1&Hr) HΦ". wp_load "H0". wp_load "H1". wp_done.
  change (0 mod 65536) with 0. change (Z.shiftl 0 16) with 0. rewrite Z.add_0_r Z.mod_small; [|lia]. rewrite w32_small; [|unfold two32; lia]. iApply "HΦ". iFrame.
Qed.

Lemma block_in_heap F b align n a bs' : block_in b align n a -> in_heap (<[b := bs']> F) a n.
Proof. intros [(i&?&?&->) _]. exists b, i. split_and!; try done. set_solver. Qed.
Lemma insert_subset F b bs' : dom F ⊆ dom (<[b := bs']> F).
Proof. set_solver. Qed.
(** The heap and its pages lie above the addresses that stand for no object. *)
Lemma block_in_above h F B b align n a : heap_wf h F B -> b ∈ dom F -> block_in b align n a -> 4096 <= a.
Proof. intros Hwf Hb [(i&?&?&->) _]. destruct (hw_page_ok _ _ _ _ Hwf Hb) as ((_&?&_)&_). lia. Qed.

(** A page that an object has units of is not free as a whole. *)
Lemma spaced_total bs : spaced 0 bs -> total bs <= 2048.
Proof. intros Hs. pose proof (blocks_bound _ _ Hs). pose proof (above_le _ _ Hs ltac:(lia)). destruct bs; cbn [length total] in *; lia. Qed.
Lemma spaced_full bs : spaced 0 bs -> total bs = 2048 -> bs = [(0, 2048)].
Proof.
  intros Hs Ht. pose proof (blocks_bound _ _ Hs). pose proof (above_le _ _ Hs ltac:(lia)).
  destruct bs as [|[i n] [|[j m] bs]]; cbn [length total spaced] in *; [lia| |lia]. f_equal. f_equal; lia.
Qed.
Lemma wp_taken h F B b bs align n a :
  block_in b align n a -> 1 <= n -> slobP h (<[b := bs]> F) B ⊢ raw a n -∗ ⌜total bs < 2048⌝.
Proof.
  intros [(i&Hi&Hin&->) _] Hn. iIntros "(%Hwf&Hc&_) Hr". destruct (hw_page _ _ _ Hwf b bs ltac:(apply lookup_insert_eq)) as [Hs _].
  pose proof (spaced_total _ Hs). destruct (decide (total bs = 2048)) as [E|]; [|iPureIntro; lia].
  unfold chains. rewrite (big_sepM_lookup_acc _ _ b bs (lookup_insert_eq _ _ _)). iDestruct "Hc" as "[Hc _]".
  iDestruct (chain_apart _ _ _ _ Hn _ _ Hs with "Hc Hr") as %Ha. rewrite (spaced_full _ Hs E) in Ha. inversion Ha; cbn in *; lia.
Qed.
Lemma partial_insert F b bs : total bs < 2048 -> partial F -> partial (<[b := bs]> F).
Proof. intros Ht Hp c cs. rewrite lookup_insert. case_decide; [by intros [= <-]|apply Hp]. Qed.
Lemma zeroed_replicate size n : 0 <= size <= 2 * Z.of_nat n -> zeroed size (replicate n 0).
Proof.
  intros Hs. assert (0 <= size / 2) by (apply Z.div_pos; lia). pose proof (Z.mul_div_le size 2 ltac:(lia)). split.
  - intros i Hi. apply lookup_replicate_2. lia.
  - intros Ho. exists 0. split; [|done]. apply lookup_replicate_2. pose proof (Z.div2_odd size) as E. rewrite Ho Z.div2_div in E. lia.
Qed.

(** What a call to kmalloc may do: fail, or return an object that nobody had. *)
Definition kmalloc_post (size : Z) (zero : bool) L (hp : heap S * Z) : hProp :=
  (<affine> ⌜hp.2 = 0 \/ (size = 0 /\ hp.2 = ZERO_SIZE_PTR)⌝ ∗ heapP hp.1 L
   ∨ ∃ data, <affine> ⌜ZERO_SIZE_PTR < hp.2 /\ hp.2 mod 8 = 0 /\ size <= 2 * Z.of_nat (length data)
                       /\ (zero = true -> zeroed size data)⌝
       ∗ heapP hp.1 (mkObj hp.2 size true data :: L))%I.

Lemma zeroed_drop size v0 v1 v2 v3 vs : 0 <= size -> zeroed (size + 8) (v0 :: v1 :: v2 :: v3 :: vs) -> zeroed size vs.
Proof.
  intros Hs [H1 H2]. assert (E : (size + 8) / 2 = size / 2 + 4) by (replace (size + 8) with (size + 4 * 2) by lia; by rewrite Z.div_add).
  assert (0 <= size / 2) by (apply Z.div_pos; lia). split.
  - intros i Hi. apply (H1 (4 + i)%nat). lia.
  - rewrite Z.odd_add /= xorb_false_r in H2. intros Ho. destruct (H2 Ho) as (v&Hv&Hm). exists v. split; [|done].
    rewrite E in Hv. replace (Z.to_nat (size / 2 + 4)) with (4 + Z.to_nat (size / 2))%nat in Hv by lia. exact Hv.
Qed.

Lemma wp_kmalloc size zero h L : 0 <= size < two64 -> heapP h L ⊢ wp (__kmalloc size zero h) (kmalloc_post size zero L).
Proof.
  intros Hsz. iIntros "(%F&%B&%Hpa&Hs&HL)". unfold __kmalloc, __do_kmalloc_node. change ARCH_KMALLOC_MINALIGN with 8. change (PAGE_SIZE - 8) with 4088.
  unfold kmalloc_post. destruct (Z.ltb_spec size 4088) as [Hlt|Hge].
  - destruct (Z.eqb_spec size 0) as [->|Hn0]; [wp_done; iLeft; iSplitR; [iPureIntro; by right|]; iExists F, B; by iFrame|].
    iApply wp_bind. iApply (wp_wand with "[Hs]").
    { iApply (wp_slob_alloc (size + 8) zero 8 h F B); [right; exists 3; split; [lia|done]|lia|done]. }
    iIntros ([h' [m|]]) "H"; unfold slob_allocated; cbn [fst snd].
    2: { iDestruct "H" as "[_ H]". wp_done. iLeft. iSplitR; [iPureIntro; by left|]. iExists F, B. by iFrame. }
    iDestruct "H" as "(%b&%bs'&%vs&%Hx&Hm&Hs)". destruct Hx as (Hin&_&Hl&Hz).
    destruct (SLOB_UNITS_eq size) as (Hu&_); [lia|]. destruct (SLOB_UNITS_eq (size + 8)) as (Hu'&_); [lia|].
    destruct vs as [|v0 [|v1 [|v2 [|v3 data]]]]; cbn [length] in Hl; try lia.
    iAssert ⌜4096 <= m /\ m mod 8 = 0⌝%I as %[Hm Hm8].
    { iDestruct "Hs" as "(%Hwf&_)". iPureIntro. split; [eapply block_in_above; [exact Hwf| |exact Hin]; set_solver|by apply Hin]. }
    iAssert ⌜total bs' < 2048⌝%I as %Ht; [iApply (wp_taken with "Hs [Hm]"); [exact Hin|lia|by iExists _; iFrame]|].
    iApply wp_bind. iApply (wp_store_header with "Hm"); [lia|]. iIntros "Hm". wp_done. iRight. iExists data. iSplitR.
    { iPureIntro. cbn [snd]. unfold ZERO_SIZE_PTR. split_and!; [lia| |lia|intros Hz'; eapply zeroed_drop; [lia|by apply Hz]].
      replace (m + 8) with (m + 1 * 8) by lia. rewrite Z.mod_add; [done|lia]. }
    cbn [fst]. iExists (<[b := bs']> F), B. iSplitR; [iPureIntro; by apply partial_insert|]. iFrame "Hs". rewrite (objsP_mono F B (<[b := bs']> F) B L); [|apply insert_subset|done]. iFrame "HL".
    unfold objP, small_obj. cbn [o_kmalloc o_size]. change (PAGE_SIZE - ARCH_KMALLOC_MINALIGN) with 4088.
    destruct (Z.ltb_spec size 4088); [|lia]. iExists v2, v3. cbn [o_ptr o_size o_data fst snd]. replace (m + 8 - 8) with m by lia.
    rewrite header_eq; [|lia]. iFrame. iPureIntro. split_and!; [lia|by eapply block_in_heap| |lia].
    replace (m + 8) with (m + 1 * 8) by lia. rewrite Z.mod_add; [done|lia].
  - iApply wp_bind. iApply (wp_wand with "[Hs]"); [by iApply wp_slob_new_pages|].
    iIntros ([h' [b|]]) "H"; unfold got_pages; cbn [fst snd]; wp_done; cbn [fst snd default from_option]; unfold id.
    2: { iDestruct "H" as "[_ H]". iLeft. iSplitR; [iPureIntro; by left|]. iExists F, B. by iFrame. }
    iDestruct "H" as "(%p&%vs&%Hp&Hr&Hs)". destruct Hp as (->&Hp&HB&HF&Hl&Hz). iRight. iExists vs.
    assert (Hok : page_ok (page_address p)) by (apply page_address_ok; lia). pose proof Hok as (_&Hp0&_).
    pose proof (get_order_spec size ltac:(lia)) as Hgo. iSplitR.
    { iPureIntro. cbn [snd]. unfold ZERO_SIZE_PTR. split_and!; [lia|by apply (page_ok_pow _ 3)|rewrite Hl; lia|].
      intros E. rewrite (Hz E). apply zeroed_replicate; lia. }
    iExists F, (<[(p, get_order size) := negb (get_order size =? 0)%nat]> B). iSplitR; [done|]. iFrame "Hs". rewrite (objsP_mono F B F _ L); [|done|by apply insert_subseteq].
    iFrame "HL". unfold objP, small_obj. cbn [o_kmalloc o_size]. change (PAGE_SIZE - ARCH_KMALLOC_MINALIGN) with 4088.
    destruct (Z.ltb_spec size 4088); [lia|]. iExists p. cbn [o_ptr o_size o_data o_kmalloc fst snd]. iFrame. iPureIntro. split_and!; [done| |done].
    by rewrite lookup_insert_eq.
Qed.

(** Memory goes back to the heap and the other objects stay as they are. *)
Lemma wp_give_back h F B L a size :
  partial F -> in_heap F a (SLOB_UNITS size) -> 1 <= size <= 4096 ->
  raw a (SLOB_UNITS size) ∗ slobP h F B ∗ ([∗ list] o ∈ L, objP F B o) ⊢ wp (slob_free a size h) (fun h' => heapP h' L).
Proof.
  intros Hpa (b&i&Hb&->&Hi&Hin) Hsz. iIntros "(Hr&Hs&HL)". iAssert ⌜heap_wf h F B⌝%I as %Hwf; [by iDestruct "Hs" as "(%Hwf&_)"|].
  pose proof Hb as [bs Hbs]%elem_of_dom. iApply (wp_wand with "[Hr Hs]"); [iApply (wp_slob_free h F B _ size b bs i); [done..|iFrame]|].
  iIntros (h') "H". destruct (Z.eqb_spec (total bs + SLOB_UNITS size) 2048) as [Et|Et].
  - iDestruct "H" as "(%Hx&Hs)". destruct Hx as [_ Ef]. iDestruct (objsP_step with "Hs HL") as "[Hs HL]".
    { intros o. by apply (objP_delete_page h h' F B b o Hwf Ef Hb). }
    iExists (delete b F), B. iFrame. iPureIntro. intros c cs [_ Hc]%lookup_delete_Some. by apply (Hpa c).
  - iDestruct "H" as "(%bs'&%Hx&Hs)". destruct Hx as [Hsp Ht']. iExists (<[b := bs']> F), B. iFrame "Hs". iSplitR.
    { iPureIntro. apply partial_insert; [|done]. pose proof (spaced_total _ Hsp). lia. } iApply (objsP_mono with "HL"); [apply insert_subset|done].
Qed.
Lemma wp_give_back_pages h F B L p order c :
  partial F -> B !! (p, order) = Some c ->
  raw (page_address p) (2048 * 2 ^ Z.of_nat order) ∗ slobP h F B ∗ ([∗ list] o ∈ L, objP F B o)
  ⊢ wp (slob_free_pages (page_address p) order h) (fun h' => heapP h' L).
Proof.
  intros Hpa HB. iIntros "(Hr&Hs&HL)". iAssert ⌜heap_wf h F B⌝%I as %Hwf; [by iDestruct "Hs" as "(%Hwf&_)"|].
  iApply (wp_wand with "[Hr Hs]"); [iApply (wp_free_whole h F B p order c HB); iFrame|].
  iIntros (h') "(%Hx&Hs)". destruct Hx as [_ Ef]. iDestruct (objsP_step with "Hs HL") as "[Hs HL]".
  { intros o. by apply (objP_delete_whole h h' F B p order o Hwf Ef). }
  iExists F, (delete (p, order) B). by iFrame.
Qed.

(** Where an object is. *)
Lemma virt_to_page_unit b i : page_ok b -> 0 <= i < 2048 -> virt_to_page (b + 2 * i) = b.
Proof. intros Hb Hi. unfold virt_to_page. by apply page_mask_unit. Qed.
Lemma virt_to_page_address p : 0 <= p < 17179869184 -> virt_to_page (page_address p) = page_address p.
Proof. intros Hp. rewrite -{1}(Z.add_0_r (page_address p)). apply (virt_to_page_unit _ 0); [apply page_address_ok; lia|lia]. Qed.
Lemma small_kmalloc_page h F B o :
  heap_wf h F B -> 1 <= o_size o < 4088 -> in_heap F (o_ptr o - 8) (SLOB_UNITS (o_size o + 8)) ->
  ZERO_SIZE_PTR < o_ptr o /\ PageSlab (page_at h (virt_to_page (o_ptr o))) = true.
Proof.
  intros Hwf Hs (b&i&Hb&Ea&Hi&Hin). destruct (SLOB_UNITS_eq (o_size o)) as (Hu&_); [lia|]. destruct (SLOB_UNITS_eq (o_size o + 8)) as (Hu'&_); [lia|].
  destruct (hw_page_ok _ _ _ _ Hwf Hb) as (Hok&_). pose proof Hok as (_&?&_). unfold ZERO_SIZE_PTR. split; [lia|].
  replace (o_ptr o) with (b + 2 * (i + 4)) by lia. rewrite virt_to_page_unit; [|done|lia].
  apply elem_of_dom in Hb as [bs Hbs]. eapply d_slab, (hw_page _ _ _ Hwf _ _ Hbs).
Qed.
Lemma whole_page h F B p (order : nat) (c : bool) :
  heap_wf h F B -> B !! (p, order) = Some c ->
  ZERO_SIZE_PTR < page_address p /\ virt_to_page (page_address p) = page_address p /\ PageSlab (page_at h (page_address p)) = false
  /\ compound_order (page_to_pfn (page_address p)) (source h) = Ret (if c then order else 0%nat).
Proof.
  intros Hwf HB. pose proof (owned_whole F B p order c HB) as Hin. pose proof Hwf as [W1 W2 W3 W4 W5 W6 W7 W8 W9].
  assert (Hfr : p ∈ ps_frames (source h)) by (eapply ps_block; [exact W1|exact Hin|apply frames_first]).
  pose proof (ps_range _ _ _ W1 Hfr) as Hr. pose proof (page_address_ok p ltac:(lia)) as (_&?&_). unfold ZERO_SIZE_PTR.
  split_and!; [lia|by apply virt_to_page_address| |rewrite page_to_pfn_address; [by apply (W7 p order c)|lia]].
  apply W4, not_elem_of_dom. intros Hb. destruct (hw_page_ok _ _ _ _ Hwf Hb) as (_&Ep&_).
  assert ((p, order) = (page_to_pfn (page_address p), 0%nat)) as E by (eapply owned_address; [exact W1|exact Hin|by apply owned_page|by rewrite Ep]).
  pose proof (W8 _ Hb) as Hn. rewrite -E HB in Hn. done.
Qed.

Lemma objP_kmalloc F B o : o_kmalloc o = true -> objP F B o = if o_size o <? 4088 then small_kmalloc F o else whole_pages B o.
Proof. intros Hk. unfold objP, small_obj. by rewrite Hk. Qed.
Lemma objP_cached F B o : o_kmalloc o = false -> objP F B o = if o_size o <? 4096 then small_cached F o else whole_pages B o.
Proof. intros Hk. unfold objP, small_obj. by rewrite Hk. Qed.
Lemma wp_kfree h L1 o L2 : o_kmalloc o = true -> heapP h (L1 ++ o :: L2) ⊢ wp (kfree (o_ptr o) h) (fun h' => heapP h' (L1 ++ L2)).
Proof.
  intros Hk. iIntros "(%F&%B&%Hpa&Hs&HL)". iAssert ⌜heap_wf h F B⌝%I as %Hwf; [by iDestruct "Hs" as "(%Hwf&_)"|].
  rewrite big_sepL_app big_sepL_cons. iDestruct "HL" as "(HL1&Ho&HL2)". iCombine "HL1 HL2" as "HL". rewrite -big_sepL_app.
  rewrite (objP_kmalloc F B o Hk). unfold kfree, ZERO_OR_NULL_PTR.
  destruct (Z.ltb_spec (o_size o) 4088) as [Hlt|Hge].
  - iDestruct "Ho" as "(%x&%y&%Hx&Ho)". destruct Hx as (H1&Hin&_&Hl). destruct (small_kmalloc_page h F B o Hwf ltac:(lia) Hin) as [Hp Hsl].
    destruct (Z.leb_spec (o_ptr o) ZERO_SIZE_PTR); [lia|]. rewrite Hsl. change ARCH_KMALLOC_MINALIGN with 8. rewrite header_eq; [|lia].
    iApply wp_bind. iApply (wp_load_header with "Ho"); [lia|]. iIntros "Ho". rewrite w32_small; [|unfold two32; lia]. rewrite s32_small; [|lia].
    iApply (wp_give_back h F B (L1 ++ L2)); [done|done|lia|]. iFrame "Hs HL".
    destruct (SLOB_UNITS_eq (o_size o)) as (Hu&_); [lia|]. destruct (SLOB_UNITS_eq (o_size o + 8)) as (Hu'&_); [lia|].
    iExists _. iFrame "Ho". iPureIntro. cbn [length]. lia.
  - iDestruct "Ho" as "(%p&%Hx&Ho)". rewrite Hk andb_true_l in Hx. destruct Hx as (Ep&HB&Hl).
    destruct (whole_page _ _ _ _ _ _ Hwf HB) as (Hp&Hv&Hsl&Hc). rewrite Ep. destruct (Z.leb_spec (page_address p) ZERO_SIZE_PTR); [lia|].
    rewrite Hv Hsl. iApply wp_bind. iApply (wp_lift _ _ _ Hc). replace (if negb (get_order (o_size o) =? 0)%nat then get_order (o_size o) else 0%nat) with (get_order (o_size o))
      by (by destruct (Nat.eqb_spec (get_order (o_size o)) 0)).
    iApply (wp_give_back_pages h F B (L1 ++ L2) p _ _ Hpa HB). iFrame "Hs HL". iExists _. iFrame "Ho". done.
Qed.
End Objects.
