(* ===== verification/SlobCaches.v ===== *)
(** ksize and the object caches of SLOB, on the heap with its objects in use. *)

From iris.proofmode Require Import proofmode.
From S2P Require Import Prelude Mem HeapLogic FindBit Kfifo KfifoFacts Slob SlobLogic SlobHeap SlobKmalloc.

Section Caches.
Context {S : Type} `{PageSourceLaws S} {Fr : Frames} {Tx : KernelText}.
Implicit Types (h : heap S) (F : gmap Z (list (Z * Z))) (B : gmap (Z * nat) bool) (o : obj) (L : list obj).

(** One object out of all, with what puts it back. *)
Lemma heapP_open h L1 o L2 :
  heapP h (L1 ++ o :: L2) ⊢ ∃ F B, <affine> ⌜partial F /\ heap_wf h F B⌝ ∗ slobP h F B ∗ objP F B o ∗ [∗ list] o ∈ L1 ++ L2, objP F B o.
Proof.
  iIntros "(%F&%B&%Hpa&Hs&HL)". iExists F, B. iAssert ⌜heap_wf h F B⌝%I as %Hwf; [by iDestruct "Hs" as "(%Hwf&_)"|].
  rewrite !big_sepL_app big_sepL_cons. iDestruct "HL" as "($&$&$)". by iFrame.
Qed.
Lemma heapP_close h F B L1 o L2 : partial F -> slobP h F B ∗ objP F B o ∗ ([∗ list] o ∈ L1 ++ L2, objP F B o) ⊢ heapP h (L1 ++ o :: L2).
Proof.
  intros Hpa. iIntros "(Hs&Ho&HL)". iExists F, B. iSplitR; [done|]. iFrame "Hs". rewrite !big_sepL_app big_sepL_cons. iDestruct "HL" as "[$ $]". iFrame.
Qed.

(** The blocks of pages are within the frames, so their sizes in bytes do not overflow. *)
Lemma whole_order h F B p (order : nat) (c : bool) : heap_wf h F B -> B !! (p, order) = Some c -> 2 ^ Z.of_nat order <= 17179869184.
Proof.
  intros Hwf HB. pose proof (owned_whole F B p order c HB) as Hin. pose proof (hw_source _ _ _ Hwf) as W.
  assert (0 < 2 ^ Z.of_nat order) by (apply Z.pow_pos_nonneg; lia).
  assert (P1 : p ∈ ps_frames (source h)) by (eapply ps_block; [exact W|exact Hin|apply frames_first]).
  assert (P2 : p + 2 ^ Z.of_nat order - 1 ∈ ps_frames (source h)) by (eapply ps_block; [exact W|exact Hin|apply elem_of_frames; lia]).
  pose proof (ps_range _ _ _ W P1). pose proof (ps_range _ _ _ W P2). lia.
Qed.

(** ksize is the number of bytes that the object's memory has. *)
Lemma wp_ksize h L1 o L2 :
  o_kmalloc o = true ->
  heapP h (L1 ++ o :: L2) ⊢ wp (ksize (o_ptr o) h) (fun n => <affine> ⌜n = (2 * Z.of_nat (length (o_data o)))%Z⌝ ∗ heapP h (L1 ++ o :: L2)).
Proof.
  intros Hk. rewrite {1}heapP_open. iIntros "(%F&%B&%Hpw&Hs&Ho&HL)". destruct Hpw as [Hpa Hwf]. rewrite (objP_kmalloc F B o Hk). unfold ksize.
  destruct (Z.ltb_spec (o_size o) 4088) as [Hlt|Hge].
  - iDestruct "Ho" as "(%x&%y&%Hx&Ho)". destruct Hx as (Hs1&Hin&?&Hl). destruct (small_kmalloc_page h F B o Hwf ltac:(lia) Hin) as [Hp Hsl].
    unfold ZERO_SIZE_PTR in *. destruct (Z.eqb_spec (o_ptr o) 0); [lia|]. destruct (Z.eqb_spec (o_ptr o) 16); [lia|]. rewrite Hsl. cbn [negb].
    change ARCH_KMALLOC_MINALIGN with 8. rewrite header_eq; [|lia]. iApply wp_bind. iApply (wp_load_header with "Ho"); [lia|]. iIntros "Ho". wp_done.
    iSplitR; [iPureIntro; rewrite Hl; change SLOB_UNIT with 2; lia|]. iApply heapP_close; [done|]. iFrame. rewrite (objP_kmalloc F B o Hk).
    destruct (Z.ltb_spec (o_size o) 4088); [|lia]. iExists x, y. rewrite header_eq; [|lia]. by iFrame.
  - iDestruct "Ho" as "(%p&%Hx&Ho)". rewrite Hk andb_true_l in Hx. destruct Hx as (Ep&HB&Hl).
    destruct (whole_page _ _ _ _ _ _ Hwf HB) as (Hp&Hv&Hsl&Hc). pose proof (whole_order _ _ _ _ _ _ Hwf HB). unfold ZERO_SIZE_PTR in *. rewrite Ep.
    destruct (Z.eqb_spec (page_address p) 0); [lia|]. destruct (Z.eqb_spec (page_address p) 16); [lia|]. rewrite Hv Hsl. cbn [negb].
    iApply wp_bind. iApply (wp_lift _ _ _ Hc). wp_done.
    iSplitR.
    + iPureIntro. replace (if negb (get_order (o_size o) =? 0)%nat then get_order (o_size o) else 0%nat) with (get_order (o_size o))
        by (by destruct (Nat.eqb_spec (get_order (o_size o)) 0)).
      assert (0 < 2 ^ Z.of_nat (get_order (o_size o))) by (apply Z.pow_pos_nonneg; lia).
      change PAGE_SIZE with 4096. rewrite Z.shiftl_mul_pow2; [|lia]. rewrite w64_small; [|unfold two64; lia]. lia.
    + iApply heapP_close; [done|]. iFrame. rewrite (objP_kmalloc F B o Hk). destruct (Z.ltb_spec (o_size o) 4088); [lia|]. iExists p. rewrite Hk Ep andb_true_l. by iFrame.
Qed.

(** * Caches *)

(** A constructor may write its object, and nothing else. *)
Definition ctor_ok (f : Z -> M unit) : Prop :=
  forall b vs, cells b vs ⊢ wp (f b) (fun _ => ∃ vs', <affine> ⌜length vs' = length vs⌝ ∗ cells b vs').
Record cache_ok (c : kmem_cache) : Prop := {
  co_align : align_ok (c_align c);
  co_size : 1 <= c_size c < 2147483648;
  co_ctor f : ctor c = Some f -> ctor_ok f;
}.

Definition cache_alloc_post (c : kmem_cache) (zero : bool) L (hr : heap S * option Z) : hProp :=
  match hr.2 with
  | None => heapP hr.1 L
  | Some b =>
      ∃ data, <affine> ⌜(c_align c <> 0 -> b mod c_align c = 0) /\ c_size c <= 2 * Z.of_nat (length data)
                        /\ (zero = true -> ctor c = None -> zeroed (c_size c) data)⌝
        ∗ heapP hr.1 (mkObj b (c_size c) false data :: L)
  end%I.

(** The object that slob_alloc_node returns, before the constructor. *)
Lemma wp_cache_block (c : kmem_cache) zero h L :
  cache_ok c -> heapP h L ⊢ wp (if c_size c <? PAGE_SIZE then slob_alloc (c_size c) zero (c_align c) h else slob_new_pages zero false (get_order (c_size c)) h)
    (fun hr => match hr.2 with
      | None => heapP hr.1 L
      | Some b => ∃ data, <affine> ⌜(c_align c <> 0 -> b mod c_align c = 0) /\ c_size c <= 2 * Z.of_nat (length data)
                                    /\ (zero = true -> zeroed (c_size c) data)⌝
                   ∗ cells b data ∗ (∀ data', <affine> ⌜length data' = length data⌝ -∗ cells b data' -∗ heapP hr.1 (mkObj b (c_size c) false data' :: L))
      end).
Proof.
  intros [Ha Hs _]. iIntros "(%F&%B&%Hpa&Hs&HL)". change PAGE_SIZE with 4096. destruct (Z.ltb_spec (c_size c) 4096) as [Hlt|Hge].
  - iApply (wp_wand with "[Hs]"); [iApply (wp_slob_alloc (c_size c) zero (c_align c) h F B); [done|lia|done]|].
    iIntros ([h' [m|]]) "H"; unfold slob_allocated; cbn [fst snd]; [|iDestruct "H" as "[_ H]"; iExists F, B; by iFrame].
    iDestruct "H" as "(%b&%bs'&%vs&%Hx&Hm&Hs)". destruct Hx as (Hin&_&Hl&Hz). destruct (SLOB_UNITS_eq (c_size c)) as (Hu&_); [lia|].
    iAssert ⌜total bs' < 2048⌝%I as %Ht; [iApply (wp_taken with "Hs [Hm]"); [exact Hin|lia|by iExists _; iFrame]|].
    iExists vs. iFrame "Hm". iSplitR; [iPureIntro; split_and!; [by apply Hin|lia|auto]|].
    iIntros (data') "%Hd Hm". iExists (<[b := bs']> F), B. iSplitR; [iPureIntro; by apply partial_insert|]. iFrame "Hs". rewrite (objsP_mono F B (<[b := bs']> F) B L); [|apply insert_subset|done]. iFrame "HL".
    rewrite objP_cached; [|done]. cbn [o_size]. destruct (Z.ltb_spec (c_size c) 4096); [|lia]. unfold small_cached. cbn [o_size o_ptr o_data]. iFrame.
    iPureIntro. split_and!; [lia|by eapply block_in_heap|lia].
  - iApply (wp_wand with "[Hs]"); [by iApply wp_slob_new_pages|]. iIntros ([h' [b|]]) "H"; unfold got_pages; cbn [fst snd];
      [|iDestruct "H" as "[_ H]"; iExists F, B; by iFrame].
    iDestruct "H" as "(%p&%vs&%Hp&Hr&Hs)". destruct Hp as (->&Hp&HB&HF&Hl&Hz). iExists vs. iFrame "Hr".
    pose proof (page_address_ok p ltac:(lia)) as Hok. pose proof (get_order_spec (c_size c) ltac:(unfold two64; lia)) as Hgo. iSplitR.
    { iPureIntro. split_and!; [intros Hn0|lia|intros E; rewrite (Hz E); apply zeroed_replicate; lia]. destruct Ha as [|(k&Hk&->)]; [done|]. by apply page_ok_pow. }
    iIntros (data') "%Hd Hm". iExists F, (<[(p, get_order (c_size c)) := false]> B). iSplitR; [done|]. iFrame "Hs".
    rewrite (objsP_mono F B F _ L); [|done|by apply insert_subseteq]. iFrame "HL".
    rewrite objP_cached; [|done]. cbn [o_size]. destruct (Z.ltb_spec (c_size c) 4096); [lia|]. iExists p. cbn [o_ptr o_size o_data o_kmalloc]. iFrame.
    iPureIntro. split_and!; [done| |lia]. by rewrite lookup_insert_eq.
Qed.

Lemma wp_kmem_cache_alloc c zero h L : cache_ok c -> heapP h L ⊢ wp (kmem_cache_alloc c zero h) (cache_alloc_post c zero L).
Proof.
  intros Hc. unfold kmem_cache_alloc, slob_alloc_node. iIntros "H". iApply wp_bind. iApply (wp_wand with "[H]"); [by iApply wp_cache_block|].
  unfold cache_alloc_post. iIntros ([h' [b|]]) "H"; cbn [fst snd]; [|by wp_done]. iDestruct "H" as "(%data&%Hx&Hd&Hh)". destruct Hx as (Hal&Hsz&Hz).
  destruct (ctor c) as [f|] eqn:Ef.
  - iApply wp_bind. iApply (wp_wand with "[Hd]"); [by iApply (co_ctor _ Hc _ Ef)|]. iIntros ([]) "(%vs'&%Hl&Hd)". wp_done. cbn [fst snd].
    iExists vs'. iSplitR; [iPureIntro; split_and!; [done|lia|done]|]. iApply ("Hh" with "[] Hd"). done.
  - wp_done. cbn [fst snd]. iExists data. iSplitR; [iPureIntro; split_and!; auto|]. iApply ("Hh" with "[] Hd"). done.
Qed.

Lemma wp_cache_give_back h L1 o L2 :
  o_kmalloc o = false -> 1 <= o_size o < 2147483648 ->
  heapP h (L1 ++ o :: L2) ⊢ wp (__kmem_cache_free (o_ptr o) (o_size o) h) (fun h' => heapP h' (L1 ++ L2)).
Proof.
  intros Hk Hs. rewrite heapP_open. iIntros "(%F&%B&%Hpw&Hs&Ho&HL)". destruct Hpw as [Hpa Hwf]. rewrite (objP_cached F B o Hk). unfold __kmem_cache_free.
  change PAGE_SIZE with 4096. destruct (Z.ltb_spec (o_size o) 4096) as [Hlt|Hge].
  - iDestruct "Ho" as "(%Hx&Ho)". destruct Hx as (Hs1&Hin&Hl). iApply (wp_give_back h F B (L1 ++ L2)); [done|done|lia|]. iFrame "Hs HL".
    iExists _. by iFrame "Ho".
  - iDestruct "Ho" as "(%p&%Hx&Ho)". destruct Hx as (Ep&HB&Hl). rewrite Ep. iApply (wp_give_back_pages h F B (L1 ++ L2) p _ _ Hpa HB).
    iFrame "Hs HL". iExists _. by iFrame "Ho".
Qed.
Lemma wp_kmem_cache_free c rcu h L1 o L2 :
  typesafe_by_rcu c = false -> o_kmalloc o = false -> o_size o = c_size c -> 1 <= c_size c < 2147483648 ->
  heapP h (L1 ++ o :: L2) ⊢ wp (kmem_cache_free c (o_ptr o) rcu h) (fun r => <affine> ⌜r.2 = rcu⌝ ∗ heapP r.1 (L1 ++ L2)).
Proof.
  intros Hr Hk Ho Hs. iIntros "H". unfold kmem_cache_free. rewrite Hr -Ho. iApply wp_bind.
  iApply (wp_wand with "[H]"); [iApply (wp_cache_give_back with "H"); [done|lia]|]. iIntros (h') "H". wp_done. by iFrame.
Qed.

(** * The memory of one object *)

Definition with_data o (data : list Z) : obj := mkObj (o_ptr o) (o_size o) (o_kmalloc o) data.

Lemma objP_access F B o :
  objP F B o ⊢ cells (o_ptr o) (o_data o)
    ∗ (∀ data', <affine> ⌜length data' = length (o_data o)⌝ -∗ cells (o_ptr o) data' -∗ objP F B (with_data o data')).
Proof.
  unfold objP, small_obj, with_data. cbn [o_kmalloc o_size]. destruct (o_kmalloc o) eqn:Ek; destruct (_ <? _).
  - iIntros "(%x&%y&%Hx&H)". rewrite cells_app. cbn [length header]. replace (o_ptr o - 8 + 2 * Z.of_nat 4) with (o_ptr o) by lia.
    iDestruct "H" as "[Hh $]". iIntros (d) "%Hd Hr". iExists x, y. cbn [o_ptr o_size o_data]. rewrite cells_app. cbn [length header].
    replace (o_ptr o - 8 + 2 * Z.of_nat 4) with (o_ptr o) by lia. rewrite Hd. by iFrame.
  - iIntros "(%p&%Hx&$)". iIntros (d) "%Hd Hr". iExists p. cbn [o_ptr o_size o_data o_kmalloc]. iFrame. iPureIntro. rewrite Ek in Hx. by rewrite Hd.
  - iIntros "(%Hx&$)". iIntros (d) "%Hd Hr". unfold small_cached. cbn [o_ptr o_size o_data o_kmalloc]. iFrame. iPureIntro. by rewrite Hd.
  - iIntros "(%p&%Hx&$)". iIntros (d) "%Hd Hr". iExists p. cbn [o_ptr o_size o_data o_kmalloc]. iFrame. iPureIntro. rewrite Ek in Hx. by rewrite Hd.
Qed.
Lemma heapP_access h L1 o L2 :
  heapP h (L1 ++ o :: L2) ⊢ cells (o_ptr o) (o_data o)
    ∗ (∀ data', <affine> ⌜length data' = length (o_data o)⌝ -∗ cells (o_ptr o) data' -∗ heapP h (L1 ++ with_data o data' :: L2)).
Proof.
  rewrite heapP_open. iIntros "(%F&%B&%Hpw&Hs&Ho&HL)". destruct Hpw as [Hpa Hwf]. rewrite objP_access. iDestruct "Ho" as "[$ Ho]".
  iIntros (d) "%Hd Hr". iApply heapP_close; [done|]. iFrame "Hs HL". by iApply ("Ho" with "[] Hr").
Qed.
Lemma with_data_same o : with_data o (o_data o) = o.
Proof. by destruct o. Qed.

(** One unit of an object. *)
Lemma cells_unit a vs (k : nat) v :
  vs !! k = Some v -> cells a vs ⊢ (a + 2 * Z.of_nat k) ↦ v ∗ (∀ w, (a + 2 * Z.of_nat k) ↦ w -∗ cells a (<[k := w]> vs)).
Proof.
  intros Hk. rewrite -{1}(take_drop_middle vs k v Hk) cells_app. rewrite length_take_le; [|apply lookup_lt_Some in Hk; lia]. cbn [cells].
  iIntros "(H1&$&H2)". iIntros (w) "Hw". rewrite insert_take_drop; [|by eapply lookup_lt_Some]. rewrite cells_app.
  rewrite length_take_le; [|apply lookup_lt_Some in Hk; lia]. cbn [cells]. iFrame.
Qed.

(** * Caches whose memory is freed after a grace period *)

Lemma s16_mod v : s16 v mod 65536 = v mod 65536.
Proof.
  unfold s16. cbv zeta. pose proof (Z.mod_pos_bound v 65536 ltac:(lia)). destruct (_ <? _); [by rewrite Z.mod_mod|].
  replace (v mod 65536 - 65536) with (v mod 65536 + -1 * 65536) by lia. rewrite Z.mod_add; [|lia]. by rewrite Z.mod_mod.
Qed.
Lemma load32_store32 v : 0 <= v < two32 -> w32 (s16 v mod 65536 + Z.shiftl (s16 (Z.shiftr v 16) mod 65536) 16) = v.
Proof.
  intros Hv. rewrite !s16_mod Z.shiftr_div_pow2; [|done]. rewrite Z.shiftl_mul_pow2; [|done]. change (2 ^ 16) with 65536. unfold two32 in Hv.
  assert (v / 65536 < 65536) by (apply Z.div_lt_upper_bound; lia). assert (0 <= v / 65536) by (apply Z.div_pos; lia).
  rewrite (Z.mod_small (v / 65536)); [|lia]. divmod v 65536. rewrite w32_small; [lia|unfold two32; lia].
Qed.

(** Storing to the units of an object, from unit [k] on. *)
Definition put32 (k : nat) (v : Z) (data : list Z) : list Z := <[(1 + k)%nat := s16 (Z.shiftr v 16)]> (<[k := s16 v]> data).
Definition put64 (k : nat) (v : Z) (data : list Z) : list Z := put32 (2 + k)%nat (Z.shiftr v 32) (put32 k v data).

Lemma put32_length k v data : length (put32 k v data) = length data.
Proof. unfold put32. by rewrite !length_insert. Qed.
Lemma put64_length k v data : length (put64 k v data) = length data.
Proof. unfold put64. by rewrite !put32_length. Qed.
Lemma put32_other k v data i : i <> k -> i <> (1 + k)%nat -> put32 k v data !! i = data !! i.
Proof. intros. unfold put32. by rewrite !list_lookup_insert_ne. Qed.
Lemma put32_here k v data :
  (1 + k < length data)%nat -> put32 k v data !! k = Some (s16 v) /\ put32 k v data !! (1 + k)%nat = Some (s16 (Z.shiftr v 16)).
Proof.
  intros Hk. unfold put32. split.
  - rewrite list_lookup_insert_ne; [|lia]. apply list_lookup_insert_eq. lia.
  - apply list_lookup_insert_eq. rewrite length_insert. lia.
Qed.
Lemma put64_other k v data i : ~ (k <= i < 4 + k)%nat -> put64 k v data !! i = data !! i.
Proof. intros. unfold put64. rewrite !put32_other; [done|lia..]. Qed.

Lemma wp_store32_obj h L1 o L2 (k : nat) v :
  (1 + k < length (o_data o))%nat ->
  heapP h (L1 ++ o :: L2) ⊢ wp (store32 (o_ptr o + 2 * Z.of_nat k) v) (fun _ => heapP h (L1 ++ with_data o (put32 k v (o_data o)) :: L2)).
Proof.
  intros Hk. iIntros "H". unfold store32. rewrite heapP_access. iDestruct "H" as "[Hd Hh]".
  destruct (lookup_lt_is_Some_2 (o_data o) k ltac:(lia)) as [x Ex]. destruct (lookup_lt_is_Some_2 (o_data o) (1 + k) ltac:(lia)) as [y Ey].
  iDestruct (cells_unit with "Hd") as "[Hx Hd]"; [exact Ex|]. wp_store "Hx". iDestruct ("Hd" with "Hx") as "Hd".
  iDestruct (cells_unit _ _ (1 + k) y with "Hd") as "[Hy Hd]"; [rewrite list_lookup_insert_ne; [done|lia]|].
  replace (o_ptr o + 2 * Z.of_nat (1 + k)) with (o_ptr o + 2 * Z.of_nat k + SLOB_UNIT) by (change SLOB_UNIT with 2; lia).
  wp_store "Hy". iDestruct ("Hd" with "Hy") as "Hd". iApply ("Hh" with "[] Hd"). by rewrite put32_length.
Qed.
Lemma wp_store64_obj h L1 o L2 (k : nat) v :
  (3 + k < length (o_data o))%nat ->
  heapP h (L1 ++ o :: L2) ⊢ wp (store64 (o_ptr o + 2 * Z.of_nat k) v) (fun _ => heapP h (L1 ++ with_data o (put64 k v (o_data o)) :: L2)).
Proof.
  intros Hk. iIntros "H". unfold store64. iApply wp_bind. iApply (wp_wand with "[H]"); [iApply wp_store32_obj; [lia|done]|].
  iIntros ([]) "H". replace (o_ptr o + 2 * Z.of_nat k + 2 * SLOB_UNIT) with (o_ptr o + 2 * Z.of_nat (2 + k)) by (change SLOB_UNIT with 2; lia).
  iApply (wp_store32_obj h L1 (with_data o (put32 k v (o_data o))) L2 (2 + k) (Z.shiftr v 32) with "H").
  cbn [o_data with_data]. rewrite put32_length. lia.
Qed.

(** The slob_rcu at the end of an object: the rcu_head, then the size. *)
Definition head_unit (c : kmem_cache) : nat := Z.to_nat ((c_size c - 24) / 2).
Definition footer_unit (c : kmem_cache) : nat := (8 + head_unit c)%nat.
Definition has_footer (c : kmem_cache) (data : list Z) : Prop :=
  data !! footer_unit c = Some (s16 (w32 (c_size c))) /\ data !! (1 + footer_unit c)%nat = Some (s16 (Z.shiftr (w32 (c_size c)) 16)).
Definition rcu_cache_ok (c : kmem_cache) : Prop := typesafe_by_rcu c = true /\ 24 <= c_size c < 2147483648 /\ c_size c mod 2 = 0.
(** An object that waits for its grace period, and where its rcu_head is. *)
Definition waiting_ok (co : kmem_cache * obj) : Prop :=
  rcu_cache_ok co.1 /\ o_kmalloc co.2 = false /\ o_size co.2 = c_size co.1 /\ has_footer co.1 (o_data co.2).
Definition head_of (co : kmem_cache * obj) : Z := o_ptr co.2 + (c_size co.1 - sizeof_slob_rcu).

(** What [kmem_cache_free] writes into the object, and call_rcu into the one that was last. *)
Definition footed (c : kmem_cache) (data : list Z) : list Z :=
  put64 (head_unit c) 0 (put64 (4 + head_unit c)%nat text_kmem_rcu_free (put32 (footer_unit c) (w32 (c_size c)) data)).
Definition set_next (head : Z) (co : kmem_cache * obj) : kmem_cache * obj :=
  (co.1, with_data co.2 (put64 (head_unit co.1) head (o_data co.2))).
Definition link_last (head : Z) (W : list (kmem_cache * obj)) : list (kmem_cache * obj) :=
  match last W with Some co => removelast W ++ [set_next head co] | None => W end.

Lemma footed_footer c data : (1 + footer_unit c < length data)%nat -> has_footer c (footed c data).
Proof.
  intros Hl. destruct (put32_here (footer_unit c) (w32 (c_size c)) data Hl) as [E1 E2]. unfold has_footer, footed.
  split; (rewrite put64_other; [|unfold footer_unit; lia]); (rewrite put64_other; [|unfold footer_unit; lia]); assumption.
Qed.
(** The object proper keeps its contents. *)
Lemma footed_other c data i : (i < head_unit c)%nat -> footed c data !! i = data !! i.
Proof.
  intros. unfold footed. rewrite put64_other; [|lia]. rewrite put64_other; [|lia]. apply put32_other; unfold footer_unit; lia.
Qed.
Lemma footed_length c data : length (footed c data) = length data.
Proof. unfold footed. by rewrite !put64_length put32_length. Qed.

Lemma unit_address c b : rcu_cache_ok c -> b + (c_size c - sizeof_slob_rcu) = b + 2 * Z.of_nat (head_unit c).
Proof. intros (_&Hs&Hm). unfold sizeof_slob_rcu, head_unit. divmod (c_size c) 2. divmod (c_size c - 24) 2. lia. Qed.
Lemma footer_address c b : rcu_cache_ok c -> b + (c_size c - sizeof_slob_rcu) + slob_rcu_size = b + 2 * Z.of_nat (footer_unit c).
Proof. intros Hc. rewrite unit_address; [|done]. unfold slob_rcu_size, footer_unit. lia. Qed.
Lemma units_inside c (data : list Z) : rcu_cache_ok c -> c_size c <= 2 * Z.of_nat (length data) -> (1 + footer_unit c < length data)%nat.
Proof. intros (_&Hs&Hm) Hl. unfold footer_unit, head_unit. divmod (c_size c) 2. divmod (c_size c - 24) 2. lia. Qed.

Lemma set_next_ok v co : waiting_ok co -> waiting_ok (set_next v co).
Proof.
  intros (C1&C2&C3&[C4 C5]). unfold waiting_ok, has_footer, set_next. cbn [fst snd o_kmalloc o_size o_data with_data].
  split_and!; [done|done|done|..]; (rewrite put64_other; [assumption|unfold footer_unit; lia]).
Qed.
Lemma link_last_snoc v W co : link_last v (W ++ [co]) = W ++ [set_next v co].
Proof. unfold link_last. by rewrite last_snoc removelast_last. Qed.
Lemma link_last_heads v W : head_of <$> link_last v W = head_of <$> W.
Proof. destruct W as [|co W0 _] using rev_ind; [done|]. by rewrite link_last_snoc !fmap_app. Qed.
Lemma link_last_ok v W : Forall waiting_ok W -> Forall waiting_ok (link_last v W).
Proof.
  destruct W as [|co W0 _] using rev_ind; [done|]. rewrite link_last_snoc !Forall_app !Forall_cons. intros (?&?&?).
  split_and!; [done|by apply set_next_ok|done].
Qed.
Lemma wp_set_next h L1 co L2 v :
  waiting_ok co ->
  heapP h (L1 ++ co.2 :: L2) ⊢ wp (store64 (head_of co) v) (fun _ => heapP h (L1 ++ (set_next v co).2 :: L2)).
Proof.
  intros (C1&_&_&[_ C5]). apply lookup_lt_Some in C5. unfold footer_unit in C5. unfold head_of. rewrite unit_address; [|done].
  apply wp_store64_obj. lia.
Qed.
Lemma wp_kmem_cache_free_rcu c h L1 o L2 W :
  rcu_cache_ok c -> c_size c <= 2 * Z.of_nat (length (o_data o)) -> Forall waiting_ok W ->
  heapP h (L1 ++ o :: L2 ++ W.*2) ⊢ wp (kmem_cache_free c (o_ptr o) (head_of <$> W) h) (fun r =>
    <affine> ⌜r = (h, (head_of <$> W) ++ [head_of (c, o)])⌝
    ∗ heapP h (L1 ++ with_data o (footed c (o_data o)) :: L2 ++ (link_last (head_of (c, o)) W).*2)).
Proof.
  intros Hc Hlen HW. iIntros "H". pose proof (units_inside c (o_data o) Hc Hlen) as Hin. unfold kmem_cache_free, __call_rcu.
  rewrite (proj1 Hc). rewrite footer_address; [|done]. iApply wp_bind.
  iApply (wp_wand with "[H]"); [iApply wp_store32_obj; [done|done]|]. iIntros ([]) "H". do 2 iApply wp_bind. set (d1 := put32 _ _ _).
  assert (L1' : length d1 = length (o_data o)) by (unfold d1; by rewrite put32_length). unfold footer_unit in Hin.
  replace (o_ptr o + (c_size c - sizeof_slob_rcu) + rcu_head_func) with (o_ptr o + 2 * Z.of_nat (4 + head_unit c))
    by (rewrite unit_address; [|done]; unfold rcu_head_func; lia).
  iApply (wp_wand with "[H]"); [iApply (wp_store64_obj h L1 (with_data o d1)); [cbn [o_data with_data]; lia|done]|].
  iIntros ([]) "H". iApply wp_bind. cbn [o_data with_data]. set (d2 := put64 _ _ d1). rewrite unit_address; [|done].
  iApply (wp_wand with "[H]"); [iApply (wp_store64_obj h L1 (with_data o d2) _ (head_unit c) with "H");
    cbn [o_data with_data]; unfold d2; rewrite put64_length; lia|].
  iIntros ([]) "H". cbn [o_data with_data]. change (put64 (head_unit c) 0 d2) with (footed c (o_data o)). rewrite -(unit_address c (o_ptr o)); [|done].
  change (o_ptr o + (c_size c - sizeof_slob_rcu)) with (head_of (c, o)). unfold link_last. iApply wp_bind.
  destruct W as [|co W0 _] using rev_ind; cbn [fmap list_fmap last app].
  { wp_done. wp_done. wp_done. by iFrame. }
  apply Forall_app in HW as [_ HW]. apply Forall_cons in HW as [HW _].
  rewrite !fmap_app !last_snoc removelast_last fmap_app. cbn [fmap list_fmap].
  rewrite app_comm_cons !app_assoc. iApply (wp_wand with "[H]"); [by iApply wp_set_next|].
  iIntros ([]) "H". wp_done. wp_done. iSplitR; [done|]. rewrite -!app_assoc. iExact "H".
Qed.

Lemma wp_kmem_rcu_free c h L1 o L2 :
  rcu_cache_ok c -> o_kmalloc o = false -> o_size o = c_size c -> has_footer c (o_data o) ->
  heapP h (L1 ++ o :: L2) ⊢ wp (kmem_rcu_free (o_ptr o + (c_size c - sizeof_slob_rcu)) h) (fun h' => heapP h' (L1 ++ L2)).
Proof.
  intros Hc Hk Ho [F1 F2]. iIntros "H". unfold kmem_rcu_free, load32. pose proof Hc as (_&Hs&Hm). rewrite footer_address; [|done].
  rewrite heapP_access. iDestruct "H" as "[Hd Hh]". set (k := footer_unit c) in *. iApply wp_bind.
  iDestruct (cells_unit with "Hd") as "[Hx Hd]"; [exact F1|]. wp_load "Hx". iDestruct ("Hd" with "Hx") as "Hd". rewrite list_insert_id; [|done].
  iDestruct (cells_unit _ _ (1 + k) _ F2 with "Hd") as "[Hy Hd]".
  replace (o_ptr o + 2 * Z.of_nat (1 + k)) with (o_ptr o + 2 * Z.of_nat k + SLOB_UNIT) by (change SLOB_UNIT with 2; lia).
  wp_load "Hy". iDestruct ("Hd" with "Hy") as "Hd". rewrite list_insert_id; [|done]. wp_done.
  rewrite (w32_small (c_size c)); [|unfold two32; lia]. rewrite load32_store32; [|unfold two32; lia]. rewrite s32_small; [|lia].
  replace (o_ptr o + (c_size c - sizeof_slob_rcu) - (c_size c - sizeof_slob_rcu)) with (o_ptr o) by lia. rewrite -Ho.
  iApply wp_cache_give_back; [done|lia|]. iDestruct ("Hh" with "[] Hd") as "Hh"; [done|]. by rewrite with_data_same.
Qed.
End Caches.
