(* ===== verification/SlobClient.v ===== *)
(** Any sequence of calls to the allocator: what the code does refines a store of objects. *)

From iris.proofmode Require Import proofmode.
From S2P Require Import Prelude Mem HeapLogic FindBit Kfifo KfifoFacts Slob SlobLogic SlobHeap SlobKmalloc SlobCaches.

(** * Calls *)

(** Objects are named by their place in the list of objects in use, units of an object by their
    index; [GracePeriod] runs the oldest callback. *)
Inductive call :=
| Kmalloc (size : Z) (zero : bool)
| Kfree (i : nat)
| Ksize (i : nat)
| CacheAlloc (c : kmem_cache) (zero : bool)
| CacheFree (c : kmem_cache) (i : nat)
| GracePeriod
| Load (i k : nat)
| Store (i k : nat) (v : Z).

(** What the caller knows: address, size and origin of its objects, and the callbacks. *)
Record client := mkClient {
  handles : list (Z * Z * bool);
  callbacks : list Z;
}.
Definition keep (p : Z) (size : Z) (kmalloc : bool) (cl : client) : client := mkClient ((p, size, kmalloc) :: handles cl) (callbacks cl).
Definition drop_handle (i : nat) (cl : client) : client := mkClient (delete i (handles cl)) (callbacks cl).

(** * The specification *)

(** The objects in use, and the objects of RCU caches that wait to be freed, oldest first.
    The slob_rcu at the end of a waiting object holds the link to the next one, the callback and
    the size; the rest of it keeps its contents ([footed_other]). *)
Record world := mkWorld {
  objs : list obj;
  waiting : list (kmem_cache * obj);
}.
Definition add_obj (o : obj) (w : world) : world := mkWorld (o :: objs w) (waiting w).
Definition del_obj (i : nat) (w : world) : world := mkWorld (delete i (objs w)) (waiting w).
Definition set_obj (i : nat) (o : obj) (w : world) : world := mkWorld (<[i := o]> (objs w)) (waiting w).
Definition kmalloc_obj (w : world) (i : nat) : option obj := o ← objs w !! i; if o_kmalloc o then Some o else None.
Definition cache_obj (c : kmem_cache) (w : world) (i : nat) : option obj :=
  o ← objs w !! i; if negb (o_kmalloc o) && (o_size o =? c_size c) then Some o else None.
(** Unit [k] of the object, if it is within the size that was asked for. *)
Definition obj_unit (w : world) (i k : nat) : option obj := o ← objs w !! i; if 2 * Z.of_nat k + 2 <=? o_size o then Some o else None.

(** The call [c] in the world [w] may answer [r] and leave the world [w']; a call that names no
    object does nothing. *)
Definition spec `{KernelText} (c : call) (w : world) (r : Z) (w' : world) : Prop :=
  match c with
  | Kmalloc size zero =>
      (w' = w /\ (r = 0 \/ (size = 0 /\ r = ZERO_SIZE_PTR)))
      \/ exists data, ZERO_SIZE_PTR < r /\ r mod 8 = 0 /\ size <= 2 * Z.of_nat (length data) /\ (zero = true -> zeroed size data)
           /\ w' = add_obj (mkObj r size true data) w
  | Kfree i => r = 0 /\ w' = match kmalloc_obj w i with Some _ => del_obj i w | None => w end
  | Ksize i => w' = w /\ r = match kmalloc_obj w i with Some o => 2 * Z.of_nat (length (o_data o)) | None => 0 end
  | CacheAlloc c zero =>
      (w' = w /\ r = 0)
      \/ exists data, (c_align c <> 0 -> r mod c_align c = 0) /\ c_size c <= 2 * Z.of_nat (length data)
           /\ (zero = true -> ctor c = None -> zeroed (c_size c) data) /\ w' = add_obj (mkObj r (c_size c) false data) w
  | CacheFree c i =>
      r = 0 /\ match cache_obj c w i with
      | None => w' = w
      | Some o =>
          if typesafe_by_rcu c then
            w' = mkWorld (delete i (objs w))
                   (link_last (head_of (c, o)) (waiting w) ++ [(c, with_data o (footed c (o_data o)))])
          else w' = del_obj i w
      end
  | GracePeriod => r = 0 /\ w' = mkWorld (objs w) (tail (waiting w))
  | Load i k => w' = w /\ match obj_unit w i k with Some o => o_data o !! k = Some r | None => r = 0 end
  | Store i k v => r = 0 /\ w' = match obj_unit w i k with Some o => set_obj i (with_data o (<[k := v]> (o_data o))) w | None => w end
  end.
Fixpoint spec_run `{KernelText} (cs : list call) (w : world) (rs : list Z) (w' : world) : Prop :=
  match cs, rs with
  | [], [] => w' = w
  | c :: cs', r :: rs' => exists w1, spec c w r w1 /\ spec_run cs' w1 rs' w'
  | _, _ => False
  end.

(** Sizes are size_t for kmalloc and positive ints for caches; an RCU cache has room for its
    footer, at an even address. *)
Definition call_ok (c : call) : Prop :=
  match c with
  | Kmalloc size _ => 0 <= size < two64
  | CacheAlloc c _ => cache_ok c
  | CacheFree c _ => typesafe_by_rcu c = true -> rcu_cache_ok c
  | _ => True
  end.

(** * The code *)

Section Exec.
Context {S : Type} `{PageSource S} {Tx : KernelText}.
Implicit Types (h : heap S).

Definition exec (c : call) h (cl : client) : M (Z * heap S * client) :=
  match c with
  | Kmalloc size zero =>
      '(h, p) ← __kmalloc size zero h;
      mret (p, h, if ZERO_OR_NULL_PTR p then cl else keep p size true cl)
  | Kfree i =>
      match handles cl !! i with
      | Some (p, _, true) => h ← kfree p h; mret (0, h, drop_handle i cl)
      | _ => mret (0, h, cl)
      end
  | Ksize i =>
      match handles cl !! i with
      | Some (p, _, true) => n ← ksize p h; mret (n, h, cl)
      | _ => mret (0, h, cl)
      end
  | CacheAlloc c zero =>
      '(h, r) ← kmem_cache_alloc c zero h;
      match r with
      | None => mret (0, h, cl)
      | Some p => mret (p, h, keep p (c_size c) false cl)
      end
  | CacheFree c i =>
      match handles cl !! i with
      | Some (p, size, false) =>
          if size =? c_size c then
            '(h, rcu) ← kmem_cache_free c p (callbacks cl) h;
            mret (0, h, mkClient (delete i (handles cl)) rcu)
          else mret (0, h, cl)
      | _ => mret (0, h, cl)
      end
  | GracePeriod =>
      match callbacks cl with
      | [] => mret (0, h, cl)
      | head :: rcu => h ← kmem_rcu_free head h; mret (0, h, mkClient (handles cl) rcu)
      end
  | Load i k =>
      match handles cl !! i with
      | Some (p, size, _) =>
          if 2 * Z.of_nat k + 2 <=? size then v ← fetch (p + 2 * Z.of_nat k); mret (v, h, cl) else mret (0, h, cl)
      | None => mret (0, h, cl)
      end
  | Store i k v =>
      match handles cl !! i with
      | Some (p, size, _) =>
          if 2 * Z.of_nat k + 2 <=? size then assign (p + 2 * Z.of_nat k) v;; mret (0, h, cl) else mret (0, h, cl)
      | None => mret (0, h, cl)
      end
  end.
Fixpoint exec_all (cs : list call) h (cl : client) : M (list Z * heap S * client) :=
  match cs with
  | [] => mret ([], h, cl)
  | c :: cs' =>
      '(r, h, cl) ← exec c h cl;
      '(rs, h, cl) ← exec_all cs' h cl;
      mret (r :: rs, h, cl)
  end.
End Exec.

(** * Refinement *)

Section Refine.
Context {S : Type} `{PageSourceLaws S} {Fr : Frames} {Tx : KernelText}.
Implicit Types (h : heap S) (o : obj) (w : world).

Definition handle_of o : Z * Z * bool := (o_ptr o, o_size o, o_kmalloc o).
Definition obj_ok o : Prop := o_size o <= 2 * Z.of_nat (length (o_data o)) /\ (o_kmalloc o = false -> 1 <= o_size o < 2147483648).
Record tracks (cl : client) w : Prop := {
  t_handles : handles cl = handle_of <$> objs w;
  t_callbacks : callbacks cl = head_of <$> waiting w;
  t_objs : Forall obj_ok (objs w);
  t_waiting : Forall waiting_ok (waiting w);
}.
Definition worldP h (cl : client) w : hProp := (<affine> ⌜tracks cl w⌝ ∗ heapP h (objs w ++ (waiting w).*2))%I.

Lemma split_objects (L W : list obj) i o :
  L !! i = Some o ->
  let A := take i L in let B := drop (Datatypes.S i) L ++ W in
  L ++ W = A ++ o :: B /\ delete i L ++ W = A ++ B /\ forall o', <[i := o']> L ++ W = A ++ o' :: B.
Proof.
  intros Hi A B. subst A B. split_and!.
  - rewrite -{1}(take_drop_middle L i o Hi) -app_assoc. done.
  - rewrite delete_take_drop -app_assoc. done.
  - intros o'. rewrite insert_take_drop; [|by eapply lookup_lt_Some]. rewrite -app_assoc. done.
Qed.
Lemma handle_at cl w i : tracks cl w -> handles cl !! i = handle_of <$> objs w !! i.
Proof. intros [-> _ _ _]. apply list_lookup_fmap. Qed.

Lemma tracks_add cl w o : obj_ok o -> tracks cl w -> tracks (keep (o_ptr o) (o_size o) (o_kmalloc o) cl) (add_obj o w).
Proof. intros Ho [T1 T2 T3 T4]. split; cbn [keep add_obj handles callbacks objs waiting]; [by rewrite T1|done|by constructor|done]. Qed.
Lemma tracks_del cl w i : tracks cl w -> tracks (drop_handle i cl) (del_obj i w).
Proof.
  intros [T1 T2 T3 T4]. split; cbn [drop_handle del_obj handles callbacks objs waiting]; [by rewrite T1 list_fmap_delete|done| |done].
  by apply Forall_delete.
Qed.
Lemma tracks_set cl w i o data :
  objs w !! i = Some o -> length data = length (o_data o) -> tracks cl w -> tracks cl (set_obj i (with_data o data) w).
Proof.
  intros Hi Hl [T1 T2 T3 T4]. split; cbn [set_obj objs waiting]; [|done| |done].
  - rewrite list_fmap_insert list_insert_id; [done|]. by rewrite list_lookup_fmap Hi.
  - apply Forall_insert; [done|]. pose proof (proj1 (Forall_lookup _ _) T3 i o Hi) as [H1 H2]. split; cbn; [by rewrite Hl|done].
Qed.

(** ** Each call *)

Definition answers (c : call) w (x : Z * heap S * client) : hProp :=
  (∃ w', <affine> ⌜spec c w x.1.1 w'⌝ ∗ worldP x.1.2 x.2 w')%I.

Lemma wp_exec_kmalloc size zero h cl w : 0 <= size < two64 -> worldP h cl w ⊢ wp (exec (Kmalloc size zero) h cl) (answers (Kmalloc size zero) w).
Proof.
  intros Hs. iIntros "(%Ht&H)". cbn [exec]. iApply wp_bind. iApply (wp_wand with "[H]"); [by iApply wp_kmalloc|].
  iIntros ([h' p]) "H". wp_done. unfold kmalloc_post, answers. cbn [fst snd]. iDestruct "H" as "[[%Hp H]|(%data&%Hd&H)]".
  - iExists w. iSplitR; [iPureIntro; by left|]. assert (ZERO_OR_NULL_PTR p = true) as -> by (unfold ZERO_OR_NULL_PTR, ZERO_SIZE_PTR in *; apply Z.leb_le; lia). by iFrame.
  - destruct Hd as (H1&H2&H3&H4). assert (ZERO_OR_NULL_PTR p = false) as -> by (unfold ZERO_OR_NULL_PTR, ZERO_SIZE_PTR in *; apply Z.leb_gt; lia).
    iExists (add_obj (mkObj p size true data) w). iSplitR; [iPureIntro; right; by exists data|]. unfold worldP. cbn [add_obj objs waiting app]. iFrame "H". iPureIntro.
    by apply (tracks_add cl w (mkObj p size true data)).
Qed.

Lemma wp_exec_kfree i h cl w : worldP h cl w ⊢ wp (exec (Kfree i) h cl) (answers (Kfree i) w).
Proof.
  iIntros "(%Ht&H)". cbn [exec]. rewrite (handle_at cl w i Ht). unfold answers, spec, kmalloc_obj.
  destruct (objs w !! i) as [o|] eqn:Ei; cbn [fmap option_fmap option_map mbind option_bind]; [|wp_done; iExists w; by iFrame].
  unfold handle_of. destruct (o_kmalloc o) eqn:Ek; [|wp_done; iExists w; by iFrame].
  destruct (split_objects (objs w) (waiting w).*2 i o Ei) as (E1&E2&_). rewrite E1. iApply wp_bind.
  iApply (wp_wand with "[H]"); [by iApply wp_kfree|]. iIntros (h') "H". wp_done. iExists (del_obj i w). iSplitR; [done|]. unfold worldP. cbn [del_obj objs waiting fst snd].
  rewrite E2. iFrame. iPureIntro. by apply tracks_del.
Qed.

Lemma wp_exec_ksize i h cl w : worldP h cl w ⊢ wp (exec (Ksize i) h cl) (answers (Ksize i) w).
Proof.
  iIntros "(%Ht&H)". cbn [exec]. rewrite (handle_at cl w i Ht). unfold answers, spec, kmalloc_obj.
  destruct (objs w !! i) as [o|] eqn:Ei; cbn [fmap option_fmap option_map mbind option_bind]; [|wp_done; iExists w; by iFrame].
  unfold handle_of. destruct (o_kmalloc o) eqn:Ek; [|wp_done; iExists w; by iFrame].
  destruct (split_objects (objs w) (waiting w).*2 i o Ei) as (E1&_&_). rewrite E1. iApply wp_bind.
  iApply (wp_wand with "[H]"); [by iApply wp_ksize|]. iIntros (n) "[-> H]". wp_done. iExists w. rewrite -E1. by iFrame.
Qed.

Lemma wp_exec_cache_alloc c zero h cl w : cache_ok c -> worldP h cl w ⊢ wp (exec (CacheAlloc c zero) h cl) (answers (CacheAlloc c zero) w).
Proof.
  intros Hc. iIntros "(%Ht&H)". cbn [exec]. iApply wp_bind. iApply (wp_wand with "[H]"); [by iApply wp_kmem_cache_alloc|].
  unfold cache_alloc_post, answers. iIntros ([h' [p|]]) "H"; cbn [fst snd]; wp_done; cbn [fst snd].
  - iDestruct "H" as "(%data&%Hd&H)". destruct Hd as (H1&H2&H3). iExists (add_obj (mkObj p (c_size c) false data) w).
    iSplitR; [iPureIntro; right; by exists data|]. unfold worldP. cbn [add_obj objs waiting app]. iFrame "H". iPureIntro.
    apply (tracks_add cl w (mkObj p (c_size c) false data)); [|done]. split; [done|]. intros _. apply (co_size _ Hc).
  - iExists w. iSplitR; [iPureIntro; by left|]. by iFrame.
Qed.

Lemma heapP_perm h L L' : L ≡ₚ L' -> heapP h L ⊢ heapP h L'.
Proof. intros HL. iIntros "(%F&%B&%Hp&Hs&H)". iExists F, B. iFrame "Hs". iSplitR; [done|]. by rewrite HL. Qed.

Lemma wp_exec_cache_free c i h cl w :
  (typesafe_by_rcu c = true -> rcu_cache_ok c) -> worldP h cl w ⊢ wp (exec (CacheFree c i) h cl) (answers (CacheFree c i) w).
Proof.
  intros Hc. iIntros "(%Ht&H)". cbn [exec]. rewrite (handle_at cl w i Ht). unfold answers, spec, cache_obj.
  destruct (objs w !! i) as [o|] eqn:Ei; cbn [fmap option_fmap option_map mbind option_bind]; [|wp_done; iExists w; by iFrame].
  unfold handle_of. destruct (o_kmalloc o) eqn:Ek; cbn [negb andb]; [wp_done; iExists w; by iFrame|].
  destruct (Z.eqb_spec (o_size o) (c_size c)) as [Es|Es]; [|wp_done; iExists w; by iFrame].
  destruct (split_objects (objs w) (waiting w).*2 i o Ei) as (E1&E2&_). pose proof (proj1 (Forall_lookup _ _) (t_objs _ _ Ht) i o Ei) as [Ho1 Ho2].
  specialize (Ho2 Ek). rewrite E1. iApply wp_bind. destruct (typesafe_by_rcu c) eqn:Er.
  - pose proof Ht as [T1 T2 T3 T4]. rewrite T2.
    iApply (wp_wand with "[H]"); [iApply (wp_kmem_cache_free_rcu with "H"); [by apply Hc|lia|done]|].
    iIntros ([h' rcu]) "(%Hr&H)". injection Hr as -> ->. wp_done.
    iExists (mkWorld (delete i (objs w)) (link_last (head_of (c, o)) (waiting w) ++ [(c, with_data o (footed c (o_data o)))])).
    iSplitR; [done|]. unfold worldP. cbn [fst snd objs waiting]. iSplitR.
    + iPureIntro. split; cbn [handles callbacks objs waiting].
      * by rewrite T1 list_fmap_delete.
      * by rewrite fmap_app link_last_heads.
      * by apply Forall_delete.
      * apply Forall_app. split; [by apply link_last_ok|]. constructor; [|constructor]. split_and!; [by apply Hc|done|done|].
        apply footed_footer, units_inside; [by apply Hc|lia].
    + iApply (heapP_perm with "H"). rewrite fmap_app delete_take_drop -!app_assoc. cbn [fmap list_fmap snd].
      apply Permutation_app_head. by rewrite Permutation_cons_append -app_assoc.
  - iApply (wp_wand with "[H]"); [iApply (wp_kmem_cache_free with "H"); [done|done|done|lia]|].
    iIntros ([h' rcu]) "[%Hr H]". cbn [fst snd] in *. subst rcu. wp_done. iExists (del_obj i w). iSplitR; [done|]. unfold worldP. cbn [del_obj objs waiting fst snd].
    rewrite E2. iFrame. iPureIntro. by apply tracks_del.
Qed.

Lemma wp_exec_grace h cl w : worldP h cl w ⊢ wp (exec GracePeriod h cl) (answers GracePeriod w).
Proof.
  iIntros "(%Ht&H)". cbn [exec]. pose proof Ht as [T1 T2 T3 T4]. unfold answers, spec. rewrite T2.
  destruct (waiting w) as [|[c o] W] eqn:EW; cbn [fmap list_fmap].
  - wp_done. iExists w. iSplitR; [iPureIntro; destruct w; cbn in *; by subst|]. unfold worldP. rewrite EW. by iFrame.
  - apply Forall_cons in T4 as [(C1&C2&C3&C4) T4]. cbn [fst snd] in *. iApply wp_bind.
    iApply (wp_wand with "[H]"); [by iApply (wp_kmem_rcu_free c)|]. iIntros (h') "H". wp_done. iExists (mkWorld (objs w) W).
    iSplitR; [done|]. unfold worldP. cbn [fst snd objs waiting]. iFrame. iPureIntro. by split.
Qed.

(** Units of an object, which the caller reads and writes. *)
Lemma worldP_unit h cl w i k o :
  objs w !! i = Some o -> 2 * Z.of_nat k + 2 <= o_size o ->
  worldP h cl w ⊢ ∃ v, <affine> ⌜o_data o !! k = Some v⌝ ∗ (o_ptr o + 2 * Z.of_nat k) ↦ v
    ∗ (∀ v', (o_ptr o + 2 * Z.of_nat k) ↦ v' -∗ worldP h cl (set_obj i (with_data o (<[k := v']> (o_data o))) w)).
Proof.
  intros Hi Hk. iIntros "(%Ht&H)". pose proof (proj1 (Forall_lookup _ _) (t_objs _ _ Ht) i o Hi) as [Ho _].
  destruct (lookup_lt_is_Some_2 (o_data o) k ltac:(lia)) as [v Ev]. destruct (split_objects (objs w) (waiting w).*2 i o Hi) as (E1&_&E3).
  rewrite E1 heapP_access. iDestruct "H" as "[Hd Hh]". iDestruct (cells_unit with "Hd") as "[Hv Hd]"; [exact Ev|]. iExists v. iFrame "Hv". iSplitR; [done|].
  iIntros (v') "Hv". iSpecialize ("Hd" with "Hv"). unfold worldP. cbn [set_obj objs waiting]. rewrite E3. iSplitR.
  - iPureIntro. apply tracks_set; [done|by rewrite length_insert|done].
  - iApply ("Hh" with "[] Hd"). by rewrite length_insert.
Qed.
Lemma set_obj_same w i o : objs w !! i = Some o -> set_obj i o w = w.
Proof. intros Hi. unfold set_obj. rewrite list_insert_id; [|done]. by destruct w. Qed.

Lemma wp_exec_load i k h cl w : worldP h cl w ⊢ wp (exec (Load i k) h cl) (answers (Load i k) w).
Proof.
  iIntros "H". iAssert ⌜tracks cl w⌝%I as %Ht; [by iDestruct "H" as "[%Ht _]"|]. cbn [exec]. rewrite (handle_at cl w i Ht). unfold answers, spec, obj_unit.
  destruct (objs w !! i) as [o|] eqn:Ei; cbn [fmap option_fmap option_map mbind option_bind]; [|wp_done; iExists w; by iFrame].
  unfold handle_of. destruct (Z.leb_spec (2 * Z.of_nat k + 2) (o_size o)) as [Hk|Hk]; [|wp_done; iExists w; by iFrame].
  rewrite (worldP_unit h cl w i k o Ei Hk). iDestruct "H" as "(%v&%Ev&Hv&H)". wp_load "Hv". wp_done. iExists w. iSplitR; [done|].
  iSpecialize ("H" with "Hv"). rewrite list_insert_id; [|done]. rewrite with_data_same set_obj_same; done.
Qed.
Lemma wp_exec_store i k v h cl w : worldP h cl w ⊢ wp (exec (Store i k v) h cl) (answers (Store i k v) w).
Proof.
  iIntros "H". iAssert ⌜tracks cl w⌝%I as %Ht; [by iDestruct "H" as "[%Ht _]"|]. cbn [exec]. rewrite (handle_at cl w i Ht). unfold answers, spec, obj_unit.
  destruct (objs w !! i) as [o|] eqn:Ei; cbn [fmap option_fmap option_map mbind option_bind]; [|wp_done; iExists w; by iFrame].
  unfold handle_of. destruct (Z.leb_spec (2 * Z.of_nat k + 2) (o_size o)) as [Hk|Hk]; [|wp_done; iExists w; by iFrame].
  rewrite (worldP_unit h cl w i k o Ei Hk). iDestruct "H" as "(%v0&_&Hv&H)". wp_store "Hv". wp_done. iExists _. iSplitR; [done|]. by iApply "H".
Qed.

(** ** Sequences of calls *)

Lemma wp_exec c h cl w : call_ok c -> worldP h cl w ⊢ wp (exec c h cl) (answers c w).
Proof.
  destruct c; intros Hok; [by apply wp_exec_kmalloc|apply wp_exec_kfree|apply wp_exec_ksize|by apply wp_exec_cache_alloc|by apply wp_exec_cache_free
    |apply wp_exec_grace|apply wp_exec_load|apply wp_exec_store].
Qed.
Lemma wp_exec_all cs : forall h cl w,
  Forall call_ok cs ->
  worldP h cl w ⊢ wp (exec_all cs h cl) (fun x => ∃ w', <affine> ⌜spec_run cs w x.1.1 w'⌝ ∗ worldP x.1.2 x.2 w').
Proof.
  induction cs as [|c cs IH]; intros h cl w Hok; cbn [exec_all]; iIntros "H"; [wp_done; iExists w; by iFrame|].
  apply Forall_cons in Hok as [Hc Hok]. iApply wp_bind. iApply (wp_wand with "[H]"); [by iApply wp_exec|].
  iIntros ([[r h1] cl1]) "(%w1&%H1&H)". cbn [fst snd] in *. iApply wp_bind. iApply (wp_wand with "[H]"); [by iApply (IH h1 cl1 w1)|].
  iIntros ([[rs h2] cl2]) "(%w2&%H2&H)". cbn [fst snd] in *. wp_done. iExists w2. iFrame. iPureIntro. by exists w1.
Qed.
End Refine.
