(* ===== verification/SlobRun.v ===== *)
(** Runs of the allocator from boot: what the assertions say of the memory itself. *)

From iris.proofmode Require Import proofmode.
From S2P Require Import Prelude Mem HeapLogic FindBit Kfifo KfifoFacts Slob SlobLogic SlobHeap SlobKmalloc SlobCaches SlobClient.

(** * Memory at boot *)

(** The memory of the frames [X], and nothing else. *)
Definition frame_memory (X : gset Z) (m : mem) : Prop :=
  forall a, is_Some (m !! a) <-> exists x k, x ∈ X /\ 0 <= k < 2048 /\ a = page_address x + 2 * k.

Lemma holds_mono (P Q : hProp) m : (P ⊢ Q) -> holds_on P m -> holds_on Q m.
Proof. intros [HPQ]. apply HPQ. Qed.

Lemma cells_hold (n : nat) : forall a (m : mem),
  0 < a -> (forall c, is_Some (m !! c) <-> exists k, 0 <= k < Z.of_nat n /\ c = a + 2 * k) -> exists vs, length vs = n /\ holds_on (cells a vs) m.
Proof.
  induction n as [|n IH]; intros a m Ha Hm.
  - exists []. split; [done|]. assert (m = ∅) as ->; [|done]. apply map_empty. intros c. apply eq_None_not_Some. rewrite Hm. intros (k&?&_). lia.
  - destruct (proj2 (Hm a)) as [v Hv]; [exists 0; lia|]. destruct (IH (a + 2) (delete a m)) as (vs&Hl&Hvs); [lia| |].
    + intros c. rewrite lookup_delete_is_Some Hm. split.
      * intros [Hne (k&Hk&->)]. exists (k - 1). lia.
      * intros (k&Hk&->). split; [lia|]. exists (k + 1). lia.
    + exists (v :: vs). split; [cbn; by rewrite Hl|]. exists {[a := v]}, (delete a m). split_and!.
      * by rewrite -insert_union_singleton_l insert_delete_id.
      * apply map_disjoint_singleton_l, lookup_delete_eq.
      * split; [lia|done].
      * done.
Qed.

Lemma page_address_inj x y i j :
  0 <= x < 17179869184 -> 0 <= y < 17179869184 -> 0 <= i < 2048 -> 0 <= j < 2048 ->
  page_address x + 2 * i = page_address y + 2 * j -> x = y /\ i = j.
Proof. intros Hx Hy Hi Hj. rewrite !page_address_eq; [|lia..]. lia. Qed.

Lemma frames_hold (X : gset Z) : (forall x, x ∈ X -> 0 <= x < 17179869184) -> forall m,
  frame_memory X m -> holds_on ([∗ set] x ∈ X, raw (page_address x) 2048)%I m.
Proof.
  induction X as [|x X Hx IH] using set_ind_L; intros Hr m Hm.
  - assert (m = ∅) as ->; [|by apply (holds_mono emp%I); [rewrite big_sepS_empty|]]. apply map_empty. intros c. apply eq_None_not_Some. rewrite Hm. set_solver.
  - apply (holds_mono (raw (page_address x) 2048 ∗ [∗ set] y ∈ X, raw (page_address y) 2048)%I); [by rewrite big_sepS_insert|]. set (P := fun c : Z * Z => exists k, 0 <= k < 2048 /\ c.1 = page_address x + 2 * k).
    assert (Hdec : forall c, Decision (P c)).
    { intros c. unfold P. destruct (decide (0 <= (c.1 - page_address x) / 2 < 2048 /\ (c.1 - page_address x) mod 2 = 0)) as [[H1 H2]|Hn].
      - left. exists ((c.1 - page_address x) / 2). divmod (c.1 - page_address x) 2. lia.
      - right. intros (k&Hk&E). apply Hn. rewrite E. replace (page_address x + 2 * k - page_address x) with (k * 2) by lia.
        rewrite Z.div_mul; [|done]. rewrite Z.mod_mul; [|done]. done. }
    pose proof (Hr x ltac:(set_solver)) as Hxr. pose proof (page_address_eq x ltac:(lia)) as Ex.
    destruct (cells_hold 2048 (page_address x) (filter P m)) as (vs&Hl&Hvs).
    { unfold PAGE_OFFSET in Ex. lia. }
    { intros c. rewrite /is_Some. setoid_rewrite map_lookup_filter_Some. split.
      - intros (v&_&k&Hk&E). by exists k.
      - intros (k&Hk&->). destruct (proj2 (Hm (page_address x + 2 * k))) as [v Hv]; [exists x, k; set_solver|]. exists v. split; [done|]. by exists k. }
    exists (filter P m), (filter (fun c => ~ P c) m). split_and!.
    + by rewrite map_filter_union_complement.
    + apply map_disjoint_filter_complement.
    + apply (holds_mono (cells (page_address x) vs)); [by rewrite raw_cells Hl|done].
    + apply IH; [intros y Hy; apply Hr; set_solver|]. intros c. rewrite /is_Some. setoid_rewrite map_lookup_filter_Some. split.
      * intros (v&Hv&Hn). destruct (proj1 (Hm c) (ex_intro _ _ Hv)) as (y&k&Hy&Hk&->). exists y, k. split_and!; [|lia|lia|done].
        apply elem_of_union in Hy as [->%elem_of_singleton|Hy]; [|done]. destruct Hn. by exists k.
      * intros (y&k&Hy&Hk&->). destruct (proj2 (Hm (page_address y + 2 * k))) as [v Hv]; [exists y, k; set_solver|]. exists v. split; [done|].
        intros (j&Hj&E). apply page_address_inj in E as [-> _]; [done|apply Hr; set_solver|done|done|done].
Qed.

(** * Words that an assertion does not own *)

Definition lacks (a : Z) : hProp := HProp (fun m => m !! a = None).
Lemma lacks_emp a : emp ⊢ lacks a.
Proof. constructor. intros m ->. apply lookup_empty. Qed.
Lemma lacks_sep a (P Q : hProp) : (P ⊢ lacks a) -> (Q ⊢ lacks a) -> P ∗ Q ⊢ lacks a.
Proof. intros [HP] [HQ]. constructor. intros m (m1&m2&->&_&H1&H2). apply lookup_union_None. split; [by apply HP|by apply HQ]. Qed.
Lemma lacks_word a p v : p <> a -> p ↦ v ⊢ lacks a.
Proof. intros Hne. constructor. intros m [_ ->]. by apply lookup_singleton_ne. Qed.

Lemma cells_lacks c vs : forall a, (forall k, 0 <= k < Z.of_nat (length vs) -> c <> a + 2 * k) -> cells a vs ⊢ lacks c.
Proof.
  induction vs as [|v vs IH]; intros a Hk; cbn [cells]; [apply lacks_emp|]. apply lacks_sep.
  - apply lacks_word. intros E. apply (Hk 0); cbn; lia.
  - apply IH. intros k Hk'. replace (a + 2 + 2 * k) with (a + 2 * (k + 1)) by lia. apply Hk. cbn. lia.
Qed.
Lemma raw_lacks c a n : (forall k, 0 <= k < n -> c <> a + 2 * k) -> raw a n ⊢ lacks c.
Proof. intros Hk. iIntros "(%vs&%Hl&H)". iApply (cells_lacks with "H"). rewrite Hl. done. Qed.
Lemma chain_lacks b c e : forall bs lo,
  spaced lo bs -> Forall (fun x => forall k, 0 <= k < x.2 -> c <> b + 2 * (x.1 + k)) bs -> chain b bs e ⊢ lacks c.
Proof.
  induction bs as [|[i n] bs IH]; intros lo Hs Hc; cbn [chain]; [apply lacks_emp|]. destruct Hs as (?&?&?&Hs). apply Forall_cons in Hc as [Hc Hcs].
  apply lacks_sep; [|by eapply IH]. rewrite block_raw; [|done]. apply raw_lacks. intros k Hk. specialize (Hc k Hk). cbn in Hc. lia.
Qed.

Lemma spaced_inside bs : forall lo, 0 <= lo -> spaced lo bs -> Forall (fun z => 0 <= z.1 /\ z.1 + z.2 <= 2048) bs.
Proof.
  induction bs as [|[i n] bs IH]; intros lo Hlo; [constructor|]. intros (?&?&?&Hs). constructor; [cbn; lia|]. apply (IH (i + n + 1)); [lia|done].
Qed.

Section Run.
Context {S : Type} `{PageSourceLaws S} {Fr : Frames} {Tx : KernelText}.
Implicit Types (h : heap S) (F : gmap Z (list (Z * Z))) (B : gmap (Z * nat) bool) (o : obj) (w : world).

Lemma chains_lacks F c :
  (forall b bs, F !! b = Some bs -> chain b bs 2048 ⊢ lacks c) -> chains F ⊢ lacks c.
Proof.
  unfold chains. induction F as [|b bs F Hb IH] using map_ind; intros HF; [rewrite big_sepM_empty; apply lacks_emp|].
  rewrite big_sepM_insert; [|done]. apply lacks_sep; [apply HF, lookup_insert_eq|]. apply IH. intros b' bs' Hb'. apply HF. rewrite lookup_insert_ne; [done|congruence].
Qed.
Lemma frames_lacks (X : gset Z) c : (forall x, x ∈ X -> raw (page_address x) 2048 ⊢ lacks c) -> ([∗ set] x ∈ X, raw (page_address x) 2048) ⊢ lacks c.
Proof.
  induction X as [|x X Hx IH] using set_ind_L; intros HX; [rewrite big_sepS_empty; apply lacks_emp|].
  rewrite big_sepS_insert; [|done]. apply lacks_sep; [apply HX; set_solver|]. apply IH. intros y Hy. apply HX. set_solver.
Qed.

(** A unit of a frame that was handed out, and that is not free in a page of the heap, belongs
    to nobody but an object. *)
Lemma slobP_lacks h F B x i :
  x ∈ used (owned F B) -> x ∈ ps_frames (source h) -> 0 <= i < 2048 ->
  (forall bs, F !! page_address x = Some bs -> Forall (fun y => y.1 + y.2 <= i \/ i < y.1) bs) ->
  slobP h F B ⊢ lacks (page_address x + 2 * i).
Proof.
  intros Hu Hx Hi HF. iIntros "(%Hwf&H)". pose proof (hw_source _ _ _ Hwf) as W. pose proof (ps_range _ _ _ W Hx) as Hxr.
  iApply (lacks_sep with "H").
  - apply chains_lacks. intros b bs Hb. destruct (hw_page _ _ _ Hwf b bs Hb) as [Hs _]. apply (chain_lacks b _ 2048 bs 0 Hs).
    destruct (hw_address _ _ _ Hwf b) as (y&Hy&->); [by apply elem_of_dom|]. pose proof (ps_range _ _ _ W Hy) as Hyr.
    assert (Hin : Forall (fun z => 0 <= z.1 /\ z.1 + z.2 <= 2048) bs) by (by apply (spaced_inside bs 0)).
    apply Forall_forall. intros [j n] Hj k Hk E. cbn in *. pose proof (proj1 (Forall_forall _ _) Hin _ Hj) as Hjn. cbn in Hjn.
    apply page_address_inj in E as [-> ->]; [|lia..]. pose proof (proj1 (Forall_forall _ _) (HF bs Hb) _ Hj) as Hd. cbn in Hd. lia.
  - apply frames_lacks. intros y [Hy Hn]%elem_of_difference. pose proof (ps_range _ _ _ W Hy) as Hyr. apply raw_lacks. intros k Hk E.
    apply page_address_inj in E as [-> _]; [done|lia..].
Qed.

(** * Nothing is lost *)

Lemma free_unit bs : spaced 0 bs -> total bs < 2048 -> exists i, 0 <= i < 2048 /\ Forall (fun y => y.1 + y.2 <= i \/ i < y.1) bs.
Proof.
  assert (Hab : forall lo cs, spaced lo cs -> Forall (fun y : Z * Z => lo <= y.1) cs).
  { intros lo cs. revert lo. induction cs as [|[j m] cs IH]; intros lo; [constructor|]. intros (?&?&?&Hs). constructor; [done|].
    eapply Forall_impl; [by apply IH|]. cbn. intros [] ?. cbn in *. lia. }
  destruct bs as [|[i n] bs]; [exists 0; split; [lia|constructor]|]. intros (?&?&?&Hs) Ht. pose proof (blocks_bound _ _ Hs) as [Hb _]. cbn [total] in Ht.
  destruct (decide (i = 0)) as [->|Hi].
  - exists n. split; [lia|]. constructor; [cbn; lia|]. eapply Forall_impl; [by apply Hab|]. cbn. lia.
  - exists 0. split; [lia|]. constructor; [cbn; lia|]. eapply Forall_impl; [by apply Hab|]. cbn. lia.
Qed.

Lemma all_back h m : frame_memory frames m -> holds_on (heapP h []) m -> ps_ok (source h) ∅ /\ ps_frames (source h) = frames.
Proof.
  intros Hm (F&B&m1&m2&->&Hd&[He Hpa]&Hh). assert (m1 = ∅) as -> by exact He. rewrite left_id_L in Hm. destruct Hh as (m3&m4&->&_&Hs&He').
  assert (m4 = ∅) as -> by exact He'. rewrite right_id_L in Hm. clear Hd. assert (Hwf : heap_wf h F B) by (destruct Hs as (?&?&_&_&[_ Hwf]&_); exact Hwf).
  pose proof (hw_source _ _ _ Hwf) as W. pose proof (hw_frames _ _ _ Hwf) as Hf.
  assert (Hno : forall x i, x ∈ used (owned F B) -> x ∈ ps_frames (source h) -> 0 <= i < 2048 ->
    (forall bs, F !! page_address x = Some bs -> Forall (fun y => y.1 + y.2 <= i \/ i < y.1) bs) -> False).
  { intros x i Hu Hx Hi HF. pose proof (holds_mono _ _ _ (slobP_lacks h F B x i Hu Hx Hi HF) Hs) as Hn. unfold lacks, holds_on in Hn. cbn in Hn.
    destruct (proj2 (Hm (page_address x + 2 * i))) as [v Hv]; [|congruence]. exists x, i. by rewrite -Hf. }
  assert (HF : F = ∅).
  { apply map_empty. intros b. destruct (F !! b) as [bs|] eqn:Hb; [|done]. exfalso. assert (Hbd : b ∈ dom F) by (by apply elem_of_dom).
    destruct (hw_page_ok _ _ _ _ Hwf Hbd) as (_&Eb&Hx). destruct (hw_page _ _ _ Hwf b bs Hb) as [Hsp _]. destruct (free_unit bs Hsp (Hpa b bs Hb)) as (i&Hi&HF).
    apply (Hno (page_to_pfn b) i); [|done|done|rewrite Eb Hb; by intros bs' [= <-]].
    apply elem_of_used. exists (page_to_pfn b), 0%nat. split; [by apply owned_page|apply frames_first]. }
  assert (HB : B = ∅).
  { apply map_empty. intros [p o]. destruct (B !! (p, o)) as [c|] eqn:Hp; [|done]. exfalso. pose proof (owned_whole F B p o c Hp) as Hin.
    apply (Hno p 0); [|eapply ps_block; [exact W|exact Hin|apply frames_first]|lia|by rewrite HF].
    apply elem_of_used. exists p, o. split; [done|apply frames_first]. }
  split; [|done]. rewrite HF HB in W. replace (owned ∅ ∅) with (∅ : gset (Z * nat)) in W; [done|]. unfold owned. by rewrite !dom_empty_L set_map_empty left_id_L.
Qed.

(** * Objects in memory *)

Lemma holds_word (P : hProp) a v m : (P ⊢ a ↦ v ∗ True) -> holds_on P m -> m !! a = Some v.
Proof.
  intros HP Hm. apply (holds_mono _ _ _ HP) in Hm. destruct Hm as (m1&m2&->&_&[_ ->]&_). apply lookup_union_Some_l, lookup_singleton_eq.
Qed.
Lemma world_contents h cl w m i o k v :
  holds_on (worldP h cl w) m -> objs w !! i = Some o -> o_data o !! k = Some v -> m !! (o_ptr o + 2 * Z.of_nat k) = Some v.
Proof.
  intros Hm Hi Hk. eapply holds_word; [|exact Hm]. iIntros "(%Ht&H)". destruct (split_objects (objs w) (waiting w).*2 i o Hi) as (E1&_&_).
  rewrite E1 heapP_access. iDestruct "H" as "[Hd Hh]". iDestruct (cells_unit _ _ _ _ Hk with "Hd") as "[Hv Hd]". iFrame "Hv".
Qed.
Lemma cells_apart a vs b ws k j v u :
  vs !! k = Some v -> ws !! j = Some u -> cells a vs ⊢ cells b ws -∗ ⌜(a + 2 * Z.of_nat k <> b + 2 * Z.of_nat j)%Z⌝.
Proof.
  intros Hk Hj. iIntros "Ha Hb". iDestruct (cells_unit with "Ha") as "[Ha _]"; [exact Hk|]. iDestruct (cells_unit with "Hb") as "[Hb _]"; [exact Hj|].
  iApply (pointsto_ne with "Ha Hb").
Qed.
Lemma world_apart h cl w m i j o o' k l v u :
  holds_on (worldP h cl w) m -> i <> j -> objs w !! i = Some o -> objs w !! j = Some o' -> o_data o !! k = Some v -> o_data o' !! l = Some u ->
  o_ptr o + 2 * Z.of_nat k <> o_ptr o' + 2 * Z.of_nat l.
Proof.
  intros Hm Hij Hi Hj Hk Hl. assert (HP : worldP h cl w ⊢ ⌜(o_ptr o + 2 * Z.of_nat k <> o_ptr o' + 2 * Z.of_nat l)%Z⌝).
  { iIntros "(%Ht&%F&%B&%Hpa&Hs&HL)". rewrite big_sepL_app. iDestruct "HL" as "[HL _]".
    rewrite (big_sepL_delete _ _ i o Hi). iDestruct "HL" as "[Ho HL]". rewrite (big_sepL_lookup_acc _ _ j o' Hj). iDestruct "HL" as "[Ho' _]".
    rewrite decide_False; [|done]. rewrite (objP_access F B o). iDestruct "Ho" as "[Ho _]".
    rewrite (objP_access F B o'). iDestruct "Ho'" as "[Ho' _]". iApply (cells_apart with "Ho Ho'"); done. }
  exact (holds_mono _ _ _ HP Hm).
Qed.
End Run.
