(* ===== verification/PageSourceInst.v ===== *)
(** The page allocator is a source of pages for SLOB. *)

From stdpp Require Import gmap relations.
From S2P Require Import Prelude Buddy BuddyBlocks BuddyFacts PageAlloc PageAllocFacts PageAllocPcp PageAllocOps PageAllocSystem PageGet PageGetFacts Mem Slob SlobHeap.

(** A zone with the lists of the CPU, and what allocation takes from its surroundings. *)
Record node := mkNode {
  node_zone : zone;
  node_pcp : per_cpu_pages;
  node_zone_id : Z;
  node_classzone : nat;
  node_watermark : list Z;
  node_map : Z -> Z;
}.
Definition with_zone (n : node) (z : zone) (pcp : per_cpu_pages) : node :=
  mkNode z pcp (node_zone_id n) (node_classzone n) (node_watermark n) (node_map n).

(** The first attempt of __alloc_pages_nodemask for GFP_KERNEL. *)
Definition node_alloc (comp : bool) (order : nat) (n : node) : res (node * option Z) :=
  let* (z, pcp, r) := get_page_from_freelist (node_map n) (node_watermark n) order comp ALLOC_WMARK_LOW (node_classzone n) MIGRATE_UNMOVABLE
                        (node_pcp n) (node_zone n) in
  Ret (with_zone n z pcp, r).
Definition node_free (p : Z) (order : nat) (n : node) : res node :=
  let* (z, pcp) := __free_pages p order (node_pcp n) (node_zone n) in
  Ret (with_zone n z pcp).
#[export] Instance node_source : PageSource node := {
  alloc_pages := node_alloc;
  release_pages := node_free;
  Slob.compound_order p n := PageGet.compound_order p (node_zone n);
}.

(** The zone with the blocks [O] handed out. *)
Definition head_ok (z : zone) (p : Z) (o : nat) : Prop := forall pg, pages z !! p = Some pg -> PageHead pg = true -> (0 < o)%nat.
Record node_ok (n : node) (O : gset (Z * nat)) : Prop := {
  no_full : exists own, sys_full (node_zone_id n) (mkSystem (node_zone n) (node_pcp n) own) /\ O = list_to_set own;
  no_back : forall p o, (p, o) ∈ O -> returnable (node_zone n) p o /\ head_ok (node_zone n) p o;
  no_range : forall x, mine (node_zone_id n) (node_zone n) x -> 0 <= x < 17179869184;
  no_class : (node_classzone n < length (lowmem_reserve (node_zone n)))%nat;
  no_mark : is_Some (node_watermark n !! 1%nat);
}.
Definition node_frames (n : node) : gset Z := dom (filter (fun kv => zone_id kv.2 = node_zone_id n) (pages (node_zone n))).

Lemma elem_of_node_frames n x : x ∈ node_frames n <-> mine (node_zone_id n) (node_zone n) x.
Proof.
  unfold node_frames, mine. rewrite elem_of_dom. split.
  - intros (pg&[E H]%map_lookup_filter_Some). by exists pg.
  - intros (pg&E&H). exists pg. by apply map_lookup_filter_Some.
Qed.
Lemma frames_inside p o x : x ∈ frames_of p o <-> inside p o x.
Proof. rewrite elem_of_frames. done. Qed.
Lemma node_frames_span n z pcp : same_span (node_zone n) z -> node_frames (with_zone n z pcp) = node_frames n.
Proof. intros Hs. apply set_eq. intros x. rewrite !elem_of_node_frames. by apply same_span_mine. Qed.

(** A block whose page structures are not written. *)
Lemma spared_block z z' p o :
  (forall x, inside p o x -> pages z' !! x = pages z !! x) -> returnable z p o -> head_ok z p o ->
  returnable z' p o /\ head_ok z' p o /\ PageGet.compound_order p z' = PageGet.compound_order p z.
Proof.
  intros Hx Hr Hh. pose proof (Hx p (inside_self p o)) as Ep. split_and!.
  - destruct Hr as [(pg&E&H1) H2]. split; [exists pg; by rewrite Ep|]. intros pg' x E' Hin Hne. rewrite Ep in E'.
    destruct (H2 pg' x E' Hin Hne) as (pgx&Ex&Hex). exists pgx. by rewrite Hx.
  - intros pg E. apply Hh. by rewrite <- Ep.
  - unfold PageGet.compound_order, Buddy.page_at. rewrite Ep. destruct (pages z !! p) as [pg|] eqn:E; [|done]. cbn [res_bind].
    destruct (PageHead pg) eqn:Eh; [|done]. cbn [negb]. rewrite Hx; [done|]. specialize (Hh pg E Eh). pose proof (size_two o Hh). unfold inside. lia.
Qed.

Lemma node_alloc_ok n O c o :
  node_ok n O ->
  exists n' r, alloc_pages c o n = Ret (n', r) /\ node_frames n' = node_frames n
    /\ (forall q o', (q, o') ∈ O -> Slob.compound_order q n' = Slob.compound_order q n)
    /\ match r with
       | None => node_ok n' O
       | Some p => (p, o) ∉ O /\ node_ok n' ({[(p, o)]} ∪ O) /\ Slob.compound_order p n' = Ret (if c then o else 0%nat)
       end.
Proof.
  intros [(own&Hf&HO) N2 N3 N4 [mark Hmk]]. cbn [alloc_pages node_source Slob.compound_order]. unfold node_alloc.
  destruct (get_page_ok (node_zone_id n) (node_map n) (node_watermark n) o c ALLOC_WMARK_LOW (node_classzone n) MIGRATE_UNMOVABLE (node_pcp n) (node_zone n) own mark)
    as (z'&pcp'&r&->&Hsp&Hspan&Hr); [done|unfold MIGRATE_UNMOVABLE, MIGRATE_PCPTYPES; lia|done|unfold mark_at; change (Z.to_nat (Z.land ALLOC_WMARK_LOW ALLOC_WMARK_MASK)) with 1%nat; by rewrite Hmk|].
  cbn [res_bind]. exists (with_zone n z' pcp'), r. split; [done|]. split; [by apply node_frames_span|].
  assert (Hold : forall q o', (q, o') ∈ O -> returnable z' q o' /\ head_ok z' q o' /\ PageGet.compound_order q z' = PageGet.compound_order q (node_zone n)).
  { intros q o' Hq. destruct (N2 q o' Hq) as [H1 H2]. apply spared_block; [|done|done]. intros x Hx. apply Hsp.
    apply (so_out _ _ (sf_ok _ _ Hf) q o'); [|done]. rewrite HO, elem_of_list_to_set in Hq. done. }
  split; [intros q o' Hq; exact (proj2 (proj2 (Hold q o' Hq)))|]. destruct Hspan as (S1&S2&S3&S4&S5).
  assert (Hmine : forall x, mine (node_zone_id n) z' x -> 0 <= x < 17179869184) by (intros x Hx; apply N3; by apply (same_span_mine _ (node_zone n) z' x)).
  destruct r as [p|].
  - destruct Hr as (R1&R2&R3&R4&R5). split; [rewrite HO, elem_of_list_to_set; done|]. split; [|done]. split; cbn [node_zone node_pcp node_zone_id node_classzone node_watermark with_zone]; try done.
    + exists ((p, o) :: own). split; [done|]. by rewrite HO.
    + intros q o' [[= -> ->]%elem_of_singleton|Hq]%elem_of_union; [|split; by apply Hold]. split; [done|]. intros pg Epg Hh. rewrite (R4 pg Epg) in Hh.
      destruct (Nat.eqb_spec o 0); [done|lia].
    + by rewrite S5.
  - split; cbn [node_zone node_pcp node_zone_id node_classzone node_watermark with_zone]; try done.
    + by exists own.
    + intros q o' Hq. split; by apply Hold.
    + by rewrite S5.
Qed.

Lemma node_free_ok n O p o :
  node_ok n O -> (p, o) ∈ O ->
  exists n', release_pages p o n = Ret n' /\ node_frames n' = node_frames n /\ node_ok n' (O ∖ {[(p, o)]})
    /\ forall q o', (q, o') ∈ O ∖ {[(p, o)]} -> Slob.compound_order q n' = Slob.compound_order q n.
Proof.
  intros [(own&Hf&HO) N2 N3 N4 N5] Hp. cbn [release_pages node_source Slob.compound_order]. unfold node_free.
  assert (Hown : forall q o', (q, o') ∈ O <-> (q, o') ∈ own) by (intros q o'; by rewrite HO, elem_of_list_to_set).
  destruct (free_pages_full (node_zone_id n) (node_zone n) (node_pcp n) own p o) as (z'&pcp'&->&Hf'&Hspan&Ht); [done|by apply Hown|by apply N2|].
  cbn [res_bind]. exists (with_zone n z' pcp'). split; [done|]. split; [by apply node_frames_span|].
  assert (Hold : forall q o', (q, o') ∈ O ∖ {[(p, o)]} -> returnable z' q o' /\ head_ok z' q o' /\ PageGet.compound_order q z' = PageGet.compound_order q (node_zone n)).
  { intros q o' [Hq Hne]%elem_of_difference. destruct (N2 q o' Hq) as [H1 H2]. apply spared_block; [|done|done]. intros x Hx.
    apply Ht; [apply (so_out _ _ (sf_ok _ _ Hf) q o'); [by apply Hown|done]|].
    apply (apart_outside q o' p o x); [|done]. apply (so_apart _ _ (sf_ok _ _ Hf)); [by apply Hown|by apply Hown|set_solver]. }
  split; [|intros q o' Hq; exact (proj2 (proj2 (Hold q o' Hq)))]. destruct Hspan as (S1&S2&S3&S4&S5).
  split; cbn [node_zone node_pcp node_zone_id node_classzone node_watermark with_zone]; try done.
  - exists (filter (fun b => b <> (p, o)) own). split; [done|]. apply set_eq. intros [q o']. rewrite elem_of_difference, elem_of_list_to_set, list_elem_of_filter, Hown.
    set_solver.
  - intros q o' Hq. split; by apply Hold.
  - intros x Hx. apply N3. by apply (same_span_mine _ (node_zone n) z' x).
  - by rewrite S5.
Qed.

#[export] Instance node_laws : PageSourceLaws node.
Proof.
  apply (Build_PageSourceLaws node _ node_ok node_frames).
  - intros n O x Hn Hx. apply (no_range _ _ Hn). by apply elem_of_node_frames.
  - intros n O p o [(own&Hf&HO) _ _ _ _] Hp x Hx%frames_inside. apply elem_of_node_frames.
    rewrite HO, elem_of_list_to_set in Hp. by apply (so_out _ _ (sf_ok _ _ Hf) p o x Hp Hx).
  - intros n O p o q o' [(own&Hf&HO) _ _ _ _] Hp Hq Hne x Hx%frames_inside Hx'%frames_inside. rewrite HO, elem_of_list_to_set in Hp, Hq.
    by apply (apart_outside p o q o' x (so_apart _ _ (sf_ok _ _ Hf) p o q o' Hp Hq Hne)).
  - apply node_alloc_ok.
  - apply node_free_ok.
Defined.
