(* ===== verification/SlobSpec.v ===== *)
(** Properties of the SLOB allocator, with their witnesses. *)

From iris.proofmode Require Import proofmode.
From S2P Require Import Prelude Buddy BuddyFacts PageAlloc PageAllocPcp PageAllocSystem PageAllocSpec PageGet.
From S2P Require Import Mem HeapLogic FindBit Kfifo KfifoFacts Slob SlobLogic SlobHeap SlobKmalloc SlobCaches SlobClient SlobRun PageSourceInst.

(** * The heap *)

Section Heap.
Context {S : Type} `{PageSourceLaws S} {Fr : Frames} {Tx : KernelText}.
Implicit Types (h : heap S) (F : gmap Z (list (Z * Z))) (B : gmap (Z * nat) bool).

(** C12: slob_alloc, from any well formed heap over any page allocator that keeps its contract:
    it returns; it fails only if the page allocator has no page, and then the heap is as before;
    otherwise the block is aligned, lies in one page, was free or came with a new page, is cleared if that was asked for, and the page
    has exactly the units of the block less.  All other free blocks, all objects and the rest of
    memory are left alone. *)
Theorem slob_alloc_correct h F B size zero align :
  align_ok align -> 1 <= size <= PAGE_SIZE ->
  triple (slobP h F B) (slob_alloc size zero align h) (fun hr =>
    match hr.2 with
    | None => <affine> ⌜exists s, alloc_pages false 0 (source h) = Ret (s, None)⌝ ∗ slobP hr.1 F B
    | Some a =>
        ∃ b bs vs, <affine> ⌜(exists i, 0 <= i /\ i + SLOB_UNITS size <= 2048 /\ a = (b + 2 * i)%Z) /\ (align <> 0 -> a mod align = 0)
                      /\ total bs = (total (default [(0, 2048)] (F !! b)) - SLOB_UNITS size)%Z
                      /\ Z.of_nat (length vs) = SLOB_UNITS size /\ (zero = true -> zeroed size vs)⌝
          ∗ cells a vs ∗ slobP hr.1 (<[b := bs]> F) B
    end)%I.
Proof.
  intros Ha Hs. apply triple_wp. iIntros "H". iApply (wp_wand with "[H]"); [by iApply wp_slob_alloc|].
  iIntros ([h' [a|]]) "H"; [|done]. unfold slob_allocated. cbn [snd fst]. iDestruct "H" as "(%b&%bs&%vs&%Hx&H)". destruct Hx as ([H1 H2]&H3&H4&H5).
  iExists b, bs, vs. iFrame. iPureIntro. by split_and!.
Qed.

(** C11: slob_free, from any well formed heap: it returns; if the block was the last in use of its
    page, the page goes back to the page allocator with its marks and counts reset, and
    otherwise the page has exactly the units of the block more, and its free blocks are again in
    address order with no two of them adjacent, so the block was joined with its neighbours. *)
Theorem slob_free_correct h F B a size b bs i :
  F !! b = Some bs -> a = b + 2 * i -> 0 <= i -> i + SLOB_UNITS size <= 2048 -> 1 <= size <= PAGE_SIZE ->
  triple (raw a (SLOB_UNITS size) ∗ slobP h F B) (slob_free a size h) (fun h' =>
    if total bs + SLOB_UNITS size =? 2048 then
      <affine> ⌜PageSlab (page_at h' b) = false /\ PageSlobFree (page_at h' b) = false /\ units (page_at h' b) = -1⌝ ∗ slobP h' (delete b F) B
    else ∃ bs', <affine> ⌜spaced 0 bs' /\ total bs' = (total bs + SLOB_UNITS size)%Z⌝ ∗ slobP h' (<[b := bs']> F) B)%I.
Proof.
  intros Hb Ea Hi Hin Hs. apply triple_wp. iIntros "H". iApply (wp_wand with "[H]"); [by iApply (wp_slob_free h F B a size b bs i)|].
  iIntros (h') "H". destruct (_ =? 2048); [|done]. iDestruct "H" as "[[%Hr _] H]". by iFrame.
Qed.
End Heap.

(** * Runs *)

Definition empty_heap {S} (s : S) : heap S := mkHeap s ∅ [] [] [].
Definition no_client : client := mkClient [] [].
Definition empty_world : world := mkWorld [] [].

(** The objects of the world are in memory, and no two share a unit. *)
Definition in_memory (w : world) (m : mem) : Prop :=
  forall i o k v, objs w !! i = Some o -> o_data o !! k = Some v -> m !! (o_ptr o + 2 * Z.of_nat k) = Some v.
Definition separate (w : world) : Prop :=
  forall i j o o' k l, i <> j -> objs w !! i = Some o -> objs w !! j = Some o' -> (k < length (o_data o))%nat -> (l < length (o_data o'))%nat ->
  o_ptr o + 2 * Z.of_nat k <> o_ptr o' + 2 * Z.of_nat l.

Lemma empty_slob {S} `{PageSourceLaws S} (s : S) m :
  ps_ok s ∅ -> frame_memory (ps_frames s) m -> holds_on (slobP (Fr := ps_frames s) (empty_heap s) ∅ ∅) m.
Proof.
  intros Hs Hm. eapply holds_mono; [|apply (frames_hold (ps_frames s)); [intros x; by apply (ps_range s ∅)|exact Hm]].
  assert (Ho : owned ∅ ∅ = (∅ : gset (Z * nat))) by (unfold owned; by rewrite !dom_empty_L set_map_empty left_id_L).
  iIntros "H". unfold slobP, chains, avail. cbn [source empty_heap]. rewrite big_sepM_empty left_id Ho. unfold used. rewrite elements_empty /= difference_empty_L.
  iFrame. iPureIntro. split; rewrite ?Ho; cbn [source empty_heap]; try done.
  - apply NoDup_nil_2.
  - intros b. split; [intros Hb; by apply elem_of_nil in Hb|]. intros (bs&E&_). by rewrite lookup_empty in E.
Qed.
Lemma empty_holds {S} `{PageSourceLaws S} (s : S) m :
  ps_ok s ∅ -> frame_memory (ps_frames s) m -> holds_on (worldP (Fr := ps_frames s) (empty_heap s) no_client empty_world) m.
Proof.
  intros Hs Hm. eapply holds_mono; [|by apply empty_slob]. iIntros "H". unfold worldP, heapP. iSplitR; [iPureIntro; by split|].
  iExists ∅, ∅. iSplitR; [iPureIntro; by intros ? ?|]. cbn [objs waiting empty_world fmap list_fmap app big_opL]. by rewrite right_id.
Qed.

(** A run from boot over any page allocator that keeps its contract. *)
Lemma run_ok {S} `{PageSourceLaws S} {Tx : KernelText} (s : S) cs m :
  ps_ok s ∅ -> frame_memory (ps_frames s) m -> Forall call_ok cs ->
  exists rs h cl m' w, exec_all cs (empty_heap s) no_client m = Ret (rs, h, cl, m') /\ spec_run cs empty_world rs w
    /\ in_memory w m' /\ separate w /\ (objs w = [] -> waiting w = [] -> ps_ok (source h) ∅ /\ ps_frames (source h) = ps_frames s).
Proof.
  intros Hs Hm Hc. set (Fr := ps_frames s : Frames).
  destruct (wp_run_dom _ _ _ m (wp_exec_all (Fr := Fr) cs (empty_heap s) no_client empty_world Hc) (empty_holds s m Hs Hm)) as ([[rs h] cl]&m'&E&Ed&w&m1&m2&->&_&[He Hr]&Hw).
  cbn [fst snd] in *. assert (m1 = ∅) as -> by exact He. rewrite left_id_L in E, Ed |- *. exists rs, h, cl, m2, w. split_and!; [done|done| | |].
  - intros i o k v. by apply (world_contents h cl w m2).
  - intros i j o o' k l Hij Hi Hj [v Hv]%lookup_lt_is_Some_2 [u Hu]%lookup_lt_is_Some_2. by apply (world_apart h cl w m2 i j o o' k l v u).
  - intros E1 E2. assert (Hm2 : frame_memory frames m2).
    { intros a. rewrite -elem_of_dom Ed elem_of_dom. apply Hm. }
    apply (all_back h m2 Hm2). eapply holds_mono; [|exact Hw]. iIntros "[_ H]". by rewrite E1 E2.
Qed.


(** C5: SLOB on the page allocator of a zone: starting with an empty heap and a zone in which no
    page is in use, every sequence of calls returns as specified, and when all objects have been
    freed and all callbacks have run, no page is in use: every page of the zone is free or on
    the lists of the CPU, and the count of free pages is exact. *)
Theorem slob_gives_pages_back {Tx : KernelText} n cs m :
  node_ok n ∅ -> frame_memory (node_frames n) m -> Forall call_ok cs ->
  exists rs h cl m' w, exec_all cs (empty_heap n) no_client m = Ret (rs, h, cl, m') /\ spec_run cs empty_world rs w
    /\ (objs w = [] -> waiting w = [] ->
        sys_full (node_zone_id (source h)) (mkSystem (node_zone (source h)) (node_pcp (source h)) []) /\ node_frames (source h) = node_frames n).
Proof.
  intros Hn Hm Hc. destruct (@run_ok node _ node_laws Tx n cs m Hn Hm Hc) as (rs&h&cl&m'&w&E&Hr&_&_&Hb). exists rs, h, cl, m', w. split_and!; [done|done|].
  intros E1 E2. destruct (Hb E1 E2) as [[(own&Hf&Ho) _ _ _ _] Hfr]. split; [|exact Hfr]. destruct own as [|b own]; [done|]. exfalso.
  assert (b ∈ (∅ : gset (Z * nat))) as Hin by (rewrite Ho; set_solver). set_solver.
Qed.

(** * Instances *)

(** The zone of 1024 free pages, and the memory of its frames. *)
Definition memory_of (X : gset Z) : mem :=
  gset_to_gmap 0 (⋃ ((fun x => list_to_set ((fun k => page_address x + 2 * k) <$> seqZ 0 2048)) <$> elements X)).
Lemma memory_of_frames X : frame_memory X (memory_of X).
Proof.
  intros a. unfold memory_of, is_Some. setoid_rewrite lookup_gset_to_gmap_Some. split.
  - intros (v&Ha&_). apply elem_of_union_list in Ha as (Y&HY&Ha). apply list_elem_of_fmap in HY as (x&->&Hx%elem_of_elements). apply elem_of_list_to_set, list_elem_of_fmap in Ha as (k&->&Hk%elem_of_seqZ).
    exists x, k. split_and!; (done || lia).
  - intros (x&k&Hx&Hk&->). exists 0. split; [|done]. apply elem_of_union_list. eexists. split; [apply list_elem_of_fmap; exists x; split; [done|by apply elem_of_elements]|].
    apply elem_of_list_to_set, list_elem_of_fmap. exists k. split; [done|]. apply elem_of_seqZ. lia.
Qed.

Definition boot_node : node := mkNode freed_zone boot_pcp 0 0 [0; 0; 0] (fun p => 64 * p).
Lemma boot_node_ok : node_ok boot_node ∅.
Proof.
  split; cbn [boot_node node_zone node_pcp node_zone_id node_classzone node_watermark].
  - exists []. split; [apply freed_full|done].
  - intros p o Hp. by apply elem_of_empty in Hp.
  - intros x Hx. apply (z_spans _ _ (proj1 freed_inv)) in Hx. unfold zone_spans_pfn in Hx.
    replace (zone_start_pfn freed_zone) with 0 in Hx by (vm_compute; reflexivity). replace (spanned_pages freed_zone) with 1024 in Hx by (vm_compute; reflexivity).
    rewrite andb_true_iff Z.leb_le Z.ltb_lt in Hx. lia.
  - replace (length (lowmem_reserve freed_zone)) with 3%nat by (vm_compute; reflexivity). lia.
  - by exists 0.
Qed.
Lemma boot_has_page : ~ no_pages false 0 (empty_heap boot_node).
Proof.
  intros [s E]. assert (E' : match alloc_pages false 0 boot_node with Ret (_, Some _) => true | _ => false end = true) by (vm_compute; reflexivity).
  cbn [source empty_heap] in E. rewrite E in E'. discriminate.
Qed.
Definition boot_memory : mem := memory_of (node_frames boot_node).
#[local] Opaque boot_memory.

Lemma slob_alloc_correct_witness :
  exists h a m, slob_alloc 100 true 8 (empty_heap boot_node) boot_memory = Ret (h, Some a, m) /\ a mod 8 = 0.
Proof.
  destruct (triple_run _ _ _ boot_memory (slob_alloc_correct (Fr := node_frames boot_node) (empty_heap boot_node) ∅ ∅ 100 true 8
    ltac:(right; exists 3; split; [lia|reflexivity]) ltac:(change PAGE_SIZE with 4096; lia))
    (empty_slob (H0 := node_laws) boot_node boot_memory boot_node_ok (memory_of_frames _))) as ([h r]&m&E&Hr).
  destruct r as [a|]; cbn [fst snd] in Hr.
  - destruct Hr as (b&bs&vs&m1&m2&_&_&[_ (_&Ha&_)]&_). exists h, a, m. split; [exact E|]. apply Ha. lia.
  - destruct Hr as (m1&m2&_&_&[_ Hn]&_). destruct (boot_has_page Hn).
Defined.

Lemma slob_free_correct_witness :
  exists h a m h' m', slob_alloc 100 true 8 (empty_heap boot_node) boot_memory = Ret (h, Some a, m) /\ slob_free a 100 h m = Ret (h', m').
Proof.
  destruct (wp_run _ _ _ boot_memory (wp_slob_alloc (Fr := node_frames boot_node) 100 true 8 (empty_heap boot_node) ∅ ∅ ltac:(right; by exists 3) ltac:(lia))
    (empty_slob (H0 := node_laws) boot_node boot_memory boot_node_ok (memory_of_frames _))) as ([h r]&m&E&Hr).
  destruct r as [a|]; unfold slob_allocated in Hr; cbn [fst snd] in Hr.
  - destruct Hr as (b&bs&vs&m1&m2&Em&Hd&[He ([(i&Hi&Hin&Ea) _]&_&Hl&_)]&Hm2). assert (m = m2) as Em2 by (rewrite Em (He : m1 = ∅); apply left_id_L, _).
    assert (Hpre : holds_on (raw a (SLOB_UNITS 100) ∗ slobP (Fr := node_frames boot_node) h (<[b := bs]> ∅) ∅)%I m).
    { rewrite Em2. eapply holds_mono; [|exact Hm2]. iIntros "[Hc $]". rewrite -Hl. by iApply raw_cells. }
    destruct (triple_run _ _ _ m (slob_free_correct (Fr := node_frames boot_node) h (<[b := bs]> ∅) ∅ a 100 b bs i (lookup_insert_eq _ _ _) Ea Hi Hin
      ltac:(change PAGE_SIZE with 4096; lia)) Hpre) as (h'&m'&E'&_).
    exists h, a, m, h', m'. split; [exact E|exact E'].
  - destruct Hr as (m1&m2&_&_&[_ Hn]&_). destruct (boot_has_page Hn).
Defined.

(** An address in the kernel's text. *)
#[local] Instance some_text : KernelText := { text_kmem_rcu_free := 18446744071580975104 }.
(** A small cache for RCU, and a run with objects of all kinds. *)
Definition some_cache : kmem_cache := __kmem_cache_create (mkCache 40 8 true None).
Definition some_calls : list call :=
  [Kmalloc 100 true; Store 0 3 7; Kmalloc 5000 false; CacheAlloc some_cache false; Load 2 3; CacheFree some_cache 0; Kfree 1; GracePeriod; Kfree 0].
Lemma some_calls_ok : Forall call_ok some_calls.
Proof.
  assert (Hc : cache_ok some_cache).
  { split; [right; exists 3; split; [lia|done]|change (c_size some_cache) with 64; lia|done]. }
  unfold some_calls. rewrite !Forall_cons Forall_nil. by split_and!.
Qed.


(** Objects that are all freed again, also if an allocation fails. *)
Definition freeing_calls : list call := [Kmalloc 100 true; Store 0 3 7; Kmalloc 5000 false; Kfree 0; Kfree 0].
Lemma freeing_calls_ok : Forall call_ok freeing_calls.
Proof. repeat constructor; unfold two64; lia. Qed.
Lemma freeing_world rs w : spec_run freeing_calls empty_world rs w -> w = empty_world.
Proof.
  unfold freeing_calls. destruct rs as [|r1 [|r2 [|r3 [|r4 [|r5 [|]]]]]]; cbn [spec_run spec]; naive_solver.
Qed.
Lemma slob_gives_pages_back_witness :
  exists rs h cl m, exec_all freeing_calls (empty_heap boot_node) no_client boot_memory = Ret (rs, h, cl, m)
    /\ sys_full (node_zone_id (source h)) (mkSystem (node_zone (source h)) (node_pcp (source h)) []).
Proof.
  destruct (slob_gives_pages_back boot_node freeing_calls boot_memory boot_node_ok (memory_of_frames _) freeing_calls_ok) as (rs&h&cl&m&w&E&Hr&Hb).
  exists rs, h, cl, m. split; [exact E|]. apply freeing_world in Hr. subst w. exact (proj1 (Hb eq_refl eq_refl)).
Defined.
